(* ===== verification/_CoqProject ===== *)
-Q . S2P
Prelude.v
CString.v
Chain.v
FrameQueue.v
Sbm.v
SbmSpec.v
Fbm.v
FbmQueue.v
FbmPool.v
FbmRep.v
FbmSpec.v
FbmMem.v
FbmTheorems.v
FbmLayout.v
MsgQueue.v
MsgQueueSpec.v
BitReader.v
BitReaderSpec.v
CdxList.v
CdxListSpec.v
CdxQueue.v
CdxQueueSpec.v
StreamManager.v
StreamManagerSpec.v
Nvram.v
NvramSpec.v
NvramCommit.v
NvramOpen.v
NvramMtd.v
NvramSys.v
NvramCli.v
NvramSysSpec.v
NvramCliSpec.v
NvramCliTheorems.v
Owipcalc.v
OwipcalcBytes.v
OwipcalcSpec.v
OwipcalcText.v
OwipcalcRun.v
OwipcalcExamples.v
Stdio.v
Otrx.v
OtrxCrc.v
OtrxSpec.v
Md5.v
Md5Spec.v
Oseama.v
OseamaSpec.v
AwPool.v
AwPoolSpec.v
AwPoolCalls.v
AwPoolLife.v
AwPoolTheorems.v
PoolMem.v
PoolMemSpec.v
CdxMeta.v
CdxMetaSpec.v
CdxBuffer.v
CdxBufferSpec.v
Estimaters.v
EstimatersSpec.v
KeyedVector.v
KeyedVectorSpec.v
Lmo.v
LmoSpec.v
LmoCatalog.v
LmoTheorems.v
Po2lmo.v
Po2lmoSpec.v
Po2lmoTheorems.v
TplUtils.v
TplUtf8.v
TplUtilsSpec.v
TplMarkup.v
TplTheorems.v
Template.v
TemplateSpec.v
TemplateRead.v
TemplateTheorems.v
TplCatalog.v
