(* ===== verification/Prelude.v ===== *)
(** A verification of C code from the tinalinux package tree.

    The tree is a distribution for small devices: packages, most of them recipes
    and patches for programs whose sources lie elsewhere, and the programs the
    distribution itself carries.  Some components of those are modelled here,
    chosen because they keep state of their own and others depend on it.

    ** The video decoder's buffer managers
    ([allwinner/libcedarc/vdecoder/sbm.c], [fbm.c])

    A decoder reads compressed frames from a stream buffer manager (SBM), which
    the demultiplexer fills, and takes picture buffers from a frame buffer manager
    (FBM), which it shares with the display.  The two interact with the decoder
    only, through the calls modelled.

    - [FrameQueue] the contract of a frame queue and the decoder that drives it, as
      a class; theorems about the decoder are proved against the class.
    - [Sbm], Module [Sbm]: [SbmCreate] to [SbmFlushStream], one definition per C
      function, on the record [Sbm] of sbm.h with its mutex; null handles, error
      codes and [abort()] are results.  [SbmSpec] discharges the contract: frames come
      out in the order they went in, no frame is lost or duplicated, all come out when the
      decoder goes on, and the memory offered to the producer lies in the ring and never overlaps
      undecoded data.
    - [Fbm], Module [Fbm]: all of fbm.c that changes state, on the records of fbm.h and
      vdecoder.h and a heap of live buffers.  [FbmQueue] reads the linked queues as
      lists, [FbmPool] is the abstract specification (frames in seven states moved by
      decoder and display), [FbmRep] and [FbmSpec] show that every operation
      implements its transition of the pool, [FbmMem] that creation (of pictures whose
      sizes do not overflow) and destruction return and are balanced, also when an allocation fails half-way.  [FbmTheorems] has the
      theorems for all sequences of legal calls: refinement, conservation of frames,
      display order, flushing, no leak.  [FbmLayout] has the layout of the planes and
      two flaws.

    ** The message queue of the decoder ([allwinner/libcedarc/base/CdcMessageQueue.c])

    Threads of the decoder send each other messages through a bounded queue with
    a mutex and a semaphore.

    - [Chain] linked lists inside an array, shared with [FbmQueue].
    - [MsgQueue], Module [MsgQueue]: what each call does under the mutex, the
      interleavings of any number of callers as a step relation, creation and
      destruction.
    - [MsgQueueSpec] every interleaving is one of a bounded FIFO queue, no wake-up is
      lost as long as nobody flushes, what a flush can do, and balanced memory.

    ** The base of the player ([allwinner/libcedarx/libcore/base] and [playback])

    Demultiplexers read bits and keep their data on lists; packets go to the
    decoders through queues, one of them lock-free, and through the stream manager.

    - [BitReader], Module [BitReader]: CdxBitReader.c on the reservoir and the bytes of the
      buffer, with the undefined shifts.  [BitReaderSpec] what is read is the bit string of
      the buffer, and what can be put back.
    - [CdxList], Module [CdxList]: CdxList.h and CdxList.i on a memory of nodes.
      [CdxListSpec] every legal sequence of operations is one on abstract lists.
    - [CdxQueue], Module [CdxQueue]: CdxQueue.c, every access to shared memory a step of
      one of any number of threads; a run is executable from a schedule.  [CdxQueueSpec] with
      one thread on each side the queue is linearizable (the test for emptiness as long as no push
      is under way), wait-free and balanced; with two on a side it reaches freed memory.
    - [StreamManager], Module [StreamManager]: streamManager.c on the ring of frames and the
      blocks that are allocated.  [StreamManagerSpec] the ring is a queue with a
      memory of the frames read, for all sequences of legal calls, resets and rewinds
      included; the blocks are balanced; where rewinding and returning go wrong.

    - [AwPool], Module [AwPool]: AwPool.c on the live blocks of [malloc] and the structures in
      them: pools, blocks, headers, reference counts, mutexes.  [AwPoolSpec] the invariant and
      the steps that keep it, [AwPoolCalls] allocating, growing and freeing, [AwPoolLife] creating
      and destroying pools, [AwPoolTheorems] the refinement of an abstract allocator, the safety
      of its memory, that nothing leaks, and the calls that go wrong.

    - [Estimaters], Module [Estimaters]: bitrateEstimater.c and framerateEstimater.c on rings of time
      stamps.  [EstimatersSpec] the bit rate is that of a history of frames or of its longest run (the
      newest run excepted in its first second), the frame duration a median; where the estimates are off.
    - [KeyedVector], Module [KeyedVector]: CdxKeyedVector.c on the blocks of its strings.
      [KeyedVectorSpec] whole lives of a vector, whatever allocations fail if all pairs have keys, and
      without failures for any pairs.

    - [PoolMem], Module [PoolMem]: what clients of the pool see, the pools of [AwPool] with the contents of
      the memory taken from them: bytes, and the structures of the two components below.
      [PoolMemSpec] rules for the memory a client holds, proved from those of the pool: taking,
      growing, giving back, reading and writing, pools of a client's own; the class [Memory] says
      what is asked of [malloc].
    - [CdxMeta], Module [CdxMeta]: CdxMeta.c and the calls of CdxMeta.h.  [CdxMetaSpec] a meta is a stack
      of named values, for all sequences of legal calls and for copies; which calls go wrong.
    - [CdxBuffer], Module [CdxBuffer]: CdxBuffer.c and the calls and strings of CdxBuffer.h.
      [CdxBufferSpec] a buffer is a string of bytes with the values of its meta, in a pool of
      the caller or one of its own; the text of a string; which sizes go wrong.

    ** The NVRAM library and its program ([utils/nvram/src])

    Router settings in a flash partition: a hash table in memory, an image with
    a checksum on flash, and a command line that collects changes in a staging
    file until they are committed.

    - [Nvram], Module [Nvram]: nvram.c and crc.c on the mapped bytes, the table and
      the resources of the process.
    - [NvramSpec] the checksum against bit-wise polynomial division, and what it
      detects; the table against a finite map, for all sequences of calls;
      allocation failures.
    - [NvramCommit] what [nvram_commit] writes, byte by byte, that the image is
      valid, and that reading it back gives the same variables.
    - [NvramOpen] that [nvram_open] finds a committed image again, and exactly when
      it does not; [NvramMtd] that [nvram_find_mtd] finds the partition in the table
      the kernel prints.
    - [NvramSys], Module [NvramSys]: the library on the files of the system, and the
      copies to and from the staging file; [NvramSysSpec] what they make of images.
    - [NvramCli], Module [NvramCli]: cli.c, the commands, both loops over the arguments
      and [main]; [NvramCliSpec] the commands as operations on a map, and the loop
      against them; [NvramCliTheorems] whole runs of the program, sessions of several
      runs, and where the program departs.

    ** The IP calculator ([network/utils/owipcalc/src/owipcalc.c])

    A stack calculator for IPv4 and IPv6 addresses, used by network scripts.

    - [CString] the string functions of the C library that the programs use.
    - [Owipcalc], Module [Owipcalc]: every operation, the table of operations, the
      parsers, the argument loop and [main].
    - [OwipcalcBytes] and [OwipcalcSpec] each operation as arithmetic on 32-bit and
      128-bit numbers; [OwipcalcText] printing and parsing are inverse; [OwipcalcRun]
      the loop ends for any arguments, and the exit codes; [OwipcalcExamples] concrete runs, and where
      the program departs from its usage text or has undefined behaviour.

    ** The TRX image tool ([utils/otrx/src/otrx.c])

    Creates, checks and extracts firmware images of routers.

    - [Stdio] the C library calls of the tool: streams on regular files whose writes may
      fail, [getopt], [strtol], integers in either byte order.
    - [Otrx], Module [Otrx]: the three commands and [main].
    - [OtrxCrc] the checksum is the bitwise CRC-32 and sees any change of one byte.
    - [OtrxSpec] what checking says of any file; creating, checking and extracting are a
      round trip on little-endian machines; the failures that are not reported.

    ** The Seama image tool ([utils/oseama/src/oseama.c], [md5.c])

    Creates and lists images of another kind of router.

    - [Md5], Module [Md5]: the digest, the 64 steps of a block as data.  [Md5Spec] it is MD5 as RFC
      1321 has it, the constants computed from the sine, for data in any pieces.
    - [Oseama], Module [Oseama]: both commands and [main], on [Stdio], with what is printed.
    - [OseamaSpec] what creating an entity writes; listing shows what a seal is made of; sizes
      and errors it gets wrong.

    ** The translations of the web interface ([luci/luci-base/src/template_lmo.c], [po2lmo.c])

    A converter makes archives of translated texts from message catalogs; the web
    interface maps them and looks texts up by the hash of the original.

    - [Lmo], Module [Lmo]: the hashes, opening, searching and closing archives, the linked
      catalogs.  [LmoSpec] the binary search, [LmoCatalog] what the process holds for
      the catalogs, [LmoTheorems] all legal sequences of calls are those of a library of
      languages; where lookups use freed or foreign memory.
    - [Po2lmo], Module [Po2lmo]: the converter with its line buffers and its state machine, on
      [Stdio].  [Po2lmoSpec] what it reads and writes; [Po2lmoTheorems] converter and lookup
      together are a round trip for keys without spaces to squeeze; the catalogs it gets wrong.

    ** The templates of the web interface
    ([luci/luci-base/src/template_parser.c], [template_utils.c])

    Pages are templates: text with tags for Lua code, expressions, includes and translated
    texts.  The parser turns a template into Lua source, chunk by chunk, as Lua asks for it.

    - [TplUtils], Module [TplUtils]: the growing buffers, the UTF-8 and XML filters and the escapes, on
      buffers with their blocks.  [TplUtf8] the encoding of code points and what the filter does to it,
      [TplUtilsSpec] buffers as texts, [TplMarkup] the filters and escapes as functions on texts, a
      reader of Lua literals and of character references, [TplTheorems] what they promise.
    - [Template], Module [Template]: opening, reading, closing, error messages.  [TemplateSpec] the
      pieces a template asks for and those the parser makes (it strips the end of the last text once too
      often), and the chunks against them; [TemplateRead] formatting and
      reading, against the class [Translator] that says what the parser expects of catalogs;
      [TemplateTheorems] whole templates, those that are torn, and where the code departs.
    - [TplCatalog] loaded catalogs are translators; from the message catalog to the page: converter,
      lookup and template together.

    ** Conventions

    A C function is a definition in the monad [M] of this file, on the record of
    the state it works on: it returns a value and a new state, ends the process
    ([Aborted]), or has undefined behaviour ([Undef]: a signed overflow, an index out of
    range, a null pointer, a mutex locked twice).  A theorem that a call returns is a
    statement [m s = Ok r s'] or [twp]; [wp] is used only for auxiliary facts about
    calls that do return.  Integers are [Z] with the wrap-around of their width
    written out.  What belongs to code outside the tree (the outcome of [malloc], of
    mutex calls, of the memory adapter and of system calls, the text forms of
    addresses) is a parameter or an argument.

    Fuel: [Fbm.walk] and [MsgQueue.walk] follow at most as many links as there are nodes and
    [Fbm.flush_loop] runs at most once per frame; [FbmQueue], [FbmSpec] and [MsgQueueSpec] show
    that this is enough.  [Owipcalc.run_ops] tells when its rounds are used up, which with one round more than
    arguments never happens by [OwipcalcRun]; [Nvram.rehash_loop] one round per mapped byte, enough by the
    theorems that [nvram_commit] and [nvram_open] return, [Nvram.mtd_loop] one per character of
    the table, enough by [NvramMtd]; [popcount] and [decimal] run over
    the digits of a machine word.  The loops of the bit reader take a round per bit, byte or
    word of the request, those over lists one per node, [StreamManager.sum_lengths] one per slot,
    [Otrx.check_loop] and [Otrx.append_loop] one per byte of the file; the theorems of
    [BitReaderSpec], [CdxListSpec], [StreamManagerSpec] and [OtrxSpec] are equations or [twp], so
    the fuel is enough (for [append_loop] when the input is not the image itself); the same holds
    for the loops of [Oseama] that append files and take the digest.  [Oseama.entities_loop] may run for
    ever and its fuel is an argument; any fuel above the number of entities lists a seal.
    The loop of [Align2Power] has reached any size up to 2^30 after eleven rounds, and above that never
    ends, which [buffer_departs] shows for any fuel.
    [AwPool.destroy] goes as deep as there are pools; the theorems are about pools without
    children, whose destruction needs one level.  [Lmo.find_loop] halves a 32-bit interval, 34
    rounds are enough by [LmoSpec]; the other loops of [Lmo] follow at most as many links as there
    are blocks, and [Po2lmo.main_loop] takes a round per byte of the input and one more.
    The loops of [TplUtils] take at least a byte of the text per round, those of [Template] step
    through a chunk; the number of calls of the reader is an argument, any above the number of pieces
    plus one reads a template to its end.  Texts of templates are considered up to 2^26 bytes, for
    which no length overflows.

    Not modelled: the pixels and the bytes of compressed frames; the kernel
    interfaces behind the memory adapter; logging; the codecs, which are binaries; the
    Lua interpreter and the bindings that move values to and from its stack
    ([template_lualib.c]); the rest of the tree: demultiplexers, network streams, messages and timer of the player around
    external codecs, drivers, recipes for programs whose sources lie elsewhere.
    [Stdio.getopt] stops at the first operand, as POSIX has it and as the programs are used (glibc would look for
    options behind it).  Stdio writes through, so errors that only [fclose] would see do not occur.
    Concurrency: in the buffer managers and the stream manager each operation is one step between lock
    and unlock, so a sequence of calls is any interleaving of the threads; in the
    message queue, whose semaphore lies outside its mutex, threads interleave at
    every call of the two; in the lock-free queue at every access, on sequentially
    consistent memory.

    This file holds what the others share: record update, machine integers, the
    monad with its rules and tactics, ring buffers, sums over lists. *)

From Stdlib Require Import ZArith Lia.
From stdpp Require Import base list list_numbers numbers.

#[global] Open Scope Z_scope.

(** * Record update

    [r <| f := v |>] is the record [r] with field [f] replaced.  A record
    type opts in by an [Eta] instance that rebuilds it from its projections;
    the setter of a field is derived from it by [Ltac]. *)

Class Eta (R : Type) := eta : R -> R.
Class Setter {R E : Type} (proj : R -> E) := set : (E -> E) -> R -> R.
Arguments set {R E} proj {_} f r /.

Ltac derive_setter R proj :=
  let e := constr:(@eta R _) in
  let e := eval hnf in e in
  match eval pattern proj in e with
  | ?upd _ =>
      let s := eval cbv beta in (fun f => upd (fun r => f (proj r))) in
      exact s
  end.

#[global] Hint Extern 1 (@Setter ?R _ ?proj) =>
  derive_setter R proj : typeclass_instances.

Declare Scope record_scope.
Delimit Scope record_scope with rec.
Notation "x <| proj := v |>" := (set proj (fun _ => v) x)
  (at level 1, left associativity, format "x  <| proj  :=  v |>") : record_scope.
Notation "x <| proj ::= f |>" := (set proj f x)
  (at level 1, f at level 200, left associativity,
   format "x  <| proj  ::=  f |>") : record_scope.
#[global] Open Scope record_scope.


(** * Machine integers

    A C [int] is a [Z] in [[-2^31, 2^31)], an [unsigned] or [uint32_t] a [Z]
    in [[0, 2^32)], a [uint8_t] a [Z] in [[0, 2^8)].  Unsigned arithmetic wraps
    ([u32], [u8]); signed overflow is undefined, see [iadd] below. *)

Definition u8 (z : Z) : Z := z mod 2 ^ 8.
Definition u16 (z : Z) : Z := z mod 2 ^ 16.
Definition u32 (z : Z) : Z := z mod 2 ^ 32.
Definition s32 (z : Z) : Z := (z + 2 ^ 31) mod 2 ^ 32 - 2 ^ 31.
Definition in_s32 (z : Z) : bool := (- 2 ^ 31 <=? z) && (z <? 2 ^ 31).

Lemma u8_range z : 0 <= u8 z < 256.
Proof. apply (Z.mod_pos_bound z (2 ^ 8)). lia. Qed.

Lemma u32_range z : 0 <= u32 z < 4294967296.
Proof. apply (Z.mod_pos_bound z (2 ^ 32)). lia. Qed.

Lemma u32_small z : 0 <= z < 4294967296 -> u32 z = z.
Proof. intros H. unfold u32. apply Z.mod_small. lia. Qed.

Lemma u8_small z : 0 <= z < 256 -> u8 z = z.
Proof. intros H. unfold u8. apply Z.mod_small. lia. Qed.

Lemma s32_small z : -2147483648 <= z < 2147483648 -> s32 z = z.
Proof. intros H. unfold s32. rewrite Z.mod_small; lia. Qed.

(** [y & ~(2^k - 1)] *)
Lemma land_lnot_ones y k : 0 <= k -> Z.land y (Z.lnot (2 ^ k - 1)) = y - y mod 2 ^ k.
Proof.
  intros Hk. replace (2 ^ k - 1) with (Z.ones k) by (rewrite Z.ones_equiv; lia).
  rewrite <- Z.ldiff_land, Z.ldiff_ones_r, Z.shiftl_mul_pow2, Z.shiftr_div_pow2 by lia.
  pose proof (Z.div_mod y (2 ^ k) ltac:(lia)). lia.
Qed.

(** [y | (2^k - 1)] *)
Lemma lor_ones y k : 0 <= k -> Z.lor y (2 ^ k - 1) = y - y mod 2 ^ k + (2 ^ k - 1).
Proof.
  intros Hk. replace (2 ^ k - 1) with (Z.ones k) by (rewrite Z.ones_equiv; lia).
  replace (y - y mod 2 ^ k) with (Z.ldiff y (Z.ones k)).
  - rewrite Z.add_nocarry_lxor, Z.lxor_lor by (apply Z.bits_inj'; intros n Hn;
      rewrite ?Z.land_spec, ?Z.ldiff_spec, Z.bits_0; by destruct (Z.testbit _ n), (Z.testbit _ n)).
    apply Z.bits_inj'. intros n Hn. rewrite !Z.lor_spec, Z.ldiff_spec.
    by destruct (Z.testbit y n), (Z.testbit (Z.ones k) n).
  - rewrite Z.ldiff_land. replace (Z.ones k) with (2 ^ k - 1) by (rewrite Z.ones_equiv; lia).
    by apply land_lnot_ones.
Qed.

(** * Outcomes and the state monad of the C code

    A call either returns a value with the new state, ends the process with
    [abort()], or has undefined behaviour (an out-of-range array access, a
    signed overflow, a null dereference, a mutex locked twice by its owner). *)

Inductive res (S A : Type) : Type :=
| Ok (a : A) (s : S)
| Aborted (s : S)
| Undef.
Arguments Ok {S A} a s.
Arguments Aborted {S A} s.
Arguments Undef {S A}.

Definition M (S A : Type) : Type := S -> res S A.

#[global] Instance M_ret S : MRet (M S) := fun A a s => Ok a s.
#[global] Instance M_bind S : MBind (M S) := fun A B f m s =>
  match m s with
  | Ok a s' => f a s'
  | Aborted s' => Aborted s'
  | Undef => Undef
  end.

Section monad_ops.
Context {S : Type}.

Definition get : M S S := fun s => Ok s s.
Definition gets {A} (f : S -> A) : M S A := fun s => Ok (f s) s.
Definition modify (f : S -> S) : M S unit := fun s => Ok tt (f s).
Definition abort {A} : M S A := fun s => Aborted s.
Definition undef {A} : M S A := fun _ => Undef.
(** [lift o] is the value of [o], undefined behaviour when there is none. *)
Definition lift {A} (o : option A) : M S A :=
  match o with Some a => mret a | None => undef end.
(** Signed [int] arithmetic: undefined outside 32 bits. *)
Definition iadd (x y : Z) : M S Z := if in_s32 (x + y) then mret (x + y) else undef.
Definition isub (x y : Z) : M S Z := if in_s32 (x - y) then mret (x - y) else undef.
Definition imul (x y : Z) : M S Z := if in_s32 (x * y) then mret (x * y) else undef.

(** [a[i]] for a C array: undefined outside the bounds. *)
Definition zlookup {A} (l : list A) (i : Z) : option A :=
  if 0 <=? i then l !! Z.to_nat i else None.

(** [p->body], for a handle that may be [NULL]: the C functions start with
    a null test that returns [null]. *)
Definition deref {A} (null : A) (body : M S A) : M (option S) A := fun p =>
  match p with
  | None => Ok null None
  | Some s =>
      match body s with
      | Ok a s' => Ok a (Some s')
      | Aborted s' => Aborted (Some s')
      | Undef => Undef
      end
  end.
End monad_ops.

#[global] Arguments deref : simpl never.
#[global] Arguments iadd : simpl never.
#[global] Arguments isub : simpl never.
#[global] Arguments imul : simpl never.
#[global] Arguments zlookup : simpl never.

(** The state a call leaves when it returns. *)
Definition final {S A} (r : res S A) : option S :=
  match r with Ok _ s => Some s | _ => None end.

(** * Automation *)

Create HintDb cmodel.

(** Linear arithmetic with division and remainder by constants. *)
Ltac dlia := Z.to_euclidean_division_equations; lia.

(** ** Symbolic execution

    [m s = Ok a s'] goals are run from the outside in: [mrun] steps through
    binds with the lemmas below (and those added to [cmodel]), and decides the
    tests of the code from the context by arithmetic. *)

Section execution.
Context {S : Type}.
Implicit Types s : S.

Lemma bind_ok {A B} (m : M S A) (k : A -> M S B) s a s' r :
  m s = Ok a s' -> k a s' = r -> (m ≫= k) s = r.
Proof. intros E H. unfold mbind, M_bind. by rewrite E. Qed.

Lemma iadd_ok x y s : -2147483648 <= x + y < 2147483648 -> iadd x y s = Ok (x + y) s.
Proof. intros H. unfold iadd, in_s32. by replace (_ && _) with true by lia. Qed.

Lemma isub_ok x y s : -2147483648 <= x - y < 2147483648 -> isub x y s = Ok (x - y) s.
Proof. intros H. unfold isub, in_s32. by replace (_ && _) with true by lia. Qed.

Lemma imul_ok x y s : -2147483648 <= x * y < 2147483648 -> imul x y s = Ok (x * y) s.
Proof. intros H. unfold imul, in_s32. by replace (_ && _) with true by lia. Qed.

Lemma lift_ok {A} (o : option A) a s : o = Some a -> lift o s = Ok a s.
Proof. by intros ->. Qed.

Lemma deref_ok {A} (null : A) (body : M S A) s a s' :
  body s = Ok a s' -> deref null body (Some s) = Ok a (Some s').
Proof. intros E. unfold deref. by rewrite E. Qed.

Lemma deref_aborted {A} (null : A) (body : M S A) s s' :
  body s = Aborted s' -> deref null body (Some s) = Aborted (Some s').
Proof. intros E. unfold deref. by rewrite E. Qed.
End execution.

Lemma zlookup_some {A} (l : list A) i :
  0 <= i < Z.of_nat (length l) -> zlookup l i = l !! Z.to_nat i.
Proof. intros H. unfold zlookup. by replace (0 <=? i) with true by lia. Qed.

Lemma zlookup_is_Some {A} (l : list A) i :
  0 <= i < Z.of_nat (length l) -> is_Some (zlookup l i).
Proof. intros H. rewrite zlookup_some by done. apply lookup_lt_is_Some. lia. Qed.

#[export] Hint Resolve deref_ok deref_aborted zlookup_is_Some : cmodel.

Create HintDb ctest.

Lemma negb_of_true b : b = true -> negb b = false.
Proof. by intros ->. Qed.
Lemma negb_of_false b : b = false -> negb b = true.
Proof. by intros ->. Qed.
#[export] Hint Resolve negb_of_true negb_of_false : ctest.

Ltac solve_test := solve [ reflexivity | simpl; lia | simpl; eauto with ctest ].

(** A test of the code that the context decides. *)
Ltac decide_test b :=
  first [ replace b with true by (symmetry; solve_test)
        | replace b with false by (symmetry; solve_test) ].

(** One primitive call: [m s = Ok ?a ?s']. *)
Ltac mprim :=
  lazymatch goal with
  | |- iadd _ _ _ = _ => apply iadd_ok; simpl; lia
  | |- isub _ _ _ = _ => apply isub_ok; simpl; lia
  | |- imul _ _ _ = _ => apply imul_ok; simpl; lia
  | |- lift _ _ = _ => apply lift_ok; simpl; first [eassumption | by eauto with cmodel]
  | |- get _ = _ => reflexivity
  | |- gets _ _ = _ => reflexivity
  | |- modify _ _ = _ => reflexivity
  | |- mret _ _ = _ => reflexivity
  | |- abort _ = _ => reflexivity
  | |- _ => solve [eauto with cmodel]
  end.

Ltac mstep :=
  cbv beta zeta;
  lazymatch goal with
  | |- @mbind _ _ _ _ _ _ _ = _ => eapply bind_ok; [ first [ mprim | repeat mstep ] | ]
  | |- (if ?b then _ else _) _ = _ => decide_test b
  | |- deref _ _ (Some _) = _ => first [ eapply deref_ok | eapply deref_aborted ]
  | |- _ => mprim
  end.

Ltac mrun := repeat mstep.

(** ** Partial correctness

    [wp m Q s]: if the call [m] returns from [s], its result and state
    satisfy [Q].  [wp_step] follows the structure of a program. *)

Definition wp {S A} (m : M S A) (Q : A -> S -> Prop) (s : S) : Prop :=
  match m s with Ok a s' => Q a s' | _ => True end.

Section wp.
Context {S : Type}.
Implicit Types s : S.

Lemma wp_elim {A} (m : M S A) Q s a s' : wp m Q s -> m s = Ok a s' -> Q a s'.
Proof. unfold wp. intros H E. by rewrite E in H. Qed.
Lemma wp_ret {A} (a : A) (Q : A -> S -> Prop) s : Q a s -> wp (mret a) Q s.
Proof. done. Qed.
Lemma wp_bind {A B} (m : M S A) (k : A -> M S B) Q s :
  wp m (fun a s' => wp (k a) Q s') s -> wp (m ≫= k) Q s.
Proof. unfold wp, mbind, M_bind. by destruct (m s). Qed.
Lemma wp_get (Q : S -> S -> Prop) s : Q s s -> wp get Q s.
Proof. done. Qed.
Lemma wp_gets {A} (f : S -> A) (Q : A -> S -> Prop) s : Q (f s) s -> wp (gets f) Q s.
Proof. done. Qed.
Lemma wp_modify f (Q : unit -> S -> Prop) s : Q tt (f s) -> wp (modify f) Q s.
Proof. done. Qed.
Lemma wp_lift {A} (o : option A) (Q : A -> S -> Prop) s :
  (forall a, o = Some a -> Q a s) -> wp (lift o) Q s.
Proof. destruct o; [|done]. intros H. by apply H. Qed.
Lemma wp_iadd x y (Q : Z -> S -> Prop) s : Q (x + y) s -> wp (iadd x y) Q s.
Proof. unfold iadd. by destruct (in_s32 _). Qed.
Lemma wp_isub x y (Q : Z -> S -> Prop) s : Q (x - y) s -> wp (isub x y) Q s.
Proof. unfold isub. by destruct (in_s32 _). Qed.
Lemma wp_imul x y (Q : Z -> S -> Prop) s : Q (x * y) s -> wp (imul x y) Q s.
Proof. unfold imul. by destruct (in_s32 _). Qed.
Lemma wp_if {A} (b : bool) (m1 m2 : M S A) Q s :
  (b = true -> wp m1 Q s) -> (b = false -> wp m2 Q s) -> wp (if b then m1 else m2) Q s.
Proof. destruct b; auto. Qed.
Lemma wp_deref {A} (null : A) (body : M S A) (Q : A -> option S -> Prop) p :
  (p = None -> Q null None) ->
  (forall s, p = Some s -> wp body (fun a s' => Q a (Some s')) s) ->
  wp (deref null body) Q p.
Proof.
  intros H1 H2. unfold wp, deref in *. destruct p as [s|]; [|auto].
  specialize (H2 s eq_refl). by destruct (body s).
Qed.
Lemma wp_mono {A} (m : M S A) (Q Q' : A -> S -> Prop) s :
  wp m Q s -> (forall a s', Q a s' -> Q' a s') -> wp m Q' s.
Proof. unfold wp. destruct (m s); auto. Qed.
Lemma wp_any {A} (m : M S A) (Q : A -> S -> Prop) s : (forall a s', Q a s') -> wp m Q s.
Proof. intros H. unfold wp. by destruct (m s). Qed.
End wp.

Ltac wp_step :=
  cbv beta zeta;
  lazymatch goal with
  | |- wp (mret _) _ _ => apply wp_ret
  | |- wp (@mbind _ _ _ _ _ _) _ _ => apply wp_bind
  | |- wp get _ _ => apply wp_get
  | |- wp (gets _) _ _ => apply wp_gets
  | |- wp (modify _) _ _ => apply wp_modify
  | |- wp abort _ _ => exact I
  | |- wp undef _ _ => exact I
  | |- wp (iadd _ _) _ _ => apply wp_iadd
  | |- wp (isub _ _) _ _ => apply wp_isub
  | |- wp (imul _ _) _ _ => apply wp_imul
  | |- wp (lift _) _ _ => apply wp_lift; intros ? ?
  | |- wp (if _ then _ else _) _ _ => apply wp_if; intros ?
  end.

(** ** Total correctness

    [twp m Q s]: the call [m] returns from [s], and its result and state
    satisfy [Q].  [twp_step] follows the structure of a program; the
    arithmetic of the code leaves range goals that [lia] is tried on. *)

Definition twp {S A} (m : M S A) (Q : A -> S -> Prop) (s : S) : Prop :=
  match m s with Ok a s' => Q a s' | _ => False end.

Section twp.
Context {S : Type}.
Implicit Types s : S.

Lemma twp_elim {A} (m : M S A) Q s :
  twp m Q s -> exists a s', m s = Ok a s' /\ Q a s'.
Proof. unfold twp. destruct (m s) as [a s'| |]; [eauto | done..]. Qed.
Lemma twp_intro {A} (m : M S A) (Q : A -> S -> Prop) s a s' :
  m s = Ok a s' -> Q a s' -> twp m Q s.
Proof. unfold twp. by intros ->. Qed.
Lemma twp_ret {A} (a : A) (Q : A -> S -> Prop) s : Q a s -> twp (mret a) Q s.
Proof. done. Qed.
Lemma twp_bind {A B} (m : M S A) (k : A -> M S B) Q s :
  twp m (fun a s' => twp (k a) Q s') s -> twp (m ≫= k) Q s.
Proof. unfold twp, mbind, M_bind. by destruct (m s). Qed.
Lemma twp_get (Q : S -> S -> Prop) s : Q s s -> twp get Q s.
Proof. done. Qed.
Lemma twp_gets {A} (f : S -> A) (Q : A -> S -> Prop) s : Q (f s) s -> twp (gets f) Q s.
Proof. done. Qed.
Lemma twp_modify f (Q : unit -> S -> Prop) s : Q tt (f s) -> twp (modify f) Q s.
Proof. done. Qed.
Lemma twp_lift {A} (o : option A) a (Q : A -> S -> Prop) s :
  o = Some a -> Q a s -> twp (lift o) Q s.
Proof. by intros ->. Qed.
Lemma twp_iadd x y (Q : Z -> S -> Prop) s :
  -2147483648 <= x + y < 2147483648 -> Q (x + y) s -> twp (iadd x y) Q s.
Proof. intros H HQ. eapply twp_intro; [by apply iadd_ok | done]. Qed.
Lemma twp_isub x y (Q : Z -> S -> Prop) s :
  -2147483648 <= x - y < 2147483648 -> Q (x - y) s -> twp (isub x y) Q s.
Proof. intros H HQ. eapply twp_intro; [by apply isub_ok | done]. Qed.
Lemma twp_imul x y (Q : Z -> S -> Prop) s :
  -2147483648 <= x * y < 2147483648 -> Q (x * y) s -> twp (imul x y) Q s.
Proof. intros H HQ. eapply twp_intro; [by apply imul_ok | done]. Qed.
Lemma twp_if {A} (b : bool) (m1 m2 : M S A) Q s :
  (b = true -> twp m1 Q s) -> (b = false -> twp m2 Q s) -> twp (if b then m1 else m2) Q s.
Proof. destruct b; auto. Qed.
Lemma twp_mono {A} (m : M S A) (Q Q' : A -> S -> Prop) s :
  twp m Q s -> (forall a s', Q a s' -> Q' a s') -> twp m Q' s.
Proof. unfold twp. destruct (m s); auto. Qed.
Lemma twp_wp {A} (m : M S A) (Q : A -> S -> Prop) s : twp m Q s -> wp m Q s.
Proof. unfold twp, wp. by destruct (m s). Qed.
End twp.

Ltac twp_step :=
  cbv beta zeta;
  lazymatch goal with
  | |- twp (mret _) _ _ => apply twp_ret
  | |- twp (@mbind _ _ _ _ _ _) _ _ => apply twp_bind
  | |- twp get _ _ => apply twp_get
  | |- twp (gets _) _ _ => apply twp_gets
  | |- twp (modify _) _ _ => apply twp_modify
  | |- twp (iadd _ _) _ _ => apply twp_iadd; [try (simpl in *; lia)|]
  | |- twp (isub _ _) _ _ => apply twp_isub; [try (simpl in *; lia)|]
  | |- twp (imul _ _) _ _ => apply twp_imul; [try (simpl in *; lia)|]
  | |- twp (if ?b then _ else _) _ _ =>
      first [ decide_test b; cbv iota | apply twp_if; intros ? ]
  end.

(** * Bytes *)

(** A property of all bytes, by evaluation. *)
Lemma byte_cases (P : Z -> bool) : forallb (fun k => P (Z.of_nat k)) (seq 0 256) = true ->
  forall b, 0 <= b < 256 -> P b = true.
Proof.
  intros H b Hb. rewrite forallb_forall in H. specialize (H (Z.to_nat b)).
  rewrite Z2Nat.id in H by apply Hb. apply H, in_seq. lia.
Qed.

(** * Lists read through a ring index *)

Section ring.
Context {A : Type}.
Implicit Types (arr q : list A) (x : A) (st : Z).

(** [q] is what the array [arr] holds from index [st] on, modulo its size. *)
Definition ring_rep arr st q : Prop :=
  forall k, (k < length q)%nat ->
    arr !! Z.to_nat ((st + Z.of_nat k) mod Z.of_nat (length arr)) = q !! k.

Lemma ring_rep_nil arr st : ring_rep arr st [].
Proof. intros k Hk. simpl in Hk. lia. Qed.

Lemma ring_index_inj (N st k1 k2 : Z) :
  0 <= k1 < N -> 0 <= k2 < N -> (st + k1) mod N = (st + k2) mod N -> k1 = k2.
Proof.
  intros H1 H2 E.
  assert (((st + k1) - (st + k2)) mod N = 0) as D
    by (rewrite Zminus_mod, E, Z.sub_diag; apply Zmod_0_l).
  apply Z.mod_divide in D; [|lia]. destruct D as [c D].
  assert (c = 0) by nia. nia.
Qed.

Lemma ring_rep_push arr st q x :
  ring_rep arr st q -> (length q < length arr)%nat ->
  ring_rep (<[Z.to_nat ((st + Z.of_nat (length q)) mod Z.of_nat (length arr)) := x]> arr)
    st (q ++ [x]).
Proof.
  intros R Hlt k Hk. rewrite length_app in Hk. simpl in Hk.
  rewrite length_insert.
  remember (Z.of_nat (length arr)) as N eqn:HN.
  assert (0 < N) by lia.
  pose proof (Z.mod_pos_bound (st + Z.of_nat (length q)) N ltac:(lia)).
  pose proof (Z.mod_pos_bound (st + Z.of_nat k) N ltac:(lia)).
  destruct (decide (k = length q)) as [->|Hne].
  - rewrite list_lookup_insert_eq by lia.
    by rewrite list_lookup_middle.
  - rewrite list_lookup_insert_ne.
    + rewrite lookup_app_l by lia. rewrite HN. apply R. lia.
    + intros E. apply Z2Nat.inj in E; try lia.
      apply (ring_index_inj N) in E; lia.
Qed.

Lemma ring_rep_pop arr st x q :
  (0 < length arr)%nat ->
  ring_rep arr st (x :: q) -> ring_rep arr ((st + 1) mod Z.of_nat (length arr)) q.
Proof.
  intros H0 R k Hk. specialize (R (S k) ltac:(simpl; lia)).
  rewrite Zplus_mod_idemp_l.
  change (q !! k) with ((x :: q) !! S k). rewrite <- R. do 3 f_equal. lia.
Qed.

Lemma ring_rep_lookup arr st q k :
  ring_rep arr st q -> (k < length q)%nat ->
  arr !! Z.to_nat ((st + Z.of_nat k) mod Z.of_nat (length arr)) = q !! k.
Proof. intros R Hk. by apply R. Qed.
End ring.

(** [if (++p >= n) p = 0;], the index step of every ring of the code. *)
Lemma ring_succ p n : 0 <= p < n -> (if p + 1 >=? n then 0 else p + 1) = (p + 1) mod n.
Proof.
  intros H. destruct (p + 1 >=? n) eqn:E.
  - assert (p + 1 = n) as -> by lia. by rewrite Z_mod_same_full.
  - rewrite Z.mod_small; lia.
Qed.

(** [if (--p < 0) p = n - 1;] undoes it. *)
Lemma ring_pred p n :
  0 <= p < n -> (if p - 1 <? 0 then n - 1 else p - 1) = (p - 1) mod n.
Proof.
  intros H. destruct (p - 1 <? 0) eqn:E.
  - assert (p = 0) as -> by lia.
    apply (Zmod_unique _ _ (-1)); lia.
  - rewrite Z.mod_small; lia.
Qed.

Lemma mod_add_sub_cancel x n : 0 < n -> 0 <= x < n -> ((x + 1) mod n - 1) mod n = x.
Proof.
  intros Hn Hx. rewrite Zminus_mod_idemp_l.
  replace (x + 1 - 1) with x by lia. by apply Z.mod_small.
Qed.

(** * The last element *)

Lemma last_split {A} (l : list A) c : list.last l = Some c -> l = removelast l ++ [c].
Proof.
  induction l as [|x l IH]; intros H; [done|]. destruct l as [|y l]; [by simplify_eq/=|].
  change (list.last (x :: y :: l)) with (list.last (y :: l)) in H. change (removelast (x :: y :: l)) with (x :: removelast (y :: l)).
  rewrite (IH H) at 1. done.
Qed.

(** * Sums over lists *)

Definition zsum {A} (f : A -> Z) (l : list A) : Z := foldr (fun a n => f a + n) 0 l.

Lemma zsum_app {A} (f : A -> Z) l1 l2 : zsum f (l1 ++ l2) = zsum f l1 + zsum f l2.
Proof. unfold zsum. induction l1; simpl in *; lia. Qed.

Lemma zsum_nonneg {A} (f : A -> Z) l : Forall (fun a => 0 <= f a) l -> 0 <= zsum f l.
Proof. unfold zsum. induction 1; simpl in *; lia. Qed.
