(* ===== verification/CString.v ===== *)
(** Strings of the C library that the programs use: [strchr], [strtoul] and the
    decimal numbers [printf] writes, on strings without the terminating NUL. *)

From Stdlib Require Import ZArith Lia Ascii String.
From stdpp Require Import base list list_numbers numbers.
From S2P Require Import Prelude.

Open Scope string_scope.
Open Scope Z_scope.

Module CString.

Definition strchr (c : ascii) (s : string) : bool :=
  existsb (Ascii.eqb c) (list_ascii_of_string s).

(** The text before and after the first [c]. *)
Fixpoint split_at (c : ascii) (s : string) : option (string * string) :=
  match s with
  | EmptyString => None
  | String d s => if Ascii.eqb c d then Some ("", s)
                  else match split_at c s with
                       | Some (a, b) => Some (String d a, b)
                       | None => None
                       end
  end.

Definition isspace (c : ascii) : bool :=
  let n := N_of_ascii c in ((n =? 32) || ((9 <=? n) && (n <=? 13)))%N.

(** The value of a digit; 36 for what is none in any base. *)
Definition digit (c : ascii) : Z :=
  let n := Z.of_N (N_of_ascii c) in
  if (48 <=? n) && (n <=? 57) then n - 48
  else if (97 <=? n) && (n <=? 122) then n - 87
  else if (65 <=? n) && (n <=? 90) then n - 55
  else 36.

Fixpoint skip_space (s : string) : string :=
  match s with
  | String c t => if isspace c then skip_space t else s
  | EmptyString => s
  end.

(** The digits at the front, their value, how many, and the rest. *)
Fixpoint digits (base : Z) (s : string) (n : Z) (k : nat) : Z * nat * string :=
  match s with
  | String c t => if digit c <? base then digits base t (n * base + digit c) (S k) else (n, k, s)
  | EmptyString => (n, k, s)
  end.

Definition sign (s : string) : bool * string :=
  match s with
  | String c t => if Ascii.eqb c "-" then (true, t)
                  else if Ascii.eqb c "+" then (false, t) else (false, s)
  | EmptyString => (false, s)
  end.

(** The base a number is written in and its digits, for [strtoul] with base 0. *)
Definition auto_base (s : string) : Z * string :=
  match s with
  | String z (String x (String d t)) =>
      if Ascii.eqb z "0" && (Ascii.eqb x "x" || Ascii.eqb x "X") && (digit d <? 16)
      then (16, String d t)
      else if Ascii.eqb z "0" then (8, s) else (10, s)
  | String z _ => if Ascii.eqb z "0" then (8, s) else (10, s)
  | EmptyString => (10, s)
  end.

(** [strtoul(s, &r, base)]: the value and the text at [r]; [None] when nothing
    is converted ([r == s]).  [umax] is [ULONG_MAX]. *)
Definition strtoul (umax base : Z) (s : string) : option (Z * string) :=
  let '(neg, t) := sign (skip_space s) in
  let '(base, t) := if base =? 0 then auto_base t else (base, t) in
  let '(n, k, r) := digits base t 0 0 in
  match k with
  | O => None
  | S _ => Some (if umax <? n then umax else if neg then (- n) mod (umax + 1) else n, r)
  end.

(** Decimal digits of an unsigned number. *)
Fixpoint decimal (fuel : nat) (n : Z) (acc : string) : string :=
  match fuel with
  | O => acc
  | S fuel =>
      let acc := String (ascii_of_N (Z.to_N (48 + n mod 10))) acc in
      if n <? 10 then acc else decimal fuel (n / 10) acc
  end.
Definition print_u (n : Z) : string := decimal 20 n "".

(** * Decimal numbers *)

Definition numeral (d : Z) : ascii := ascii_of_N (Z.to_N (48 + d)).

(** What the parsers test of a character, for a decimal digit. *)
Lemma numeral_spec d : 0 <= d < 10 ->
  digit (numeral d) = d /\ isspace (numeral d) = false /\ Ascii.eqb (numeral d) "-" = false /\
  Ascii.eqb (numeral d) "+" = false /\ Ascii.eqb "." (numeral d) = false.
Proof.
  intros H. assert (d = 0 \/ d = 1 \/ d = 2 \/ d = 3 \/ d = 4 \/ d = 5 \/ d = 6 \/ d = 7 \/ d = 8 \/ d = 9)
    as Hd by lia.
  destruct_or!; subst; by vm_compute.
Qed.

Lemma digits_numeral d t n k : 0 <= d < 10 ->
  digits 10 (String (numeral d) t) n k = digits 10 t (n * 10 + d) (S k).
Proof.
  intros H. destruct (numeral_spec d H) as (E & _). cbn [digits]. rewrite E.
  by replace (d <? 10) with true by lia.
Qed.

Lemma decimal_unfold fuel n acc :
  decimal (S fuel) n acc =
    if n <? 10 then String (numeral (n mod 10)) acc
    else decimal fuel (n / 10) (String (numeral (n mod 10)) acc).
Proof. done. Qed.

(** Reading the digits of a number gives the number. *)
Lemma digits_decimal fuel : forall n acc, 0 <= n < 10 ^ Z.of_nat (S fuel) -> exists j,
  digits 10 (decimal (S fuel) n acc) 0 0 = digits 10 acc n (S j).
Proof.
  induction fuel as [|fuel IH]; intros n acc Hn; rewrite decimal_unfold;
    pose proof (Z.mod_pos_bound n 10 ltac:(lia)) as Hm.
  - replace (n <? 10) with true by lia. exists 0%nat. rewrite digits_numeral by done.
    by rewrite Z.mod_small by lia.
  - destruct (n <? 10) eqn:E.
    + exists 0%nat. rewrite digits_numeral by done. by rewrite Z.mod_small by lia.
    + destruct (IH (n / 10) (String (numeral (n mod 10)) acc)) as [j ->].
      { rewrite (Nat2Z.inj_succ (S fuel)), Z.pow_succ_r in Hn by lia.
        split; [apply Z.div_pos; lia|apply Z.div_lt_upper_bound; lia]. }
      exists (S j). rewrite digits_numeral by done. f_equal.
      pose proof (Z.div_mod n 10 ltac:(lia)). lia.
Qed.

(** A number starts with a digit and has no dot. *)
Lemma decimal_head fuel : forall n acc, 0 <= n -> exists d t,
  0 <= d < 10 /\ decimal (S fuel) n acc = String (numeral d) t.
Proof.
  induction fuel as [|fuel IH]; intros n acc Hn; rewrite decimal_unfold;
    pose proof (Z.mod_pos_bound n 10 ltac:(lia)).
  - destruct (n <? 10); eauto.
  - destruct (n <? 10); [eauto|]. apply IH. apply Z.div_pos; lia.
Qed.

Lemma decimal_dot fuel : forall n acc, strchr "." (decimal fuel n acc) = strchr "." acc.
Proof.
  induction fuel as [|fuel IH]; intros n acc; [done|]. rewrite decimal_unfold.
  pose proof (Z.mod_pos_bound n 10 ltac:(lia)) as Hm.
  destruct (numeral_spec _ Hm) as (_ & _ & _ & _ & D).
  assert (strchr "." (String (numeral (n mod 10)) acc) = strchr "." acc) as Hc
    by (unfold strchr; cbn [list_ascii_of_string existsb]; by rewrite D).
  destruct (n <? 10); [done|]. by rewrite IH.
Qed.

Lemma decimal_length fuel : forall n acc, 0 <= n < 10 ^ Z.of_nat fuel ->
  forall w, n < 10 ^ Z.of_nat (S w) ->
  (String.length (decimal fuel n acc) <= S w + String.length acc)%nat.
Proof.
  induction fuel as [|fuel IH]; intros n acc Hn w Hw; [simpl; lia|]. rewrite decimal_unfold.
  destruct (n <? 10) eqn:E; [simpl; lia|].
  rewrite Nat2Z.inj_succ, Z.pow_succ_r in Hn, Hw by lia.
  destruct w as [|w]; [simpl in Hw; lia|].
  pose proof (IH (n / 10) (String (numeral (n mod 10)) acc)
    ltac:(split; [apply Z.div_pos|apply Z.div_lt_upper_bound]; lia) w
    ltac:(apply Z.div_lt_upper_bound; lia)) as Hi.
  simpl in Hi. lia.
Qed.

End CString.
