(* ===== verification/Chain.v ===== *)
(** Linked lists inside an array: [chain] relates a head and the links of the
    array's elements to the list of the elements on the list. *)

From Stdlib Require Import ZArith Lia.
From stdpp Require Import base list list_numbers numbers.

Module Chain.

Fixpoint chain (ls : list (option nat)) (h : option nat) (l : list nat) : Prop :=
  match l with
  | [] => h = None
  | i :: l => h = Some i /\ exists nx, ls !! i = Some nx /\ chain ls nx l
  end.

Lemma chain_bound ls h l i : chain ls h l -> i ∈ l -> (i < length ls)%nat.
Proof.
  revert h. induction l as [|j l IH]; intros h C Hi; [by apply elem_of_nil in Hi|].
  destruct C as (_ & nx & E & C). apply elem_of_cons in Hi as [->|Hi].
  - by eapply lookup_lt_Some.
  - by eapply IH.
Qed.

(** Links outside the queue do not matter. *)
Lemma chain_ext ls ls' h l :
  (forall i, i ∈ l -> ls' !! i = ls !! i) -> chain ls h l -> chain ls' h l.
Proof.
  revert h. induction l as [|j l IH]; intros h Hx C; [done|].
  destruct C as (-> & nx & E & C). split; [done|]. exists nx. split.
  - rewrite Hx; [done|]. by left.
  - apply IH; [|done]. intros i Hi. apply Hx. by right.
Qed.

Lemma chain_insert ls h l i v : i ∉ l -> chain ls h l -> chain (<[i := v]> ls) h l.
Proof.
  intros Hi. apply chain_ext. intros k Hk. apply list_lookup_insert_ne. by intros ->.
Qed.

Lemma chain_snoc ls h l j i :
  chain ls h l -> NoDup (i :: l) -> list.last l = Some j -> (i < length ls)%nat ->
  chain (<[i := None]> (<[j := Some i]> ls)) h (l ++ [i]).
Proof.
  revert h. induction l as [|k l IH]; intros h C Hnd Hlast Hi; [done|].
  destruct C as (-> & nx & E & C). apply list.NoDup_cons in Hnd as [Hni Hnd].
  apply list.NoDup_cons in Hnd as [Hnk Hnd].
  assert (i <> k) by (intros ->; apply Hni; by left).
  split; [done|].
  destruct l as [|m l].
  - simpl in Hlast, C. simplify_eq. exists (Some i). split.
    + rewrite list_lookup_insert_ne by done. apply list_lookup_insert_eq.
      by eapply lookup_lt_Some.
    + split; [done|]. exists None. split; [|done].
      apply list_lookup_insert_eq. by rewrite length_insert.
  - assert (j ∈ m :: l) by (by apply last_Some_elem_of).
    assert (j <> k) by (intros ->; done).
    exists nx. split; [by rewrite !list_lookup_insert_ne by done|].
    apply (IH nx); [done| |done|done].
    apply list.NoDup_cons. split; [|done]. intros ?. apply Hni. by right.
Qed.

Lemma NoDup_bounded_length (l : list nat) n :
  NoDup l -> (forall i, i ∈ l -> (i < n)%nat) -> (length l <= n)%nat.
Proof.
  intros Hnd Hb. rewrite <- (length_seq n 0). apply submseteq_length, NoDup_submseteq; [done|].
  intros i Hi. apply elem_of_seq. specialize (Hb i Hi). lia.
Qed.

End Chain.
