(* ===== verification/FrameQueue.v ===== *)
(** The contract between a frame queue and the decoder that drives it.

    [FrameQueue] is the interface: operations on a state, a representation of
    that state as lent frames and unread frames, and the laws of each
    operation.  [client] is a decoder that uses a queue through the interface
    and keeps a log; [run_account] is proved against the interface only. *)

From Stdlib Require Import ZArith Lia.
From stdpp Require Import base list numbers.
From S2P Require Import Prelude.

Class FrameQueue (S P V : Type) := {
  fq_add : V -> M S Z;
  fq_request : M S (option P);
  fq_return : P -> M S Z;
  fq_flush : P -> M S Z;
  fq_reset : M S unit;
  fq_load : S -> P -> option V;
  fq_store : V -> V;
  fq_valid : V -> Prop;
  fq_accepts : S -> V -> bool;
  fq_rep : S -> list (P * V) -> list V -> Prop;
  fq_add_accept s h u v : fq_rep s h u -> fq_valid v -> fq_accepts s v = true ->
    exists s', fq_add v s = Ok 0 s' /\ fq_rep s' h (u ++ [fq_store v]);
  fq_add_refuse s h u v : fq_rep s h u -> fq_valid v -> fq_accepts s v = false ->
    fq_add v s = Ok (-1) s;
  fq_request_some s h v u : fq_rep s h (v :: u) ->
    exists p s', fq_request s = Ok (Some p) s' /\ fq_rep s' (h ++ [(p, v)]) u;
  fq_request_none s h : fq_rep s h [] -> fq_request s = Ok None s;
  fq_return_last s h p v u : fq_rep s (h ++ [(p, v)]) u ->
    exists s', fq_return p s = Ok 0 s' /\ fq_rep s' h (v :: u);
  fq_flush_first s h p v u : fq_rep s ((p, v) :: h) u ->
    fq_load s p = Some v /\ exists s', fq_flush p s = Ok 0 s' /\ fq_rep s' h u;
  fq_reset_all s h u : fq_rep s h u -> exists s', fq_reset s = Ok tt s' /\ fq_rep s' [] []
}.

Section client.
Context {S P V : Type} `{!FrameQueue S P V}.

(** What the decoder does: submit a frame, take the next one, give the last
    one back undecoded, release the oldest one it holds, reset. *)
Inductive cop :=
| CAdd (v : V)
| CRequest
| CReturn
| CFlush
| CReset.

(** [loans]: frames held, oldest first.  [accepted], [retired]: the frames
    submitted and released since the last reset. *)
Record client := mkClient {
  dev : S;
  loans : list P;
  accepted : list V;
  retired : list V
}.

Definition client_step (o : cop) (c : client) : option client :=
  match o with
  | CAdd v =>
      match fq_add v (dev c) with
      | Ok r s => Some (mkClient s (loans c)
          (if r =? 0 then accepted c ++ [fq_store v] else accepted c) (retired c))
      | _ => None
      end
  | CRequest =>
      match fq_request (dev c) with
      | Ok (Some p) s => Some (mkClient s (loans c ++ [p]) (accepted c) (retired c))
      | Ok None s => Some (mkClient s (loans c) (accepted c) (retired c))
      | _ => None
      end
  | CReturn =>
      match list.last (loans c) with
      | None => Some c
      | Some p =>
          match fq_return p (dev c) with
          | Ok 0 s => Some (mkClient s (removelast (loans c)) (accepted c) (retired c))
          | _ => None
          end
      end
  | CFlush =>
      match loans c with
      | [] => Some c
      | p :: ps =>
          match fq_load (dev c) p, fq_flush p (dev c) with
          | Some v, Ok 0 s => Some (mkClient s ps (accepted c) (retired c ++ [v]))
          | _, _ => None
          end
      end
  | CReset =>
      match fq_reset (dev c) with
      | Ok _ s => Some (mkClient s [] [] [])
      | _ => None
      end
  end.

Fixpoint client_run (os : list cop) (c : client) : option client :=
  match os with
  | [] => Some c
  | o :: os => match client_step o c with Some c' => client_run os c' | None => None end
  end.

Definition op_valid (o : cop) : Prop :=
  match o with CAdd v => fq_valid v | _ => True end.

(** The books balance: what was accepted is, in order, what was retired,
    what is on loan and what is still unread. *)
Definition account (c : client) : Prop :=
  exists lent unread,
    length lent = length (loans c) /\
    fq_rep (dev c) (zip (loans c) lent) unread /\
    retired c ++ lent ++ unread = accepted c.

Lemma zip_snoc {A B} (l : list A) (k : list B) a b :
  length l = length k -> zip (l ++ [a]) (k ++ [b]) = zip l k ++ [(a, b)].
Proof. revert k. induction l; intros [|? k] ?; simplify_eq/=; [done|]. by rewrite IHl. Qed.

Lemma step_account o c :
  op_valid o -> account c -> exists c', client_step o c = Some c' /\ account c'.
Proof.
  destruct c as [s l acc ret]. intros Hv (lent & unread & Hlen & R & Hacc).
  destruct o; simpl in *.
  - destruct (fq_accepts s v) eqn:E.
    + destruct (fq_add_accept _ _ _ _ R Hv E) as (s' & -> & R').
      eexists. split; [done|]. exists lent, (unread ++ [fq_store v]). simpl.
      by rewrite <- Hacc, <- !app_assoc.
    + rewrite (fq_add_refuse _ _ _ _ R Hv E).
      eexists. split; [done|]. by exists lent, unread.
  - destruct unread as [|v u].
    + rewrite (fq_request_none _ _ R). eexists. split; [done|]. by exists lent, [].
    + destruct (fq_request_some _ _ _ _ R) as (p & s' & -> & R').
      eexists. split; [done|]. exists (lent ++ [v]), u. simpl.
      rewrite !length_app, zip_snoc by done. split_and!; [simpl; lia|done|].
      by rewrite <- app_assoc.
  - destruct l as [|p ps _] using rev_ind.
    { eexists. split; [done|]. by exists lent, unread. }
    rewrite last_snoc, removelast_last. rewrite length_app in Hlen. simpl in Hlen.
    destruct lent as [|v lent _] using rev_ind; [simpl in Hlen; lia|].
    rewrite length_app in Hlen. simpl in Hlen. rewrite zip_snoc in R by lia.
    destruct (fq_return_last _ _ _ _ _ R) as (s' & -> & R').
    eexists. split; [done|]. exists lent, (v :: unread). simpl.
    split_and!; [lia|done|]. by rewrite <- Hacc, <- app_assoc.
  - destruct l as [|p ps].
    { eexists. split; [done|]. by exists lent, unread. }
    destruct lent as [|v lent]; [done|]. simpl in *.
    destruct (fq_flush_first _ _ _ _ _ R) as (-> & s' & -> & R').
    eexists. split; [done|]. exists lent, unread. simpl.
    split_and!; [lia|done|]. by rewrite <- Hacc, <- !app_assoc.
  - destruct (fq_reset_all _ _ _ R) as (s' & -> & R').
    eexists. split; [done|]. by exists [], [].
Qed.

Lemma run_account os c :
  Forall op_valid os -> account c -> exists c', client_run os c = Some c' /\ account c'.
Proof.
  intros Hos. revert c. induction Hos as [|o os Ho _ IH]; intros c Hc; simpl; [eauto|].
  destruct (step_account _ _ Ho Hc) as (c' & -> & Hc'). auto.
Qed.

(** A submitted frame is accepted when the queue accepts it, and then it is in the books. *)
Lemma add_step c v : account c -> fq_valid v -> exists c', client_step (CAdd v) c = Some c' /\
  accepted c' = accepted c ++ (if fq_accepts (dev c) v then [fq_store v] else []).
Proof.
  intros (lent & unread & _ & R & _) Hv. simpl. destruct (fq_accepts (dev c) v) eqn:E.
  - destruct (fq_add_accept _ _ _ _ R Hv E) as (s' & -> & _). eexists. by split.
  - rewrite (fq_add_refuse _ _ _ _ R Hv E). eexists. split; [done|]. simpl. by rewrite app_nil_r.
Qed.

(** Taking the unread frames, and releasing those held. *)
Lemma run_app os1 os2 c : client_run (os1 ++ os2) c =
  match client_run os1 c with Some c' => client_run os2 c' | None => None end.
Proof. revert c. induction os1 as [|o os1 IH]; intros c; simpl; [done|]. destruct (client_step o c); [apply IH|done]. Qed.

Lemma drain_requests n : forall c lent unread, (length unread <= n)%nat -> length lent = length (loans c) ->
  fq_rep (dev c) (zip (loans c) lent) unread ->
  exists c', client_run (replicate n CRequest) c = Some c' /\ accepted c' = accepted c /\ retired c' = retired c /\
    length (lent ++ unread) = length (loans c') /\ fq_rep (dev c') (zip (loans c') (lent ++ unread)) [].
Proof.
  induction n as [|n IH]; intros [s l acc ret] lent unread Hn Hl R; simpl in *.
  - destruct unread; [|simpl in Hn; lia]. rewrite app_nil_r. eexists. split; [done|]. done.
  - destruct unread as [|v u].
    + rewrite (fq_request_none _ _ R). apply IH; [simpl; lia|done|done].
    + destruct (fq_request_some _ _ _ _ R) as (p & s' & -> & R').
      destruct (IH (mkClient s' (l ++ [p]) acc ret) (lent ++ [v]) u) as (c' & H1 & H2 & H3 & H4 & H5); simpl.
      * simpl in Hn. lia.
      * rewrite !length_app. simpl. lia.
      * by rewrite zip_snoc by done.
      * exists c'. rewrite <- app_assoc in H4, H5. by rewrite H1.
Qed.
Lemma drain_flushes n : forall c lent, (length lent <= n)%nat -> length lent = length (loans c) ->
  fq_rep (dev c) (zip (loans c) lent) [] ->
  exists c', client_run (replicate n CFlush) c = Some c' /\ loans c' = [] /\ retired c' = retired c ++ lent.
Proof.
  induction n as [|n IH]; intros [s l acc ret] lent Hn Hl R; simpl in *.
  - destruct lent; [|simpl in Hn; lia]. destruct l; [|done]. rewrite app_nil_r. by eexists.
  - destruct lent as [|v lent], l as [|p l]; try done.
    + apply (IH (mkClient s [] acc ret) []); [simpl; lia|done|done].
    + simpl in R. destruct (fq_flush_first _ _ _ _ _ R) as (-> & s' & -> & R').
      destruct (IH (mkClient s' l acc (ret ++ [v])) lent) as (c' & H1 & H2 & H3); simpl; [simpl in Hn; lia|simpl in Hl; lia|done|].
      exists c'. rewrite H1. split_and!; [done|done|]. simpl in H3. by rewrite H3, <- app_assoc.
Qed.
Lemma drain_all c n : account c -> n = length (accepted c) ->
  exists c', client_run (replicate n CRequest ++ replicate n CFlush) c = Some c' /\ loans c' = [] /\ retired c' = accepted c.
Proof.
  intros (lent & unread & Hl & R & Ha) ->. assert (length (lent ++ unread) <= length (accepted c))%nat as Hn.
  { rewrite <- Ha, !length_app. lia. }
  destruct (drain_requests (length (accepted c)) c lent unread) as (c1 & H1 & H2 & H3 & H4 & H5); [rewrite length_app in Hn; lia|done|done|].
  destruct (drain_flushes (length (accepted c)) c1 (lent ++ unread)) as (c2 & G1 & G2 & G3); [done|done|done|].
  exists c2. rewrite run_app, H1. split_and!; [done|done|]. by rewrite G3, H3.
Qed.
End client.

Arguments cop V : clear implicits.
Arguments CAdd {V} v.
Arguments CRequest {V}.
Arguments CReturn {V}.
Arguments CFlush {V}.
Arguments CReset {V}.
Arguments client S P V : clear implicits.
