(* ===== verification/Sbm.v ===== *)
(** The stream buffer manager of the video decoder,
    [allwinner/libcedarc/vdecoder/sbm.c]: a ring of [SBM_FRAME_FIFO_SIZE]
    frame descriptors over a cyclic byte buffer.  This file holds the data,
    one definition per C function, the representation predicate [sbm_rep]
    (the descriptors as a queue of lent and unread frames) and the behaviour
    of every operation under it. *)

From Stdlib Require Import ZArith Lia.
From stdpp Require Import base list list_numbers numbers.
From S2P Require Import Prelude.

Module Sbm.

(** * Data *)

(** [VIDEOSTREAMDATAINFO] of vdecoder.h; a pointer field is its address. *)
Record VideoStreamDataInfo := mkData {
  pData : Z;
  nLength : Z;
  nPts : Z;
  nPcr : Z;
  bIsFirstPart : Z;
  bIsLastPart : Z;
  nID : Z;
  nStreamIndex : Z;
  bValid : Z;
  bVideoInfoFlag : Z;
  pVideoInfo : Z
}.
#[export] Instance eta_data : Eta VideoStreamDataInfo := fun d =>
  mkData (pData d) (nLength d) (nPts d) (nPcr d) (bIsFirstPart d) (bIsLastPart d)
    (nID d) (nStreamIndex d) (bValid d) (bVideoInfoFlag d) (pVideoInfo d).

(** [STREAMFRAMEFIFO] of sbm.h. *)
Record StreamFrameFifo := mkFifo {
  pFrames : list VideoStreamDataInfo;
  nMaxFrameNum : Z;
  nValidFrameNum : Z;
  nUnReadFrameNum : Z;
  nReadPos : Z;
  nWritePos : Z;
  nFlushPos : Z
}.
#[export] Instance eta_fifo : Eta StreamFrameFifo := fun f =>
  mkFifo (pFrames f) (nMaxFrameNum f) (nValidFrameNum f) (nUnReadFrameNum f)
    (nReadPos f) (nWritePos f) (nFlushPos f).

(** [STREAMBUFFERMANAGER] of sbm.h; [mutex] tells whether the mutex is held. *)
Record Sbm := mkSbm {
  mutex : bool;
  pStreamBuffer : Z;
  pStreamBufferEnd : Z;
  nStreamBufferSize : Z;
  pWriteAddr : Z;
  nValidDataSize : Z;
  frameFifo : StreamFrameFifo
}.
#[export] Instance eta_sbm : Eta Sbm := fun s =>
  mkSbm (mutex s) (pStreamBuffer s) (pStreamBufferEnd s) (nStreamBufferSize s)
    (pWriteAddr s) (nValidDataSize s) (frameFifo s).

Definition SBM_FRAME_FIFO_SIZE : Z := 2048.

(** A [VideoStreamDataInfo *]: null, the address of a slot of [pFrames], or
    an address that is no slot. *)
Inductive dataptr :=
| PNull
| PSlot (i : Z)
| POther.

#[export] Instance dataptr_eq_dec : EqDecision dataptr.
Proof. solve_decision. Defined.

Definition ptr_eqb (p q : dataptr) : bool := bool_decide (p = q).

Lemma ptr_eqb_refl p : ptr_eqb p p = true.
Proof. by apply bool_decide_eq_true. Qed.

Lemma ptr_eqb_ne p q : p <> q -> ptr_eqb p q = false.
Proof. intros H. by apply bool_decide_eq_false. Qed.

#[export] Hint Resolve ptr_eqb_refl ptr_eqb_ne : ctest.

(** ** Resources of creation and destruction *)

(** What [SbmCreate] acquires: the stream buffer (from [memops] or from
    [malloc]), the [Sbm] struct, the descriptor array and the mutex. *)
Inductive resource :=
| RPalloc (addr : Z)
| RMalloc (addr : Z)
| RStruct
| RFrames
| RMutex.

Inductive event :=
| Acquire (r : resource)
| Release (r : resource).

#[export] Instance resource_eq_dec : EqDecision resource.
Proof. solve_decision. Defined.

(** The results of the allocator and of [pthread_mutex_init], in call order:
    the buffer address (0 for [NULL]) and whether each [malloc] succeeds. *)
Record alloc_env := mkEnv {
  env_buf : Z;
  env_struct : bool;
  env_frames : bool;
  env_mutex : Z
}.

Definition zero_data : VideoStreamDataInfo := mkData 0 0 0 0 0 0 0 0 0 0 0.

(** [memset] of the array, then [pFrames[i].nID = i]. *)
Definition init_frames : list VideoStreamDataInfo :=
  (fun i => zero_data <| nID := i |>) <$> seqZ 0 SBM_FRAME_FIFO_SIZE.

Definition init_sbm (buf nBufferSize : Z) : Sbm :=
  mkSbm false buf (buf + nBufferSize - 1) nBufferSize buf 0
    (mkFifo init_frames SBM_FRAME_FIFO_SIZE 0 0 0 0 0).

(** * Operations *)

(** The common body of the two constructors: [buf] is the resource that holds
    the stream buffer. *)
Definition create_with (buf : Z -> resource) (env : alloc_env) (nBufferSize : Z)
    : option Sbm * list event :=
  if nBufferSize <=? 0 then (None, [])
  else
    let b := buf (env_buf env) in
    if env_buf env =? 0 then (None, [])
    else if negb (env_struct env) then (None, [Acquire b; Release b])
    else if negb (env_frames env) then
      (None, [Acquire b; Acquire RStruct; Release RStruct; Release b])
    else if negb (env_mutex env =? 0) then
      (None, [Acquire b; Acquire RStruct; Acquire RFrames;
              Release RFrames; Release RStruct; Release b])
    else
      (Some (init_sbm (env_buf env) nBufferSize),
       [Acquire b; Acquire RStruct; Acquire RFrames; Acquire RMutex]).

Definition SbmCreate (env : alloc_env) (nBufferSize : Z) : option Sbm * list event :=
  create_with RPalloc env nBufferSize.

Definition SbmVirCreate (env : alloc_env) (nBufferSize : Z) : option Sbm * list event :=
  create_with RMalloc env nBufferSize.

(** [pFrames] is never null in a handle the constructors return. *)
Definition destroy_with (buf : Z -> resource) (pSbm : option Sbm) : list event :=
  match pSbm with
  | None => []
  | Some s =>
      Release RMutex ::
      (if pStreamBuffer s =? 0 then [] else [Release (buf (pStreamBuffer s))])
      ++ [Release RFrames; Release RStruct]
  end.

Definition SbmDestroy (pSbm : option Sbm) : list event := destroy_with RPalloc pSbm.
Definition SbmVirDestroy (pSbm : option Sbm) : list event := destroy_with RMalloc pSbm.

(** [lock] and [unlock]; [rc] is what [pthread_mutex_lock] returns. *)
Definition lock (rc : Z) : M Sbm Z :=
  if negb (rc =? 0) then mret (-1)
  else
    held ← gets mutex;
    if (held : bool) then undef
    else modify (fun s => s <| mutex := true |>);; mret 0.

Definition unlock : M Sbm unit := modify (fun s => s <| mutex := false |>).

Definition modify_fifo (f : StreamFrameFifo -> StreamFrameFifo) : M Sbm unit :=
  modify (fun s => s <| frameFifo ::= f |>).

Definition SbmReset (rc : Z) : M (option Sbm) unit := deref tt (
  r ← lock rc;
  if negb (r =? 0) then mret tt
  else
    modify (fun s => s <| pWriteAddr := pStreamBuffer s |> <| nValidDataSize := 0 |>);;
    modify_fifo (fun f =>
      f <| nReadPos := 0 |> <| nWritePos := 0 |> <| nFlushPos := 0 |>
        <| nValidFrameNum := 0 |> <| nUnReadFrameNum := 0 |>);;
    unlock).

Definition SbmBufferAddress : M (option Sbm) Z := deref 0 (gets pStreamBuffer).
Definition SbmBufferSize : M (option Sbm) Z := deref 0 (gets nStreamBufferSize).
Definition SbmStreamFrameNum : M (option Sbm) Z :=
  deref 0 (gets (fun s => nValidFrameNum (frameFifo s))).
Definition SbmStreamDataSize : M (option Sbm) Z := deref 0 (gets nValidDataSize).
Definition SbmBufferWritePointer : M (option Sbm) Z := deref 0 (gets pWriteAddr).

(** The null test on [&pFrames[nReadPos]] is kept; it cannot succeed. *)
Definition SbmBufferDataInfo (rc : Z) : M (option Sbm) Z := deref 0 (
  r ← lock rc;
  if negb (r =? 0) then mret 0
  else
    f ← gets frameFifo;
    if nUnReadFrameNum f =? 0 then unlock;; mret 0
    else
      let pDataInfo := PSlot (nReadPos f) in
      if ptr_eqb pDataInfo PNull then unlock;; mret 0
      else
        unlock;;
        d ← lift (zlookup (pFrames f) (nReadPos f));
        mret (pVideoInfo d)).

(** [ppBuf] and [pBufSize] are caller variables: [outs] tells whether both
    are non-null, the result carries what is stored through them. *)
Definition SbmRequestBuffer (rc : Z) (outs : bool) (nRequireSize : Z)
    : M (option Sbm) (Z * option (Z * Z)) := deref (-1, None) (
  if negb outs then mret (-1, None)
  else
    r ← lock rc;
    if negb (r =? 0) then mret (-1, None)
    else
      s ← get;
      let f := frameFifo s in
      if nValidFrameNum f >=? nMaxFrameNum f then unlock;; mret (-1, None)
      else if nValidDataSize s <? nStreamBufferSize s then
        nFreeSize ← isub (nStreamBufferSize s) (nValidDataSize s);
        need ← iadd nRequireSize 64;
        if need >? nFreeSize then unlock;; mret (-1, None)
        else unlock;; mret (0, Some (pWriteAddr s, nRequireSize))
      else unlock;; mret (-1, None)).

(** [if(pDataInfo->bValid == 0) pDataInfo->bValid = 1;] *)
Definition stored (d : VideoStreamDataInfo) : VideoStreamDataInfo :=
  if bValid d =? 0 then d <| bValid := 1 |> else d.

(** [pDataInfo] is a caller struct; the result carries it back, since the
    code sets its [bValid]. *)
Definition SbmAddStream (rc : Z) (pDataInfo : option VideoStreamDataInfo)
    : M (option Sbm) (Z * option VideoStreamDataInfo) := deref (-1, pDataInfo) (
  match pDataInfo with
  | None => mret (-1, pDataInfo)
  | Some d =>
    r ← lock rc;
    if negb (r =? 0) then mret (-1, pDataInfo)
    else if pData d =? 0 then unlock;; mret (-1, pDataInfo)
    else
      s ← get;
      let f := frameFifo s in
      if nValidFrameNum f >=? nMaxFrameNum f then unlock;; mret (-1, pDataInfo)
      else
        total ← iadd (nLength d) (nValidDataSize s);
        if total >? nStreamBufferSize s then unlock;; mret (-1, pDataInfo)
        else
          let d := stored d in
          let w := nWritePos f in
          _ ← lift (zlookup (pFrames f) w);
          modify_fifo (fun f => f <| pFrames ::= <[Z.to_nat w := d]> |>);;
          w1 ← iadd w 1;
          let nWritePos' := if w1 >=? nMaxFrameNum f then 0 else w1 in
          v ← iadd (nValidFrameNum f) 1;
          u ← iadd (nUnReadFrameNum f) 1;
          size ← iadd (nValidDataSize s) (nLength d);
          modify_fifo (fun f => f <| nWritePos := nWritePos' |>
            <| nValidFrameNum := v |> <| nUnReadFrameNum := u |>);;
          modify (fun s => s <| nValidDataSize := size |>);;
          let a := pWriteAddr s + nLength d in
          let a' := if a >? pStreamBufferEnd s then a - nStreamBufferSize s else a in
          modify (fun s => s <| pWriteAddr := a' |>);;
          unlock;; mret (0, Some d)
  end).

Definition SbmRequestStream (rc : Z) : M (option Sbm) dataptr := deref PNull (
  r ← lock rc;
  if negb (r =? 0) then mret PNull
  else
    f ← gets frameFifo;
    if nUnReadFrameNum f =? 0 then unlock;; mret PNull
    else
      let pDataInfo := PSlot (nReadPos f) in
      if ptr_eqb pDataInfo PNull then unlock;; mret PNull
      else
        r1 ← iadd (nReadPos f) 1;
        u ← isub (nUnReadFrameNum f) 1;
        let r' := if r1 >=? nMaxFrameNum f then 0 else r1 in
        modify_fifo (fun f => f <| nReadPos := r' |> <| nUnReadFrameNum := u |>);;
        unlock;; mret pDataInfo).

(** [nReadPos--; if(nReadPos < 0) nReadPos = nMaxFrameNum - 1;] *)
Definition prev_pos (nReadPos nMaxFrameNum : Z) : M Sbm Z :=
  p ← isub nReadPos 1;
  if p <? 0 then isub nMaxFrameNum 1 else mret p.

(** The last assignment of the slot copies [*pDataInfo], the slot itself. *)
Definition SbmReturnStream (rc : Z) (pDataInfo : dataptr) : M (option Sbm) Z := deref (-1) (
  if ptr_eqb pDataInfo PNull then mret (-1)
  else
    r ← lock rc;
    if negb (r =? 0) then mret (-1)
    else
      f ← gets frameFifo;
      if nValidFrameNum f =? 0 then unlock;; mret (-1)
      else
        p ← prev_pos (nReadPos f) (nMaxFrameNum f);
        u ← iadd (nUnReadFrameNum f) 1;
        modify_fifo (fun f => f <| nUnReadFrameNum := u |>);;
        if negb (ptr_eqb pDataInfo (PSlot p)) then abort
        else
          d ← lift (zlookup (pFrames f) p);
          modify_fifo (fun f => f <| pFrames ::= <[Z.to_nat p := d]> |>
            <| nReadPos := p |>);;
          unlock;; mret 0).

Definition SbmFlushStream (rc : Z) (pDataInfo : dataptr) : M (option Sbm) Z := deref (-1) (
  r ← lock rc;
  if negb (r =? 0) then mret (-1)
  else
    s ← get;
    let f := frameFifo s in
    if nValidFrameNum f =? 0 then unlock;; mret (-1)
    else
      let p := nFlushPos f in
      if negb (ptr_eqb pDataInfo (PSlot p)) then unlock;; abort
      else
        p1 ← iadd p 1;
        let p' := if p1 >=? nMaxFrameNum f then 0 else p1 in
        v ← isub (nValidFrameNum f) 1;
        d ← lift (zlookup (pFrames f) p);
        size ← isub (nValidDataSize s) (nLength d);
        modify_fifo (fun f => f <| nValidFrameNum := v |>);;
        modify (fun s => s <| nValidDataSize := size |>);;
        modify_fifo (fun f => f <| nFlushPos := p' |>);;
        unlock;; mret 0).

(** * The queue the ring represents *)

(** Descriptors [held ++ unread], oldest first: [held] was handed to the
    decoder and not flushed yet, [unread] waits for it. *)
Record sbm_rep (s : Sbm) (held unread : list VideoStreamDataInfo) : Prop := {
  rep_mutex : mutex s = false;
  rep_arr : Z.of_nat (length (pFrames (frameFifo s))) = nMaxFrameNum (frameFifo s);
  rep_max : 0 < nMaxFrameNum (frameFifo s) < 2 ^ 31;
  rep_valid : nValidFrameNum (frameFifo s) = Z.of_nat (length (held ++ unread));
  rep_cap : nValidFrameNum (frameFifo s) <= nMaxFrameNum (frameFifo s);
  rep_unread : nUnReadFrameNum (frameFifo s) = Z.of_nat (length unread);
  rep_flush : 0 <= nFlushPos (frameFifo s) < nMaxFrameNum (frameFifo s);
  rep_read : nReadPos (frameFifo s)
    = (nFlushPos (frameFifo s) + Z.of_nat (length held)) mod nMaxFrameNum (frameFifo s);
  rep_write : nWritePos (frameFifo s)
    = (nFlushPos (frameFifo s) + Z.of_nat (length (held ++ unread)))
        mod nMaxFrameNum (frameFifo s);
  rep_ring : ring_rep (pFrames (frameFifo s)) (nFlushPos (frameFifo s)) (held ++ unread);
  rep_pos : Forall (fun d => 0 <= nLength d) (held ++ unread);
  rep_bytes : nValidDataSize s = zsum nLength (held ++ unread);
  rep_fits : nValidDataSize s <= nStreamBufferSize s;
  rep_size : 0 < nStreamBufferSize s < 2 ^ 31;
  rep_end : pStreamBufferEnd s = pStreamBuffer s + nStreamBufferSize s - 1;
  rep_waddr : pStreamBuffer s <= pWriteAddr s <= pStreamBufferEnd s
}.

(** The ring offset of address [a]. *)
Definition ring_offset (s : Sbm) (a : Z) : Z :=
  (a - pStreamBuffer s) mod nStreamBufferSize s.

(** When [SbmAddStream] accepts a descriptor. *)
Definition acceptable (s : Sbm) (d : VideoStreamDataInfo) : bool :=
  negb (pData d =? 0) && (nValidFrameNum (frameFifo s) <? nMaxFrameNum (frameFifo s))
  && (nLength d + nValidDataSize s <=? nStreamBufferSize s).

Lemma stored_length d : nLength (stored d) = nLength d.
Proof. unfold stored. by destruct (bValid d =? 0). Qed.

Lemma mutex_id s : mutex s = false -> s <| mutex := true |> <| mutex := false |> = s.
Proof. intros H. destruct s. simpl in *. by subst. Qed.

Ltac restore_mutex :=
  match goal with
  | |- _ = Ok ?r (Some ?s) =>
      transitivity (Ok r (Some (s <| mutex := true |> <| mutex := false |>)));
      [| by rewrite mutex_id by done]
  end.

Lemma init_frames_length : length init_frames = 2048%nat.
Proof. reflexivity. Qed.

Lemma init_rep buf size : 0 < size < 2 ^ 31 -> sbm_rep (init_sbm buf size) [] [].
Proof.
  intros H. split; simpl; try done; try lia.
  - apply ring_rep_nil.
Qed.

(** Bounds on the positions that every operation uses. *)
Lemma rep_bounds s h u : sbm_rep s h u ->
  0 <= nReadPos (frameFifo s) < nMaxFrameNum (frameFifo s) /\
  0 <= nWritePos (frameFifo s) < nMaxFrameNum (frameFifo s) /\
  0 <= nValidDataSize s.
Proof.
  intros R. destruct R. rewrite rep_read0, rep_write0, rep_bytes0.
  split_and!; try (apply Z.mod_pos_bound; lia). by apply zsum_nonneg.
Qed.


Lemma lock_ok s : mutex s = false -> lock 0 s = Ok 0 (s <| mutex := true |>).
Proof. intros H. unfold lock. simpl. unfold mbind, M_bind, gets, modify. by rewrite H. Qed.
#[export] Hint Resolve lock_ok : cmodel.

Lemma unlock_ok s : unlock s = Ok tt (s <| mutex := false |>).
Proof. reflexivity. Qed.
#[export] Hint Resolve unlock_ok : cmodel.

Lemma modify_fifo_ok f s : modify_fifo f s = Ok tt (s <| frameFifo ::= f |>).
Proof. reflexivity. Qed.
#[export] Hint Resolve modify_fifo_ok : cmodel.

Lemma prev_pos_ok p n s : 0 <= p < n -> n < 2 ^ 31 -> prev_pos p n s = Ok ((p - 1) mod n) s.
Proof.
  intros Hp Hn. rewrite <- ring_pred by done. unfold prev_pos. mstep.
  destruct (p - 1 <? 0) eqn:?; mrun.
Qed.

(** ** Adding a frame *)

Lemma add_accept s h u d :
  sbm_rep s h u -> 0 <= nLength d -> acceptable s d = true ->
  exists s', SbmAddStream 0 (Some d) (Some s) = Ok (0, Some (stored d)) (Some s')
    /\ sbm_rep s' h (u ++ [stored d])
    /\ nFlushPos (frameFifo s') = nFlushPos (frameFifo s)
    /\ nMaxFrameNum (frameFifo s') = nMaxFrameNum (frameFifo s)
    /\ nStreamBufferSize s' = nStreamBufferSize s
    /\ pStreamBuffer s' = pStreamBuffer s
    /\ ring_offset s' (pWriteAddr s') = ring_offset s (pWriteAddr s + nLength d).
Proof.
  intros R Hd Hacc. pose proof (rep_bounds _ _ _ R) as (Br & Bw & Bs).
  destruct R. unfold acceptable in Hacc. pose proof (stored_length d) as HL.
  destruct (zlookup_is_Some (pFrames (frameFifo s)) (nWritePos (frameFifo s)) ltac:(lia))
    as [d0 Hd0].
  eexists. split_and!.
  - unfold SbmAddStream. rewrite length_app in *. mrun.
  - rewrite length_app in *.
    split; simpl; rewrite ?length_insert, ?app_assoc, ?length_app; simpl; try lia.
    + rewrite ring_succ by lia. rewrite rep_write0, Zplus_mod_idemp_l. f_equal. lia.
    + rewrite rep_write0, <- length_app, <- rep_arr0. apply ring_rep_push; [done|].
      rewrite length_app. lia.
    + rewrite Forall_app. split; [done|]. constructor; [lia|constructor].
    + rewrite zsum_app. simpl. lia.
    + destruct (_ >? _) eqn:?; lia.
  - done.
  - done.
  - done.
  - done.
  - unfold ring_offset. simpl. rewrite HL. destruct (_ >? _) eqn:?; [|done].
    rewrite <- (Z.mod_add (_ - _ - _) 1) by lia. f_equal. lia.
Qed.

(** Every refused descriptor leaves the manager and the descriptor as they were. *)
Lemma add_refuse s h u d :
  sbm_rep s h u -> 0 <= nLength d < 2 ^ 30 -> nStreamBufferSize s <= 2 ^ 30 ->
  acceptable s d = false ->
  SbmAddStream 0 (Some d) (Some s) = Ok (-1, Some d) (Some s).
Proof.
  intros R Hd Hsz Hacc. pose proof (rep_bounds _ _ _ R) as (Br & Bw & Bs).
  destruct R. unfold acceptable in Hacc. unfold SbmAddStream. restore_mutex.
  destruct (pData d =? 0) eqn:E1; [mrun|].
  destruct (nValidFrameNum (frameFifo s) <? nMaxFrameNum (frameFifo s)) eqn:E2; mrun.
Qed.

(** ** Handing frames out *)

Lemma request_ok s h d u :
  sbm_rep s h (d :: u) ->
  exists s', SbmRequestStream 0 (Some s) = Ok (PSlot (nReadPos (frameFifo s))) (Some s')
    /\ sbm_rep s' (h ++ [d]) u
    /\ zlookup (pFrames (frameFifo s)) (nReadPos (frameFifo s)) = Some d
    /\ s' = s <| frameFifo ::= fun f => f
               <| nReadPos := (nReadPos f + 1) mod nMaxFrameNum f |>
               <| nUnReadFrameNum := nUnReadFrameNum f - 1 |> |>.
Proof.
  intros R. pose proof (rep_bounds _ _ _ R) as (Br & Bw & Bs).
  destruct R. simpl in *. rewrite length_app in *. simpl in *.
  eexists. split_and!.
  - unfold SbmRequestStream. mrun.
  - split; simpl; rewrite <- ?app_assoc, ?length_app in *; simpl in *; try done; try lia.
    rewrite ring_succ by lia. rewrite rep_read0, Zplus_mod_idemp_l. f_equal. lia.
  - rewrite zlookup_some by lia. rewrite rep_read0, <- rep_arr0.
    rewrite (ring_rep_lookup _ _ _ _ rep_ring0) by (rewrite length_app; simpl; lia).
    by rewrite list_lookup_middle.
  - simpl. rewrite ring_succ by lia. destruct s. simpl in *. by subst.
Qed.

Lemma request_empty s h :
  sbm_rep s h [] -> SbmRequestStream 0 (Some s) = Ok PNull (Some s).
Proof.
  intros R. destruct R. simpl in *. unfold SbmRequestStream. restore_mutex. mrun.
Qed.

(** ** Giving a frame back *)

Lemma return_ok s h d u :
  sbm_rep s (h ++ [d]) u ->
  exists s', SbmReturnStream 0 (PSlot ((nFlushPos (frameFifo s) + Z.of_nat (length h))
                mod nMaxFrameNum (frameFifo s))) (Some s) = Ok 0 (Some s')
    /\ sbm_rep s' h (d :: u)
    /\ s' = s <| frameFifo ::= fun f => f
               <| nUnReadFrameNum := nUnReadFrameNum (frameFifo s) + 1 |>
               <| nReadPos := (nFlushPos (frameFifo s) + Z.of_nat (length h))
                    mod nMaxFrameNum (frameFifo s) |> |>.
Proof.
  intros R. pose proof (rep_bounds _ _ _ R) as (Br & Bw & Bs).
  destruct R. rewrite <- app_assoc, ?length_app in *. simpl in *.
  remember ((nFlushPos (frameFifo s) + Z.of_nat (length h)) mod nMaxFrameNum (frameFifo s))
    as p eqn:Ep.
  assert (0 <= p < nMaxFrameNum (frameFifo s)) as Hp
    by (rewrite Ep; apply Z.mod_pos_bound; lia).
  assert (forall t, prev_pos (nReadPos (frameFifo s)) (nMaxFrameNum (frameFifo s)) t = Ok p t).
  { intros t. rewrite prev_pos_ok by lia. f_equal.
    rewrite rep_read0, Zminus_mod_idemp_l, Ep. f_equal. lia. }
  assert (zlookup (pFrames (frameFifo s)) p = Some d) as Hd.
  { rewrite zlookup_some by lia. rewrite Ep, <- rep_arr0.
    rewrite (ring_rep_lookup _ _ _ _ rep_ring0) by (rewrite length_app; simpl; lia).
    by rewrite list_lookup_middle. }
  assert (<[Z.to_nat p := d]> (pFrames (frameFifo s)) = pFrames (frameFifo s)) as Hins.
  { rewrite zlookup_some in Hd by lia. by apply list_insert_id. }
  eexists. split_and!.
  - unfold SbmReturnStream. mrun.
  - split; simpl; rewrite ?Hins, ?length_app in *; simpl in *; try done; lia.
  - simpl. rewrite Hins. destruct s. simpl in *. by subst.
Qed.

(** ** Flushing the oldest frame *)

Lemma flush_ok s d h u :
  sbm_rep s (d :: h) u ->
  exists s', SbmFlushStream 0 (PSlot (nFlushPos (frameFifo s))) (Some s) = Ok 0 (Some s')
    /\ sbm_rep s' h u
    /\ zlookup (pFrames (frameFifo s)) (nFlushPos (frameFifo s)) = Some d
    /\ nFlushPos (frameFifo s') = (nFlushPos (frameFifo s) + 1) mod nMaxFrameNum (frameFifo s)
    /\ nMaxFrameNum (frameFifo s') = nMaxFrameNum (frameFifo s)
    /\ nStreamBufferSize s' = nStreamBufferSize s.
Proof.
  intros R. pose proof (rep_bounds _ _ _ R) as (Br & Bw & Bs).
  destruct R. simpl in *. inversion rep_pos0 as [|? ? Hd Hpos]; subst.
  pose proof (zsum_nonneg _ _ Hpos). rewrite length_app in *.
  unfold zsum in rep_bytes0. simpl in rep_bytes0. fold (zsum nLength (h ++ u)) in rep_bytes0.
  assert (zlookup (pFrames (frameFifo s)) (nFlushPos (frameFifo s)) = Some d) as Hf.
  { rewrite zlookup_some by lia. specialize (rep_ring0 O ltac:(simpl; lia)).
    rewrite Z.add_0_r, Z.mod_small in rep_ring0 by lia. done. }
  eexists. split_and!.
  - unfold SbmFlushStream. mrun.
  - split; simpl; rewrite ?ring_succ, ?length_app by lia; try done; try lia.
    + apply Z.mod_pos_bound. lia.
    + rewrite rep_read0, Zplus_mod_idemp_l. f_equal. lia.
    + rewrite rep_write0, Zplus_mod_idemp_l. f_equal. lia.
    + rewrite <- rep_arr0. apply ring_rep_pop with d; [lia|done].
  - done.
  - simpl. rewrite ring_succ by lia. done.
  - done.
  - done.
Qed.

(** ** Resetting and inspecting *)

Lemma reset_ok s h u :
  sbm_rep s h u ->
  exists s', SbmReset 0 (Some s) = Ok tt (Some s') /\ sbm_rep s' [] []
    /\ nStreamBufferSize s' = nStreamBufferSize s.
Proof.
  intros R. destruct R. eexists. split_and!.
  - unfold SbmReset. mrun.
  - split; simpl; try done; try lia. apply ring_rep_nil.
  - done.
Qed.

End Sbm.
