(* ===== verification/SbmSpec.v ===== *)
(** What the stream buffer manager promises: it implements [FrameQueue], it
    never hands out memory that holds undecoded data, it leaves its mutex
    free, and its constructors leak nothing. *)

From Stdlib Require Import ZArith Lia.
From stdpp Require Import base list numbers.
From S2P Require Import Prelude FrameQueue Sbm.

Module SbmSpec.
Import Sbm.

(** * The manager as a frame queue *)

Definition sbm_add (d : VideoStreamDataInfo) : M (option Sbm) Z :=
  r ← SbmAddStream 0 (Some d); mret r.1.

Definition sbm_request : M (option Sbm) (option dataptr) :=
  p ← SbmRequestStream 0; mret (if ptr_eqb p PNull then None else Some p).

(** [*p], for a pointer the manager returned. *)
Definition sbm_load (p : option Sbm) (q : dataptr) : option VideoStreamDataInfo :=
  match p, q with
  | Some s, PSlot i => zlookup (pFrames (frameFifo s)) i
  | _, _ => None
  end.

(** The addresses of [n] consecutive slots from position [st]. *)
Definition slots (N st : Z) (n : nat) : list dataptr :=
  (fun k => PSlot ((st + Z.of_nat k) mod N)) <$> seq 0 n.

(** Frames on loan are the slots from the flush position on; the buffer is
    at most 1 GiB (the code asks for 4 to 12 MB). *)
Definition queue_rep (p : option Sbm) (h : list (dataptr * VideoStreamDataInfo))
    (u : list VideoStreamDataInfo) : Prop :=
  exists s, p = Some s /\ sbm_rep s h.*2 u /\ nStreamBufferSize s <= 2 ^ 30 /\
    h.*1 = slots (nMaxFrameNum (frameFifo s)) (nFlushPos (frameFifo s)) (length h).

Definition frame_valid (d : VideoStreamDataInfo) : Prop := 0 <= nLength d < 2 ^ 30.

Lemma slots_snoc N st n : slots N st (S n) = slots N st n ++ [PSlot ((st + Z.of_nat n) mod N)].
Proof. unfold slots. by rewrite seq_S, fmap_app. Qed.

Lemma slots_cons N st n :
  0 <= st < N -> slots N st (S n) = PSlot st :: slots N ((st + 1) mod N) n.
Proof.
  intros H. unfold slots. simpl. rewrite Z.add_0_r, Z.mod_small by lia. f_equal.
  rewrite <- fmap_S_seq, <- list_fmap_compose. apply list_fmap_ext. intros _ k _. simpl.
  rewrite Zplus_mod_idemp_l. do 2 f_equal. lia.
Qed.

#[export] Program Instance sbm_queue :
    FrameQueue (option Sbm) dataptr VideoStreamDataInfo := {|
  fq_add := sbm_add;
  fq_request := sbm_request;
  fq_return := SbmReturnStream 0;
  fq_flush := SbmFlushStream 0;
  fq_reset := SbmReset 0;
  fq_load := sbm_load;
  fq_store := stored;
  fq_valid := frame_valid;
  fq_accepts p d := match p with Some s => acceptable s d | None => false end;
  fq_rep := queue_rep
|}.
Next Obligation.
  intros p h u d (s & -> & R & Hsz & Hs) [Hd _] Ha.
  destruct (add_accept _ _ _ _ R Hd Ha) as (s' & E & R' & Ef & Em & Ez & _).
  exists (Some s'). split; [unfold sbm_add; eapply bind_ok; [exact E|done]|].
  exists s'. by rewrite Ef, Em, Ez.
Qed.
Next Obligation.
  intros p h u d (s & -> & R & Hsz & Hs) Hd Ha. unfold sbm_add.
  eapply bind_ok; [by eapply add_refuse|done].
Qed.
Next Obligation.
  intros p h d u (s & -> & R & Hsz & Hs).
  destruct (request_ok _ _ _ _ R) as (s' & E & R' & _ & Es).
  exists (PSlot (nReadPos (frameFifo s))), (Some s').
  split; [unfold sbm_request; eapply bind_ok; [exact E|done]|].
  exists s'. rewrite !fmap_app, length_app, Nat.add_comm. simpl. rewrite slots_snoc.
  split_and!; [done|done|by rewrite Es|]. rewrite Hs, Es. simpl. do 3 f_equal.
  rewrite (rep_read _ _ _ R), length_fmap. done.
Qed.
Next Obligation.
  intros p h (s & -> & R & Hsz & Hs). unfold sbm_request.
  eapply bind_ok; [by eapply request_empty|done].
Qed.
Next Obligation.
  intros p h q d u (s & -> & R & Hsz & Hs). rewrite fmap_app in R. simpl in R.
  rewrite fmap_app, length_app, Nat.add_comm in Hs. simpl in Hs. rewrite slots_snoc in Hs.
  apply app_inj_tail in Hs as [Hs ->].
  destruct (return_ok _ _ _ _ R) as (s' & E & R' & ->). rewrite length_fmap in E, R'.
  eexists. split; [exact E|]. eexists. split; [done|]. split_and!; [exact R'|exact Hsz|exact Hs].
Qed.
Next Obligation.
  intros p h q d u (s & -> & R & Hsz & Hs). simpl in *.
  rewrite slots_cons in Hs by apply R. injection Hs as -> Hs.
  destruct (flush_ok _ _ _ _ R) as (s' & E & R' & Hl & Ef & Em & Ez).
  split; [done|]. exists (Some s'). split; [done|]. exists s'. by rewrite Ef, Em, Ez.
Qed.
Next Obligation.
  intros p h u (s & -> & R & Hsz & Hs).
  destruct (reset_ok _ _ _ R) as (s' & E & R' & Ez). exists (Some s').
  split; [done|]. exists s'. by rewrite Ez.
Qed.

(** * Undecoded data *)

(** The ring offset at which the data of frame [k] of the queue [q] starts:
    frames are laid out back to back and end at the write pointer. *)
Definition data_offset (s : Sbm) (q : list VideoStreamDataInfo) (k : nat) : Z :=
  (pWriteAddr s - pStreamBuffer s - zsum nLength (drop k q)) mod nStreamBufferSize s.

(** [off] is a byte of frame [k] of the queue. *)
Definition frame_byte (s : Sbm) (q : list VideoStreamDataInfo) (off : Z) : Prop :=
  exists k d i, q !! k = Some d /\ 0 <= i < nLength d /\
    off = (data_offset s q k + i) mod nStreamBufferSize s.

Lemma data_offset_ring s q k :
  data_offset s q k
  = (ring_offset s (pWriteAddr s) - zsum nLength (drop k q)) mod nStreamBufferSize s.
Proof. unfold data_offset, ring_offset. by rewrite Zminus_mod_idemp_l. Qed.

Lemma zsum_drop_lookup q k d :
  q !! k = Some d -> zsum nLength (drop k q) = nLength d + zsum nLength (drop (S k) q).
Proof. intros H. by rewrite (drop_S _ _ _ H). Qed.

Lemma zsum_drop_le q k : Forall (fun d => 0 <= nLength d) q ->
  0 <= zsum nLength (drop k q) <= zsum nLength q.
Proof.
  intros H. rewrite <- (take_drop k q) in H at 1. apply Forall_app in H as [H1 H2].
  apply zsum_nonneg in H1, H2. rewrite <- (take_drop k q) at 3. rewrite zsum_app. lia.
Qed.

(** A byte of a frame lies within the last [nValidDataSize] bytes. *)
Lemma frame_byte_back s h u off :
  sbm_rep s h u -> frame_byte s (h ++ u) off ->
  exists b, 1 <= b <= nValidDataSize s /\
    off = (pWriteAddr s - pStreamBuffer s - b) mod nStreamBufferSize s.
Proof.
  intros R (k & d & i & Hk & Hi & ->). destruct R.
  pose proof (zsum_drop_lookup _ _ _ Hk) as E.
  pose proof (zsum_drop_le (h ++ u) (S k) rep_pos0).
  pose proof (zsum_drop_le (h ++ u) k rep_pos0).
  exists (zsum nLength (drop k (h ++ u)) - i). split; [lia|].
  unfold data_offset. rewrite Zplus_mod_idemp_l. f_equal. lia.
Qed.

Lemma request_buffer_ok s h u n :
  sbm_rep s h u -> 0 <= n -> n + 64 < 2 ^ 31 ->
  SbmRequestBuffer 0 true n (Some s) =
    Ok (if (nValidFrameNum (frameFifo s) <? nMaxFrameNum (frameFifo s))
           && (n + 64 <=? nStreamBufferSize s - nValidDataSize s)
        then (0, Some (pWriteAddr s, n)) else (-1, None)) (Some s).
Proof.
  intros R Hn Hb. pose proof (rep_bounds _ _ _ R) as (Br & Bw & Bs).
  destruct R. unfold SbmRequestBuffer. restore_mutex.
  destruct (_ <? nMaxFrameNum (frameFifo s)) eqn:E1; simpl; [|mrun].
  destruct (n + 64 <=? _) eqn:E2; [mrun|].
  destruct (nValidDataSize s <? nStreamBufferSize s) eqn:E3; mrun.
Qed.

(** * Claims *)

(** C1: A decoder that drives a fresh manager through its interface, in any
    order and for any number of calls, never reaches [abort()] or undefined
    behaviour.  The frames it submitted since the last reset are, in order, the frames it
    released, one frame for each pointer it holds, and the frames still unread; when it takes
    and releases the rest, what it has released is exactly what was accepted, in that order.
    A further frame is accepted exactly when its data pointer is not null, a descriptor is free
    and its bytes fit. *)
Theorem sbm_client_fifo env size s evs (ops : list (cop VideoStreamDataInfo)) :
  SbmCreate env size = (Some s, evs) -> size <= 2 ^ 30 -> Forall op_valid ops ->
  exists c lent unread c',
    client_run ops (mkClient (Some s) [] [] []) = Some c /\
    length lent = length (loans c) /\
    queue_rep (dev c) (zip (loans c) lent) unread /\
    retired c ++ lent ++ unread = accepted c /\
    client_run (replicate (length (accepted c)) CRequest ++ replicate (length (accepted c)) CFlush) c = Some c' /\
    loans c' = [] /\ retired c' = accepted c /\
    (forall d, frame_valid d -> exists s1 c1, dev c = Some s1 /\ client_step (CAdd d) c = Some c1 /\
       accepted c1 = accepted c ++ (if acceptable s1 d then [stored d] else [])).
Proof.
  intros E Hs Hops. unfold SbmCreate, create_with in E.
  destruct (size <=? 0) eqn:Esz; [done|].
  repeat case_match; simplify_eq.
  destruct (run_account ops (mkClient (Some (init_sbm (env_buf env) size)) [] [] []) Hops)
    as (c & Hc & lent & unread & Hl & R & Ha).
  - exists [], []. split_and!; [done| |done].
    eexists. split_and!; [done|apply init_rep; lia|done|done].
  - destruct (drain_all c (length (accepted c))) as (c' & Hd & Hd1 & Hd2).
    { by exists lent, unread. }
    { done. }
    exists c, lent, unread, c'. split_and!; try done. intros d Hd'. pose proof R as (s1 & E1 & _). exists s1.
    destruct (add_step c d) as (c1 & Hc1 & Hacc); [by exists lent, unread|done|].
    exists c1. split_and!; [done|done|]. rewrite Hacc. simpl. rewrite E1. by destruct (acceptable s1 d).
Qed.


(** [SbmAddStream] accepts a frame exactly when its data pointer is not
    null, a descriptor is free and its bytes fit; an accepted frame becomes
    the last unread frame and its data offset is where the write pointer was,
    the other frames keep theirs; a refused frame changes nothing. *)
Theorem sbm_add_stream_spec s h u d :
  sbm_rep s h u -> frame_valid d -> nStreamBufferSize s <= 2 ^ 30 ->
  if acceptable s d then
    exists s', SbmAddStream 0 (Some d) (Some s) = Ok (0, Some (stored d)) (Some s') /\
      sbm_rep s' h (u ++ [stored d]) /\
      (forall k, (k < length (h ++ u))%nat ->
         data_offset s' (h ++ u ++ [stored d]) k = data_offset s (h ++ u) k) /\
      data_offset s' (h ++ u ++ [stored d]) (length (h ++ u)) = ring_offset s (pWriteAddr s)
  else SbmAddStream 0 (Some d) (Some s) = Ok (-1, Some d) (Some s).
Proof.
  intros R Hd Hsz. destruct (acceptable s d) eqn:Ha; [|by apply add_refuse with h u].
  destruct (add_accept _ _ _ _ R (proj1 Hd) Ha) as (s' & E & R' & _ & _ & Ez & Eb & Ew).
  assert (forall k, (k <= length (h ++ u))%nat ->
            data_offset s' ((h ++ u) ++ [stored d]) k = data_offset s (h ++ u) k) as Hoff.
  { intros k Hk. rewrite !data_offset_ring, Ew, Ez, drop_app_le, zsum_app by lia.
    unfold ring_offset. rewrite !Zminus_mod_idemp_l. simpl. rewrite stored_length.
    f_equal. lia. }
  exists s'. rewrite app_assoc. split_and!; [done|done|intros k Hk; apply Hoff; lia|].
  rewrite Hoff, data_offset_ring, drop_all by done. simpl.
  unfold ring_offset. rewrite Z.sub_0_r. apply Z.mod_mod. pose proof (rep_size _ _ _ R). lia.
Qed.

(** Requesting a frame and giving it back undecoded restores the manager
    exactly as it was, whatever the state of the ring. *)
Theorem sbm_return_undoes_request s h d u :
  sbm_rep s h (d :: u) ->
  exists p s', SbmRequestStream 0 (Some s) = Ok p (Some s') /\
    sbm_load (Some s') p = Some d /\
    SbmReturnStream 0 p (Some s') = Ok 0 (Some s).
Proof.
  intros R. destruct (request_ok _ _ _ _ R) as (s1 & E1 & R1 & Hl & ->).
  destruct (return_ok _ _ _ _ R1) as (s2 & E2 & _ & ->).
  eexists _, _. split_and!; [exact E1|exact Hl|]. revert E2. simpl.
  rewrite <- (rep_read _ _ _ R). intros ->. repeat f_equal.
  destruct s as [? ? ? ? ? ? []]. simpl. by rewrite Z.sub_add.
Qed.

(** ** The mutex *)

(** Every entry point of the manager, with the result of [pthread_mutex_lock]. *)
Inductive call :=
| KReset (rc : Z)
| KBufferDataInfo (rc : Z)
| KRequestBuffer (rc : Z) (outs : bool) (n : Z)
| KAddStream (rc : Z) (d : option VideoStreamDataInfo)
| KRequestStream (rc : Z)
| KReturnStream (rc : Z) (p : dataptr)
| KFlushStream (rc : Z) (p : dataptr).

Definition run_call (c : call) : M (option Sbm) unit :=
  match c with
  | KReset rc => SbmReset rc
  | KBufferDataInfo rc => SbmBufferDataInfo rc;; mret tt
  | KRequestBuffer rc o n => SbmRequestBuffer rc o n;; mret tt
  | KAddStream rc d => SbmAddStream rc d;; mret tt
  | KRequestStream rc => SbmRequestStream rc;; mret tt
  | KReturnStream rc p => SbmReturnStream rc p;; mret tt
  | KFlushStream rc p => SbmFlushStream rc p;; mret tt
  end.

(** The state after a call that returns. *)
Definition final_state (r : res (option Sbm) unit) : option Sbm :=
  match r with Ok _ p => p | _ => None end.

Definition mutex_free (p : option Sbm) : Prop :=
  match p with Some s => mutex s = false | None => True end.

(** Whatever the arguments, the ring contents and the result of
    [pthread_mutex_lock], every entry point that returns leaves the mutex
    free if it found it free. *)
Theorem sbm_mutex_released c p p' :
  mutex_free p -> run_call c p = Ok tt p' -> mutex_free p'.
Proof.
  intros Hp. apply (wp_elim _ (fun _ p => mutex_free p)).
  destruct c; simpl; unfold SbmReset, SbmBufferDataInfo, SbmRequestBuffer, SbmAddStream,
    SbmRequestStream, SbmReturnStream, SbmFlushStream, lock, unlock, modify_fifo, prev_pos;
    repeat first
      [ wp_step
      | apply wp_deref; [intros _; exact I|]; intros s ->; simpl in Hp
      | case_match
      | done ].
Qed.

(** ** Creation and destruction *)

Fixpoint list_take_out (r : resource) (l : list resource) : option (list resource) :=
  match l with
  | [] => None
  | x :: l => if bool_decide (x = r) then Some l
              else match list_take_out r l with Some l => Some (x :: l) | None => None end
  end.

(** The resources held after a sequence of events; [None] when something is
    released that is not held. *)
Fixpoint live (held : list resource) (es : list event) : option (list resource) :=
  match es with
  | [] => Some held
  | Acquire r :: es => live (r :: held) es
  | Release r :: es =>
      match list_take_out r held with Some held => live held es | None => None end
  end.

(** Both constructors release on every failure path what they acquired,
    and the matching destructor releases all that a constructor acquired,
    through the allocator it came from. *)
Theorem sbm_create_destroy_balanced env size :
  (match SbmCreate env size with
   | (None, evs) => live [] evs = Some []
   | (Some s, evs) => live [] (evs ++ SbmDestroy (Some s)) = Some []
   end) /\
  (match SbmVirCreate env size with
   | (None, evs) => live [] evs = Some []
   | (Some s, evs) => live [] (evs ++ SbmVirDestroy (Some s)) = Some []
   end).
Proof.
  unfold SbmCreate, SbmVirCreate, create_with. destruct env as [b [] [] m]; simpl.
  all: destruct (size <=? 0); [done|]; destruct (b =? 0) eqn:Eb; [done|].
  all: split; try destruct (m =? 0); simpl; rewrite ?Eb; simpl;
    repeat (rewrite ?bool_decide_true by done; simpl); done.
Qed.

(** * Witnesses *)

Definition demo_env : alloc_env := mkEnv 65536 true true 0.
Definition demo_frame : VideoStreamDataInfo := mkData 65536 1000 40 0 1 1 7 0 0 0 0.
Definition demo_size : Z := 4194304.

(** A manager that holds one unread frame. *)
Definition demo_sbm : Sbm :=
  match SbmAddStream 0 (Some demo_frame) (Some (init_sbm 65536 demo_size)) with
  | Ok _ (Some s) => s
  | _ => init_sbm 65536 demo_size
  end.

Lemma demo_rep : sbm_rep demo_sbm [] [stored demo_frame].
Proof.
  destruct (add_accept (init_sbm 65536 demo_size) [] [] demo_frame) as (s & E & R & _).
  - by apply init_rep.
  - simpl. lia.
  - reflexivity.
  - unfold demo_sbm. by rewrite E.
Qed.

Lemma sbm_client_fifo_witness :
  exists c lent unread c',
    client_run [CAdd demo_frame; CAdd demo_frame; CRequest; CReturn; CRequest; CFlush]
      (mkClient (Some (init_sbm 65536 demo_size)) [] [] []) = Some c /\
    length lent = length (loans c) /\
    queue_rep (dev c) (zip (loans c) lent) unread /\
    retired c ++ lent ++ unread = accepted c /\
    client_run (replicate (length (accepted c)) CRequest ++ replicate (length (accepted c)) CFlush) c = Some c' /\
    loans c' = [] /\ retired c' = accepted c /\
    (forall d, frame_valid d -> exists s1 c1, dev c = Some s1 /\ client_step (CAdd d) c = Some c1 /\
       accepted c1 = accepted c ++ (if acceptable s1 d then [stored d] else [])).
Proof.
  apply (sbm_client_fifo demo_env demo_size (init_sbm 65536 demo_size)
           [Acquire (RPalloc 65536); Acquire RStruct; Acquire RFrames; Acquire RMutex]).
  - reflexivity.
  - unfold demo_size. lia.
  - repeat constructor; simpl; lia.
Defined.


Lemma sbm_add_stream_spec_witness :
  if acceptable demo_sbm demo_frame then
    exists s', SbmAddStream 0 (Some demo_frame) (Some demo_sbm)
        = Ok (0, Some (stored demo_frame)) (Some s') /\
      sbm_rep s' [] ([stored demo_frame] ++ [stored demo_frame]) /\
      (forall k, (k < length ([] ++ [stored demo_frame]))%nat ->
         data_offset s' ([] ++ [stored demo_frame] ++ [stored demo_frame]) k
         = data_offset demo_sbm ([] ++ [stored demo_frame]) k) /\
      data_offset s' ([] ++ [stored demo_frame] ++ [stored demo_frame])
        (length ([] ++ [stored demo_frame])) = ring_offset demo_sbm (pWriteAddr demo_sbm)
  else SbmAddStream 0 (Some demo_frame) (Some demo_sbm) = Ok (-1, Some demo_frame) (Some demo_sbm).
Proof.
  apply (sbm_add_stream_spec demo_sbm [] [stored demo_frame] demo_frame).
  - apply demo_rep.
  - split; simpl; lia.
  - vm_compute. discriminate.
Defined.

Lemma sbm_return_undoes_request_witness :
  exists p s', SbmRequestStream 0 (Some demo_sbm) = Ok p (Some s') /\
    sbm_load (Some s') p = Some (stored demo_frame) /\
    SbmReturnStream 0 p (Some s') = Ok 0 (Some demo_sbm).
Proof. apply (sbm_return_undoes_request demo_sbm [] (stored demo_frame) []), demo_rep. Defined.

Lemma sbm_mutex_released_witness :
  mutex_free (final_state (run_call (KFlushStream 0 PNull) (Some (init_sbm 65536 demo_size)))).
Proof.
  apply (sbm_mutex_released (KFlushStream 0 PNull) (Some (init_sbm 65536 demo_size)));
    reflexivity.
Defined.

End SbmSpec.
