(* ===== verification/Fbm.v ===== *)
(** The frame buffer manager of the video decoder,
    [allwinner/libcedarc/vdecoder/fbm.c]: an array of frame nodes threaded
    into three linked queues (empty buffers, pictures to show, buffers to
    release) and per-frame flags that tell who uses a frame.

    A [VideoFbmInfo] owns up to two managers (two streams of a 3D video may
    share one); it is the state of the operations, with the heap of the memory
    adapter.  Links are frame indices, as all nodes of a queue are elements of
    the manager's own array. *)

From Stdlib Require Import ZArith Lia.
From stdpp Require Import base list list_numbers numbers.
From S2P Require Import Prelude.

Module Fbm.

(** * Data *)

(** [FRAMENODEFLAG] of fbm.h. *)
Record FrameNodeFlag := mkFlag {
  bUsedByDecoder : Z;
  bUsedByRender : Z;
  bInValidPictureQueue : Z;
  bAlreadyDisplayed : Z;
  bNeedRelease : Z
}.
#[export] Instance eta_flag : Eta FrameNodeFlag := fun f =>
  mkFlag (bUsedByDecoder f) (bUsedByRender f) (bInValidPictureQueue f)
    (bAlreadyDisplayed f) (bNeedRelease f).

(** [VIDEOPICTURE] of vdecoder.h; pointers and physical addresses are numbers. *)
Record VideoPicture := mkPicture {
  nID : Z; nStreamIndex : Z; ePixelFormat : Z; nWidth : Z; nHeight : Z;
  nLineStride : Z; nTopOffset : Z; nLeftOffset : Z; nBottomOffset : Z;
  nRightOffset : Z; nFrameRate : Z; nAspectRatio : Z; bIsProgressive : Z;
  bTopFieldFirst : Z; bRepeatTopField : Z; nPts : Z; nPcr : Z;
  pData0 : Z; pData1 : Z; pData2 : Z; pData3 : Z;
  bMafValid : Z; pMafData : Z; nMafFlagStride : Z; bPreFrmValid : Z;
  nBufId : Z; phyYBufAddr : Z; phyCBufAddr : Z; pPrivate : Z; nBufStatus : Z;
  bTopFieldError : Z; bBottomFieldError : Z; nColorPrimary : Z; bFrameErrorFlag : Z
}.
#[export] Instance eta_picture : Eta VideoPicture := fun p =>
  mkPicture (nID p) (nStreamIndex p) (ePixelFormat p) (nWidth p) (nHeight p)
    (nLineStride p) (nTopOffset p) (nLeftOffset p) (nBottomOffset p)
    (nRightOffset p) (nFrameRate p) (nAspectRatio p) (bIsProgressive p)
    (bTopFieldFirst p) (bRepeatTopField p) (nPts p) (nPcr p)
    (pData0 p) (pData1 p) (pData2 p) (pData3 p)
    (bMafValid p) (pMafData p) (nMafFlagStride p) (bPreFrmValid p)
    (nBufId p) (phyYBufAddr p) (phyCBufAddr p) (pPrivate p) (nBufStatus p)
    (bTopFieldError p) (bBottomFieldError p) (nColorPrimary p) (bFrameErrorFlag p).

(** [FRAMENODE] of fbm.h; [pNext] is the index of the next node. *)
Record FrameNode := mkNode {
  Flag : FrameNodeFlag;
  vpicture : VideoPicture;
  pNext : option nat
}.
#[export] Instance eta_node : Eta FrameNode := fun n =>
  mkNode (Flag n) (vpicture n) (pNext n).

(** The functions of the memory adapter ([ScMemOpsS] of sc_interface.h) that
    the manager calls: the address [palloc] returns at its [n]-th call for a
    size (0 for [NULL]), and the physical address of a buffer. *)
Record ScMemOps := mkOps {
  palloc : nat -> Z -> Z;
  ve_get_phyaddr : Z -> Z
}.

(** [FRAMEBUFFERMANAGER] of fbm.h.  [freed] marks a manager that
    [FbmDestroy] returned to [malloc]; [pFbmInfo] tells whether the pointer is
    set. *)
Record Fbm := mkFbm {
  mutex : bool;
  nMaxFrameNum : Z;
  nEmptyBufferNum : Z;
  nValidPictureNum : Z;
  nReleaseBufferNum : Z;
  pEmptyBufferQueue : option nat;
  pValidPictureQueue : option nat;
  pReleaseBufferQueue : option nat;
  bThumbnailMode : Z;
  pFrames : list FrameNode;
  bUseGpuBuf : Z;
  nAlignValue : Z;
  pFbmInfo : bool;
  nDecoderHoldingNum : Z;
  nRenderHoldingNum : Z;
  nWaitForDispNum : Z;
  memops : ScMemOps;
  freed : bool
}.
#[export] Instance eta_fbm : Eta Fbm := fun f =>
  mkFbm (mutex f) (nMaxFrameNum f) (nEmptyBufferNum f) (nValidPictureNum f)
    (nReleaseBufferNum f) (pEmptyBufferQueue f) (pValidPictureQueue f)
    (pReleaseBufferQueue f) (bThumbnailMode f) (pFrames f) (bUseGpuBuf f)
    (nAlignValue f) (pFbmInfo f) (nDecoderHoldingNum f) (nRenderHoldingNum f)
    (nWaitForDispNum f) (memops f) (freed f).

(** [FBMBUFINFO] of vdecoder.h. *)
Record FbmBufInfo := mkBufInfo {
  nBufNum : Z;
  nBufWidth : Z;
  nBufHeight : Z;
  biPixelFormat : Z;
  biAlignValue : Z;
  biProgressiveFlag : Z;
  biSoftDecoderFlag : Z
}.
#[export] Instance eta_bufinfo : Eta FbmBufInfo := fun b =>
  mkBufInfo (nBufNum b) (nBufWidth b) (nBufHeight b) (biPixelFormat b)
    (biAlignValue b) (biProgressiveFlag b) (biSoftDecoderFlag b).

(** [FBMCREATEINFO] of fbm.h. *)
Record FbmCreateInfo := mkCreateInfo {
  ciFrameNum : Z;
  ciDecoderNeededMiniFrameNum : Z;
  ciWidth : Z;
  ciHeight : Z;
  ciPixelFormat : Z;
  ciThumbnailMode : Z;
  ciGpuBufValid : Z;
  ciAlignStride : Z;
  ciBufferType : Z;
  ciProgressiveFlag : Z;
  ciIsSoftDecoderFlag : Z;
  ciMemops : ScMemOps
}.

(** An [Fbm *]: one of the two managers of the info. *)
Inductive side := First | Second.

(** A [VideoPicture *]: null, the picture of a node, or a picture of the
    caller. *)
Inductive picptr :=
| PicNull
| Pic (w : side) (i : nat)
| PicOther (p : VideoPicture).

#[export] Instance side_eq_dec : EqDecision side.
Proof. solve_decision. Defined.

(** [p == &pFbm->pFrames[i].vpicture] *)
Definition is_pic (p : picptr) (w : side) (i : nat) : bool :=
  match p with
  | Pic w' i' => bool_decide (w' = w) && bool_decide (i' = i)
  | _ => false
  end.

(** [VIDEOFBMINFO] of vdecoder.h, the fields the manager uses. *)
Record VideoFbmInfo := mkInfo {
  nValidBufNum : Z;
  pFbmFirst : option Fbm;
  pFbmSecond : option Fbm;
  pFbmBufInfo : FbmBufInfo;
  bIs3DStream : Z;
  bTwoStreamShareOneFbm : Z;
  pMajorDispFrame : picptr;
  pMajorDecoderFrame : picptr;
  nMinorYBufOffset : Z;
  nMinorCBufOffset : Z;
  bIsFrameCtsTestFlag : Z
}.
#[export] Instance eta_info : Eta VideoFbmInfo := fun i =>
  mkInfo (nValidBufNum i) (pFbmFirst i) (pFbmSecond i) (pFbmBufInfo i)
    (bIs3DStream i) (bTwoStreamShareOneFbm i) (pMajorDispFrame i)
    (pMajorDecoderFrame i) (nMinorYBufOffset i) (nMinorCBufOffset i)
    (bIsFrameCtsTestFlag i).

(** The memory the managers use: calls of [palloc] so far, the address and
    size of the buffers it returned that are not freed, the number of live [malloc] blocks, and the
    cache ranges flushed. *)
Record Heap := mkHeap {
  ncalls : nat;
  bufs : list (Z * Z);
  blocks : Z;
  flushes : list (Z * Z)
}.
#[export] Instance eta_heap : Eta Heap := fun h =>
  mkHeap (ncalls h) (bufs h) (blocks h) (flushes h).

Record World := mkWorld {
  info : VideoFbmInfo;
  heap : Heap
}.
#[export] Instance eta_world : Eta World := fun w => mkWorld (info w) (heap w).

Definition FRM_FORBID_USE_TAG : Z := 255.
Definition FRM_RELEASE_TAG : Z := 238.
Definition FBM_NEW_DISP_INVALID_TAG : Z := 221.
Definition FBM_NEED_FLUSH_CACHE_SIZE : Z := 480.
Definition MAJOR_DECODER_USE_FLAG : Z := 1.
Definition MINOR_DECODER_USE_FLAG : Z := 2.
Definition MAJOR_DISP_USE_FLAG : Z := 4.
Definition MINOR_DISP_USE_FLAG : Z := 8.
Definition MINOR_NEED_USE_FLAG : Z := 16.
Definition BUF_TYPE_ONLY_REFERENCE : Z := 1.

Definition PIXEL_FORMAT_YUV_PLANER_420 : Z := 1.
Definition PIXEL_FORMAT_YUV_PLANER_422 : Z := 2.
Definition PIXEL_FORMAT_YUV_PLANER_444 : Z := 3.
Definition PIXEL_FORMAT_YV12 : Z := 4.
Definition PIXEL_FORMAT_NV21 : Z := 5.
Definition PIXEL_FORMAT_YUV_MB32_420 : Z := 7.
Definition PIXEL_FORMAT_YUV_MB32_422 : Z := 8.
Definition PIXEL_FORMAT_YUV_MB32_444 : Z := 9.
Definition PIXEL_FORMAT_RGBA : Z := 10.
Definition PIXEL_FORMAT_BGRA : Z := 13.

(** [x |= m], [x &= ~m], [x & m] on status words. *)
Definition set_bits (m x : Z) : Z := Z.lor x m.
Definition clear_bits (m x : Z) : Z := Z.ldiff x m.
Definition has_bits (m x : Z) : bool := negb (Z.land x m =? 0).

(** A C flag tested for truth. *)
Definition truthy (z : Z) : bool := negb (z =? 0).

(** * The linked queues *)

(** [ppHead] is the address of one of the three queue heads. *)
Inductive queue := QEmpty | QValid | QRelease.

Definition head_of (q : queue) (f : Fbm) : option nat :=
  match q with
  | QEmpty => pEmptyBufferQueue f
  | QValid => pValidPictureQueue f
  | QRelease => pReleaseBufferQueue f
  end.

Definition set_head (q : queue) (h : option nat) (f : Fbm) : Fbm :=
  match q with
  | QEmpty => f <| pEmptyBufferQueue := h |>
  | QValid => f <| pValidPictureQueue := h |>
  | QRelease => f <| pReleaseBufferQueue := h |>
  end.

(** [p->pNext = v] *)
Definition set_next (i : nat) (v : option nat) (l : list FrameNode) : list FrameNode :=
  alter (fun n => n <| pNext := v |>) i l.

(** [while(pCur->pNext != NULL) pCur = pCur->pNext;] with a bound on the steps:
    a walk longer than the array is on a cycle and does not end. *)
Fixpoint walk (fuel : nat) (l : list FrameNode) (cur : nat) : option nat :=
  match fuel with
  | O => None
  | S fuel =>
      match l !! cur with
      | None => None
      | Some n => match pNext n with None => Some cur | Some j => walk fuel l j end
      end
  end.

Definition FbmEnqueue (q : queue) (p : nat) (f : Fbm) : option Fbm :=
  match head_of q f with
  | None => Some (set_head q (Some p) f <| pFrames ::= set_next p None |>)
  | Some h =>
      match walk (S (length (pFrames f))) (pFrames f) h with
      | None => None
      | Some last =>
          Some (f <| pFrames ::= fun l => set_next p None (set_next last (Some p) l) |>)
      end
  end.

Definition FbmEnqueueToHead (q : queue) (p : nat) (f : Fbm) : Fbm :=
  set_head q (Some p) f <| pFrames ::= set_next p (head_of q f) |>.

(** The frame taken, if any, and the manager. *)
Definition FbmDequeue (q : queue) (f : Fbm) : option (option nat * Fbm) :=
  match head_of q f with
  | None => Some (None, f)
  | Some h =>
      match pFrames f !! h with
      | None => None
      | Some n => Some (Some h, set_head q (pNext n) f <| pFrames ::= set_next h None |>)
      end
  end.

(** * Access to the state *)

Definition slot (w : side) (i : VideoFbmInfo) : option Fbm :=
  match w with First => pFbmFirst i | Second => pFbmSecond i end.

Definition set_slot (w : side) (f : Fbm) (i : VideoFbmInfo) : VideoFbmInfo :=
  match w with
  | First => i <| pFbmFirst := Some f |>
  | Second => i <| pFbmSecond := Some f |>
  end.

(** [*pFbm]: undefined for a manager that does not exist or was destroyed. *)
Definition get_fbm (w : side) : M World Fbm :=
  W ← get;
  f ← lift (slot w (info W));
  if freed f then undef else mret f.

Definition put_fbm (w : side) (f : Fbm) : M World unit :=
  modify (fun W => W <| info ::= set_slot w f |>).

Definition mod_fbm (w : side) (g : Fbm -> Fbm) : M World unit :=
  f ← get_fbm w; put_fbm w (g f).

Definition mod_info (g : VideoFbmInfo -> VideoFbmInfo) : M World unit :=
  modify (fun W => W <| info ::= g |>).

(** A mutex locked twice by its owner blocks for ever. *)
Definition lock (w : side) : M World unit :=
  f ← get_fbm w;
  if mutex f then undef else put_fbm w (f <| mutex := true |>).

Definition unlock (w : side) : M World unit := mod_fbm w (fun f => f <| mutex := false |>).

Definition enqueue (w : side) (q : queue) (i : nat) : M World unit :=
  f ← get_fbm w; f' ← lift (FbmEnqueue q i f); put_fbm w f'.

Definition dequeue (w : side) (q : queue) : M World (option nat) :=
  f ← get_fbm w;
  r ← lift (FbmDequeue q f);
  put_fbm w r.2;; mret r.1.

Definition get_node (w : side) (i : nat) : M World FrameNode :=
  f ← get_fbm w; lift (pFrames f !! i).

Definition mod_node (w : side) (i : nat) (g : FrameNode -> FrameNode) : M World unit :=
  _ ← get_node w i; mod_fbm w (fun f => f <| pFrames ::= alter g i |>).

Definition mod_flag (w : side) (i : nat) (g : FrameNodeFlag -> FrameNodeFlag) : M World unit :=
  mod_node w i (fun n => n <| Flag ::= g |>).

Definition mod_picture (w : side) (i : nat) (g : VideoPicture -> VideoPicture) : M World unit :=
  mod_node w i (fun n => n <| vpicture ::= g |>).

(** [*pVPicture]; what is written to a picture of the caller is his. *)
Definition load_pic (p : picptr) : M World VideoPicture :=
  match p with
  | PicNull => undef
  | Pic w i => n ← get_node w i; mret (vpicture n)
  | PicOther v => mret v
  end.

Definition mod_pic (p : picptr) (g : VideoPicture -> VideoPicture) : M World unit :=
  match p with
  | PicNull => undef
  | Pic w i => mod_picture w i g
  | PicOther _ => mret tt
  end.

(** A counter of the manager incremented or decremented. *)
Definition count_up (w : side) (get : Fbm -> Z) (upd : Z -> Fbm -> Fbm) : M World unit :=
  f ← get_fbm w; n ← iadd (get f) 1; put_fbm w (upd n f).
Definition count_down (w : side) (get : Fbm -> Z) (upd : Z -> Fbm -> Fbm) : M World unit :=
  f ← get_fbm w; n ← isub (get f) 1; put_fbm w (upd n f).

Definition empty_up w := count_up w nEmptyBufferNum (fun n f => f <| nEmptyBufferNum := n |>).
Definition empty_down w := count_down w nEmptyBufferNum (fun n f => f <| nEmptyBufferNum := n |>).
Definition valid_up w := count_up w nValidPictureNum (fun n f => f <| nValidPictureNum := n |>).
Definition valid_down w := count_down w nValidPictureNum (fun n f => f <| nValidPictureNum := n |>).
Definition release_up w := count_up w nReleaseBufferNum (fun n f => f <| nReleaseBufferNum := n |>).
Definition release_down w :=
  count_down w nReleaseBufferNum (fun n f => f <| nReleaseBufferNum := n |>).
Definition decoder_up w := count_up w nDecoderHoldingNum (fun n f => f <| nDecoderHoldingNum := n |>).
Definition decoder_down w :=
  count_down w nDecoderHoldingNum (fun n f => f <| nDecoderHoldingNum := n |>).
Definition render_up w := count_up w nRenderHoldingNum (fun n f => f <| nRenderHoldingNum := n |>).
Definition render_down w := count_down w nRenderHoldingNum (fun n f => f <| nRenderHoldingNum := n |>).
Definition wait_up w := count_up w nWaitForDispNum (fun n f => f <| nWaitForDispNum := n |>).
Definition wait_down w := count_down w nWaitForDispNum (fun n f => f <| nWaitForDispNum := n |>).

(** The prologue of the operations:
    [if(pFbm == NULL) return d; if(pFbm->pFbmInfo == NULL) return d;] *)
Definition with_fbm {A} (p : option side) (d : A) (body : side -> M World A) : M World A :=
  match p with
  | None => mret d
  | Some w => f ← get_fbm w; if negb (pFbmInfo f) then mret d else body w
  end.

(** [(pFbmInfo->bTwoStreamShareOneFbm == 1) && (pFbm == pFbmInfo->pFbmSecond)] *)
Definition shares_first (w : side) (i : VideoFbmInfo) : bool :=
  (bTwoStreamShareOneFbm i =? 1) && bool_decide (w = Second).

(** * The memory adapter *)

Definition CdcMemPalloc (ops : ScMemOps) (nSize : Z) : M Heap Z :=
  h ← get;
  let a := palloc ops (ncalls h) nSize in
  modify (fun h => h <| ncalls ::= S |>);;
  (if a =? 0 then mret tt else modify (fun h => h <| bufs ::= cons (a, nSize) |>));;
  mret a.

Fixpoint take_out (a : Z) (l : list (Z * Z)) : option (list (Z * Z)) :=
  match l with
  | [] => None
  | x :: l => if x.1 =? a then Some l
              else match take_out a l with Some l => Some (x :: l) | None => None end
  end.

(** Freeing what is not allocated is undefined. *)
Definition CdcMemPfree (a : Z) : M Heap unit :=
  h ← get;
  l ← lift (take_out a (bufs h));
  modify (fun h => h <| bufs := l |>).

Definition CdcMemFlushCache (a nSize : Z) : M Heap unit :=
  modify (fun h => h <| flushes ::= cons (a, nSize) |>).

Definition zoom {A} (m : M Heap A) : M World A := fun W =>
  match m (heap W) with
  | Ok a h => Ok a (W <| heap := h |>)
  | Aborted h => Aborted (W <| heap := h |>)
  | Undef => Undef
  end.

(** [(x + m) & ~m] *)
Definition align_mask (x m : Z) : M Heap Z :=
  y ← iadd x m; mret (Z.land y (Z.lnot m)).

(** [(x + a - 1) & ~(a - 1)] *)
Definition align_up (x a : Z) : M Heap Z :=
  y ← iadd x a;
  y ← isub y 1;
  m ← isub a 1;
  mret (Z.land y (Z.lnot m)).

(** * Picture buffers *)

Definition zero_picture : VideoPicture :=
  mkPicture 0 0 0 0 0 0 0 0 0 0 0 0 0 0 0 0 0 0 0 0 0 0 0 0 0 0 0 0 0 0 0 0 0 0.

Definition planar (fmt : Z) : bool :=
  (PIXEL_FORMAT_YUV_PLANER_420 <=? fmt) && (fmt <=? PIXEL_FORMAT_NV21).
Definition mb32 (fmt : Z) : bool :=
  (PIXEL_FORMAT_YUV_MB32_420 <=? fmt) && (fmt <=? PIXEL_FORMAT_YUV_MB32_444).
Definition rgb (fmt : Z) : bool :=
  (PIXEL_FORMAT_RGBA <=? fmt) && (fmt <=? PIXEL_FORMAT_BGRA).

(** The size of one chroma plane, for a planar format. *)
Definition planar_chroma (fmt sizeY : Z) : Z :=
  if (fmt =? PIXEL_FORMAT_YUV_PLANER_420) || (fmt =? PIXEL_FORMAT_YV12)
     || (fmt =? PIXEL_FORMAT_NV21)
  then Z.shiftr sizeY 2
  else if fmt =? PIXEL_FORMAT_YUV_PLANER_422 then Z.shiftr sizeY 1
  else sizeY.

Definition alloc_planar (ops : ScMemOps) (pic : VideoPicture)
    (nAlign w h nHeight16Align : Z) : M Heap (Z * VideoPicture * Z) :=
  let fmt := ePixelFormat pic in
  let a := if nAlign =? 0 then 16 else nAlign in
  nLineStride' ← (if nAlign =? 0 then align_mask w 15 else align_up w nAlign);
  nHeight' ← (if nAlign =? 0 then mret nHeight16Align else align_up h nAlign);
  let pic := pic <| nLineStride := nLineStride' |> <| nWidth := nLineStride' |>
                 <| nHeight := nHeight' |> in
  nMemSizeY ← imul nLineStride' nHeight';
  let nMemSizeC := planar_chroma fmt nMemSizeY in
  cc ← imul nMemSizeC 2;
  total ← iadd nMemSizeY cc;
  pMem ← CdcMemPalloc ops total;
  if pMem =? 0 then mret (-1, pic, a)
  else
    mret (0,
      pic <| pData0 := pMem |> <| pData1 := pMem + nMemSizeY |>
          <| pData2 := if fmt =? PIXEL_FORMAT_NV21 then 0 else pMem + nMemSizeY + nMemSizeC |>
          <| pData3 := 0 |>, a).

Definition alloc_mb32 (ops : ScMemOps) (pic : VideoPicture) (w h32 h64 : Z)
    : M Heap (Z * VideoPicture * Z) :=
  let fmt := ePixelFormat pic in
  stride ← align_mask w 31;
  let pic := pic <| nLineStride := stride |> <| nWidth := stride |> <| nHeight := h32 |> in
  line ← align_mask stride 63;
  nMemSizeY ← imul line h64;
  let nMemSizeC :=
    if fmt =? PIXEL_FORMAT_YUV_MB32_420 then Z.quot nMemSizeY 4
    else if fmt =? PIXEL_FORMAT_YUV_MB32_422 then Z.quot nMemSizeY 2
    else nMemSizeY in
  pMem ← CdcMemPalloc ops nMemSizeY;
  if pMem =? 0 then mret (-1, pic, 32)
  else
    cc ← imul nMemSizeC 2;
    pMem2 ← CdcMemPalloc ops cc;
    if pMem2 =? 0 then CdcMemPfree pMem;; mret (-1, pic <| pData0 := 0 |>, 32)
    else mret (0, pic <| pData0 := pMem |> <| pData1 := pMem2 |> <| pData2 := 0 |>
                      <| pData3 := 0 |>, 32).

Definition alloc_rgb (ops : ScMemOps) (pic : VideoPicture) (nAlign h : Z)
    : M Heap (Z * VideoPicture * Z) :=
  line ← imul (nWidth pic) 4;
  let pic := pic <| nLineStride := line |> in
  nMemSizeY ← imul line h;
  pMem ← CdcMemPalloc ops nMemSizeY;
  if pMem =? 0 then mret (-1, pic, nAlign)
  else
    CdcMemFlushCache pMem nMemSizeY;;
    mret (0, pic <| pData0 := pMem |> <| pData1 := 0 |> <| pData2 := 0 |> <| pData3 := 0 |>,
          nAlign).

(** The result code, the picture and [*nAlignValue]. *)
Definition FbmAllocatePictureBuffer (ops : ScMemOps) (pPicture : VideoPicture)
    (nAlign w h : Z) : M Heap (Z * VideoPicture * Z) :=
  let pic := pPicture <| pData0 := 0 |> <| pData1 := 0 |> <| pData2 := 0 |> <| pData3 := 0 |> in
  let fmt := ePixelFormat pic in
  h16 ← align_mask h 15;
  h32 ← align_mask h 31;
  h64 ← align_mask h 63;
  r ← (if planar fmt then alloc_planar ops pic nAlign w h h16
       else if mb32 fmt then alloc_mb32 ops pic w h32 h64
       else if rgb fmt then alloc_rgb ops pic nAlign h
       else mret (-1, pic, nAlign));
  let '(rc, pic, nAlign) := r in
  if negb (rc =? 0) then mret (rc, pic, nAlign)
  else
    let pic := if pData0 pic =? 0 then pic
               else pic <| phyYBufAddr := ve_get_phyaddr ops (pData0 pic) |> in
    let pic := if pData1 pic =? 0 then pic
               else pic <| phyCBufAddr := ve_get_phyaddr ops (pData1 pic) |> in
    mret (0, pic, nAlign).

(** [if(p != NULL) { CdcMemPfree(p); p = NULL; }] *)
Definition free_if (a : Z) : M Heap unit := if a =? 0 then mret tt else CdcMemPfree a.

Definition FbmFreePictureBuffer (pic : VideoPicture) : M Heap VideoPicture :=
  free_if (pData0 pic);;
  let pic := pic <| pData0 := 0 |> in
  if ePixelFormat pic <? PIXEL_FORMAT_YUV_MB32_420 then mret pic
  else
    free_if (pData1 pic);; free_if (pData2 pic);; free_if (pData3 pic);;
    mret (pic <| pData1 := 0 |> <| pData2 := 0 |> <| pData3 := 0 |>).

(** * Creation and destruction *)

(** The picture of frame [i] before its buffer is allocated; [nAlignStride]
    is the local variable the allocator updates from frame to frame. *)
Definition init_picture (ci : FbmCreateInfo) (nAlignStride : Z) (i : Z) : M Heap VideoPicture :=
  w ← (if nAlignStride =? 0 then mret (ciWidth ci) else align_up (ciWidth ci) nAlignStride);
  h ← (if nAlignStride =? 0 then mret (ciHeight ci) else align_up (ciHeight ci) nAlignStride);
  mret (zero_picture <| nBufId := FBM_NEW_DISP_INVALID_TAG |> <| nID := i |>
    <| ePixelFormat := ciPixelFormat ci |> <| nWidth := w |> <| nHeight := h |>
    <| nLineStride := w |> <| bIsProgressive := ciProgressiveFlag ci |>
    <| nLeftOffset := 0 |> <| nTopOffset := 0 |>
    <| nRightOffset := ciWidth ci |> <| nBottomOffset := ciHeight ci |>).

Definition zero_flag : FrameNodeFlag := mkFlag 0 0 0 0 0.

(** [bGpuBufValid==0 || nBufferType==BUF_TYPE_ONLY_REFERENCE] *)
Definition own_buffers (ci : FbmCreateInfo) : bool :=
  (ciGpuBufValid ci =? 0) || (ciBufferType ci =? BUF_TYPE_ONLY_REFERENCE).

(** [bGpuBufValid==1 && nBufferType!=BUF_TYPE_ONLY_REFERENCE] *)
Definition gpu_buffers (ci : FbmCreateInfo) : bool :=
  (ciGpuBufValid ci =? 1) && negb (ciBufferType ci =? BUF_TYPE_ONLY_REFERENCE).

(** Thumbnail mode: the buffer of the first picture. *)
Definition share_buffer (p0 : VideoPicture) (pic : VideoPicture) : VideoPicture :=
  pic <| pData0 := pData0 p0 |> <| pData1 := pData1 p0 |> <| pData2 := pData2 p0 |>
      <| pData3 := pData3 p0 |> <| phyYBufAddr := phyYBufAddr p0 |>
      <| phyCBufAddr := phyCBufAddr p0 |>.

(** One round of the loop: [None] for the [break] on an allocation failure. *)
Definition create_frame (ci : FbmCreateInfo) (nAlignStride : Z) (done : list FrameNode)
    : M Heap (option FrameNode * Z) :=
  pic ← init_picture ci nAlignStride (Z.of_nat (length done));
  if negb (own_buffers ci) then mret (Some (mkNode zero_flag pic None), nAlignStride)
  else
    let white p := p <| nColorPrimary := s32 4294967295 |> in
    if (ciThumbnailMode ci =? 0) || (length done =? 0)%nat then
      r ← FbmAllocatePictureBuffer (ciMemops ci) pic nAlignStride (ciWidth ci) (ciHeight ci);
      let '(rc, pic, nAlignStride) := r in
      if negb (rc =? 0) then mret (None, nAlignStride)
      else mret (Some (mkNode zero_flag (white pic) None), nAlignStride)
    else
      n0 ← lift (done !! O);
      mret (Some (mkNode zero_flag (white (share_buffer (vpicture n0) pic)) None),
            nAlignStride).

(** The loop over [todo] more frames: the frames completed, in order, and the
    final value of [nAlignStride]. *)
Fixpoint create_loop (ci : FbmCreateInfo) (todo : nat) (nAlignStride : Z)
    (done : list FrameNode) : M Heap (list FrameNode * Z) :=
  match todo with
  | O => mret (done, nAlignStride)
  | S todo =>
      r ← create_frame ci nAlignStride done;
      match r with
      | (None, nAlignStride) => mret (done, nAlignStride)
      | (Some n, nAlignStride) => create_loop ci todo nAlignStride (done ++ [n])
      end
  end.

Fixpoint free_pictures (l : list FrameNode) : M Heap unit :=
  match l with
  | [] => mret tt
  | n :: l => FbmFreePictureBuffer (vpicture n);; free_pictures l
  end.

Definition malloc_block (ok : bool) : M Heap bool :=
  (if ok then modify (fun h => h <| blocks ::= Z.add 1 |>) else mret tt);; mret ok.
Definition free_block : M Heap unit := modify (fun h => h <| blocks ::= fun n => n - 1 |>).

(** Queue all frames, in array order. *)
Fixpoint enqueue_all (idx : list nat) (f : Fbm) : option Fbm :=
  match idx with
  | [] => Some f
  | i :: idx => match FbmEnqueue QEmpty i f with Some f => enqueue_all idx f | None => None end
  end.

Definition buf_info (ci : FbmCreateInfo) (nAlignStride : Z) : M Heap FbmBufInfo :=
  w ← (if nAlignStride =? 0 then mret (ciWidth ci) else align_up (ciWidth ci) nAlignStride);
  h ← (if nAlignStride =? 0 then mret (ciHeight ci) else align_up (ciHeight ci) nAlignStride);
  mret (mkBufInfo (if ciThumbnailMode ci =? 1 then 1 else ciFrameNum ci) w h
          (ciPixelFormat ci) nAlignStride (ciProgressiveFlag ci) (ciIsSoftDecoderFlag ci)).

(** [ok1], [ok2]: whether the two [malloc] calls succeed. *)
Definition FbmCreateBuffer (ok1 ok2 : bool) (ci : FbmCreateInfo) : M World (option Fbm) :=
  b1 ← zoom (malloc_block ok1);
  if negb b1 then mret None
  else
    b2 ← zoom (malloc_block ok2);
    if negb b2 then zoom free_block;; mret None
    else
      r ← zoom (create_loop ci (Z.to_nat (ciFrameNum ci)) (ciAlignStride ci) []);
      let '(frames, nAlignStride) := r in
      if Z.of_nat (length frames) <? ciFrameNum ci then
        zoom (free_pictures frames);; zoom free_block;; zoom free_block;; mret None
      else
        let f := mkFbm false (ciFrameNum ci) 0 0 0 None None None (ciThumbnailMode ci)
                   frames 0 nAlignStride false 0 0 0 (ciMemops ci) false in
        if gpu_buffers ci then
          W ← get;
          if bool_decide (is_Some (pFbmFirst (info W))) && (bIs3DStream (info W) =? 1) then
            mret (Some (f <| bUseGpuBuf := 1 |> <| pFbmInfo := true |>))
          else
            b ← zoom (buf_info ci nAlignStride);
            mod_info (fun i => i <| pFbmBufInfo := b |>);;
            mret (Some (f <| pFbmInfo := true |> <| bUseGpuBuf := 1 |>))
        else
          f ← lift (enqueue_all (seq 0 (length frames)) f);
          mret (Some (f <| nEmptyBufferNum := ciFrameNum ci |> <| pFbmInfo := true |>)).

(** [GetBufferSize] is in the video engine library, which has no source here:
    [getsize] gives the Y and C sizes it stores. *)
Definition FbmCreate (getsize : FbmBufInfo -> Z * Z) (oks : bool * bool * (bool * bool))
    (ci : FbmCreateInfo) : M World (option side) :=
  W ← get;
  let '(a1, a2, (b1, b2)) := oks in
  if (bIs3DStream (info W) =? 1) && (ciGpuBufValid ci =? 1) then
    mod_info (fun i => i <| bTwoStreamShareOneFbm := 1 |>);;
    match pFbmFirst (info W) with
    | Some _ => mret (if bool_decide (is_Some (pFbmSecond (info W))) then Some Second else None)
    | None =>
        f ← FbmCreateBuffer a1 a2 ci;
        match f with
        | None => mret None
        | Some f =>
            mod_info (fun i => i <| pFbmFirst := Some f |>);;
            s ← FbmCreateBuffer b1 b2 ci;
            mod_info (fun i => i <| pFbmSecond := s |>);;
            W ← get;
            let '(y, c) := getsize (pFbmBufInfo (info W)) in
            cc ← imul 2 c;
            mod_info (fun i => i <| nMinorYBufOffset := u32 y |> <| nMinorCBufOffset := u32 cc |>);;
            mret (Some First)
        end
    end
  else
    match pFbmFirst (info W), pFbmSecond (info W) with
    | None, _ =>
        f ← FbmCreateBuffer a1 a2 ci;
        mod_info (fun i => i <| pFbmFirst := f |>);;
        mret (if bool_decide (is_Some f) then Some First else None)
    | Some _, None =>
        f ← FbmCreateBuffer a1 a2 ci;
        mod_info (fun i => i <| pFbmSecond := f |> <| nMinorYBufOffset := 0 |>
                             <| nMinorCBufOffset := 0 |>);;
        mret (if bool_decide (is_Some f) then Some Second else None)
    | Some _, Some _ => mret None
    end.

Definition FbmDestroy (p : option side) : M World unit :=
  match p with
  | None => mret tt
  | Some w =>
      f ← get_fbm w;
      (if bUseGpuBuf f =? 0 then
         if truthy (bThumbnailMode f) then
           n ← lift (pFrames f !! O);
           zoom (FbmFreePictureBuffer (vpicture n));; mret tt
         else zoom (free_pictures (pFrames f))
       else mret tt);;
      zoom free_block;; zoom free_block;;
      mod_fbm w (fun f => f <| freed := true |>)
  end.

(** * The decoder side *)

(** The status checks of the code. *)
Definition in_use (fl : FrameNodeFlag) : bool :=
  truthy (bUsedByDecoder fl) || truthy (bInValidPictureQueue fl)
  || truthy (bUsedByRender fl) || truthy (bAlreadyDisplayed fl).

(** The cache flush of small frames under the CTS test flag. *)
Definition cts_flush (w : side) (i : nat) : M World unit :=
  W ← get;
  n ← get_node w i;
  if truthy (bIsFrameCtsTestFlag (info W)) && (nWidth (vpicture n) <? FBM_NEED_FLUSH_CACHE_SIZE)
  then
    a ← imul (nWidth (vpicture n)) (nHeight (vpicture n));
    a ← imul a 3;
    zoom (CdcMemFlushCache (pData0 (vpicture n)) (Z.quot a 2))
  else mret tt.

Definition FbmRequestBuffer (p : option side) : M World picptr := with_fbm p PicNull (fun w =>
  W ← get;
  if shares_first w (info W) then
    match pMajorDecoderFrame (info W) with
    | PicNull => mret PicNull
    | pic =>
        mod_pic pic (fun v => v <| nBufStatus ::= set_bits MINOR_DECODER_USE_FLAG |>
                                <| nBufStatus ::= clear_bits MINOR_NEED_USE_FLAG |>);;
        mret pic
    end
  else
    mod_info (fun i => i <| pMajorDecoderFrame := PicNull |>);;
    lock w;;
    r ← dequeue w QEmpty;
    match r with
    | None => unlock w;; mret PicNull
    | Some i =>
        n ← get_node w i;
        if in_use (Flag n) then unlock w;; mret PicNull
        else
          empty_down w;; decoder_up w;;
          mod_flag w i (fun fl => fl <| bUsedByDecoder := 1 |>);;
          (if bTwoStreamShareOneFbm (info W) =? 1 then
             mod_info (fun v => v <| pMajorDecoderFrame := Pic w i |>);;
             mod_picture w i (fun v => v <| nBufStatus ::= set_bits MAJOR_DECODER_USE_FLAG |>
                                         <| nBufStatus ::= set_bits MINOR_NEED_USE_FLAG |>)
           else mret tt);;
          unlock w;;
          cts_flush w i;;
          mret (Pic w i)
    end).

(** The index test the return operations share: the node [pVPicture] belongs
    to, when its id is in range and it is the picture of that node. *)
Definition checked_index (w : side) (pic : picptr) : M World (option nat) :=
  v ← load_pic pic;
  f ← get_fbm w;
  if (nID v <? 0) || (nID v >=? nMaxFrameNum f) then mret None
  else if negb (is_pic pic w (Z.to_nat (nID v))) then mret None
  else mret (Some (Z.to_nat (nID v))).

(** The part of [FbmReturnBuffer] on the node, with the mutex held. *)
Definition return_node (w : side) (i : nat) (bValidPicture : Z) : M World unit :=
  n ← get_node w i;
  let fl := Flag n in
  if bUsedByDecoder fl =? 0 then unlock w
  else
    mod_flag w i (fun fl => fl <| bUsedByDecoder := 0 |>);;
    if bNeedRelease fl =? 1 then
      enqueue w QRelease i;; release_up w;;
      mod_flag w i (fun fl => fl <| bAlreadyDisplayed := 0 |> <| bInValidPictureQueue := 0 |>);;
      unlock w
    else if truthy (bInValidPictureQueue fl)
            && (truthy (bUsedByRender fl) || truthy (bAlreadyDisplayed fl)) then unlock w
    else
      (if truthy (bInValidPictureQueue fl) then mret tt
       else if (bInValidPictureQueue fl =? 0) && (bUsedByRender fl =? 1) then mret tt
       else if (bInValidPictureQueue fl =? 0) && (bUsedByRender fl =? 0)
               && (bAlreadyDisplayed fl =? 1) then
         mod_flag w i (fun fl => fl <| bAlreadyDisplayed := 0 |>);;
         enqueue w QEmpty i;; empty_up w
       else if (bInValidPictureQueue fl =? 0) && (bUsedByRender fl =? 0)
               && (bAlreadyDisplayed fl =? 0) then
         if truthy bValidPicture then
           enqueue w QValid i;; valid_up w;; wait_up w;;
           mod_flag w i (fun fl => fl <| bInValidPictureQueue := 1 |>)
         else enqueue w QEmpty i;; empty_up w
       else mret tt);;
      decoder_down w;;
      unlock w.

(** The manager the frame goes back to, [None] when the other stream still
    needs it. *)
Definition return_target (w : side) (pic : picptr) (bValidPicture : Z) : M World (option side) :=
  W ← get;
  if bTwoStreamShareOneFbm (info W) =? 1 then
    match w with
    | First =>
        mod_pic pic (fun v => v <| nBufStatus ::= clear_bits MAJOR_DECODER_USE_FLAG |>);;
        v ← load_pic pic;
        if has_bits MINOR_DECODER_USE_FLAG (nBufStatus v) then mret None
        else if (bValidPicture =? 1) && has_bits MINOR_NEED_USE_FLAG (nBufStatus v) then mret None
        else mret (Some First)
    | Second =>
        mod_pic pic (fun v => v <| nBufStatus ::= clear_bits MINOR_DECODER_USE_FLAG |>);;
        v ← load_pic pic;
        if has_bits MAJOR_DECODER_USE_FLAG (nBufStatus v) then mret None
        else mret (Some First)
    end
  else mret (Some w).

Definition FbmReturnBuffer (p : option side) (pic : picptr) (bValidPicture : Z) : M World unit :=
  with_fbm p tt (fun w =>
    match pic with
    | PicNull => mret tt
    | _ =>
        t ← return_target w pic bValidPicture;
        match t with
        | None => mret tt
        | Some w =>
            r ← checked_index w pic;
            match r with
            | None => mret tt
            | Some i => lock w;; return_node w i bValidPicture
            end
        end
    end).

Definition FbmShareBuffer (p : option side) (pic : picptr) : M World unit :=
  with_fbm p tt (fun w =>
    match pic with
    | PicNull => mret tt
    | _ =>
        W ← get;
        if shares_first w (info W) then mret tt
        else
          r ← checked_index w pic;
          match r with
          | None => mret tt
          | Some i =>
              n ← get_node w i;
              if bNeedRelease (Flag n) =? 1 then mret tt
              else
                lock w;;
                n ← get_node w i;
                let fl := Flag n in
                if (bUsedByDecoder fl =? 0) || (bInValidPictureQueue fl =? 1)
                   || (bAlreadyDisplayed fl =? 1)
                then unlock w
                else
                  mod_flag w i (fun fl => fl <| bInValidPictureQueue := 1 |>);;
                  enqueue w QValid i;; valid_up w;; wait_up w;;
                  unlock w
          end
    end).

(** * The display side *)

Definition FbmRequestPicture (p : option side) : M World picptr := with_fbm p PicNull (fun w =>
  W ← get;
  if shares_first w (info W) then
    mod_pic (pMajorDispFrame (info W)) (fun v => v <| nBufStatus ::= set_bits MINOR_DISP_USE_FLAG |>);;
    mret (pMajorDispFrame (info W))
  else
    lock w;;
    mod_info (fun i => i <| pMajorDispFrame := PicNull |>);;
    r ← dequeue w QValid;
    match r with
    | None => unlock w;; mret PicNull
    | Some i =>
        n ← get_node w i;
        let fl := Flag n in
        if (bInValidPictureQueue fl =? 0) || (bUsedByRender fl =? 1)
           || (bAlreadyDisplayed fl =? 1)
        then unlock w;; mret PicNull
        else
          valid_down w;; wait_down w;; render_up w;;
          mod_flag w i (fun fl => fl <| bInValidPictureQueue := 0 |>);;
          mod_flag w i (fun fl => fl <| bUsedByRender := 1 |>);;
          mod_info (fun v => v <| pMajorDispFrame := Pic w i |>);;
          mod_picture w i (fun v => v <| nBufStatus ::= set_bits MAJOR_DISP_USE_FLAG |>);;
          unlock w;; mret (Pic w i)
    end).

(** Whether the other stream still shows the picture. *)
Definition display_target (w : side) (pic : picptr) : M World bool :=
  W ← get;
  if bTwoStreamShareOneFbm (info W) =? 1 then
    let '(mine, other) := match w with
                          | First => (MAJOR_DISP_USE_FLAG, MINOR_DISP_USE_FLAG)
                          | Second => (MINOR_DISP_USE_FLAG, MAJOR_DISP_USE_FLAG)
                          end in
    mod_pic pic (fun v => v <| nBufStatus ::= clear_bits mine |>);;
    v ← load_pic pic;
    mret (has_bits other (nBufStatus v))
  else mret false.

(** The part of [FbmReturnPicture] on the node. *)
Definition return_shown (w : side) (i : nat) : M World Z :=
  lock w;;
  n ← get_node w i;
  let fl := Flag n in
  if (bUsedByRender fl =? 0) || (bInValidPictureQueue fl =? 1) || (bAlreadyDisplayed fl =? 1)
  then unlock w;; mret (-1)
  else
    mod_flag w i (fun fl => fl <| bUsedByRender := 0 |>);;
    render_down w;;
    (if truthy (bUsedByDecoder fl) then
       mod_flag w i (fun fl => fl <| bAlreadyDisplayed := 1 |>)
     else if bNeedRelease fl =? 0 then enqueue w QEmpty i;; empty_up w
     else enqueue w QRelease i;; release_up w);;
    unlock w;; mret 0.

Definition FbmReturnPicture (p : option side) (pic : picptr) : M World Z :=
  with_fbm p 0 (fun w =>
    match pic with
    | PicNull => mret 0
    | _ =>
        busy ← display_target w pic;
        if (busy : bool) then mret 0
        else
          v ← load_pic pic;
          f ← get_fbm w;
          let index := nID v in
          if (index <? 0) || (index >=? nMaxFrameNum f) then
            if index >=? FRM_FORBID_USE_TAG then
              let i := Z.to_nat (index - FRM_FORBID_USE_TAG) in
              n ← get_node w i;
              lock w;;
              if truthy (bUsedByRender (Flag n)) || truthy (bInValidPictureQueue (Flag n))
                 || truthy (bAlreadyDisplayed (Flag n))
              then unlock w;; mret (-1)
              else
                enqueue w QEmpty i;; empty_up w;;
                mod_pic pic (fun v => v <| nID := index - FRM_FORBID_USE_TAG |>);;
                unlock w;; mret 0
            else mret (-1)
          else if negb (is_pic pic w (Z.to_nat index)) then mret (-1)
          else return_shown w (Z.to_nat index)
    end).

(** [ppFbm]: the manager whose state the query functions read. *)
Definition query {A} (p : option side) (d : A) (g : side -> Fbm -> A) : M World A :=
  with_fbm p d (fun w =>
    W ← get;
    let w := if shares_first w (info W) then First else w in
    f ← get_fbm w; mret (g w f)).

Definition FbmNextPictureInfo (p : option side) : M World picptr :=
  query p PicNull (fun w f =>
    match pValidPictureQueue f with Some i => Pic w i | None => PicNull end).

Definition FbmTotalBufferNum (p : option side) : M World Z := query p 0 (fun _ => nMaxFrameNum).
Definition FbmEmptyBufferNum (p : option side) : M World Z := query p 0 (fun _ => nEmptyBufferNum).
Definition FbmGetDecoderHoldingBufferNum (p : option side) : M World Z :=
  query p 0 (fun _ => nDecoderHoldingNum).
Definition FbmGetRenderHoldingBufferNum (p : option side) : M World Z :=
  query p 0 (fun _ => nRenderHoldingNum).
Definition FbmValidPictureNum (p : option side) : M World Z := query p 0 (fun _ => nValidPictureNum).
Definition FbmGetAlignValue (p : option side) : M World Z := query p 0 (fun _ => nAlignValue).

Definition FbmGetDisplayBufferNum (p : option side) : M World Z :=
  with_fbm p 0 (fun w =>
    W ← get;
    f ← get_fbm (if shares_first w (info W) then First else w);
    iadd (nRenderHoldingNum f) (nValidPictureNum f)).

(** The result code and the picture of the caller. *)
Definition FbmGetBufferInfo (p : option side) (v : VideoPicture) : M World (Z * VideoPicture) :=
  with_fbm p (0, v) (fun w =>
    W ← get;
    n ← get_node (if shares_first w (info W) then First else w) O;
    let g := vpicture n in
    mret (0, v <| ePixelFormat := ePixelFormat g |> <| nWidth := nWidth g |>
               <| nHeight := nHeight g |> <| nLineStride := nLineStride g |>
               <| nTopOffset := nTopOffset g |> <| nLeftOffset := nLeftOffset g |>
               <| nFrameRate := nFrameRate g |> <| nAspectRatio := nAspectRatio g |>
               <| bIsProgressive := bIsProgressive g |>)).

(** * Flushing *)

(** The loop over [pValidPictureQueue]; [fuel] bounds the number of rounds. *)
Fixpoint flush_loop (fuel : nat) (w : side) : M World unit :=
  match fuel with
  | O => undef
  | S fuel =>
      r ← dequeue w QValid;
      match r with
      | None => unlock w
      | Some i =>
          mod_picture w i (fun v => v <| nBufStatus := 0 |>);;
          valid_down w;;
          n ← get_node w i;
          let fl := Flag n in
          if truthy (bUsedByRender fl) || truthy (bAlreadyDisplayed fl) then unlock w
          else
            mod_flag w i (fun fl => fl <| bInValidPictureQueue := 0 |>);;
            (if bUsedByDecoder fl =? 0 then enqueue w QEmpty i;; empty_up w
             else mod_flag w i (fun fl => fl <| bAlreadyDisplayed := 1 |>));;
            flush_loop fuel w
      end
  end.

Definition FbmFlush (p : option side) : M World unit :=
  with_fbm p tt (fun w =>
    W ← get;
    if shares_first w (info W) then mret tt
    else
      lock w;;
      f ← get_fbm w;
      flush_loop (S (length (pFrames f))) w).

(** * The new display path: buffers that come from the display *)

Definition FbmGetVideoBufferInfo (i : option VideoFbmInfo) : option FbmBufInfo :=
  match i with
  | None => None
  | Some i =>
      if bIs3DStream i =? 1 then
        match pFbmFirst i, pFbmSecond i with
        | Some _, Some _ => Some (pFbmBufInfo i)
        | _, _ => None
        end
      else if nBufNum (pFbmBufInfo i) =? 0 then None
      else Some (pFbmBufInfo i)
  end.

(** [(bIs3DStream==1) || (pFbmSecond==NULL)] selects the first manager. *)
Definition display_side (i : VideoFbmInfo) : side :=
  if (bIs3DStream i =? 1) || bool_decide (pFbmSecond i = None) then First else Second.

(** The manager the display talks to, if it exists. *)
Definition display_fbm (i : VideoFbmInfo) : option side :=
  let w := display_side i in
  match slot w i with Some _ => Some w | None => None end.

(** The fields of a buffer the display hands over, and the colour default. *)
Definition take_buffer (src : VideoPicture) (id : Z) (v : VideoPicture) : VideoPicture :=
  v <| pData0 := pData0 src |> <| pData1 := pData1 src |> <| pData2 := pData2 src |>
    <| phyYBufAddr := phyYBufAddr src |> <| phyCBufAddr := phyCBufAddr src |>
    <| nBufId := nBufId src |> <| pPrivate := pPrivate src |>
    <| nID := id |> <| nColorPrimary := s32 4294967295 |>.

(** Queue a handed-over buffer, or tag its id when it must not be used yet. *)
Definition queue_buffer (w : side) (i : nat) (bForbidUseFlag : Z) : M World unit :=
  if bForbidUseFlag =? 0 then enqueue w QEmpty i;; empty_up w
  else
    n ← get_node w i;
    id ← iadd (nID (vpicture n)) FRM_FORBID_USE_TAG;
    mod_picture w i (fun v => v <| nID := id |>).

(** [phyCBufAddr] and [pData1] of a 3D frame; the offset is an [unsigned]. *)
Definition place_3d (off : Z) (v : VideoPicture) : VideoPicture :=
  v <| phyCBufAddr := phyYBufAddr v + u32 (2 * off) |> <| pData1 := pData0 v + u32 (2 * off) |>.

Definition FbmSetFbmBufAddress (pPicture : picptr) (bForbidUseFlag : Z) : M World picptr :=
  W ← get;
  match display_fbm (info W) with
  | None => mret PicNull
  | Some w =>
      lock w;;
      let id := nValidBufNum (info W) in
      let i := Z.to_nat id in
      src ← load_pic pPicture;
      mod_picture w i (take_buffer src (s32 id));;
      queue_buffer w i bForbidUseFlag;;
      (if bIs3DStream (info W) =? 1 then
         mod_picture w i (place_3d (nMinorYBufOffset (info W)))
       else mret tt);;
      mod_info (fun v => v <| nValidBufNum := u32 (id + 1) |>);;
      unlock w;;
      mret (Pic w i)
  end.

(** The loop over [pEmptyBufferQueue]. *)
Fixpoint release_loop (fuel : nat) (w : side) : M World unit :=
  match fuel with
  | O => undef
  | S fuel =>
      r ← dequeue w QEmpty;
      match r with
      | None => unlock w
      | Some i =>
          n ← get_node w i;
          if in_use (Flag n) then unlock w
          else
            empty_down w;;
            enqueue w QRelease i;; release_up w;;
            release_loop fuel w
      end
  end.

Definition FbmNewDispRelease (p : option side) : M World Z :=
  match p with
  | None => mret 0
  | Some w =>
      lock w;;
      f ← get_fbm w;
      release_loop (S (length (pFrames f))) w;;
      mret 0
  end.

(** [bNeedRelease = 1] for the frames that hold a buffer of the display. *)
Definition mark_release (n : FrameNode) : FrameNode :=
  if nBufId (vpicture n) =? FBM_NEW_DISP_INVALID_TAG then n
  else n <| Flag ::= fun fl => fl <| bNeedRelease := 1 |> |>.

Definition FbmSetNewDispRelease : M World Z :=
  W ← get;
  match display_fbm (info W) with
  | None => mret 0
  | Some w =>
      lock w;;
      mod_fbm w (fun f => f <| pFrames ::= map mark_release |>);;
      unlock w;;
      FbmFlush (Some w);;
      FbmNewDispRelease (Some w);;
      mret 0
  end.

Definition FbmRequestReleasePicture : M World picptr :=
  W ← get;
  match display_fbm (info W) with
  | None => mret PicNull
  | Some w =>
      lock w;;
      r ← dequeue w QRelease;
      match r with
      | None => unlock w;; mret PicNull
      | Some i =>
          release_down w;;
          mod_picture w i (fun v => v <| nID := FRM_RELEASE_TAG |>);;
          unlock w;; mret (Pic w i)
      end
  end.

(** The node of a buffer that went to the display for release. *)
Definition awaits_buffer (n : FrameNode) : bool :=
  (bNeedRelease (Flag n) =? 1) && (nID (vpicture n) =? FRM_RELEASE_TAG).

(** The search loop: its index is the array's length when nothing was found. *)
Fixpoint find_released (l : list FrameNode) (k : nat) : option nat :=
  match l with
  | [] => None
  | n :: l => if awaits_buffer n then Some k else find_released l (S k)
  end.

(** When no node waits for a buffer, [pFrameNode] is left on the last node. *)
Definition FbmReturnReleasePicture (pVpicture : picptr) (bForbidUseFlag : Z) : M World picptr :=
  W ← get;
  match display_fbm (info W) with
  | None => mret PicNull
  | Some w =>
      lock w;;
      f ← get_fbm w;
      match find_released (pFrames f) 0 with
      | Some i =>
          src ← load_pic pVpicture;
          mod_picture w i (take_buffer src (Z.of_nat i));;
          mod_flag w i (fun fl => fl <| bNeedRelease := 0 |>);;
          queue_buffer w i bForbidUseFlag;;
          unlock w;; mret (Pic w i)
      | None =>
          unlock w;;
          match length (pFrames f) with
          | O => undef
          | S k => mret (Pic w k)
          end
      end
  end.

Definition FbmGetBufferOffset (p : option side) (isYBufferFlag : Z) : M World Z :=
  with_fbm p 0 (fun w =>
    W ← get;
    mret (match w with
          | First => 0
          | Second => if isYBufferFlag =? 1 then nMinorYBufOffset (info W)
                      else nMinorCBufOffset (info W)
          end)).

End Fbm.
