(* ===== verification/FbmQueue.v ===== *)
(** The linked queues of the frame buffer manager as lists of frame indices.

    [chain] relates a head and the [pNext] links of the frames to the list of
    frames on the queue; [FbmEnqueue] is then [_ ++ [i]] and [FbmDequeue] takes
    the head off, the walk to the end of the queue terminates, and both leave
    every link outside the queue, and all data of the frames, unchanged. *)

From Stdlib Require Import ZArith Lia.
From stdpp Require Import base list list_numbers numbers.
From S2P Require Import Prelude Chain Fbm.

Module FbmQueue.
Import Fbm.
Export Chain.

(** * Three views of the frame array *)

Definition links (fr : list FrameNode) : list (option nat) := pNext <$> fr.
Definition flags (fr : list FrameNode) : list FrameNodeFlag := Flag <$> fr.
(** The pictures, less the status word the two streams of a 3D video keep. *)
Definition static (v : VideoPicture) : VideoPicture := v <| nBufStatus := 0 |>.
#[global] Arguments static : simpl never.
Definition pics (fr : list FrameNode) : list VideoPicture :=
  (fun n => static (vpicture n)) <$> fr.

Lemma fmap_alter_same {A B} (p : A -> B) (g : A -> A) i (l : list A) :
  (forall a, p (g a) = p a) -> p <$> alter g i l = p <$> l.
Proof.
  intros H. apply list_eq. intros k. rewrite !list_lookup_fmap.
  destruct (decide (k = i)) as [->|].
  - rewrite list_lookup_alter_eq. destruct (l !! i); simpl; by rewrite ?H.
  - by rewrite list_lookup_alter_ne.
Qed.

Lemma fmap_alter {A B} (p : A -> B) (g : A -> A) (h : B -> B) i (l : list A) :
  (forall a, p (g a) = h (p a)) -> p <$> alter g i l = alter h i (p <$> l).
Proof.
  intros H. apply list_eq. intros k. rewrite list_lookup_fmap.
  destruct (decide (k = i)) as [->|].
  - rewrite !list_lookup_alter_eq, list_lookup_fmap. destruct (l !! i); simpl; by rewrite ?H.
  - by rewrite !list_lookup_alter_ne, list_lookup_fmap by done.
Qed.

Lemma links_next i v fr : links (set_next i v fr) = <[i := v]> (links fr).
Proof.
  unfold links, set_next. apply list_eq. intros k. rewrite list_lookup_fmap.
  destruct (decide (k = i)) as [->|].
  - rewrite list_lookup_alter_eq. destruct (fr !! i) eqn:E; simpl.
    + rewrite list_lookup_insert_eq; [done|]. rewrite length_fmap. by eapply lookup_lt_Some.
    + rewrite list_insert_ge; rewrite ?list_lookup_fmap, ?E; [done|].
      rewrite length_fmap. by apply lookup_ge_None.
  - by rewrite list_lookup_alter_ne, list_lookup_insert_ne, list_lookup_fmap.
Qed.

Lemma flags_next i v fr : flags (set_next i v fr) = flags fr.
Proof. by apply fmap_alter_same. Qed.
Lemma pics_next i v fr : pics (set_next i v fr) = pics fr.
Proof. by apply fmap_alter_same. Qed.
Lemma links_flag i g fr : links (alter (fun n => n <| Flag ::= g |>) i fr) = links fr.
Proof. by apply fmap_alter_same. Qed.
Lemma flags_flag i g fr : flags (alter (fun n => n <| Flag ::= g |>) i fr) = alter g i (flags fr).
Proof. by apply fmap_alter. Qed.
Lemma pics_flag i g fr : pics (alter (fun n => n <| Flag ::= g |>) i fr) = pics fr.
Proof. by apply fmap_alter_same. Qed.
Lemma links_picture i g fr : links (alter (fun n => n <| vpicture ::= g |>) i fr) = links fr.
Proof. by apply fmap_alter_same. Qed.
Lemma flags_picture i g fr : flags (alter (fun n => n <| vpicture ::= g |>) i fr) = flags fr.
Proof. by apply fmap_alter_same. Qed.
Lemma pics_picture i g fr :
  (forall v, static (g v) = static v) ->
  pics (alter (fun n => n <| vpicture ::= g |>) i fr) = pics fr.
Proof. intros H. apply fmap_alter_same. intros a. apply H. Qed.

Lemma length_links fr : length (links fr) = length fr.
Proof. apply length_fmap. Qed.
Lemma length_flags fr : length (flags fr) = length fr.
Proof. apply length_fmap. Qed.

(** The walk to the end of a queue ends, at its last node. *)
Lemma walk_chain fuel fr h l :
  chain (links fr) (Some h) l -> (length l <= fuel)%nat -> walk fuel fr h = list.last l.
Proof.
  revert h l. induction fuel as [|fuel IH]; intros h l C Hf.
  - destruct l; [done|]. simpl in Hf. lia.
  - destruct l as [|i l]; [done|]. destruct C as (Eh & nx & E & C). simplify_eq.
    unfold links in E. rewrite list_lookup_fmap in E.
    simpl. destruct (fr !! i) as [n|]; [|done]. simpl in E. simplify_eq.
    destruct l as [|j l].
    + simpl in C. by rewrite C.
    + simpl in Hf. assert (pNext n = Some j) as En by (by destruct C).
      rewrite En in *. rewrite (IH j (j :: l)); [done|done|simpl; lia].
Qed.

(** * The queue operations *)

(** [FbmEnqueue] returns, appends, and touches only the head and the links
    of the queue it is given. *)
Lemma enqueue_chain q i f l :
  chain (links (pFrames f)) (head_of q f) l -> NoDup (i :: l) ->
  (i < length (pFrames f))%nat ->
  exists h fr,
    FbmEnqueue q i f = Some (set_head q h f <| pFrames := fr |>) /\
    chain (links fr) h (l ++ [i]) /\
    (forall k, k ∉ i :: l -> links fr !! k = links (pFrames f) !! k) /\
    flags fr = flags (pFrames f) /\ pics fr = pics (pFrames f) /\
    length fr = length (pFrames f).
Proof.
  intros C Hnd Hi. unfold FbmEnqueue.
  destruct (head_of q f) as [h|] eqn:Eh.
  - destruct l as [|j l]; [done|]. assert (h = j) as -> by (destruct C; congruence).
    assert (length (j :: l) <= length (pFrames f))%nat.
    { apply list.NoDup_cons in Hnd as [_ Hnd]. apply NoDup_bounded_length; [done|].
      intros k Hk. rewrite <- length_links. by eapply chain_bound. }
    rewrite (walk_chain _ _ _ (j :: l)) by (done || lia).
    destruct (list.last (j :: l)) as [z|] eqn:Ez; [|by apply last_None in Ez].
    assert (z ∈ j :: l) by (by apply last_Some_elem_of).
    exists (Some j), (set_next i None (set_next z (Some i) (pFrames f))).
    split_and!.
    + destruct q; unfold head_of in Eh; simpl; rewrite <- Eh; by destruct f.
    + rewrite !links_next. eapply chain_snoc; [done..|]. by rewrite length_links.
    + intros k Hk. rewrite !links_next, !list_lookup_insert_ne; [done|..]; intros ->; apply Hk.
      * by right.
      * by left.
    + by rewrite !flags_next.
    + by rewrite !pics_next.
    + unfold set_next. by rewrite !length_alter.
  - destruct l as [|j l]; [|by destruct C].
    exists (Some i), (set_next i None (pFrames f)). split_and!.
    + by destruct q, f.
    + rewrite links_next. split; [done|]. exists None. split; [|done].
      apply list_lookup_insert_eq. by rewrite length_links.
    + intros k Hk. rewrite links_next, list_lookup_insert_ne; [done|].
      intros ->. apply Hk. by left.
    + by rewrite flags_next.
    + by rewrite pics_next.
    + unfold set_next. by rewrite length_alter.
Qed.

Lemma dequeue_nil q f :
  chain (links (pFrames f)) (head_of q f) [] -> FbmDequeue q f = Some (None, f).
Proof. intros C. unfold FbmDequeue. by rewrite C. Qed.

(** [FbmDequeue] takes the first frame off. *)
Lemma dequeue_cons q i f l :
  chain (links (pFrames f)) (head_of q f) (i :: l) -> NoDup (i :: l) ->
  exists h fr,
    FbmDequeue q f = Some (Some i, set_head q h f <| pFrames := fr |>) /\
    chain (links fr) h l /\
    (forall k, k <> i -> links fr !! k = links (pFrames f) !! k) /\
    flags fr = flags (pFrames f) /\ pics fr = pics (pFrames f) /\
    length fr = length (pFrames f).
Proof.
  intros C Hnd. pose proof C as (Eh & nx & E & C').
  unfold links in E. rewrite list_lookup_fmap in E.
  destruct (pFrames f !! i) as [n|] eqn:En; [|done]. simpl in E. simplify_eq.
  exists (pNext n), (set_next i None (pFrames f)). split_and!.
  - unfold FbmDequeue. rewrite Eh, En. by destruct q, f.
  - rewrite links_next. apply chain_insert; [|done]. by apply list.NoDup_cons in Hnd as [? _].
  - intros k Hk. by rewrite links_next, list_lookup_insert_ne.
  - by rewrite flags_next.
  - by rewrite pics_next.
  - unfold set_next. by rewrite length_alter.
Qed.

End FbmQueue.
