(* ===== verification/FbmPool.v ===== *)
(** What the frame buffer manager promises: a pool of frames, each in one of
    seven states, moved by the calls of the decoder and of the display.

    The pool knows nothing of links, counters, flags or mutexes; [FbmSpec]
    shows that [fbm.c] implements it. *)

From Stdlib Require Import ZArith Lia.
From stdpp Require Import base list list_numbers numbers sets.
From S2P Require Import Prelude.

Module FbmPool.

(** * The life of a frame *)

Inductive status :=
| Empty        (** in the empty queue *)
| Decoding     (** the decoder writes it *)
| Shared       (** waits to be shown, the decoder still refers to it *)
| Queued       (** waits to be shown *)
| Showing      (** the display shows it *)
| ShowingRef   (** the display shows it, the decoder still refers to it *)
| Shown.       (** shown or dropped, the decoder still refers to it *)

#[export] Instance status_eq_dec : EqDecision status.
Proof. solve_decision. Defined.

Definition by_decoder (s : status) : bool :=
  match s with Decoding | Shared | ShowingRef | Shown => true | _ => false end.
Definition by_render (s : status) : bool :=
  match s with Showing | ShowingRef => true | _ => false end.
Definition waiting (s : status) : bool :=
  match s with Shared | Queued => true | _ => false end.
Definition is_empty (s : status) : bool := match s with Empty => true | _ => false end.

(** [free] and [show] are the queues, [stale] the number of pictures dropped by
    flushes since the pool was made. *)
Record pool := mkPool {
  free : list nat;
  show : list nat;
  st : list status;
  stale : Z
}.
#[export] Instance eta_pool : Eta pool := fun a =>
  mkPool (free a) (show a) (st a) (stale a).

Definition become (i : nat) (s : status) (a : pool) : pool := a <| st ::= <[i := s]> |>.
Definition give_back (i : nat) (a : pool) : pool :=
  become i Empty a <| free ::= fun l => l ++ [i] |>.

Definition request (a : pool) : option nat * pool :=
  match free a with
  | [] => (None, a)
  | i :: l => (Some i, become i Decoding a <| free := l |>)
  end.

Definition return_frame (i : nat) (valid : bool) (a : pool) : pool :=
  match st a !! i with
  | Some Decoding =>
      if valid then become i Queued a <| show ::= fun l => l ++ [i] |> else give_back i a
  | Some Shared => become i Queued a
  | Some ShowingRef => become i Showing a
  | Some Shown => give_back i a
  | _ => a
  end.

Definition share (i : nat) (a : pool) : pool :=
  match st a !! i with
  | Some Decoding => become i Shared a <| show ::= fun l => l ++ [i] |>
  | _ => a
  end.

(** The display takes a picture; a frame the decoder refers to stays its. *)
Definition taken (s : option status) : status :=
  match s with Some Shared => ShowingRef | _ => Showing end.

Definition take_picture (a : pool) : option nat * pool :=
  match show a with
  | [] => (None, a)
  | i :: l => (Some i, become i (taken (st a !! i)) a <| show := l |>)
  end.

(** The code the display gets back, and the pool. *)
Definition return_picture (i : nat) (a : pool) : Z * pool :=
  match st a !! i with
  | Some Showing => (0, give_back i a)
  | Some ShowingRef => (0, become i Shown a)
  | _ => (-1, a)
  end.

Definition drop_one (i : nat) (a : pool) : pool :=
  let a' := match st a !! i with
            | Some Shared => become i Shown a
            | _ => give_back i a
            end in
  a' <| show ::= tail |> <| stale ::= Z.add 1 |>.

#[global] Arguments drop_one : simpl never.

Definition flush (a : pool) : pool := foldl (fun a i => drop_one i a) a (show a).

(** * Calls *)

Inductive call :=
| Request
| Return (i : nat) (valid : bool)
| Share (i : nat)
| TakePicture
| ReturnPicture (i : nat)
| Flush.

Inductive reply := NoReply | Frame (i : option nat) | Code (z : Z).

Definition step (c : call) (a : pool) : reply * pool :=
  match c with
  | Request => let '(r, a) := request a in (Frame r, a)
  | Return i v => (NoReply, return_frame i v a)
  | Share i => (NoReply, share i a)
  | TakePicture => let '(r, a) := take_picture a in (Frame r, a)
  | ReturnPicture i => let '(z, a) := return_picture i a in (Code z, a)
  | Flush => (NoReply, flush a)
  end.

Fixpoint run (cs : list call) (a : pool) : list reply * pool :=
  match cs with
  | [] => ([], a)
  | c :: cs => let '(r, a) := step c a in let '(rs, a) := run cs a in (r :: rs, a)
  end.

(** * Well-formed pools *)

Definition is_st (P : status -> bool) (i : nat) (a : pool) : Prop :=
  exists s, st a !! i = Some s /\ P s = true.

Record wf (a : pool) : Prop := {
  wf_free : forall i, i ∈ free a <-> is_st is_empty i a;
  wf_show : forall i, i ∈ show a <-> is_st waiting i a;
  wf_nodup_free : NoDup (free a);
  wf_nodup_show : NoDup (show a)
}.

(** [n] frames, all empty. *)
Definition fresh (n : nat) : pool := mkPool (seq 0 n) [] (replicate n Empty) 0.

Lemma fresh_wf n : wf (fresh n).
Proof.
  split; simpl.
  - intros i. rewrite elem_of_seq. unfold is_st. simpl. split.
    + intros H. exists Empty. split; [apply lookup_replicate; split; [done|lia] | done].
    + intros (s & H & _). apply lookup_replicate in H. lia.
  - intros i. split; [by intros ?%elem_of_nil|].
    intros (s & H & Hw). apply lookup_replicate in H as [-> _]. done.
  - apply NoDup_seq.
  - constructor.
Qed.

Lemma is_st_become P i s a k :
  is_st P k (become i s a) <->
  (k = i /\ (i < length (st a))%nat /\ P s = true) \/ (k <> i /\ is_st P k a).
Proof.
  unfold is_st, become. simpl. destruct (decide (k = i)) as [->|Hne].
  - split.
    + intros (s' & H & HP). left. apply list_lookup_insert_Some in H as [(_ & -> & ?)|[]]; done.
    + intros [(_ & H & HP)|[]]; [|done]. exists s. split; [|done]. by apply list_lookup_insert_eq.
  - rewrite list_lookup_insert_ne by done. naive_solver.
Qed.

(** Every step is an instance of this: frame [i] changes state, and the
    queues follow. *)
Lemma wf_move (a b : pool) i s0 s :
  wf a -> st a !! i = Some s0 -> st b = <[i := s]> (st a) ->
  (forall k, k ∈ free b <-> (k = i /\ is_empty s = true) \/ (k <> i /\ k ∈ free a)) ->
  (forall k, k ∈ show b <-> (k = i /\ waiting s = true) \/ (k <> i /\ k ∈ show a)) ->
  NoDup (free b) -> NoDup (show b) -> wf b.
Proof.
  intros Wa Hi Hst Hf Hs Nf Ns.
  assert (i < length (st a))%nat by (by eapply lookup_lt_Some).
  assert (forall P k, is_st P k b <-> is_st P k (become i s a)) as Hb
    by (intros P k; unfold is_st, become; simpl; by rewrite Hst).
  split; [| |done|done]; intros k; rewrite Hb, is_st_become.
  - rewrite Hf, (wf_free a Wa). naive_solver.
  - rewrite Hs, (wf_show a Wa). naive_solver.
Qed.

Section wf_facts.
Context (a : pool) (Wa : wf a).

Lemma in_free i : i ∈ free a <-> st a !! i = Some Empty.
Proof.
  rewrite (wf_free a Wa). unfold is_st. split.
  - intros (s & -> & H). by destruct s.
  - intros ->. by exists Empty.
Qed.

Lemma in_show i : i ∈ show a <-> st a !! i = Some Shared \/ st a !! i = Some Queued.
Proof.
  rewrite (wf_show a Wa). unfold is_st. split.
  - intros (s & -> & H). destruct s; auto; done.
  - intros [->| ->]; eauto.
Qed.

Lemma not_free i s : st a !! i = Some s -> s <> Empty -> i ∉ free a.
Proof. rewrite in_free. congruence. Qed.

Lemma not_show i s : st a !! i = Some s -> waiting s = false -> i ∉ show a.
Proof. rewrite in_show. intros -> ? [?|?]; simplify_eq; done. Qed.
End wf_facts.

(** Closes the queue conditions of [wf_move] from the facts in context. *)
Ltac pool_solve :=
  simpl;
  repeat match goal with
  | E : free ?a = _ :: _ |- context [free ?a] => rewrite E
  | E : show ?a = _ :: _ |- context [show ?a] => rewrite E
  end;
  lazymatch goal with
  | |- NoDup (_ ++ _) => apply NoDup_app; split_and!; [done | set_solver | apply NoDup_singleton]
  | |- NoDup _ => done
  | |- forall k : nat, _ <-> (k = ?i /\ _) \/ _ =>
      let k := fresh "k" in
      intros k; rewrite ?elem_of_app, ?list_elem_of_singleton, ?elem_of_cons;
      destruct (decide (k = i)) as [->|]; naive_solver
  end.

Lemma wf_request a r b : wf a -> request a = (r, b) -> wf b.
Proof.
  intros Wa. unfold request. destruct (free a) as [|i l] eqn:Ef; intros E; simplify_eq; [done|].
  pose proof (wf_nodup_free a Wa) as Nf. rewrite Ef in Nf. apply list.NoDup_cons in Nf as [Hi Nl].
  assert (st a !! i = Some Empty) as Si by (apply in_free; [done|]; rewrite Ef; by left).
  pose proof (not_show a Wa i _ Si eq_refl). pose proof (wf_nodup_show a Wa).
  apply (wf_move a _ i Empty Decoding); try done; pool_solve.
Qed.

Lemma wf_give_back a i s : wf a -> st a !! i = Some s -> s <> Empty -> waiting s = false ->
  wf (give_back i a).
Proof.
  intros Wa Si Hs Hw. pose proof (not_free a Wa i s Si Hs). pose proof (not_show a Wa i s Si Hw).
  pose proof (wf_nodup_free a Wa). pose proof (wf_nodup_show a Wa).
  apply (wf_move a _ i s Empty); try done; pool_solve.
Qed.

(** A frame that is in no queue, or in the same queue, before and after. *)
Lemma wf_become a i s0 s : wf a -> st a !! i = Some s0 ->
  is_empty s0 = is_empty s -> waiting s0 = waiting s -> wf (become i s a).
Proof.
  intros Wa Si He Hw. pose proof (wf_nodup_free a Wa). pose proof (wf_nodup_show a Wa).
  apply (wf_move a _ i s0 s); try done; simpl; intros k.
  - destruct (decide (k = i)) as [->|]; [|naive_solver].
    rewrite (in_free a Wa), Si, <- He. destruct s0; naive_solver.
  - destruct (decide (k = i)) as [->|]; [|naive_solver].
    rewrite (in_show a Wa), Si, <- Hw. destruct s0; naive_solver.
Qed.

Lemma wf_enter_show a i s0 s : wf a -> st a !! i = Some s0 -> s0 <> Empty ->
  waiting s0 = false -> is_empty s = false -> waiting s = true ->
  wf (become i s a <| show ::= fun l => l ++ [i] |>).
Proof.
  intros Wa Si H0 Hw0 He Hw.
  pose proof (not_free a Wa i s0 Si H0). pose proof (not_show a Wa i s0 Si Hw0).
  pose proof (wf_nodup_free a Wa). pose proof (wf_nodup_show a Wa).
  apply (wf_move a _ i s0 s); try done; rewrite ?He, ?Hw; pool_solve.
Qed.

Lemma wf_return a i v : wf a -> wf (return_frame i v a).
Proof.
  intros Wa. unfold return_frame. destruct (st a !! i) as [[]|] eqn:Si; try done.
  - destruct v; [by eapply wf_enter_show | by eapply wf_give_back].
  - by eapply wf_become.
  - by eapply wf_become.
  - by eapply wf_give_back.
Qed.

Lemma wf_share a i : wf a -> wf (share i a).
Proof.
  intros Wa. unfold share. destruct (st a !! i) as [[]|] eqn:Si; try done.
  by eapply wf_enter_show.
Qed.

Lemma wf_leave_show a i l s : wf a -> show a = i :: l -> is_empty s = false ->
  waiting s = false -> wf (become i s a <| show := l |>).
Proof.
  intros Wa Es He Hw. pose proof (wf_nodup_show a Wa) as Ns. rewrite Es in Ns.
  apply list.NoDup_cons in Ns as [Hi Nl]. pose proof (wf_nodup_free a Wa).
  assert (i ∈ show a) as Hs by (rewrite Es; by left).
  assert (exists s0, st a !! i = Some s0 /\ s0 <> Empty) as (s0 & Si & ?)
    by (apply in_show in Hs as [?|?]; [eauto..|done]).
  pose proof (not_free a Wa i s0 Si ltac:(done)).
  apply (wf_move a _ i s0 s); try done; rewrite ?He, ?Hw; pool_solve.
Qed.

Lemma wf_take a r b : wf a -> take_picture a = (r, b) -> wf b.
Proof.
  intros Wa. unfold take_picture.
  destruct (show a) as [|i l] eqn:Es; intros E; simplify_eq; [done|].
  apply wf_leave_show; try done; unfold taken; by destruct (st a !! i) as [[]|].
Qed.

Lemma wf_return_picture a i z b : wf a -> return_picture i a = (z, b) -> wf b.
Proof.
  intros Wa. unfold return_picture.
  destruct (st a !! i) as [[]|] eqn:Si; intros E; simplify_eq; try done.
  - by eapply wf_give_back.
  - by eapply wf_become.
Qed.

Lemma wf_ext a b : wf a -> free b = free a -> show b = show a -> st b = st a -> wf b.
Proof.
  intros [W1 W2 W3 W4] E1 E2 E3.
  split; unfold is_st in *; rewrite ?E1, ?E2, ?E3; done.
Qed.

Lemma wf_drop a i l : wf a -> show a = i :: l -> wf (drop_one i a).
Proof.
  intros Wa Es. pose proof (wf_leave_show a i l Shown Wa Es eq_refl eq_refl) as W1.
  unfold drop_one. assert (i ∈ show a) as Hs by (rewrite Es; by left).
  apply (in_show a Wa) in Hs.
  assert (i < length (st a))%nat by (destruct Hs; by eapply lookup_lt_Some).
  assert (st (become i Shown a <| show := l |>) !! i = Some Shown) as S1
    by (by apply list_lookup_insert_eq).
  destruct Hs as [Si|Si]; rewrite Si.
  - eapply wf_ext; [exact W1|..]; simpl; by rewrite ?Es.
  - eapply wf_ext; [eapply (wf_give_back _ i Shown W1); done|..]; simpl; rewrite ?Es; try done.
    by rewrite list_insert_insert_eq.
Qed.

Lemma wf_flush_aux l a : wf a -> show a = l -> wf (foldl (fun a i => drop_one i a) a l).
Proof.
  revert a. induction l as [|i l IH]; intros a Wa Es; simpl; [done|].
  apply IH; [by eapply wf_drop|].
  unfold drop_one. by destruct (st a !! i) as [[]|]; simpl; rewrite Es.
Qed.

Lemma wf_step c a r b : wf a -> step c a = (r, b) -> wf b.
Proof.
  intros Wa. destruct c; simpl.
  - destruct (request a) eqn:E. intros ?; simplify_eq. by eapply wf_request.
  - intros ?; simplify_eq. by apply wf_return.
  - intros ?; simplify_eq. by apply wf_share.
  - destruct (take_picture a) eqn:E. intros ?; simplify_eq. by eapply wf_take.
  - destruct (return_picture i a) eqn:E. intros ?; simplify_eq. by eapply wf_return_picture.
  - intros ?; simplify_eq. by apply wf_flush_aux.
Qed.

End FbmPool.
