(* ===== verification/FbmRep.v ===== *)
(** How a manager of [fbm.c] represents a pool of [FbmPool], and the rules to
    run the primitives of its operations on such a manager. *)

From Stdlib Require Import ZArith Lia.
From stdpp Require Import base list list_numbers numbers.
From S2P Require Import Prelude Fbm FbmQueue FbmPool.

Module FbmRep.
Import Fbm FbmQueue FbmPool.

(** * Counting frames *)

Definition cnt (P : status -> bool) (l : list status) : Z := zsum (fun s => Z.b2z (P s)) l.

Lemma cnt_insert P l i s0 s : l !! i = Some s0 ->
  cnt P (<[i := s]> l) = cnt P l - Z.b2z (P s0) + Z.b2z (P s).
Proof.
  unfold cnt, zsum. revert i. induction l as [|x l IH]; intros [|i] H; simpl in *; try done.
  - simplify_eq. lia.
  - rewrite (IH i H). lia.
Qed.

Lemma cnt_bounds P l : 0 <= cnt P l <= Z.of_nat (length l).
Proof. unfold cnt, zsum. induction l as [|x l IH]; simpl; [lia|]. destruct (P x); simpl; lia. Qed.

Lemma length_free a : wf a -> (length (free a) <= length (st a))%nat.
Proof.
  intros Wa. apply NoDup_bounded_length; [apply Wa|].
  intros i Hi. apply in_free in Hi; [|done]. by eapply lookup_lt_Some.
Qed.

Lemma length_show a : wf a -> (length (show a) <= length (st a))%nat.
Proof.
  intros Wa. apply NoDup_bounded_length; [apply Wa|].
  intros i Hi. apply in_show in Hi as [?|?]; [by eapply lookup_lt_Some..|done].
Qed.

Lemma disjoint_queues a : wf a -> forall k, k ∈ free a -> k ∈ show a -> False.
Proof.
  intros Wa k Hf Hs. apply in_free in Hf; [|done]. apply in_show in Hs as [?|?]; [congruence..|done].
Qed.

(** * Representation *)

Definition flags_of (s : status) : FrameNodeFlag :=
  mkFlag (Z.b2z (by_decoder s)) (Z.b2z (by_render s)) (Z.b2z (waiting s))
    (Z.b2z (bool_decide (s = Shown))) 0.

(** The pictures of the frames carry their index, and the sizes the cache
    flush multiplies under the CTS test flag are in range. *)
Definition picture_ok (cts : Z) (i : nat) (v : VideoPicture) : Prop :=
  nID v = Z.of_nat i /\
  (cts = 0 \/ -2147483648 <= nWidth v * nHeight v < 2147483648 /\
              -2147483648 <= nWidth v * nHeight v * 3 < 2147483648).

Record frep (ps : list VideoPicture) (locked : bool) (f : Fbm) (a : pool) : Prop := {
  r_mutex : mutex f = locked;
  r_freed : freed f = false;
  r_info : pFbmInfo f = true;
  r_max : nMaxFrameNum f = Z.of_nat (length (st a));
  r_int : Z.of_nat (length (st a)) < 2147483648;
  r_stale : 0 <= stale a;
  r_empty : chain (links (pFrames f)) (pEmptyBufferQueue f) (free a);
  r_valid : chain (links (pFrames f)) (pValidPictureQueue f) (show a);
  r_flags : flags (pFrames f) = flags_of <$> st a;
  r_pics : pics (pFrames f) = ps;
  r_nempty : nEmptyBufferNum f = Z.of_nat (length (free a));
  r_nvalid : nValidPictureNum f = Z.of_nat (length (show a));
  r_ndec : nDecoderHoldingNum f = cnt by_decoder (st a);
  r_nren : nRenderHoldingNum f = cnt by_render (st a);
  r_nwait : nWaitForDispNum f = Z.of_nat (length (show a)) + stale a
}.

(** [nWaitForDispNum] counts the dropped pictures too, and must not overflow. *)
Definition room (a : pool) : Prop := Z.of_nat (length (st a)) + stale a < 2147483648.

Definition other (w : side) : side := match w with First => Second | Second => First end.

(** What no call changes in a manager. *)
Definition alike (f f' : Fbm) : Prop :=
  freed f' = freed f /\ bThumbnailMode f' = bThumbnailMode f /\ bUseGpuBuf f' = bUseGpuBuf f.

Definition fixed_part (f : Fbm) : Z * Z := (bThumbnailMode f, bUseGpuBuf f).

(** [W'] differs from [W] at most in the queues, counters and frames of
    manager [w], the two frame pointers of the info and the cache flushes done. *)
Record kin (w : side) (W W' : World) : Prop := {
  k_share : bTwoStreamShareOneFbm (info W') = bTwoStreamShareOneFbm (info W);
  k_cts : bIsFrameCtsTestFlag (info W') = bIsFrameCtsTestFlag (info W);
  k_3d : bIs3DStream (info W') = bIs3DStream (info W);
  k_other : slot (other w) (info W') = slot (other w) (info W);
  k_fixed : fixed_part <$> slot w (info W') = fixed_part <$> slot w (info W);
  k_bufs : bufs (heap W') = bufs (heap W);
  k_blocks : blocks (heap W') = blocks (heap W)
}.

Lemma kin_refl w W : kin w W W.
Proof. by split. Qed.
Lemma kin_trans w W1 W2 W3 : kin w W1 W2 -> kin w W2 W3 -> kin w W1 W3.
Proof. intros [] []. split; congruence. Qed.
#[export] Instance kin_preorder w : PreOrder (kin w).
Proof. split; [exact (kin_refl w) | exact (kin_trans w)]. Qed.

(** The manager [w] of [W] is [f]; [W] came from [W0] by work on [w]. *)
Definition owns (w : side) (f : Fbm) (W0 W : World) : Prop :=
  slot w (info W) = Some f /\ freed f = false /\ kin w W0 W.

Lemma owns_kin w f W0 W : owns w f W0 W -> kin w W0 W.
Proof. by intros (_ & _ & K). Qed.

(** * Rules for the primitives *)

Section rules.
Context (w : side) (W0 W : World) (f : Fbm) (O : owns w f W0 W).

Lemma twp_get_fbm (Q : Fbm -> World -> Prop) : Q f W -> twp (get_fbm w) Q W.
Proof.
  destruct O as (Es & Ef & _). intros H. unfold get_fbm. do 2 twp_step.
  apply twp_bind, (twp_lift _ f); [done|]. by rewrite Ef.
Qed.

Lemma twp_put_fbm f' (Q : unit -> World -> Prop) :
  alike f f' -> (forall W', owns w f' W0 W' -> Q tt W') -> twp (put_fbm w f') Q W.
Proof.
  intros (Ef & Et & Eg) H. apply twp_modify, H. destruct O as (Es & Ef' & K).
  split_and!; [by destruct w|congruence|]. etrans; [exact K|].
  split; try by destruct w. rewrite Es. unfold fixed_part. destruct w; simpl; congruence.
Qed.

Lemma twp_mod_fbm g (Q : unit -> World -> Prop) :
  alike f (g f) -> (forall W', owns w (g f) W0 W' -> Q tt W') -> twp (mod_fbm w g) Q W.
Proof. intros Ef H. unfold mod_fbm. apply twp_bind, twp_get_fbm. by apply twp_put_fbm. Qed.

Lemma twp_mod_info g (Q : unit -> World -> Prop) :
  (forall i, slot w (g i) = slot w i /\ slot (other w) (g i) = slot (other w) i /\
    bTwoStreamShareOneFbm (g i) = bTwoStreamShareOneFbm i /\
    bIsFrameCtsTestFlag (g i) = bIsFrameCtsTestFlag i /\ bIs3DStream (g i) = bIs3DStream i) ->
  (forall W', owns w f W0 W' -> Q tt W') -> twp (mod_info g) Q W.
Proof.
  intros Hg H. destruct (Hg (info W)) as (E1 & E2 & E3 & E4 & E5). apply twp_modify, H.
  destruct O as (Es & Ef & K). split_and!; simpl; [congruence|done|].
  etrans; [exact K|]. split; simpl; congruence.
Qed.

Lemma twp_lock (Q : unit -> World -> Prop) :
  mutex f = false -> (forall W', owns w (f <| mutex := true |>) W0 W' -> Q tt W') ->
  twp (lock w) Q W.
Proof.
  intros Em H. unfold lock. apply twp_bind, twp_get_fbm. rewrite Em.
  by apply twp_put_fbm.
Qed.

Lemma twp_unlock (Q : unit -> World -> Prop) :
  (forall W', owns w (f <| mutex := false |>) W0 W' -> Q tt W') -> twp (unlock w) Q W.
Proof. intros H. by apply twp_mod_fbm. Qed.

Lemma twp_get_node i (Q : FrameNode -> World -> Prop) :
  (i < length (pFrames f))%nat -> (forall n, pFrames f !! i = Some n -> Q n W) ->
  twp (get_node w i) Q W.
Proof.
  intros Hi H. destruct (lookup_lt_is_Some_2 (pFrames f) i Hi) as [n En].
  unfold get_node. apply twp_bind, twp_get_fbm, (twp_lift _ n); auto.
Qed.

Lemma twp_mod_node i g (Q : unit -> World -> Prop) :
  (i < length (pFrames f))%nat ->
  (forall W', owns w (f <| pFrames ::= alter g i |>) W0 W' -> Q tt W') ->
  twp (mod_node w i g) Q W.
Proof.
  intros Hi H. unfold mod_node. apply twp_bind, twp_get_node; [done|]. intros n En.
  by apply twp_mod_fbm.
Qed.

Lemma twp_count_up get upd (Q : unit -> World -> Prop) :
  -2147483648 <= get f + 1 < 2147483648 -> alike f (upd (get f + 1) f) ->
  (forall W', owns w (upd (get f + 1) f) W0 W' -> Q tt W') -> twp (count_up w get upd) Q W.
Proof.
  intros Hr Hf H. unfold count_up. apply twp_bind, twp_get_fbm, twp_bind, twp_iadd; [done|].
  by apply twp_put_fbm.
Qed.

Lemma twp_count_down get upd (Q : unit -> World -> Prop) :
  -2147483648 <= get f - 1 < 2147483648 -> alike f (upd (get f - 1) f) ->
  (forall W', owns w (upd (get f - 1) f) W0 W' -> Q tt W') -> twp (count_down w get upd) Q W.
Proof.
  intros Hr Hf H. unfold count_down. apply twp_bind, twp_get_fbm, twp_bind, twp_isub; [done|].
  by apply twp_put_fbm.
Qed.

Lemma twp_enqueue q i l (Q : unit -> World -> Prop) :
  chain (links (pFrames f)) (head_of q f) l -> NoDup (i :: l) ->
  (i < length (pFrames f))%nat ->
  (forall h fr W', chain (links fr) h (l ++ [i]) ->
    (forall k, k ∉ i :: l -> links fr !! k = links (pFrames f) !! k) ->
    flags fr = flags (pFrames f) -> pics fr = pics (pFrames f) ->
    length fr = length (pFrames f) ->
    owns w (set_head q h f <| pFrames := fr |>) W0 W' -> Q tt W') ->
  twp (enqueue w q i) Q W.
Proof.
  intros C Hnd Hi H.
  destruct (enqueue_chain q i f l C Hnd Hi) as (h & fr & E & C' & L & F & P & N).
  unfold enqueue. apply twp_bind, twp_get_fbm, twp_bind.
  eapply twp_lift; [exact E|]. apply twp_put_fbm; [by destruct q|].
  intros W' O'. by apply (H h fr W').
Qed.

Lemma twp_dequeue_nil q (Q : option nat -> World -> Prop) :
  chain (links (pFrames f)) (head_of q f) [] ->
  (forall W', owns w f W0 W' -> Q None W') -> twp (dequeue w q) Q W.
Proof.
  intros C H. unfold dequeue. apply twp_bind, twp_get_fbm, twp_bind.
  eapply twp_lift; [by apply dequeue_nil|]. apply twp_bind, twp_put_fbm; [done|].
  intros W' O'. by apply twp_ret, H.
Qed.

Lemma twp_dequeue_cons q i l (Q : option nat -> World -> Prop) :
  chain (links (pFrames f)) (head_of q f) (i :: l) -> NoDup (i :: l) ->
  (forall h fr W', chain (links fr) h l ->
    (forall k, k <> i -> links fr !! k = links (pFrames f) !! k) ->
    flags fr = flags (pFrames f) -> pics fr = pics (pFrames f) ->
    length fr = length (pFrames f) ->
    owns w (set_head q h f <| pFrames := fr |>) W0 W' -> Q (Some i) W') ->
  twp (dequeue w q) Q W.
Proof.
  intros C Hnd H.
  destruct (dequeue_cons q i f l C Hnd) as (h & fr & E & C' & L & F & P & N).
  unfold dequeue. apply twp_bind, twp_get_fbm, twp_bind.
  eapply twp_lift; [exact E|]. apply twp_bind, twp_put_fbm; [by destruct q|].
  intros W' O'. by apply twp_ret, (H h fr W').
Qed.
(** A node read with the flags it is known to have. *)
Lemma twp_read_node i fl (Q : FrameNode -> World -> Prop) :
  flags (pFrames f) !! i = Some fl ->
  (forall n, Flag n = fl ->
    pics (pFrames f) !! i = Some (static (vpicture n)) -> Q n W) ->
  twp (get_node w i) Q W.
Proof.
  unfold flags, pics. rewrite !list_lookup_fmap. intros Hf H.
  destruct (pFrames f !! i) as [n|] eqn:En; [|done]. simpl in Hf. simplify_eq.
  apply twp_get_node; [by eapply lookup_lt_Some|]. intros n' ?. simplify_eq. by apply H.
Qed.

Lemma twp_mod_flag i g (Q : unit -> World -> Prop) :
  (i < length (pFrames f))%nat ->
  (forall fr W', links fr = links (pFrames f) -> flags fr = alter g i (flags (pFrames f)) ->
    pics fr = pics (pFrames f) -> length fr = length (pFrames f) ->
    owns w (f <| pFrames := fr |>) W0 W' -> Q tt W') ->
  twp (mod_flag w i g) Q W.
Proof.
  intros Hi H. apply twp_mod_node; [done|]. intros W' O'.
  eapply H; [apply links_flag|apply flags_flag|apply pics_flag|apply length_alter|exact O'].
Qed.

Lemma twp_mod_picture i g (Q : unit -> World -> Prop) :
  (i < length (pFrames f))%nat ->
  (forall v, static (g v) = static v) ->
  (forall fr W', links fr = links (pFrames f) -> flags fr = flags (pFrames f) ->
    pics fr = pics (pFrames f) -> length fr = length (pFrames f) ->
    owns w (f <| pFrames := fr |>) W0 W' -> Q tt W') ->
  twp (mod_picture w i g) Q W.
Proof.
  intros Hi Hg H. apply twp_mod_node; [done|]. intros W' O'.
  eapply H; [apply links_picture|apply flags_picture|by apply pics_picture
            |apply length_alter|exact O'].
Qed.

Lemma twp_load_pic i v (Q : VideoPicture -> World -> Prop) :
  pics (pFrames f) !! i = Some v -> (forall u, static u = v -> Q u W) ->
  twp (load_pic (Pic w i)) Q W.
Proof.
  unfold pics. rewrite list_lookup_fmap. intros Hv H.
  destruct (pFrames f !! i) as [n|] eqn:En; [|done]. simpl in Hv. simplify_eq.
  simpl. apply twp_bind, twp_get_node; [by eapply lookup_lt_Some|].
  intros n' ?. simplify_eq. by apply twp_ret, H.
Qed.

(** The picture of a frame passes the index test. *)
Lemma twp_checked_index cts i v (Q : option nat -> World -> Prop) :
  pics (pFrames f) !! i = Some v -> picture_ok cts i v ->
  nMaxFrameNum f = Z.of_nat (length (pFrames f)) -> Q (Some i) W ->
  twp (checked_index w (Pic w i)) Q W.
Proof.
  intros Hv (Hid & _) Hm H. unfold checked_index.
  apply twp_bind, (twp_load_pic i v); [done|]. intros u <-. change (nID (static u)) with (nID u) in Hid.
  apply twp_bind, twp_get_fbm. rewrite Hid, Hm.
  assert (i < length (pFrames f))%nat
    by (apply lookup_lt_Some in Hv; unfold pics in Hv; by rewrite length_fmap in Hv).
  replace (_ || _) with false by lia. rewrite Nat2Z.id. simpl.
  rewrite !bool_decide_true by done. by apply twp_ret.
Qed.

Lemma twp_cts_flush i v (Q : unit -> World -> Prop) :
  pics (pFrames f) !! i = Some v -> picture_ok (bIsFrameCtsTestFlag (info W0)) i v ->
  (forall W', owns w f W0 W' -> Q tt W') -> twp (cts_flush w i) Q W.
Proof.
  intros Hv (_ & B) H. rewrite <- (k_cts _ _ _ (owns_kin _ _ _ _ O)) in B. unfold cts_flush. do 2 twp_step. apply twp_bind.
  unfold pics in Hv. rewrite list_lookup_fmap in Hv.
  destruct (pFrames f !! i) as [n|] eqn:En; [|done]. simpl in Hv. simplify_eq.
  change (nWidth (static ?u)) with (nWidth u) in B. change (nHeight (static ?u)) with (nHeight u) in B.
  apply twp_get_node; [by eapply lookup_lt_Some|]. intros n' ?. simplify_eq.
  apply twp_if; intros Hc; [|by apply H].
  destruct B as [B|[B1 B2]]; [by rewrite B in Hc|].
  apply twp_bind, twp_imul; [done|]. apply twp_bind, twp_imul; [done|].
  eapply twp_intro; [reflexivity|]. apply H. destruct O as (Es & Ef & K).
  split_and!; [done..|]. etrans; [exact K|]. by split.
Qed.
End rules.

(** * The representation in a world, and automation *)

Record wrep (w : side) (ps : list VideoPicture) (W : World) (a : pool) : Prop := {
  w_share : bTwoStreamShareOneFbm (info W) <> 1;
  w_ps : forall i v, ps !! i = Some v -> picture_ok (bIsFrameCtsTestFlag (info W)) i v;
  w_wf : wf a;
  w_fbm : exists f, slot w (info W) = Some f /\ frep ps false f a
}.

(** After a call on [w]: the world still represents a pool, and nothing
    outside manager [w] changed. *)
Definition leads (w : side) (ps : list VideoPicture) (W W' : World) (a : pool) : Prop :=
  wrep w ps W' a /\ kin w W W'.

Lemma leads_intro w ps W0 W f a b :
  wrep w ps W0 a -> wf b -> owns w f W0 W -> frep ps false f b -> leads w ps W0 W b.
Proof.
  intros [Hs Hp _ _] Wb (Es & Ef & K) R. split; [|done]. split; [| |done|by exists f].
  - by rewrite (k_share _ _ _ K).
  - by rewrite (k_cts _ _ _ K).
Qed.

Lemma shares_not w i : bTwoStreamShareOneFbm i <> 1 -> shares_first w i = false.
Proof. intros H. unfold shares_first. by replace (_ =? 1) with false by lia. Qed.

Lemma flags_become (st : list status) i s0 s g :
  st !! i = Some s0 -> g (flags_of s0) = flags_of s ->
  alter g i (flags_of <$> st) = flags_of <$> <[i := s]> st.
Proof.
  intros Hi Hg. rewrite list_fmap_insert. apply list_eq. intros k.
  destruct (decide (k = i)) as [->|].
  - rewrite list_lookup_alter_eq, list_lookup_fmap, Hi. simpl. rewrite Hg.
    rewrite list_lookup_insert_eq; [done|]. rewrite length_fmap. by eapply lookup_lt_Some.
  - by rewrite list_lookup_alter_ne, list_lookup_insert_ne.
Qed.

Lemma alter_twice {A} (g1 g2 : A -> A) i (l : list A) :
  alter g2 i (alter g1 i l) = alter (fun x => g2 (g1 x)) i l.
Proof.
  apply list_eq. intros k. destruct (decide (k = i)) as [->|].
  - rewrite !list_lookup_alter_eq. by destruct (l !! i).
  - by rewrite !list_lookup_alter_ne.
Qed.

(** The counters of the code, named so that the rules apply. *)
Ltac unfold_counter :=
  first [ progress unfold empty_up | progress unfold empty_down | progress unfold valid_up
        | progress unfold valid_down | progress unfold decoder_up | progress unfold decoder_down
        | progress unfold render_up | progress unfold render_down | progress unfold wait_up
        | progress unfold wait_down | progress unfold release_up | progress unfold release_down ].

Ltac next_world O :=
  let W' := fresh "W" in let O' := fresh "O" in
  intros W' O'; simpl in O'; clear O.

Ltac next_frames O :=
  let fr := fresh "fr" in let W := fresh "W" in
  let L := fresh "L" in let F := fresh "F" in let P := fresh "P" in
  let N := fresh "N" in let O' := fresh "O" in
  intros fr W L F P N O'; simpl in L, F, P, N, O'; clear O.

(** One primitive of an operation on the manager known by [owns]. *)
Ltac fstep :=
  cbv beta zeta;
  lazymatch goal with
  | O : owns ?w ?f ?W0 ?W |- twp ?m _ ?W =>
      lazymatch m with
      | get_fbm _ => apply (twp_get_fbm w W0 W f O)
      | mod_fbm _ _ => apply (twp_mod_fbm w W0 W f O); [done | next_world O]
      | mod_info _ => apply (twp_mod_info w W0 W f O); [by intros []; destruct w | next_world O]
      | lock _ => apply (twp_lock w W0 W f O); [done | next_world O]
      | unlock _ => apply (twp_unlock w W0 W f O); next_world O
      | mod_flag _ _ _ => apply (twp_mod_flag w W0 W f O); [simpl; try lia | next_frames O]
      | mod_picture _ _ _ =>
          apply (twp_mod_picture w W0 W f O); [simpl; try lia | done | next_frames O]
      | count_up _ _ _ => apply (twp_count_up w W0 W f O); [simpl; try lia | done | next_world O]
      | count_down _ _ _ =>
          apply (twp_count_down w W0 W f O); [simpl; try lia | done | next_world O]
      | _ => first [ twp_step | unfold_counter ]
      end
  | _ => twp_step
  end.

(** The queue primitives, given the list the queue holds. *)
Ltac fdequeue_nil :=
  lazymatch goal with
  | O : owns ?w ?f ?W0 ?W |- twp (dequeue _ _) _ ?W =>
      apply (twp_dequeue_nil w W0 W f O); [done | next_world O]
  end.

Ltac next_queue O :=
  let h := fresh "h" in let fr := fresh "fr" in let W := fresh "W" in
  let C := fresh "C" in let L := fresh "L" in let F := fresh "F" in
  let P := fresh "P" in let N := fresh "N" in let O' := fresh "O" in
  intros h fr W C L F P N O'; simpl in L, F, P, N, O'; clear O.

Ltac fdequeue_cons i l :=
  lazymatch goal with
  | O : owns ?w ?f ?W0 ?W |- twp (dequeue _ _) _ ?W =>
      apply (twp_dequeue_cons w W0 W f O _ i l); [done | | next_queue O]
  end.

Ltac fread fl :=
  lazymatch goal with
  | O : owns ?w ?f ?W0 ?W |- twp (get_node _ ?i) _ ?W =>
      apply (twp_read_node w W0 W f O i fl);
      [ simpl | let n := fresh "n" in let E := fresh "En" in let P := fresh "Pn" in
                intros n E P; simpl in P; rewrite ?E ]
  end.

(** What the ranges of the counters follow from. *)
Ltac pool_bounds Wa :=
  lazymatch type of Wa with
  | wf ?a =>
      let H1 := fresh "B" in let H2 := fresh "B" in let H3 := fresh "B" in let H4 := fresh "B" in
      pose proof (length_free a Wa) as H1; pose proof (length_show a Wa) as H2;
      pose proof (cnt_bounds by_decoder (st a)) as H3;
      pose proof (cnt_bounds by_render (st a)) as H4;
      simpl in H1, H2, H3, H4;
      rewrite ?length_insert, ?length_app in H1; rewrite ?length_insert, ?length_app in H2;
      rewrite ?length_insert in H3; rewrite ?length_insert in H4; simpl in H1, H2
  end.

(** The count of frames when frame [i] moves. *)
Ltac count_move Si :=
  rewrite ?(cnt_insert by_decoder _ _ _ _ Si) in *;
  rewrite ?(cnt_insert by_render _ _ _ _ Si) in *;
  cbn [by_decoder by_render Z.b2z] in *.

(** Start of an operation: the manager taken apart, its counters and lists
    replaced by those of the pool. *)
Ltac fopen R :=
  let f := fresh "f" in let Es := fresh "Es" in let F := fresh "F" in
  let Hs := fresh "Hs" in let Hp := fresh "Hp" in let Wa := fresh "Wa" in
  lazymatch type of R with
  | wrep ?w _ ?W ?a =>
      pose proof R as [Hs Hp Wa (f & Es & F)];
      assert (owns w f W W) by (split_and!; [exact Es | apply F | reflexivity]);
      pose proof (eq_trans (eq_sym (length_flags (pFrames f)))
                    (eq_trans (f_equal length (r_flags _ _ _ _ F)) (length_fmap _ _)));
      clear Es; destruct f, F; simpl in *; subst
  end.

(** Past the null tests. *)
Ltac fenter :=
  unfold with_fbm; do 2 fstep; cbn [pFbmInfo negb]; do 2 fstep;
  rewrite ?shares_not by done.

(** The index test on the picture of frame [i]. *)
Ltac fcheck i :=
  lazymatch goal with
  | O : owns ?w ?f ?W0 ?W, Hp : forall i v, pics _ !! i = Some v -> picture_ok _ i v
    |- twp (checked_index _ _) _ ?W =>
      let v := fresh "v" in let Ev := fresh "Ev" in
      destruct (lookup_lt_is_Some_2 (pics (pFrames f)) i) as [v Ev];
      [ unfold pics; rewrite length_fmap; simpl; lia
      | eapply (twp_checked_index w W0 W f O _ i v _ Ev); [by apply Hp | simpl; lia | ] ]
  end.

(** [k] is on a queue that frame [i] and the other queue do not meet. *)
Ltac apart :=
  first [ intros ->; done
        | rewrite not_elem_of_cons; split;
          [ intros ->; done | intros ?; eauto using list_elem_of_further ] ].

(** A queue untouched by the links that changed. *)
Ltac chain_solve :=
  repeat match goal with L : links _ = links _ |- _ => rewrite L end;
  first [ done
        | eapply chain_ext; [|eassumption];
          let k := fresh "k" in let Hk := fresh "Hk" in
          intros k Hk;
          repeat match goal with
          | L : forall k, _ -> links _ !! k = links _ !! k |- _ =>
              rewrite L by apart
          | L : links _ = links _ |- _ => rewrite L
          end;
          done ].

(** Enqueue on the queue that holds [l]. *)
Ltac fenqueue l :=
  lazymatch goal with
  | O : owns ?w ?f ?W0 ?W |- twp (enqueue _ _ ?i) _ ?W =>
      apply (twp_enqueue w W0 W f O _ i l);
      [ simpl; chain_solve
      | apply list.NoDup_cons; split; [done | assumption]
      | simpl; lia
      | next_queue O ]
  end.

(** The queues of a pool where frame [i] has the state [Si] tells. *)
Ltac frame_facts Wa Si :=
  pool_bounds Wa;
  pose proof (disjoint_queues _ Wa);
  pose proof (wf_nodup_free _ Wa); pose proof (wf_nodup_show _ Wa);
  pose proof (lookup_lt_Some _ _ _ Si);
  try pose proof (not_free _ Wa _ _ Si ltac:(done));
  try pose proof (not_show _ Wa _ _ Si ltac:(done)).

Ltac flags_solve :=
  repeat match goal with F : flags _ = _ |- _ => rewrite F; clear F end;
  rewrite ?alter_twice;
  first [ done | eapply flags_become; [eassumption | done] ].

(** The parts of [frep], after the primitives ran. *)
Ltac frep_solve :=
  simpl;
  repeat match goal with
  | E : free ?a = _ |- context [free ?a] => rewrite E
  | E : show ?a = _ |- context [show ?a] => rewrite E
  end;
  rewrite ?length_insert, ?length_app;
  lazymatch goal with
  | |- chain _ _ _ => chain_solve
  | |- flags _ = _ => flags_solve
  | |- pics _ = _ => congruence
  | |- context [cnt _ (<[_ := _]> _)] => erewrite cnt_insert by eassumption; simpl; lia
  | |- _ => first [ done | simpl in *; lia ]
  end.

(** End of an operation: the manager represents the new pool. *)
Ltac fclose R :=
  eapply (leads_intro _ _ _ _ _ _ _ R); [done | eassumption | split; frep_solve].

End FbmRep.
