(* ===== verification/FbmSpec.v ===== *)
(** [fbm.c] implements the pool of [FbmPool]. *)

From Stdlib Require Import ZArith Lia.
From stdpp Require Import base list list_numbers numbers.
From S2P Require Import Prelude Fbm FbmQueue FbmPool FbmRep.

Module FbmSpec.
Import Fbm FbmQueue FbmPool FbmRep.

Definition picof (w : side) (o : option nat) : picptr :=
  match o with Some i => Pic w i | None => PicNull end.

Section ops.
Context (w : side) (ps : list VideoPicture).

Lemma frame_request_ok W a : wrep w ps W a ->
  twp (FbmRequestBuffer (Some w)) (fun r W' =>
    r = picof w (request a).1 /\ leads w ps W W' (request a).2) W.
Proof.
  intros R. pose proof (wf_request a _ _ (w_wf _ _ _ _ R) (surjective_pairing _)) as Wb.
  unfold FbmRequestBuffer, request in *. fopen R. fenter. repeat fstep.
  destruct (free a) as [|i l] eqn:Ef.
  - fdequeue_nil. repeat fstep. split; [done|].
    fclose R.
  - pose proof (wf_nodup_free a Wa) as Nd. rewrite Ef in Nd.
    assert (st a !! i = Some Empty) as Si by (apply in_free; [done|]; rewrite Ef; by left).
    pool_bounds Wa. pool_bounds Wb. count_move Si. rewrite Ef in *. simpl in *.
    assert (i < length (st a))%nat by (by eapply lookup_lt_Some).
    pose proof (not_show a Wa i _ Si eq_refl).
    fdequeue_cons i l; [done|]. 
    fstep. fread (flags_of Empty); [by rewrite F, r_flags0, list_lookup_fmap, Si|].
    repeat fstep.
    eapply (twp_cts_flush _ _ _ _ ltac:(eassumption) i (static (vpicture n)));
      [simpl; congruence | apply Hp; congruence |].
    intros W8 O8. apply twp_ret. split; [done|]. fclose R.
Qed.

Lemma return_target_own W pic v (Q : option side -> World -> Prop) :
  bTwoStreamShareOneFbm (info W) <> 1 -> Q (Some w) W -> twp (return_target w pic v) Q W.
Proof.
  intros Hs H. unfold return_target. do 2 twp_step.
  replace (_ =? 1) with false by lia. done.
Qed.

Lemma frame_return_ok W a i v : wrep w ps W a -> (i < length (st a))%nat -> room a ->
  twp (FbmReturnBuffer (Some w) (Pic w i) v) (fun _ W' =>
    leads w ps W W' (return_frame i (truthy v) a)) W.
Proof.
  intros R Hi Hroom. unfold room in Hroom. pose proof (wf_return a i (truthy v) (w_wf _ _ _ _ R)) as Wb.
  unfold FbmReturnBuffer, return_frame in *. fopen R. unfold with_fbm; do 2 fstep.
  cbn [pFbmInfo negb]. fstep. apply return_target_own; [done|].
  fstep. fcheck i. fstep. fstep. unfold return_node. fstep.
  destruct (st a !! i) as [s|] eqn:Si; [|apply lookup_ge_None in Si; lia].
  fread (flags_of s); [by rewrite r_flags0, list_lookup_fmap, Si|].
  destruct (truthy v) eqn:Tv; destruct s; cbn [flags_of by_decoder by_render waiting Z.b2z];
    frame_facts Wa Si; pool_bounds Wb; simpl in *; count_move Si; repeat fstep;
    first [ fclose R | fenqueue (show a) | fenqueue (free a) ];
    repeat fstep; fclose R.
Qed.

(** The decoder must not share a frame that is on the display: the code
    does not test for it. *)
Lemma share_ok W a i : wrep w ps W a -> (i < length (st a))%nat -> room a ->
  st a !! i <> Some ShowingRef ->
  twp (FbmShareBuffer (Some w) (Pic w i)) (fun _ W' => leads w ps W W' (share i a)) W.
Proof.
  intros R Hi Hroom Hr. unfold room in Hroom. pose proof (wf_share a i (w_wf _ _ _ _ R)) as Wb.
  destruct (st a !! i) as [s|] eqn:Si; [|apply lookup_ge_None in Si; lia].
  unfold FbmShareBuffer, share in *. rewrite Si in *. fopen R. fenter.
  fstep. fcheck i. fstep.
  fread (flags_of s); [by rewrite r_flags0, list_lookup_fmap, Si|].
  do 4 fstep. fread (flags_of s); [by rewrite r_flags0, list_lookup_fmap, Si|].
  destruct s; cbn [flags_of by_decoder by_render waiting Z.b2z];
    frame_facts Wa Si; pool_bounds Wb; simpl in *; count_move Si; try done; repeat fstep;
    first [ fclose R | fenqueue (show a) ]; repeat fstep; fclose R.
Qed.

Lemma take_picture_ok W a : wrep w ps W a -> room a ->
  twp (FbmRequestPicture (Some w)) (fun r W' =>
    r = picof w (take_picture a).1 /\ leads w ps W W' (take_picture a).2) W.
Proof.
  intros R Hroom. unfold room in Hroom. pose proof (wf_take a _ _ (w_wf _ _ _ _ R) (surjective_pairing _)) as Wb.
  unfold FbmRequestPicture, take_picture in *. fopen R. fenter. repeat fstep.
  destruct (show a) as [|i l] eqn:El.
  - fdequeue_nil. repeat fstep. split; [done|]. fclose R.
  - pose proof (wf_nodup_show a Wa) as Nd. rewrite El in Nd.
    assert (i ∈ show a) as Hi by (rewrite El; by left).
    fdequeue_cons i l; [done|].
    apply (in_show a Wa) in Hi as [Si|Si]; rewrite Si in *; simpl in *;
      frame_facts Wa Si; pool_bounds Wb; simpl in *; count_move Si; rewrite El in *; simpl in *.
    + fstep. fread (flags_of Shared); [by rewrite F, r_flags0, list_lookup_fmap, Si|].
      repeat fstep. split; [done|]. fclose R.
    + fstep. fread (flags_of Queued); [by rewrite F, r_flags0, list_lookup_fmap, Si|].
      repeat fstep. split; [done|]. fclose R.
Qed.

Lemma display_target_own W pic (Q : bool -> World -> Prop) :
  bTwoStreamShareOneFbm (info W) <> 1 -> Q false W -> twp (display_target w pic) Q W.
Proof.
  intros Hs H. unfold display_target. do 2 twp_step.
  replace (_ =? 1) with false by lia. done.
Qed.

Lemma return_picture_ok W a i : wrep w ps W a -> (i < length (st a))%nat ->
  twp (FbmReturnPicture (Some w) (Pic w i)) (fun z W' =>
    z = (return_picture i a).1 /\ leads w ps W W' (return_picture i a).2) W.
Proof.
  intros R Hi.
  pose proof (wf_return_picture a i _ _ (w_wf _ _ _ _ R) (surjective_pairing _)) as Wb.
  destruct (st a !! i) as [s|] eqn:Si; [|apply lookup_ge_None in Si; lia].
  unfold FbmReturnPicture, return_picture in *. rewrite Si in *. fopen R.
  unfold with_fbm; do 2 fstep. cbn [pFbmInfo negb]. fstep. apply display_target_own; [done|].
  cbv iota. fstep.
  destruct (lookup_lt_is_Some_2 (pics pFrames0) i) as [v Ev];
    [unfold pics; rewrite length_fmap; lia|].
  eapply (twp_load_pic _ _ _ _ ltac:(eassumption) i v); [done|]. intros u <-.
  destruct (Hp _ _ Ev) as [Hid _]. change (nID (static u)) with (nID u) in Hid.
  do 2 fstep. cbn [nMaxFrameNum]. rewrite Hid, Nat2Z.id.
  replace (_ || _) with false by lia. cbn [is_pic].
  rewrite !bool_decide_true by done. unfold return_shown. simpl negb. cbv iota.
  do 3 fstep. fread (flags_of s); [by rewrite r_flags0, list_lookup_fmap, Si|].
  destruct s; cbn [flags_of by_decoder by_render waiting Z.b2z];
    frame_facts Wa Si; pool_bounds Wb; simpl in *; count_move Si; repeat fstep;
    first [ fenqueue (free a); repeat fstep | idtac ]; (split; [done|]); fclose R.
Qed.

Lemma drop_show i a : show (drop_one i a) = tail (show a).
Proof. unfold drop_one. by destruct (st a !! i) as [[]|]. Qed.

(** One round of the flush loop, with the mutex held. *)
Lemma flush_loop_ok l : forall fuel W0 a0 W f a,
  wrep w ps W0 a0 -> wf a -> show a = l -> owns w f W0 W -> frep ps true f a ->
  (length l < fuel)%nat ->
  twp (flush_loop fuel w) (fun _ W' =>
    leads w ps W0 W' (foldl (fun a i => drop_one i a) a l)) W.
Proof.
  induction l as [|i l IH]; intros fuel W0 a0 W f a R Wa El O F Hf;
    (destruct fuel as [|fuel]; [simpl in Hf; lia|]); cbn [flush_loop].
  - destruct f, F; simpl in *; subst. rewrite El in r_valid0.
    fstep. fdequeue_nil. repeat fstep. fclose R.
  - pose proof (wf_drop a i l Wa El) as Wb.
    pose proof (eq_trans (eq_sym (length_flags (pFrames f)))
                  (eq_trans (f_equal length (r_flags _ _ _ _ F)) (length_fmap _ _))).
    pose proof (wf_nodup_show a Wa) as Nd. rewrite El in Nd.
    pose proof (proj1 (list.NoDup_cons _ _) Nd) as [Hil _].
    assert (i ∈ show a) as Hi by (rewrite El; by left). apply (in_show a Wa) in Hi.
    pose proof (drop_show i a) as Ds. rewrite El in Ds. simpl in Ds.
    assert (forall f' W', owns w f' W0 W' -> frep ps true f' (drop_one i a) ->
      twp (flush_loop fuel w) (fun _ W' =>
        leads w ps W0 W' (foldl (fun a i => drop_one i a) (drop_one i a) l)) W') as Rec
      by (intros; eapply IH; try done; simpl in Hf; lia).
    clear IH Ds. simpl. destruct f, F; simpl in *; subst. rewrite El in *.
    fstep. fdequeue_cons i l; [done|].
    destruct Hi as [Si|Si]; unfold drop_one in Wb; rewrite Si in Wb; frame_facts Wa Si;
      pool_bounds Wb; simpl in *; rewrite ?El in *; simpl in *; count_move Si.
    + repeat fstep. fread (flags_of Shared); [by rewrite F0, F, r_flags0, list_lookup_fmap, Si|].
      repeat fstep. eapply Rec; [eassumption|]. unfold drop_one; rewrite Si. split; frep_solve.
    + repeat fstep. fread (flags_of Queued); [by rewrite F0, F, r_flags0, list_lookup_fmap, Si|].
      repeat fstep. fenqueue (free a). repeat fstep.
      eapply Rec; [eassumption|]. unfold drop_one; rewrite Si. split; frep_solve.
Qed.

Lemma frame_flush_ok W a : wrep w ps W a ->
  twp (FbmFlush (Some w)) (fun _ W' => leads w ps W W' (flush a)) W.
Proof.
  intros R. unfold FbmFlush, flush. pose proof R as [Hs Hp Wa (f & Es & F)].
  assert (owns w f W W) as O by (split_and!; [exact Es | apply F | reflexivity]).
  pose proof (length_flags (pFrames f)) as Hl.
  rewrite (r_flags _ _ _ _ F), length_fmap in Hl. pose proof (length_show a Wa).
  unfold with_fbm. do 2 fstep. rewrite (r_info _ _ _ _ F). cbn [negb]. do 2 fstep.
  rewrite shares_not by done. fstep.
  apply (twp_lock _ _ _ _ O); [apply F|]. intros W1 O1. clear O. repeat fstep.
  eapply flush_loop_ok; [exact R|done|done|exact O1| |simpl; lia].
  destruct F. by split.
Qed.
End ops.

End FbmSpec.
