(* ===== verification/FbmMem.v ===== *)
(** The memory of the frame buffer manager: what a picture owns, that creation
    takes and destruction gives back exactly that, also when an allocation
    fails half-way, and that a created manager is a fresh pool. *)

From Stdlib Require Import ZArith Lia.
From stdpp Require Import base list list_numbers numbers.
From S2P Require Import Prelude Fbm FbmQueue FbmPool FbmRep.

Module FbmMem.
Import Fbm FbmQueue FbmPool FbmRep.

Definition addrs (h : Heap) : list Z := (bufs h).*1.

(** [h'] holds the buffers [l], and otherwise what [h] holds besides buffers. *)
Definition holds (h : Heap) (l : list Z) (h' : Heap) : Prop :=
  addrs h' ≡ₚ l /\ blocks h' = blocks h.

Definition nz (a : Z) : list Z := if a =? 0 then [] else [a].

(** The buffers a picture owns: one for a planar format, one per plane for the
    tiled formats. *)
Definition owned (v : VideoPicture) : list Z :=
  nz (pData0 v) ++
  (if ePixelFormat v <? PIXEL_FORMAT_YUV_MB32_420 then []
   else nz (pData1 v) ++ nz (pData2 v) ++ nz (pData3 v)).

(** In thumbnail mode all frames use the buffers of the first. *)
Definition frames_owned (thumbnail : Z) (fr : list FrameNode) : list Z :=
  if truthy thumbnail then
    match fr with [] => [] | n :: _ => owned (vpicture n) end
  else concat ((fun n => owned (vpicture n)) <$> fr).

(** * Giving back *)

Lemma take_out_perm a l : a ∈ l.*1 -> exists l', take_out a l = Some l' /\ l.*1 ≡ₚ a :: l'.*1.
Proof.
  induction l as [|x l IH]; simpl; [by intros ?%elem_of_nil|].
  intros H. destruct (x.1 =? a) eqn:E.
  - exists l. split; [done|]. by assert (x.1 = a) as -> by lia.
  - apply elem_of_cons in H as [->|H]; [lia|]. destruct (IH H) as (l' & -> & P).
    exists (x :: l'). split; [done|]. simpl. rewrite P. apply Permutation_swap.
Qed.

Section giving_back.
Implicit Types (h : Heap) (X : list Z).

Lemma twp_free_if a h X (Q : unit -> Heap -> Prop) :
  addrs h ≡ₚ nz a ++ X -> (forall h', holds h X h' -> Q tt h') -> twp (free_if a) Q h.
Proof.
  unfold free_if, nz. destruct (a =? 0); intros P H; [by apply twp_ret, H|].
  destruct (take_out_perm a (bufs h)) as (l' & E & P').
  { unfold addrs in P. rewrite P. by left. }
  unfold CdcMemPfree. do 2 twp_step. apply twp_bind. eapply twp_lift; [exact E|].
  apply twp_modify, H. split; [|done]. unfold addrs in *. simpl.
  rewrite P' in P. by apply Permutation_cons_inv in P.
Qed.

Lemma twp_free_picture v h X (Q : VideoPicture -> Heap -> Prop) :
  addrs h ≡ₚ owned v ++ X -> (forall v' h', holds h X h' -> Q v' h') ->
  twp (FbmFreePictureBuffer v) Q h.
Proof.
  unfold owned, FbmFreePictureBuffer. rewrite <- app_assoc. intros P H.
  apply twp_bind. eapply twp_free_if; [exact P|]. intros h1 [P1 B1].
  cbv zeta. change (ePixelFormat (v <| pData0 := 0 |>)) with (ePixelFormat v).
  destruct (ePixelFormat v <? _); [by apply twp_ret, H|].
  rewrite <- !app_assoc in P1.
  apply twp_bind. eapply twp_free_if; [exact P1|]. intros h2 [P2 B2].
  apply twp_bind. eapply twp_free_if; [exact P2|]. intros h3 [P3 B3].
  apply twp_bind. eapply twp_free_if; [exact P3|]. intros h4 [P4 B4].
  apply twp_ret, H. split; [done|congruence].
Qed.

Lemma twp_free_pictures fr h X (Q : unit -> Heap -> Prop) :
  addrs h ≡ₚ concat ((fun n => owned (vpicture n)) <$> fr) ++ X ->
  (forall h', holds h X h' -> Q tt h') -> twp (free_pictures fr) Q h.
Proof.
  revert h Q. induction fr as [|n fr IH]; intros h Q P H; cbn [free_pictures].
  - by apply twp_ret, H.
  - simpl in P. rewrite <- app_assoc in P. apply twp_bind.
    eapply twp_free_picture; [exact P|]. intros v' h1 [P1 B1].
    apply IH; [done|]. intros h2 [P2 B2]. apply H. split; [done|congruence].
Qed.
End giving_back.

(** * Taking *)

(** The sizes for which none of the arithmetic overflows: sides of up to 16384 pixels
    and an alignment of up to 1024. *)
Definition side_ok (x : Z) : Prop := 0 <= x <= 16384.
Definition align_ok (al : Z) : Prop := 0 <= al <= 1024.
Definition size_ok (ci : FbmCreateInfo) : Prop :=
  side_ok (ciWidth ci) /\ side_ok (ciHeight ci) /\ align_ok (ciAlignStride ci).

(** What an allocation leaves: on success the picture's buffers are new, on
    failure nothing is. *)
Definition alloc_post (v : VideoPicture) (h : Heap) (r : Z * VideoPicture * Z) (h' : Heap) : Prop :=
  let '(rc, v', al) := r in
  align_ok al /\
  ePixelFormat v' = ePixelFormat v /\ nID v' = nID v /\ nBufStatus v' = nBufStatus v /\
  holds h (if rc =? 0 then owned v' ++ addrs h else addrs h) h'.

Lemma twp_adapter_palloc ops sz h (Q : Z -> Heap -> Prop) :
  (forall a h', holds h (nz a ++ addrs h) h' -> Q a h') -> twp (CdcMemPalloc ops sz) Q h.
Proof.
  intros H. unfold CdcMemPalloc. do 5 twp_step. unfold nz in H.
  destruct (palloc ops (ncalls h) sz =? 0) eqn:E; repeat twp_step; apply H;
    unfold holds; rewrite ?E; done.
Qed.

Lemma land_le x m : 0 <= x -> 0 <= Z.land x m <= x.
Proof.
  intros Hx. split; [by apply Z.land_nonneg; left|].
  assert (Z.ldiff (Z.land x m) x = 0) as D.
  { apply Z.bits_inj'. intros i _. rewrite Z.ldiff_spec, Z.land_spec, Z.bits_0.
    by destruct (Z.testbit x i), (Z.testbit m i). }
  apply Z.sub_nocarry_ldiff in D. assert (0 <= Z.ldiff x (Z.land x m)) by (apply Z.ldiff_nonneg; by left). lia.
Qed.

Lemma twp_mask_bound x m h (Q : Z -> Heap -> Prop) :
  0 <= x -> 0 <= m -> x + m < 2147483648 -> (forall y, 0 <= y <= x + m -> Q y h) ->
  twp (align_mask x m) Q h.
Proof. intros Hx Hm Hs H. unfold align_mask. repeat twp_step. apply H, land_le. lia. Qed.

Lemma twp_up_bound x a h (Q : Z -> Heap -> Prop) :
  0 <= x -> 0 < a -> x + a < 2147483648 -> (forall y, 0 <= y <= x + a - 1 -> Q y h) ->
  twp (align_up x a) Q h.
Proof. intros Hx Ha Hs H. unfold align_up. repeat twp_step. apply H, land_le. lia. Qed.

(** Aligning a side of a picture, when there is an alignment. *)
Lemma twp_align_side x al h (m : M Heap Z) (Q : Z -> Heap -> Prop) :
  side_ok x -> align_ok al ->
  (forall Q' : Z -> Heap -> Prop, (forall y, 0 <= y <= x + 63 -> Q' y h) -> twp m Q' h) ->
  (forall y, 0 <= y <= 17408 -> Q y h) ->
  twp (if al =? 0 then m else align_up x al) Q h.
Proof.
  unfold side_ok, align_ok. intros Hx Ha Hm H. destruct (al =? 0) eqn:E.
  - apply Hm. intros y Hy. apply H. lia.
  - apply twp_up_bound; [lia..|]. intros y Hy. apply H. lia.
Qed.

Lemma twp_adapter_pfree a h X (Q : unit -> Heap -> Prop) :
  (a =? 0) = false -> addrs h ≡ₚ nz a ++ X -> (forall h', holds h X h' -> Q tt h') ->
  twp (CdcMemPfree a) Q h.
Proof.
  intros Ha P H. pose proof (twp_free_if a h X Q P H) as T.
  unfold free_if in T. by rewrite Ha in T.
Qed.

(** What is held at the end of an allocator, from the tests made. *)
Ltac held :=
  unfold owned, nz, holds in *; simpl;
  repeat match goal with
  | H : (?a =? 0) = _ |- _ => rewrite H in *; clear H
  | H : (_ <? _) = _ |- _ => rewrite H; clear H
  end;
  rewrite ?app_nil_r; simpl; split; [|congruence].

Lemma planar_chroma_bounds fmt y : 0 <= y -> 0 <= planar_chroma fmt y <= y.
Proof.
  intros Hy. unfold planar_chroma. rewrite !Z.shiftr_div_pow2 by lia.
  repeat case_match; change (2 ^ 2) with 4; change (2 ^ 1) with 2; Z.to_euclidean_division_equations; lia.
Qed.

Lemma twp_alloc_planar ops v al w h16 hh h :
  planar (ePixelFormat v) = true -> side_ok w -> side_ok hh -> align_ok al -> 0 <= h16 <= hh + 15 ->
  twp (alloc_planar ops v al w hh h16) (alloc_post v h) h.
Proof.
  intros Hp Hw Hh Ha H16. unfold alloc_planar.
  assert ((ePixelFormat v <? PIXEL_FORMAT_YUV_MB32_420) = true) as Hl
    by (revert Hp; unfold planar, PIXEL_FORMAT_YUV_MB32_420, PIXEL_FORMAT_NV21; lia).
  cbv zeta. apply twp_bind, twp_align_side; [done|done| |].
  { intros Q' HQ. unfold side_ok in *. apply twp_mask_bound; [lia..|]. intros. apply HQ. lia. }
  intros ls Hls. apply twp_bind, twp_align_side; [done|done| |].
  { intros Q' HQ. apply twp_ret, HQ. lia. }
  intros lh Hlh. assert (0 <= ls * lh <= 17408 * 17408) as Hm by nia.
  pose proof (planar_chroma_bounds (ePixelFormat v) (ls * lh) ltac:(lia)) as Hc.
  apply twp_bind, twp_imul; [lia|]. apply twp_bind, twp_imul; [lia|]. apply twp_bind, twp_iadd; [lia|].
  apply twp_bind, twp_adapter_palloc. intros a h' [P B].
  assert (align_ok (if al =? 0 then 16 else al)) by (unfold align_ok in *; case_match; lia).
  twp_step; twp_step; split_and!; try done; by held.
Qed.

Lemma twp_alloc_mb32 ops v w h32 h64 h :
  mb32 (ePixelFormat v) = true -> side_ok w -> 0 <= h64 <= 16447 ->
  twp (alloc_mb32 ops v w h32 h64) (alloc_post v h) h.
Proof.
  intros Hp Hw Hh. unfold side_ok in Hw. unfold alloc_mb32.
  assert ((ePixelFormat v <? PIXEL_FORMAT_YUV_MB32_420) = false) as Hl
    by (revert Hp; unfold mb32, PIXEL_FORMAT_YUV_MB32_420; lia).
  cbv zeta. apply twp_bind, twp_mask_bound; [lia..|]. intros st Hst.
  apply twp_bind, twp_mask_bound; [lia..|]. intros ln Hln.
  assert (0 <= ln * h64 <= 16478 * 16447) as Hm by nia.
  apply twp_bind, twp_imul; [lia|]. apply twp_bind, twp_adapter_palloc. intros a h1 [P1 B1].
  assert (align_ok 32) by (unfold align_ok; lia).
  twp_step; [twp_step; split_and!; try done; by held|].
  match goal with |- context [imul ?c 2] => set (cs := c) end.
  assert (0 <= cs <= ln * h64) as Hcs.
  { unfold cs. repeat case_match; Z.to_euclidean_division_equations; lia. }
  apply twp_bind, twp_imul; [lia|]. apply twp_bind, twp_adapter_palloc. intros a2 h2 [P2 B2]. twp_step.
  - apply twp_bind. eapply (twp_adapter_pfree _ _ (addrs h)); [done| |].
    { rewrite P2. unfold nz at 1. by replace (a2 =? 0) with true. }
    intros h3 [P3 B3]. twp_step. split_and!; try done. by held.
  - twp_step. split_and!; try done. held. rewrite P2, P1. apply Permutation_swap.
Qed.

Lemma twp_alloc_rgb ops v al hh h :
  rgb (ePixelFormat v) = true -> side_ok hh -> align_ok al -> 0 <= nWidth v <= 17408 ->
  twp (alloc_rgb ops v al hh) (alloc_post v h) h.
Proof.
  intros Hp Hh Ha Hw. unfold side_ok in Hh. unfold alloc_rgb.
  assert ((ePixelFormat v <? PIXEL_FORMAT_YUV_MB32_420) = false) as Hl
    by (revert Hp; unfold rgb, PIXEL_FORMAT_YUV_MB32_420, PIXEL_FORMAT_RGBA; lia).
  apply twp_bind, twp_imul; [lia|]. cbv zeta.
  assert (0 <= nWidth v * 4 * hh <= 17408 * 4 * 16384) as Hm by nia.
  apply twp_bind, twp_imul; [lia|]. apply twp_bind, twp_adapter_palloc. intros a h1 [P1 B1].
  unfold CdcMemFlushCache. repeat twp_step; split_and!; try done; by held.
Qed.

Lemma twp_allocate ops v al w hh h :
  side_ok w -> side_ok hh -> align_ok al -> 0 <= nWidth v <= 17408 ->
  twp (FbmAllocatePictureBuffer ops v al w hh) (alloc_post v h) h.
Proof.
  intros Hw Hh Ha Hv. unfold FbmAllocatePictureBuffer. cbv zeta. pose proof Hh as Hh'. unfold side_ok in Hh'.
  apply twp_bind, twp_mask_bound; [lia..|]. intros h16 ?. apply twp_bind, twp_mask_bound; [lia..|].
  intros h32 ?. apply twp_bind, twp_mask_bound; [lia..|]. intros h64 ?. apply twp_bind.
  apply (twp_mono _ (alloc_post (v <| pData0 := 0 |> <| pData1 := 0 |> <| pData2 := 0 |>
                                  <| pData3 := 0 |>) h)).
  - repeat (apply twp_if; intros ?).
    + apply twp_alloc_planar; try done; lia.
    + apply twp_alloc_mb32; try done; lia.
    + by apply twp_alloc_rgb.
    + twp_step. by split_and!.
  - intros [[rc v'] al'] h' (Eal & Ef & Ei & Eb & Hh1). cbv zeta. destruct (rc =? 0) eqn:Hrc; cbn [negb]; twp_step;
      rewrite ?Hrc in Hh1.
    + repeat match goal with |- context [if ?b then _ else _] =>
        lazymatch b with context [pData0] => destruct b | context [pData1] => destruct b end end;
        by split_and!.
    + split_and!; try done. by rewrite ?Hrc.
Qed.

(** * The frames *)

(** The picture [init_picture] makes. *)
Definition blank (i : Z) (fmt : Z) (v : VideoPicture) : Prop :=
  nID v = i /\ ePixelFormat v = fmt /\ owned v = [] /\ nBufStatus v = 0 /\ 0 <= nWidth v <= 17408.

Lemma twp_init_picture ci al i h (Q : VideoPicture -> Heap -> Prop) :
  size_ok ci -> align_ok al ->
  (forall v, blank i (ciPixelFormat ci) v -> Q v h) -> twp (init_picture ci al i) Q h.
Proof.
  intros (Hw & Hh & _) Ha H. unfold init_picture.
  apply twp_bind, twp_align_side; [done|done| |].
  { intros Q' HQ. apply twp_ret, HQ. unfold side_ok in *. lia. }
  intros w Bw. apply twp_bind, twp_align_side; [done|done| |].
  { intros Q' HQ. apply twp_ret, HQ. unfold side_ok in *. lia. }
  intros hh Bh. twp_step. apply H. split_and!; try done; [|simpl; lia..].
  unfold owned, nz; simpl. by destruct (ciPixelFormat ci <? _).
Qed.

(** A frame of a manager not yet used. *)
Definition node_new (ci : FbmCreateInfo) (i : nat) (n : FrameNode) : Prop :=
  Flag n = zero_flag /\ pNext n = None /\ nID (vpicture n) = Z.of_nat i /\
  ePixelFormat (vpicture n) = ciPixelFormat ci /\ nBufStatus (vpicture n) = 0 /\
  (own_buffers ci = false -> owned (vpicture n) = []).

Definition frames_new (ci : FbmCreateInfo) (fr : list FrameNode) : Prop :=
  forall i n, fr !! i = Some n -> node_new ci i n.

Lemma frames_new_snoc ci fr n :
  frames_new ci fr -> node_new ci (length fr) n -> frames_new ci (fr ++ [n]).
Proof.
  intros F N i m H. apply lookup_app_Some in H as [H|[Hl H]]; [by apply F|].
  apply list_lookup_singleton_Some in H as [Hi ->].
  by replace i with (length fr) by lia.
Qed.

Lemma frames_new_gpu ci t fr :
  frames_new ci fr -> own_buffers ci = false -> frames_owned t fr = [].
Proof.
  intros F Ho. assert (forall n, n ∈ fr -> owned (vpicture n) = []) as E.
  { intros n Hn. apply list_elem_of_lookup_1 in Hn as [i Hi]. by apply (F i n Hi). }
  clear F. unfold frames_owned. destruct (truthy t).
  - destruct fr; [done|]. apply E. by left.
  - induction fr as [|n fr IH]; [done|]. simpl. rewrite E by (by left). apply IH.
    intros m Hm. apply E. by right.
Qed.

(** Ownership is a matter of the pictures alone. *)
Lemma frames_owned_pics t fr fr' : pics fr = pics fr' -> frames_owned t fr = frames_owned t fr'.
Proof.
  intros E. unfold frames_owned. destruct (truthy t).
  - destruct fr as [|n fr], fr' as [|n' fr']; try done.
    apply (f_equal head) in E. apply (inj Some) in E. change (owned (static (vpicture n)) = owned (static (vpicture n'))).
    by rewrite E.
  - assert (forall l, (fun n => owned (vpicture n)) <$> l = owned <$> pics l) as H.
    { intros l. unfold pics. by rewrite <- list_fmap_compose. }
    by rewrite !H, E.
Qed.

Lemma frames_owned_snoc t fr n : truthy t = false \/ fr = [] ->
  frames_owned t (fr ++ [n]) ≡ₚ owned (vpicture n) ++ frames_owned t fr.
Proof.
  unfold frames_owned. intros [->| ->].
  - rewrite fmap_app, concat_app. simpl. rewrite app_nil_r. apply Permutation_app_comm.
  - destruct (truthy t); simpl; by rewrite ?app_nil_r.
Qed.

(** One round of the creation loop. *)
Definition frame_post (ci : FbmCreateInfo) (done : list FrameNode) (X : list Z) (h : Heap)
    (r : option FrameNode * Z) (h' : Heap) : Prop :=
  let t := ciThumbnailMode ci in
  align_ok r.2 /\
  match r.1 with
  | None => holds h (frames_owned t done ++ X) h' /\ (truthy t = true -> done = [])
  | Some n => node_new ci (length done) n /\
              holds h (frames_owned t (done ++ [n]) ++ X) h'
  end.

Lemma twp_create_frame ci al done X h :
  size_ok ci -> align_ok al ->
  addrs h ≡ₚ frames_owned (ciThumbnailMode ci) done ++ X ->
  twp (create_frame ci al done) (frame_post ci done X h) h.
Proof.
  intros Hs Ha P. unfold create_frame, frame_post. cbv zeta. apply twp_bind, twp_init_picture; [done|done|].
  intros v (Hi & Hf & Ho & Hb & Hv). destruct (own_buffers ci) eqn:Eo; cbn [negb].
  - destruct ((ciThumbnailMode ci =? 0) || (length done =? 0)%nat) eqn:Et.
    + apply twp_bind. eapply twp_mono; [by apply twp_allocate; try done; apply Hs|].
      intros [[rc v'] al'] h' (E0 & E1 & E2 & E3 & P' & B'). cbv zeta.
      assert (truthy (ciThumbnailMode ci) = false \/ done = []) as Hd.
      { apply orb_true_iff in Et as [Et|Et]; [left; unfold truthy; by rewrite Et|].
        right. by apply nil_length_inv, Nat.eqb_eq. }
      destruct (rc =? 0) eqn:Er; cbn [negb]; twp_step; (split; [done|]).
      * split; [split_and!; simpl; congruence|]. split; [|done].
        rewrite frames_owned_snoc by done. rewrite P', P. by rewrite app_assoc.
      * split; [split; [by rewrite P'|done]|]. destruct Hd as [->|]; [done|done].
    + apply orb_false_iff in Et as [Et1 Et2].
      assert (exists n0, done !! O = Some n0) as [n0 E0] by (destruct done; [done|by eexists]).
      apply twp_bind, twp_lift with n0; [done|]. twp_step. split; [done|].
      split; [split_and!; simpl; congruence|]. split; [|done]. rewrite P.
      assert (truthy (ciThumbnailMode ci) = true) as Ht by (unfold truthy; by rewrite Et1).
      unfold frames_owned. rewrite Ht. by destruct done.
  - twp_step. split; [done|]. split; [by repeat split|]. split; [|done]. rewrite P. f_equiv.
    unfold frames_owned. destruct (truthy (ciThumbnailMode ci)).
    + destruct done; simpl; by rewrite ?Ho.
    + rewrite fmap_app, concat_app. simpl. by rewrite Ho, !app_nil_r.
Qed.

(** The loop: all frames, or those before the allocation that failed. *)
Definition loop_post (ci : FbmCreateInfo) (total : nat) (X : list Z) (h : Heap)
    (r : list FrameNode * Z) (h' : Heap) : Prop :=
  let t := ciThumbnailMode ci in
  align_ok r.2 /\ frames_new ci r.1 /\ holds h (frames_owned t r.1 ++ X) h' /\
  (length r.1 <= total)%nat /\
  ((length r.1 < total)%nat -> truthy t = true -> r.1 = []).

Lemma twp_create_loop ci X todo : forall al done h,
  size_ok ci -> align_ok al -> frames_new ci done ->
  addrs h ≡ₚ frames_owned (ciThumbnailMode ci) done ++ X ->
  twp (create_loop ci todo al done) (loop_post ci (length done + todo) X h) h.
Proof.
  induction todo as [|todo IH]; intros al done h Hs Ha N P; cbn [create_loop].
  - twp_step. split_and!; simpl; try done; lia.
  - apply twp_bind. eapply twp_mono; [by apply (twp_create_frame ci al done X)|].
    intros [[n|] al'] h'; unfold frame_post; simpl.
    + intros (Ha' & Nn & P' & B'). eapply twp_mono.
      * apply IH; [done|done|by apply frames_new_snoc|done].
      * intros r h'' (Ha'' & N' & (P'' & B'') & L1 & L2). rewrite length_app in *. simpl in *.
        split_and!; try done; [|lia|].
        -- split; [done|congruence].
        -- intros ?. apply L2. lia.
    + intros (Ha' & P' & Ht). twp_step. split_and!; try done; simpl; lia.
Qed.

(** * A created manager *)

(** What a manager owns besides its two [malloc] blocks. *)
Definition fbm_owned (f : Fbm) : list Z :=
  if bUseGpuBuf f =? 0 then frames_owned (bThumbnailMode f) (pFrames f) else [].

Lemma enqueue_all_chain idx : forall f l,
  chain (links (pFrames f)) (pEmptyBufferQueue f) l -> NoDup (l ++ idx) ->
  (forall i, i ∈ idx -> (i < length (pFrames f))%nat) ->
  exists h fr,
    enqueue_all idx f = Some (f <| pEmptyBufferQueue := h |> <| pFrames := fr |>) /\
    chain (links fr) h (l ++ idx) /\ flags fr = flags (pFrames f) /\
    pics fr = pics (pFrames f) /\ length fr = length (pFrames f).
Proof.
  induction idx as [|i idx IH]; intros f l C N B; cbn [enqueue_all].
  - exists (pEmptyBufferQueue f), (pFrames f). rewrite app_nil_r. split_and!; try done. by destruct f.
  - assert (NoDup (i :: l)) as Ni.
    { rewrite <- Permutation_middle in N. rewrite app_comm_cons in N.
      by apply list.NoDup_app in N as (? & _ & _). }
    destruct (enqueue_chain QEmpty i f l) as (h & fr & -> & C' & _ & F & P & L);
      [done|done|apply B; by left|].
    destruct (IH (set_head QEmpty h f <| pFrames := fr |>) (l ++ [i]))
      as (h' & fr' & E & C'' & F' & P' & L').
    + done.
    + by rewrite <- app_assoc.
    + intros k Hk. simpl. rewrite L. apply B. by right.
    + exists h', fr'. rewrite <- app_assoc in C''. simpl in *. split_and!; try done; congruence.
Qed.

Lemma flags_new ci fr : frames_new ci fr -> flags fr = flags_of <$> replicate (length fr) Empty.
Proof.
  intros N. unfold flags. apply list_eq. intros i. rewrite !list_lookup_fmap.
  destruct (fr !! i) as [n|] eqn:E.
  - rewrite lookup_replicate_2 by (by eapply lookup_lt_Some). simpl. f_equal. by apply (N i).
  - rewrite lookup_ge_None_2; [done|]. rewrite length_replicate. by apply lookup_ge_None.
Qed.

Lemma pics_new ci fr cts i v : frames_new ci fr -> pics fr !! i = Some v ->
  nID v = Z.of_nat i /\ (cts = 0 -> picture_ok cts i v).
Proof.
  intros N H. unfold pics in H. rewrite list_lookup_fmap in H.
  destruct (fr !! i) as [n|] eqn:E; [|done]. simpl in H. simplify_eq.
  destruct (N i n E) as (_ & _ & Hi & _). split; [done|]. intros ->. split; [done|by left].
Qed.

Lemma cnt_replicate P n s : P s = false -> cnt P (replicate n s) = 0.
Proof. intros H. unfold cnt, zsum. induction n; simpl; [done|]. rewrite H. simpl in *. lia. Qed.

(** A manager with its own buffers is a fresh pool. *)
Definition fresh_fbm (ci : FbmCreateInfo) (f : Fbm) : Prop :=
  exists fr, frames_new ci fr /\ pics (pFrames f) = pics fr /\
    length fr = Z.to_nat (ciFrameNum ci) /\
    frep (pics fr) false f (fresh (Z.to_nat (ciFrameNum ci))).

(** The outcome of [FbmCreateBuffer]. *)
Definition create_post (ci : FbmCreateInfo) (W : World) (o : option Fbm) (W' : World) : Prop :=
  (exists b, info W' = (info W) <| pFbmBufInfo := b |>) /\
  match o with
  | None => addrs (heap W') ≡ₚ addrs (heap W) /\ blocks (heap W') = blocks (heap W)
  | Some f =>
      addrs (heap W') ≡ₚ fbm_owned f ++ addrs (heap W) /\
      blocks (heap W') = blocks (heap W) + 2 /\ freed f = false /\
      (truthy (bThumbnailMode f) = true -> bUseGpuBuf f = 0 -> 0 < ciFrameNum ci ->
        pFrames f <> []) /\
      (gpu_buffers ci = false -> 0 <= ciFrameNum ci < 2147483648 -> fresh_fbm ci f)
  end.

Lemma twp_zoom {A} (m : M Heap A) W (Q : A -> World -> Prop) :
  twp m (fun a h => Q a (W <| heap := h |>)) (heap W) -> twp (zoom m) Q W.
Proof. unfold twp, zoom. by destruct (m (heap W)). Qed.

(** The frames of the loop end, with the heap restored on failure. *)
Lemma twp_abandon frames W W0 ci X (Q : option Fbm -> World -> Prop) :
  info W = info W0 ->
  holds ((heap W0) <| blocks := blocks (heap W0) + 2 |>)
    (frames_owned (ciThumbnailMode ci) frames ++ X) (heap W) ->
  addrs (heap W0) = X ->
  (truthy (ciThumbnailMode ci) = true -> frames = []) ->
  (forall W', create_post ci W0 None W' -> Q None W') ->
  twp (zoom (free_pictures frames);; zoom free_block;; zoom free_block;; mret None) Q W.
Proof.
  intros Hi [P B] HX Ht HQ. apply twp_bind, twp_zoom.
  eapply (twp_free_pictures _ _ X).
  - rewrite P. unfold frames_owned. destruct (truthy _); [|done]. by rewrite Ht.
  - intros h' [P' B']. unfold free_block.
    do 2 (apply twp_bind, twp_zoom; twp_step). twp_step. apply HQ. split; simpl.
    + exists (pFbmBufInfo (info W0)). rewrite Hi. by destruct (info W0).
    + split; [by rewrite HX|]. simpl in *. rewrite B', B. lia.
Qed.

Lemma twp_buf_info ci al h (Q : FbmBufInfo -> Heap -> Prop) :
  size_ok ci -> align_ok al -> (forall b, Q b h) -> twp (buf_info ci al) Q h.
Proof.
  intros (Hw & Hh & _) Ha H. unfold buf_info.
  do 2 (apply twp_bind, twp_align_side; [done|done|intros Q' HQ; apply twp_ret, HQ; unfold side_ok in *; lia|];
    intros ? _). by twp_step.
Qed.

(** [FbmCreateBuffer] returns, whichever allocations fail. *)
Lemma create_ok ok1 ok2 ci W : size_ok ci -> twp (FbmCreateBuffer ok1 ok2 ci) (create_post ci W) W.
Proof.
  intros Hs. unfold FbmCreateBuffer, malloc_block. apply twp_bind, twp_zoom.
  destruct ok1; repeat twp_step; try done.
  2: { split; [by exists (pFbmBufInfo (info W)); destruct W as [[]]|done]. }
  apply twp_zoom. destruct ok2; repeat twp_step; try done.
  2: { apply twp_zoom. unfold free_block. repeat twp_step.
       split; [by exists (pFbmBufInfo (info W)); destruct W as [[]]|].
       simpl. split; [done|lia]. }
  apply twp_zoom. simpl. eapply twp_mono.
  { apply (twp_create_loop ci (addrs (heap W))); [done|apply Hs|by intros ? ?|]. simpl.
    unfold frames_owned. by destruct (truthy _). }
  intros [frames al'] h (Hal & N & HP & L1 & L2). simpl in *. cbv zeta. twp_step.
  { eapply (twp_abandon _ _ W ci (addrs (heap W))); try done.
    - destruct HP as [P B]. split; [done|]. simpl in *. rewrite B. lia.
    - intros Ht. apply L2; [lia|done]. }
  destruct HP as [P B]. simpl in B.
  assert (gpu_buffers ci = true -> frames_owned (ciThumbnailMode ci) frames = []) as Hg.
  { intros Eg. apply (frames_new_gpu ci); [done|]. revert Eg. unfold gpu_buffers, own_buffers.
    destruct (ciBufferType ci =? _); lia. }
  assert (0 < ciFrameNum ci -> frames <> []) as Hne
    by (intros ? E; apply (f_equal length) in E; simpl in E; lia).
  destruct (gpu_buffers ci) eqn:Eg.
  - rewrite Hg in P by done. do 2 twp_step. twp_step; [twp_step|].
    + split; [by exists (pFbmBufInfo (info W)); destruct W as [[]]|].
      split_and!; try done; [simpl; lia|congruence].
    + apply twp_bind, twp_zoom, twp_buf_info; [done|done|]. intros b. repeat twp_step.
      split; [by exists b; destruct W as [[]]|]. split_and!; try done; [simpl; lia|congruence].
  - twp_step. match goal with |- context [enqueue_all _ ?f] =>
      destruct (enqueue_all_chain (seq 0 (length frames)) f [])
        as (hd & fr & E & C & F & Pp & L); [done|apply NoDup_seq| |] end.
    { intros i Hi. by apply elem_of_seq in Hi as [_ ?]. }
    eapply twp_lift; [exact E|]. repeat twp_step. simplify_eq. simpl in C, F, Pp, L.
    split; [by exists (pFbmBufInfo (info W)); destruct W as [[]]|].
    assert (frames_owned (ciThumbnailMode ci) fr = frames_owned (ciThumbnailMode ci) frames) as Eo
      by (by apply frames_owned_pics).
    split_and!; simpl; try done; try lia.
    + unfold fbm_owned. simpl. by rewrite Eo.
    + intros _ _ ?. intros ->. simpl in L. symmetry in L. apply nil_length_inv in L. by apply Hne.
    + intros _ Hn. assert (length frames = Z.to_nat (ciFrameNum ci)) as Hl by lia.
      exists frames. split_and!; [done..|]. rewrite <- Hl.
      split; simpl; rewrite ?length_replicate, ?length_seq, ?cnt_replicate by done;
        try done; try lia.
      rewrite F. by apply (flags_new ci).
Qed.

(** [FbmDestroy] returns and gives back exactly what the manager owns. *)
Lemma destroy_ok w f W X :
  slot w (info W) = Some f -> freed f = false ->
  (truthy (bThumbnailMode f) = true -> bUseGpuBuf f = 0 -> pFrames f <> []) ->
  addrs (heap W) ≡ₚ fbm_owned f ++ X ->
  twp (FbmDestroy (Some w)) (fun _ W' =>
    addrs (heap W') ≡ₚ X /\ blocks (heap W') = blocks (heap W) - 2 /\
    slot w (info W') = Some (f <| freed := true |>)) W.
Proof.
  intros Es Ef Ht P. unfold FbmDestroy.
  assert (owns w f W W) as O by (split_and!; [done|done|reflexivity]).
  apply twp_bind, (twp_get_fbm w W W f O). apply twp_bind.
  eapply (twp_mono _ (fun _ W' => info W' = info W /\ holds (heap W) X (heap W'))).
  - unfold fbm_owned in P. destruct (bUseGpuBuf f =? 0) eqn:Eg; [|by apply twp_ret].
    unfold frames_owned in P. destruct (truthy (bThumbnailMode f)).
    + destruct (pFrames f) as [|n fr] eqn:En; [by destruct (Ht eq_refl ltac:(lia))|].
      apply twp_bind. eapply twp_lift; [done|]. apply twp_bind. unfold twp, zoom.
      pose proof (twp_free_picture (vpicture n) (heap W) X (fun _ h' => holds (heap W) X h') P
        ltac:(auto)) as T. unfold twp in T.
      by destruct (FbmFreePictureBuffer (vpicture n) (heap W)).
    + unfold twp, zoom.
      pose proof (twp_free_pictures (pFrames f) (heap W) X (fun _ h' => holds (heap W) X h') P
        ltac:(auto)) as T. unfold twp in T.
      by destruct (free_pictures (pFrames f) (heap W)).
  - intros _ W1 [Ei [P1 B1]]. apply twp_bind. eapply twp_intro; [reflexivity|].
    apply twp_bind. eapply twp_intro; [reflexivity|].
    unfold mod_fbm, get_fbm. do 3 twp_step. apply twp_bind. eapply twp_lift; [by simpl; rewrite Ei|].
    rewrite Ef. apply twp_ret. apply twp_modify. simpl. split_and!; [done|lia|by destruct w].
Qed.

End FbmMem.
