(* ===== verification/FbmTheorems.v ===== *)
(** The theorems of the frame buffer manager: its calls refine the pool, for
    every sequence of calls; what follows for the decoder and the display; and
    the memory of a whole session. *)

From Stdlib Require Import ZArith Lia.
From stdpp Require Import base list list_numbers numbers.
From S2P Require Import Prelude Fbm FbmQueue FbmPool FbmRep FbmSpec FbmMem.

Module FbmTheorems.
Import Fbm FbmQueue FbmPool FbmRep FbmSpec FbmMem.

(** * Calls on a manager *)

Definition frame_of (p : picptr) : option nat :=
  match p with Pic _ i => Some i | _ => None end.

Definition run_call (w : side) (c : call) : M World reply :=
  match c with
  | Request => p ← FbmRequestBuffer (Some w); mret (Frame (frame_of p))
  | Return i v => FbmReturnBuffer (Some w) (Pic w i) (Z.b2z v);; mret NoReply
  | Share i => FbmShareBuffer (Some w) (Pic w i);; mret NoReply
  | TakePicture => p ← FbmRequestPicture (Some w); mret (Frame (frame_of p))
  | ReturnPicture i => z ← FbmReturnPicture (Some w) (Pic w i); mret (Code z)
  | Flush => FbmFlush (Some w);; mret NoReply
  end.

Fixpoint run_calls (w : side) (cs : list call) : M World (list reply) :=
  match cs with
  | [] => mret []
  | c :: cs => r ← run_call w c; rs ← run_calls w cs; mret (r :: rs)
  end.

(** The calls a client may make: pictures of the manager, no re-sharing of a
    picture on the display, and no overflow of [nWaitForDispNum]. *)
Definition legal (c : call) (a : pool) : bool :=
  let known i := (i <? length (st a))%nat in
  let roomy := Z.of_nat (length (st a)) + stale a <? 2147483648 in
  match c with
  | Request | Flush => true
  | Return i _ => known i && roomy
  | Share i => known i && roomy && negb (bool_decide (st a !! i = Some ShowingRef))
  | TakePicture => roomy
  | ReturnPicture i => known i
  end.

Fixpoint legal_run (cs : list call) (a : pool) : bool :=
  match cs with
  | [] => true
  | c :: cs => legal c a && legal_run cs (step c a).2
  end.

Lemma frame_of_picof w o : frame_of (picof w o) = o.
Proof. by destruct o. Qed.

Lemma call_ok w ps W a c : wrep w ps W a -> legal c a = true ->
  twp (run_call w c) (fun r W' => r = (step c a).1 /\ leads w ps W W' (step c a).2) W.
Proof.
  intros R L. destruct c; simpl in *; apply twp_bind.
  - eapply twp_mono; [by apply frame_request_ok|]. intros p W' [-> H]. apply twp_ret.
    rewrite frame_of_picof. by destruct (request a).
  - apply andb_true_iff in L as [L1 L2]. apply Nat.ltb_lt in L1.
    eapply twp_mono; [apply frame_return_ok; [done..|unfold room; lia]|].
    intros [] W' H. apply twp_ret. split; [done|]. by destruct valid.
  - rewrite !andb_true_iff in L. destruct L as [[L1 L2] L3]. apply Nat.ltb_lt in L1.
    eapply twp_mono; [apply share_ok; [done..|unfold room; lia|]|].
    + intros E. by rewrite bool_decide_true in L3.
    + intros [] W' H. by apply twp_ret.
  - eapply twp_mono; [apply take_picture_ok; [done|unfold room; lia]|].
    intros p W' [-> H]. apply twp_ret. rewrite frame_of_picof. by destruct (take_picture a).
  - apply Nat.ltb_lt in L. eapply twp_mono; [by apply return_picture_ok|].
    intros z W' [-> H]. apply twp_ret. by destruct (return_picture i a).
  - eapply twp_mono; [by apply frame_flush_ok|]. intros [] W' H. by apply twp_ret.
Qed.

Lemma calls_ok w ps cs : forall W a, wrep w ps W a -> legal_run cs a = true ->
  twp (run_calls w cs) (fun rs W' => rs = (run cs a).1 /\ leads w ps W W' (run cs a).2) W.
Proof.
  induction cs as [|c cs IH]; intros W a R L; simpl in *.
  - apply twp_ret. split; [done|]. split; [done|reflexivity].
  - apply andb_true_iff in L as [L1 L2]. apply twp_bind.
    eapply twp_mono; [by apply call_ok|]. intros r W1 [-> [R1 K1]].
    apply twp_bind. eapply twp_mono; [by apply IH|]. intros rs W2 [-> [R2 K2]].
    apply twp_ret. destruct (step c a) as [r b]. simpl in *. destruct (run cs b) as [rs b'].
    split; [done|]. split; [done|]. etrans; [exact K1|exact K2].
Qed.

(** * Counting *)

Fixpoint where_ (P : status -> bool) (l : list status) (k : nat) : list nat :=
  match l with
  | [] => []
  | s :: l => if P s then k :: where_ P l (S k) else where_ P l (S k)
  end.

Lemma where_spec P l : forall k i,
  i ∈ where_ P l k <-> (k <= i)%nat /\ exists s, l !! (i - k)%nat = Some s /\ P s = true.
Proof.
  induction l as [|s l IH]; intros k i; simpl.
  - rewrite elem_of_nil. split; [done|]. intros (_ & s & H & _). by destruct (i - k)%nat.
  - assert (i ∈ where_ P l (S k) <->
      (k < i)%nat /\ exists s', (s :: l) !! (i - k)%nat = Some s' /\ P s' = true) as E.
    { rewrite IH. split; intros (H & s' & H1 & H2); (split; [lia|]); exists s'.
      - replace (i - k)%nat with (S (i - S k)) by lia. done.
      - replace (i - k)%nat with (S (i - S k)) in H1 by lia. done. }
    destruct (P s) eqn:Es; rewrite ?elem_of_cons, E; split.
    + intros [->|(H & H')]; [|split; [lia|done]]. split; [lia|]. exists s.
      by rewrite Nat.sub_diag.
    + intros (H & H'). destruct (decide (i = k)); [by left|right]. split; [lia|done].
    + intros (H & H'). split; [lia|done].
    + intros (H & s' & H1 & H2). destruct (decide (i = k)) as [->|]; [|split; [lia|eauto]].
      rewrite Nat.sub_diag in H1. simpl in H1. congruence.
Qed.

Lemma where_nodup P l : forall k, NoDup (where_ P l k).
Proof.
  induction l as [|s l IH]; intros k; simpl; [constructor|].
  destruct (P s); [|done]. apply list.NoDup_cons. split; [|done].
  rewrite where_spec. lia.
Qed.

Lemma where_length P l : forall k, Z.of_nat (length (where_ P l k)) = cnt P l.
Proof.
  unfold cnt, zsum. induction l as [|s l IH]; intros k; simpl; [done|].
  specialize (IH (S k)). destruct (P s); simpl; lia.
Qed.

Lemma length_cnt P a l : NoDup l -> (forall i, i ∈ l <-> is_st P i a) ->
  Z.of_nat (length l) = cnt P (st a).
Proof.
  intros N H. rewrite <- (where_length P (st a) 0). f_equal. apply Permutation_length.
  apply NoDup_Permutation; [done|apply where_nodup|]. intros i.
  rewrite H, where_spec, Nat.sub_0_r. unfold is_st. split; [|by intros [_ ?]]. intros ?.
  split; [lia|done].
Qed.

(** A frame held by the decoder or the display, in no queue. *)
Definition held (s : status) : bool := negb (is_empty s) && negb (waiting s).

Lemma cnt_partition l :
  Z.of_nat (length l) = cnt is_empty l + cnt waiting l + cnt held l.
Proof.
  unfold cnt, zsum. induction l as [|s l IH]; [done|]. destruct s; simpl in *; lia.
Qed.

(** * Theorems *)

(** C2: whatever sequence of legal calls the decoder and the display make on a
    manager, every call returns, the replies are those of the abstract pool,
    the manager then represents the pool after those calls, the pictures'
    buffers are untouched and nothing outside the manager changes. *)
Theorem fbm_refines_pool w ps W a cs :
  wrep w ps W a -> legal_run cs a = true ->
  exists W', run_calls w cs W = Ok (run cs a).1 W' /\ leads w ps W W' (run cs a).2.
Proof.
  intros R L. destruct (twp_elim _ _ _ (calls_ok w ps cs W a R L)) as (rs & W' & E & -> & H).
  eauto.
Qed.

(** C4: no frame is lost or duplicated: after any legal calls the numbers the
    query functions report are the numbers of frames in each state, and the
    empty, the waiting and the held frames add up to all frames. *)
Theorem fbm_frames_conserved w ps W a cs rs W' :
  wrep w ps W a -> legal_run cs a = true -> run_calls w cs W = Ok rs W' ->
  let l := st (run cs a).2 in
  FbmTotalBufferNum (Some w) W' = Ok (Z.of_nat (length l)) W' /\
  FbmEmptyBufferNum (Some w) W' = Ok (cnt is_empty l) W' /\
  FbmValidPictureNum (Some w) W' = Ok (cnt waiting l) W' /\
  FbmGetDecoderHoldingBufferNum (Some w) W' = Ok (cnt by_decoder l) W' /\
  FbmGetRenderHoldingBufferNum (Some w) W' = Ok (cnt by_render l) W' /\
  Z.of_nat (length l) = cnt is_empty l + cnt waiting l + cnt held l.
Proof.
  intros R L E. destruct (twp_elim _ _ _ (calls_ok w ps cs W a R L)) as (rs' & W2 & E' & _ & H & _).
  assert (W2 = W') as -> by congruence. destruct H as [Hs _ Wf (f & Es & F)].
  assert (forall A (d : A) g, query (Some w) d g W' = Ok (g w f) W') as Q.
  { intros A d g. unfold query, with_fbm.
    assert (get_fbm w W' = Ok f W') as G
      by (unfold get_fbm; eapply bind_ok; [reflexivity|]; eapply bind_ok; [by apply lift_ok|];
          by rewrite (r_freed _ _ _ _ F)).
    eapply bind_ok; [exact G|]. rewrite (r_info _ _ _ _ F). simpl.
    eapply bind_ok; [reflexivity|]. rewrite shares_not by done.
    eapply bind_ok; [exact G|]. done. }
  cbv zeta. pose proof (cnt_partition (st (run cs a).2)).
  pose proof (length_cnt _ _ _ (wf_nodup_free _ Wf) (wf_free _ Wf)).
  pose proof (length_cnt _ _ _ (wf_nodup_show _ Wf) (wf_show _ Wf)).
  destruct F. unfold FbmTotalBufferNum, FbmEmptyBufferNum, FbmValidPictureNum,
    FbmGetDecoderHoldingBufferNum, FbmGetRenderHoldingBufferNum. rewrite !Q.
  split_and!; congruence.
Qed.

(** The frames that join the pictures to show, and those the display gets. *)
Definition entered (c : call) (a : pool) : list nat :=
  match c with
  | Return i true | Share i => if bool_decide (st a !! i = Some Decoding) then [i] else []
  | _ => []
  end.

Fixpoint entered_run (cs : list call) (a : pool) : list nat :=
  match cs with
  | [] => []
  | c :: cs => entered c a ++ entered_run cs (step c a).2
  end.

Fixpoint shown_run (cs : list call) (rs : list reply) : list nat :=
  match cs, rs with
  | TakePicture :: cs, Frame (Some i) :: rs => i :: shown_run cs rs
  | _ :: cs, _ :: rs => shown_run cs rs
  | _, _ => []
  end.

Definition is_flush (c : call) : bool := match c with Flush => true | _ => false end.

Lemma fifo_run cs : forall a, existsb is_flush cs = false ->
  show a ++ entered_run cs a = shown_run cs (run cs a).1 ++ show (run cs a).2.
Proof.
  induction cs as [|c cs IH]; intros a H; simpl in *; [by rewrite app_nil_r|].
  apply orb_false_iff in H as [Hc H].
  destruct (step c a) as [r b] eqn:Es. specialize (IH b H).
  destruct (run cs b) as [rs b'] eqn:Er. simpl in *. rewrite app_assoc.
  destruct c; simpl in *; try done;
    unfold request, return_frame, share, take_picture, return_picture in *.
  - destruct (free a); simplify_eq; by rewrite app_nil_r.
  - destruct (st a !! i) as [[]|] eqn:Ei; destruct valid; simplify_eq;
      rewrite ?Ei, ?app_nil_r; simpl in *; done.
  - destruct (st a !! i) as [[]|] eqn:Ei; simplify_eq;
      rewrite ?Ei, ?app_nil_r; simpl in *; done.
  - destruct (show a) as [|i l] eqn:Eh; simplify_eq; simpl in *; rewrite ?Eh in IH; [done|].
    rewrite app_nil_r. by f_equal.
  - destruct (st a !! i) as [[]|]; simplify_eq; by rewrite app_nil_r.
Qed.

(** C5: the display gets the pictures in the order in which the decoder
    returned or shared them: over any legal calls without a flush, the pictures
    that waited before, followed by those that joined, are the pictures the
    display got followed by those on the valid queue at the end. *)
Theorem fbm_display_fifo w ps W a cs rs W' :
  wrep w ps W a -> legal_run cs a = true -> existsb is_flush cs = false ->
  run_calls w cs W = Ok rs W' ->
  exists f q, slot w (info W') = Some f /\ chain (links (pFrames f)) (pValidPictureQueue f) q /\
    show a ++ entered_run cs a = shown_run cs rs ++ q.
Proof.
  intros R L Hf E.
  destruct (twp_elim _ _ _ (calls_ok w ps cs W a R L)) as (rs' & W2 & E' & Er & H & _).
  assert (W2 = W') as -> by congruence. assert (rs = (run cs a).1) as -> by congruence.
  destruct H as [_ _ _ (f & Es & F)]. exists f, (show (run cs a).2).
  split_and!; [done|apply F|]. by apply fifo_run.
Qed.

(** What a flush does to the frames. *)
Definition flushed (s : status) : status :=
  match s with Queued => Empty | Shared => Shown | _ => s end.

Lemma flush_foldl l : forall a, show a = l ->
  let b := foldl (fun a i => drop_one i a) a l in
  show b = [] /\ stale b = stale a + Z.of_nat (length l).
Proof.
  induction l as [|i l IH]; intros a Es; simpl; [split; [done|lia]|].
  assert (show (drop_one i a) = l) as Ds by (by rewrite drop_show, Es).
  destruct (IH _ Ds) as [IH1 IH2]. split; [done|]. rewrite IH2.
  unfold drop_one. destruct (st a !! i) as [[]|]; simpl; lia.
Qed.

Lemma drop_st i a : wf a -> i ∈ show a -> st (drop_one i a) = alter flushed i (st a).
Proof.
  intros Wa Hi. apply in_show in Hi; [|done]. unfold drop_one.
  assert (forall s, st a !! i = Some s -> <[i := flushed s]> (st a) = alter flushed i (st a)) as E.
  { intros s Hs. apply list_eq. intros k. destruct (decide (k = i)) as [->|].
    - rewrite list_lookup_insert_eq by (by eapply lookup_lt_Some).
      by rewrite list_lookup_alter_eq, Hs.
    - by rewrite list_lookup_insert_ne, list_lookup_alter_ne. }
  destruct Hi as [Hi|Hi]; rewrite Hi; simpl; by rewrite <- (E _ Hi).
Qed.

Lemma flush_st l : forall a, wf a -> show a = l ->
  forall k, st (foldl (fun a i => drop_one i a) a l) !! k =
            (if bool_decide (k ∈ l) then flushed <$> (st a !! k) else st a !! k).
Proof.
  induction l as [|i l IH]; intros a Wa Es k; simpl; [done|].
  assert (show (drop_one i a) = l) as Ds by (by rewrite drop_show, Es).
  pose proof (wf_nodup_show a Wa) as Nd. rewrite Es in Nd. apply list.NoDup_cons in Nd as [Hi _].
  rewrite (IH _ (wf_drop a i l Wa Es) Ds k), (drop_st i a Wa) by (rewrite Es; by left).
  destruct (decide (k = i)) as [->|Hne].
  - rewrite (bool_decide_false (i ∈ l)) by done. rewrite (bool_decide_true (i ∈ i :: l)) by (by left).
    apply list_lookup_alter_eq.
  - rewrite list_lookup_alter_ne by done. case_bool_decide as H1; case_bool_decide as H2; try done.
    + destruct H2. by right.
    + apply elem_of_cons in H2 as [?|?]; done.
Qed.

(** C6: [FbmFlush] returns; then no picture waits, a picture the decoder has
    let go is an empty buffer again, one it still refers to counts as shown,
    every other frame is as it was, and the count of empty buffers is right;
    [nWaitForDispNum] is the only counter that does not follow. *)
Theorem fbm_flush_spec w ps W a f :
  wrep w ps W a -> slot w (info W) = Some f ->
  exists W' f' b, FbmFlush (Some w) W = Ok tt W' /\ slot w (info W') = Some f' /\
    wrep w ps W' b /\ pValidPictureQueue f' = None /\ nValidPictureNum f' = 0 /\
    (forall k, flags (pFrames f') !! k =
       flags_of <$> (if bool_decide (k ∈ show a) then flushed <$> (st a !! k) else st a !! k)) /\
    nEmptyBufferNum f' = cnt is_empty (st b) /\ nWaitForDispNum f' = nWaitForDispNum f.
Proof.
  intros R Es. destruct (twp_elim _ _ _ (frame_flush_ok w ps W a R)) as ([] & W' & E & H & K).
  pose proof R as [_ _ Wa (f0 & Es0 & F0)]. simplify_eq.
  pose proof H as [_ _ Wb (f' & Es' & F')]. exists W', f', (flush a).
  destruct (flush_foldl (show a) a eq_refl) as [S1 S2]. fold (flush a) in S1, S2.
  pose proof (length_cnt _ _ _ (wf_nodup_free _ Wb) (wf_free _ Wb)) as Lf.
  destruct F0, F'. rewrite S1 in *. simpl in *. split_and!; try done.
  - intros k. rewrite r_flags1, list_lookup_fmap. f_equal. by apply flush_st.
  - lia.
  - lia.
Qed.

(** * Sessions *)

(** An info before the first stream is opened, which is not a 3D stream, and creation
    parameters of which the manager allocates the frames itself, with sides of up to 16384
    pixels and an alignment of up to 1024. *)
Definition unopened (W : World) : Prop :=
  pFbmFirst (info W) = None /\ bIs3DStream (info W) <> 1 /\
  bTwoStreamShareOneFbm (info W) <> 1 /\ bIsFrameCtsTestFlag (info W) = 0.

Definition plain (ci : FbmCreateInfo) : Prop :=
  gpu_buffers ci = false /\ 0 < ciFrameNum ci < 2147483648 /\ size_ok ci.

Definition frames_num (ci : FbmCreateInfo) : nat := Z.to_nat (ciFrameNum ci).

Definition opened (ci : FbmCreateInfo) (W : World) (o : option side) (W1 : World) : Prop :=
  match o with
  | None => addrs (heap W1) ≡ₚ addrs (heap W) /\ blocks (heap W1) = blocks (heap W)
  | Some w => w = First /\ exists f ps, slot First (info W1) = Some f /\
      wrep First ps W1 (fresh (frames_num ci)) /\ pics (pFrames f) = ps /\
      addrs (heap W1) ≡ₚ fbm_owned f ++ addrs (heap W) /\
      blocks (heap W1) = blocks (heap W) + 2
  end.

Lemma create_opens getsize oks ci W : unopened W -> plain ci ->
  twp (FbmCreate getsize oks ci) (opened ci W) W.
Proof.
  intros (E1 & E2 & E3 & E4) (Hg & Hn & Hs). unfold FbmCreate. do 2 twp_step.
  destruct oks as [[a1 a2] [b1 b2]]. replace (bIs3DStream (info W) =? 1) with false by lia.
  simpl. rewrite E1. apply twp_bind. eapply twp_mono; [by apply create_ok|].
  intros [f|] W1 [[b Hb] H]; repeat twp_step; simpl; [|by destruct H].
  destruct H as (P & B & Ef & _ & H). destruct (H Hg ltac:(lia)) as (fr & N & Pf & Hl & F).
  split; [done|]. exists f, (pics fr). split_and!; try done.
  split; simpl; rewrite ?Hb; simpl; try done.
  - intros i v Hv. rewrite E4. by apply (pics_new ci fr).
  - apply fresh_wf.
  - eauto.
Qed.

(** C3: no memory is lost by a session of one manager.  For the first manager of a stream that
    is not 3D, whose frames the manager allocates itself (no GPU buffers), with sides of up to 16384
    pixels and an alignment of up to 1024, [FbmCreate] returns, whichever allocations fail.  When
    it fails, the picture buffers and [malloc] blocks are those from before; when it
    succeeds, any legal calls run to their end with the replies of a fresh pool,
    and [FbmDestroy] then returns with the memory as before the creation. *)
Theorem fbm_session_no_leak getsize oks ci W :
  unopened W -> plain ci -> exists r W1, FbmCreate getsize oks ci W = Ok r W1 /\
  match r with
  | None => addrs (heap W1) ≡ₚ addrs (heap W) /\ blocks (heap W1) = blocks (heap W)
  | Some w => forall cs, legal_run cs (fresh (frames_num ci)) = true ->
      exists W2 W3, run_calls w cs W1 = Ok (run cs (fresh (frames_num ci))).1 W2 /\
        FbmDestroy (Some w) W2 = Ok tt W3 /\
        addrs (heap W3) ≡ₚ addrs (heap W) /\ blocks (heap W3) = blocks (heap W)
  end.
Proof.
  intros U Pl. destruct (twp_elim _ _ _ (create_opens getsize oks ci W U Pl)) as (r & W1 & E & H).
  exists r, W1. split; [done|].
  destruct r as [w|]; [|done]. destruct H as (-> & f & ps & Es & R & Ep & P & B). intros cs L.
  destruct (twp_elim _ _ _ (calls_ok First ps cs W1 _ R L)) as (rs & W2 & E2 & -> & R2 & K).
  destruct R2 as [_ _ _ (f2 & Es2 & F2)]. exists W2.
  pose proof (k_fixed _ _ _ K) as Kf. rewrite Es, Es2 in Kf. unfold fixed_part in Kf.
  simpl in Kf. simplify_eq.
  assert (fbm_owned f2 = fbm_owned f) as Eo.
  { unfold fbm_owned. rewrite H0, (frames_owned_pics _ (pFrames f2) (pFrames f)), H; [done|].
    apply F2. }
  assert (pFrames f2 <> []) as Hne.
  { intros En. pose proof (r_pics _ _ _ _ F2) as Hp. rewrite En in Hp.
    destruct R as [_ _ _ (f' & Es' & F)]. simplify_eq.
    apply (f_equal length) in Hp. pose proof (f_equal length (r_flags _ _ _ _ F)) as Hl.
    unfold pics, flags in *. rewrite !length_fmap in *. simpl in *.
    rewrite length_replicate in Hl. destruct Pl. unfold frames_num in Hl. lia. }
  destruct (twp_elim _ _ _ (destroy_ok First f2 W2 (addrs (heap W)) Es2 (r_freed _ _ _ _ F2)
    ltac:(auto)
    ltac:(unfold addrs; rewrite (k_bufs _ _ _ K), Eo; exact P)))
    as ([] & W3 & E3 & P3 & B3 & _).
  exists W3. split_and!; try done. rewrite B3, (k_blocks _ _ _ K), B. lia.
Qed.

(** * Concrete sessions *)

Definition demo_ops : ScMemOps := mkOps (fun n _ => (Z.of_nat n + 1) * 1048576) (fun a => a).
Definition demo_ci (gpu : Z) : FbmCreateInfo :=
  mkCreateInfo 3 1 64 48 PIXEL_FORMAT_YV12 0 gpu 16 0 1 0 demo_ops.
Definition demo_info : VideoFbmInfo :=
  mkInfo 0 None None (mkBufInfo 0 0 0 0 0 0 0) 0 0 PicNull PicNull 0 0 0.
Definition demo_world : World := mkWorld demo_info (mkHeap 0 [] 0 []).

Definition demo_size (_ : FbmBufInfo) : Z * Z := (0, 0).
Definition demo_oks : bool * bool * (bool * bool) := (true, true, (true, true)).
Definition demo_opened : World :=
  match FbmCreate demo_size demo_oks (demo_ci 0) demo_world with
  | Ok _ W => W | _ => demo_world
  end.

Definition demo_calls : list call :=
  [Request; Request; Return 0 true; Share 1; TakePicture; TakePicture;
   ReturnPicture 0; ReturnPicture 1; Return 1 false; Request].

Lemma demo_unopened : unopened demo_world.
Proof. by repeat split. Qed.
Lemma demo_plain : plain (demo_ci 0).
Proof. by repeat split. Qed.
Lemma demo_created :
  FbmCreate demo_size demo_oks (demo_ci 0) demo_world = Ok (Some First) demo_opened.
Proof. vm_compute. reflexivity. Qed.

Lemma ok_det {S A} (m : M S A) s a a' s1 s2 : m s = Ok a s1 -> m s = Ok a' s2 -> a = a' /\ s1 = s2.
Proof. intros ->. by intros [= -> ->]. Qed.

Lemma demo_opened_rep : exists ps, wrep First ps demo_opened (fresh 3).
Proof.
  pose proof (create_opens demo_size demo_oks (demo_ci 0) demo_world demo_unopened demo_plain) as C.
  destruct (wp_elim _ _ _ _ _ (twp_wp _ _ _ C) demo_created) as (_ & f & ps & _ & R & _). by exists ps.
Qed.

Lemma fbm_refines_pool_witness : exists W',
  run_calls First demo_calls demo_opened = Ok (run demo_calls (fresh 3)).1 W'.
Proof.
  destruct demo_opened_rep as [ps R].
  destruct (fbm_refines_pool First ps demo_opened (fresh 3) demo_calls R ltac:(vm_compute; reflexivity))
    as (W' & E & _). by exists W'.
Defined.

Lemma fbm_session_no_leak_witness : exists W2 W3,
  FbmCreate demo_size demo_oks (demo_ci 0) demo_world = Ok (Some First) demo_opened /\
  run_calls First demo_calls demo_opened = Ok (run demo_calls (fresh 3)).1 W2 /\
  FbmDestroy (Some First) W2 = Ok tt W3 /\ addrs (heap W3) ≡ₚ [] /\ blocks (heap W3) = 0.
Proof.
  destruct (fbm_session_no_leak demo_size demo_oks (demo_ci 0) demo_world demo_unopened demo_plain)
    as (r & W1 & E & H). destruct (ok_det _ _ _ _ _ _ demo_created E) as [<- <-].
  destruct (H demo_calls ltac:(vm_compute; reflexivity)) as (W2 & W3 & H'). exists W2, W3. exact (conj demo_created H').
Defined.

Definition demo_end : World :=
  match run_calls First demo_calls demo_opened with Ok _ W => W | _ => demo_opened end.
Definition demo_replies : list reply := (run demo_calls (fresh 3)).1.
Lemma demo_run : run_calls First demo_calls demo_opened = Ok demo_replies demo_end.
Proof. vm_compute. reflexivity. Qed.

Lemma fbm_frames_conserved_witness :
  FbmEmptyBufferNum (Some First) demo_end = Ok 2 demo_end.
Proof.
  destruct demo_opened_rep as [ps R].
  destruct (fbm_frames_conserved First ps demo_opened (fresh 3) demo_calls demo_replies demo_end R
    ltac:(vm_compute; reflexivity) demo_run) as (_ & E & _).
  rewrite E. vm_compute. reflexivity.
Defined.

Lemma fbm_display_fifo_witness : exists q : list nat, [0%nat; 1%nat] = shown_run demo_calls demo_replies ++ q.
Proof.
  destruct demo_opened_rep as [ps R].
  destruct (fbm_display_fifo First ps demo_opened (fresh 3) demo_calls demo_replies demo_end R
    ltac:(vm_compute; reflexivity) ltac:(reflexivity) demo_run) as (f & q & _ & _ & E).
  exists q. rewrite <- E. reflexivity.
Defined.

Lemma fbm_flush_spec_witness : exists W',
  FbmFlush (Some First) demo_opened = Ok tt W'.
Proof.
  destruct demo_opened_rep as [ps R]. pose proof (w_fbm _ _ _ _ R) as (f & Es & _).
  destruct (fbm_flush_spec First ps demo_opened (fresh 3) f R Es) as (W' & _ & _ & E & _).
  by exists W'.
Defined.

End FbmTheorems.
