(* ===== verification/FbmLayout.v ===== *)
(** The planes of a picture buffer, and two flaws of the manager shown on
    sessions that run from its creation. *)

From Stdlib Require Import ZArith Lia.
From stdpp Require Import base list list_numbers numbers.
From S2P Require Import Prelude Fbm FbmQueue FbmPool FbmRep FbmSpec FbmMem FbmTheorems.

Module FbmLayout.
Import Fbm FbmQueue FbmPool FbmRep FbmSpec FbmMem FbmTheorems.

(** * Rounding *)

Lemma round_up x k : 0 <= k ->
  exists q, Z.land (x + (2 ^ k - 1)) (Z.lnot (2 ^ k - 1)) = 2 ^ k * q /\
    x <= 2 ^ k * q < x + 2 ^ k.
Proof.
  intros Hk. rewrite land_lnot_ones by done. assert (0 < 2 ^ k) by lia.
  exists ((x + (2 ^ k - 1)) / 2 ^ k).
  pose proof (Z.div_mod (x + (2 ^ k - 1)) (2 ^ k) ltac:(lia)).
  pose proof (Z.mod_pos_bound (x + (2 ^ k - 1)) (2 ^ k) ltac:(lia)). lia.
Qed.

(** The alignment the allocator works with: 16 when none is asked for. *)
Definition effective (nAlign : Z) : Z := if nAlign =? 0 then 16 else nAlign.

Lemma twp_align_mask x k h (Q : Z -> Heap -> Prop) :
  0 <= x <= 65536 -> 0 <= k <= 10 ->
  (forall y, (exists q, y = 2 ^ k * q) -> x <= y < x + 2 ^ k -> Q y h) ->
  twp (align_mask x (2 ^ k - 1)) Q h.
Proof.
  intros Hx Hk H. destruct (round_up x k) as (q & E & B); [lia|].
  assert (2 ^ k <= 2 ^ 10) by (apply Z.pow_le_mono_r; lia).
  unfold align_mask. do 2 twp_step. apply twp_ret, H; rewrite E; eauto.
Qed.

Lemma twp_align_up x k h (Q : Z -> Heap -> Prop) :
  0 <= x <= 65536 -> 0 <= k <= 10 ->
  (forall y, (exists q, y = 2 ^ k * q) -> x <= y < x + 2 ^ k -> Q y h) ->
  twp (align_up x (2 ^ k)) Q h.
Proof.
  intros Hx Hk H. destruct (round_up x k) as (q & E & B); [lia|].
  assert (2 ^ k <= 2 ^ 10) by (apply Z.pow_le_mono_r; lia).
  unfold align_up. do 6 twp_step. apply twp_ret.
  replace (x + 2 ^ k - 1) with (x + (2 ^ k - 1)) by lia. apply H; rewrite E; eauto.
Qed.

(** * Planes *)

(** The picture [v] has its planes one after the other in a buffer of [sz]
    bytes at [pData0]: luminance, then two chrominance planes of [c] bytes (one
    interleaved plane of [2 * c] bytes for NV21). *)
Definition planes_in (v : VideoPicture) (c sz : Z) : Prop :=
  let y := nLineStride v * nHeight v in
  pData1 v = pData0 v + y /\ 0 <= c /\ y + 2 * c = sz /\
  pData2 v = (if ePixelFormat v =? PIXEL_FORMAT_NV21 then 0 else pData1 v + c).

Lemma planar_mul_bound s t : 0 <= s <= 9216 -> 0 <= t <= 9216 -> 0 <= s * t <= 84934656.
Proof. nia. Qed.

(** The rest of [alloc_planar] once the line stride and the height are known. *)
Lemma planar_tail ops v a s t h (Q : Z * VideoPicture * Z -> Heap -> Prop) :
  0 <= s <= 9216 -> 0 <= t <= 9216 -> (forall n sz, palloc ops n sz <> 0) ->
  (forall v' h' sz, ePixelFormat v' = ePixelFormat v -> nLineStride v' = s -> nHeight v' = t ->
     nWidth v' = s -> pData0 v' <> 0 -> bufs h' = (pData0 v', sz) :: bufs h ->
     planes_in v' (planar_chroma (ePixelFormat v) (s * t)) sz -> Q (0, v', a) h') ->
  twp (let pic := v <| nLineStride := s |> <| nWidth := s |> <| nHeight := t |> in
       nMemSizeY ← imul s t;
       let nMemSizeC := planar_chroma (ePixelFormat v) nMemSizeY in
       cc ← imul nMemSizeC 2; total ← iadd nMemSizeY cc; pMem ← CdcMemPalloc ops total;
       if pMem =? 0 then mret (-1, pic, a)
       else mret (0, pic <| pData0 := pMem |> <| pData1 := pMem + nMemSizeY |>
          <| pData2 := if ePixelFormat v =? PIXEL_FORMAT_NV21 then 0
                       else pMem + nMemSizeY + nMemSizeC |> <| pData3 := 0 |>, a)) Q h.
Proof.
  intros Hs Ht Hp H. pose proof (planar_mul_bound s t Hs Ht).
  pose proof (planar_chroma_bounds (ePixelFormat v) (s * t) ltac:(lia)).
  cbv zeta. twp_step. twp_step. cbv zeta. do 4 twp_step.
  unfold CdcMemPalloc at 1. do 5 twp_step. cbv zeta. set (sz := s * t + _ * 2).
  pose proof (Hp (ncalls h) sz).
  replace (palloc ops (ncalls h) sz =? 0) with false by lia.
  do 4 twp_step. replace (palloc ops (ncalls h) sz =? 0) with false by lia.
  twp_step. eapply H; try done. unfold planes_in. simpl.
  destruct (ePixelFormat v =? _); split_and!; unfold sz; lia.
Qed.

(** [v'] is the picture [v] with its planes in one new buffer of [hp']. *)
Definition laid (k w h : Z) (v : VideoPicture) (hp : Heap) (v' : VideoPicture) (hp' : Heap) : Prop :=
  exists sz, bufs hp' = (pData0 v', sz) :: bufs hp /\ ePixelFormat v' = ePixelFormat v /\
    w <= nLineStride v' < w + 2 ^ k /\ h <= nHeight v' < h + 2 ^ k /\
    (exists q, nLineStride v' = 2 ^ k * q) /\ (exists q, nHeight v' = 2 ^ k * q) /\
    planes_in v' (planar_chroma (ePixelFormat v) (nLineStride v' * nHeight v')) sz.

Lemma alloc_planar_laid ops v nAlign w h h16 hp k :
  0 < w <= 8192 -> 0 < h <= 8192 -> 0 <= k <= 10 -> effective nAlign = 2 ^ k ->
  (forall n sz, palloc ops n sz <> 0) -> (exists q, h16 = 2 ^ 4 * q) -> h <= h16 < h + 2 ^ 4 ->
  twp (alloc_planar ops v nAlign w h h16) (fun r hp' => exists v',
    r = (0, v', effective nAlign) /\ laid k w h v hp v' hp') hp.
Proof.
  intros Hw Hh Hk Ha Hp D16 B16. assert (2 ^ k <= 2 ^ 10) by (apply Z.pow_le_mono_r; lia).
  unfold alloc_planar, effective in *. cbv zeta.
  destruct (nAlign =? 0) eqn:En; twp_step.
  - assert (k = 4) as -> by (apply (Z.pow_inj_r 2); lia).
    apply (twp_align_mask w 4); [lia..|]. intros s Ds Bs. do 2 twp_step.
    apply planar_tail; [lia..|done|]. intros v' hp' sz E1 E2 E3 E4 E5 E6 E7.
    exists v'. split; [done|]. exists sz. rewrite E2, E3. split_and!; done || lia.
  - rewrite Ha. apply (twp_align_up w k); [lia..|]. intros s Ds Bs. twp_step.
    apply (twp_align_up h k); [lia..|]. intros t Dt Bt.
    apply planar_tail; [lia..|done|]. intros v' hp' sz E1 E2 E3 E4 E5 E6 E7.
    exists v'. split; [done|]. exists sz. rewrite E2, E3. split_and!; done || lia.
Qed.

(** For a planar pixel format, sizes up to 8192 and an alignment of 0 or a
    power of two up to 1024, [FbmAllocatePictureBuffer] does not overflow and
    succeeds when the adapter has memory: it allocates one buffer whose size is
    exactly that of the planes, the planes do not overlap and lie inside it, the
    line stride and height cover the picture and are multiples of the
    alignment, and the chrominance planes follow the pixel format. *)
Theorem fbm_planar_layout ops v nAlign w h hp k :
  planar (ePixelFormat v) = true -> 0 < w <= 8192 -> 0 < h <= 8192 -> 0 <= k <= 10 ->
  effective nAlign = 2 ^ k -> (forall n sz, palloc ops n sz <> 0) ->
  exists v' hp',
    FbmAllocatePictureBuffer ops v nAlign w h hp = Ok (0, v', effective nAlign) hp' /\
    laid k w h v hp v' hp'.
Proof.
  intros Hf Hw Hh Hk Ha Hp.
  cut (twp (FbmAllocatePictureBuffer ops v nAlign w h) (fun r hp' => exists v',
    r = (0, v', effective nAlign) /\ laid k w h v hp v' hp') hp).
  { intros T. destruct (twp_elim _ _ _ T) as (r & hp' & E & v' & -> & H'). eauto. }
  unfold FbmAllocatePictureBuffer. cbv zeta.
  set (v0 := v <| pData0 := 0 |> <| pData1 := 0 |> <| pData2 := 0 |> <| pData3 := 0 |>).
  twp_step. apply (twp_align_mask h 4); [lia..|]. intros h16 D16 B16.
  twp_step. apply (twp_align_mask h 5); [lia..|]. intros h32 _ _.
  twp_step. apply (twp_align_mask h 6); [lia..|]. intros h64 _ _.
  change (ePixelFormat v0) with (ePixelFormat v). rewrite Hf. twp_step.
  eapply twp_mono; [by apply (alloc_planar_laid ops v0 nAlign w h h16 hp k)|].
  intros r hp' (v' & -> & H). apply twp_ret. eexists. split; [reflexivity|].
  destruct H as (sz & H). exists sz.
  repeat match goal with |- context [if ?b then _ else _] =>
    lazymatch b with context [ve_get_phyaddr] => destruct b | context [pData0] => destruct b end end;
    exact H.
Qed.

Lemma fbm_planar_layout_witness : exists v' hp',
  FbmAllocatePictureBuffer demo_ops (zero_picture <| ePixelFormat := PIXEL_FORMAT_NV21 |>)
    0 1920 1080 (heap demo_world) = Ok (0, v', 16) hp' /\ nHeight v' = 1088.
Proof.
  destruct (fbm_planar_layout demo_ops (zero_picture <| ePixelFormat := PIXEL_FORMAT_NV21 |>)
    0 1920 1080 (heap demo_world) 4) as (v' & hp' & E & _); try done; try lia.
  - intros n sz. simpl. lia.
  - exists v', hp'. split; [exact E|]. vm_compute in E. simplify_eq. reflexivity.
Defined.

(** * Flaws *)

Definition node_flag (W : World) (w : side) (i : nat) : option FrameNodeFlag :=
  match slot w (info W) with
  | Some f => Flag <$> pFrames f !! i
  | None => None
  end.

Definition world_of {A} (r : res World A) : World :=
  match r with Ok _ W => W | _ => demo_world end.

Definition reshare_calls : list call :=
  [Request; Share 0; TakePicture; Share 0; TakePicture; ReturnPicture 0].

(** [FbmShareBuffer] does not test [bUsedByRender].  A decoder that shares a
    frame once more while the display shows it puts it on the valid queue; the
    next [FbmRequestPicture] takes it off, finds it in use, and drops it: the
    display gets nothing although one picture is counted as valid, and it can
    no longer return the frame it holds. *)
Theorem fbm_reshared_frame_is_lost :
  exists W, run_calls First reshare_calls demo_opened =
    Ok [Frame (Some 0%nat); NoReply; Frame (Some 0%nat); NoReply; Frame None; Code (-1)] W /\
    FbmValidPictureNum (Some First) W = Ok 1 W /\
    FbmNextPictureInfo (Some First) W = Ok PicNull W /\
    FbmGetRenderHoldingBufferNum (Some First) W = Ok 1 W.
Proof.
  exists (world_of (run_calls First reshare_calls demo_opened)).
  split_and!; vm_compute; reflexivity.
Qed.

(** A session with buffers of the display: a frame is shared and shown, the
    display asks for its buffers, the decoder returns the frame. *)
Definition release_session : M World picptr :=
  o ← FbmCreate demo_size demo_oks (demo_ci 1);
  FbmSetFbmBufAddress (PicOther (zero_picture <| pData0 := 4096 |> <| nBufId := 7 |>)) 0;;
  FbmRequestBuffer o;;
  FbmShareBuffer o (Pic First 0);;
  FbmRequestPicture o;;
  FbmSetNewDispRelease;;
  FbmReturnBuffer o (Pic First 0) 1;;
  FbmRequestReleasePicture.

(** [FbmReturnBuffer] queues a frame for release as soon as the decoder
    returns it, even when the display still shows it: the display is handed a
    buffer to release that it is using, the decoder's count of held buffers
    stays at one, and the picture the display holds can no longer be returned. *)
Theorem fbm_releases_frame_in_use :
  exists W, release_session demo_world = Ok (Pic First 0) W /\
    bUsedByRender <$> node_flag W First 0 = Some 1 /\
    FbmGetDecoderHoldingBufferNum (Some First) W = Ok 1 W /\
    exists W', FbmReturnPicture (Some First) (Pic First 0) W = Ok (-1) W'.
Proof.
  exists (world_of (release_session demo_world)).
  split_and!; [vm_compute; reflexivity..|].
  exists (world_of (FbmReturnPicture (Some First) (Pic First 0)
                      (world_of (release_session demo_world)))).
  vm_compute. reflexivity.
Qed.

End FbmLayout.
