(* ===== verification/MsgQueue.v ===== *)
(** The message queue between the threads of the decoder,
    [allwinner/libcedarc/base/CdcMessageQueue.c]: an array of nodes threaded into
    one list, guarded by a mutex, with a semaphore that counts messages.

    What a thread does while it holds the mutex is a function on the queue
    ([post_body], [get_body], [flush_body]); threads are programs that interleave
    at the calls of the mutex and the semaphore, as steps of [step].  Semaphore
    and mutex are those of POSIX.  [malloc] failures are a parameter. *)

From Stdlib Require Import ZArith Lia.
From stdpp Require Import base list list_numbers numbers.
From S2P Require Import Prelude Chain.

Open Scope Z_scope.

Module MsgQueue.

(** * Data *)

Record CdcMessage := mkMessage { messageId : Z; params : list Z }.

#[export] Instance message_eq_dec : EqDecision CdcMessage.
Proof. solve_decision. Defined.

(** [struct MessageNode]; [next] is the index of a node, [msg] what the node's
    block holds. *)
Record MessageNode := mkNode { next : option nat; valid : Z; msg : CdcMessage }.
#[export] Instance eta_node : Eta MessageNode := fun n => mkNode (next n) (valid n) (msg n).

(** [MessageQueueContext], less the name and the two synchronisation objects. *)
Record MessageQueueContext := mkCtx {
  pHead : option nat;
  nCount : Z;
  Nodes : list MessageNode;
  nMaxMessageNum : Z
}.
#[export] Instance eta_ctx : Eta MessageQueueContext := fun c =>
  mkCtx (pHead c) (nCount c) (Nodes c) (nMaxMessageNum c).

(** * What the mutex guards *)

(** The first node that is not in use, among the first [n]. *)
Fixpoint find_free (n : nat) (l : list MessageNode) : option nat :=
  match n, l with
  | S n, x :: l => if valid x =? 0 then Some 0%nat else S <$> find_free n l
  | _, _ => None
  end.

(** [while(ptr->next != NULL) ptr = ptr->next;] with a bound on the steps: a
    walk longer than the array is on a cycle and does not end. *)
Fixpoint walk (fuel : nat) (l : list MessageNode) (cur : nat) : option nat :=
  match fuel with
  | O => None
  | S fuel =>
      match l !! cur with
      | None => None
      | Some n => match next n with None => Some cur | Some j => walk fuel l j end
      end
  end.

Definition mod_node (i : nat) (f : MessageNode -> MessageNode) : M MessageQueueContext unit :=
  modify (fun c => c <| Nodes ::= alter f i |>).

(** [CdcMessageQueuePostMessage] between lock and unlock.  With no free node the
    code copies to a null pointer. *)
Definition post_body (m : CdcMessage) : M MessageQueueContext Z :=
  c ← get;
  if nCount c >=? nMaxMessageNum c then mret (-1)
  else
    node ← lift (find_free (Z.to_nat (nMaxMessageNum c)) (Nodes c));
    mod_node node (fun n => n <| msg := m |> <| valid := 1 |> <| next := None |>);;
    c ← get;
    (match pHead c with
     | None => modify (fun c => c <| pHead := Some node |>)
     | Some h =>
         ptr ← lift (walk (S (length (Nodes c))) (Nodes c) h);
         mod_node ptr (fun n => n <| next := Some node |>)
     end);;
    k ← iadd (nCount c) 1;
    modify (fun c => c <| nCount := k |>);;
    mret 0.

(** [CdcMessageQueueTryGetMessage] between lock and unlock: the message, or
    nothing (the code returns -1). *)
Definition get_body : M MessageQueueContext (option CdcMessage) :=
  c ← get;
  if nCount c <=? 0 then mret None
  else
    node ← lift (pHead c);
    n ← lift (Nodes c !! node);
    modify (fun c => c <| pHead := next n |>);;
    mod_node node (fun n => n <| valid := 0 |>);;
    k ← isub (nCount c) 1;
    modify (fun c => c <| nCount := k |>);;
    mret (Some (msg n)).

(** [CdcMessageQueueFlush] from the lock to the loop on the semaphore. *)
Definition flush_body : M MessageQueueContext unit :=
  c ← get;
  if Z.of_nat (length (Nodes c)) <? nMaxMessageNum c then undef
  else
    modify (fun c => c <| pHead := None |> <| nCount := 0 |>
      <| Nodes ::= fun l => map (fun n => n <| valid := 0 |>) (take (Z.to_nat (nMaxMessageNum c)) l)
                            ++ drop (Z.to_nat (nMaxMessageNum c)) l |>).

Definition CdcMessageQueueGetCount (c : MessageQueueContext) : Z := nCount c.

(** * Threads *)

(** Where a thread is in its call.  [Post m]: at the entry of
    [CdcMessageQueuePostMessage]; [Posting]: behind the unlock, before [sem_post].
    [Get]: in the [SemTimedWait] of [CdcMessageQueueTryGetMessage] (and
    [CdcMessageQueueGetMessage]), which may give up, by a timeout or a signal;
    [Getting]: past the semaphore.  [Wait], [Waiting]: the same in
    [CdcMessageQueueWaitMessage]; [Counting]: behind its [sem_post].  [Flush]: at its
    entry; [Draining]: at the top of the loop, with the mutex; [Taking]: before
    [sem_trywait]. *)
Inductive thread :=
| Post (m : CdcMessage) | Posting
| Get | Getting
| Wait | Waiting | Counting
| Flush | Draining | Taking
| Done.

Record world := mkWorld {
  ctx : MessageQueueContext;
  sem : Z;
  locked : bool;
  threads : list thread
}.

(** What a step does to the outside. *)
Inductive event :=
| Posted (m : CdcMessage)   (* a message was accepted *)
| Refused (m : CdcMessage)  (* the queue was full: -1 *)
| Got (m : CdcMessage)      (* a message was returned: 0 *)
| GotNone                   (* past the semaphore, but no message: -1 *)
| GaveUp                    (* the semaphore wait failed: -1 *)
| Counted (n : Z)           (* [CdcMessageQueueWaitMessage] returned the count *)
| Flushed.                  (* the messages were dropped *)

(** One step of one thread, or a new call. *)
Inductive step : world -> option event -> world -> Prop :=
| s_call c k l ts t :
    match t with Post _ | Get | Wait | Flush => True | _ => False end ->
    step (mkWorld c k l ts) None (mkWorld c k l (ts ++ [t]))
| s_post c k ts i m c' :
    ts !! i = Some (Post m) -> post_body m c = Ok 0 c' ->
    step (mkWorld c k false ts) (Some (Posted m)) (mkWorld c' k false (<[i := Posting]> ts))
| s_refuse c k ts i m c' :
    ts !! i = Some (Post m) -> post_body m c = Ok (-1) c' ->
    step (mkWorld c k false ts) (Some (Refused m)) (mkWorld c' k false (<[i := Done]> ts))
| s_sem_post c k l ts i :
    ts !! i = Some Posting -> step (mkWorld c k l ts) None (mkWorld c (k + 1) l (<[i := Done]> ts))
| s_get_wait c k l ts i :
    ts !! i = Some Get -> 0 < k ->
    step (mkWorld c k l ts) None (mkWorld c (k - 1) l (<[i := Getting]> ts))
| s_get_give_up c k l ts i :
    ts !! i = Some Get ->
    step (mkWorld c k l ts) (Some GaveUp) (mkWorld c k l (<[i := Done]> ts))
| s_get c k ts i m c' :
    ts !! i = Some Getting -> get_body c = Ok (Some m) c' ->
    step (mkWorld c k false ts) (Some (Got m)) (mkWorld c' k false (<[i := Done]> ts))
| s_get_none c k ts i c' :
    ts !! i = Some Getting -> get_body c = Ok None c' ->
    step (mkWorld c k false ts) (Some GotNone) (mkWorld c' k false (<[i := Done]> ts))
| s_wait c k l ts i :
    ts !! i = Some Wait -> 0 < k ->
    step (mkWorld c k l ts) None (mkWorld c (k - 1) l (<[i := Waiting]> ts))
| s_wait_give_up c k l ts i :
    ts !! i = Some Wait ->
    step (mkWorld c k l ts) (Some GaveUp) (mkWorld c k l (<[i := Done]> ts))
| s_wait_post c k l ts i :
    ts !! i = Some Waiting ->
    step (mkWorld c k l ts) None (mkWorld c (k + 1) l (<[i := Counting]> ts))
| s_wait_count c k l ts i :
    ts !! i = Some Counting ->
    step (mkWorld c k l ts) (Some (Counted (nCount c))) (mkWorld c k l (<[i := Done]> ts))
| s_flush c k ts i c' :
    ts !! i = Some Flush -> flush_body c = Ok tt c' ->
    step (mkWorld c k false ts) (Some Flushed) (mkWorld c' k true (<[i := Draining]> ts))
| s_drain_more c k l ts i :
    ts !! i = Some Draining -> k <> 0 ->
    step (mkWorld c k l ts) None (mkWorld c k l (<[i := Taking]> ts))
| s_drain_take c k l ts i :
    ts !! i = Some Taking ->
    step (mkWorld c k l ts) None
      (mkWorld c (if 0 <? k then k - 1 else k) l (<[i := Draining]> ts))
| s_drain_end c l ts i :
    ts !! i = Some Draining -> step (mkWorld c 0 l ts) None (mkWorld c 0 false (<[i := Done]> ts)).

(** Runs, with the events in order. *)
Inductive run : world -> list event -> world -> Prop :=
| run_nil w : run w [] w
| run_step w1 o w2 l w3 :
    step w1 o w2 -> run w2 l w3 -> run w1 (match o with Some e => e :: l | None => l end) w3.

(** * Creation and destruction *)

(** The allocator: the number of live blocks, and of calls so far. *)
Record heap := mkHeap { blocks : Z; calls : nat }.
#[export] Instance eta_heap : Eta heap := fun h => mkHeap (blocks h) (calls h).

(** A created queue: the context, and whether it has a copy of its name. *)
Record queue := mkQueue { q_ctx : MessageQueueContext; q_name : bool }.

Section memory.
Context (oom : nat -> bool).

(** [malloc], [calloc] and [strdup]: whether they return a block. *)
Definition alloc : M heap bool :=
  h ← get;
  modify (fun h => h <| calls ::= S |>);;
  if oom (calls h) then mret false else modify (fun h => h <| blocks ::= Z.add 1 |>);; mret true.

Definition free : M heap unit := modify (fun h => h <| blocks ::= Z.add (-1) |>).
Definition free_if (b : bool) : M heap unit := if b then free else mret tt.

Fixpoint repeatM (n : nat) (m : M heap unit) : M heap unit :=
  match n with O => mret tt | S n => m;; repeatM n m end.

Definition empty_message : CdcMessage := mkMessage 0 [0; 0; 0; 0].

(** The loop over the nodes, from [i] on; on failure the blocks of the nodes
    before are freed. *)
Fixpoint alloc_nodes (n i : nat) : M heap bool :=
  match n with
  | O => mret true
  | S n =>
      ok ← alloc;
      if (ok : bool) then alloc_nodes n (S i) else repeatM i free;; mret false
  end.

(** [calloc] of a negative number of nodes fails. *)
Definition CdcMessageQueueCreate (max : Z) (pName : bool) : M heap (option queue) :=
  ok ← alloc;
  if negb ok then mret None
  else
    name ← (if (pName : bool) then alloc else mret false);
    ok ← (if 0 <=? max then alloc else mret false);
    if negb ok then free_if name;; free;; mret None
    else
      ok ← alloc_nodes (Z.to_nat max) 0;
      if negb ok then free_if name;; free;; free;; mret None
      else mret (Some (mkQueue
        (mkCtx None 0 (repeat (mkNode None 0 empty_message) (Z.to_nat max)) max) name)).

Definition CdcMessageQueueDestroy (q : queue) : M heap unit :=
  repeatM (Z.to_nat (nMaxMessageNum (q_ctx q))) free;;
  free;; free_if (q_name q);; free.
End memory.

(** * Timeouts *)

(** [SemTimedWait] for a timeout other than -1: the absolute time it passes to
    [sem_timedwait], from the current time; the arithmetic of C division. *)
Definition deadline (sec nsec time_ms : Z) : Z * Z :=
  let nsec := nsec + Z.rem time_ms 1000 * 1000 * 1000 in
  let sec := sec + (Z.quot time_ms 1000 + Z.quot nsec (1000 * 1000 * 1000)) in
  (sec, Z.rem nsec (1000 * 1000 * 1000)).

End MsgQueue.
