(* ===== verification/MsgQueueSpec.v ===== *)
(** What the message queue promises: every interleaving of its callers is one of
    a bounded FIFO queue, no wake-up is lost, and memory is balanced; and what
    [CdcMessageQueueFlush] breaks. *)

From Stdlib Require Import ZArith Lia.
From stdpp Require Import base list list_numbers numbers sets.
From S2P Require Import Prelude Chain MsgQueue.

Open Scope Z_scope.

Module MsgQueueSpec.
Import Chain MsgQueue.

(** * The queue as a list *)

Definition links (ns : list MessageNode) : list (option nat) := next <$> ns.

Definition data (ns : list MessageNode) : list (Z * CdcMessage) := (fun n => (valid n, msg n)) <$> ns.

(** [c] holds the messages [ms], in the nodes [l]. *)
Record qrep (c : MessageQueueContext) (l : list nat) (ms : list CdcMessage) : Prop := mkRep {
  q_chain : chain (links (Nodes c)) (pHead c) l;
  q_nodup : NoDup l;
  q_msgs : Forall2 (fun i m => exists v, data (Nodes c) !! i = Some (v, m) /\ v <> 0) l ms;
  q_free : forall i v m, data (Nodes c) !! i = Some (v, m) -> v <> 0 -> i ∈ l;
  q_count : nCount c = Z.of_nat (length ms);
  q_max : nMaxMessageNum c = Z.of_nat (length (Nodes c)) /\ nMaxMessageNum c < 2 ^ 31
}.

Lemma qrep_length c l ms : qrep c l ms -> length l = length ms /\ (length ms <= length (Nodes c))%nat.
Proof.
  intros [C Nd F _ _ _]. pose proof (Forall2_length _ _ _ F) as L. split; [done|]. rewrite <- L.
  apply NoDup_bounded_length; [done|]. intros i Hi. pose proof (chain_bound _ _ _ _ C Hi) as B.
  unfold links in B. by rewrite length_fmap in B.
Qed.

(** A node is free as long as the queue is not full. *)
Lemma find_free_ok ns : forall l, (forall i v m, data ns !! i = Some (v, m) -> v <> 0 -> i ∈ l) ->
  NoDup l -> (length l < length ns)%nat ->
  exists i m, find_free (length ns) ns = Some i /\ data ns !! i = Some (0, m).
Proof.
  induction ns as [|x ns IH]; intros l H Nd Hl; [simpl in Hl; lia|]. cbn [length find_free].
  destruct (valid x =? 0) eqn:Ev; [exists 0%nat, (msg x); split; [done|]; simpl; do 2 f_equal; lia|].
  destruct (IH (pred <$> (filter (fun i => i <> 0%nat) l))) as (i & n & E & Hi).
  - intros i v n Hi Hv. apply list_elem_of_fmap. exists (S i). split; [done|].
    apply list_elem_of_filter. split; [done|]. by apply (H (S i) v n).
  - apply NoDup_fmap_2_strong; [|by apply NoDup_filter].
    intros a b Ha Hb. apply list_elem_of_filter in Ha as [Ha _], Hb as [Hb _]. lia.
  - rewrite length_fmap. assert (0%nat ∈ l) as H0 by (apply (H 0%nat (valid x) (msg x)); [done|lia]).
    assert (length (filter (fun i => i <> 0%nat) l) < length l)%nat; [|simpl in Hl; lia].
    apply list_elem_of_split in H0 as (l1 & l2 & ->).
    rewrite filter_app, filter_cons_False, !length_app by (by intros []). simpl.
    pose proof (length_filter (fun i => i <> 0%nat) l1). pose proof (length_filter (fun i => i <> 0%nat) l2).
    lia.
  - exists (S i), n. rewrite E. done.
Qed.

(** The walk to the end of the list ends, at its last node. *)
Lemma walk_last fuel ns h l :
  chain (links ns) (Some h) l -> (length l <= fuel)%nat -> walk fuel ns h = list.last l.
Proof.
  revert h l. induction fuel as [|fuel IH]; intros h l C Hf.
  - destruct l; [done|]. simpl in Hf. lia.
  - destruct l as [|i l]; [done|]. destruct C as (Eh & nx & E & C). simplify_eq.
    unfold links in E. rewrite list_lookup_fmap in E.
    simpl. destruct (ns !! i) as [n|]; [|done]. simpl in E. simplify_eq.
    destruct l as [|j l].
    + simpl in C. by rewrite C.
    + simpl in Hf. assert (next n = Some j) as En by (by destruct C).
      rewrite En in *. rewrite (IH j (j :: l)); [done|done|simpl; lia].
Qed.

Lemma links_alter i v ns f : (forall n, next (f n) = v) -> (i < length ns)%nat ->
  links (alter f i ns) = <[i := v]> (links ns).
Proof.
  intros Hf Hi. unfold links. apply list_eq. intros k. rewrite list_lookup_fmap.
  destruct (decide (k = i)) as [->|].
  - rewrite list_lookup_alter_eq, list_lookup_insert_eq by by rewrite length_fmap.
    destruct (lookup_lt_is_Some_2 _ _ Hi) as [n ->]. simpl. by rewrite Hf.
  - by rewrite list_lookup_alter_ne, list_lookup_insert_ne, list_lookup_fmap by done.
Qed.

Lemma links_same i ns f : (forall n, next (f n) = next n) -> links (alter f i ns) = links ns.
Proof.
  intros Hf. unfold links. apply list_eq. intros k. rewrite !list_lookup_fmap.
  destruct (decide (k = i)) as [->|].
  - rewrite list_lookup_alter_eq. destruct (ns !! i); simpl; by rewrite ?Hf.
  - by rewrite list_lookup_alter_ne by done.
Qed.

Lemma data_alter i ns f n : ns !! i = Some n ->
  data (alter f i ns) = <[i := (valid (f n), msg (f n))]> (data ns).
Proof.
  intros Hn. pose proof (lookup_lt_Some _ _ _ Hn). unfold data. apply list_eq. intros k.
  rewrite list_lookup_fmap. destruct (decide (k = i)) as [->|].
  - rewrite list_lookup_alter_eq, list_lookup_insert_eq by by rewrite length_fmap. by rewrite Hn.
  - by rewrite list_lookup_alter_ne, list_lookup_insert_ne, list_lookup_fmap by done.
Qed.

Lemma data_same i ns f : (forall n, (valid (f n), msg (f n)) = (valid n, msg n)) ->
  data (alter f i ns) = data ns.
Proof.
  intros Hf. unfold data. apply list_eq. intros k. rewrite !list_lookup_fmap.
  destruct (decide (k = i)) as [->|].
  - rewrite list_lookup_alter_eq. destruct (ns !! i); simpl; by rewrite ?Hf.
  - by rewrite list_lookup_alter_ne by done.
Qed.

Definition holds (d : list (Z * CdcMessage)) (i : nat) (m : CdcMessage) : Prop :=
  exists v, d !! i = Some (v, m) /\ v <> 0.

Lemma holds_insert d i x l ms : i ∉ l -> Forall2 (holds d) l ms -> Forall2 (holds (<[i := x]> d)) l ms.
Proof.
  intros Hi F. induction F as [|k m l ms (v & Hk & Hv) F IH]; [constructor|].
  apply not_elem_of_cons in Hi as [Hn Hi]. constructor; [|by apply IH].
  exists v. by rewrite list_lookup_insert_ne.
Qed.

(** One more node at the end. *)
Lemma qrep_snoc c l ms i m h ns : qrep c l ms -> i ∉ l -> (i < length (Nodes c))%nat ->
  chain (links ns) h (l ++ [i]) -> data ns = <[i := (1, m)]> (data (Nodes c)) ->
  length ns = length (Nodes c) ->
  qrep (mkCtx h (nCount c + 1) ns (nMaxMessageNum c)) (l ++ [i]) (ms ++ [m]).
Proof.
  intros [C Nd F Fr Cn [Mx Mb]] Hi Bi C' Hd Hl.
  assert (i < length (data (Nodes c)))%nat as Bd by (unfold data; by rewrite length_fmap).
  split; cbn [pHead nCount Nodes nMaxMessageNum].
  - done.
  - apply list.NoDup_app. split_and!; [done| |apply NoDup_singleton].
    intros k Hk ->%list_elem_of_singleton. done.
  - rewrite Hd. apply Forall2_app.
    + by apply holds_insert.
    + constructor; [|constructor]. exists 1. split; [by apply list_lookup_insert_eq|done].
  - intros k v m' Hk Hv. rewrite Hd in Hk. apply elem_of_app. destruct (decide (k = i)) as [->|Hn].
    + right. by apply list_elem_of_singleton.
    + left. rewrite list_lookup_insert_ne in Hk by done. by apply (Fr k v m').
  - rewrite length_app. simpl. lia.
  - split; [by rewrite Hl|done].
Qed.

(** Linking the new node [i] behind the last one. *)
Lemma link_ok c l i N1 : chain (links (Nodes c)) (pHead c) l -> NoDup l -> i ∉ l ->
  (i < length (Nodes c))%nat -> links N1 = <[i := None]> (links (Nodes c)) ->
  length N1 = length (Nodes c) ->
  exists c2, (match pHead c with
     | None => modify (fun c => c <| pHead := Some i |>)
     | Some h =>
         ptr ← lift (walk (S (length N1)) N1 h);
         mod_node ptr (fun n => n <| next := Some i |>)
     end) (c <| Nodes := N1 |>) = Ok tt c2 /\ nCount c2 = nCount c /\
     nMaxMessageNum c2 = nMaxMessageNum c /\ chain (links (Nodes c2)) (pHead c2) (l ++ [i]) /\
     data (Nodes c2) = data N1 /\ length (Nodes c2) = length N1.
Proof.
  intros C Nd Hil Bi Hl1 Hn1.
  assert (forall k, (k < length (links (Nodes c)))%nat <-> (k < length N1)%nat) as Hb
    by (intros k; unfold links; by rewrite length_fmap, Hn1).
  destruct (pHead c) as [h|] eqn:Eh.
  - destruct l as [|j l]; [done|]. assert (h = j) as -> by (destruct C; congruence).
    assert (chain (links N1) (Some j) (j :: l)) as C1 by (rewrite Hl1; by apply chain_insert).
    destruct (list.last (j :: l)) as [z|] eqn:Ez; [|by apply last_None in Ez].
    assert (z ∈ j :: l) as Hz by (by apply last_Some_elem_of).
    assert (length (j :: l) <= length N1)%nat as Hle.
    { apply NoDup_bounded_length; [done|]. intros k Hk. apply Hb. by eapply chain_bound. }
    assert (z < length N1)%nat as Bz by (apply Hb; by eapply chain_bound).
    eexists. split; [eapply bind_ok; [apply lift_ok; rewrite (walk_last _ _ _ (j :: l));
      [exact Ez|done|lia]|reflexivity]|].
    split; [done|]. split; [done|]. split; [|split].
    + change (chain (links (alter (fun n => n <| next := Some i |>) z N1)) (pHead c) ((j :: l) ++ [i])).
      rewrite (links_alter _ (Some i)), Hl1, Eh by done. rewrite list_insert_insert_ne by (intros ->; done).
      eapply chain_snoc; [exact C|by apply list.NoDup_cons|done|]. apply Hb. lia.
    + by apply data_same.
    + apply length_alter.
  - destruct l as [|j l]; [|by destruct C]. eexists. split; [reflexivity|]. simpl. split_and!; try done.
    exists None. split; [|done]. rewrite Hl1. apply list_lookup_insert_eq. apply Hb. lia.
Qed.

(** A full queue refuses; otherwise the message is appended. *)
Lemma mq_post_ok c l ms m : qrep c l ms ->
  if Z.of_nat (length ms) =? nMaxMessageNum c then post_body m c = Ok (-1) c
  else exists c' i, post_body m c = Ok 0 c' /\ qrep c' (l ++ [i]) (ms ++ [m]) /\
    nMaxMessageNum c' = nMaxMessageNum c.
Proof.
  intros R. destruct (qrep_length _ _ _ R) as [Ll Lm].
  pose proof R as [C Nd F Fr Cn [Mx Mb]]. unfold post_body.
  destruct (Z.of_nat (length ms) =? nMaxMessageNum c) eqn:Ef.
  { apply Z.eqb_eq in Ef. eapply bind_ok; [reflexivity|]. by rewrite Cn, Ef, Z.geb_leb, Z.leb_refl. }
  apply Z.eqb_neq in Ef. destruct (find_free_ok (Nodes c) l Fr Nd) as (i & m0 & Ei & Hi); [lia|].
  assert (i ∉ l) as Hil.
  { intros Hin. apply list_elem_of_lookup_1 in Hin as [k Hk].
    destruct (Forall2_lookup_l _ _ _ _ _ F Hk) as (m' & _ & v' & Hn' & Hv'). congruence. }
  assert (i < length (Nodes c))%nat as Bi
    by (apply lookup_lt_Some in Hi; unfold data in Hi; by rewrite length_fmap in Hi).
  set (f := fun n : MessageNode => n <| msg := m |> <| valid := 1 |> <| next := None |>).
  set (N1 := alter f i (Nodes c)).
  assert (links N1 = <[i := None]> (links (Nodes c))) as Hl1 by by apply links_alter.
  assert (data N1 = <[i := (1, m)]> (data (Nodes c))) as Hd1
    by (destruct (lookup_lt_is_Some_2 _ _ Bi) as [n0 Hn0]; exact (data_alter i _ f n0 Hn0)).
  assert (length N1 = length (Nodes c)) as Hn1 by apply length_alter.
  destruct (link_ok c l i N1 C Nd Hil Bi Hl1 Hn1) as (c2 & E2 & Hc2 & Hm2 & Ch2 & Hd2 & Hn2).
  exists (c2 <| nCount := nCount c + 1 |>), i. split.
  - eapply bind_ok; [reflexivity|]. replace (nCount c >=? nMaxMessageNum c) with false by lia.
    eapply bind_ok; [apply lift_ok; rewrite Mx, Nat2Z.id; exact Ei|].
    eapply bind_ok; [reflexivity|]. eapply bind_ok; [reflexivity|]. cbv zeta.
    eapply bind_ok; [exact E2|]. eapply bind_ok; [apply iadd_ok; simpl; lia|]. done.
  - split; [|done]. destruct c2 as [h2 k2 n2 x2]. simpl in *. subst.
    apply (qrep_snoc c l ms i m h2 n2 R); [done|done|done|congruence|congruence].
Qed.

(** An empty queue gives nothing; otherwise the first message is taken. *)
Lemma mq_get_ok c l ms : qrep c l ms ->
  match ms with
  | [] => get_body c = Ok None c
  | m :: ms' => exists c' l', get_body c = Ok (Some m) c' /\ qrep c' l' ms' /\
      nMaxMessageNum c' = nMaxMessageNum c
  end.
Proof.
  intros R. destruct (qrep_length _ _ _ R) as [Ll Lm]. pose proof R as [C Nd F Fr Cn [Mx Mb]].
  unfold get_body. destruct ms as [|m ms].
  { eapply bind_ok; [reflexivity|]. by rewrite Cn. }
  destruct l as [|i l]; [done|]. destruct C as (Eh & nx & Ei & C).
  apply list.NoDup_cons in Nd as [Hil Nd]. apply Forall2_cons in F as [(v & Hv & Hv0) F].
  simpl length in Cn, Lm.
  unfold data in Hv. rewrite list_lookup_fmap in Hv. destruct (Nodes c !! i) as [n|] eqn:Hn; [|done].
  simpl in Hv. simplify_eq. unfold links in Ei. rewrite list_lookup_fmap, Hn in Ei. simpl in Ei. simplify_eq.
  pose proof (lookup_lt_Some _ _ _ Hn) as Bi.
  set (N1 := alter (fun n : MessageNode => n <| valid := 0 |>) i (Nodes c)).
  assert (length N1 = length (Nodes c)) as Hn1 by apply length_alter.
  exists (mkCtx (next n) (nCount c - 1) N1 (nMaxMessageNum c)), l. split_and!; [|split|done].
  - eapply bind_ok; [reflexivity|]. replace (nCount c <=? 0) with false by lia.
    eapply bind_ok; [by apply lift_ok|]. eapply bind_ok; [by apply lift_ok|].
    eapply bind_ok; [reflexivity|]. eapply bind_ok; [reflexivity|].
    eapply bind_ok; [apply isub_ok; simpl; lia|]. by destruct c.
  - simpl. unfold N1. rewrite links_same by done. done.
  - done.
  - simpl. unfold N1. rewrite (data_alter _ _ _ _ Hn). by apply holds_insert.
  - simpl. intros k v m Hk Hv. unfold N1 in Hk. rewrite (data_alter _ _ _ _ Hn) in Hk.
    destruct (decide (k = i)) as [->|Hki].
    + rewrite list_lookup_insert_eq in Hk by (unfold data; by rewrite length_fmap).
      by injection Hk as <- _.
    + rewrite list_lookup_insert_ne in Hk by done. specialize (Fr k v m Hk Hv). set_solver.
  - simpl. lia.
  - simpl. by rewrite Hn1.
Qed.

Lemma mq_flush_ok c l ms : qrep c l ms -> exists c', flush_body c = Ok tt c' /\ qrep c' [] [] /\
  nMaxMessageNum c' = nMaxMessageNum c.
Proof.
  intros [C Nd F Fr Cn [Mx Mb]]. unfold flush_body.
  eexists. split; [eapply bind_ok; [reflexivity|]; rewrite Mx, Z.ltb_irrefl; reflexivity|].
  split; [|done]. split; simpl; try done; try constructor.
  - intros i v m Hi Hv. rewrite Mx, Nat2Z.id, firstn_all, skipn_all, app_nil_r in Hi. unfold data in Hi.
    rewrite <- list_fmap_compose in Hi. apply list_lookup_fmap_Some in Hi as (n & Hp & _). by injection Hp as -> _.
  - rewrite Mx, Nat2Z.id, firstn_all, skipn_all, app_nil_r. by rewrite length_map.
  - done.
Qed.

(** * The specification *)

(** What the events say of a bounded queue. *)
Definition accept (n : Z) (ms : list CdcMessage) (e : event) : option (list CdcMessage) :=
  match e with
  | Posted m => if Z.of_nat (length ms) <? n then Some (ms ++ [m]) else None
  | Refused _ => if Z.of_nat (length ms) =? n then Some ms else None
  | Got m => match ms with m' :: ms' => if decide (m = m') then Some ms' else None | [] => None end
  | GotNone => match ms with [] => Some [] | _ => None end
  | Counted k => if (0 <=? k) && (k <=? n) then Some ms else None
  | GaveUp => Some ms
  | Flushed => Some []
  end.
Fixpoint accepts (n : Z) (ms : list CdcMessage) (tr : list event) : option (list CdcMessage) :=
  match tr with
  | [] => Some ms
  | e :: tr => match accept n ms e with Some ms => accepts n ms tr | None => None end
  end.

(** A fresh queue of [n] nodes, with no caller yet. *)
Definition start (n : nat) : world :=
  mkWorld (mkCtx None 0 (repeat (mkNode None 0 empty_message) n) (Z.of_nat n)) 0 false [].

Lemma start_rep n : Z.of_nat n < 2 ^ 31 -> qrep (ctx (start n)) [] [].
Proof.
  intros Hn. split; simpl; try done; try constructor.
  - intros i v m Hi Hv. unfold data in Hi. apply list_lookup_fmap_Some in Hi as (x & Hp & Hx).
    apply list_elem_of_lookup_2, list_elem_of_In, repeat_spec in Hx as ->. by injection Hp as -> _.
  - by rewrite repeat_length.
  - done.
Qed.

(** A step keeps a representation, and its event is one of the bounded queue. *)
Lemma step_ok w o w' l ms n : step w o w' -> qrep (ctx w) l ms -> nMaxMessageNum (ctx w) = n ->
  exists l' ms', qrep (ctx w') l' ms' /\ nMaxMessageNum (ctx w') = n /\
    match o with Some e => accept n ms e | None => Some ms end = Some ms'.
Proof.
  intros St R Hn. destruct (qrep_length _ _ _ R) as [_ Lm]. pose proof (q_max _ _ _ R) as [Mx _].
  destruct St; cbn [ctx] in *; try (by exists l, ms).
  - pose proof (mq_post_ok _ _ _ m R) as P. destruct (_ =? _) eqn:Ef; [congruence|].
    destruct P as (c2 & i' & E & R' & Hm). assert (c' = c2) as -> by congruence.
    exists (l ++ [i']), (ms ++ [m]). split; [done|]. split; [congruence|]. simpl.
    replace (_ <? n) with true by lia. done.
  - pose proof (mq_post_ok _ _ _ m R) as P. destruct (_ =? _) eqn:Ef.
    + assert (c' = c) as -> by congruence. exists l, ms. split; [done|]. split; [done|]. simpl.
      rewrite <- Hn. by rewrite Ef.
    + destruct P as (c2 & i' & E & _). congruence.
  - pose proof (mq_get_ok _ _ _ R) as P. destruct ms as [|m' ms]; [congruence|].
    destruct P as (c2 & l' & E & R' & Hm). assert (c' = c2 /\ m = m') as [-> ->] by (split; congruence).
    exists l', ms. split; [done|]. split; [congruence|]. simpl. by rewrite decide_True.
  - pose proof (mq_get_ok _ _ _ R) as P. destruct ms as [|m' ms]; [|destruct P as (c2 & l' & E & _); congruence].
    assert (c' = c) as -> by congruence. by exists l, [].
  - exists l, ms. split; [done|]. split; [done|]. simpl. rewrite (q_count _ _ _ R).
    rewrite (proj2 (andb_true_iff _ _)); [done|]. rewrite !Z.leb_le. lia.
  - destruct (mq_flush_ok _ _ _ R) as (c2 & E & R' & Hm). assert (c' = c2) as -> by congruence.
    exists [], []. split; [done|]. split; [congruence|done].
Qed.

Lemma msgq_state n tr w : Z.of_nat n < 2 ^ 31 -> run (start n) tr w ->
  exists l ms, qrep (ctx w) l ms /\ accepts (Z.of_nat n) [] tr = Some ms.
Proof.
  intros Hn R. pose proof (start_rep n Hn) as Q.
  assert (nMaxMessageNum (ctx (start n)) = Z.of_nat n) as Hm by done.
  revert Q Hm. generalize (@nil nat) as l. generalize (@nil CdcMessage) as ms.
  induction R as [w|w1 o w2 tr w3 St R IH]; intros ms l Q Hm; [by exists l, ms|].
  destruct (step_ok _ _ _ _ _ _ St Q Hm) as (l' & ms' & Q' & Hm' & Ha).
  destruct (IH ms' l' Q' Hm') as (l3 & ms3 & Q3 & A3). exists l3, ms3. split; [done|].
  destruct o as [e|]; simpl; [by rewrite Ha|]. by simplify_eq.
Qed.

(** C7: every interleaving of any number of callers (posting, getting, waiting,
    flushing, giving up) behaves as one bounded FIFO queue: messages come out in
    the order they were accepted, none twice and none lost except by a flush,
    posting is refused only when the queue is full; and no caller at the mutex
    meets undefined behaviour. *)
Theorem msgq_linearizable n tr w :
  Z.of_nat n < 2 ^ 31 -> run (start n) tr w ->
  exists l ms, qrep (ctx w) l ms /\ accepts (Z.of_nat n) [] tr = Some ms /\
    (forall m, exists r c, post_body m (ctx w) = Ok r c) /\
    (exists r c, get_body (ctx w) = Ok r c) /\ (exists c, flush_body (ctx w) = Ok tt c).
Proof.
  intros Hn R. destruct (msgq_state n tr w Hn R) as (l & ms & Q & A).
  exists l, ms. split; [done|]. split; [done|]. split_and!.
  - intros m. pose proof (mq_post_ok _ _ _ m Q) as P. destruct (_ =? _); [eauto|]. destruct P as (c' & i & E & _). eauto.
  - pose proof (mq_get_ok _ _ _ Q) as P. destruct ms; [eauto|]. destruct P as (c' & l' & E & _). eauto.
  - destruct (mq_flush_ok _ _ _ Q) as (c' & E & _). eauto.
Qed.

(** * The semaphore *)

(** A caller between the queue and the semaphore. *)
Definition pending (t : thread) : Z := match t with Posting | Getting | Waiting => 1 | _ => 0 end.

Lemma zsum_insert {A} (f : A -> Z) ts i t t' : ts !! i = Some t ->
  zsum f (<[i := t']> ts) = zsum f ts - f t + f t'.
Proof.
  revert i. induction ts as [|x ts IH]; intros [|i] H; simplify_eq/=; [lia|].
  specialize (IH i H). lia.
Qed.

Lemma zsum_member {A} (f : A -> Z) ts i t : (forall x, 0 <= f x) -> ts !! i = Some t -> f t <= zsum f ts.
Proof.
  intros Hf. revert i. induction ts as [|x ts IH]; intros [|i] H; simplify_eq/=.
  - pose proof (zsum_nonneg f ts ltac:(apply List.Forall_forall; intros; apply Hf)). lia.
  - specialize (IH i H). specialize (Hf x). lia.
Qed.

Lemma pending_nonneg t : 0 <= pending t.
Proof. destruct t; simpl; lia. Qed.

(** As long as nobody flushes, every message has its count in the semaphore or a
    caller under way. *)
Definition balanced (w : world) : Prop :=
  nCount (ctx w) = sem w + zsum pending (threads w) /\ 0 <= sem w /\
  Forall (fun t => t <> Draining /\ t <> Taking) (threads w).

Lemma balanced_step w o w' l ms : step w o w' -> qrep (ctx w) l ms -> balanced w ->
  o <> Some Flushed -> balanced w' /\ o <> Some GotNone.
Proof.
  intros St R (Hc & Hs & Hf) Ho. pose proof (q_count _ _ _ R) as Cn.
  assert (forall ts i t, Forall (fun t => t <> Draining /\ t <> Taking) ts -> t <> Draining -> t <> Taking ->
    Forall (fun t => t <> Draining /\ t <> Taking) (<[i := t]> ts)) as Ins by (intros; by apply Forall_insert).
  destruct St as [? ? ? ? t Ht|? ? ? ? m ? Hi Hb|? ? ? ? m ? Hi Hb| | | |? ? ? ? m ? Hi Hb|? ? ? i ? Hi Hb| | | | |? ? ? ? ? ? ?|? ? ? ? ? Hi|? ? ? ? ? Hi|? ? ? ? Hi];
    cbn [ctx sem threads] in *; try done;
    try (exfalso; apply (proj1 (Forall_lookup _ _) Hf) in Hi; by destruct Hi);
    try (split; [|done]; unfold balanced; cbn [ctx sem threads];
      match goal with H : _ !! _ = Some _ |- _ => rewrite (zsum_insert _ _ _ _ _ H) end;
      cbn [pending]; split_and!; [lia|lia|by apply Ins]).
  - split; [|done]. unfold balanced. cbn [ctx sem threads]. rewrite zsum_app. cbn [zsum foldr].
    split_and!; [destruct t; simpl in *; try done; lia|done|].
    apply Forall_app. split; [done|]. constructor; [|constructor]. by destruct t.
  - pose proof (mq_post_ok _ _ _ m R) as P. destruct (_ =? _); [congruence|].
    destruct P as (c2 & i' & E & R' & _). assert (c' = c2) as -> by congruence.
    pose proof (q_count _ _ _ R') as Cn'. rewrite length_app in Cn'. simpl in Cn'.
    split; [|done]. unfold balanced. cbn [ctx sem threads]. rewrite (zsum_insert _ _ _ _ _ Hi).
    cbn [pending]. split_and!; [lia|lia|by apply Ins].
  - pose proof (mq_post_ok _ _ _ m R) as P. destruct (_ =? _); [|destruct P as (c2 & i' & E & _); congruence].
    assert (c' = c) as -> by congruence.
    split; [|done]. unfold balanced. cbn [ctx sem threads]. rewrite (zsum_insert _ _ _ _ _ Hi).
    cbn [pending]. split_and!; [lia|lia|by apply Ins].
  - pose proof (mq_get_ok _ _ _ R) as P. destruct ms as [|m' ms]; [congruence|].
    destruct P as (c2 & l' & E & R' & _). assert (c' = c2) as -> by congruence.
    pose proof (q_count _ _ _ R') as Cn'. simpl length in Cn.
    split; [|done]. unfold balanced. cbn [ctx sem threads]. rewrite (zsum_insert _ _ _ _ _ Hi).
    cbn [pending]. split_and!; [lia|lia|by apply Ins].
  - exfalso. pose proof (mq_get_ok _ _ _ R) as P. pose proof (zsum_member pending _ _ _ pending_nonneg Hi) as Z1.
    simpl in Z1. destruct ms as [|m' ms]; [simpl in Cn; lia|]. destruct P as (c2 & l' & E & _). congruence.
Qed.

(** The messages a run accepts and delivers. *)
Definition posted (tr : list event) : list CdcMessage :=
  omap (fun e => match e with Posted m => Some m | _ => None end) tr.
Definition got (tr : list event) : list CdcMessage :=
  omap (fun e => match e with Got m => Some m | _ => None end) tr.

Lemma accepts_fifo n tr : forall ms0 ms, Flushed ∉ tr -> accepts n ms0 tr = Some ms ->
  ms0 ++ posted tr = got tr ++ ms.
Proof.
  induction tr as [|e tr IH]; intros ms0 ms Hf H; simpl in *; [simplify_eq; apply app_nil_r|].
  apply not_elem_of_cons in Hf as [He Hf]. destruct (accept n ms0 e) as [ms1|] eqn:Ea; [|done].
  specialize (IH ms1 ms Hf H).
  destruct e; simpl in *; repeat case_match; simplify_eq/=; rewrite <- ?IH, <- ?app_assoc; done.
Qed.

(** C8: in a run in which nobody flushes, a caller that has passed the semaphore
    always finds a message (no [CdcMessageQueueGetMessage] returns -1 but by giving up
    its wait), what was accepted is what was delivered followed by what is in the
    queue, and the semaphore and the callers under way account for every message
    in the queue: when no caller is under way, a message in the queue can be got. *)
Theorem msgq_no_lost_wakeup n tr w :
  Z.of_nat n < 2 ^ 31 -> run (start n) tr w -> Flushed ∉ tr ->
  (GotNone ∉ tr) /\ exists l ms, qrep (ctx w) l ms /\ posted tr = got tr ++ ms /\
    Z.of_nat (length ms) = sem w + zsum pending (threads w).
Proof.
  intros Hn R Hf. assert ((GotNone ∉ tr) /\ balanced w /\ exists l ms, qrep (ctx w) l ms /\
    accepts (Z.of_nat n) [] tr = Some ms) as (Hg & B & l & ms & Q & A).
  { pose proof (start_rep n Hn) as Q. assert (nMaxMessageNum (ctx (start n)) = Z.of_nat n) as Hm by done.
    assert (balanced (start n)) as B by (split_and!; [done|done|constructor]).
    revert Q Hm B Hf. generalize (@nil nat) as l. generalize (@nil CdcMessage) as ms.
    induction R as [w|w1 o w2 tr w3 St R IH]; intros ms l Q Hm B Hf.
    { split; [apply not_elem_of_nil|]. split; [done|]. by exists l, ms. }
    destruct (step_ok _ _ _ _ _ _ St Q Hm) as (l' & ms' & Q' & Hm' & Ha).
    destruct (balanced_step _ _ _ _ _ St Q B) as [B' Hg]; [by intros ->; set_solver|].
    destruct (IH ms' l' Q' Hm' B') as (Hg3 & B3 & l3 & ms3 & Q3 & A3); [destruct o; set_solver|].
    split; [destruct o; set_solver|]. split; [done|]. exists l3, ms3. split; [done|].
    destruct o as [e|]; simpl; [by rewrite Ha|]. by simplify_eq. }
  split; [done|]. exists l, ms. split; [done|]. split; [exact (accepts_fifo _ _ [] _ Hf A)|].
  rewrite <- (q_count _ _ _ Q). apply B.
Qed.

(** * Flushing *)

Definition hello : CdcMessage := mkMessage 1 [0; 0; 0; 0].

(** A poster that is overtaken by a flush: the run, step by step. *)
Lemma overtaken : exists w, run (start 1) [Posted hello; Flushed; GotNone] w /\ threads w = [Done; Done; Done].
Proof.
  eexists. split.
  - eapply (run_step _ None); [apply (s_call _ _ _ _ (Post hello)); done|].
    eapply (run_step _ (Some (Posted hello))); [apply (s_post _ _ _ 0); [done|reflexivity]|].
    eapply (run_step _ None); [apply (s_call _ _ _ _ Flush); done|].
    eapply (run_step _ (Some Flushed)); [apply (s_flush _ _ _ 1); [done|reflexivity]|].
    eapply (run_step _ None); [apply (s_drain_end _ _ _ 1); done|].
    eapply (run_step _ None); [apply (s_sem_post _ _ _ _ 0); done|].
    eapply (run_step _ None); [apply (s_call _ _ _ _ Get); done|].
    eapply (run_step _ None); [apply (s_get_wait _ _ _ _ 2); done|].
    eapply (run_step _ (Some GotNone)); [apply (s_get_none _ _ _ 2); [done|reflexivity]|].
    apply run_nil.
  - done.
Qed.

(** [CdcMessageQueueFlush] does not account for a poster between its unlock and
    its [sem_post]: the semaphore then counts a message that is gone, and a later
    [CdcMessageQueueGetMessage], which waits without a timeout, returns -1 although it
    was not interrupted.  At the end of such a run nothing is in the queue and
    nobody is under way. *)
Theorem msgq_flush_spurious : exists tr w,
  run (start 1) tr w /\ (GotNone ∈ tr) /\ (GaveUp ∉ tr) /\ nCount (ctx w) = 0 /\
  zsum pending (threads w) = 0.
Proof.
  destruct overtaken as (w & R & Ht). exists [Posted hello; Flushed; GotNone], w.
  split; [done|]. split; [set_solver|]. split; [set_solver|].
  destruct (msgq_state 1 _ w ltac:(lia) R) as (l & ms & Q & A).
  split; [|by rewrite Ht]. rewrite (q_count _ _ _ Q). vm_compute in A. by simplify_eq.
Qed.

Lemma msgq_linearizable_witness : exists w l ms, run (start 1) [Posted hello; Flushed; GotNone] w /\
  qrep (ctx w) l ms /\ ms = [].
Proof.
  destruct overtaken as (w & R & _).
  destruct (msgq_linearizable 1 [Posted hello; Flushed; GotNone] w ltac:(lia) R) as (l & ms & Q & A & _).
  exists w, l, ms. split; [exact R|]. split; [exact Q|]. vm_compute in A. by injection A as <-.
Defined.

(** One message posted and got. *)
Lemma delivered : exists w, run (start 1) [Posted hello; Got hello] w.
Proof.
  eexists. eapply (run_step _ None); [apply (s_call _ _ _ _ (Post hello)); done|].
  eapply (run_step _ (Some (Posted hello))); [apply (s_post _ _ _ 0); [done|reflexivity]|].
  eapply (run_step _ None); [apply (s_sem_post _ _ _ _ 0); done|].
  eapply (run_step _ None); [apply (s_call _ _ _ _ Get); done|].
  eapply (run_step _ None); [apply (s_get_wait _ _ _ _ 1); done|].
  eapply (run_step _ (Some (Got hello))); [apply (s_get _ _ _ 1); [done|reflexivity]|].
  apply run_nil.
Qed.

Lemma msgq_no_lost_wakeup_witness : exists w, run (start 1) [Posted hello; Got hello] w /\
  GotNone ∉ [Posted hello; Got hello].
Proof.
  destruct delivered as (w & R). exists w. split; [exact R|].
  apply (msgq_no_lost_wakeup 1 [Posted hello; Got hello] w ltac:(lia) R). set_solver.
Defined.

(** * Memory *)

Section memory.
Context (oom : nat -> bool).

Lemma repeat_free n h : exists h', repeatM n free h = Ok tt h' /\ blocks h' = blocks h - Z.of_nat n.
Proof.
  revert h. induction n as [|n IH]; intros h; cbn [repeatM]; [exists h; split; [done|lia]|].
  destruct (IH (h <| blocks ::= Z.add (-1) |>)) as (h' & E & Hb). exists h'.
  split; [by eapply bind_ok|]. simpl in Hb. lia.
Qed.

Lemma twp_repeat_free n h (Q : unit -> heap -> Prop) :
  (forall h', blocks h' = blocks h - Z.of_nat n -> Q tt h') -> twp (repeatM n free) Q h.
Proof. intros H. destruct (repeat_free n h) as (h' & E & Hb). eapply twp_intro; [exact E|auto]. Qed.

Lemma twp_mq_free_if b h (Q : unit -> heap -> Prop) :
  (forall h', blocks h' = blocks h - Z.b2z b -> Q tt h') -> twp (free_if b) Q h.
Proof. intros H. destruct b; eapply twp_intro; try reflexivity; apply H; simpl; lia. Qed.

Lemma twp_free h (Q : unit -> heap -> Prop) :
  (forall h', blocks h' = blocks h - 1 -> Q tt h') -> twp free Q h.
Proof. intros H. apply (twp_mq_free_if true). intros h' Hb. by apply H. Qed.

Lemma twp_mq_alloc h (Q : bool -> heap -> Prop) :
  (forall b h', blocks h' = blocks h + Z.b2z b -> Q b h') -> twp (alloc oom) Q h.
Proof.
  intros H. unfold alloc. do 4 twp_step. destruct (oom (calls h)); repeat twp_step; apply H; simpl; lia.
Qed.

Lemma twp_alloc_nodes n : forall i h (Q : bool -> heap -> Prop),
  (forall (b : bool) h', blocks h' = blocks h + (if b then Z.of_nat n else - Z.of_nat i) -> Q b h') ->
  twp (alloc_nodes oom n i) Q h.
Proof.
  induction n as [|n IH]; intros i h Q H; cbn [alloc_nodes].
  - apply twp_ret, H. lia.
  - twp_step. apply twp_mq_alloc. intros [] h1 H1; simpl in H1.
    + apply IH. intros b h2 H2. apply H. destruct b; lia.
    + twp_step. apply twp_repeat_free. intros h2 H2. twp_step. apply H. lia.
Qed.

(** [CdcMessageQueueCreate] that fails, at whatever allocation, has freed
    what it had allocated; one that succeeds gives an empty queue of the size asked
    for, and [CdcMessageQueueDestroy] then frees all of it. *)
Theorem msgq_memory max pName h :
  twp (CdcMessageQueueCreate oom max pName) (fun q h' =>
    match q with
    | None => blocks h' = blocks h
    | Some q => nMaxMessageNum (q_ctx q) = max /\ (max < 2 ^ 31 -> qrep (q_ctx q) [] []) /\
        twp (CdcMessageQueueDestroy q) (fun _ h'' => blocks h'' = blocks h) h'
    end) h.
Proof.
  unfold CdcMessageQueueCreate. twp_step. apply twp_mq_alloc. intros [] h1 H1; cbn [negb Z.b2z] in *;
    [|apply twp_ret; lia].
  twp_step. assert (forall Q : bool -> heap -> Prop, (forall b h', blocks h' = blocks h1 + Z.b2z b -> Q b h') ->
    twp (if pName then alloc oom else mret false) Q h1) as Hname.
  { intros Q HQ. destruct pName; [by apply twp_mq_alloc|]. apply twp_ret, HQ. simpl. lia. }
  apply Hname. intros name h2 H2. twp_step.
  destruct (0 <=? max) eqn:Em; [|twp_step; cbn [negb]; twp_step; apply twp_mq_free_if; intros h3 H3; twp_step;
    apply twp_free; intros h4 H4; apply twp_ret; lia].
  apply twp_mq_alloc. intros [] h3 H3; cbn [negb Z.b2z] in *.
  2: { twp_step. apply twp_mq_free_if. intros h4 H4. twp_step. apply twp_free. intros h5 H5. apply twp_ret. lia. }
  twp_step. apply twp_alloc_nodes. intros [] h4 H4; cbn [negb].
  2: { twp_step. apply twp_mq_free_if. intros h5 H5. twp_step. apply twp_free. intros h6 H6.
       twp_step. apply twp_free. intros h7 H7. apply twp_ret. simpl in H4. lia. }
  apply twp_ret. split; [done|]. split.
  - intros Hm. pose proof (start_rep (Z.to_nat max)) as R. simpl in R.
    rewrite Z2Nat.id in R by lia. by apply R.
  - unfold CdcMessageQueueDestroy. cbn [q_ctx q_name nMaxMessageNum].
    twp_step. apply twp_repeat_free. intros h5 H5. twp_step. apply twp_free. intros h6 H6.
    twp_step. apply twp_mq_free_if. intros h7 H7. apply twp_free. intros h8 H8. lia.
Qed.
End memory.

(** * Timeouts *)

(** The deadline is the current time plus the timeout, in normal form, and the
    nanoseconds stay within 32 bits on the way. *)
Lemma deadline_ok sec nsec ms : 0 <= nsec < 1000000000 -> 0 <= ms ->
  let '(s', n') := deadline sec nsec ms in
  0 <= n' < 1000000000 /\ s' * 1000000000 + n' = sec * 1000000000 + nsec + ms * 1000000 /\
  nsec + Z.rem ms 1000 * 1000 * 1000 < 2 ^ 31.
Proof.
  intros Hn Hm. unfold deadline. change (1000 * 1000 * 1000) with 1000000000.
  pose proof (Z.quot_rem' ms 1000). pose proof (Z.rem_bound_pos ms 1000 ltac:(lia) ltac:(lia)).
  set (q := Z.quot ms 1000) in *. set (r := Z.rem ms 1000) in *.
  set (x := nsec + r * 1000 * 1000).
  pose proof (Z.quot_rem' x 1000000000). pose proof (Z.rem_bound_pos x 1000000000 ltac:(lia) ltac:(lia)).
  set (q' := Z.quot x 1000000000) in *. set (r' := Z.rem x 1000000000) in *.
  change (2 ^ 31) with 2147483648. unfold x in *. lia.
Qed.

End MsgQueueSpec.
