(* ===== verification/BitReader.v ===== *)
(** The bit reader of the multimedia framework,
    [allwinner/libcedarx/libcore/base/CdxBitReader.c]: the demultiplexers read
    headers bit by bit through a 32-bit reservoir that is refilled from a byte
    buffer.  The file has the data, one definition per C function, and the
    reading of a reader as the string of the bits it has left. *)

From Stdlib Require Import ZArith Lia.
From stdpp Require Import base list list_numbers numbers.
From S2P Require Import Prelude.

Module BitReader.

(** * Data *)

(** [struct CdxBitReaderImplS], less the table of operations; [mData] is the
    offset of the pointer in the buffer. *)
Record CdxBitReaderImpl := mkReader {
  mData : Z;
  mSize : Z;
  mReservoir : Z;
  mNumBitsLeft : Z
}.
#[export] Instance eta_reader : Eta CdxBitReaderImpl := fun r =>
  mkReader (mData r) (mSize r) (mReservoir r) (mNumBitsLeft r).

(** Shifts of a [cdx_uint32]: undefined from 32 on. *)
Definition shl32 {S} (x n : Z) : M S Z :=
  if (0 <=? n) && (n <? 32) then mret (u32 (Z.shiftl x n)) else undef.
Definition shr32 {S} (x n : Z) : M S Z :=
  if (0 <=? n) && (n <? 32) then mret (Z.shiftr x n) else undef.
#[global] Arguments shl32 : simpl never.
#[global] Arguments shr32 : simpl never.

Section ops.
(** Whether the library is built with [AWP_DEBUG], and the buffer. *)
Context (awp_debug : bool) (buf : list Z).

(** [CDX_CHECK], which is empty unless the library is built for debugging. *)
Definition cdx_check {S} (e : bool) : M S unit :=
  if awp_debug && negb e then abort else mret tt.

(** * Operations *)

(** The loop of [onFillReservoir]: at most [n] more bytes; the result is the
    number of bytes read. *)
Fixpoint fill_loop (n : nat) (i : Z) : M CdxBitReaderImpl Z :=
  match n with
  | O => mret i
  | S n =>
      s ← get;
      if mSize s >? 0 then
        b ← lift (zlookup buf (mData s));
        r ← shl32 (mReservoir s) 8;
        modify (fun s => s <| mReservoir := Z.lor r b |>
          <| mData ::= Z.add 1 |> <| mSize := u32 (mSize s - 1) |>);;
        fill_loop n (i + 1)
      else mret i
  end.

Definition onFillReservoir : M CdxBitReaderImpl unit :=
  s ← get;
  cdx_check (mSize s >? 0);;
  modify (fun s => s <| mReservoir := 0 |>);;
  i ← fill_loop 4 0;
  modify (fun s => s <| mNumBitsLeft := u32 (8 * i) |>);;
  s ← get;
  r ← shl32 (mReservoir s) (u32 (32 - mNumBitsLeft s));
  modify (fun s => s <| mReservoir := r |>).

(** The loop of [CdxBitReaderGetBits], for at most [fuel] rounds. *)
Fixpoint get_loop (fuel : nat) (n result : Z) : M CdxBitReaderImpl Z :=
  if n >? 0 then
    match fuel with
    | O => undef
    | S fuel =>
        s ← get;
        (if mNumBitsLeft s =? 0 then onFillReservoir else mret tt);;
        s ← get;
        let m := if n >? mNumBitsLeft s then mNumBitsLeft s else n in
        hi ← shl32 result m;
        lo ← shr32 (mReservoir s) (u32 (32 - m));
        r ← shl32 (mReservoir s) m;
        modify (fun s => s <| mReservoir := r |>
          <| mNumBitsLeft := u32 (mNumBitsLeft s - m) |>);;
        get_loop fuel (u32 (n - m)) (Z.lor hi lo)
    end
  else mret result.

(** Every round takes at least one bit. *)
Definition CdxBitReaderGetBits (n : Z) : M CdxBitReaderImpl Z :=
  cdx_check (n <=? 32);;
  get_loop (Z.to_nat n) n 0.

(** [CdxBitReaderSkipBits]: words of 32 bits, then the rest. *)
Fixpoint skip_loop (fuel : nat) (n : Z) : M CdxBitReaderImpl unit :=
  if n >? 32 then
    match fuel with
    | O => undef
    | S fuel => CdxBitReaderGetBits 32;; skip_loop fuel (u32 (n - 32))
    end
  else if n >? 0 then CdxBitReaderGetBits n;; mret tt
  else mret tt.

Definition CdxBitReaderSkipBits (n : Z) : M CdxBitReaderImpl unit :=
  skip_loop (Z.to_nat n) n.

(** The loop of [CdxBitReaderPutBits]; the sum and the difference are those of
    [cdx_uint32].  Four rounds bring any sum below 64 down to 32; a call with
    [n >= 32] ends in a shift by [n], which is undefined, however long it loops. *)
Fixpoint unread_loop (fuel : nat) (n : Z) : M CdxBitReaderImpl unit :=
  s ← get;
  if u32 (mNumBitsLeft s + n) >? 32 then
    match fuel with
    | O => undef
    | S fuel =>
        modify (fun s => s <| mNumBitsLeft := u32 (mNumBitsLeft s - 8) |>
          <| mData ::= Z.add (-1) |> <| mSize := u32 (mSize s + 1) |>);;
        unread_loop fuel n
    end
  else mret tt.

Definition CdxBitReaderPutBits (x n : Z) : M CdxBitReaderImpl unit :=
  cdx_check (n <? 32);;
  unread_loop 8 n;;
  s ← get;
  lo ← shr32 (mReservoir s) n;
  hi ← shl32 x (u32 (32 - n));
  modify (fun s => s <| mReservoir := Z.lor lo hi |>
    <| mNumBitsLeft := u32 (mNumBitsLeft s + n) |>).

Definition CdxBitReaderNumBitsLeft (s : CdxBitReaderImpl) : Z :=
  u32 (u32 (mSize s * 8) + mNumBitsLeft s).

(** The offset in the buffer of the pointer it returns. *)
Definition CdxBitReaderData (s : CdxBitReaderImpl) : Z :=
  mData s - u32 (mNumBitsLeft s + 7) / 8.

(** [CdxBitReaderCreate] on [size] bytes of the buffer, when [malloc] returns a
    block or not; the state is the number of live blocks.  Without a block the
    check ends the process, or the code writes through a null pointer. *)
Definition CdxBitReaderCreate (malloc_ok : bool) (size : Z) : M Z CdxBitReaderImpl :=
  if (malloc_ok : bool) then modify (Z.add 1);; mret (mkReader 0 size 0 0)
  else if awp_debug then abort else undef.

Definition CdxBitReaderDestroy : M Z unit := modify (Z.add (-1)).
End ops.

End BitReader.
