(* ===== verification/BitReaderSpec.v ===== *)
(** The bit reader against strings of bits: what is left to read is [stream],
    and every operation takes from its front or puts back. *)

From Stdlib Require Import ZArith Lia.
From stdpp Require Import base list list_numbers numbers.
From S2P Require Import Prelude BitReader.

Module BitReaderSpec.
Import BitReader.

(** * Bits of numbers and of byte strings *)

(** The low [n] bits of [x], the highest first. *)
Fixpoint bits (n : nat) (x : Z) : list bool :=
  match n with O => [] | S n => Z.testbit x (Z.of_nat n) :: bits n x end.

Definition bytes_bits (l : list Z) : list bool := l ≫= bits 8.

Lemma bits_length n x : length (bits n x) = n.
Proof. induction n; simpl; congruence. Qed.

Lemma bytes_bits_length l : length (bytes_bits l) = (8 * length l)%nat.
Proof. unfold bytes_bits. induction l as [|b l IH]; [done|]. rewrite bind_cons, length_app, IH, bits_length. simpl. lia. Qed.

Lemma bytes_bits_app l1 l2 : bytes_bits (l1 ++ l2) = bytes_bits l1 ++ bytes_bits l2.
Proof. apply bind_app. Qed.

Lemma bits_ext n x y :
  (forall i, (i < n)%nat -> Z.testbit x (Z.of_nat i) = Z.testbit y (Z.of_nat i)) ->
  bits n x = bits n y.
Proof.
  induction n as [|n IH]; intros H; [done|]. simpl. f_equal; [by apply H; lia|].
  apply IH. intros i Hi. apply H. lia.
Qed.

Lemma bits_app a b x : bits (a + b) x = bits a (Z.shiftr x (Z.of_nat b)) ++ bits b x.
Proof.
  induction a as [|a IH]; [done|]. simpl. rewrite IH. f_equal.
  rewrite Z.shiftr_spec by lia. f_equal. lia.
Qed.

Lemma take_bits k n x : (k <= n)%nat -> take k (bits n x) = bits k (Z.shiftr x (Z.of_nat (n - k))).
Proof.
  intros H. replace n with (k + (n - k))%nat at 1 by lia.
  by rewrite bits_app, take_app_length' by (by rewrite bits_length).
Qed.

Lemma drop_bits k n x : (k <= n)%nat -> drop k (bits n x) = bits (n - k) x.
Proof.
  intros H. replace n with (k + (n - k))%nat at 1 by lia.
  by rewrite bits_app, drop_app_length' by (by rewrite bits_length).
Qed.

Lemma bits_u32 n x : (n <= 32)%nat -> bits n (u32 x) = bits n x.
Proof.
  intros H. apply bits_ext. intros i Hi. unfold u32.
  apply Z.mod_pow2_bits_low. lia.
Qed.

(** [(x << b) | y] for a [y] of [b] bits. *)
Lemma bits_concat a b x y :
  0 <= y < 2 ^ Z.of_nat b ->
  bits (a + b) (Z.lor (Z.shiftl x (Z.of_nat b)) y) = bits a x ++ bits b y.
Proof.
  intros Hy. rewrite bits_app. f_equal.
  - apply bits_ext. intros i Hi. rewrite Z.shiftr_spec, Z.lor_spec, Z.shiftl_spec by lia.
    replace (Z.testbit y _) with false.
    + rewrite orb_false_r. f_equal. lia.
    + rewrite <- (Z.mod_small y (2 ^ Z.of_nat b)) by done.
      by rewrite Z.mod_pow2_bits_high by lia.
  - apply bits_ext. intros i Hi. rewrite Z.lor_spec, Z.shiftl_spec_low by lia. done.
Qed.

(** A number of [n] bits is its bits. *)
Lemma bits_inj n x y :
  0 <= x < 2 ^ Z.of_nat n -> 0 <= y < 2 ^ Z.of_nat n -> bits n x = bits n y -> x = y.
Proof.
  revert x y. induction n as [|n IH]; intros x y Hx Hy E; [simpl in *; lia|].
  simpl in E. injection E as E1 E2.
  assert (forall z, 0 <= z < 2 ^ Z.of_nat (S n) ->
    z = Z.b2z (Z.testbit z (Z.of_nat n)) * 2 ^ Z.of_nat n + z mod 2 ^ Z.of_nat n) as D.
  { intros z Hz. pose proof (Z.div_mod z (2 ^ Z.of_nat n) ltac:(lia)) as D.
    assert (z / 2 ^ Z.of_nat n = Z.b2z (Z.testbit z (Z.of_nat n))) as <-; [|lia].
    rewrite Z.testbit_spec' by lia. symmetry. apply Z.mod_small.
    rewrite Nat2Z.inj_succ, Z.pow_succ_r in Hz by lia.
    split; [apply Z.div_pos; lia | apply Z.div_lt_upper_bound; lia]. }
  rewrite (D x Hx), (D y Hy), E1. f_equal.
  apply IH; [apply Z.mod_pos_bound; lia..|].
  transitivity (bits n x); [|transitivity (bits n y); [done|]]; [|symmetry];
    apply bits_ext; intros i Hi; rewrite Z.mod_pow2_bits_low by lia; done.
Qed.

Lemma bytes_bits_take j l : take (8 * j) (bytes_bits l) = bytes_bits (take j l).
Proof.
  rewrite <- (take_drop j l) at 1. rewrite bytes_bits_app.
  destruct (decide (j <= length l)%nat).
  - apply take_app_length'. rewrite bytes_bits_length, length_take. lia.
  - rewrite take_ge, drop_ge by (rewrite ?length_app, ?bytes_bits_length, ?length_take, ?length_drop; lia).
    apply app_nil_r.
Qed.

Lemma bytes_bits_drop j l : drop (8 * j) (bytes_bits l) = bytes_bits (drop j l).
Proof.
  rewrite <- (take_drop j l) at 1. rewrite bytes_bits_app.
  destruct (decide (j <= length l)%nat).
  - apply drop_app_length'. rewrite bytes_bits_length, length_take. lia.
  - rewrite !drop_ge by (rewrite ?length_app, ?bytes_bits_length, ?length_take, ?length_drop; lia). done.
Qed.

#[global] Arguments bits : simpl never.

(** * What a reader has left *)

Section spec.
Context (awp_debug : bool) (buf : list Z).
Hypothesis bytes : Forall (fun b => 0 <= b < 256) buf.
Hypothesis short : Z.of_nat (length buf) < 2 ^ 28.

(** The bytes not yet taken, and the valid bits of the reservoir. *)
Definition window (s : CdxBitReaderImpl) : list Z :=
  take (Z.to_nat (mSize s)) (drop (Z.to_nat (mData s)) buf).
Definition held (s : CdxBitReaderImpl) : list bool :=
  take (Z.to_nat (mNumBitsLeft s)) (bits 32 (mReservoir s)).
Definition stream (s : CdxBitReaderImpl) : list bool := held s ++ bytes_bits (window s).

Record reader_ok (s : CdxBitReaderImpl) : Prop := {
  ok_data : 0 <= mData s;
  ok_size : 0 <= mSize s;
  ok_end : mData s + mSize s <= Z.of_nat (length buf);
  ok_reservoir : 0 <= mReservoir s < 2 ^ 32;
  ok_left : 0 <= mNumBitsLeft s <= 32
}.

Lemma window_length s : reader_ok s -> length (window s) = Z.to_nat (mSize s).
Proof. intros []. unfold window. rewrite length_take, length_drop. lia. Qed.

Lemma held_length s : reader_ok s -> length (held s) = Z.to_nat (mNumBitsLeft s).
Proof. intros []. unfold held. rewrite length_take, bits_length. lia. Qed.

Lemma stream_length s :
  reader_ok s -> Z.of_nat (length (stream s)) = mNumBitsLeft s + 8 * mSize s.
Proof.
  intros H. unfold stream. rewrite length_app, bytes_bits_length, window_length, held_length by done.
  destruct H. lia.
Qed.

Lemma window_cons s b :
  reader_ok s -> 0 < mSize s -> zlookup buf (mData s) = Some b ->
  window s = b :: take (Z.to_nat (mSize s - 1)) (drop (Z.to_nat (mData s + 1)) buf).
Proof.
  intros H H0 E. destruct H. rewrite zlookup_some in E by lia. unfold window.
  rewrite (drop_S _ b) by done.
  replace (Z.to_nat (mSize s)) with (S (Z.to_nat (mSize s - 1))) by lia.
  rewrite firstn_cons. do 3 f_equal. lia.
Qed.

Lemma shl32_ok {S} x n (s : S) : 0 <= n < 32 -> shl32 x n s = Ok (u32 (Z.shiftl x n)) s.
Proof. intros H. unfold shl32. by replace (_ && _) with true by lia. Qed.
Lemma shr32_ok {S} x n (s : S) : 0 <= n < 32 -> shr32 x n s = Ok (Z.shiftr x n) s.
Proof. intros H. unfold shr32. by replace (_ && _) with true by lia. Qed.

Lemma shiftl_small x n m : 0 <= n -> 0 <= m -> 0 <= x < 2 ^ n -> 0 <= Z.shiftl x m < 2 ^ (n + m).
Proof.
  intros Hn Hm Hx. rewrite Z.shiftl_mul_pow2, Z.pow_add_r by lia.
  pose proof (Z.pow_pos_nonneg 2 m). nia.
Qed.

Lemma lor_small x y n : 0 <= n -> 0 <= x < 2 ^ n -> 0 <= y < 2 ^ n -> 0 <= Z.lor x y < 2 ^ n.
Proof.
  intros Hn Hx Hy. rewrite <- (Z.mod_small x (2 ^ n)), <- (Z.mod_small y (2 ^ n)) by done.
  rewrite <- !Z.land_ones, <- Z.land_lor_distr_l, Z.land_ones by done.
  apply Z.mod_pos_bound. lia.
Qed.

(** ** Refilling *)

Lemma fill_loop_ok n i s :
  reader_ok s -> (i + n <= 4)%nat -> 0 <= mReservoir s < 2 ^ Z.of_nat (8 * i) ->
  let k := Nat.min n (Z.to_nat (mSize s)) in
  exists r,
    fill_loop buf n (Z.of_nat i) s =
      Ok (Z.of_nat (i + k))
         (mkReader (mData s + Z.of_nat k) (mSize s - Z.of_nat k) r (mNumBitsLeft s)) /\
    0 <= r < 2 ^ Z.of_nat (8 * (i + k)) /\
    bits (8 * (i + k)) r = bits (8 * i) (mReservoir s) ++ bytes_bits (take k (window s)).
Proof.
  revert i s. induction n as [|n IH]; intros i s H Hin Hr k.
  { exists (mReservoir s). subst k. simpl Nat.min. rewrite take_0, Nat.add_0_r. simpl.
    rewrite app_nil_r. destruct s; simpl in *. by rewrite Z.add_0_r, Z.sub_0_r. }
  destruct (decide (mSize s = 0)) as [E0|E0].
  { assert (k = 0%nat) as -> by (subst k; lia). exists (mReservoir s).
    rewrite take_0, Nat.add_0_r. simpl. rewrite app_nil_r.
    unfold mbind, M_bind, get. rewrite E0. simpl. destruct s; simpl in *. subst.
    by rewrite Z.add_0_r. }
  pose proof (ok_size _ H) as Hs. pose proof (ok_end _ H) as He. pose proof (ok_data _ H) as Hd.
  destruct (zlookup_is_Some buf (mData s) ltac:(lia)) as [b Eb].
  assert (0 <= b < 256) as Hb.
  { rewrite zlookup_some in Eb by lia. by apply (Forall_lookup_1 _ _ _ _ bytes Eb). }
  assert (2 ^ Z.of_nat (8 * i) <= 2 ^ 24) as Hp by (apply Z.pow_le_mono_r; lia).
  pose proof (shiftl_small (mReservoir s) (Z.of_nat (8 * i)) 8 ltac:(lia) ltac:(lia) Hr) as Hsh.
  replace (Z.of_nat (8 * i) + 8) with (Z.of_nat (8 * S i)) in Hsh by lia.
  set (r1 := Z.lor (Z.shiftl (mReservoir s) 8) b).
  assert (0 <= r1 < 2 ^ Z.of_nat (8 * S i)) as Hr1.
  { apply lor_small; [lia|done|]. split; [lia|]. eapply Z.lt_le_trans; [apply Hb|].
    change 256 with (2 ^ 8). apply Z.pow_le_mono_r; lia. }
  assert (2 ^ Z.of_nat (8 * S i) <= 2 ^ 32) as Hp' by (apply Z.pow_le_mono_r; lia).
  set (s1 := mkReader (mData s + 1) (mSize s - 1) r1 (mNumBitsLeft s)).
  assert (reader_ok s1) as H1 by (destruct H; constructor; simpl; lia).
  destruct (IH (S i) s1 H1 ltac:(lia) Hr1) as (r & E & Hrr & Hbits).
  set (k' := Nat.min n (Z.to_nat (mSize s1))) in *.
  assert (k = S k') as -> by (unfold k, k', s1; cbn [mSize]; lia).
  exists r. replace (i + S k')%nat with (S i + k')%nat by lia.
  split; [|split; [done|]].
  - simpl fill_loop. unfold mbind at 1, M_bind at 1, get.
    replace (mSize s >? 0) with true by lia.
    eapply bind_ok; [by apply lift_ok|]. eapply bind_ok; [apply shl32_ok; lia|].
    eapply bind_ok; [reflexivity|].
    rewrite u32_small by lia. simpl set. rewrite u32_small by lia.
    replace (Z.of_nat i + 1) with (Z.of_nat (S i)) by lia.
    rewrite (Z.add_comm 1). fold r1. fold s1. rewrite E. subst s1. simpl. do 2 f_equal; lia.
  - rewrite Hbits, (window_cons s b) by (done || lia). rewrite firstn_cons.
    unfold bytes_bits at 2. rewrite bind_cons, app_assoc. f_equal.
    replace (8 * S i)%nat with (8 * i + 8)%nat by lia. subst s1 r1. simpl mReservoir.
    apply (bits_concat _ 8). done.
Qed.

(** The reservoir holds bits of the buffer, as long as nothing else was put
    back: [pos] is where in the buffer the reader is. *)
Definition pos (s : CdxBitReaderImpl) : Z := 8 * mData s - mNumBitsLeft s.
Definition synced (s : CdxBitReaderImpl) : Prop :=
  0 <= pos s /\
  held s = take (Z.to_nat (mNumBitsLeft s)) (drop (Z.to_nat (pos s)) (bytes_bits buf)).

(** Bytes move from the buffer to the reservoir and back. *)
Definition same_end (s s' : CdxBitReaderImpl) : Prop := mData s' + mSize s' = mData s + mSize s.

Lemma check_ok {S} (e : bool) (s : S) : e = true -> cdx_check awp_debug e s = Ok tt s.
Proof. intros ->. unfold cdx_check. by rewrite andb_false_r. Qed.

Lemma fill_ok s :
  reader_ok s -> mNumBitsLeft s = 0 -> 0 < mSize s ->
  exists s', onFillReservoir awp_debug buf s = Ok tt s' /\ reader_ok s' /\
    mNumBitsLeft s' = 8 * Z.min 4 (mSize s) /\ stream s' = stream s /\ same_end s s' /\ synced s'.
Proof.
  intros H E0 Hs.
  set (s0 := s <| mReservoir := 0 |>).
  assert (reader_ok s0) as H0 by (destruct H; constructor; simpl; lia).
  destruct (fill_loop_ok 4 0 s0 H0 ltac:(lia) ltac:(simpl; lia)) as (r & E & Hr & Hb).
  set (k := Nat.min 4 (Z.to_nat (mSize s0))) in *. simpl (0 + k)%nat in *.
  assert (Z.of_nat k = Z.min 4 (mSize s)) as Hk by (unfold k, s0; cbn [mSize set]; lia).
  clearbody k.
  set (r' := u32 (Z.shiftl r (Z.of_nat (32 - 8 * k)))).
  set (s' := mkReader (mData s + Z.of_nat k) (mSize s - Z.of_nat k) r' (8 * Z.of_nat k)).
  assert (held s' = bytes_bits (take k (window s))) as Hh.
  { unfold held, s'. cbn [mReservoir mNumBitsLeft].
    rewrite take_bits by lia.
    replace (Z.to_nat (8 * Z.of_nat k)) with (8 * k)%nat by lia.
    change (take k (window s)) with (take k (window s0)).
    change (bits (8 * 0) (mReservoir s0)) with (@nil bool) in Hb. rewrite app_nil_l in Hb.
    rewrite <- Hb. apply bits_ext. intros i Hi. rewrite Z.shiftr_spec by lia.
    unfold r', u32. rewrite Z.mod_pow2_bits_low, Z.shiftl_spec by lia. f_equal. lia. }
  assert (reader_ok s') as H'.
  { destruct H; constructor; cbn [mData mSize mReservoir mNumBitsLeft s']; try lia.
    pose proof (u32_range (Z.shiftl r (Z.of_nat (32 - 8 * k)))). unfold r'. lia. }
  exists s'. split; [|split; [done|split; [unfold s'; cbn; lia|split; [|split]]]].
  - unfold onFillReservoir. eapply bind_ok; [reflexivity|].
    eapply bind_ok; [apply check_ok; lia|]. eapply bind_ok; [reflexivity|].
    change (Z.of_nat 0) with 0 in E. eapply bind_ok; [exact E|].
    eapply bind_ok; [reflexivity|]. eapply bind_ok; [reflexivity|]. simpl.
    rewrite (u32_small (8 * _)), (u32_small (32 - _)) by lia.
    eapply bind_ok; [apply shl32_ok; lia|].
    by replace (32 - 8 * Z.of_nat k) with (Z.of_nat (32 - 8 * k)) by lia.
  - unfold stream. rewrite Hh. unfold held at 1. rewrite E0. simpl take. simpl app.
    rewrite <- bytes_bits_app. f_equal. rewrite <- (take_drop k (window s)) at 2. f_equal.
    unfold window, s'. cbn [mSize mData]. destruct H.
    rewrite skipn_firstn_comm, drop_drop. do 2 f_equal; lia.
  - unfold same_end, s'. simpl. lia.
  - unfold synced. rewrite Hh. unfold pos, s'. cbn [mData mNumBitsLeft]. split; [destruct H; lia|].
    replace (Z.to_nat (8 * (mData s + Z.of_nat k) - 8 * Z.of_nat k)) with (8 * Z.to_nat (mData s))%nat
      by (destruct H; lia).
    replace (Z.to_nat (8 * Z.of_nat k)) with (8 * k)%nat by lia.
    rewrite bytes_bits_drop, bytes_bits_take. f_equal. unfold window.
    rewrite take_take. f_equal. lia.
Qed.

(** ** Taking bits *)

(** The state after [m] bits were taken from the reservoir. *)
Definition taken (m : Z) (s : CdxBitReaderImpl) : CdxBitReaderImpl :=
  s <| mReservoir := u32 (Z.shiftl (mReservoir s) m) |> <| mNumBitsLeft := mNumBitsLeft s - m |>.

Lemma taken_ok m s :
  reader_ok s -> 0 <= m <= mNumBitsLeft s ->
  reader_ok (taken m s) /\ held (taken m s) = drop (Z.to_nat m) (held s) /\
  stream (taken m s) = drop (Z.to_nat m) (stream s) /\ (synced s -> synced (taken m s)).
Proof.
  intros H Hm. pose proof (ok_left _ H).
  assert (held (taken m s) = drop (Z.to_nat m) (held s)) as Hh.
  { unfold held, taken. simpl. rewrite skipn_firstn_comm, drop_bits, !take_bits by lia.
    replace (Z.to_nat (mNumBitsLeft s) - Z.to_nat m)%nat with (Z.to_nat (mNumBitsLeft s - m)) by lia.
    apply bits_ext. intros i Hi. rewrite !Z.shiftr_spec by lia. unfold u32.
    rewrite Z.mod_pow2_bits_low, Z.shiftl_spec by lia. f_equal. lia. }
  split; [|split; [done|split]].
  - destruct H; constructor; simpl; try lia.
    pose proof (u32_range (Z.shiftl (mReservoir s) m)). lia.
  - unfold stream. rewrite Hh. rewrite drop_app_le by (rewrite held_length by done; lia). done.
  - intros [Hp Hs]. unfold synced. rewrite Hh, Hs. unfold pos, taken in *. simpl.
    split; [lia|]. rewrite skipn_firstn_comm, drop_drop.
    do 2 f_equal; lia.
Qed.

(** At the top of the loop of [CdxBitReaderGetBits]: either nothing is left, or
    there are bits in the reservoir after the refill. *)
Lemma ensure_bits s :
  reader_ok s ->
  (mNumBitsLeft s = 0 /\ mSize s = 0) \/
  exists s1, (if mNumBitsLeft s =? 0 then onFillReservoir awp_debug buf else mret tt) s = Ok tt s1 /\
    reader_ok s1 /\ 0 < mNumBitsLeft s1 /\ stream s1 = stream s /\
    (mNumBitsLeft s1 = 32 -> mNumBitsLeft s = 32 \/ mNumBitsLeft s = 0 /\ 4 <= mSize s) /\
    same_end s s1 /\
    (synced s \/ mNumBitsLeft s = 0 -> synced s1).
Proof.
  intros H. pose proof (ok_left _ H) as ?. pose proof (ok_size _ H) as ?.
  destruct (mNumBitsLeft s =? 0) eqn:E.
  - destruct (decide (mSize s = 0)); [left; lia|right].
    destruct (fill_ok s H ltac:(lia) ltac:(lia)) as (s1 & E1 & Hok & HL & Hst & Hse & Hsy).
    exists s1. split_and!; try done; lia.
  - right. exists s. split_and!; try done; [lia..|]. intros [?|?]; [done|lia].
Qed.

(** The result of one round: [k] bits were collected before, [m] are added. *)
Lemma round_result s result (k : nat) m :
  reader_ok s -> 0 < m <= mNumBitsLeft s -> m < 32 -> 0 <= result < 2 ^ Z.of_nat k ->
  let r := Z.lor (Z.shiftl result m) (Z.shiftr (mReservoir s) (32 - m)) in
  0 <= Z.shiftl result m < 2 ^ (Z.of_nat k + m) /\
  0 <= r < 2 ^ (Z.of_nat k + m) /\
  bits (k + Z.to_nat m) r = bits k result ++ take (Z.to_nat m) (stream s).
Proof.
  intros H Hm Hm32 Hr r. pose proof (ok_left _ H) as HL. pose proof (ok_reservoir _ H) as HR.
  set (lo := Z.shiftr (mReservoir s) (32 - m)) in r.
  assert (0 <= lo < 2 ^ m) as Hlo.
  { unfold lo. rewrite Z.shiftr_div_pow2 by lia. split; [apply Z.div_pos; lia|].
    apply Z.div_lt_upper_bound; [lia|]. rewrite <- Z.pow_add_r by lia.
    replace (32 - m + m) with 32 by lia. lia. }
  pose proof (shiftl_small result (Z.of_nat k) m ltac:(lia) ltac:(lia) Hr) as Hhi.
  split; [done|]. split.
  - apply lor_small; [lia|done|]. split; [lia|]. eapply Z.lt_le_trans; [apply Hlo|].
    apply Z.pow_le_mono_r; lia.
  - unfold r. replace m with (Z.of_nat (Z.to_nat m)) at 2 by lia.
    rewrite bits_concat by (by rewrite Z2Nat.id by lia). f_equal.
    unfold stream. rewrite take_app_le by (rewrite held_length by done; lia).
    unfold held. rewrite take_take, take_bits by lia. unfold lo. f_equal; [lia|]. f_equal. lia.
Qed.

Lemma get_loop_ok fuel n result (k : nat) s :
  reader_ok s -> 0 <= n -> Z.of_nat k + n <= 32 -> n <= Z.of_nat (length (stream s)) ->
  n <= Z.of_nat fuel -> 0 <= result < 2 ^ Z.of_nat k ->
  (n = 32 -> 0 < mNumBitsLeft s < 32) ->
  exists r s', get_loop awp_debug buf fuel n result s = Ok r s' /\ reader_ok s' /\
    0 <= r < 2 ^ (Z.of_nat k + n) /\
    bits (k + Z.to_nat n) r = bits k result ++ take (Z.to_nat n) (stream s) /\
    stream s' = drop (Z.to_nat n) (stream s) /\ same_end s s' /\
    (synced s \/ mNumBitsLeft s = 0 -> 0 < n -> synced s').
Proof.
  revert n result k s. induction fuel as [|fuel IH]; intros n result k s H Hn Hk Hlen Hf Hr H32.
  { assert (n = 0) as -> by lia. exists result, s. simpl. rewrite take_0, drop_0, app_nil_r, Nat.add_0_r, Z.add_0_r.
    split_and!; try done || lia. }
  destruct (decide (n = 0)) as [->|Hn0].
  { exists result, s. simpl. rewrite take_0, drop_0, app_nil_r, Nat.add_0_r, Z.add_0_r.
    split_and!; try done || lia. }
  destruct (ensure_bits s H) as [[E0 E1]|(s1 & E1 & H1 & Hpos & Hst & Hlt & Hse & Hsy)].
  { rewrite stream_length in Hlen by done. lia. }
  pose proof (ok_left _ H1) as HL.
  set (m := if n >? mNumBitsLeft s1 then mNumBitsLeft s1 else n).
  assert (0 < m <= mNumBitsLeft s1 /\ m <= n /\ m < 32) as (Hm & Hmn & Hm32)
    by (unfold m; destruct (n >? mNumBitsLeft s1) eqn:?; lia).
  destruct (taken_ok m s1 H1 ltac:(lia)) as (Ht & _ & Hts & Htsy).
  destruct (round_result s1 result k m H1 Hm Hm32 Hr) as (Hhi & Hres1 & Hb1).
  assert (2 ^ (Z.of_nat k + m) <= 2 ^ 32) by (apply Z.pow_le_mono_r; lia).
  set (res1 := Z.lor _ _) in Hres1, Hb1.
  destruct (IH (n - m) res1 (k + Z.to_nat m)%nat (taken m s1)) as (r & s' & E & H' & Hrr & Hb & Hs' & Hse' & Hsy').
  { done. } { lia. } { lia. }
  { rewrite Hts, length_drop, Hst. lia. } { lia. }
  { by replace (Z.of_nat (k + Z.to_nat m)) with (Z.of_nat k + m) by lia. } { lia. }
  exists r, s'. split; [|split; [done|split; [|split; [|split; [|split]]]]].
  - simpl get_loop. replace (n >? 0) with true by lia.
    eapply bind_ok; [reflexivity|]. eapply bind_ok; [exact E1|]. eapply bind_ok; [reflexivity|].
    fold m. eapply bind_ok; [apply shl32_ok; lia|].
    rewrite (u32_small (32 - m)) by lia.
    eapply bind_ok; [apply shr32_ok; lia|]. eapply bind_ok; [apply shl32_ok; lia|].
    eapply bind_ok; [reflexivity|]. rewrite !(u32_small (Z.shiftl result m)) by lia.
    rewrite (u32_small (n - m)) by lia. fold res1.
    simpl. rewrite (u32_small (mNumBitsLeft s1 - m)) by lia. exact E.
  - by replace (Z.of_nat k + n) with (Z.of_nat (k + Z.to_nat m) + (n - m)) by lia.
  - replace (k + Z.to_nat n)%nat with (k + Z.to_nat m + Z.to_nat (n - m))%nat by lia.
    rewrite Hb, Hb1, <- app_assoc. f_equal. rewrite Hts, Hst, take_take_drop. f_equal. lia.
  - rewrite Hs', Hts, Hst, drop_drop. f_equal. lia.
  - unfold same_end in *. simpl in Hse'. lia.
  - intros Hsyn _. destruct (decide (n = m)) as [Enm|].
    + rewrite Enm, Z.sub_diag in E. destruct fuel; simpl in E; injection E as <- <-; auto.
    + apply Hsy'; [|lia]. auto.
Qed.

(** ** Too few bits *)

(** What the code does when it runs out of bytes. *)
Definition ran_out {A} (r : res CdxBitReaderImpl A) : Prop :=
  if awp_debug then exists s, r = Aborted s else r = Undef.

Lemma get_loop_short fuel n result s :
  reader_ok s -> Z.of_nat (length (stream s)) < n <= 32 -> n <= Z.of_nat fuel ->
  ran_out (get_loop awp_debug buf fuel n result s).
Proof.
  revert n result s. induction fuel as [|fuel IH]; intros n result s H Hn Hf; [lia|].
  simpl get_loop. replace (n >? 0) with true by lia.
  pose proof (ok_size _ H) as HS. pose proof (ok_left _ H) as HL.
  unfold mbind at 1, M_bind at 1, get at 1.
  destruct (ensure_bits s H) as [[E0 E1]|(s1 & E1 & H1 & Hpos & Hst & Hlt & _)].
  { unfold mbind at 1, M_bind at 1. rewrite E0. simpl (0 =? 0). cbv iota.
    unfold ran_out, onFillReservoir, cdx_check, mbind, M_bind, get. rewrite E1. simpl.
    destruct awp_debug; simpl; [by eexists|]. by rewrite E1. }
  unfold mbind at 1, M_bind at 1. rewrite E1.
  unfold mbind at 1, M_bind at 1, get at 1. pose proof (ok_left _ H1).
  rewrite <- Hst, stream_length in Hn by done. pose proof (ok_size _ H1).
  replace (n >? mNumBitsLeft s1) with true by lia.
  destruct (taken_ok (mNumBitsLeft s1) s1 H1 ltac:(lia)) as (Ht & _ & Hts & _).
  unfold mbind, M_bind. rewrite shl32_ok, shr32_ok, shl32_ok by (rewrite ?u32_small; lia).
  unfold modify. simpl. rewrite (u32_small (n - _)), (u32_small (mNumBitsLeft s1 - _)) by lia.
  apply (IH (n - mNumBitsLeft s1) _ (taken (mNumBitsLeft s1) s1) Ht); [|lia].
  rewrite Hts, length_drop. pose proof (stream_length s1 H1). lia.
Qed.

(** ** Putting bits back *)

(** How many bytes [CdxBitReaderPutBits] gives back to make room. *)
Definition unread (n : Z) (s : CdxBitReaderImpl) : Z := (Z.max 0 (mNumBitsLeft s + n - 32) + 7) / 8.

Lemma unread_range n s : reader_ok s -> 0 <= n < 32 ->
  0 <= unread n s <= 4 /\ mNumBitsLeft s - 8 * unread n s + n <= 32 /\
  (0 < unread n s -> 25 <= mNumBitsLeft s - 8 * unread n s + n).
Proof. intros H Hn. pose proof (ok_left _ H). unfold unread. dlia. Qed.

(** The count may wrap around below zero; the code adds to it again. *)
Lemma unread_loop_ok fuel n s :
  reader_ok s -> 0 <= pos s -> 0 <= n < 32 -> unread n s < Z.of_nat fuel ->
  unread_loop fuel n s = Ok tt (mkReader (mData s - unread n s) (mSize s + unread n s)
    (mReservoir s) (u32 (mNumBitsLeft s - 8 * unread n s))).
Proof.
  revert s. induction fuel as [|fuel IH]; intros s H Hp Hn Hf; unfold pos in Hp; pose proof (ok_left _ H) as HL;
    pose proof (ok_end _ H) as HE; pose proof (ok_size _ H) as HS; pose proof (ok_data _ H) as HD;
    pose proof (unread_range n s H Hn) as HU; [lia|].
  simpl unread_loop. unfold mbind at 1, M_bind at 1, get. rewrite (u32_small (_ + n)) by lia.
  destruct (mNumBitsLeft s + n >? 32) eqn:E.
  2:{ replace (unread n s) with 0 by (unfold unread; dlia). rewrite u32_small by lia.
      destruct s; simpl. by rewrite !Z.sub_0_r, Z.add_0_r. }
  unfold mbind, M_bind, modify. simpl. rewrite (u32_small (mSize s + 1)) by lia.
  destruct (decide (mNumBitsLeft s < 8)).
  - assert (unread n s = 1) as -> by (unfold unread; dlia).
    destruct fuel as [|fuel]; [lia|]. simpl unread_loop. unfold mbind, M_bind, get. simpl.
    replace (u32 (u32 (mNumBitsLeft s - 8) + n)) with (mNumBitsLeft s - 8 + n)
      by (unfold u32; rewrite Zplus_mod_idemp_l, Z.mod_small; lia).
    replace (_ >? 32) with false by lia. rewrite (Z.add_comm (-1)).
    by replace (mNumBitsLeft s - 8 * 1) with (mNumBitsLeft s - 8) by lia.
  - rewrite (u32_small (mNumBitsLeft s - 8)) by lia. set (s1 := mkReader _ _ _ _).
    assert (reader_ok s1) as H1 by (destruct H; constructor; unfold s1; simpl; lia).
    assert (unread n s1 = unread n s - 1) as E1 by (unfold unread, s1; simpl; dlia).
    rewrite (IH s1) by (try done; unfold pos, s1 in *; simpl in *; lia). rewrite E1.
    unfold s1. simpl. do 2 f_equal; [lia..|f_equal; lia].
Qed.

(** [(mReservoir >> n) | (x << (32 - n))] *)
Lemma put_reservoir x n s :
  reader_ok s -> 1 <= n < 32 ->
  let r := Z.lor (Z.shiftr (mReservoir s) n) (u32 (Z.shiftl x (32 - n))) in
  0 <= r < 2 ^ 32 /\
  bits 32 r = bits (Z.to_nat n) x ++ take (32 - Z.to_nat n) (bits 32 (mReservoir s)).
Proof.
  intros H Hn r. pose proof (ok_reservoir _ H) as HR.
  pose proof (u32_range (Z.shiftl x (32 - n))) as Hhi. split.
  - apply lor_small; [lia| |lia]. rewrite Z.shiftr_div_pow2 by lia.
    split; [apply Z.div_pos; lia|]. apply Z.div_lt_upper_bound; [lia|]. nia.
  - rewrite take_bits by lia. replace 32%nat with (Z.to_nat n + (32 - Z.to_nat n))%nat at 1 by lia.
    rewrite bits_app. f_equal; apply bits_ext; intros i Hi; unfold r, u32.
    + rewrite !Z.shiftr_spec, Z.lor_spec, Z.shiftr_spec by lia.
      rewrite Z.mod_pow2_bits_low, Z.shiftl_spec by lia.
      rewrite <- (Z.mod_small (mReservoir s) (2 ^ 32)), Z.mod_pow2_bits_high by lia.
      simpl. f_equal. lia.
    + rewrite Z.lor_spec, !Z.shiftr_spec by lia.
      rewrite Z.mod_pow2_bits_low, Z.shiftl_spec_low by lia. rewrite orb_false_r. f_equal. lia.
Qed.

(** The state [CdxBitReaderPutBits] leaves. *)
Lemma put_state x n s :
  reader_ok s -> 0 <= pos s -> 1 <= n < 32 ->
  CdxBitReaderPutBits awp_debug x n s = Ok tt
    (mkReader (mData s - unread n s) (mSize s + unread n s)
      (Z.lor (Z.shiftr (mReservoir s) n) (u32 (Z.shiftl x (32 - n))))
      (mNumBitsLeft s - 8 * unread n s + n)).
Proof.
  intros H Hp Hn. pose proof (ok_left _ H) as HL.
  pose proof (unread_range n s H ltac:(lia)) as HU.
  unfold CdxBitReaderPutBits. eapply bind_ok; [apply check_ok; lia|].
  eapply bind_ok; [apply unread_loop_ok; (done || lia)|]. eapply bind_ok; [reflexivity|].
  eapply bind_ok; [apply shr32_ok; lia|]. rewrite (u32_small (32 - n)) by lia.
  eapply bind_ok; [apply shl32_ok; lia|]. unfold modify. simpl. do 3 f_equal.
  unfold u32. rewrite Zplus_mod_idemp_l, Z.mod_small; lia.
Qed.

(** Room in the reservoir: any bits can be put back. *)
Lemma put_plain x n s :
  reader_ok s -> 0 <= pos s -> 1 <= n < 32 -> mNumBitsLeft s + n <= 32 ->
  exists s', CdxBitReaderPutBits awp_debug x n s = Ok tt s' /\ reader_ok s' /\
    stream s' = bits (Z.to_nat n) x ++ stream s.
Proof.
  intros H Hp Hn Hfit. pose proof (ok_left _ H) as HL.
  rewrite put_state by done. replace (unread n s) with 0 by (unfold unread; dlia).
  destruct (put_reservoir x n s H Hn) as [Hr Hb]. eexists. split; [done|]. split.
  - destruct H. constructor; simpl; lia.
  - unfold stream, held, window. cbn [mData mSize mReservoir mNumBitsLeft].
    rewrite Hb, !Z.sub_0_r, Z.add_0_r, app_assoc. f_equal.
    replace (Z.to_nat (mNumBitsLeft s + n)) with (Z.to_nat n + Z.to_nat (mNumBitsLeft s))%nat by lia.
    rewrite take_app_add' by (by rewrite bits_length). rewrite take_take. do 2 f_equal. lia.
Qed.

(** Bits that are the ones before the reader's position: no limit but 31. *)
Lemma put_synced x n s :
  reader_ok s -> synced s -> 1 <= n < 32 -> n <= pos s ->
  bits (Z.to_nat n) x = take (Z.to_nat n) (drop (Z.to_nat (pos s - n)) (bytes_bits buf)) ->
  exists s', CdxBitReaderPutBits awp_debug x n s = Ok tt s' /\ reader_ok s' /\ synced s' /\
    pos s' = pos s - n /\ same_end s s'.
Proof.
  intros H [Hp Hh] Hn Hnp Hx. pose proof (ok_left _ H) as HL.
  rewrite put_state by done. pose proof (unread_range n s H ltac:(lia)) as HU.
  destruct (put_reservoir x n s H Hn) as [Hr Hb].
  assert (unread n s <= mData s) as Hud by (unfold pos in *; lia).
  set (k := unread n s) in *. clearbody k. eexists. split; [done|].
  split; [destruct H; constructor; simpl; lia|]. split; [|unfold pos, same_end; simpl; lia].
  split; [unfold pos in *; simpl; lia|].
  replace (pos (mkReader _ _ _ _)) with (pos s - n) by (unfold pos; simpl; lia).
  unfold held. cbn [mReservoir mNumBitsLeft]. rewrite Hb.
  rewrite <- (take_drop (Z.to_nat n) (drop (Z.to_nat (pos s - n)) (bytes_bits buf))), <- Hx, drop_drop.
  replace (Z.to_nat (pos s - n) + Z.to_nat n)%nat with (Z.to_nat (pos s)) by lia.
  rewrite !take_app, bits_length. f_equal.
  set (j := (Z.to_nat _ - Z.to_nat n)%nat).
  assert (j <= Z.to_nat (mNumBitsLeft s) /\ j <= 32 - Z.to_nat n)%nat as [Hj1 Hj2] by (unfold j; lia).
  rewrite take_take. replace (min j (32 - Z.to_nat n)) with j by lia.
  replace j with (min j (Z.to_nat (mNumBitsLeft s))) by lia.
  rewrite <- !take_take. f_equal. exact Hh.
Qed.

Lemma synced_stream s :
  reader_ok s -> synced s ->
  stream s = take (Z.to_nat (mNumBitsLeft s + 8 * mSize s)) (drop (Z.to_nat (pos s)) (bytes_bits buf)).
Proof.
  intros H [Hp Hh]. pose proof (ok_left _ H). pose proof (ok_size _ H). unfold stream. rewrite Hh.
  replace (Z.to_nat (mNumBitsLeft s + 8 * mSize s))
    with (Z.to_nat (mNumBitsLeft s) + 8 * Z.to_nat (mSize s))%nat by lia.
  rewrite <- take_take_drop, drop_drop. f_equal.
  replace (Z.to_nat (pos s) + Z.to_nat (mNumBitsLeft s))%nat with (8 * Z.to_nat (mData s))%nat
    by (unfold pos in *; lia).
  rewrite bytes_bits_drop, bytes_bits_take. done.
Qed.

(** ** Whole calls *)

Lemma get_ok_bits n s :
  reader_ok s -> 0 <= n <= 32 -> n <= Z.of_nat (length (stream s)) ->
  (n = 32 -> 0 < mNumBitsLeft s < 32) ->
  exists r s', CdxBitReaderGetBits awp_debug buf n s = Ok r s' /\ reader_ok s' /\
    0 <= r < 2 ^ n /\ bits (Z.to_nat n) r = take (Z.to_nat n) (stream s) /\
    stream s' = drop (Z.to_nat n) (stream s) /\ same_end s s' /\
    (synced s \/ mNumBitsLeft s = 0 -> 0 < n -> synced s').
Proof.
  intros H Hn Hlen H32.
  destruct (get_loop_ok (Z.to_nat n) n 0 0 s H) as (r & s' & E & Hok & Hr & Hb & Hst & Hsy);
    [lia..|simpl; lia|done|].
  exists r, s'. split; [|done]. unfold CdxBitReaderGetBits.
  eapply bind_ok; [apply check_ok; lia|]. exact E.
Qed.

(** 32 bits with an empty or full reservoir: a shift by 32. *)
Lemma get_word_undef s :
  reader_ok s -> 32 <= Z.of_nat (length (stream s)) -> mNumBitsLeft s = 0 \/ mNumBitsLeft s = 32 ->
  CdxBitReaderGetBits awp_debug buf 32 s = Undef.
Proof.
  intros H Hlen HL. rewrite stream_length in Hlen by done.
  unfold CdxBitReaderGetBits, mbind, M_bind. rewrite check_ok by done.
  change (Z.to_nat 32) with (S 31). generalize 31%nat. intros fuel.
  simpl get_loop. simpl (32 >? 0). cbv iota.
  unfold mbind at 1, M_bind at 1, get at 1.
  assert (exists s1, (if mNumBitsLeft s =? 0 then onFillReservoir awp_debug buf else mret tt) s = Ok tt s1 /\
    mNumBitsLeft s1 = 32) as (s1 & E & E32).
  { destruct HL as [E|E]; rewrite E; [|by exists s].
    destruct (fill_ok s H E ltac:(lia)) as (s1 & E1 & _ & HL1 & _). exists s1. split; [done|lia]. }
  unfold mbind at 1, M_bind at 1. rewrite E. unfold mbind at 1, M_bind at 1, get at 1.
  by rewrite E32.
Qed.
End spec.

(** * The reader as a parser of bit strings *)

(** The number a string of bits stands for. *)
Definition value (l : list bool) : Z := fold_left (fun a b => 2 * a + Z.b2z b) l 0.

Lemma value_snoc l b : value (l ++ [b]) = 2 * value l + Z.b2z b.
Proof. unfold value. by rewrite fold_left_app. Qed.

Lemma value_range l : 0 <= value l < 2 ^ Z.of_nat (length l).
Proof.
  induction l as [|b l IH] using rev_ind; [done|].
  rewrite value_snoc, length_app, Nat2Z.inj_add, Z.pow_add_r by lia. simpl.
  change (2 ^ 1) with 2. destruct b; simpl; lia.
Qed.

Lemma bits_value l : bits (length l) (value l) = l.
Proof.
  induction l as [|b l IH] using rev_ind; [done|].
  rewrite length_app. simpl length. rewrite value_snoc.
  pose proof (bits_concat (length l) 1 (value l) (Z.b2z b)) as C.
  rewrite IH in C. replace (bits 1 (Z.b2z b)) with [b] in C by (by destruct b).
  rewrite <- C by (destruct b; simpl; lia). f_equal.
  rewrite Z.shiftl_mul_pow2 by lia. change (2 ^ Z.of_nat 1) with 2.
  apply Z.bits_inj'. intros i Hi. rewrite Z.lor_spec, (Z.mul_comm (value l)).
  destruct b; simpl Z.b2z.
  - destruct (decide (i = 0)) as [->|].
    + rewrite Z.testbit_odd_0, Z.testbit_even_0. done.
    + replace i with (Z.succ (i - 1)) by lia.
      rewrite Z.testbit_odd_succ, Z.testbit_even_succ by lia.
      by rewrite (Z.bits_above_log2 1), orb_false_r by (simpl; lia).
  - by rewrite Z.bits_0, orb_false_r, Z.add_0_r.
Qed.

Lemma bits_to_value n r l :
  0 <= r < 2 ^ Z.of_nat n -> bits n r = l -> length l = n -> r = value l.
Proof.
  intros Hr E HL. apply (bits_inj n); [done| |].
  - rewrite <- HL. apply value_range.
  - rewrite E, <- HL. symmetry. apply bits_value.
Qed.

(** A parser that reads fields of the given widths. *)
Fixpoint read_fields (awp_debug : bool) (buf : list Z) (ws : list Z) : M CdxBitReaderImpl (list Z) :=
  match ws with
  | [] => mret []
  | w :: ws =>
      v ← CdxBitReaderGetBits awp_debug buf w;
      vs ← read_fields awp_debug buf ws;
      mret (v :: vs)
  end.

(** The fields of a bit string. *)
Fixpoint fields (ws : list Z) (l : list bool) : list Z :=
  match ws with
  | [] => []
  | w :: ws => value (take (Z.to_nat w) l) :: fields ws (drop (Z.to_nat w) l)
  end.

Lemma read_fields_ok awp_debug buf ws s :
  Forall (fun b => 0 <= b < 256) buf -> Z.of_nat (length buf) < 2 ^ 28 ->
  reader_ok buf s -> Forall (fun w => 0 <= w < 32) ws ->
  zsum (fun w => w) ws <= Z.of_nat (length (stream buf s)) ->
  exists s', read_fields awp_debug buf ws s = Ok (fields ws (stream buf s)) s' /\
    reader_ok buf s' /\ same_end s s' /\
    stream buf s' = drop (Z.to_nat (zsum (fun w => w) ws)) (stream buf s).
Proof.
  intros Hb Hl H Hws Hsum. revert s H Hsum.
  induction Hws as [|w ws Hw Hws IH]; intros s H Hsum.
  { exists s. simpl. by rewrite drop_0. }
  assert (0 <= zsum (fun w => w) ws) by (apply zsum_nonneg; revert Hws; apply Forall_impl; lia).
  simpl zsum in *.
  destruct (get_ok_bits awp_debug buf Hb Hl w s H ltac:(lia) ltac:(lia) ltac:(lia))
    as (r & s1 & E & H1 & Hr & Hbits & Hst & Hse & _).
  destruct (IH s1 H1) as (s' & E' & H' & Hse' & Hst').
  { rewrite Hst, length_drop. lia. }
  exists s'. split; [|split; [done|split; [unfold same_end in *; lia|]]].
  - simpl. eapply bind_ok; [exact E|]. eapply bind_ok; [exact E'|]. rewrite Hst.
    rewrite (bits_to_value (Z.to_nat w) r _ ltac:(by rewrite Z2Nat.id by lia) Hbits); [done|].
    rewrite length_take. lia.
  - rewrite Hst', Hst, drop_drop. f_equal. lia.
Qed.

(** * Theorems *)

(** For a reader in a state the operations keep, [CdxBitReaderGetBits] of at
    most 32 bits returns the number the next bits of the buffer stand for and
    leaves the bits after them.  With too few bits left the process ends in a
    debug build and has undefined behaviour otherwise; so has a request of 32
    bits when the reservoir is empty or full (a shift by 32). *)
Theorem bitreader_get awp_debug buf s n :
  Forall (fun b => 0 <= b < 256) buf -> Z.of_nat (length buf) < 2 ^ 28 ->
  reader_ok buf s -> 0 <= n <= 32 ->
  let left := Z.of_nat (length (stream buf s)) in
  (n <= left -> (n = 32 -> 0 < mNumBitsLeft s < 32) ->
    exists s', CdxBitReaderGetBits awp_debug buf n s = Ok (value (take (Z.to_nat n) (stream buf s))) s' /\
      reader_ok buf s' /\ stream buf s' = drop (Z.to_nat n) (stream buf s)) /\
  (left < n -> ran_out awp_debug (CdxBitReaderGetBits awp_debug buf n s)) /\
  (n = 32 -> n <= left -> mNumBitsLeft s = 0 \/ mNumBitsLeft s = 32 ->
    CdxBitReaderGetBits awp_debug buf n s = Undef).
Proof.
  intros Hb Hl H Hn left. split; [|split].
  - intros Hle H32.
    destruct (get_ok_bits awp_debug buf Hb Hl n s H Hn Hle H32) as (r & s' & E & H' & Hr & Hbits & Hst & _).
    exists s'. rewrite E. split; [|done]. f_equal.
    apply (bits_to_value (Z.to_nat n)); [by rewrite Z2Nat.id by lia|done|].
    rewrite length_take. lia.
  - intros Hlt. unfold CdxBitReaderGetBits, mbind, M_bind. rewrite check_ok by lia.
    by apply get_loop_short; try done; lia.
  - intros -> Hle HL. by apply get_word_undef.
Qed.

Lemma bitreader_get_witness :
  let buf := [0xA5; 0x0F; 0x81; 0x42; 0x99] in
  exists s', CdxBitReaderGetBits false buf 12 (mkReader 0 5 0 0) = Ok 0xA50 s' /\
    reader_ok buf s' /\ stream buf s' = drop 12 (bytes_bits buf).
Proof.
  destruct (bitreader_get false [0xA5; 0x0F; 0x81; 0x42; 0x99] (mkReader 0 5 0 0) 12) as (H & _).
  - by repeat constructor.
  - vm_compute. reflexivity.
  - constructor; simpl; lia.
  - lia.
  - apply H; [vm_compute; discriminate | intros; lia].
Defined.

(** C35: A fresh reader over a buffer reads any sequence of fields of less than
    32 bits that the buffer has room for: it returns the fields of the bit string
    of the buffer, most significant bit first; what it reports to be left is what
    it did not read, and the pointer it reports is to the byte the next bit is in. *)
Theorem bitreader_session awp_debug buf ws blocks :
  Forall (fun b => 0 <= b < 256) buf -> Z.of_nat (length buf) < 2 ^ 28 ->
  Forall (fun w => 0 <= w < 32) ws -> zsum (fun w => w) ws <= 8 * Z.of_nat (length buf) ->
  exists s s',
    CdxBitReaderCreate awp_debug true (Z.of_nat (length buf)) blocks = Ok s (1 + blocks) /\
    read_fields awp_debug buf ws s = Ok (fields ws (bytes_bits buf)) s' /\
    CdxBitReaderNumBitsLeft s' = 8 * Z.of_nat (length buf) - zsum (fun w => w) ws /\
    CdxBitReaderData s' = zsum (fun w => w) ws / 8.
Proof.
  intros Hb Hl Hws Hsum. set (s := mkReader 0 (Z.of_nat (length buf)) 0 0).
  assert (reader_ok buf s) as H by (constructor; simpl; lia).
  assert (stream buf s = bytes_bits buf) as Es.
  { unfold stream, window. simpl. rewrite Nat2Z.id, drop_0, take_ge by done. done. }
  destruct (read_fields_ok awp_debug buf ws s Hb Hl H Hws) as (s' & E & H' & Hse & Hst).
  { rewrite Es, bytes_bits_length. lia. }
  rewrite Es in *. exists s, s'. split; [done|split; [done|]].
  pose proof (stream_length buf s' H') as HL.
  rewrite Hst, length_drop, bytes_bits_length in HL.
  assert (0 <= zsum (fun w => w) ws) by (apply zsum_nonneg; revert Hws; apply Forall_impl; lia).
  destruct H'. unfold same_end in Hse. simpl in Hse.
  unfold CdxBitReaderNumBitsLeft, CdxBitReaderData. rewrite (u32_small (_ * 8)), !u32_small by lia. split; [lia|dlia].
Qed.

Lemma bitreader_session_witness :
  exists s s',
    CdxBitReaderCreate true true 3 7 = Ok s 8 /\
    read_fields true [0x47; 0x41; 0x00] [8; 1; 1; 1; 13] s = Ok [0x47; 0; 1; 0; 0x100] s' /\
    CdxBitReaderNumBitsLeft s' = 0 /\ CdxBitReaderData s' = 3.
Proof.
  apply (bitreader_session true [0x47; 0x41; 0x00] [8; 1; 1; 1; 13] 7).
  - by repeat constructor.
  - vm_compute. reflexivity.
  - by repeat constructor.
  - vm_compute. discriminate.
Defined.

(** Bits that were just read can be put back: a reader whose reservoir holds
    bits of the buffer reads the same again after [CdxBitReaderGetBits] of up to 31
    bits and [CdxBitReaderPutBits] of the result, also where the reservoir
    has no room and its count wraps around below zero on the way.  Other bits can
    be put back as long as they fit into the reservoir; 31 bits on top of 2 lose
    one, and something else is read. *)
Theorem bitreader_put_back awp_debug buf s n :
  Forall (fun b => 0 <= b < 256) buf -> Z.of_nat (length buf) < 2 ^ 28 ->
  reader_ok buf s -> synced buf s -> 1 <= n < 32 ->
  (n <= Z.of_nat (length (stream buf s)) ->
    exists r s1 s2, CdxBitReaderGetBits awp_debug buf n s = Ok r s1 /\
      CdxBitReaderPutBits awp_debug r n s1 = Ok tt s2 /\
      reader_ok buf s2 /\ synced buf s2 /\ stream buf s2 = stream buf s) /\
  (forall x, mNumBitsLeft s + n <= 32 ->
    exists s2, CdxBitReaderPutBits awp_debug x n s = Ok tt s2 /\ reader_ok buf s2 /\
      stream buf s2 = bits (Z.to_nat n) x ++ stream buf s) /\
  (exists buf s x s2 r s3, reader_ok buf s /\ synced buf s /\ mNumBitsLeft s = 2 /\ 0 <= x < 2 ^ 31 /\
    CdxBitReaderPutBits awp_debug x 31 s = Ok tt s2 /\
    CdxBitReaderGetBits awp_debug buf 31 s2 = Ok r s3 /\ r <> x).
Proof.
  intros Hb Hl H Hs Hn. split; [|split].
  - intros Hle.
    destruct (get_ok_bits awp_debug buf Hb Hl n s H ltac:(lia) Hle ltac:(lia))
      as (r & s1 & E & H1 & Hr & Hbits & Hst & Hse & Hsy).
    specialize (Hsy (or_introl Hs) ltac:(lia)).
    pose proof (stream_length _ s H) as L. pose proof (stream_length _ s1 H1) as L1.
    rewrite Hst, length_drop in L1. unfold same_end in Hse.
    assert (pos s1 = pos s + n) as Hp1 by (unfold pos; lia).
    destruct (put_synced awp_debug buf Hl r n s1 H1 Hsy ltac:(lia)) as (s2 & E2 & H2 & Hsy2 & Hp2 & Hse2).
    { destruct Hs. lia. }
    { rewrite Hbits, synced_stream, take_take by done. f_equal; [lia|].
      f_equal. lia. }
    exists r, s1, s2. split_and!; [done..|]. rewrite !synced_stream by done.
    unfold same_end, pos in *. do 2 f_equal; [lia|]. f_equal; lia.
  - intros x Hfit. apply put_plain; try done. apply Hs.
  - exists [0; 0; 0; 0; 0; 0], (mkReader 4 2 0 2), (2 ^ 31 - 1).
    destruct awp_debug; do 3 eexists; (split; [constructor; simpl; lia|]);
      (split; [split; [vm_compute; discriminate | vm_compute; reflexivity]|]);
      (split; [done|]); (split; [lia|]); (split; [vm_compute; reflexivity|]);
      (split; [vm_compute; reflexivity|]); discriminate.
Qed.

Lemma bitreader_put_back_witness :
  exists r s1 s2, CdxBitReaderGetBits false [0x12; 0x34; 0x56; 0x78; 0x9A] 20 (mkReader 0 5 0 0) = Ok r s1 /\
    CdxBitReaderPutBits false r 20 s1 = Ok tt s2 /\
    reader_ok [0x12; 0x34; 0x56; 0x78; 0x9A] s2 /\
    synced [0x12; 0x34; 0x56; 0x78; 0x9A] s2 /\
    stream [0x12; 0x34; 0x56; 0x78; 0x9A] s2 =
    stream [0x12; 0x34; 0x56; 0x78; 0x9A] (mkReader 0 5 0 0).
Proof.
  apply (bitreader_put_back false [0x12; 0x34; 0x56; 0x78; 0x9A] (mkReader 0 5 0 0) 20).
  - by repeat constructor.
  - vm_compute. reflexivity.
  - constructor; simpl; lia.
  - done.
  - lia.
  - vm_compute. discriminate.
Defined.

End BitReaderSpec.
