(* ===== verification/CdxList.v ===== *)
(** The intrusive lists of the multimedia framework,
    [allwinner/libcedarx/libcore/base/include/CdxList.h] and [CdxList.i]: circular
    doubly linked lists whose head has the layout of a node.  The file has the
    operations on a memory of nodes and the list a head stands for. *)

From Stdlib Require Import ZArith Lia.
From stdpp Require Import base list list_numbers numbers gmap fin_maps.
From S2P Require Import Prelude.

Module CdxList.

(** * Data *)

(** [struct CdxListNodeS]; a [struct CdxListS] is used as a node with [head] for
    [next] and [tail] for [prev].  A pointer is a number. *)
Record CdxListNode := mkNode { next : Z; prev : Z }.
#[export] Instance eta_node : Eta CdxListNode := fun n => mkNode (next n) (prev n).

Definition CDX_LIST_POISON1 : Z := 0x00100100.
Definition CDX_LIST_POISON2 : Z := 0x00200200.

(** The nodes and heads that exist. *)
Abbreviation mem := (gmap Z CdxListNode).

Definition load (p : Z) : M mem CdxListNode := m ← get; lift (m !! p).
Definition set_next (p v : Z) : M mem unit :=
  n ← load p; modify (fun m => <[p := n <| next := v |>]> m).
Definition set_prev (p v : Z) : M mem unit :=
  n ← load p; modify (fun m => <[p := n <| prev := v |>]> m).

(** * Operations *)

Definition CdxListInit (lst : Z) : M mem unit := set_next lst lst;; set_prev lst lst.
Definition CdxListNodeInit (node : Z) : M mem unit := set_next node node;; set_prev node node.

Definition __CdxListAdd (new prv nxt : Z) : M mem unit :=
  set_prev nxt new;; set_next new nxt;; set_prev new prv;; set_next prv new.

Definition CdxListAdd (new lst : Z) : M mem unit :=
  l ← load lst; __CdxListAdd new lst (next l).

Definition CdxListAddBefore (new pos : Z) : M mem unit :=
  p ← load pos; __CdxListAdd new (prev p) pos.

Definition CdxListAddAfter (new pos : Z) : M mem unit :=
  p ← load pos; __CdxListAdd new pos (next p).

Definition CdxListAddTail (new lst : Z) : M mem unit :=
  l ← load lst; __CdxListAdd new (prev l) lst.

Definition __CdxListDel (prv nxt : Z) : M mem unit := set_prev nxt prv;; set_next prv nxt.

Definition __CdxListDelEntry (node : Z) : M mem unit :=
  n ← load node; __CdxListDel (prev n) (next n).

Definition CdxListDel (node : Z) : M mem unit :=
  n ← load node;
  __CdxListDel (prev n) (next n);;
  set_next node CDX_LIST_POISON1;;
  set_prev node CDX_LIST_POISON2.

Definition CdxListReplace (old new : Z) : M mem unit :=
  o ← load old;
  set_next new (next o);;
  n ← load new;
  set_prev (next n) new;;
  o ← load old;
  set_prev new (prev o);;
  n ← load new;
  set_next (prev n) new.

Definition CdxListReplaceInit (old new : Z) : M mem unit :=
  CdxListReplace old new;; CdxListNodeInit old.

Definition CdxListDelInit (node : Z) : M mem unit :=
  __CdxListDelEntry node;; CdxListNodeInit node.

Definition CdxListMove (node lst : Z) : M mem unit :=
  __CdxListDelEntry node;; CdxListAdd node lst.

Definition CdxListMoveTail (node lst : Z) : M mem unit :=
  __CdxListDelEntry node;; CdxListAddTail node lst.

Definition CdxListIsLast (node lst : Z) : M mem bool :=
  n ← load node; mret (next n =? lst).

Definition CdxListEmpty (lst : Z) : M mem bool :=
  l ← load lst; mret ((next l =? lst) && (prev l =? lst)).

Definition CdxListRotateLeft (lst : Z) : M mem unit :=
  e ← CdxListEmpty lst;
  if (e : bool) then mret tt else l ← load lst; CdxListMoveTail (next l) lst.

Definition CdxListIsSingular (lst : Z) : M mem bool :=
  e ← CdxListEmpty lst;
  l ← load lst;
  mret (negb e && (next l =? prev l)).

(** [CdxListForEach] and [CdxListForEachPrev]: the nodes in the order the loops
    visit them.  The safe variants visit the same nodes. *)
Fixpoint for_each_loop (step : CdxListNode -> Z) (fuel : nat) (pos lst : Z) : M mem (list Z) :=
  if pos =? lst then mret []
  else
    match fuel with
    | O => undef
    | S fuel =>
        n ← load pos;
        l ← for_each_loop step fuel (step n) lst;
        mret (pos :: l)
    end.

(** A list has at most as many nodes as there are in memory. *)
Definition CdxListForEach (lst : Z) : M mem (list Z) :=
  m ← get; l ← load lst; for_each_loop next (size m) (next l) lst.
Definition CdxListForEachPrev (lst : Z) : M mem (list Z) :=
  m ← get; l ← load lst; for_each_loop prev (size m) (prev l) lst.

(** * The list of a head *)

Definition nx (m : mem) (a : Z) : option Z := next <$> m !! a.
Definition pv (m : mem) (a : Z) : option Z := prev <$> m !! a.

(** Neighbours in [l] are linked both ways. *)
Fixpoint linked (m : mem) (l : list Z) : Prop :=
  match l with
  | a :: ((b :: _) as l') => nx m a = Some b /\ pv m b = Some a /\ linked m l'
  | _ => True
  end.

(** [dlist m h xs]: the head [h] stands for the nodes [xs]. *)
Definition dlist (m : mem) (h : Z) (xs : list Z) : Prop :=
  linked m (h :: xs ++ [h]) /\ NoDup (h :: xs).

End CdxList.
