(* ===== verification/CdxListSpec.v ===== *)
(** The list operations of the multimedia framework implement lists: any
    sequence of legal operations on any number of lists does to the links what
    the abstract operations do to the lists. *)

From Stdlib Require Import ZArith Lia.
From stdpp Require Import base list list_numbers numbers gmap fin_maps.
From S2P Require Import Prelude CdxList.

Module CdxListSpec.
Import CdxList.

(** * Links *)

Lemma linked_app m l1 a l2 :
  linked m (l1 ++ a :: l2) <-> linked m (l1 ++ [a]) /\ linked m (a :: l2).
Proof.
  induction l1 as [|x l1 IH]; [destruct l2; simpl; tauto|].
  destruct l1 as [|y l1]; simpl in *; [destruct l2|]; simpl in *; tauto.
Qed.

Lemma linked_ext m m' l :
  (forall a, a ∈ removelast l -> nx m' a = nx m a) ->
  (forall a, a ∈ tail l -> pv m' a = pv m a) -> linked m l -> linked m' l.
Proof.
  induction l as [|a l IH]; [done|]. destruct l as [|b l]; [done|].
  intros Hn Hp (E1 & E2 & L). split; [|split].
  - rewrite Hn; [done|]. simpl. by left.
  - rewrite Hp; [done|]. by left.
  - apply IH; [| |done].
    + intros c Hc. apply Hn. by right.
    + intros c Hc. apply Hp. by right.
Qed.

Lemma linked_prefix m l1 l2 : linked m (l1 ++ l2) -> linked m l1.
Proof.
  induction l1 as [|a l1 IH]; [done|]. destruct l1 as [|b l1]; [done|].
  intros (E1 & E2 & L). split_and!; [done..|]. by apply IH.
Qed.

(** A list of links from a node back to itself. *)
Definition ring (m : mem) (l : list Z) : Prop :=
  linked m l /\ NoDup (removelast l) /\ NoDup (tail l).

Lemma removelast_snoc {A} (l : list A) x : removelast (l ++ [x]) = l.
Proof. apply removelast_last. Qed.

Lemma dlist_ring m h xs : dlist m h xs <-> ring m (h :: xs ++ [h]).
Proof.
  unfold dlist, ring. rewrite app_comm_cons, removelast_snoc. simpl tail.
  rewrite (list.NoDup_app xs [h]), list.NoDup_cons. split; [|tauto].
  intros (H & Hn & Hd). split_and!; try done; [|by apply NoDup_singleton].
  by intros x Hx ->%list_elem_of_singleton.
Qed.

Lemma removelast_mid {A} (l1 l2 mid : list A) a b :
  removelast (l1 ++ a :: mid ++ b :: l2) = l1 ++ a :: mid ++ removelast (b :: l2).
Proof.
  rewrite !removelast_app by done. f_equal. rewrite app_comm_cons, removelast_app by done. done.
Qed.

Lemma tail_mid {A} (l1 l2 : list A) a : tail (l1 ++ a :: l2) = tail (l1 ++ [a]) ++ l2.
Proof. destruct l1; simpl; [done|]. by rewrite <- app_assoc. Qed.

(** The two nodes around a stretch of a ring are apart from the rest, except
    that the ring starts and ends at the same node. *)
Lemma ring_split m l1 a mid b l2 :
  ring m (l1 ++ a :: mid ++ b :: l2) ->
  (a ∉ l1) /\ (a ∉ removelast (b :: l2)) /\ (b ∉ tail (l1 ++ [a])) /\ (b ∉ l2).
Proof.
  intros (_ & Hn & Hp). rewrite removelast_mid in Hn. rewrite tail_mid in Hp.
  apply list.NoDup_app in Hn as (_ & Hn1 & Hn2). apply list.NoDup_cons in Hn2 as [Hn2 _].
  apply list.NoDup_app in Hp as (_ & Hp1 & Hp2). apply list.NoDup_app in Hp2 as (_ & _ & Hp2).
  apply list.NoDup_cons in Hp2 as [Hp2 _].
  split_and!; [| | |done].
  - intros H. by apply (Hn1 a H); left.
  - intros H. apply Hn2, elem_of_app. by right.
  - intros H. apply (Hp1 b H), elem_of_app. by right; left.
Qed.

Lemma elem_of_tail {A} (x : A) l : x ∈ tail l -> x ∈ l.
Proof. destruct l; [done|]. by right. Qed.

Lemma elem_of_removelast {A} (x : A) l : x ∈ removelast l -> x ∈ l.
Proof.
  induction l as [|y l IH]; [done|]. destruct l as [|z l]; simpl; [intros H; by apply not_elem_of_nil in H|]. intros [->|H]%elem_of_cons; [by left|]. right. by apply IH.
Qed.

Lemma nodup_mid' {A} (l1 mid mid' l2 : list A) :
  NoDup (l1 ++ mid ++ l2) -> NoDup mid' -> (forall x, x ∈ mid' -> (x ∉ l1) /\ (x ∉ l2)) ->
  NoDup (l1 ++ mid' ++ l2).
Proof.
  rewrite !list.NoDup_app. intros (H1 & H12 & (_ & _ & H2)) Hm Hd. split_and!; [done| |done| |done].
  - intros x Hx [H|H]%elem_of_app; [by destruct (Hd x H)|]. apply (H12 x Hx), elem_of_app. by right.
  - intros x Hx. by apply Hd.
Qed.

Lemma nodup_mid {A} (l1 : list A) a mid mid' l2 :
  NoDup (l1 ++ a :: mid ++ l2) -> NoDup mid' -> (forall x, x ∈ mid' -> (x ∉ l1 ++ [a]) /\ (x ∉ l2)) ->
  NoDup (l1 ++ a :: mid' ++ l2).
Proof.
  assert (forall l, l1 ++ a :: l = (l1 ++ [a]) ++ l) as E by (intros l; by rewrite <- app_assoc).
  rewrite (E (mid ++ l2)), (E (mid' ++ l2)). apply nodup_mid'.
Qed.

(** Changing what is between two nodes of a ring: the links between the two,
    and to and from what is put there, are all that has to change. *)
Lemma ring_change m m' l1 a mid mid' b l2 :
  ring m (l1 ++ a :: mid ++ b :: l2) ->
  linked m' (a :: mid' ++ [b]) -> NoDup mid' ->
  (forall x, x ∈ mid' -> (x ∉ l1 ++ a :: b :: l2)) ->
  (forall x, x ∈ l1 ++ b :: l2 -> x <> a -> nx m' x = nx m x) ->
  (forall x, x ∈ l1 ++ a :: l2 -> x <> b -> pv m' x = pv m x) ->
  ring m' (l1 ++ a :: mid' ++ b :: l2).
Proof.
  intros R L Hm Hd Hnx Hpv. pose proof (ring_split _ _ _ _ _ _ R) as (S1 & S2 & S3 & S4).
  destruct R as (RL & Rn & Rp). split; [|split].
  - apply linked_app in RL as [RL1 RL2]. rewrite app_comm_cons in RL2. apply linked_app in RL2 as [_ RL2].
    apply linked_app. split; [|rewrite app_comm_cons; apply linked_app; split; [done|]].
    + revert RL1. apply linked_ext; intros x Hx.
      * rewrite removelast_snoc in Hx. apply Hnx; [set_solver|by intros ->].
      * apply Hpv; [|by intros ->]. apply elem_of_tail in Hx. set_solver.
    + revert RL2. apply linked_ext; intros x Hx.
      * apply Hnx; [|by intros ->]. apply elem_of_removelast in Hx. set_solver.
      * apply Hpv; [set_solver|by intros ->].
  - rewrite removelast_mid in *. apply (nodup_mid l1 a mid); [done|done|].
    intros x Hx. specialize (Hd x Hx). split; [set_solver|].
    intros H%elem_of_removelast. set_solver.
  - rewrite tail_mid in *. apply (nodup_mid' _ mid); [done|done|].
    intros x Hx. specialize (Hd x Hx). split; [|set_solver].
    intros H%elem_of_tail. set_solver.
Qed.

(** ** Writes *)

Lemma nx_is_Some m a : is_Some (nx m a) <-> is_Some (m !! a).
Proof. unfold nx. apply fmap_is_Some. Qed.
Lemma pv_is_Some m a : is_Some (pv m a) <-> is_Some (nx m a).
Proof. unfold pv, nx. by rewrite !fmap_is_Some. Qed.

Lemma twp_load p v (Q : CdxListNode -> mem -> Prop) m :
  nx m p = Some v -> (forall n, next n = v -> pv m p = Some (prev n) -> Q n m) -> twp (load p) Q m.
Proof.
  unfold nx, pv. intros E H. destruct (m !! p) as [n|] eqn:En; [|done]. simpl in E. simplify_eq.
  eapply twp_intro; [|by apply (H n)]. unfold load. eapply bind_ok; [done|by apply lift_ok].
Qed.

Lemma twp_set_next p v (Q : unit -> mem -> Prop) m :
  is_Some (nx m p) ->
  (forall m', (forall a, nx m' a = if decide (a = p) then Some v else nx m a) ->
              (forall a, pv m' a = pv m a) -> Q tt m') ->
  twp (set_next p v) Q m.
Proof.
  intros [n E]%nx_is_Some H. eapply twp_intro.
  { unfold set_next, load. eapply bind_ok; [eapply bind_ok; [done|by apply lift_ok]|done]. }
  apply H; intros a; unfold nx, pv; cbv beta; destruct (decide (a = p)) as [->|].
  - by rewrite lookup_insert_eq.
  - by rewrite lookup_insert_ne by done.
  - by rewrite lookup_insert_eq, E.
  - by rewrite lookup_insert_ne by done.
Qed.

Lemma twp_set_prev p v (Q : unit -> mem -> Prop) m :
  is_Some (nx m p) ->
  (forall m', (forall a, nx m' a = nx m a) ->
              (forall a, pv m' a = if decide (a = p) then Some v else pv m a) -> Q tt m') ->
  twp (set_prev p v) Q m.
Proof.
  intros [n E]%nx_is_Some H. eapply twp_intro.
  { unfold set_prev, load. eapply bind_ok; [eapply bind_ok; [done|by apply lift_ok]|done]. }
  apply H; intros a; unfold nx, pv; cbv beta; destruct (decide (a = p)) as [->|].
  - by rewrite lookup_insert_eq, E.
  - by rewrite lookup_insert_ne by done.
  - by rewrite lookup_insert_eq.
  - by rewrite lookup_insert_ne by done.
Qed.

(** Runs writes of links, with the equations of each memory in the context. *)
Ltac links :=
  repeat match goal with
  | |- twp (@mbind _ _ _ _ _ _) _ _ => apply twp_bind
  | |- twp (set_next _ _) _ _ =>
      apply twp_set_next; [|let m := fresh "m" in intros m ?Hnx ?Hpv]
  | |- twp (set_prev _ _) _ _ =>
      apply twp_set_prev; [|let m := fresh "m" in intros m ?Hnx ?Hpv]
  end.

Ltac eq_links :=
  repeat match goal with
  | H : forall a, nx _ a = _ |- _ => rewrite H in *
  | H : forall a, pv _ a = _ |- _ => rewrite H in *
  end; repeat case_decide; simplify_eq; try done.

(** [__CdxListAdd] and [__CdxListDel] as changes of links. *)
Lemma twp_add new p q (Q : unit -> mem -> Prop) m :
  is_Some (nx m new) -> is_Some (nx m p) -> is_Some (nx m q) -> new <> p -> new <> q ->
  (forall m',
    (forall a, nx m' a = if decide (a = p) then Some new
                         else if decide (a = new) then Some q else nx m a) ->
    (forall a, pv m' a = if decide (a = q) then Some new
                         else if decide (a = new) then Some p else pv m a) -> Q tt m') ->
  twp (__CdxListAdd new p q) Q m.
Proof.
  intros Hn Hp Hq Hnp Hnq H. unfold __CdxListAdd. links; try by (eq_links; eauto).
  apply H; intros a; eq_links.
Qed.

Lemma twp_del p q (Q : unit -> mem -> Prop) m :
  is_Some (nx m p) -> is_Some (nx m q) ->
  (forall m',
    (forall a, nx m' a = if decide (a = p) then Some q else nx m a) ->
    (forall a, pv m' a = if decide (a = q) then Some p else pv m a) -> Q tt m') ->
  twp (__CdxListDel p q) Q m.
Proof.
  intros Hp Hq H. unfold __CdxListDel. links; try by (eq_links; eauto).
  apply H; intros a; eq_links.
Qed.

(** * Many lists in one memory *)

(** [ls] has the nodes of every list, by its head. *)
Definition free (ls : gmap Z (list Z)) (n : Z) : Prop :=
  forall h xs, ls !! h = Some xs -> (n ∉ h :: xs).

Record rep (m : mem) (ls : gmap Z (list Z)) : Prop := {
  rep_list : forall h xs, ls !! h = Some xs -> dlist m h xs;
  rep_apart : forall h1 h2 xs1 xs2 x, ls !! h1 = Some xs1 -> ls !! h2 = Some xs2 ->
    x ∈ h1 :: xs1 -> x ∈ h2 :: xs2 -> h1 = h2
}.

(** The neighbours of a stretch of a list. *)
Lemma around h (xs ys : list Z) :
  exists l1 a b l2, h :: xs = l1 ++ [a] /\ ys ++ [h] = b :: l2 /\
    forall mid, h :: (xs ++ mid ++ ys) ++ [h] = l1 ++ a :: mid ++ b :: l2.
Proof.
  assert (exists l1 a, h :: xs = l1 ++ [a]) as (l1 & a & E1).
  { destruct xs as [|a xs _] using rev_ind; [by exists [], h|]. by exists (h :: xs), a. }
  assert (exists b l2, ys ++ [h] = b :: l2) as (b & l2 & E2)
    by (destruct ys as [|b ys]; [by exists h, []|by exists b, (ys ++ [h])]).
  exists l1, a, b, l2. split_and!; [done..|]. intros mid.
  rewrite <- !app_assoc, E2. change (h :: xs ++ mid ++ b :: l2) with ((h :: xs) ++ mid ++ b :: l2).
  rewrite E1, <- app_assoc. done.
Qed.

Definition links_at (m : mem) (a : Z) (l : list Z) (b : Z) : Prop := linked m (a :: l ++ [b]).

Lemma rep_links m ls h xs mid ys l1 a b l2 :
  rep m ls -> ls !! h = Some (xs ++ mid ++ ys) ->
  (forall mid, h :: (xs ++ mid ++ ys) ++ [h] = l1 ++ a :: mid ++ b :: l2) ->
  links_at m a mid b.
Proof.
  intros R E Hm. apply (rep_list _ _ R) in E as [L _]. rewrite Hm in L.
  apply linked_app in L as [_ L]. rewrite app_comm_cons in L. apply linked_app in L as [L _]. done.
Qed.

Lemma rep_change m m' ls h xs mid mid' ys l1 a b l2 :
  rep m ls -> ls !! h = Some (xs ++ mid ++ ys) ->
  h :: xs = l1 ++ [a] -> ys ++ [h] = b :: l2 ->
  (forall mid, h :: (xs ++ mid ++ ys) ++ [h] = l1 ++ a :: mid ++ b :: l2) ->
  links_at m' a mid' b -> NoDup mid' -> (forall x, x ∈ mid' -> free ls x) ->
  (forall x, x <> a -> (x ∉ mid) -> (x ∉ mid') -> nx m' x = nx m x) ->
  (forall x, x <> b -> (x ∉ mid) -> (x ∉ mid') -> pv m' x = pv m x) ->
  rep m' (<[h := xs ++ mid' ++ ys]> ls).
Proof.
  intros R E Ea Eb Hm L Hd Hfree Hnx Hpv.
  assert (a ∈ h :: xs) as Ia by (rewrite Ea; set_solver).
  assert (b ∈ ys ++ [h]) as Ib by (rewrite Eb; set_solver).
  assert (forall x, x ∈ mid' -> (x ∉ h :: xs ++ mid ++ ys)) as Hfresh
    by (intros x Hx; by apply (Hfree x Hx)).
  pose proof (rep_list _ _ R _ _ E) as D0.
  assert (forall x, x ∈ mid -> (x ∉ h :: xs) /\ (x ∉ ys ++ [h])) as Hapart.
  { destruct D0 as [_ N]. rewrite app_comm_cons in N. apply list.NoDup_app in N as (_ & N1 & N2).
    apply list.NoDup_app in N2 as (_ & N2 & _). intros x Hx. split; [set_solver|].
    intros [H|H]%elem_of_app; [by apply (N2 x Hx)|]. set_solver. }
  assert (dlist m' h (xs ++ mid' ++ ys)) as D.
  { apply dlist_ring in D0. apply dlist_ring. rewrite Hm in *.
    apply (ring_change m _ _ _ mid); try done; rewrite <- ?Eb.
    - intros x Hx. apply Hfresh in Hx. rewrite app_comm_cons in Hx.
      intros H. apply Hx. replace (l1 ++ a :: ys ++ [h]) with ((l1 ++ [a]) ++ ys ++ [h]) in H
        by (by rewrite <- app_assoc). rewrite <- Ea in H. set_solver.
    - intros x Hx Hxa. assert (x ∈ (h :: xs) ++ ys ++ [h]) as Hin by (rewrite Ea; set_solver).
      apply Hnx; [done| |]; intros H; [apply Hapart in H|apply Hfresh in H]; set_solver.
    - intros x Hx Hxa. assert (x ∈ (h :: xs) ++ ys ++ [h]) as Hin by (rewrite Ea, Eb; set_solver).
      apply Hpv; [done| |]; intros H; [apply Hapart in H|apply Hfresh in H]; set_solver. }
  assert (forall h' xs' x, ls !! h' = Some xs' -> h' <> h -> x ∈ h' :: xs' ->
    x <> a /\ x <> b /\ (x ∉ mid) /\ (x ∉ mid')) as Hother.
  { intros h' xs' x E' Hne Hx.
    assert (x ∉ h :: xs ++ mid ++ ys) as Hn
      by (intros Hx'; by apply Hne, (rep_apart _ _ R _ _ _ _ x E' E)).
    split_and!; [set_solver..|]. intros Hx'. by apply (Hfree x Hx' h' xs'). }
  split.
  - intros h' xs' E'. destruct (decide (h' = h)) as [->|Hne].
    { rewrite lookup_insert_eq in E'. by simplify_eq. }
    rewrite lookup_insert_ne in E' by done. destruct (rep_list _ _ R _ _ E') as [L' N']. split; [|done].
    revert L'. apply linked_ext; intros x Hx.
    + rewrite app_comm_cons, removelast_snoc in Hx.
      destruct (Hother h' xs' x E' Hne Hx) as (? & ? & ? & ?). by apply Hnx.
    + simpl in Hx. destruct (Hother h' xs' x E' Hne ltac:(set_solver)) as (? & ? & ? & ?). by apply Hpv.
  - assert (forall h' xs' x, ls !! h' = Some xs' -> x ∈ h' :: xs' -> x ∈ h :: xs ++ mid' ++ ys -> h' = h) as Hx1.
    { intros h' xs' x E' Hx Hx'. destruct (decide (h' = h)) as [|Hne]; [done|].
      destruct (Hother h' xs' x E' Hne Hx) as (_ & _ & _ & Hx2).
      apply (rep_apart _ _ R _ _ _ _ x E' E Hx). set_solver. }
    intros h1 h2 xs1 xs2 x E1 E2 X1 X2.
    destruct (decide (h1 = h)) as [->|N1], (decide (h2 = h)) as [->|N2];
      simplify_map_eq; try done.
    + symmetry. by apply (Hx1 h2 xs2 x).
    + by apply (Hx1 h1 xs1 x).
    + by apply (rep_apart _ _ R _ _ _ _ x E1 E2).
Qed.

(** Links of nodes on no list do not matter. *)
Lemma rep_ext m m' ls :
  rep m ls -> (forall x, ~ free ls x -> nx m' x = nx m x /\ pv m' x = pv m x) -> rep m' ls.
Proof.
  intros R H. split; [|apply R]. intros h xs E. destruct (rep_list _ _ R h xs E) as [L N].
  split; [|done].
  assert (forall x, x ∈ h :: xs -> nx m' x = nx m x /\ pv m' x = pv m x) as H'
    by (intros x Hx; apply H; intros F; by apply (F h xs E)).
  revert L. apply linked_ext; intros x Hx; apply H'.
  - by rewrite app_comm_cons, removelast_snoc in Hx.
  - simpl in Hx. set_solver.
Qed.

Definition same_nodes (m m' : mem) : Prop := forall x, is_Some (nx m' x) <-> is_Some (nx m x).

Lemma links_at_some m a l b x : links_at m a l b -> x ∈ a :: l ++ [b] -> is_Some (nx m x).
Proof.
  unfold links_at. revert a. induction l as [|c l IH]; intros a L Hx; simpl in *.
  - destruct L as (E1 & E2 & _). apply elem_of_cons in Hx as [->|Hx]; [by eauto|].
    apply list_elem_of_singleton in Hx as ->. apply pv_is_Some. by eauto.
  - destruct L as (E1 & E2 & L). apply elem_of_cons in Hx as [->|Hx]; [by eauto|]. by apply (IH c).
Qed.

Section ops.
Context (m : mem) (ls : gmap Z (list Z)) (R : rep m ls).

(** What an operation that changes the list [h] to [xs] leaves. *)
Definition changed (h : Z) (xs : list Z) (m' : mem) : Prop :=
  rep m' (<[h := xs]> ls) /\ same_nodes m m'.

Lemma insert_between h xs ys n :
  ls !! h = Some (xs ++ ys) -> free ls n -> is_Some (nx m n) ->
  exists a b, nx m a = Some b /\ pv m b = Some a /\
    list.last (h :: xs) = Some a /\ head (ys ++ [h]) = Some b /\
    twp (__CdxListAdd n a b) (fun _ m' => changed h (xs ++ n :: ys) m') m.
Proof.
  intros E F Hn. destruct (around h xs ys) as (l1 & a & b & l2 & Ea & Eb & Hm).
  pose proof (rep_links m ls h xs [] ys l1 a b l2 R E Hm) as L.
  pose proof (links_at_some m a [] b a L ltac:(set_solver)) as Sa.
  pose proof (links_at_some m a [] b b L ltac:(set_solver)) as Sb.
  destruct L as (L1 & L2 & _). exists a, b. split_and!; try done.
  { rewrite Ea. apply last_snoc. } { by rewrite Eb. }
  pose proof (F h _ E) as Fh.
  assert (a ∈ h :: xs) by (rewrite Ea; set_solver).
  assert (b ∈ ys ++ [h]) by (rewrite Eb; set_solver).
  assert (n <> a) by set_solver. assert (n <> b) by set_solver.
  apply twp_add; try done. intros m' Hnx Hpv. split.
  - apply (rep_change m m' ls h xs [] [n] ys l1 a b l2); try done.
    + unfold links_at. simpl. rewrite !Hnx, !Hpv. repeat case_decide; simplify_eq; done.
    + by apply NoDup_singleton.
    + by intros x ->%list_elem_of_singleton.
    + intros x Hx _ Hx'. rewrite Hnx. repeat case_decide; set_solver.
    + intros x Hx _ Hx'. rewrite Hpv. repeat case_decide; set_solver.
  - intros x. rewrite Hnx. repeat case_decide; subst; naive_solver.
Qed.

Lemma del_between h xs x ys :
  ls !! h = Some (xs ++ x :: ys) ->
  exists a b, pv m x = Some a /\ nx m x = Some b /\
    twp (__CdxListDel a b) (fun _ m' => changed h (xs ++ ys) m' /\ free (<[h := xs ++ ys]> ls) x) m.
Proof.
  intros E. destruct (around h xs ys) as (l1 & a & b & l2 & Ea & Eb & Hm).
  pose proof (rep_links m ls h xs [x] ys l1 a b l2 R E Hm) as L.
  pose proof (links_at_some m a [x] b a L ltac:(set_solver)) as Sa.
  pose proof (links_at_some m a [x] b b L ltac:(set_solver)) as Sb.
  destruct L as (L1 & L2 & L3 & L4 & _). exists a, b. split_and!; try done.
  assert (x ∉ h :: xs ++ ys) as Hx.
  { destruct (rep_list _ _ R _ _ E) as [_ N]. rewrite app_comm_cons in *.
    apply list.NoDup_app in N as (_ & N1 & N2). apply list.NoDup_cons in N2 as [N2 _]. set_solver. }
  apply twp_del; try done. intros m' Hnx Hpv. split; [split|].
  - apply (rep_change m m' ls h xs [x] [] ys l1 a b l2); try done.
    + unfold links_at. simpl. rewrite Hnx, Hpv. by repeat case_decide.
    + apply NoDup_nil_2.
    + by intros ? ?%not_elem_of_nil.
    + intros y Hy _ _. rewrite Hnx. by case_decide.
    + intros y Hy _ _. rewrite Hpv. by case_decide.
  - intros y. rewrite Hnx. case_decide; subst; naive_solver.
  - intros h' xs' E'. destruct (decide (h' = h)) as [->|Hne]; simplify_map_eq; [done|].
    intros Hin. by apply Hne, (rep_apart _ _ R _ _ _ _ x E' E Hin); set_solver.
Qed.

Lemma head_next h xs : ls !! h = Some xs -> nx m h = Some (default h (head xs)).
Proof.
  intros E. destruct (rep_list _ _ R _ _ E) as [L _]. by destruct xs; destruct L as (L & _).
Qed.

Lemma head_prev h xs : ls !! h = Some xs -> pv m h = Some (default h (list.last xs)).
Proof.
  intros E. destruct (rep_list _ _ R _ _ E) as [L _].
  destruct xs as [|x xs _] using rev_ind; [by destruct L as (_ & L & _)|].
  rewrite last_snoc. simpl. rewrite <- app_assoc, app_comm_cons in L. apply linked_app in L as [_ L].
  apply L.
Qed.

(** ** Operations *)

Lemma add_rep n h xs :
  ls !! h = Some xs -> free ls n -> is_Some (nx m n) ->
  twp (CdxListAdd n h) (fun _ m' => changed h (n :: xs) m') m.
Proof.
  intros E F Hn. destruct (insert_between h [] xs n E F Hn) as (a & b & L1 & L2 & Ea & Eb & T).
  simpl in Ea. simplify_eq. apply twp_bind. eapply twp_load; [done|]. by intros n0 -> _.
Qed.

Lemma add_tail_rep n h xs :
  ls !! h = Some xs -> free ls n -> is_Some (nx m n) ->
  twp (CdxListAddTail n h) (fun _ m' => changed h (xs ++ [n]) m') m.
Proof.
  intros E F Hn. rewrite <- (app_nil_r xs) in E.
  destruct (insert_between h xs [] n E F Hn) as (a & b & L1 & L2 & Ea & Eb & T).
  simpl in Eb. simplify_eq. apply twp_bind. eapply twp_load; [by eapply head_next|].
  intros n0 _ L. rewrite L2 in L. by simplify_eq.
Qed.

Lemma add_before_rep n p h xs ys :
  ls !! h = Some (xs ++ p :: ys) -> free ls n -> is_Some (nx m n) ->
  twp (CdxListAddBefore n p) (fun _ m' => changed h (xs ++ n :: p :: ys) m') m.
Proof.
  intros E F Hn. destruct (insert_between h xs (p :: ys) n E F Hn) as (a & b & L1 & L2 & Ea & Eb & T).
  simpl in Eb. simplify_eq. destruct (del_between h xs b ys E) as (_ & b' & _ & Lb & _).
  apply twp_bind. eapply twp_load; [exact Lb|]. intros n0 _ L. rewrite L2 in L. by simplify_eq.
Qed.

Lemma add_after_rep n p h xs ys :
  ls !! h = Some (xs ++ p :: ys) -> free ls n -> is_Some (nx m n) ->
  twp (CdxListAddAfter n p) (fun _ m' => changed h (xs ++ p :: n :: ys) m') m.
Proof.
  intros E F Hn. rewrite (cons_middle p), app_assoc in E.
  destruct (insert_between h (xs ++ [p]) ys n E F Hn) as (a & b & L1 & L2 & Ea & Eb & T).
  rewrite app_comm_cons, last_snoc in Ea. simplify_eq.
  apply twp_bind. eapply twp_load; [done|]. intros n0 -> _. by rewrite <- app_assoc in T.
Qed.

Lemma del_entry_rep x h xs ys :
  ls !! h = Some (xs ++ x :: ys) ->
  twp (__CdxListDelEntry x)
    (fun _ m' => changed h (xs ++ ys) m' /\ free (<[h := xs ++ ys]> ls) x) m.
Proof.
  intros E. destruct (del_between h xs x ys E) as (a & b & La & Lb & T).
  apply twp_bind. eapply twp_load; [done|]. intros n <- L. by simplify_eq.
Qed.
End ops.

Lemma same_nodes_trans m1 m2 m3 : same_nodes m1 m2 -> same_nodes m2 m3 -> same_nodes m1 m3.
Proof. intros H1 H2 x. by rewrite (H2 x), (H1 x). Qed.

(** Writing the links of a node on no list, as [CdxListDel] and
    [CdxListNodeInit] do. *)
Lemma free_writes m ls x v w :
  rep m ls -> free ls x -> is_Some (nx m x) ->
  twp (set_next x v;; set_prev x w) (fun _ m' => rep m' ls /\ same_nodes m m' /\
    nx m' x = Some v /\ pv m' x = Some w) m.
Proof.
  intros R F Hx. links; [done|by eq_links|].
  split; [|split; [|by eq_links]].
  - apply (rep_ext m); [done|]. intros y Hy. assert (y <> x) by (by intros ->). by eq_links.
  - intros y. eq_links; naive_solver.
Qed.

Lemma replace_rep m ls o n h xs ys :
  rep m ls -> ls !! h = Some (xs ++ o :: ys) -> free ls n -> is_Some (nx m n) ->
  twp (CdxListReplace o n) (fun _ m' => changed m ls h (xs ++ n :: ys) m') m.
Proof.
  intros R E F Hn. destruct (around h xs ys) as (l1 & a & b & l2 & Ea & Eb & Hm).
  pose proof (rep_links m ls h xs [o] ys l1 a b l2 R E Hm) as L.
  pose proof (links_at_some m a [o] b a L ltac:(set_solver)) as Sa.
  pose proof (links_at_some m a [o] b b L ltac:(set_solver)) as Sb.
  destruct L as (L1 & L2 & L3 & L4 & _). pose proof (F h _ E) as Fh.
  assert (a ∈ h :: xs) by (rewrite Ea; set_solver).
  assert (b ∈ ys ++ [h]) by (rewrite Eb; set_solver).
  assert (n <> a) by set_solver. assert (n <> b) by set_solver. assert (n <> o) by set_solver.
  assert (o <> b) as Hob.
  { intros ->. destruct (rep_list _ _ R _ _ E) as [_ N]. rewrite app_comm_cons in N.
    apply list.NoDup_app in N as (_ & N1 & N2). apply list.NoDup_cons in N2 as [N2 _].
    specialize (N1 h). set_solver. }
  unfold CdxListReplace. apply twp_bind. eapply twp_load; [exact L3|]. intros no -> _.
  apply twp_bind, twp_set_next; [done|]. intros m1 Hnx1 Hpv1.
  apply twp_bind. eapply (twp_load n b); [by rewrite Hnx1; case_decide|]. intros n1 E1 _. rewrite E1.
  apply twp_bind, twp_set_prev; [by eq_links|]. intros m2 Hnx2 Hpv2.
  apply twp_bind. eapply (twp_load o b); [by eq_links|]. intros n2 _ E2.
  assert (prev n2 = a) as -> by (rewrite Hpv2, Hpv1 in E2; case_decide; congruence).
  apply twp_bind, twp_set_prev; [by eq_links|]. intros m3 Hnx3 Hpv3.
  apply twp_bind. eapply (twp_load n b); [by eq_links|]. intros n3 _ E3.
  assert (prev n3 = a) as -> by (rewrite Hpv3 in E3; case_decide; congruence).
  apply twp_set_next; [by eq_links|]. intros m4 Hnx4 Hpv4. split.
  - apply (rep_change m m4 ls h xs [o] [n] ys l1 a b l2); try done.
    + unfold links_at. simpl. eq_links.
    + by apply NoDup_singleton.
    + by intros x ->%list_elem_of_singleton.
    + intros x Hx _ Hx'. assert (x <> n) by set_solver. eq_links.
    + intros x Hx _ Hx'. assert (x <> n) by set_solver. eq_links.
  - intros x. eq_links; naive_solver.
Qed.

(** * Refinement *)

(** The operations, and what they do to lists.  [nodes] are the nodes in memory. *)
Inductive op :=
| OInit (h : Z) | OAdd (n h : Z) | OAddTail (n h : Z) | OAddBefore (n p : Z) | OAddAfter (n p : Z)
| ODel (n : Z) | ODelInit (n : Z) | OReplace (o n : Z) | OReplaceInit (o n : Z)
| OMove (n h : Z) | OMoveTail (n h : Z) | ORotateLeft (h : Z).

Definition run_op (o : op) : M mem unit :=
  match o with
  | OInit h => CdxListInit h
  | OAdd n h => CdxListAdd n h
  | OAddTail n h => CdxListAddTail n h
  | OAddBefore n p => CdxListAddBefore n p
  | OAddAfter n p => CdxListAddAfter n p
  | ODel n => CdxListDel n
  | ODelInit n => CdxListDelInit n
  | OReplace o n => CdxListReplace o n
  | OReplaceInit o n => CdxListReplaceInit o n
  | OMove n h => CdxListMove n h
  | OMoveTail n h => CdxListMoveTail n h
  | ORotateLeft h => CdxListRotateLeft h
  end.

Fixpoint run_ops (l : list op) : M mem unit :=
  match l with [] => mret tt | o :: l => run_op o;; run_ops l end.

Inductive abs (nodes : gset Z) : op -> gmap Z (list Z) -> gmap Z (list Z) -> Prop :=
| a_init ls h : free ls h -> h ∈ nodes -> abs nodes (OInit h) ls (<[h := []]> ls)
| a_add ls n h xs : ls !! h = Some xs -> free ls n -> n ∈ nodes ->
    abs nodes (OAdd n h) ls (<[h := n :: xs]> ls)
| a_add_tail ls n h xs : ls !! h = Some xs -> free ls n -> n ∈ nodes ->
    abs nodes (OAddTail n h) ls (<[h := xs ++ [n]]> ls)
| a_add_before ls n p h xs ys : ls !! h = Some (xs ++ p :: ys) -> free ls n -> n ∈ nodes ->
    abs nodes (OAddBefore n p) ls (<[h := xs ++ n :: p :: ys]> ls)
| a_add_after ls n p h xs ys : ls !! h = Some (xs ++ p :: ys) -> free ls n -> n ∈ nodes ->
    abs nodes (OAddAfter n p) ls (<[h := xs ++ p :: n :: ys]> ls)
| a_del ls n h xs ys : ls !! h = Some (xs ++ n :: ys) ->
    abs nodes (ODel n) ls (<[h := xs ++ ys]> ls)
| a_del_init ls n h xs ys : ls !! h = Some (xs ++ n :: ys) ->
    abs nodes (ODelInit n) ls (<[h := xs ++ ys]> ls)
| a_replace ls o n h xs ys : ls !! h = Some (xs ++ o :: ys) -> free ls n -> n ∈ nodes ->
    abs nodes (OReplace o n) ls (<[h := xs ++ n :: ys]> ls)
| a_replace_init ls o n h xs ys : ls !! h = Some (xs ++ o :: ys) -> free ls n -> n ∈ nodes ->
    abs nodes (OReplaceInit o n) ls (<[h := xs ++ n :: ys]> ls)
| a_move ls n h h' xs ys zs : ls !! h = Some (xs ++ n :: ys) -> <[h := xs ++ ys]> ls !! h' = Some zs ->
    abs nodes (OMove n h') ls (<[h' := n :: zs]> (<[h := xs ++ ys]> ls))
| a_move_tail ls n h h' xs ys zs : ls !! h = Some (xs ++ n :: ys) -> <[h := xs ++ ys]> ls !! h' = Some zs ->
    abs nodes (OMoveTail n h') ls (<[h' := zs ++ [n]]> (<[h := xs ++ ys]> ls))
| a_rotate_nil ls h : ls !! h = Some [] -> abs nodes (ORotateLeft h) ls ls
| a_rotate ls h x xs : ls !! h = Some (x :: xs) ->
    abs nodes (ORotateLeft h) ls (<[h := xs ++ [x]]> ls).

Inductive abs_run (nodes : gset Z) : list op -> gmap Z (list Z) -> gmap Z (list Z) -> Prop :=
| abs_nil ls : abs_run nodes [] ls ls
| abs_cons o l ls1 ls2 ls3 : abs nodes o ls1 ls2 -> abs_run nodes l ls2 ls3 ->
    abs_run nodes (o :: l) ls1 ls3.

(** What a step leaves. *)
Definition now (m : mem) (ls : gmap Z (list Z)) (m' : mem) : Prop := rep m' ls /\ same_nodes m m'.

Lemma lists_init_rep m ls h :
  rep m ls -> free ls h -> is_Some (nx m h) ->
  twp (CdxListInit h) (fun _ m' => now m (<[h := []]> ls) m') m.
Proof.
  intros R F Hh. eapply twp_mono; [by apply (free_writes m ls)|].
  intros _ m' (R' & S & E1 & E2). split; [|done]. split.
  - intros h' xs E. destruct (decide (h' = h)) as [->|]; simplify_map_eq; [|by apply R'].
    split; [done|]. by apply NoDup_singleton.
  - assert (forall h' xs x, ls !! h' = Some xs -> x ∈ h' :: xs -> x ∈ [h] -> h' = h) as Hx.
    { intros h' xs x E Hx ->%list_elem_of_singleton. by destruct (F h' xs E Hx). }
    intros h1 h2 xs1 xs2 x E1' E2' X1 X2.
    destruct (decide (h1 = h)) as [->|], (decide (h2 = h)) as [->|]; simplify_map_eq; try done.
    + symmetry. by eapply Hx.
    + by eapply Hx.
    + by eapply (rep_apart _ _ R').
Qed.

Lemma del_rep m ls n h xs ys :
  rep m ls -> ls !! h = Some (xs ++ n :: ys) ->
  twp (CdxListDel n) (fun _ m' => now m (<[h := xs ++ ys]> ls) m') m.
Proof.
  intros R E. destruct (del_between m ls R h xs n ys E) as (a & b & La & Lb & T).
  apply twp_bind. eapply twp_load; [done|]. intros n0 <- L. rewrite La in L. simplify_eq.
  apply twp_bind. eapply twp_mono; [exact T|]. intros _ m1 [[R1 S1] F1].
  assert (is_Some (nx m1 n)) as Sn by (apply S1; eauto).
  eapply twp_mono; [by apply (free_writes m1 (<[h := xs ++ ys]> ls))|].
  intros _ m2 (R2 & S2 & _). split; [done|]. by eapply same_nodes_trans.
Qed.

Lemma del_init_rep m ls n h xs ys :
  rep m ls -> ls !! h = Some (xs ++ n :: ys) ->
  twp (CdxListDelInit n) (fun _ m' => now m (<[h := xs ++ ys]> ls) m') m.
Proof.
  intros R E. destruct (del_between m ls R h xs n ys E) as (_ & b & _ & Lb & _).
  apply twp_bind. eapply twp_mono; [by eapply del_entry_rep|]. intros _ m1 [[R1 S1] F1].
  assert (is_Some (nx m1 n)) as Sn by (apply S1; eauto).
  eapply twp_mono; [by apply (free_writes m1 (<[h := xs ++ ys]> ls))|].
  intros _ m2 (R2 & S2 & _). split; [done|]. by eapply same_nodes_trans.
Qed.

Lemma replace_init_rep m ls o n h xs ys :
  rep m ls -> ls !! h = Some (xs ++ o :: ys) -> free ls n -> is_Some (nx m n) ->
  twp (CdxListReplaceInit o n) (fun _ m' => now m (<[h := xs ++ n :: ys]> ls) m') m.
Proof.
  intros R E F Hn. destruct (del_between m ls R h xs o ys E) as (_ & b & _ & Lb & _).
  apply twp_bind. eapply twp_mono; [by apply replace_rep|]. intros _ m1 [R1 S1].
  assert (free (<[h := xs ++ n :: ys]> ls) o) as F1.
  { intros h' xs' E'. destruct (rep_list _ _ R _ _ E) as [_ N]. rewrite app_comm_cons in N.
    apply list.NoDup_app in N as (_ & N1 & N2). apply list.NoDup_cons in N2 as [N2 _].
    destruct (decide (h' = h)) as [->|Hne]; simplify_map_eq.
    - assert (o <> n) by (intros ->; destruct (F h _ E); set_solver). set_solver.
    - intros Hin. by apply Hne, (rep_apart _ _ R _ _ _ _ o E' E Hin); set_solver. }
  assert (is_Some (nx m1 o)) as So by (apply S1; eauto).
  eapply twp_mono; [by apply (free_writes m1 (<[h := xs ++ n :: ys]> ls))|].
  intros _ m2 (R2 & S2 & _). split; [done|]. by eapply same_nodes_trans.
Qed.

Lemma move_rep m ls n h h' xs ys zs (tail : bool) :
  rep m ls -> ls !! h = Some (xs ++ n :: ys) -> <[h := xs ++ ys]> ls !! h' = Some zs ->
  twp (if tail then CdxListMoveTail n h' else CdxListMove n h')
    (fun _ m' => now m (<[h' := if tail then zs ++ [n] else n :: zs]> (<[h := xs ++ ys]> ls)) m') m.
Proof.
  intros R E E'. destruct (del_between m ls R h xs n ys E) as (_ & b & _ & Lb & _).
  destruct tail; (apply twp_bind; eapply twp_mono; [by eapply del_entry_rep|]; intros _ m1 [[R1 S1] F1];
    assert (is_Some (nx m1 n)) as Sn by (apply S1; eauto)).
  - eapply twp_mono; [by apply add_tail_rep|]. intros _ m2 [R2 S2].
    split; [done|by eapply same_nodes_trans].
  - eapply twp_mono; [by apply add_rep|]. intros _ m2 [R2 S2].
    split; [done|by eapply same_nodes_trans].
Qed.

Lemma empty_rep m ls h xs :
  rep m ls -> ls !! h = Some xs -> CdxListEmpty h m = Ok (bool_decide (xs = [])) m.
Proof.
  intros R E. pose proof (head_next _ _ R _ _ E) as En. pose proof (head_prev _ _ R _ _ E) as Ep.
  unfold nx, pv in *. unfold CdxListEmpty, load.
  destruct (m !! h) as [n|] eqn:Em; [|done]. simpl in *. injection En as En. injection Ep as Ep.
  eapply bind_ok; [eapply bind_ok; [done|by apply lift_ok]|].
  rewrite En, Ep. unfold mret, M_ret. f_equal.
  destruct xs as [|x xs]; [by rewrite !Z.eqb_refl|]. simpl.
  destruct (rep_list _ _ R _ _ E) as [_ N]. apply list.NoDup_cons in N as [N _].
  replace (x =? h) with false; [done|]. symmetry. apply Z.eqb_neq. set_solver.
Qed.

Lemma rotate_rep m ls h xs :
  rep m ls -> ls !! h = Some xs ->
  twp (CdxListRotateLeft h)
    (fun _ m' => now m (match xs with [] => ls | x :: xs => <[h := xs ++ [x]]> ls end) m') m.
Proof.
  intros R E. unfold CdxListRotateLeft. apply twp_bind. eapply twp_intro; [by eapply empty_rep|].
  destruct xs as [|x xs]; [by split|].
  apply twp_bind. eapply twp_load; [by eapply head_next|]. intros n -> _.
  eapply twp_mono; [eapply (move_rep m ls x h h [] xs xs true R E); by simplify_map_eq|].
  intros u m' H. by rewrite insert_insert_eq in H.
Qed.

Lemma abs_sim nodes o m ls ls' :
  (forall x, x ∈ nodes -> is_Some (nx m x)) -> rep m ls -> abs nodes o ls ls' ->
  twp (run_op o) (fun _ m' => now m ls' m') m.
Proof.
  intros Hn R A. destruct A; simpl.
  - apply lists_init_rep; auto.
  - by apply add_rep; auto.
  - by apply add_tail_rep; auto.
  - by apply add_before_rep; auto.
  - by apply add_after_rep; auto.
  - by apply del_rep.
  - by apply del_init_rep.
  - by apply replace_rep; auto.
  - by apply replace_init_rep; auto.
  - by eapply (move_rep m ls n h h' xs ys zs false).
  - by eapply (move_rep m ls n h h' xs ys zs true).
  - by apply (rotate_rep m ls h []).
  - by apply (rotate_rep m ls h (x :: xs)).
Qed.

(** ** Traversal *)

Lemma for_each_next m fuel h ys :
  linked m (ys ++ [h]) -> (h ∉ ys) -> (length ys <= fuel)%nat ->
  for_each_loop next fuel (default h (head ys)) h m = Ok ys m.
Proof.
  revert fuel. induction ys as [|y ys IH]; intros fuel L N Hf; simpl.
  { destruct fuel; simpl; by rewrite Z.eqb_refl. }
  destruct fuel as [|fuel]; simpl in Hf; [lia|]. simpl.
  replace (y =? h) with false by (symmetry; apply Z.eqb_neq; set_solver).
  assert (nx m y = Some (default h (head ys)) /\ linked m (ys ++ [h])) as [E L']
    by (destruct ys; simpl in L; tauto).
  unfold nx in E. unfold load. destruct (m !! y) as [n|] eqn:En; [|done]. simpl in E. injection E as E.
  eapply bind_ok; [eapply bind_ok; [done|by apply lift_ok]|]. rewrite E.
  eapply bind_ok; [apply IH; [done|set_solver|lia]|]. done.
Qed.

Lemma for_each_prev m fuel h ys :
  linked m (h :: ys) -> (h ∉ ys) -> (length ys <= fuel)%nat ->
  for_each_loop prev fuel (default h (list.last ys)) h m = Ok (reverse ys) m.
Proof.
  revert fuel. induction ys as [|y ys IH] using rev_ind; intros fuel L N Hf; simpl.
  { destruct fuel; simpl; by rewrite Z.eqb_refl. }
  rewrite length_app in Hf. simpl in Hf. destruct fuel as [|fuel]; [lia|].
  rewrite last_snoc, reverse_snoc. simpl.
  replace (y =? h) with false by (symmetry; apply Z.eqb_neq; set_solver).
  assert (pv m y = Some (default h (list.last ys)) /\ linked m (h :: ys)) as [E L'].
  { destruct ys as [|z ys _] using rev_ind; [simpl in *; tauto|]. rewrite last_snoc. simpl.
    rewrite <- app_assoc, app_comm_cons in L. simpl app in L at 2.
    apply linked_app in L as [L1 L2]. split; [apply L2|done]. }
  unfold pv in E. unfold load. destruct (m !! y) as [n|] eqn:En; [|done]. simpl in E. injection E as E.
  eapply bind_ok; [eapply bind_ok; [done|by apply lift_ok]|]. rewrite E.
  eapply bind_ok; [apply IH; [done|set_solver|lia]|]. done.
Qed.

Lemma rep_size m ls h xs : rep m ls -> ls !! h = Some xs -> (length xs <= size m)%nat.
Proof.
  intros R E. destruct (rep_list _ _ R _ _ E) as [L N].
  rewrite <- (size_dom (D := gset Z) m), <- (size_list_to_set (C := gset Z) xs)
    by (by apply list.NoDup_cons in N as [_ N]).
  apply subseteq_size. intros x Hx%elem_of_list_to_set. apply elem_of_dom, nx_is_Some.
  apply (links_at_some m h xs h x L). set_solver.
Qed.

(** What the reading operations return for a list. *)
Definition reads (m : mem) (h : Z) (xs : list Z) : Prop :=
  CdxListForEach h m = Ok xs m /\ CdxListForEachPrev h m = Ok (reverse xs) m /\
  CdxListEmpty h m = Ok (bool_decide (xs = [])) m /\
  CdxListIsSingular h m = Ok (bool_decide (length xs = 1%nat)) m /\
  forall ys x zs, xs = ys ++ x :: zs -> CdxListIsLast x h m = Ok (bool_decide (zs = [])) m.

Lemma list_load_ok m p a b : nx m p = Some a -> pv m p = Some b -> load p m = Ok (mkNode a b) m.
Proof.
  unfold nx, pv, load. destruct (m !! p) as [[]|] eqn:E; [|done]. simpl. intros. simplify_eq.
  eapply bind_ok; [done|by apply lift_ok].
Qed.

Lemma rep_reads m ls h xs : rep m ls -> ls !! h = Some xs -> reads m h xs.
Proof.
  intros R E. pose proof (rep_size _ _ _ _ R E) as Hs.
  pose proof (list_load_ok _ _ _ _ (head_next _ _ R _ _ E) (head_prev _ _ R _ _ E)) as Hl.
  pose proof (empty_rep _ _ _ _ R E) as He.
  destruct (rep_list _ _ R _ _ E) as [L N]. apply list.NoDup_cons in N as [N1 N2].
  split_and!; try done.
  - unfold CdxListForEach. eapply bind_ok; [done|]. eapply bind_ok; [exact Hl|].
    apply for_each_next; [by destruct xs; destruct L as (_ & _ & L)|done|lia].
  - unfold CdxListForEachPrev. eapply bind_ok; [done|]. eapply bind_ok; [exact Hl|].
    apply for_each_prev; [|done|lia]. by apply (linked_prefix m (h :: xs) [h]).
  - unfold CdxListIsSingular. eapply bind_ok; [exact He|]. eapply bind_ok; [exact Hl|]. simpl.
    unfold mret, M_ret. f_equal. destruct xs as [|x xs]; [done|]. simpl.
    destruct xs as [|y xs _] using rev_ind; [simpl; by rewrite Z.eqb_refl|].
    rewrite app_comm_cons, last_snoc. simpl.
    rewrite bool_decide_eq_false_2 by (rewrite length_app; simpl; lia).
    apply Z.eqb_neq. intros ->. apply list.NoDup_cons in N2 as [N2 _]. set_solver.
  - intros ys x zs ->. unfold CdxListIsLast.
    destruct (del_between m ls R h ys x zs E) as (a & b & Ea & Eb & _).
    eapply bind_ok; [by apply list_load_ok|]. simpl. unfold mret, M_ret. f_equal.
    rewrite <- app_assoc, app_comm_cons in L. apply linked_app in L as [_ L].
    destruct zs as [|z zs]; destruct L as [L _]; rewrite Eb in L; simplify_eq; [by rewrite Z.eqb_refl|].
    apply Z.eqb_neq. set_solver.
Qed.

(** * Theorem *)

(** C28: Any sequence of operations that is legal for lists (a node that is added
    is on no list, a node that is removed, moved or replaced is on one) returns,
    and the links it leaves stand for the lists the abstract operations give;
    walking a list in either direction, and the tests for empty lists, singletons
    and last nodes, return what the lists say. *)
Theorem cdxlist_refines nodes l m ls ls' :
  (forall x, x ∈ nodes -> is_Some (m !! x)) -> rep m ls -> abs_run nodes l ls ls' ->
  exists m', run_ops l m = Ok tt m' /\ rep m' ls' /\
    forall h xs, ls' !! h = Some xs -> reads m' h xs.
Proof.
  intros Hn R A.
  assert (forall x, x ∈ nodes -> is_Some (nx m x)) as Hn' by (intros x Hx; apply nx_is_Some; auto).
  clear Hn. revert m Hn' R. induction A as [ls|o l ls1 ls2 ls3 A _ IH]; intros m Hn R.
  { exists m. split_and!; [done..|]. intros h xs. by apply rep_reads. }
  destruct (twp_elim _ _ _ (abs_sim nodes o m ls1 ls2 Hn R A)) as ([] & m1 & E1 & R1 & S1).
  destruct (IH m1) as (m' & E & H); [|done|].
  { intros x Hx. apply S1; auto. }
  exists m'. split; [|done]. simpl. by eapply bind_ok.
Qed.

Lemma free_singleton h xs n : (n ∉ h :: xs) -> free {[h := xs]} n.
Proof. intros H h' xs' [<- <-]%lookup_singleton_Some. done. Qed.

Lemma abs_one nodes o l h xs ys ls :
  abs nodes o {[h := xs]} (<[h := ys]> {[h := xs]}) -> abs_run nodes l {[h := ys]} ls ->
  abs_run nodes (o :: l) {[h := xs]} ls.
Proof. rewrite insert_singleton_eq. by econstructor. Qed.

Lemma cdxlist_refines_witness :
  let m : mem := {[10 := mkNode 0 0; 11 := mkNode 0 0; 12 := mkNode 0 0; 13 := mkNode 0 0]} in
  let ls : gmap Z (list Z) := {[10 := [13; 11]]} in
  let l := [OInit 10; OAdd 11 10; OAddTail 12 10; OAddBefore 13 12; ORotateLeft 10; ODelInit 12;
            OMoveTail 11 10] in
  exists m', run_ops l m = Ok tt m' /\ rep m' ls /\ forall h xs, ls !! h = Some xs -> reads m' h xs.
Proof.
  intros m ls l. apply (cdxlist_refines {[10; 11; 12; 13]} _ m ∅).
  - intros x Hx. repeat apply elem_of_union in Hx as [Hx|Hx]; apply elem_of_singleton in Hx as ->;
      by vm_compute; eauto.
  - split; intros *; by rewrite lookup_empty.
  - econstructor; [constructor; [intros ? ? ?; by simplify_map_eq|set_solver]|].
    rewrite insert_empty.
    eapply abs_one; [apply a_add; [apply lookup_singleton_eq|apply free_singleton; set_solver|set_solver]|].
    eapply abs_one; [apply a_add_tail; [apply lookup_singleton_eq|apply free_singleton; set_solver|set_solver]|].
    eapply abs_one; [eapply (a_add_before _ _ _ _ _ [11] []);
      [apply lookup_singleton_eq|apply free_singleton; set_solver|set_solver]|].
    eapply abs_one; [apply a_rotate; apply lookup_singleton_eq|].
    eapply abs_one; [eapply (a_del_init _ _ _ _ [13] [11]); apply lookup_singleton_eq|].
    econstructor; [eapply (a_move_tail _ _ _ _ _ [13] [] [13]); [apply lookup_singleton_eq|apply lookup_insert_eq]|].
    rewrite !insert_singleton_eq. constructor.
Defined.

End CdxListSpec.
