(* ===== verification/CdxQueue.v ===== *)
(** The queue of the multimedia framework,
    [allwinner/libcedarx/libcore/base/CdxQueue.c]: a linked list with a dummy node,
    reference counts and compare-and-swap instead of a mutex.

    Threads interleave at every access to shared memory: [step i a w] is one such
    access by thread [i], executable, where [a] is the address the allocator of the
    pool returns if the access is a [Palloc].  Memory is sequentially consistent.
    An access to memory that was freed, a failed check of a debug build and an
    allocation that fails are a [Fault]. *)

From Stdlib Require Import ZArith Lia.
From stdpp Require Import base list list_numbers numbers gmap fin_maps.
From S2P Require Import Prelude.

Module CdxQueue.

(** * Data *)

(** [struct CdxQueueNodeEntityS]; the null pointer is 0. *)
Record entity := mkEntity { next : Z; ref : Z; data : Z }.
#[export] Instance eta_entity : Eta entity := fun e => mkEntity (next e) (ref e) (data e).

Inductive call := CPush (d : Z) | CPop | CEmpty.
Inductive result := RPush (err : Z) | RPop (d : Z) | REmpty (b : bool).

(** What comes after [QueueNodeEntityDecRef]: return [NULL], retry the loop, the
    second decrement, or return the data. *)
Inductive after := ANull | ARetry | ADrop (d : Z) | ARet (d : Z).

(** Where a thread is: the next access to shared memory it makes. *)
Inductive thread :=
| Idle
(* __CdxQueuePush *)
| PushCheck (d : Z)            (* impl->enablePush *)
| PushAlloc (d : Z)            (* Palloc, and the fields of the new entity *)
| PushRead (e : Z)             (* tmpEntity = impl->rear *)
| PushLink (e tmp : Z)         (* CAS(&tmpEntity->next, NULL, entity) *)
| PushSwing (e tmp : Z)        (* CAS(&impl->rear, tmpEntity, entity) *)
(* __CdxQueuePop *)
| PopCheck                     (* impl->enablePop *)
| PopRead                      (* impl->front *)
| PopRef (e : Z)               (* CdxAtomicInc(&entity->ref) *)
| PopNext (e : Z)              (* entity->next == NULL *)
| PopData (e : Z)              (* entity->next *)
| PopData2 (e n : Z)           (* ...->data *)
| PopNew (e d : Z)             (* entity->next, the new value of the CAS *)
| PopSwing (e n d : Z)         (* CAS(&impl->front, entity, entity->next) *)
| DecRef (e : Z) (k : after)   (* CdxAtomicDec(&entity->ref) *)
| FreeRef (e : Z) (k : after)  (* Pfree(pool, entity) *)
(* __CdxQueueEmpty *)
| EmptyFront                   (* impl->front *)
| EmptyRear (f : Z).           (* impl->rear *)

(** [struct CdxQueueImplS], the entities that are allocated, and the threads. *)
Record world := mkWorld {
  front : Z;
  rear : Z;
  enablePop : bool;
  enablePush : bool;
  heap : gmap Z entity;
  threads : list thread
}.
#[export] Instance eta_world : Eta world := fun w =>
  mkWorld (front w) (rear w) (enablePop w) (enablePush w) (heap w) (threads w).

(** The thread waits for a call, or its choice is not possible; undefined
    behaviour; or the access was made, and the call may have returned. *)
Inductive outcome :=
| Blocked
| Fault
| Next (r : option result) (w : world).

Section steps.
(** Whether the library is built with [AWP_DEBUG]. *)
Context (awp_debug : bool).

Definition goto (i : nat) (t : thread) (w : world) : outcome :=
  Next None (w <| threads ::= <[i := t]> |>).
Definition ret (i : nat) (r : result) (w : world) : outcome :=
  Next (Some r) (w <| threads ::= <[i := Idle]> |>).
(** An access to the entity at [p]. *)
Definition at_entity (p : Z) (w : world) (k : entity -> outcome) : outcome :=
  match heap w !! p with Some e => k e | None => Fault end.
Definition set_entity (p : Z) (e : entity) (w : world) : world :=
  w <| heap ::= <[p := e]> |>.

Definition continue (i : nat) (e : Z) (k : after) (w : world) : outcome :=
  match k with
  | ANull => ret i (RPop 0) w
  | ARetry => goto i PopRead w
  | ADrop d => goto i (DecRef e (ARet d)) w
  | ARet d => ret i (RPop d) w
  end.

(** The accesses of [__CdxQueuePush]. *)
Definition push_step (i : nat) (a : Z) (t : thread) (w : world) : outcome :=
  match t with
  | PushCheck d => if enablePush w then goto i (PushAlloc d) w else ret i (RPush (-1)) w
  | PushAlloc d =>
      if (a =? 0) || (awp_debug && (d =? 0)) then Fault
      else if bool_decide (is_Some (heap w !! a)) then Blocked
      else goto i (PushRead a) (set_entity a (mkEntity 0 1 d) w)
  | PushRead e => goto i (PushLink e (rear w)) w
  | PushLink e tmp =>
      at_entity tmp w (fun t =>
        if next t =? 0 then goto i (PushSwing e tmp) (set_entity tmp (t <| next := e |>) w)
        else goto i (PushRead e) w)
  | PushSwing e tmp =>
      if rear w =? tmp then ret i (RPush 0) (w <| rear := e |>)
      else if awp_debug then Fault else ret i (RPush 0) w
  | _ => Blocked
  end.

(** The accesses of [__CdxQueuePop] and [QueueNodeEntityDecRef]. *)
Definition pop_step (i : nat) (t : thread) (w : world) : outcome :=
  match t with
  | PopCheck => if enablePop w then goto i PopRead w else ret i (RPop 0) w
  | PopRead => goto i (PopRef (front w)) w
  | PopRef e => at_entity e w (fun x => goto i (PopNext e) (set_entity e (x <| ref ::= Z.add 1 |>) w))
  | PopNext e => at_entity e w (fun x => if next x =? 0 then goto i (DecRef e ANull) w else goto i (PopData e) w)
  | PopData e => at_entity e w (fun x => goto i (PopData2 e (next x)) w)
  | PopData2 e n => at_entity n w (fun x => goto i (PopNew e (data x)) w)
  | PopNew e d => at_entity e w (fun x => goto i (PopSwing e (next x) d) w)
  | PopSwing e n d =>
      if front w =? e then goto i (DecRef e (ADrop d)) (w <| front := n |>) else goto i (DecRef e ARetry) w
  | DecRef e k =>
      at_entity e w (fun x =>
        let w' := set_entity e (x <| ref ::= Z.add (-1) |>) w in
        if ref x - 1 =? 0 then goto i (FreeRef e k) w' else continue i e k w')
  | FreeRef e k => at_entity e w (fun _ => continue i e k (w <| heap ::= delete e |>))
  | _ => Blocked
  end.

(** The accesses of [__CdxQueueEmpty]. *)
Definition empty_step (i : nat) (t : thread) (w : world) : outcome :=
  match t with
  | EmptyFront => goto i (EmptyRear (front w)) w
  | EmptyRear f => ret i (REmpty (f =? rear w)) w
  | _ => Blocked
  end.

Definition step (i : nat) (a : Z) (w : world) : outcome :=
  match threads w !! i with
  | None => Blocked
  | Some t =>
      match t with
      | Idle => Blocked
      | PushCheck _ | PushAlloc _ | PushRead _ | PushLink _ _ | PushSwing _ _ => push_step i a t w
      | EmptyFront | EmptyRear _ => empty_step i t w
      | _ => pop_step i t w
      end
  end.

(** A thread that waits starts a call. *)
Definition start (c : call) : thread :=
  match c with CPush d => PushCheck d | CPop => PopCheck | CEmpty => EmptyFront end.

(** A schedule: calls, and accesses with the addresses the pool hands out. *)
Inductive action := Call (i : nat) (c : call) | Step (i : nat) (a : Z).
Inductive event := ECall (i : nat) (c : call) | ERet (i : nat) (r : result).

(** The calls and returns of a run, and the world at its end; [None] is a fault.
    Actions that are not possible are skipped. *)
Fixpoint run (l : list action) (w : world) : option (list event * world) :=
  match l with
  | [] => Some ([], w)
  | Call i c :: l =>
      match threads w !! i with
      | Some Idle =>
          '(es, w') ← run l (w <| threads ::= <[i := start c]> |>); Some (ECall i c :: es, w')
      | _ => run l w
      end
  | Step i a :: l =>
      match step i a w with
      | Blocked => run l w
      | Fault => None
      | Next None w' => run l w'
      | Next (Some r) w' => '(es, w'') ← run l w'; Some (ERet i r :: es, w'')
      end
  end.

(** [CdxQueueCreate] with the dummy at [dummy], and [n] threads. *)
Definition CdxQueueCreate (dummy : Z) (n : nat) : world :=
  mkWorld dummy dummy true true {[dummy := mkEntity 0 1 0]} (replicate n Idle).

(** [CdxQueueDestroy], when no thread is in a call: the entities left allocated;
    the check of an empty queue ends the process. *)
Definition CdxQueueDestroy (w : world) : option (gmap Z entity) :=
  if negb (front w =? rear w) then None
  else
    e ← heap w !! front w;
    if ref e - 1 =? 0 then Some (delete (front w) (heap w))
    else Some (<[front w := e <| ref ::= Z.add (-1) |>]> (heap w)).
End steps.

End CdxQueue.
