(* ===== verification/CdxQueueSpec.v ===== *)
(** The lock-free queue with one thread that pushes and one that pops is a
    queue: every interleaving of the accesses to shared memory is that of calls
    that take effect at once, nothing that was freed is touched, and every call
    returns after a bounded number of its own accesses.  With a second thread
    on either side freed memory is reached. *)

From Stdlib Require Import ZArith Lia.
From stdpp Require Import base list list_numbers numbers gmap fin_maps.
From S2P Require Import Prelude CdxQueue.

Module CdxQueueSpec.
Import CdxQueue.

(** * Specification *)

(** A call was made, took effect, or neither; or it asked whether the queue is empty
    while a push had taken effect and not returned. *)
Inductive athread := AIdle | ACalled (c : call) | ALin (r : result) | AUnsure.

(** The elements of the queue, and the calls in progress. *)
Record aworld := mkA { elems : list Z; calls : list athread }.

Inductive astep : aworld -> list event -> aworld -> Prop :=
| as_call q ts i c : ts !! i = Some AIdle ->
    astep (mkA q ts) [ECall i c] (mkA q (<[i := ACalled c]> ts))
| as_push q ts i d : ts !! i = Some (ACalled (CPush d)) ->
    astep (mkA q ts) [] (mkA (q ++ [d]) (<[i := ALin (RPush 0)]> ts))
| as_pop d q ts i : ts !! i = Some (ACalled CPop) ->
    astep (mkA (d :: q) ts) [] (mkA q (<[i := ALin (RPop d)]> ts))
| as_pop_null ts i : ts !! i = Some (ACalled CPop) ->
    astep (mkA [] ts) [] (mkA [] (<[i := ALin (RPop 0)]> ts))
| as_empty q ts i : ts !! i = Some (ACalled CEmpty) ->
    astep (mkA q ts) [] (mkA q (<[i := ALin (REmpty (bool_decide (q = [])))]> ts))
(* A push that has taken effect and not returned spoils the answer; no other call does. *)
| as_race q ts i j b : ts !! i = Some (ALin (REmpty b)) -> ts !! j = Some (ALin (RPush 0)) ->
    astep (mkA q ts) [] (mkA q (<[i := AUnsure]> ts))
| as_unsure q ts i b : ts !! i = Some AUnsure ->
    astep (mkA q ts) [] (mkA q (<[i := ALin (REmpty b)]> ts))
| as_ret q ts i r : ts !! i = Some (ALin r) ->
    astep (mkA q ts) [ERet i r] (mkA q (<[i := AIdle]> ts)).

Inductive arun : aworld -> list event -> aworld -> Prop :=
| arun_nil a : arun a [] a
| arun_cons a1 es a2 es' a3 : astep a1 es a2 -> arun a2 es' a3 -> arun a1 (es ++ es') a3.

Lemma arun_trans a1 es a2 es' a3 : arun a1 es a2 -> arun a2 es' a3 -> arun a1 (es ++ es') a3.
Proof.
  induction 1; intros H2; [done|]. rewrite <- app_assoc. econstructor; [done|]. by apply IHarun.
Qed.

Lemma arun_one a es a' : astep a es a' -> arun a es a'.
Proof. intros H. rewrite <- (app_nil_r es). econstructor; [done|constructor]. Qed.

(** Every answer that was given and not returned is spoilt. *)
Definition unsure (t : athread) : athread :=
  match t with ALin (REmpty _) => AUnsure | _ => t end.

Lemma arun_unsure q j ts :
  ts !! j = Some (ALin (RPush 0)) -> arun (mkA q ts) [] (mkA q (map unsure ts)).
Proof.
  intros Hj. cut (forall l2 l1, (l1 ++ l2) !! j = Some (ALin (RPush 0)) ->
    arun (mkA q (l1 ++ l2)) [] (mkA q (l1 ++ map unsure l2))).
  { intros H. by apply (H ts []). }
  clear. induction l2 as [|t l2 IH]; intros l1 Hj; simpl; [constructor|].
  change (t :: l2) with ([t] ++ l2) in *. rewrite app_assoc in *.
  change (unsure t :: map unsure l2) with ([unsure t] ++ map unsure l2). rewrite app_assoc.
  destruct t as [| |[| |b]|]; try by apply IH.
  assert (forall l, (<[length l1 := AUnsure]> ((l1 ++ [ALin (REmpty b)]) ++ l)) = (l1 ++ [AUnsure]) ++ l) as Ei.
  { intros l. rewrite <- !app_assoc, insert_app_r_alt, Nat.sub_diag by lia. done. }
  change (@nil event) with (@nil event ++ []). eapply (arun_trans _ _ (mkA q ((l1 ++ [AUnsure]) ++ l2))).
  - apply arun_one. rewrite <- Ei. apply (as_race _ _ _ j b); [|done].
    rewrite <- app_assoc, lookup_app_r, Nat.sub_diag by lia. done.
  - apply IH. destruct (decide (j = length l1)) as [->|Hne].
    + rewrite <- app_assoc, lookup_app_r, Nat.sub_diag in Hj by lia. done.
    + rewrite <- Ei. rewrite list_lookup_insert_ne by done. done.
Qed.

(** * The nodes of the queue *)

(** From the node at [n] the links lead through [l], whose nodes hold [q]. *)
Fixpoint chain (h : gmap Z entity) (n : Z) (l q : list Z) : Prop :=
  match l, q with
  | [], [] => exists e, h !! n = Some e /\ next e = 0
  | m :: l, d :: q =>
      m <> 0 /\ (exists e, h !! n = Some e /\ next e = m) /\
      (exists e, h !! m = Some e /\ data e = d) /\ chain h m l q
  | _, _ => False
  end.

Lemma chain_lookup h n l q x : chain h n l q -> x ∈ n :: l -> is_Some (h !! x).
Proof.
  revert n q. induction l as [|m l IH]; intros n [|d q] C Hx; try done; simpl in C.
  - destruct C as (e & E & _). apply list_elem_of_singleton in Hx as ->. by eauto.
  - destruct C as (_ & (e & E & _) & _ & C). apply elem_of_cons in Hx as [->|Hx]; [by eauto|]. by eapply IH.
Qed.

(** Changes that keep links and data of the nodes. *)
Lemma qchain_ext h h' n l q :
  (forall x e, x ∈ n :: l -> h !! x = Some e ->
    exists e', h' !! x = Some e' /\ next e' = next e /\ data e' = data e) ->
  chain h n l q -> chain h' n l q.
Proof.
  revert n q. induction l as [|m l IH]; intros n [|d q] H C; try done; simpl in *.
  - destruct C as (e & E & En). destruct (H n e) as (e' & E' & En' & _); [set_solver|done|].
    exists e'. split; [done|congruence].
  - destruct C as (Hm & (e & E & En) & (e2 & E2 & Ed) & C).
    destruct (H n e) as (e' & E' & En' & _); [set_solver|done|].
    destruct (H m e2) as (e2' & E2' & _ & Ed'); [set_solver|done|].
    split_and!; [done|exists e'; split; [done|congruence]|exists e2'; split; [done|congruence]|].
    apply IH; [|done]. intros x e0 Hx. apply H. set_solver.
Qed.

Lemma qchain_insert h n l q x e :
  (x ∉ n :: l) -> chain h n l q -> chain (<[x := e]> h) n l q.
Proof.
  intros Hx. apply qchain_ext. intros y e' Hy Ey. exists e'.
  rewrite lookup_insert_ne by set_solver. done.
Qed.

Lemma chain_delete h n l q x : (x ∉ n :: l) -> chain h n l q -> chain (delete x h) n l q.
Proof.
  intros Hx. apply qchain_ext. intros y e' Hy Ey. exists e'.
  rewrite lookup_delete_ne by set_solver. done.
Qed.

(** Changing the reference count of a node. *)
Lemma chain_ref h n l q x e r :
  h !! x = Some e -> chain h n l q -> chain (<[x := e <| ref := r |>]> h) n l q.
Proof.
  intros Ex. apply qchain_ext. intros y e' Hy Ey. destruct (decide (y = x)) as [->|].
  - rewrite Ex in Ey. injection Ey as <-. exists (e <| ref := r |>). by rewrite lookup_insert_eq.
  - exists e'. by rewrite lookup_insert_ne.
Qed.

(** The compare-and-swap that links a new node. *)
Lemma qchain_snoc h n l q tmp t e x :
  chain h n l q -> NoDup (n :: l) -> list.last (n :: l) = Some tmp -> h !! tmp = Some t ->
  (e ∉ n :: l) -> e <> 0 -> h !! e = Some x -> next x = 0 ->
  next t = 0 /\ chain (<[tmp := t <| next := e |>]> h) n (l ++ [e]) (q ++ [data x]).
Proof.
  revert n q. induction l as [|m l IH]; intros n [|d q] C N L Et He H0 Ex Hx; try done; simpl in C.
  - simpl in L. simplify_eq. destruct C as (e0 & E0 & En). simplify_eq. split; [done|].
    simpl. rewrite lookup_insert_eq. assert (e <> tmp) by set_solver.
    rewrite lookup_insert_ne by done. split_and!; eauto.
  - destruct C as (Hm & (e0 & E0 & En) & (e2 & E2 & Ed) & C).
    apply list.NoDup_cons in N as [N1 N2].
    destruct (IH m q C N2 L Et ltac:(set_solver) H0 Ex Hx) as [Ht C'].
    assert (tmp <> n) as Hne by (intros ->; apply N1; by apply last_Some_elem_of).
    split; [done|]. simpl. split_and!; [done| | |done].
    + exists e0. by rewrite lookup_insert_ne.
    + destruct (decide (m = tmp)) as [->|]; simplify_eq.
      * rewrite lookup_insert_eq. by eauto.
      * rewrite lookup_insert_ne by done. by eauto.
Qed.

(** * Invariant *)

(** The node a thread that pushes has not linked yet, and the node a thread
    that pops has unlinked and not freed yet. *)
Definition private (t : thread) : option Z :=
  match t with PushRead e | PushLink e _ => Some e | _ => None end.
Definition detached (t : thread) : option Z :=
  match t with DecRef e (ADrop _ | ARet _) | FreeRef e _ => Some e | _ => None end.

(** The references to the first node. *)
Definition front_refs (t : thread) : Z :=
  match t with
  | PopNext _ | PopData _ | PopData2 _ _ | PopNew _ _ | PopSwing _ _ _ | DecRef _ ANull => 2
  | _ => 1
  end.

Definition push_ok (h : gmap Z entity) (n : Z) (l : list Z) (rear : Z) (t : thread) : Prop :=
  match t with
  | PushSwing e tmp => rear = tmp /\ list.last (n :: l) = Some e
  | Idle | PushCheck _ | PushAlloc _ | EmptyFront | EmptyRear _ => list.last (n :: l) = Some rear
  | PushRead e => list.last (n :: l) = Some rear /\ e <> 0 /\ (e ∉ n :: l) /\
      exists x, h !! e = Some x /\ next x = 0 /\ ref x = 1
  | PushLink e tmp => list.last (n :: l) = Some rear /\ tmp = rear /\ e <> 0 /\ (e ∉ n :: l) /\
      exists x, h !! e = Some x /\ next x = 0 /\ ref x = 1
  | _ => False
  end.

Definition pop_ok (h : gmap Z entity) (n : Z) (l q : list Z) (t : thread) : Prop :=
  let held e r := (e ∉ n :: l) /\ exists x, h !! e = Some x /\ ref x = r in
  match t with
  | Idle | PopCheck | PopRead | EmptyFront | EmptyRear _ => True
  | PopRef e | PopNext e | DecRef e ANull => e = n
  | PopData e => e = n /\ l <> []
  | PopData2 e m => e = n /\ head l = Some m
  | PopNew e d => e = n /\ head q = Some d
  | PopSwing e m d => e = n /\ head l = Some m /\ head q = Some d
  | DecRef e (ADrop _) => held e 2
  | DecRef e (ARet _) => held e 1
  | FreeRef e (ARet _) => held e 0
  | _ => False
  end.

(** How far a call is for its caller. *)
Definition agrees (h : gmap Z entity) (t : thread) (a : athread) : Prop :=
  match t with
  | Idle => a = AIdle
  | PushCheck d | PushAlloc d => a = ACalled (CPush d)
  | PushRead e | PushLink e _ => exists x, h !! e = Some x /\ a = ACalled (CPush (data x))
  | PushSwing _ _ => a = ALin (RPush 0)
  | PopCheck | PopRead | PopRef _ | PopNext _ | PopData _ | PopData2 _ _ | PopNew _ _ | PopSwing _ _ _
  | DecRef _ ARetry | FreeRef _ ARetry => a = ACalled CPop
  | DecRef _ ANull | FreeRef _ ANull => a = ALin (RPop 0)
  | DecRef _ (ADrop d | ARet d) | FreeRef _ (ADrop d | ARet d) => a = ALin (RPop d)
  | EmptyFront => a = ACalled CEmpty
  | EmptyRear _ => a = AUnsure \/ exists b, a = ALin (REmpty b)
  end.

(** The rear is one node behind the last. *)
Definition behind (t : thread) : bool := match t with PushSwing _ _ => true | _ => false end.

(** The answers that were given: what comparing the ends of the queue will show. *)
Definition asked (ts : list thread) (cs : list athread) (r : Z) (t0 : thread) : Prop :=
  forall i f b, ts !! i = Some (EmptyRear f) -> cs !! i = Some (ALin (REmpty b)) ->
    behind t0 = false /\ b = (f =? r).

Lemma asked_update ts cs r t0 r' t0' i t c :
  asked ts cs r t0 -> (behind t0 = false -> behind t0' = false /\ r' = r) ->
  (forall f b, t = EmptyRear f -> c = ALin (REmpty b) -> behind t0' = false /\ b = (f =? r')) ->
  asked (<[i := t]> ts) (<[i := c]> cs) r' t0'.
Proof.
  intros A H Ht j f b Ej Ec. destruct (decide (j = i)) as [->|Hne].
  - apply list_lookup_insert_Some in Ej as [(_ & -> & _)|[]]; [|done].
    apply list_lookup_insert_Some in Ec as [(_ & -> & _)|[]]; [|done]. by apply Ht.
  - rewrite list_lookup_insert_ne in Ej by done. rewrite list_lookup_insert_ne in Ec by done.
    destruct (A j f b Ej Ec) as [Hb ->].
    by destruct (H Hb) as [? ->].
Qed.

(** Thread 0 pushes, thread 1 pops, all may ask whether the queue is empty. *)
Record inv (w : world) (a : aworld) (l : list Z) (t0 t1 : thread) : Prop := {
  i_flags : enablePop w = true /\ enablePush w = true;
  i_chain : chain (heap w) (front w) l (elems a);
  i_nodup : NoDup (front w :: l);
  i_front : exists e, heap w !! front w = Some e /\ ref e = front_refs t1;
  i_refs : forall x, x ∈ l -> exists e, heap w !! x = Some e /\ ref e = 1;
  i_push : push_ok (heap w) (front w) l (rear w) t0;
  i_pop : pop_ok (heap w) (front w) l (elems a) t1;
  i_apart : forall x, private t0 = Some x -> detached t1 <> Some x;
  i_dom : forall x, is_Some (heap w !! x) ->
    x ∈ front w :: l \/ private t0 = Some x \/ detached t1 = Some x;
  i_t0 : threads w !! 0%nat = Some t0;
  i_t1 : threads w !! 1%nat = Some t1;
  i_others : forall i t, (2 <= i)%nat -> threads w !! i = Some t ->
    t = Idle \/ t = EmptyFront \/ exists f, t = EmptyRear f;
  i_agrees : Forall2 (agrees (heap w)) (threads w) (calls a);
  i_asked : asked (threads w) (calls a) (rear w) t0
}.

Lemma agrees_heap h h' t a :
  (forall x e, private t = Some x -> h !! x = Some e ->
    exists e', h' !! x = Some e' /\ data e' = data e) ->
  agrees h t a -> agrees h' t a.
Proof.
  intros H A. destruct t; try exact A; destruct A as (x & E & ->);
    destruct (H e x eq_refl E) as (x' & E' & <-); by exists x'.
Qed.

Lemma agrees_update h h' ts cs i t' a' :
  Forall2 (agrees h) ts cs ->
  (forall j t x e, j <> i -> ts !! j = Some t -> private t = Some x -> h !! x = Some e ->
    exists e', h' !! x = Some e' /\ data e' = data e) ->
  agrees h' t' a' ->
  Forall2 (agrees h') (<[i := t']> ts) (<[i := a']> cs).
Proof.
  intros F H A. apply Forall2_same_length_lookup_2.
  { rewrite !length_insert. by eapply Forall2_length. }
  intros j t c Et Ec. destruct (decide (j = i)) as [->|Hne].
  - destruct (decide (i < length ts)%nat) as [Hl|Hl].
    + pose proof (Forall2_length _ _ _ F).
      rewrite list_lookup_insert_eq in Et by lia. rewrite list_lookup_insert_eq in Ec by lia. by simplify_eq.
    + apply lookup_lt_Some in Et. rewrite length_insert in Et. lia.
  - rewrite list_lookup_insert_ne in Et by done. rewrite list_lookup_insert_ne in Ec by done.
    apply (agrees_heap h); [intros x e; by apply (H j)|]. by eapply Forall2_lookup_lr.
Qed.

Lemma agrees_unsure h ts cs : Forall2 (agrees h) ts cs -> Forall2 (agrees h) ts (map unsure cs).
Proof.
  induction 1 as [|t c ts cs A _ IH]; simpl; constructor; [|done].
  destruct t as [| | | | | | | | | | | | | |? []|? []| |]; simpl in *; naive_solver.
Qed.

Section steps.
Context (awp_debug : bool) (w : world) (a : aworld) (l : list Z) (t0 t1 : thread).
Hypothesis I : inv w a l t0 t1.

Lemma others_private j t x : threads w !! j = Some t -> private t = Some x -> j = 0%nat.
Proof.
  intros E P. destruct j as [|[|j]]; [done| |].
  - rewrite (i_t1 _ _ _ _ _ I) in E. injection E as <-. pose proof (i_pop _ _ _ _ _ I) as H.
    by destruct t1.
  - destruct (i_others _ _ _ _ _ I (S (S j)) t ltac:(lia) E) as [->|[->|[f ->]]]; done.
Qed.

Lemma private_alloc x : private t0 = Some x ->
  (x ∉ front w :: l) /\ x <> 0 /\ exists e, heap w !! x = Some e /\ next e = 0 /\ ref e = 1.
Proof.
  intros P. pose proof (i_push _ _ _ _ _ I) as H.
  destruct t0; simpl in *; try done; simplify_eq.
  - by destruct H as (_ & H0 & H1 & H2).
  - by destruct H as (_ & _ & H0 & H1 & H2).
Qed.

Lemma lookup_insert_t (ts : list thread) i j t :
  is_Some (ts !! i) -> <[i := t]> ts !! j = if decide (i = j) then Some t else ts !! j.
Proof.
  intros Hi%lookup_lt_is_Some. case_decide; subst; [by apply list_lookup_insert_eq|].
  by apply list_lookup_insert_ne.
Qed.

(** A step of thread 0: the threads that result. *)
Lemma threads0 t ts' :
  ts' = <[0%nat := t]> (threads w) ->
  ts' !! 0%nat = Some t /\ ts' !! 1%nat = Some t1 /\
  (forall i t, (2 <= i)%nat -> ts' !! i = Some t -> t = Idle \/ t = EmptyFront \/ exists f, t = EmptyRear f).
Proof.
  intros ->. pose proof (i_t0 _ _ _ _ _ I) as H0. split_and!.
  - rewrite lookup_insert_t by eauto. done.
  - rewrite lookup_insert_t by eauto. apply I.
  - intros i t' Hi. rewrite lookup_insert_t by eauto. case_decide; [lia|]. by apply (i_others _ _ _ _ _ I).
Qed.

Lemma threads1 t ts' :
  ts' = <[1%nat := t]> (threads w) ->
  ts' !! 0%nat = Some t0 /\ ts' !! 1%nat = Some t /\
  (forall i t, (2 <= i)%nat -> ts' !! i = Some t -> t = Idle \/ t = EmptyFront \/ exists f, t = EmptyRear f).
Proof.
  intros ->. pose proof (i_t1 _ _ _ _ _ I) as H1. split_and!.
  - rewrite lookup_insert_t by eauto. apply I.
  - rewrite lookup_insert_t by eauto. done.
  - intros i t' Hi. rewrite lookup_insert_t by eauto. case_decide; [lia|]. by apply (i_others _ _ _ _ _ I).
Qed.

(** Thread 0 moves on, perhaps to a new rear, without touching the heap. *)
Lemma inv_move0 t r c :
  push_ok (heap w) (front w) l r t -> private t = private t0 -> agrees (heap w) t c ->
  (behind t0 = false -> behind t = false /\ r = rear w) ->
  (forall f b, t = EmptyRear f -> c = ALin (REmpty b) -> b = (f =? r)) ->
  inv (w <| rear := r |> <| threads ::= <[0%nat := t]> |>) (mkA (elems a) (<[0%nat := c]> (calls a))) l t t1.
Proof.
  intros P Hp A Hb Hc. destruct (threads0 t _ eq_refl) as (T0 & T1 & T2).
  destruct I. constructor; simpl; rewrite ?Hp; try done.
  - apply (agrees_update (heap w)); [done| |done]. intros j t' x e _ _ _ E. by eauto.
  - apply (asked_update _ _ (rear w) t0); [done..|]. intros f b -> ->. split; [done|by apply Hc].
Qed.

(** Thread 1 moves on without touching shared memory. *)
Lemma inv_move1 t c :
  pop_ok (heap w) (front w) l (elems a) t -> front_refs t = front_refs t1 ->
  detached t = detached t1 -> agrees (heap w) t c ->
  (forall f b, t = EmptyRear f -> c = ALin (REmpty b) -> behind t0 = false /\ b = (f =? rear w)) ->
  inv (w <| threads ::= <[1%nat := t]> |>) (mkA (elems a) (<[1%nat := c]> (calls a))) l t0 t.
Proof.
  intros P Hf Hd A Hc. destruct (threads1 t _ eq_refl) as (T0 & T1 & T2).
  destruct I. constructor; simpl; rewrite ?Hf, ?Hd; try done.
  - apply (agrees_update (heap w)); [done| |done]. intros j t' x e _ _ _ E. by eauto.
  - by apply (asked_update _ _ (rear w) t0).
Qed.

(** So does another thread. *)
Lemma inv_move2 i t c :
  (2 <= i)%nat -> is_Some (threads w !! i) -> t = Idle \/ t = EmptyFront \/ (exists f, t = EmptyRear f) ->
  agrees (heap w) t c ->
  (forall f b, t = EmptyRear f -> c = ALin (REmpty b) -> behind t0 = false /\ b = (f =? rear w)) ->
  inv (w <| threads ::= <[i := t]> |>) (mkA (elems a) (<[i := c]> (calls a))) l t0 t1.
Proof.
  intros Hi Hs Ht A Hc. destruct I. constructor; simpl; try done.
  - rewrite lookup_insert_t by done. case_decide; [lia|done].
  - rewrite lookup_insert_t by done. case_decide; [lia|done].
  - intros j t' Hj. rewrite lookup_insert_t by done. case_decide; [|by apply i_others0].
    intros. by simplify_eq.
  - apply (agrees_update (heap w)); [done| |done]. intros j t' x e _ _ _ E. by eauto.
  - by apply (asked_update _ _ (rear w) t0).
Qed.
End steps.

Lemma push_ok_heap h h' n l r t :
  (forall x, private t = Some x -> h' !! x = h !! x) -> push_ok h n l r t -> push_ok h' n l r t.
Proof. intros H. destruct t; simpl in *; try done; by rewrite H. Qed.

Lemma pop_ok_heap h h' n l q t :
  (forall x, detached t = Some x -> h' !! x = h !! x) -> pop_ok h n l q t -> pop_ok h' n l q t.
Proof.
  intros H. destruct t as [| | | | | | | | | | | | | |e k|e k| |]; simpl in *; try done;
    destruct k; simpl in *; try done; by rewrite H.
Qed.

Section heap_steps.
Context (w : world) (a : aworld) (l : list Z) (t0 t1 : thread).
Hypothesis I : inv w a l t0 t1.

Lemma detached_alloc x : detached t1 = Some x -> (x ∉ front w :: l) /\ is_Some (heap w !! x).
Proof.
  intros D. pose proof (i_pop _ _ _ _ _ I) as H.
  destruct t1 as [| | | | | | | | | | | | | |e k|e k| |]; simpl in *; try done;
    destruct k; simpl in *; try done; simplify_eq; destruct H as (H & y & E & _); split; eauto.
Qed.

Lemma nodes_alloc x : x ∈ front w :: l -> is_Some (heap w !! x).
Proof. eapply chain_lookup, I. Qed.

(** [Palloc] and the fields of the new entity. *)
Lemma inv_alloc x d c :
  t0 = PushAlloc d -> x <> 0 -> heap w !! x = None -> c = ACalled (CPush d) ->
  inv (w <| heap ::= <[x := mkEntity 0 1 d]> |> <| threads ::= <[0%nat := PushRead x]> |>)
    (mkA (elems a) (<[0%nat := c]> (calls a))) l (PushRead x) t1.
Proof.
  intros Et H0 Hx ->. destruct (threads0 _ _ _ _ _ I (PushRead x) _ eq_refl) as (T0 & T1 & T2).
  assert (x ∉ front w :: l) as Hn by (intros [e E]%nodes_alloc; congruence).
  assert (forall y, is_Some (heap w !! y) -> <[x := mkEntity 0 1 d]> (heap w) !! y = heap w !! y) as Hy
    by (intros y [e E]; rewrite lookup_insert_ne by congruence; done).
  destruct I. constructor; simpl; try done.
  - by apply qchain_insert.
  - destruct i_front0 as (e & E & He). exists e. by rewrite Hy by eauto.
  - intros y Hin. destruct (i_refs0 y Hin) as (e & E & He). exists e. by rewrite Hy by eauto.
  - rewrite Et in i_push0. split_and!; try done. eexists. by rewrite lookup_insert_eq.
  - apply (pop_ok_heap (heap w)); [|done]. intros y Hd. apply Hy. by apply detached_alloc.
  - intros y [= <-] Hd. destruct (detached_alloc _ Hd) as [_ [e E]]. congruence.
  - intros y. destruct (decide (y = x)) as [->|]; [by eauto|]. rewrite lookup_insert_ne by done.
    intros H. destruct (i_dom0 y H) as [?|[Hp|?]]; [by left| |by eauto]. by rewrite Et in Hp.
  - apply (agrees_update (heap w)); [done| |].
    + intros j t y e _ Ej Hp E. exists e. by rewrite Hy by eauto.
    + eexists. by rewrite lookup_insert_eq.
  - by apply (asked_update _ _ (rear w) t0).
Qed.

(** The compare-and-swap on the last node's link: the push takes effect. *)
Lemma inv_link e tmp t :
  t0 = PushLink e tmp -> heap w !! tmp = Some t ->
  next t = 0 /\ exists x, heap w !! e = Some x /\
  inv (w <| heap ::= <[tmp := t <| next := e |>]> |> <| threads ::= <[0%nat := PushSwing e tmp]> |>)
    (mkA (elems a ++ [data x]) (map unsure (<[0%nat := ALin (RPush 0)]> (calls a)))) (l ++ [e]) (PushSwing e tmp) t1.
Proof.
  intros Et Ht. destruct (threads0 _ _ _ _ _ I (PushSwing e tmp) _ eq_refl) as (T0 & T1 & T2).
  pose proof (i_push _ _ _ _ _ I) as P. rewrite Et in P. destruct P as (L & -> & H0 & Hn & x & Ex & Hx & Hr).
  pose proof detached_alloc as Hd.
  assert (detached t1 <> Some e) as Hap by (apply (i_apart _ _ _ _ _ I); by rewrite Et).
  destruct (qchain_snoc _ _ _ _ _ _ _ _ (i_chain _ _ _ _ _ I) (i_nodup _ _ _ _ _ I) L Ht Hn H0 Ex Hx) as [Hz C].
  split; [done|]. exists x. split; [done|].
  assert (rear w ∈ front w :: l) as Hin by (by apply last_Some_elem_of).
  destruct I. constructor; simpl; try done.
  - rewrite app_comm_cons. apply list.NoDup_app. split_and!; [done| |by apply NoDup_singleton].
    intros y Hy ->%list_elem_of_singleton. done.
  - destruct i_front0 as (y & Ey & Hy). destruct (decide (front w = rear w)) as [Ef|].
    + rewrite Ef in Ey. rewrite Ey in Ht. injection Ht as <-. eexists. rewrite Ef, lookup_insert_eq. done.
    + exists y. by rewrite lookup_insert_ne.
  - intros z [Hz'| ->%list_elem_of_singleton]%elem_of_app.
    + destruct (i_refs0 z Hz') as (y & Ey & Hy). destruct (decide (z = rear w)) as [->|].
      * rewrite Ey in Ht. injection Ht as <-. eexists. by rewrite lookup_insert_eq.
      * exists y. by rewrite lookup_insert_ne.
    + exists x. rewrite lookup_insert_ne by set_solver. done.
  - split; [done|]. by rewrite app_comm_cons, last_snoc.
  - apply (pop_ok_heap (heap w)).
    { intros y Hy. destruct (Hd y Hy). by rewrite lookup_insert_ne by set_solver. }
    destruct t1 as [| | | | | | | | | | | | | |e1 k|e1 k| |]; simpl in *; try done.
    + destruct i_pop0. split; [done|]. by destruct l.
    + destruct i_pop0. split; [done|]. by destruct l.
    + destruct i_pop0. split; [done|]. by destruct (elems a).
    + destruct i_pop0 as (? & ? & ?). split_and!; [done|by destruct l|by destruct (elems a)].
    + destruct k; try done; destruct i_pop0 as [Hn1 ?]; (split; [|done]); simpl in Hap; set_solver.
    + destruct k; try done; destruct i_pop0 as [Hn1 ?]; (split; [|done]); simpl in Hap; set_solver.
  - intros y. destruct (decide (y = rear w)) as [->|].
    + intros _. left. set_solver.
    + rewrite lookup_insert_ne by done. intros H. destruct (i_dom0 y H) as [?|[Hp|?]]; [set_solver| |by eauto].
      rewrite Et in Hp. simpl in Hp. simplify_eq. left. set_solver.
  - apply agrees_unsure. apply (agrees_update (heap w)); [done| |done].
    intros j t' y e' Hj Ej Hp E. rewrite (others_private _ _ _ _ _ I j t' y Ej Hp) in Hj. done.
  - intros j f b _ Ej. rewrite list_lookup_fmap_Some in Ej. destruct Ej as (c & Ec & _). by destruct c as [| |[]|].
Qed.
End heap_steps.

Section pop_steps.
Context (w : world) (a : aworld) (l : list Z) (t0 t1 : thread).
Hypothesis I : inv w a l t0 t1.

(** Thread 1 changes the reference count of a node that is not on the way. *)
Lemma inv_ref x e r t c :
  heap w !! x = Some e -> private t0 <> Some x -> (x ∉ l) ->
  (if decide (x = front w) then r = front_refs t else front_refs t = front_refs t1) ->
  pop_ok (<[x := e <| ref := r |>]> (heap w)) (front w) l (elems a) t ->
  detached t = detached t1 -> agrees (heap w) t c -> (match t with EmptyRear _ => False | _ => True end) ->
  inv (w <| heap ::= <[x := e <| ref := r |>]> |> <| threads ::= <[1%nat := t]> |>)
    (mkA (elems a) (<[1%nat := c]> (calls a))) l t0 t.
Proof.
  intros Ex Hp Hl Hf P Hd A Hq. destruct (threads1 _ _ _ _ _ I t _ eq_refl) as (T0 & T1 & T2).
  destruct I. constructor; simpl; rewrite ?Hd; try done.
  - by apply chain_ref.
  - destruct i_front0 as (y & Ey & Hy). case_decide as Ef.
    + rewrite Ef. eexists. by rewrite lookup_insert_eq.
    + exists y. rewrite lookup_insert_ne by done. by rewrite Hf.
  - intros y Hy. destruct (i_refs0 y Hy) as (z & Ez & Hz). exists z. rewrite lookup_insert_ne by congruence. done.
  - apply (push_ok_heap (heap w)); [|done]. intros y Hy. apply lookup_insert_ne. congruence.
  - intros y. destruct (decide (y = x)) as [->|]; [by intros _; apply i_dom0; eauto|].
    rewrite lookup_insert_ne by done. apply i_dom0.
  - apply (agrees_update (heap w)); [done| |].
    + intros j t' y e' Hj Ej Hy E. destruct (decide (y = x)) as [->|].
      * rewrite Ex in E. injection E as <-. eexists. by rewrite lookup_insert_eq.
      * exists e'. by rewrite lookup_insert_ne.
    + destruct t; try exact A; simpl in P; done.
  - apply (asked_update _ _ (rear w) t0); [done..|]. intros f b Ef. by rewrite Ef in Hq.
Qed.

(** The compare-and-swap on the front: the pop takes effect. *)
Lemma inv_swing e n d :
  t1 = PopSwing e n d ->
  exists l' q', l = n :: l' /\ elems a = d :: q' /\
  inv (w <| front := n |> <| threads ::= <[1%nat := DecRef e (ADrop d)]> |>)
    (mkA q' (<[1%nat := ALin (RPop d)]> (calls a))) l' t0 (DecRef e (ADrop d)).
Proof.
  intros Et. destruct (threads1 _ _ _ _ _ I (DecRef e (ADrop d)) _ eq_refl) as (T0 & T1 & T2).
  pose proof (private_alloc _ _ _ _ _ I) as Hpr. destruct I. rewrite Et in *.
  destruct i_pop0 as (-> & Hl & Hq).
  destruct l as [|n' l']; simpl in Hl; [done|]. destruct (elems a) as [|d' q'] eqn:Eq; simpl in Hq; [done|].
  simplify_eq. exists l', q'. split; [done|]. split; [done|].
  destruct i_chain0 as (Hn & (x & Ex & Enx) & _ & C). apply list.NoDup_cons in i_nodup0 as [N1 N2].
  constructor; simpl; try done.
  - apply i_refs0. by left.
  - intros y Hy. apply i_refs0. by right.
  - destruct t0; simpl in *; try done; try (split_and!; try done; [apply i_push0..|]);
      destruct i_push0 as (? & ?); set_solver.
  - intros y Hy E. injection E as E. destruct (Hpr y Hy) as [Hn1 _]. set_solver.
  - intros y Hy. destruct (i_dom0 y Hy) as [[->|H]%elem_of_cons|[H|H]]; [by eauto..|done].
  - apply (agrees_update (heap w)); [done| |done]. intros j t' y e' _ _ _ E. by eauto.
  - by apply (asked_update _ _ (rear w) t0).
Qed.

(** [Pfree] of the node. *)
Lemma inv_free e d :
  t1 = FreeRef e (ARet d) ->
  inv (w <| heap ::= delete e |> <| threads ::= <[1%nat := Idle]> |>)
    (mkA (elems a) (<[1%nat := AIdle]> (calls a))) l t0 Idle.
Proof.
  intros Et. destruct (threads1 _ _ _ _ _ I Idle _ eq_refl) as (T0 & T1 & T2).
  assert (private t0 <> Some e) as Hp.
  { intros H. apply (i_apart _ _ _ _ _ I e H). by rewrite Et. }
  destruct I. rewrite Et in *. destruct i_pop0 as (Hn & x & Ex & _). constructor; simpl; try done.
  - by apply chain_delete.
  - destruct i_front0 as (y & Ey & Hy). exists y. rewrite lookup_delete_ne by set_solver. done.
  - intros y Hy. destruct (i_refs0 y Hy) as (z & Ez & Hz). exists z. rewrite lookup_delete_ne by set_solver. done.
  - apply (push_ok_heap (heap w)); [|done]. intros y Hy. apply lookup_delete_ne. congruence.
  - intros y. destruct (decide (y = e)) as [->|]; [rewrite lookup_delete_eq; by intros []|].
    rewrite lookup_delete_ne by done. intros H. destruct (i_dom0 y H) as [?|[?|?]]; [by eauto..|].
    simpl in *. congruence.
  - apply (agrees_update (heap w)); [done| |done].
    intros j t' y e' Hj Ej Hy E. exists e'. split; [|done].
    assert (y <> e) by (intros ->; destruct j as [|[|j]]; [|done|];
      [rewrite i_t2 in Ej; congruence|
       destruct (i_others0 (S (S j)) t' ltac:(lia) Ej) as [->|[->|[f ->]]]; done]).
    by rewrite lookup_delete_ne.
  - by apply (asked_update _ _ (rear w) t0).
Qed.
End pop_steps.

(** * Simulation *)

Definition good (w : world) (a : aworld) : Prop := exists l t0 t1, inv w a l t0 t1.

(** What an access by thread [i] may lead to. *)
Definition allowed (i : nat) (a : aworld) (o : outcome) : Prop :=
  match o with
  | Blocked => True
  | Fault => False
  | Next None w => exists a', arun a [] a' /\ good w a'
  | Next (Some r) w => exists a', arun a [ERet i r] a' /\ good w a'
  end.

Lemma lookup_call w a l t0 t1 i t :
  inv w a l t0 t1 -> threads w !! i = Some t ->
  exists c, calls a !! i = Some c /\ agrees (heap w) t c /\
    mkA (elems a) (<[i := c]> (calls a)) = a.
Proof.
  intros I E. destruct (Forall2_lookup_l _ _ _ _ _ (i_agrees _ _ _ _ _ I) E) as (c & Ec & A).
  exists c. split_and!; [done..|]. rewrite list_insert_id by done. by destruct a.
Qed.

Lemma arun_ret a i r :
  calls a !! i = Some (ALin r) -> arun a [ERet i r] (mkA (elems a) (<[i := AIdle]> (calls a))).
Proof. destruct a. intros H. by apply arun_one, as_ret. Qed.

(** Comparing the ends, unless the rear is behind. *)
Lemma ends_equal w a l t0 t1 :
  inv w a l t0 t1 -> behind t0 = false -> bool_decide (elems a = []) = (front w =? rear w).
Proof.
  intros I Hb. pose proof (i_chain _ _ _ _ _ I) as C. pose proof (i_nodup _ _ _ _ _ I) as N.
  assert (list.last (front w :: l) = Some (rear w)) as L.
  { pose proof (i_push _ _ _ _ _ I) as P. destruct t0; simpl in *; naive_solver. }
  apply list.NoDup_cons in N as [N _]. destruct l as [|m l]; destruct (elems a) as [|d q]; try done.
  - simpl in L. injection L as ->. by rewrite Z.eqb_refl.
  - symmetry. apply Z.eqb_neq. intros Ef. apply N. rewrite Ef. by apply last_Some_elem_of.
Qed.

(** Asking for emptiness, by any thread. *)
Lemma sim_empty i w a l t0 t1 t :
  inv w a l t0 t1 -> threads w !! i = Some t -> (t = EmptyFront \/ exists f, t = EmptyRear f) ->
  (forall t' c, (t' = Idle \/ exists f, t' = EmptyRear f) -> agrees (heap w) t' c ->
    (forall f b, t' = EmptyRear f -> c = ALin (REmpty b) -> behind t0 = false /\ b = (f =? rear w)) ->
    good (w <| threads ::= <[i := t']> |>) (mkA (elems a) (<[i := c]> (calls a)))) ->
  allowed i a (empty_step i t w).
Proof.
  intros I E Ht Hgo. destruct (lookup_call _ _ _ _ _ _ _ I E) as (c & Ec & A & Ea).
  assert (i < length (calls a))%nat as Hi by (by eapply lookup_lt_Some).
  pose proof (ends_equal _ _ _ _ _ I) as Hend. destruct a as [q ts]. simpl in *.
  set (b := bool_decide (q = [])) in *.
  destruct Ht as [->|[f ->]]; simpl in A.
  - subst c. assert (arun (mkA q ts) [] (mkA q (<[i := ALin (REmpty b)]> ts))) as R
      by (by apply arun_one, as_empty).
    destruct (behind t0) eqn:Hb.
    + exists (mkA q (<[i := AUnsure]> ts)). split; [|by apply Hgo; [eauto|left|]].
      change (@nil event) with (@nil event ++ []). eapply arun_trans; [exact R|].
      destruct (lookup_call _ _ _ _ _ _ _ I (i_t0 _ _ _ _ _ I)) as (c0 & Ec0 & A0 & _).
      destruct t0; try done. simpl in A0, Ec0. subst c0.
      rewrite <- (list_insert_insert_eq ts i AUnsure (ALin (REmpty b))).
      apply arun_one. apply (as_race _ _ _ 0%nat b); [by apply list_lookup_insert_eq|].
      rewrite list_lookup_insert_ne by congruence. done.
    + exists (mkA q (<[i := ALin (REmpty b)]> ts)). split; [done|]. apply Hgo; [by eauto|by right; eauto|].
      intros f b' [= <-] [= <-]. split; [done|]. by apply Hend.
  - exists (mkA q (<[i := AIdle]> ts)). split; [|by apply Hgo; [left| |]].
    destruct A as [->|[b' ->]].
    + change [ERet i (REmpty (f =? rear w))] with ([] ++ [ERet i (REmpty (f =? rear w))]).
      eapply arun_trans; [apply arun_one; by apply (as_unsure _ _ i (f =? rear w))|].
      rewrite <- (list_insert_insert_eq ts i AIdle (ALin (REmpty (f =? rear w)))).
      apply arun_one, as_ret. by apply list_lookup_insert_eq.
    + destruct (i_asked _ _ _ _ _ I i f b' E Ec) as [_ ->]. apply arun_one. by apply as_ret.
Qed.

Ltac same_call a Ea := exists a; split; [constructor|]; rewrite <- Ea at 1.

Lemma sim_push awp_debug x w a l t0 t1 :
  inv w a l t0 t1 -> x <> 0 -> (forall d, t0 = PushAlloc d -> awp_debug = true -> d <> 0) ->
  allowed 0 a (step awp_debug 0 x w).
Proof.
  intros I Hx Hd. pose proof (i_t0 _ _ _ _ _ I) as E. pose proof (i_push _ _ _ _ _ I) as P.
  pose proof (i_flags _ _ _ _ _ I) as [_ Hf].
  destruct (lookup_call _ _ _ _ _ _ _ I E) as (c & Ec & A & Ea).
  assert (0 < length (calls a))%nat as Hlen by (by eapply lookup_lt_Some).
  unfold step. rewrite E. destruct t0; try done.
  - simpl. rewrite Hf. same_call a Ea. exists l, (PushAlloc d), t1. by apply (inv_move0 w a l _ t1 I _ (rear w)).
  - simpl. replace (x =? 0) with false by (symmetry; by apply Z.eqb_neq). simpl.
    replace (awp_debug && (d =? 0)) with false.
    2:{ destruct awp_debug; [|done]. specialize (Hd d eq_refl eq_refl). symmetry. by apply Z.eqb_neq. }
    case_bool_decide as Hs; [done|].
    same_call a Ea. exists l, (PushRead x), t1. apply (inv_alloc w a l _ t1 I x d); try done.
    by apply eq_None_not_Some.
  - same_call a Ea. exists l, (PushLink e (rear w)), t1.
    apply (inv_move0 w a l _ t1 I _ (rear w)); [|done..]. destruct P as (L & H0 & Hn & Hy). by split_and!.
  - destruct (nodes_alloc w a l _ t1 I tmp) as [t Et].
    { destruct P as (L & -> & _). by apply last_Some_elem_of. }
    destruct (inv_link w a l _ t1 I e tmp t eq_refl Et) as (Hz & y & Ey & I').
    simpl. unfold at_entity. rewrite Et, Hz. simpl.
    destruct A as (y' & Ey' & ->). simplify_eq. eexists. split; [|by exists (l ++ [e]), (PushSwing e tmp), t1].
    change (@nil event) with (@nil event ++ []).
    destruct a as [q ts]. eapply arun_trans; [apply arun_one; by apply as_push|].
    apply (arun_unsure _ 0%nat). by apply list_lookup_insert_eq.
  - simpl in *. destruct P as [-> L]. rewrite Z.eqb_refl. subst c.
    exists (mkA (elems a) (<[0%nat := AIdle]> (calls a))). split; [by apply arun_ret|].
    exists l, Idle, t1. by apply (inv_move0 w a l _ t1 I _ e).
  - apply (sim_empty _ _ _ _ _ _ _ I E); [by left|]. intros t c' Ht Ac Hq. exists l, t, t1.
    apply (inv_move0 w a l _ t1 I _ (rear w)); [|by destruct Ht as [->|[f ->]]|done| |].
    + by destruct Ht as [->|[f ->]].
    + by destruct Ht as [->|[f ->]].
    + intros. by eapply Hq.
  - apply (sim_empty _ _ _ _ _ _ _ I E); [by eauto|]. intros t c' Ht Ac Hq. exists l, t, t1.
    apply (inv_move0 w a l _ t1 I _ (rear w)); [|by destruct Ht as [->|[f' ->]]|done| |].
    + by destruct Ht as [->|[f' ->]].
    + by destruct Ht as [->|[f' ->]].
    + intros. by eapply Hq.
Qed.

(** [QueueNodeEntityDecRef]. *)
Lemma sim_dec (x : Z) w a l t0 t1 :
  inv w a l t0 t1 -> forall e k, t1 = DecRef e k -> allowed 1 a (pop_step 1 t1 w).
Proof.
  intros I e k ->. pose proof (i_t1 _ _ _ _ _ I) as E. pose proof (i_pop _ _ _ _ _ I) as P.
  destruct (i_front _ _ _ _ _ I) as (y & Ey & Hy).
  pose proof (i_nodup _ _ _ _ _ I) as N. apply list.NoDup_cons in N as [N _].
  destruct (lookup_call _ _ _ _ _ _ _ I E) as (c & Ec & A & Ea).
  assert (forall z, detached (DecRef e k) = Some z -> private t0 <> Some z) as Hap
    by (intros z Hz Hp; by apply (i_apart _ _ _ _ _ I z Hp)).
  destruct k as [| |d|d]; simpl in P, Hy, Hap; try done.
  - subst e. simpl. unfold at_entity. rewrite Ey. replace (ref y - 1 =? 0) with false by lia.
    simpl in A. subst c. eexists. split; [by apply arun_ret|].
    exists l, t0, Idle. apply (inv_ref w a l t0 _ I); try done.
    + intros H. destruct (private_alloc _ _ _ _ _ I _ H) as [Hn _]. set_solver.
    + case_decide; [simpl; lia|done].
  - destruct P as (Hn & z & Ez & Hz). simpl. unfold at_entity. rewrite Ez.
    replace (ref z - 1 =? 0) with false by lia. same_call a Ea.
    exists l, t0, (DecRef e (ARet d)). apply (inv_ref w a l t0 _ I); try done; [by apply Hap|set_solver| |].
    + case_decide; [set_solver|done].
    + split; [done|]. eexists. rewrite lookup_insert_eq. split; [done|]. simpl. lia.
  - destruct P as (Hn & z & Ez & Hz). simpl. unfold at_entity. rewrite Ez.
    replace (ref z - 1 =? 0) with true by lia. same_call a Ea.
    exists l, t0, (FreeRef e (ARet d)). apply (inv_ref w a l t0 _ I); try done; [by apply Hap|set_solver| |].
    + case_decide; [set_solver|done].
    + split; [done|]. eexists. rewrite lookup_insert_eq. split; [done|]. simpl. lia.
Qed.

Lemma sim_pop awp_debug x w a l t0 t1 :
  inv w a l t0 t1 -> allowed 1 a (step awp_debug 1 x w).
Proof.
  intros I. pose proof (i_t1 _ _ _ _ _ I) as E. pose proof (i_pop _ _ _ _ _ I) as P.
  pose proof (i_flags _ _ _ _ _ I) as [Hf _]. destruct (i_front _ _ _ _ _ I) as (y & Ey & Hy).
  pose proof (i_nodup _ _ _ _ _ I) as N. apply list.NoDup_cons in N as [N _].
  assert (private t0 <> Some (front w)) as Hpf.
  { intros H. destruct (private_alloc _ _ _ _ _ I _ H) as [Hn _]. set_solver. }
  destruct (lookup_call _ _ _ _ _ _ _ I E) as (c & Ec & A & Ea).
  unfold step. rewrite E.
  destruct t1 as [| | | | | | | |e|e|e|e n|e d|e n d|e k|e k| |f]; try done; simpl in P.
  - simpl. rewrite Hf. same_call a Ea. exists l, t0, PopRead. by apply (inv_move1 w a l t0 _ I).
  - same_call a Ea. exists l, t0, (PopRef (front w)). by apply (inv_move1 w a l t0 _ I).
  - subst e. simpl. unfold at_entity. rewrite Ey. same_call a Ea. exists l, t0, (PopNext (front w)).
    apply (inv_ref w a l t0 _ I); try done. case_decide; [|done]. simpl in *. lia.
  - subst e. simpl. unfold at_entity. rewrite Ey. pose proof (i_chain _ _ _ _ _ I) as C.
    destruct l as [|m l]; destruct (elems a) as [|d q] eqn:Eq; simpl in C; try done.
    + destruct C as (y' & Ey' & Hn). rewrite Ey in Ey'. injection Ey' as <-. rewrite Hn. simpl in A. subst c. simpl.
      exists (mkA [] (<[1%nat := ALin (RPop 0)]> (calls a))). split.
      { apply arun_one. destruct a as [q ts]. simpl in *. subst q. by apply as_pop_null. }
      exists [], t0, (DecRef (front w) ANull). rewrite <- Eq at 1. apply (inv_move1 w a [] t0 _ I); try done.
    + destruct C as (Hm & (y' & Ey' & Hn) & _). rewrite Ey in Ey'. injection Ey' as <-.
      replace (next y =? 0) with false by (symmetry; apply Z.eqb_neq; congruence).
      exists a. split; [constructor|]. rewrite <- Ea at 1. rewrite <- Eq.
      exists (m :: l), t0, (PopData (front w)). by apply (inv_move1 w a _ t0 _ I).
  - destruct P as [-> Hl]. simpl. unfold at_entity. rewrite Ey. same_call a Ea.
    exists l, t0, (PopData2 (front w) (next y)). apply (inv_move1 w a l t0 _ I); try done.
    split; [done|]. pose proof (i_chain _ _ _ _ _ I) as C. destruct l as [|m l]; [done|].
    destruct (elems a); [done|]. destruct C as (_ & (y' & Ey' & Hn) & _). simpl. congruence.
  - destruct P as [-> Hl]. pose proof (i_chain _ _ _ _ _ I) as C. destruct l as [|m l]; [done|].
    simpl in Hl. simplify_eq. destruct (elems a) as [|d q] eqn:Eq; [done|].
    destruct C as (_ & _ & (y' & Ey' & Hn) & _). simpl. unfold at_entity. rewrite Ey'.
    exists a. split; [constructor|]. rewrite <- Ea at 1. rewrite <- Eq.
    exists (n :: l), t0, (PopNew (front w) (data y')). apply (inv_move1 w a _ t0 _ I); try done.
    split; [done|]. rewrite Eq. simpl. congruence.
  - destruct P as [-> Hq]. pose proof (i_chain _ _ _ _ _ I) as C. destruct (elems a) as [|d' q] eqn:Eq; [done|].
    simpl in Hq. simplify_eq. destruct l as [|m l]; [done|].
    destruct C as (_ & (y' & Ey' & Hn) & _). simpl. unfold at_entity. rewrite Ey'.
    exists a. split; [constructor|]. rewrite <- Ea at 1. rewrite <- Eq.
    exists (m :: l), t0, (PopSwing (front w) (next y') d). apply (inv_move1 w a _ t0 _ I); try done.
    rewrite Eq. split_and!; [done|simpl; congruence|done].
  - destruct (inv_swing w a l t0 _ I e n d eq_refl) as (l' & q' & -> & Eq & I').
    destruct P as (-> & _). simpl. rewrite Z.eqb_refl. simpl in A. subst c.
    eexists. split; [|by exists l', t0, (DecRef (front w) (ADrop d))].
    apply arun_one. destruct a as [q ts]. simpl in *. subst q. by apply as_pop.
  - by apply (sim_dec x w a l t0 _ I e k).
  - destruct k; try done. pose proof (inv_free w a l t0 _ I e d eq_refl) as I'.
    destruct P as (Hn & y' & Ey' & _). simpl. unfold at_entity. rewrite Ey'. simpl in A. subst c.
    eexists. split; [by apply arun_ret|]. by exists l, t0, Idle.
  - apply (sim_empty _ _ _ _ _ _ _ I E); [by left|]. intros t c' Ht Ac Hq. exists l, t0, t.
    apply (inv_move1 w a l t0 _ I); try done; by destruct Ht as [->|[f ->]].
  - apply (sim_empty _ _ _ _ _ _ _ I E); [by eauto|]. intros t c' Ht Ac Hq. exists l, t0, t.
    apply (inv_move1 w a l t0 _ I); try done; by destruct Ht as [->|[f' ->]].
Qed.

(** * Runs *)

(** One thread pushes and one pops; allocations succeed; a debug build insists
    on data that is not null. *)
Definition legal (awp_debug : bool) (x : action) : Prop :=
  match x with
  | Call i (CPush d) => i = 0%nat /\ (awp_debug = true -> d <> 0)
  | Call i CPop => i = 1%nat
  | Call i CEmpty => True
  | Step i a => a <> 0
  end.

Definition pushes_ok (awp_debug : bool) (a : aworld) : Prop :=
  forall i d, calls a !! i = Some (ACalled (CPush d)) -> awp_debug = true -> d <> 0.

Lemma arun_pushes_ok awp_debug a es a' :
  arun a es a' -> (forall i d, ECall i (CPush d) ∈ es -> awp_debug = true -> d <> 0) ->
  pushes_ok awp_debug a -> pushes_ok awp_debug a'.
Proof.
  induction 1 as [|a1 es a2 es' a3 S _ IH]; intros He P; [done|].
  apply IH; [intros i d Hi; apply (He i d); set_solver|].
  destruct S as [q ts j c Hj|q ts j d0 Hj|d0 q ts j Hj|ts j Hj|q ts j Hj|q ts j j' b Hj Hj'|q ts j b Hj|q ts j r Hj];
    intros i d Hi; simpl in *;
    (destruct (decide (i = j)) as [->|Hne];
     [rewrite list_lookup_insert_eq in Hi by (by eapply lookup_lt_Some); simplify_eq
     |rewrite list_lookup_insert_ne in Hi by done; by apply (P i)]).
  apply (He j d). set_solver.
Qed.

Lemma inv_start w a i c awp_debug :
  good w a -> legal awp_debug (Call i c) -> threads w !! i = Some Idle ->
  good (w <| threads ::= <[i := start c]> |>) (mkA (elems a) (<[i := ACalled c]> (calls a))).
Proof.
  intros (l & t0 & t1 & I) L E.
  assert (agrees (heap w) (start c) (ACalled c)) as A by (by destruct c).
  destruct i as [|[|i]].
  - rewrite (i_t0 _ _ _ _ _ I) in E. injection E as ->. exists l, (start c), t1.
    pose proof (i_push _ _ _ _ _ I) as P.
    apply (inv_move0 w a l _ t1 I _ (rear w)); by destruct c.
  - rewrite (i_t1 _ _ _ _ _ I) in E. injection E as ->. exists l, t0, (start c).
    destruct c; simpl in L; [by destruct L| |]; by apply (inv_move1 w a l t0 _ I).
  - exists l, t0, t1. destruct c; simpl in L; [by destruct L|done|].
    apply (inv_move2 w a l t0 t1 I); [lia|by eauto|by eauto|done|done].
Qed.

Lemma sim_step awp_debug i x w a :
  good w a -> pushes_ok awp_debug a -> x <> 0 -> allowed i a (step awp_debug i x w).
Proof.
  intros (l & t0 & t1 & I) P Hx. destruct i as [|[|i]].
  - apply (sim_push awp_debug x w a l t0 t1 I Hx). intros d -> Hd.
    destruct (lookup_call _ _ _ _ _ _ _ I (i_t0 _ _ _ _ _ I)) as (c & Ec & A & _).
    simpl in A. subst c. by apply (P 0%nat d).
  - by apply (sim_pop awp_debug x w a l t0 t1).
  - unfold step. destruct (threads w !! S (S i)) as [t|] eqn:E; [|done].
    destruct (i_others _ _ _ _ _ I (S (S i)) t ltac:(lia) E) as [->|Ht]; [done|].
    assert (allowed (S (S i)) a (empty_step (S (S i)) t w)) as H.
    { apply (sim_empty _ _ _ _ _ _ _ I E); [done|]. intros t' c Ht' A Hq. exists l, t0, t1.
      apply (inv_move2 w a l t0 t1 I); [lia|by eauto|tauto|done|done]. }
    by destruct Ht as [->|[f ->]].
Qed.

Lemma sim_run awp_debug l w a :
  good w a -> pushes_ok awp_debug a -> Forall (legal awp_debug) l ->
  exists es w' a', run awp_debug l w = Some (es, w') /\ arun a es a' /\ good w' a' /\
    pushes_ok awp_debug a'.
Proof.
  intros G P L. revert w a G P. induction L as [|x l Hx _ IH]; intros w a G P.
  { exists [], w, a. split_and!; try done. constructor. }
  destruct x as [i c|i y]; simpl.
  - destruct (threads w !! i) as [[]|] eqn:E; try by apply IH.
    set (a1 := mkA (elems a) (<[i := ACalled c]> (calls a))).
    assert (arun a [ECall i c] a1) as R1.
    { destruct G as (l0 & t0 & t1 & I). destruct (lookup_call _ _ _ _ _ _ _ I E) as (c' & Ec & A & _).
      simpl in A. subst c'. destruct a. by apply arun_one, as_call. }
    destruct (IH (w <| threads ::= <[i := start c]> |>) a1) as (es & w' & a' & E' & R & G' & P').
    { by apply (inv_start _ _ _ _ awp_debug). }
    { eapply arun_pushes_ok; [done| |done]. intros j d Hj%list_elem_of_singleton. simplify_eq. apply Hx. }
    exists (ECall i c :: es), w', a'. simpl in E'. rewrite E'. split_and!; try done.
    by apply (arun_trans a [ECall i c] a1 es a').
  - pose proof (sim_step awp_debug i y w a G P Hx) as S.
    destruct (step awp_debug i y w) as [| |r w1]; [by apply IH|done|].
    assert (exists a1, arun a (match r with Some r => [ERet i r] | None => [] end) a1 /\ good w1 a1)
      as (a1 & R1 & G1) by (destruct r; exact S).
    destruct (IH w1 a1) as (es & w' & a' & E' & R & G' & P'); [done| |].
    { eapply arun_pushes_ok; [done| |done]. intros j d Hj. destruct r; set_solver. }
    exists (match r with Some r => [ERet i r] | None => [] end ++ es), w', a'.
    split_and!; try done; [|by eapply arun_trans].
    by destruct r; rewrite E'.
Qed.

Lemma good_create dummy n : (2 <= n)%nat -> good (CdxQueueCreate dummy n) (mkA [] (replicate n AIdle)).
Proof.
  intros Hn. exists [], Idle, Idle.
  assert (forall i t, threads (CdxQueueCreate dummy n) !! i = Some t -> t = Idle) as Ht.
  { intros i t. simpl. intros H%lookup_replicate. tauto. }
  constructor; simpl; try done.
  - eexists. by rewrite lookup_singleton_eq.
  - by apply NoDup_singleton.
  - eexists. by rewrite lookup_singleton_eq.
  - by intros x Hx%not_elem_of_nil.
  - intros x [e [<- _]%lookup_singleton_Some]. left. set_solver.
  - apply lookup_replicate_2. lia.
  - apply lookup_replicate_2. lia.
  - intros i t _ H. left. by eapply Ht.
  - by apply Forall2_replicate.
  - intros i f b H. by apply Ht in H.
Qed.

Lemma chain_length h n l q : chain h n l q -> length l = length q.
Proof.
  revert n q. induction l as [|m l IH]; intros n [|d q] C; try done. simpl in *. f_equal. by eapply IH, C.
Qed.

(** When no call is in progress. *)
Definition quiet (w : world) : Prop := Forall (eq Idle) (threads w).

Lemma quiet_heap w a :
  good w a -> quiet w ->
  size (heap w) = S (length (elems a)) /\
  CdxQueueDestroy w = if decide (elems a = []) then Some ∅ else None.
Proof.
  intros (l & t0 & t1 & I) Q.
  assert (t0 = Idle) as -> by (symmetry; eapply (Forall_lookup_1 _ _ _ _ Q), I).
  assert (t1 = Idle) as -> by (symmetry; eapply (Forall_lookup_1 _ _ _ _ Q), I).
  destruct I as [_ C N (e & E & He) _ P _ _ D _ _ _ _]. simpl in P.
  assert (dom (heap w) = list_to_set (front w :: l) :> gset Z) as Ed.
  { apply set_eq. intros x. rewrite elem_of_dom, elem_of_list_to_set. split.
    - intros H. by destruct (D x H) as [?|[?|?]].
    - by eapply chain_lookup. }
  split.
  - rewrite <- (size_dom (D := gset Z)), Ed, size_list_to_set by done. simpl.
    by rewrite (chain_length _ _ _ _ C).
  - unfold CdxQueueDestroy. destruct (elems a) as [|d q]; destruct l as [|m l]; try done; simpl in P.
    + simplify_eq. rewrite P, Z.eqb_refl. simpl. rewrite <- P, E. simpl. rewrite He. simpl. f_equal.
      apply map_eq. intros x. rewrite lookup_empty. apply eq_None_not_Some. intros H.
      assert (x <> front w) by (intros ->; rewrite lookup_delete_eq in H; by destruct H).
      rewrite lookup_delete_ne in H by done. destruct (D x H) as [?|[?|?]]; set_solver.
    + destruct (decide _); [done|]. replace (front w =? rear w) with false; [done|].
      symmetry. apply Z.eqb_neq. intros Ef. apply list.NoDup_cons in N as [N _]. apply N.
      rewrite Ef. by apply last_Some_elem_of.
Qed.

(** * Progress *)

(** How many accesses of its own a call needs at most from here. *)
Definition budget (t : thread) : nat :=
  match t with
  | Idle => 0
  | PushCheck _ => 5 | PushAlloc _ => 4 | PushRead _ => 3 | PushLink _ _ => 2 | PushSwing _ _ => 1
  | PopCheck => 11 | PopRead => 10 | PopRef _ => 9 | PopNext _ => 8 | PopData _ => 7
  | PopData2 _ _ => 6 | PopNew _ _ => 5 | PopSwing _ _ _ => 4
  | DecRef _ (ADrop _) => 3 | DecRef _ (ARet _) => 2 | DecRef _ _ => 1 | FreeRef _ _ => 1
  | EmptyFront => 2 | EmptyRear _ => 1
  end.

(** The accesses thread [i] makes in a run. *)
Fixpoint accesses (awp_debug : bool) (i : nat) (l : list action) (w : world) : nat :=
  match l with
  | [] => 0
  | Call j c :: l =>
      match threads w !! j with
      | Some Idle => accesses awp_debug i l (w <| threads ::= <[j := start c]> |>)
      | _ => accesses awp_debug i l w
      end
  | Step j a :: l =>
      match step awp_debug j a w with
      | Next _ w' => (if decide (j = i) then 1 else 0) + accesses awp_debug i l w'
      | _ => accesses awp_debug i l w
      end
  end.

Definition thread_of (i : nat) (w : world) : thread := default Idle (threads w !! i).

(** The access succeeded: the thread is nearer to the end, the others are where
    they were. *)
Definition nearer (i : nat) (w : world) (o : outcome) : Prop :=
  match o with
  | Next _ w' => (budget (thread_of i w') < budget (thread_of i w))%nat /\
      forall j, j <> i -> thread_of j w' = thread_of j w
  | _ => True
  end.

Lemma nearer_move i t w w' r :
  is_Some (threads w !! i) -> threads w' = <[i := t]> (threads w) ->
  (budget t < budget (thread_of i w))%nat -> nearer i w (Next r w').
Proof.
  intros Hi E Hb. unfold thread_of in *. simpl. unfold thread_of. rewrite E. split.
  - rewrite list_lookup_insert_eq by (by apply lookup_lt_is_Some). done.
  - intros j Hj. by rewrite list_lookup_insert_ne.
Qed.

Lemma step_nearer awp_debug i x w a : good w a -> nearer i w (step awp_debug i x w).
Proof.
  intros (l & t0 & t1 & I). unfold step. destruct (threads w !! i) as [t|] eqn:E; [|done].
  assert (forall r t' w', threads w' = <[i := t']> (threads w) -> (budget t' < budget t)%nat ->
    nearer i w (Next r w')) as Hgo.
  { intros r t' w' E' Hb. eapply (nearer_move i t'); [by eauto|done|]. unfold thread_of. by rewrite E. }
  assert (t = Idle \/ (i = 0%nat /\ t0 = t) \/ (i = 1%nat /\ t1 = t) \/ t = EmptyFront \/ exists f, t = EmptyRear f)
    as [->|Ht].
  { destruct i as [|[|i]].
    - rewrite (i_t0 _ _ _ _ _ I) in E. injection E as ->. by eauto.
    - rewrite (i_t1 _ _ _ _ _ I) in E. injection E as ->. by eauto.
    - destruct (i_others _ _ _ _ _ I (S (S i)) t ltac:(lia) E) as [?|[?|?]]; eauto. }
  { done. }
  pose proof (i_push _ _ _ _ _ I) as Pu. pose proof (i_pop _ _ _ _ _ I) as Po.
  destruct Ht as [[-> ->]|[[-> ->]|[->|[f ->]]]].
  - destruct t as [|d|d|e|e tmp|e tmp| | | | | | | | | | | |f]; try done; simpl in Pu; simpl.
    + destruct (enablePush w); by eapply Hgo; [done|simpl; lia].
    + destruct (_ || _); [done|]. case_bool_decide; [done|]. eapply Hgo; [done|simpl; lia].
    + eapply Hgo; [done|simpl; lia].
    + unfold at_entity. destruct (heap w !! tmp) as [t|] eqn:Et; [|done].
      destruct (inv_link w a l _ t1 I e tmp t eq_refl Et) as (-> & _). eapply Hgo; [done|simpl; lia].
    + destruct (rear w =? tmp); [eapply Hgo; [done|simpl; lia]|].
      destruct awp_debug; [done|]. eapply Hgo; [done|simpl; lia].
    + eapply Hgo; [done|simpl; lia].
    + eapply Hgo; [done|simpl; lia].
  - destruct t as [| | | | | | | |e|e|e|e n|e d|e n d|e k|e k| |f]; try done; simpl in Po; simpl;
      try (unfold at_entity; destruct (heap w !! e) as [z|] eqn:Eh; [|done]).
    + destruct (enablePop w); eapply Hgo; try done; simpl; lia.
    + eapply Hgo; [done|simpl; lia].
    + eapply Hgo; [done|simpl; lia].
    + destruct (next z =? 0); eapply Hgo; try done; simpl; lia.
    + eapply Hgo; [done|simpl; lia].
    + unfold at_entity. destruct (heap w !! n) as [z'|]; [|done]. eapply Hgo; [done|simpl; lia].
    + eapply Hgo; [done|simpl; lia].
    + destruct Po as (-> & _). rewrite Z.eqb_refl. eapply Hgo; [done|simpl; lia].
    + destruct k as [| |d|d]; try done; destruct (ref z - 1 =? 0) eqn:Ez; simpl;
        try (eapply Hgo; [done|simpl; lia]).
      subst e. destruct (i_front _ _ _ _ _ I) as (y & Ey & Hy). simpl in Hy.
      rewrite Ey in Eh. injection Eh as <-. lia.
    + destruct k; try done. eapply Hgo; [done|simpl; lia].
    + eapply Hgo; [done|simpl; lia].
    + eapply Hgo; [done|simpl; lia].
  - eapply Hgo; [done|simpl; lia].
  - eapply Hgo; [done|simpl; lia].
  Unshelve. all: exact None.
Qed.

(** A thread in a call is never stuck. *)
Lemma step_moves awp_debug i x w a :
  good w a -> pushes_ok awp_debug a -> x <> 0 -> heap w !! x = None -> thread_of i w <> Idle ->
  exists r w', step awp_debug i x w = Next r w'.
Proof.
  intros G P Hx Hn Ht. pose proof (sim_step awp_debug i x w a G P Hx) as S.
  destruct (step awp_debug i x w) as [| |r w'] eqn:E; [|done|by eauto].
  exfalso. clear S P. unfold step, thread_of in *.
  destruct (threads w !! i) as [t|]; [|done]. simpl in Ht.
  destruct t; try done; simpl in E; unfold at_entity, goto, ret in E;
    repeat first [ done | case_match | case_bool_decide ]; try done;
    match goal with H : is_Some _ |- _ => rewrite Hn in H; by destruct H | _ => by destruct k end.
Qed.

Lemma run_accesses awp_debug i l w a :
  good w a -> pushes_ok awp_debug a -> Forall (legal awp_debug) l ->
  Forall (fun x => match x with Call j _ => j <> i | _ => True end) l ->
  exists es w', run awp_debug l w = Some (es, w') /\
    (accesses awp_debug i l w + budget (thread_of i w') <= budget (thread_of i w))%nat.
Proof.
  intros G P L C. revert w a G P C. induction L as [|x l Hx _ IH]; intros w a G P C.
  { exists [], w. split; [done|]. simpl. lia. }
  apply Forall_cons in C as [Cx C]. destruct x as [j c|j y].
  - simpl. destruct (threads w !! j) as [[]|] eqn:E; try by eapply IH.
    pose proof (sim_run awp_debug [Call j c] w a G P) as S. simpl in S. rewrite E in S.
    destruct S as (es1 & w1 & a1 & S & R1 & G1 & P1); [by constructor|]. injection S as <- <-.
    destruct (IH _ _ G1 P1 C) as (es & w' & E' & Ha). simpl in E'. rewrite E'.
    eexists _, w'. split; [done|]. simpl in Ha. unfold thread_of in Ha at 2. simpl in Ha.
    rewrite list_lookup_insert_ne in Ha by done. exact Ha.
  - pose proof (sim_run awp_debug [Step j y] w a G P) as S. simpl in S.
    pose proof (step_nearer awp_debug j y w a G) as Nr. simpl.
    destruct (step awp_debug j y w) as [| |r w1].
    + by eapply IH.
    + destruct S as (? & ? & ? & S & _); [by constructor|done].
    + destruct S as (es1 & w2 & a1 & S & R1 & G1 & P1); [by constructor|].
      assert (w2 = w1) as -> by (destruct r; simpl in S; by simplify_eq).
      destruct (IH _ _ G1 P1 C) as (es & w' & E' & Ha). rewrite E'. destruct Nr as [N1 N2].
      exists (match r with Some r => [ERet j r] | None => [] end ++ es), w'. split; [by destruct r|].
      case_decide as Hj; [subst j; lia|]. rewrite (N2 i) in Ha by done. lia.
Qed.

(** * Theorems *)

(** C12: With one thread that pushes and one that pops (any thread may ask whether
    the queue is empty), every schedule of the accesses to shared memory runs
    without a fault; the calls and returns it shows are those of a queue on which
    each call takes effect at one moment between its call and its return.  Whether the queue is
    empty is answered as it is at such a moment too, unless at some time between that moment and the
    return a push has taken effect and not returned: [CdxQueueEmpty] reads the two ends one after the
    other, and may then answer either way ([cdxqueue_empty_wrong] has both wrong answers).  When no
    call is in progress exactly the elements and the dummy are allocated, and
    destroying the queue frees all of them if it is empty and ends the process
    if it is not. *)
Theorem cdxqueue_linearizable awp_debug dummy n l :
  (2 <= n)%nat -> Forall (legal awp_debug) l ->
  exists es w a, run awp_debug l (CdxQueueCreate dummy n) = Some (es, w) /\
    arun (mkA [] (replicate n AIdle)) es a /\
    (quiet w -> size (heap w) = S (length (elems a)) /\
      CdxQueueDestroy w = if decide (elems a = []) then Some ∅ else None).
Proof.
  intros Hn L.
  destruct (sim_run awp_debug l (CdxQueueCreate dummy n) (mkA [] (replicate n AIdle)))
    as (es & w & a & E & R & G & P); [by apply good_create| |done|].
  { intros i d H%lookup_replicate. by destruct H. }
  exists es, w, a. split_and!; [done..|]. by apply quiet_heap.
Qed.

(** A push and a pop that overlap, then the question whether the queue is empty. *)
Lemma cdxqueue_linearizable_witness :
  let l := [Call 0 (CPush 7); Step 0 20; Step 0 20; Call 1 CPop; Step 0 20; Step 0 20] ++
           replicate 8 (Step 1 1) ++ [Step 0 20] ++ replicate 3 (Step 1 1) ++
           [Call 2 CEmpty; Step 2 1; Step 2 1] in
  fst <$> run true l (CdxQueueCreate 10 3) =
    Some [ECall 0 (CPush 7); ECall 1 CPop; ERet 0 (RPush 0); ERet 1 (RPop 7); ECall 2 CEmpty;
          ERet 2 (REmpty true)] /\
  exists es w a, run true l (CdxQueueCreate 10 3) = Some (es, w) /\
    arun (mkA [] [AIdle; AIdle; AIdle]) es a /\
    (quiet w -> size (heap w) = S (length (elems a)) /\
      CdxQueueDestroy w = if decide (elems a = []) then Some ∅ else None).
Proof.
  split; [vm_compute; reflexivity|].
  apply (cdxqueue_linearizable true 10 3); [lia|]. simpl. by repeat constructor.
Defined.

(** Where the answer of [CdxQueueEmpty] is wrong.  The only element was pushed and popped, and
    the thread that popped it is told that the queue is not empty, because the push has not moved the
    rear yet.  And with elements 1 and 2 in the queue, 1 popped and 3 pushed while a third thread asks,
    which is told that the queue is empty, because the new node has the address of the old front. *)
Theorem cdxqueue_empty_wrong awp_debug :
  fst <$> run awp_debug ([Call 0 (CPush 7)] ++ replicate 4 (Step 0 20) ++ [Call 1 CPop] ++
      replicate 11 (Step 1 1) ++ [Call 1 CEmpty; Step 1 1; Step 1 1]) (CdxQueueCreate 10 2)
    = Some [ECall 0 (CPush 7); ECall 1 CPop; ERet 1 (RPop 7); ECall 1 CEmpty; ERet 1 (REmpty false)] /\
  fst <$> run awp_debug ([Call 0 (CPush 1)] ++ replicate 5 (Step 0 20) ++ [Call 0 (CPush 2)] ++
      replicate 5 (Step 0 30) ++ [Call 2 CEmpty; Step 2 1; Call 1 CPop] ++ replicate 11 (Step 1 1) ++
      [Call 0 (CPush 3)] ++ replicate 5 (Step 0 10) ++ [Step 2 1]) (CdxQueueCreate 10 3)
    = Some [ECall 0 (CPush 1); ERet 0 (RPush 0); ECall 0 (CPush 2); ERet 0 (RPush 0); ECall 2 CEmpty;
            ECall 1 CPop; ERet 1 (RPop 1); ECall 0 (CPush 3); ERet 0 (RPush 0); ERet 2 (REmpty true)].
Proof. destruct awp_debug; vm_compute; split; reflexivity. Qed.

(** C38: With one thread that pushes and one that pops, and allocations that succeed, no call
    on the queue can be held up by the other threads: a call makes at most 11 accesses of its own
    to shared memory before it returns, whatever the others do in between, and
    each of them can be made as soon as the scheduler picks the thread. *)
Theorem cdxqueue_wait_free awp_debug dummy n l1 l2 i :
  (2 <= n)%nat -> Forall (legal awp_debug) l1 -> Forall (legal awp_debug) l2 ->
  Forall (fun x => match x with Call j _ => j <> i | _ => True end) l2 ->
  exists es1 w1 es2 w2,
    run awp_debug l1 (CdxQueueCreate dummy n) = Some (es1, w1) /\
    run awp_debug l2 w1 = Some (es2, w2) /\
    (accesses awp_debug i l2 w1 <= 11)%nat /\
    (thread_of i w1 <> Idle -> accesses awp_debug i l2 w1 = 11%nat -> thread_of i w2 = Idle) /\
    (thread_of i w2 <> Idle -> forall x, x <> 0 -> heap w2 !! x = None ->
      exists r w3, step awp_debug i x w2 = Next r w3).
Proof.
  intros Hn L1 L2 C.
  destruct (sim_run awp_debug l1 (CdxQueueCreate dummy n) (mkA [] (replicate n AIdle)))
    as (es1 & w1 & a1 & E1 & R1 & G1 & P1); [by apply good_create| |done|].
  { intros j d H%lookup_replicate. by destruct H. }
  destruct (sim_run awp_debug l2 w1 a1 G1 P1 L2) as (es2 & w2 & a2 & E2 & R2 & G2 & P2).
  destruct (run_accesses awp_debug i l2 w1 a1 G1 P1 L2 C) as (es2' & w2' & E2' & Hb).
  rewrite E2 in E2'. injection E2' as <- <-.
  assert (forall t, (budget t <= 11)%nat) as B by (intros t; destruct t; simpl; try lia; destruct k; lia).
  pose proof (B (thread_of i w1)).
  exists es1, w1, es2, w2. split_and!; [done|done|lia| |].
  - intros _ H11. assert (budget (thread_of i w2) = 0%nat) as B0 by lia.
    destruct (thread_of i w2); try done. by destruct k.
  - intros Ht x Hx Hh. by eapply step_moves.
Qed.

Lemma cdxqueue_wait_free_witness :
  exists es1 w1 es2 w2,
    run false [Call 1 CPop] (CdxQueueCreate 10 2) = Some (es1, w1) /\
    run false (replicate 11 (Step 1 1)) w1 = Some (es2, w2) /\
    (accesses false 1 (replicate 11 (Step 1 1)) w1 <= 11)%nat /\
    (thread_of 1 w1 <> Idle -> accesses false 1 (replicate 11 (Step 1 1)) w1 = 11%nat -> thread_of 1 w2 = Idle) /\
    (thread_of 1 w2 <> Idle -> forall x, x <> 0 -> heap w2 !! x = None ->
      exists r w3, step false 1 x w2 = Next r w3).
Proof.
  apply (cdxqueue_wait_free false 10 2); [lia|by repeat constructor|by repeat constructor|by repeat constructor].
Defined.

(** The queue, which its header calls lock-free without a limit on the
    callers, is not safe with a second thread on either side.  Two threads that
    pop: one has read the front and not yet counted its reference when the other
    frees the node.  Two threads that push: one has read the rear and not yet
    linked its node when the other has linked its own, and a thread that pops
    frees the old rear.  Both runs access freed memory. *)
Theorem cdxqueue_races awp_debug :
  (exists es w, run awp_debug ([Call 0 (CPush 7)] ++ replicate 5 (Step 0 20) ++
      [Call 1 CPop; Step 1 1; Step 1 1; Call 2 CPop] ++ replicate 11 (Step 2 1))
      (CdxQueueCreate 10 3) = Some (es, w) /\
    thread_of 1 w = PopRef 10 /\ heap w !! 10 = None /\ step awp_debug 1 1 w = Fault) /\
  (exists es w, run awp_debug ([Call 0 (CPush 7)] ++ replicate 4 (Step 0 20) ++
      [Call 1 (CPush 8)] ++ replicate 3 (Step 1 30) ++ [Call 2 CPop] ++ replicate 11 (Step 2 1))
      (CdxQueueCreate 10 3) = Some (es, w) /\
    thread_of 1 w = PushLink 30 10 /\ heap w !! 10 = None /\ step awp_debug 1 30 w = Fault).
Proof.
  split; destruct awp_debug; do 2 eexists; (split; [vm_compute; reflexivity|by vm_compute]).
Qed.

End CdxQueueSpec.
