(* ===== verification/StreamManager.v ===== *)
(** The stream manager of the player,
    [allwinner/libcedarx/libcore/playback/streamManager.c]: a ring of compressed
    frames, each in a block of its own, between the demultiplexer and the
    decoder.  Frames stay in the ring after they were read, so that the player
    can rewind when the user switches tracks.

    The state is the manager with the blocks [malloc] has handed out; freeing a
    block twice is undefined.  What [malloc] returns is an argument. *)

From Stdlib Require Import ZArith Lia.
From stdpp Require Import base list list_numbers numbers gmap fin_sets.
From S2P Require Import Prelude.

Module StreamManager.

(** * Data *)

(** [StreamFrame] of streamManager.h; a pointer is its address, 0 for [NULL]. *)
Record StreamFrame := mkFrame {
  pData : Z; nLength : Z; nPts : Z; nPcr : Z; nDuration : Z
}.
#[export] Instance eta_frame : Eta StreamFrame := fun f =>
  mkFrame (pData f) (nLength f) (nPts f) (nPcr f) (nDuration f).

Record StreamFifo := mkFifo {
  pFrames : list StreamFrame;
  nMaxFrameNum : Z;
  nReadPos : Z;
  nWritePos : Z
}.
#[export] Instance eta_fifo : Eta StreamFifo := fun f =>
  mkFifo (pFrames f) (nMaxFrameNum f) (nReadPos f) (nWritePos f).

(** [struct StreamManager]; [mutex] tells whether the mutex is held. *)
Record manager := mkManager {
  mutex : bool;
  nMaxBufferSize : Z;
  nValidDataSize : Z;
  nStreamID : Z;
  streamFifo : StreamFifo;
  pMem : Z;
  nMemSize : Z;
  lostBaby : Z
}.
#[export] Instance eta_manager : Eta manager := fun m =>
  mkManager (mutex m) (nMaxBufferSize m) (nValidDataSize m) (nStreamID m) (streamFifo m)
    (pMem m) (nMemSize m) (lostBaby m).

(** The manager and the blocks that are allocated. *)
Record world := mkWorld { sm : manager; blocks : gset Z }.
#[export] Instance eta_world : Eta world := fun w => mkWorld (sm w) (blocks w).

Definition zero_frame : StreamFrame := mkFrame 0 0 0 0 0.

(** * Machine arithmetic *)

(** [(int)(n * 0.1)] for an [int] that is not negative: the constant is
    3602879701896397 / 2^55, the product is rounded to 53 bits, half to even, and
    then truncated. *)
Definition round_half_even (p k : Z) : Z :=
  let q := p / 2 ^ k in
  let r := p mod 2 ^ k in
  if (2 * r <? 2 ^ k) || ((2 * r =? 2 ^ k) && Z.even q) then q else q + 1.
Definition preserveFrameNum (n : Z) : Z :=
  let p := n * 3602879701896397 in
  let k := Z.max 0 (Z.log2 p - 52) in
  round_half_even p k * 2 ^ k / 2 ^ 55.

(** [x - y] on [int64_t]. *)
Definition sub64 {S} (x y : Z) : M S Z :=
  if (- 2 ^ 63 <=? x - y) && (x - y <? 2 ^ 63) then mret (x - y) else undef.
(** [abs(x)] for an [int64_t] argument: converted to [int] first. *)
Definition c_abs {S} (x : Z) : M S Z :=
  let y := s32 x in
  if y =? - 2 ^ 31 then undef else mret (Z.abs y).
#[global] Arguments sub64 : simpl never.
#[global] Arguments c_abs : simpl never.

(** * Helpers *)

(** [(w - r + n) % n]; positions are below [n], and with fewer than 2^30 frames
    nothing overflows. *)
Definition validFrameNum (f : StreamFifo) : Z :=
  Z.rem (nWritePos f - nReadPos f + nMaxFrameNum f) (nMaxFrameNum f).

Definition invalidFrameNumTooSmall (f : StreamFifo) : bool :=
  nMaxFrameNum f - validFrameNum f <=? preserveFrameNum (nMaxFrameNum f).

Definition lock : M world unit :=
  w ← get;
  if mutex (sm w) then undef else modify (fun w => w <| sm ::= fun m => m <| mutex := true |> |>).
Definition unlock : M world unit :=
  modify (fun w => w <| sm ::= fun m => m <| mutex := false |> |>).
Definition mod_sm (f : manager -> manager) : M world unit := modify (fun w => w <| sm ::= f |>).

(** [free(p)]: nothing for [NULL], undefined for a block that is not allocated. *)
Definition free (p : Z) : M world unit :=
  if p =? 0 then mret tt
  else
    w ← get;
    if bool_decide (p ∈ blocks w) then modify (fun w => w <| blocks ::= fun b => b ∖ {[p]} |>)
    else undef.

Fixpoint free_all (l : list StreamFrame) : M world unit :=
  match l with [] => mret tt | f :: l => free (pData f);; free_all l end.

(** * Operations *)

(** [StreamManagerCreate]: the outcome of the two [calloc]s; the frame array and
    the manager itself are not among [blocks]. *)
Definition StreamManagerCreate (ok_struct ok_frames : bool) (nMaxBufferSize nMaxFrameNum nStreamID : Z)
    : option manager :=
  if nMaxFrameNum <=? 0 then None
  else if negb ok_struct then None
  else if negb ok_frames then None
  else Some (mkManager false nMaxBufferSize 0 nStreamID
    (mkFifo (repeat zero_frame (Z.to_nat nMaxFrameNum)) nMaxFrameNum 0 0) 0 0 0).

Definition StreamManagerDestroy : M (option world) unit := deref tt (
  w ← get;
  let f := streamFifo (sm w) in
  free_all (take (Z.to_nat (nMaxFrameNum f)) (pFrames f));;
  free (pMem (sm w))).

Definition StreamManagerReset : M (option world) unit := deref tt (
  lock;;
  w ← get;
  let f := streamFifo (sm w) in
  free_all (take (Z.to_nat (nMaxFrameNum f)) (pFrames f));;
  mod_sm (fun m => m <| streamFifo := f <| pFrames := repeat zero_frame (length (pFrames f)) |> |>);;
  (if pMem (sm w) =? 0 then mret tt
   else mod_sm (fun m => m <| lostBaby := pMem m |> <| pMem := 0 |> <| nMemSize := 0 |>));;
  mod_sm (fun m => m <| nValidDataSize := 0 |>
    <| streamFifo ::= fun f => f <| nReadPos := 0 |> <| nWritePos := 0 |> |>);;
  unlock).

Definition StreamManagerBufferSize : M (option world) Z :=
  deref 0 (gets (fun w => nMaxBufferSize (sm w))).
Definition StreamManagerStreamFrameNum : M (option world) Z :=
  deref 0 (gets (fun w => validFrameNum (streamFifo (sm w)))).
Definition StreamManagerStreamDataSize : M (option world) Z :=
  deref 0 (gets (fun w => nValidDataSize (sm w))).

(** What [StreamManagerRequestBuffer] returns and stores in [*ppBuf], [*pBufSize];
    [outs] tells whether both pointers are not null, [addr] is what [malloc] returns. *)
Definition StreamManagerRequestBuffer (outs : bool) (nRequireSize addr : Z)
    : M (option world) (Z * (Z * Z)) :=
  if negb outs then mret (-1, (0, 0)) else deref (-1, (0, 0)) (
    lock;;
    w ← get;
    let m := sm w in
    if invalidFrameNumTooSmall (streamFifo m) then unlock;; mret (-1, (0, 0))
    else if nValidDataSize m >=? nMaxBufferSize m then unlock;; mret (-1, (0, 0))
    else if negb (pMem m =? 0) then unlock;; mret (-1, (0, 0))
    else
      mod_sm (fun m => m <| pMem := addr |>);;
      if negb (addr =? 0) then
        modify (fun w => w <| blocks ::= fun b => {[addr]} ∪ b |>);;
        mod_sm (fun m => m <| nMemSize := nRequireSize |>);;
        unlock;; mret (0, (addr, nRequireSize))
      else unlock;; mret (-1, (0, 0))).

Definition StreamManagerAddStream (pStreamFrame : option StreamFrame) : M (option world) Z :=
  match pStreamFrame with
  | None => mret (-1)
  | Some fr => deref (-1) (
      lock;;
      w ← get;
      let m := sm w in
      let f := streamFifo m in
      if invalidFrameNumTooSmall f then unlock;; mret (-1)
      else if negb (pMem m =? pData fr) || (nMemSize m <? nLength fr) then
        (if lostBaby m =? pData fr then free (pData fr) else mret tt);;
        unlock;; mret (-1)
      else
        old ← lift (zlookup (pFrames f) (nWritePos f));
        free (pData old);;
        let wp := Z.rem (nWritePos f + 1) (nMaxFrameNum f) in
        n ← iadd (nValidDataSize m) (nLength fr);
        mod_sm (fun m => m <| streamFifo := f <| pFrames ::= <[Z.to_nat (nWritePos f) := fr]> |>
            <| nWritePos := wp |> |>
          <| nValidDataSize := n |> <| pMem := 0 |> <| nMemSize := 0 |>);;
        unlock;; mret 0)
  end.

(** The address of a slot of the ring, as its index. *)
Definition StreamManagerRequestStream : M (option world) (option Z) := deref None (
  lock;;
  w ← get;
  let m := sm w in
  let f := streamFifo m in
  if validFrameNum f =? 0 then unlock;; mret None
  else
    fr ← lift (zlookup (pFrames f) (nReadPos f));
    n ← isub (nValidDataSize m) (nLength fr);
    mod_sm (fun m => m <| streamFifo := f <| nReadPos := Z.rem (nReadPos f + 1) (nMaxFrameNum f) |> |>
      <| nValidDataSize := n |>);;
    unlock;; mret (Some (nReadPos f))).

Definition StreamManagerGetFrameInfo (nFrameIndex : Z) : M (option world) (option Z) := deref None (
  lock;;
  w ← get;
  let f := streamFifo (sm w) in
  if (nFrameIndex <? 0) || (nFrameIndex >=? validFrameNum f) then unlock;; mret None
  else
    p ← iadd (nReadPos f) nFrameIndex;
    let nPos := if p >=? nMaxFrameNum f then p - nMaxFrameNum f else p in
    unlock;; mret (Some nPos)).

(** The argument is null, the address of a slot, or another address. *)
Inductive frameptr := FNull | FSlot (i : Z) | FOther.

Definition StreamManagerReturnStream (p : frameptr) : M (option world) Z :=
  match p with
  | FNull => mret (-1)
  | _ => deref (-1) (
      lock;;
      w ← get;
      let m := sm w in
      let f := streamFifo m in
      if validFrameNum f =? 0 then unlock;; mret (-1)
      else
        let rp := if nReadPos f - 1 <? 0 then nMaxFrameNum f - 1 else nReadPos f - 1 in
        match p with
        | FSlot i =>
            if negb (i =? rp) then abort
            else
              fr ← lift (zlookup (pFrames f) rp);
              n ← iadd (nValidDataSize m) (nLength fr);
              mod_sm (fun m => m <| streamFifo := f <| nReadPos := rp |> |> <| nValidDataSize := n |>);;
              unlock;; mret 0
        | _ => abort
        end)
  end.

(** [StreamManagerFlushStream] is empty. *)
Definition StreamManagerFlushStream : M (option world) Z := mret 0.

(** The search of [StreamManagerRewind] over the frames from index [n] on. *)
Fixpoint closest (curTime : Z) (l : list StreamFrame) (n find minDiff : Z) : M world Z :=
  match l with
  | [] => mret find
  | fr :: l =>
      d ← sub64 curTime (nPts fr);
      a ← c_abs d;
      if a <? minDiff then closest curTime l (n + 1) n a else closest curTime l (n + 1) find minDiff
  end.

(** The sum of the lengths from index [i] to the write position. *)
Fixpoint sum_lengths (fuel : nat) (f : StreamFifo) (i acc : Z) : M world Z :=
  if i =? nWritePos f then mret acc
  else
    match fuel with
    | O => undef
    | S fuel =>
        fr ← lift (zlookup (pFrames f) i);
        n ← iadd acc (nLength fr);
        sum_lengths fuel f (Z.rem (i + 1) (nMaxFrameNum f)) n
    end.

Definition UINT64_MAX : Z := 2 ^ 64 - 1.

(** The handle is not tested; every slot is visited at most once. *)
Definition StreamManagerRewind (curTime : Z) : M world Z :=
  lock;;
  w ← get;
  let f := streamFifo (sm w) in
  find ← closest curTime (take (Z.to_nat (nMaxFrameNum f)) (pFrames f)) 0 0 UINT64_MAX;
  fr ← lift (zlookup (pFrames f) find);
  if (find =? nReadPos f) || (pData fr =? 0) then unlock;; mret 0
  else
    n ← sum_lengths (length (pFrames f)) f find 0;
    mod_sm (fun m => m <| nValidDataSize := n |> <| streamFifo := f <| nReadPos := find |> |>);;
    unlock;; mret 0.

End StreamManager.
