(* ===== verification/StreamManagerSpec.v ===== *)
(** The stream manager against a queue with a memory of the frames already
    read: every sequence of legal calls of demultiplexer and decoder, the blocks
    it owns, rewinding, and where the code goes wrong. *)

From Stdlib Require Import ZArith Lia.
From stdpp Require Import base list list_numbers numbers gmap fin_sets.
From S2P Require Import Prelude StreamManager.

Module StreamManagerSpec.
Import StreamManager.

(** * The tenth of an integer in floating point *)

Lemma round_half_even_near p k :
  0 <= p -> 0 <= k -> p / 2 ^ k <= round_half_even p k <= p / 2 ^ k + 1 /\
  2 * (round_half_even p k * 2 ^ k) <= 2 * p + 2 ^ k.
Proof.
  intros Hp Hk. unfold round_half_even. pose proof (Z.div_mod p (2 ^ k) ltac:(lia)) as D.
  pose proof (Z.mod_pos_bound p (2 ^ k) ltac:(lia)) as B.
  destruct (_ || _) eqn:E.
  - split; [lia|]. apply orb_true_iff in E as [E|E]; [lia|].
    apply andb_true_iff in E as [E _]. nia.
  - split; [lia|]. apply orb_false_iff in E as [E _]. nia.
Qed.

(** The constant is a little more than a tenth, and integers of 31 bits leave
    enough of the 53 bits for the rounding not to matter. *)
Lemma preserve_tenth n : 0 <= n < 2 ^ 31 -> preserveFrameNum n = n / 10.
Proof.
  intros Hn. unfold preserveFrameNum. set (p := n * 3602879701896397).
  set (k := Z.max 0 (Z.log2 p - 52)).
  assert (0 <= k <= 31) as Hk.
  { unfold k. assert (Z.log2 p < 84); [|lia]. destruct (decide (p = 0)) as [->|]; [simpl; lia|].
    apply Z.log2_lt_pow2; unfold p in *; lia. }
  pose proof (round_half_even_near p k ltac:(unfold p; lia) ltac:(lia)) as [[R1 R2] R3].
  set (q := round_half_even p k) in *. clearbody q.
  assert (2 ^ k <= 2 ^ 31) as H31 by (apply Z.pow_le_mono_r; lia).
  assert (n = 10 * (n / 10) + n mod 10) as D by (apply Z.div_mod; lia).
  pose proof (Z.mod_pos_bound n 10 ltac:(lia)) as B.
  set (m := n / 10) in *. set (r := n mod 10) in *. clearbody m r.
  symmetry. apply (Z.div_unique _ _ _ (q * 2 ^ k - 2 ^ 55 * m)); [|lia]. left.
  assert (p = 2 ^ 55 * m + 2 * m + r * 3602879701896397) as Ep by (unfold p; lia).
  split; [|lia].
  assert (2 ^ 55 * m = 2 ^ (55 - k) * m * 2 ^ k) as Em
    by (replace 55 with (55 - k + k) at 1 by lia; rewrite Z.pow_add_r by lia; ring).
  assert (2 ^ (55 - k) * m <= p / 2 ^ k); [|nia].
  apply Z.div_le_lower_bound; [lia|]. rewrite Z.mul_comm, <- Em. lia.
Qed.

(** * Full rings *)

Lemma ring_insert {A} (arr : list A) st l k x :
  ring_rep arr st l -> (k < length l)%nat -> (length l <= length arr)%nat ->
  ring_rep (<[Z.to_nat ((st + Z.of_nat k) mod Z.of_nat (length arr)) := x]> arr) st (<[k := x]> l).
Proof.
  intros R Hk Hl j Hj. rewrite length_insert in *.
  pose proof (Z.mod_pos_bound (st + Z.of_nat k) (Z.of_nat (length arr)) ltac:(lia)).
  pose proof (Z.mod_pos_bound (st + Z.of_nat j) (Z.of_nat (length arr)) ltac:(lia)).
  destruct (decide (j = k)) as [->|Hne].
  - rewrite !list_lookup_insert_eq by lia. done.
  - rewrite (list_lookup_insert_ne l) by done. rewrite list_lookup_insert_ne; [by apply R|].
    intros E. apply Z2Nat.inj in E; [|lia..].
    apply (ring_index_inj (Z.of_nat (length arr))) in E; lia.
Qed.

Lemma ring_rotate {A} (arr : list A) st x l :
  ring_rep arr st (x :: l) -> length arr = S (length l) ->
  ring_rep arr ((st + 1) mod Z.of_nat (length arr)) (l ++ [x]).
Proof.
  intros R Hl k Hk. rewrite length_app in Hk. simpl in Hk. rewrite Zplus_mod_idemp_l.
  destruct (decide (k = length l)) as [->|Hne].
  - rewrite list_lookup_middle by done. specialize (R 0%nat ltac:(simpl; lia)).
    change (Some x) with ((x :: l) !! 0%nat). rewrite <- R. do 2 f_equal.
    replace (st + 1 + Z.of_nat (length l)) with (st + Z.of_nat 0 + 1 * Z.of_nat (length arr)) by lia.
    apply Z_mod_plus_full.
  - rewrite lookup_app_l by lia. specialize (R (S k) ltac:(simpl; lia)).
    change (l !! k) with ((x :: l) !! S k). rewrite <- R. do 3 f_equal. lia.
Qed.

Lemma ring_shift {A} (arr : list A) st l1 l2 :
  ring_rep arr st (l1 ++ l2) -> (0 < length arr)%nat ->
  ring_rep arr ((st + Z.of_nat (length l1)) mod Z.of_nat (length arr)) l2.
Proof.
  intros R H0 k Hk. rewrite Zplus_mod_idemp_l.
  specialize (R (length l1 + k)%nat ltac:(rewrite length_app; lia)).
  rewrite lookup_app_r in R by lia. replace (length l1 + k - length l1)%nat with k in R by lia.
  rewrite <- R. do 3 f_equal. lia.
Qed.

(** A list that fills the ring is a rotation of it. *)
Lemma ring_full_perm {A} (arr : list A) st l :
  ring_rep arr st l -> length l = length arr -> 0 <= st < Z.of_nat (length arr) -> arr ≡ₚ l.
Proof.
  intros R Hl Hst. assert (l = drop (Z.to_nat st) arr ++ take (Z.to_nat st) arr) as ->.
  - apply list_eq_same_length with (length l); [rewrite length_app, length_drop, length_take; lia| |].
    + done.
    + intros k x y Hk E1 E2. specialize (R k Hk). rewrite E1 in R.
      destruct (decide (Z.to_nat st + k < length arr)%nat).
      * rewrite lookup_app_l, lookup_drop in E2 by (rewrite length_drop; lia).
        rewrite Z.mod_small in R by lia. replace (Z.to_nat (st + Z.of_nat k)) with (Z.to_nat st + k)%nat in R by lia.
        congruence.
      * rewrite lookup_app_r, length_drop in E2 by (rewrite length_drop; lia).
        rewrite lookup_take_lt in E2 by lia.
        rewrite <- (Z_mod_plus_full _ (-1)), Z.mod_small in R by lia.
        replace (Z.to_nat (st + Z.of_nat k + -1 * Z.of_nat (length arr)))
          with (k - (length arr - Z.to_nat st))%nat in R by lia. congruence.
  - rewrite (Permutation_app_comm (drop _ _)). by rewrite take_drop.
Qed.

(** * The ring as two lists *)

(** The frames read, the last first, then the frames to read, then empty slots. *)
Definition slots (N : Z) (d q : list StreamFrame) : list StreamFrame :=
  reverse d ++ q ++ repeat zero_frame (Z.to_nat N - length d - length q).

Record at_ring (f : StreamFifo) (d q : list StreamFrame) : Prop := {
  g_max : 10 <= nMaxFrameNum f < 2 ^ 30;
  g_len : length (pFrames f) = Z.to_nat (nMaxFrameNum f);
  g_read : 0 <= nReadPos f < nMaxFrameNum f;
  g_write : nWritePos f = (nReadPos f + Z.of_nat (length q)) mod nMaxFrameNum f;
  g_fit : Z.of_nat (length d + length q) <= nMaxFrameNum f;
  g_room : Z.of_nat (length q) < nMaxFrameNum f;
  g_slots : ring_rep (pFrames f) ((nReadPos f - Z.of_nat (length d)) mod nMaxFrameNum f)
    (slots (nMaxFrameNum f) d q)
}.

Lemma slots_length N d q : Z.of_nat (length d + length q) <= N -> length (slots N d q) = Z.to_nat N.
Proof. intros H. unfold slots. rewrite !length_app, length_reverse, repeat_length. lia. Qed.

Section at_ring.
Context (f : StreamFifo) (d q : list StreamFrame).
Hypothesis G : at_ring f d q.

Lemma valid_frames : validFrameNum f = Z.of_nat (length q).
Proof.
  destruct G. unfold validFrameNum. rewrite g_write0. set (N := nMaxFrameNum f) in *.
  set (r := nReadPos _) in *. set (k := Z.of_nat _) in *.
  pose proof (Z.mod_pos_bound (r + k) N ltac:(lia)).
  rewrite Z.rem_mod_nonneg by lia.
  replace ((r + k) mod N - r + N) with ((r + k) mod N + (N - r)) by lia.
  rewrite Zplus_mod_idemp_l. replace (r + k + (N - r)) with (k + 1 * N) by lia.
  rewrite Z_mod_plus_full. apply Z.mod_small. lia.
Qed.

Lemma too_small :
  invalidFrameNumTooSmall f = (nMaxFrameNum f - Z.of_nat (length q) <=? nMaxFrameNum f / 10).
Proof.
  unfold invalidFrameNumTooSmall. rewrite valid_frames, preserve_tenth; [done|]. destruct G. lia.
Qed.

Lemma slots_perm : pFrames f ≡ₚ slots (nMaxFrameNum f) d q.
Proof.
  destruct G. eapply ring_full_perm; [done| |].
  - by rewrite slots_length.
  - rewrite g_len0, Z2Nat.id by lia. apply Z.mod_pos_bound. lia.
Qed.

Lemma queue_ring : ring_rep (pFrames f) (nReadPos f) q.
Proof.
  destruct G as [H1 L H2 _ H3 H4 S]. unfold slots in S. apply ring_shift in S; [|lia].
  rewrite length_reverse, L, Z2Nat.id, Zplus_mod_idemp_l in S by lia.
  replace (_ - _ + _) with (nReadPos f) in S by lia. rewrite Z.mod_small in S by lia.
  intros k Hk. rewrite (S k) by (rewrite length_app; lia). by apply lookup_app_l.
Qed.

(** The [k]-th frame to read is where the reading position says. *)
Lemma queue_slot k x :
  q !! k = Some x -> zlookup (pFrames f) ((nReadPos f + Z.of_nat k) mod nMaxFrameNum f) = Some x.
Proof.
  intros E. pose proof (queue_ring k (lookup_lt_Some _ _ _ E)) as S. rewrite E in S.
  pose proof (g_max _ _ _ G). rewrite (g_len _ _ _ G), Z2Nat.id in S by lia.
  pose proof (Z.mod_pos_bound (nReadPos f + Z.of_nat k) (nMaxFrameNum f) ltac:(lia)).
  by rewrite zlookup_some by (rewrite (g_len _ _ _ G); lia).
Qed.
End at_ring.

(** ** The ring operations *)

Lemma ring_read f d q x :
  at_ring f d (x :: q) ->
  at_ring (f <| nReadPos := (nReadPos f + 1) mod nMaxFrameNum f |>) (x :: d) q.
Proof.
  intros []. simpl in *. split; simpl; try done; try lia.
  - apply Z.mod_pos_bound. lia.
  - rewrite g_write0, Zplus_mod_idemp_l. f_equal. lia.
  - unfold slots in *. simpl in *. rewrite reverse_cons, <- app_assoc. simpl.
    rewrite Zminus_mod_idemp_l.
    replace (nReadPos f + 1 - Z.of_nat (S _)) with (nReadPos f - Z.of_nat (length d)) by lia.
    by replace (Z.to_nat _ - S (length d) - length q)%nat
      with (Z.to_nat (nMaxFrameNum f) - length d - S (length q))%nat by lia.
Qed.

Lemma ring_unread f d q x :
  at_ring f (x :: d) q -> Z.of_nat (length q) + 1 < nMaxFrameNum f ->
  at_ring (f <| nReadPos := (nReadPos f - 1) mod nMaxFrameNum f |>) d (x :: q).
Proof.
  intros [] Hq. simpl in *. split; simpl; try done; try lia.
  - apply Z.mod_pos_bound. lia.
  - rewrite g_write0, Zplus_mod_idemp_l. f_equal. lia.
  - unfold slots in *. simpl in *. rewrite reverse_cons, <- app_assoc in g_slots0. simpl in *.
    rewrite Zminus_mod_idemp_l.
    replace (nReadPos f - 1 - Z.of_nat _) with (nReadPos f - Z.of_nat (S (length d))) by lia.
    by replace (Z.to_nat _ - length d - S (length q))%nat
      with (Z.to_nat (nMaxFrameNum f) - S (length d) - length q)%nat by lia.
Qed.

(** The frames kept when one is added: the oldest goes if the ring is full. *)
Definition keep (N : Z) (d q : list StreamFrame) : list StreamFrame :=
  take (Z.to_nat N - 1 - length q) d.

Lemma ring_add f d q x :
  at_ring f d q -> Z.of_nat (length q) + 1 < nMaxFrameNum f ->
  exists old, zlookup (pFrames f) (nWritePos f) = Some old /\
    (old = zero_frame /\ keep (nMaxFrameNum f) d q = d \/ d = keep (nMaxFrameNum f) d q ++ [old]) /\
    at_ring (f <| pFrames ::= <[Z.to_nat (nWritePos f) := x]> |>
      <| nWritePos := (nWritePos f + 1) mod nMaxFrameNum f |>) (keep (nMaxFrameNum f) d q) (q ++ [x]).
Proof.
  intros [] Hq. set (N := nMaxFrameNum f) in *.
  assert (0 <= nWritePos f < N) as Hw by (rewrite g_write0; apply Z.mod_pos_bound; lia).
  assert (Z.of_nat (length (pFrames f)) = N) as LN by lia.
  assert ((nWritePos f + 1) mod N = (nReadPos f + Z.of_nat (length (q ++ [x]))) mod N) as Hw'.
  { rewrite g_write0, Zplus_mod_idemp_l, length_app. f_equal. simpl. lia. }
  assert (forall k, (k < Z.to_nat N)%nat -> Z.of_nat k = Z.of_nat (length d + length q) mod N ->
    zlookup (pFrames f) (nWritePos f) = slots N d q !! k /\
    ring_rep (<[Z.to_nat (nWritePos f) := x]> (pFrames f))
      ((nReadPos f - Z.of_nat (length d)) mod N) (<[k := x]> (slots N d q))) as Hk.
  { intros k Hk Ek. pose proof (slots_length N d q g_fit0) as Ls.
    assert (((nReadPos f - Z.of_nat (length d)) mod N + Z.of_nat k) mod N = nWritePos f) as E.
    { rewrite Ek, <- Zplus_mod, g_write0. f_equal. lia. }
    split.
    - specialize (g_slots0 k ltac:(lia)). rewrite LN, E in g_slots0. rewrite zlookup_some by lia. done.
    - pose proof (ring_insert _ _ _ k x g_slots0) as Hi. rewrite LN, E in Hi. apply Hi; lia. }
  destruct (decide (Z.of_nat (length d + length q) = N)) as [Efull|Hnf].
  - destruct (Hk 0%nat ltac:(lia)) as [H1 H2]; [by rewrite Efull, Z_mod_same_full|].
    destruct d as [|old d' _] using rev_ind; [simpl in *; lia|].
    assert (keep N (d' ++ [old]) q = d') as Ekeep.
    { unfold keep. rewrite length_app in Efull. simpl in Efull. rewrite take_app_le by lia.
      apply take_ge. lia. }
    rewrite Ekeep. rewrite length_app in *. simpl length in *.
    assert (slots N (d' ++ [old]) q = old :: reverse d' ++ q) as Es.
    { unfold slots. rewrite length_app. simpl. replace (_ - _ - _)%nat with 0%nat by lia.
      rewrite reverse_app, app_nil_r. done. }
    rewrite Es in *. exists old. split; [done|]. split; [by right|].
    apply ring_rotate in H2; [|rewrite length_insert, length_app, length_reverse; lia].
    rewrite length_insert, LN, Zplus_mod_idemp_l in H2.
    split; simpl; rewrite ?length_insert, ?length_app; simpl; try done; try lia.
    replace (nReadPos f - Z.of_nat (length d'))
      with (nReadPos f - Z.of_nat (length d' + 1) + 1) by lia.
    unfold slots. rewrite length_app. simpl.
    fold N. replace (_ - _ - _)%nat with 0%nat by lia. simpl. by rewrite app_nil_r, app_assoc.
  - destruct (Hk (length d + length q)%nat ltac:(lia)) as [H1 H2]; [by rewrite Z.mod_small by lia|].
    assert (keep N d q = d) as Ekeep by (apply take_ge; lia). rewrite Ekeep.
    assert (slots N d q = reverse d ++ q ++ zero_frame ::
      repeat zero_frame (Z.to_nat N - length d - S (length q))) as Es.
    { unfold slots. by replace (Z.to_nat N - length d - length q)%nat
        with (S (Z.to_nat N - length d - S (length q))) by lia. }
    rewrite Es in *. exists zero_frame. split; [|split; [by left|]].
    { rewrite H1, app_assoc. apply list_lookup_middle. rewrite length_app, length_reverse. lia. }
    split; simpl; rewrite ?length_insert, ?length_app; simpl; try done; try lia.
    + by rewrite Hw', length_app.
    + unfold slots. rewrite length_app, <- app_assoc. simpl.
      rewrite app_assoc, insert_app_r_alt in H2 by (rewrite length_app, length_reverse; lia).
      rewrite length_app, length_reverse in H2.
      replace (length d + length q - (length d + length q))%nat with 0%nat in H2 by lia.
      rewrite <- app_assoc in H2. by replace (length q + 1)%nat with (S (length q)) by lia.
Qed.

(** ** Rewinding the ring *)

Definition rewound (k : nat) (N : Z) (l : list StreamFrame) : list StreamFrame * list StreamFrame :=
  if bool_decide (k = 0%nat /\ Z.of_nat (length l) = N) then (reverse l, [])
  else (reverse (take k l), drop k l).

Lemma rewound_frames k N l : reverse (rewound k N l).1 ++ (rewound k N l).2 = l.
Proof.
  unfold rewound. case_bool_decide; simpl; rewrite reverse_involutive; [apply app_nil_r | apply take_drop].
Qed.

Lemma ring_rewind f d q k i :
  at_ring f d q -> (k < length d + length q)%nat ->
  i = ((nReadPos f - Z.of_nat (length d)) mod nMaxFrameNum f + Z.of_nat k) mod nMaxFrameNum f ->
  at_ring (f <| nReadPos := i |>) (rewound k (nMaxFrameNum f) (reverse d ++ q)).1
    (rewound k (nMaxFrameNum f) (reverse d ++ q)).2.
Proof.
  intros [] Hk Hi. set (N := nMaxFrameNum f) in *. set (l := reverse d ++ q).
  assert (length l = length d + length q)%nat as Ll by (unfold l; by rewrite length_app, length_reverse).
  assert (0 <= i < N) by (rewrite Hi; apply Z.mod_pos_bound; lia).
  set (d' := (rewound k N l).1). set (q' := (rewound k N l).2).
  pose proof (rewound_frames k N l) as El. fold d' q' in El.
  assert (length d' + length q' = length l)%nat as Ll'
    by (rewrite <- El, length_app, length_reverse; done).
  assert (slots N d' q' = slots N d q) as Es.
  { unfold slots. rewrite !app_assoc, El. do 2 f_equal. lia. }
  assert (Z.of_nat (length d') mod N = Z.of_nat k mod N /\ Z.of_nat (length q') < N) as [Hd' Hq'].
  { unfold d', q', rewound. case_bool_decide as E; simpl; rewrite length_reverse.
    - destruct E as [-> ->]. split; [apply Z_mod_same_full | lia].
    - rewrite length_take, length_drop. split; [|lia]. do 2 f_equal. lia. }
  assert ((i - Z.of_nat (length d')) mod N = (nReadPos f - Z.of_nat (length d)) mod N) as Est.
  { rewrite Zminus_mod, Hd', <- Zminus_mod, Hi, Zminus_mod_idemp_l.
    replace (_ + _ - _) with ((nReadPos f - Z.of_nat (length d)) mod N) by lia. apply Zmod_mod. }
  split; simpl; fold N; try done; try lia.
  - assert (i + Z.of_nat (length q') = i - Z.of_nat (length d') + Z.of_nat (length l)) as -> by lia.
    rewrite <- Zplus_mod_idemp_l, Est, Zplus_mod_idemp_l, g_write0. f_equal. lia.
  - by rewrite Est, Es.
Qed.

Lemma rewound_same f d q k :
  at_ring f d q ->
  at_ring f (rewound k (nMaxFrameNum f) (reverse d ++ q)).1 (rewound k (nMaxFrameNum f) (reverse d ++ q)).2 ->
  (rewound k (nMaxFrameNum f) (reverse d ++ q)).1 = d /\ (rewound k (nMaxFrameNum f) (reverse d ++ q)).2 = q.
Proof.
  intros G G'. set (l := reverse d ++ q) in *. pose proof (rewound_frames k (nMaxFrameNum f) l) as E.
  pose proof (valid_frames _ _ _ G) as V. rewrite (valid_frames _ _ _ G') in V.
  apply Nat2Z.inj in V. apply (app_inj_2 _ (reverse d) _ q) in E as [E1 E2]; [|done].
  split; [|done]. by apply (inj reverse).
Qed.

Lemma ring_locate f d q i :
  at_ring f d q -> 0 <= i < nMaxFrameNum f ->
  exists k, (k < Z.to_nat (nMaxFrameNum f))%nat /\
    i = ((nReadPos f - Z.of_nat (length d)) mod nMaxFrameNum f + Z.of_nat k) mod nMaxFrameNum f /\
    slots (nMaxFrameNum f) d q !! k = zlookup (pFrames f) i.
Proof.
  intros [] Hi. set (N := nMaxFrameNum f) in *. set (st := (nReadPos f - Z.of_nat (length d)) mod N) in *.
  exists (Z.to_nat ((i - st) mod N)). pose proof (Z.mod_pos_bound (i - st) N ltac:(lia)).
  assert (i = (st + Z.of_nat (Z.to_nat ((i - st) mod N))) mod N) as E.
  { rewrite Z2Nat.id, Zplus_mod_idemp_r by lia. replace (st + (i - st)) with i by lia.
    symmetry. apply Z.mod_small. lia. }
  split_and!; [lia|done|]. rewrite <- g_slots0 by (rewrite slots_length; lia).
  replace (Z.of_nat (length (pFrames f))) with N by lia. rewrite <- E, zlookup_some by lia. done.
Qed.

(** * Blocks *)

(** The blocks of a heap are those of [l], each once, and those of others. *)
Record mem_ok (others b : gset Z) (l : list Z) : Prop := {
  m_nodup : NoDup l;
  m_nonnull : Forall (fun p => p <> 0) l;
  m_blocks : b = list_to_set l ∪ others;
  m_apart : forall p, p ∈ l -> (p ∉ others)
}.

Section mem.
Context (others : gset Z).
Abbreviation mem := (mem_ok others).

#[export] Instance mem_perm b : Proper ((≡ₚ) ==> iff) (mem b).
Proof.
  assert (forall l l', l ≡ₚ l' -> mem b l -> mem b l') as H.
  { intros l l' P []. split; try rewrite <- P; try done. intros p. rewrite <- P. apply m_apart0. }
  intros l l' P. split; apply H; [done | by symmetry].
Qed.

Lemma mem_alloc b l p : mem b l -> p <> 0 -> (p ∉ b) -> mem ({[p]} ∪ b) (p :: l).
Proof.
  intros [] H0 Hp. subst b. split; [constructor; set_solver | by constructor | set_solver | set_solver].
Qed.

Lemma mem_free b l p : mem b (p :: l) -> p ∈ b /\ mem (b ∖ {[p]}) l.
Proof.
  intros []. apply NoDup_cons in m_nodup0 as [H1 H2]. apply Forall_cons in m_nonnull0 as [H3 H4].
  split; [set_solver|]. split; [done..| |set_solver].
  subst b. specialize (m_apart0 p ltac:(set_solver)). apply set_eq. intros x. set_solver.
Qed.

Lemma twp_free_block w l p (Q : unit -> world -> Prop) :
  mem (blocks w) (p :: l) ->
  (forall b, mem b l -> Q tt (w <| blocks := b |>)) -> twp (free p) Q w.
Proof.
  intros Hm HQ. pose proof (mem_free _ _ _ Hm) as [Hin Hm'].
  unfold free. pose proof (m_nonnull _ _ _ Hm) as Hn. apply Forall_cons in Hn as [Hn _].
  replace (p =? 0) with false by lia. twp_step. twp_step.
  rewrite bool_decide_true by done. twp_step. by apply (HQ (blocks w ∖ {[p]})).
Qed.

Lemma twp_free_all fs w l (Q : unit -> world -> Prop) :
  mem (blocks w) (filter (fun p => p <> 0) (pData <$> fs) ++ l) ->
  (forall b, mem b l -> Q tt (w <| blocks := b |>)) -> twp (free_all fs) Q w.
Proof.
  revert w. induction fs as [|f fs IH]; intros w Hm HQ; cbn [free_all].
  - apply twp_ret. destruct w as [m b]. by apply (HQ b).
  - apply twp_bind. cbn [fmap list_fmap] in Hm. destruct (decide (pData f = 0)) as [E|E].
    + rewrite filter_cons_False in Hm by tauto. unfold free. rewrite E. simpl. apply twp_ret. by apply IH.
    + rewrite filter_cons_True in Hm by done. simpl in Hm. eapply twp_free_block; [done|].
      intros b Hb. by apply IH.
Qed.
End mem.

(** * Specification *)

(** The block between [StreamManagerRequestBuffer] and [StreamManagerAddStream];
    lost when the manager was reset in between. *)
Inductive loan_t := NoLoan | Lent (p size : Z) | Lost (p : Z).

Record astate := mkA { done : list StreamFrame; queue : list StreamFrame; loan : loan_t }.

Definition frames (a : astate) : list StreamFrame := done a ++ queue a.
Definition loaned (l : loan_t) : list Z :=
  match l with NoLoan => [] | Lent p _ | Lost p => [p] end.
Definition owned (a : astate) : list Z := loaned (loan a) ++ (pData <$> frames a).

Definition loan_rep (m : manager) (l : loan_t) : Prop :=
  match l with
  | NoLoan => pMem m = 0
  | Lent p n => pMem m = p /\ nMemSize m = n
  | Lost p => pMem m = 0 /\ lostBaby m = p
  end.

(** The lengths are sizes, and their sum is an [int]. *)
Definition sizes_ok (l : list StreamFrame) : Prop :=
  Forall (fun f => 0 <= nLength f) l /\ zsum nLength l < 2 ^ 31.

Record rep (N cap : Z) (others : gset Z) (w : world) (a : astate) : Prop := {
  r_mutex : mutex (sm w) = false;
  r_max : nMaxFrameNum (streamFifo (sm w)) = N;
  r_cap : nMaxBufferSize (sm w) = cap;
  r_ring : at_ring (streamFifo (sm w)) (done a) (queue a);
  r_size : nValidDataSize (sm w) = zsum nLength (queue a);
  r_loan : loan_rep (sm w) (loan a);
  r_mem : mem_ok others (blocks w) (owned a);
  r_sizes : sizes_ok (frames a)
}.

#[export] Instance zsum_perm {A} (f : A -> Z) : Proper ((≡ₚ) ==> eq) (zsum f).
Proof. intros l l'. induction 1; simpl in *; lia. Qed.

#[export] Instance sizes_perm : Proper ((≡ₚ) ==> iff) sizes_ok.
Proof. intros l l' P. unfold sizes_ok. by rewrite P. Qed.

Lemma sizes_app l1 l2 : sizes_ok (l1 ++ l2) -> sizes_ok l1 /\ sizes_ok l2.
Proof.
  intros [H1 H2]. apply Forall_app in H1 as [H1 H3]. rewrite zsum_app in H2.
  pose proof (zsum_nonneg nLength _ H1). pose proof (zsum_nonneg nLength _ H3).
  split; split; (done || lia).
Qed.

Lemma sizes_range l : sizes_ok l -> 0 <= zsum nLength l < 2 ^ 31.
Proof. intros [H1 H2]. split; [by apply zsum_nonneg | done]. Qed.

(** ** The abstract operations *)

Section ops.
Context (N cap : Z) (others : gset Z).
Abbreviation rep := (rep N cap others).

(** No more frames are taken while a tenth of the slots or less is free. *)
Definition crowded (a : astate) : bool := N - Z.of_nat (length (queue a)) <=? N / 10.

Definition a_request (size addr : Z) (a : astate) : (Z * (Z * Z)) * astate :=
  match loan a with
  | Lent _ _ => ((-1, (0, 0)), a)
  | _ =>
      if crowded a || (zsum nLength (queue a) >=? cap) || (addr =? 0) then ((-1, (0, 0)), a)
      else ((0, (addr, size)), mkA (done a) (queue a) (Lent addr size))
  end.

Definition a_add (f : StreamFrame) (a : astate) : Z * astate :=
  if crowded a then (-1, a)
  else match loan a with
       | Lost _ => (-1, mkA (done a) (queue a) NoLoan)
       | _ => (0, mkA (keep N (done a) (queue a)) (queue a ++ [f]) NoLoan)
       end.

Definition a_read (a : astate) : option StreamFrame * astate :=
  match queue a with
  | [] => (None, a)
  | f :: q => (Some f, mkA (f :: done a) q (loan a))
  end.

Definition a_return (a : astate) : Z * astate :=
  match queue a, done a with
  | _ :: _, f :: d => (0, mkA d (f :: queue a) (loan a))
  | _, _ => (-1, a)
  end.

Definition a_reset (a : astate) : astate :=
  mkA [] [] (match loan a with Lent p _ => Lost p | l => l end).

(** ** Locks *)

Lemma twp_deref_some {S A} (null : A) (body : M S A) (Q : A -> option S -> Prop) s :
  twp body (fun r s' => Q r (Some s')) s -> twp (deref null body) Q (Some s).
Proof. unfold twp, deref. by destruct (body s). Qed.

Lemma twp_sm_lock w (Q : unit -> world -> Prop) :
  mutex (sm w) = false -> Q tt (w <| sm ::= fun m => m <| mutex := true |> |>) -> twp lock Q w.
Proof. intros E HQ. unfold lock. twp_step. twp_step. by rewrite E. Qed.

(** [w'] is [w] but for the mutex, which is free in both. *)
Lemma rep_same w w' a :
  rep w a -> sm w' = (sm w) <| mutex := false |> -> blocks w' = blocks w -> rep w' a.
Proof.
  destruct w as [m b], w' as [m' b']; simpl. intros R -> ->.
  destruct R; simpl in *. split; simpl; done.
Qed.

Definition replies {R} (r : R) (a' : astate) (r' : R) (p : option world) : Prop :=
  r' = r /\ exists w', p = Some w' /\ rep w' a'.

Lemma replies_same {R} (r : R) w a w' :
  rep w a -> sm w' = (sm w) <| mutex := false |> -> blocks w' = blocks w ->
  replies r a r (Some w').
Proof. intros HR E1 E2. split; [done|]. exists w'. split; [done|]. by eapply rep_same. Qed.

Lemma owned_perm b a a' :
  frames a' ≡ₚ frames a -> loan a' = loan a -> mem_ok others b (owned a) -> mem_ok others b (owned a').
Proof. intros P E H. unfold owned. by rewrite P, E. Qed.

Ltac start R :=
  apply twp_deref_some; apply twp_bind, (twp_sm_lock _ _ (r_mutex _ _ _ _ _ R));
  apply twp_bind, twp_get; cbv beta zeta; simpl sm.
Ltac finish := unfold unlock, mod_sm; repeat twp_step; cbn [fst snd orb].
(** A call that changed nothing. *)
Ltac same R :=
  finish;
  match type of R with StreamManagerSpec.rep _ _ _ ?w _ =>
    apply (replies_same _ w); [exact R | destruct w as [[] ?]; simpl in *; congruence | done]
  end.

Lemma crowded_test w a : rep w a -> invalidFrameNumTooSmall (streamFifo (sm w)) = crowded a.
Proof. intros R. unfold crowded. by rewrite (too_small _ _ _ (r_ring _ _ _ _ _ R)), (r_max _ _ _ _ _ R). Qed.

(** Below the limit there is room for two more. *)
Lemma crowded_room w a : rep w a -> crowded a = false -> Z.of_nat (length (queue a)) + 1 < N.
Proof.
  intros R E. unfold crowded in E. pose proof (g_max _ _ _ (r_ring _ _ _ _ _ R)) as H.
  rewrite (r_max _ _ _ _ _ R) in H. assert (1 <= N / 10) by dlia. lia.
Qed.

Lemma sm_request_ok w a size addr :
  rep w a -> (forall p, loan a <> Lost p) -> (addr ∉ blocks w) ->
  twp (StreamManagerRequestBuffer true size addr)
    (replies (fst (a_request size addr a)) (snd (a_request size addr a))) (Some w).
Proof.
  intros R HL Hf. unfold StreamManagerRequestBuffer, a_request. simpl negb. cbv iota. start R.
  pose proof (r_loan _ _ _ _ _ R) as Hl. pose proof (m_nonnull _ _ _ (r_mem _ _ _ _ _ R)) as Hn.
  unfold owned in Hn. simpl. rewrite (crowded_test _ _ R).
  pose proof (r_size _ _ _ _ _ R) as Es. pose proof (r_cap _ _ _ _ _ R) as Ec.
  rewrite Es, Ec.
  destruct (loan a) as [|p n|p] eqn:El; simpl in *.
  - rewrite Hl. simpl. destruct (crowded a); [same R|].
    simpl. destruct (_ >=? _); [same R|]. simpl.
    destruct (addr =? 0) eqn:E0; simpl.
    + finish. apply Z.eqb_eq in E0 as ->. split; [done|]. eexists. split; [done|].
      destruct R. destruct w as [[] b]. split; simpl in *; try done. by rewrite El.
    + finish. split; [done|]. eexists. split; [done|].
      destruct R. destruct w as [[] b]. split; simpl in *; try done. unfold owned in *. simpl.
      rewrite El in r_mem0. apply mem_alloc; [done|lia|done].
  - destruct Hl as [Hl1 Hl2]. apply Forall_cons in Hn as [Hn _].
    destruct (crowded a); [same R|].
    destruct (_ >=? _); [same R|].
    replace (negb (pMem _ =? 0)) with true by lia. same R.
  - by destruct (HL p).
Qed.

Lemma read_ok w a :
  rep w a ->
  twp StreamManagerRequestStream (fun r p => exists w', p = Some w' /\ rep w' (snd (a_read a)) /\
    r = match queue a with [] => None | _ => Some (nReadPos (streamFifo (sm w))) end /\
    (p ← r; zlookup (pFrames (streamFifo (sm w'))) p) = fst (a_read a) /\
    (is_Some r -> r = Some ((nReadPos (streamFifo (sm w')) - 1) mod N))) (Some w).
Proof.
  intros R. unfold StreamManagerRequestStream, a_read. start R. simpl.
  pose proof (r_ring _ _ _ _ _ R) as G. pose proof (r_max _ _ _ _ _ R) as Hm.
  rewrite (valid_frames _ _ _ G). destruct (queue a) as [|f q] eqn:Eq; simpl length.
  - simpl. finish. eexists. split; [done|]. split; [by eapply rep_same|].
    split_and!; [done..|]. intros [? [=]].
  - destruct (_ =? 0) eqn:E0; [done|].
    pose proof (queue_slot _ _ _ G 0 f ltac:(done)) as Hs.
    pose proof (g_read _ _ _ G). pose proof (g_max _ _ _ G).
    rewrite Z.add_0_r, Z.mod_small in Hs by lia.
    apply twp_bind. eapply twp_lift; [done|].
    pose proof (r_sizes _ _ _ _ _ R) as Sz. unfold frames in Sz. rewrite Eq in Sz.
    apply sizes_app in Sz as [_ Sz]. pose proof (sizes_range _ Sz) as Rg. destruct Sz as [Sz _].
    apply Forall_cons in Sz as [Sz1 Sz2]. pose proof (zsum_nonneg nLength _ Sz2). simpl in Rg.
    pose proof (r_size _ _ _ _ _ R) as Es. rewrite Eq in Es. simpl in Es.
    assert (frames (mkA (f :: done a) q (loan a)) ≡ₚ frames a) as P
      by (unfold frames; rewrite Eq; apply Permutation_middle).
    finish. eexists. split; [done|]. rewrite Z.rem_mod_nonneg by lia.
    split; [|split; [done|split]].
    + destruct R. rewrite Eq in *. split; simpl; try done.
      * by apply ring_read.
      * rewrite r_size0. simpl. lia.
      * by eapply owned_perm; [| |exact r_mem0].
      * by eapply sizes_perm; [|exact r_sizes0].
    + by simpl.
    + intros _. simpl. f_equal. rewrite Hm in *. by rewrite mod_add_sub_cancel by lia.
Qed.

(** The frame is in the block that is lent, within its size. *)
Definition fills (f : StreamFrame) (a : astate) : Prop :=
  match loan a with
  | NoLoan => False
  | Lent p n => pData f = p /\ 0 <= nLength f <= n /\ zsum nLength (frames a) + nLength f < 2 ^ 31
  | Lost p => pData f = p
  end.

Definition added (f : StreamFrame) (a : astate) : astate :=
  mkA (keep N (done a) (queue a)) (queue a ++ [f]) NoLoan.

(** What becomes of the blocks when a frame takes a slot. *)
Lemma added_owned f a old n :
  loan a = Lent (pData f) n ->
  (old = zero_frame /\ keep N (done a) (queue a) = done a \/
   done a = keep N (done a) (queue a) ++ [old]) ->
  pData old = 0 /\ owned (added f a) ≡ₚ owned a \/ owned a ≡ₚ pData old :: owned (added f a).
Proof.
  intros El Hold. unfold owned, frames, added. simpl. rewrite El. simpl.
  destruct Hold as [[-> Ek] | Ek]; [left; split; [done|]|right].
  - rewrite Ek, !fmap_app. simpl. by rewrite app_assoc, <- Permutation_cons_append.
  - rewrite Ek at 1. rewrite !fmap_app. simpl. set (x := pData <$> _). set (y := pData <$> _).
    solve_Permutation.
Qed.

Lemma added_sizes f a n :
  loan a = Lent (pData f) n -> fills f a -> sizes_ok (frames a) -> sizes_ok (frames (added f a)).
Proof.
  intros El Hf [H1 H2]. unfold fills in Hf. rewrite El in Hf. destruct Hf as (_ & Hf & Ht).
  unfold frames, added, keep in *. simpl. apply Forall_app in H1 as [H1 H3].
  rewrite app_assoc. split.
  - apply Forall_app; split; [|apply Forall_singleton; lia]. apply Forall_app; split; [|done]. by apply Forall_take.
  - rewrite !zsum_app in *. simpl. rewrite <- (take_drop (Z.to_nat N - 1 - length (queue a)) (done a)), zsum_app in Ht.
    pose proof (zsum_nonneg nLength _ (Forall_drop _ (Z.to_nat N - 1 - length (queue a)) _ H1)). lia.
Qed.

Lemma twp_free_slot w p l l' (Q : unit -> world -> Prop) :
  mem_ok others (blocks w) l -> p = 0 /\ l' ≡ₚ l \/ l ≡ₚ p :: l' ->
  (forall b, mem_ok others b l' -> Q tt (w <| blocks := b |>)) -> twp (free p) Q w.
Proof.
  intros Hm [[-> P]|P] HQ.
  - unfold free. simpl. apply twp_ret. rewrite <- P in Hm. destruct w. by apply HQ.
  - rewrite P in Hm. by eapply twp_free_block.
Qed.

Lemma add_ok w a f :
  rep w a -> fills f a ->
  twp (StreamManagerAddStream (Some f)) (replies (fst (a_add f a)) (snd (a_add f a))) (Some w).
Proof.
  intros R Hf. unfold StreamManagerAddStream, a_add. start R. simpl. rewrite (crowded_test _ _ R).
  destruct (crowded a) eqn:Ec; [same R|]. pose proof (crowded_room _ _ R Ec) as Hroom.
  pose proof (r_loan _ _ _ _ _ R) as Hl. pose proof (r_mem _ _ _ _ _ R) as Hm.
  destruct (loan a) as [|p n|p] eqn:El; unfold fills in Hf; rewrite El in Hf; [done| |].
  - destruct Hf as (Ep & Hlen & Ht), Hl as [Hp Hn]. subst p. rewrite Hp, Hn.
    rewrite Z.eqb_refl. replace (n <? nLength f) with false by lia. simpl.
    pose proof (r_ring _ _ _ _ _ R) as G. pose proof (r_max _ _ _ _ _ R) as EN.
    destruct (ring_add _ _ _ f G) as (old & Eo & Hold & G'); [by rewrite EN|].
    rewrite EN in Hold, G'. apply twp_bind. eapply twp_lift; [done|]. apply twp_bind.
    eapply twp_free_slot; [exact Hm | by eapply added_owned | intros b Hb].
    pose proof (r_sizes _ _ _ _ _ R) as Sz.
    assert (fills f a) as Hf by (unfold fills; by rewrite El).
    pose proof (added_sizes _ _ _ El Hf Sz) as Sz'.
    pose proof (sizes_range _ Sz) as Rg. pose proof (r_size _ _ _ _ _ R) as Es.
    unfold frames in Sz, Rg, Ht. rewrite zsum_app in Rg, Ht.
    destruct (sizes_app _ _ Sz) as [Sd Sq]. apply sizes_range in Sd, Sq.
    finish. split; [done|]. eexists. split; [done|].
    destruct G as [Gm _ Gr Gw _ _ _]. rewrite EN in *.
    pose proof (Z.mod_pos_bound (nReadPos (streamFifo (sm w)) + Z.of_nat (length (queue a))) N ltac:(lia)).
    rewrite Z.rem_mod_nonneg by lia. destruct R. simpl in G'. rewrite EN in G'. split; simpl; try done.
    rewrite zsum_app. simpl. lia.
  - subst p. pose proof (m_nonnull _ _ _ Hm) as Hn. unfold owned in Hm, Hn. rewrite El in Hm, Hn.
    apply Forall_cons in Hn as [Hn _]. destruct Hl as [Hl1 Hl2]. rewrite Hl1, Hl2.
    replace (0 =? pData f) with false by lia. rewrite Z.eqb_refl. simpl. apply twp_bind.
    eapply twp_free_block; [exact Hm|]. intros b Hb. finish. split; [done|]. eexists. split; [done|].
    destruct R. split; simpl; done.
Qed.

Lemma sm_return_ok w a :
  rep w a -> done a <> [] -> Z.of_nat (length (queue a)) + 1 < N ->
  twp (StreamManagerReturnStream (FSlot ((nReadPos (streamFifo (sm w)) - 1) mod N)))
    (replies (fst (a_return a)) (snd (a_return a))) (Some w).
Proof.
  intros R Hd Hq. unfold StreamManagerReturnStream, a_return. start R. simpl.
  pose proof (r_ring _ _ _ _ _ R) as G. pose proof (r_max _ _ _ _ _ R) as EN.
  rewrite (valid_frames _ _ _ G). destruct (queue a) as [|x q] eqn:Eq; [same R|].
  destruct (_ =? 0) eqn:E0; [done|]. destruct (done a) as [|f d] eqn:Ed; [done|].
  pose proof (g_read _ _ _ G) as Hr. rewrite EN in Hr. rewrite EN, (ring_pred _ _ Hr), Z.eqb_refl. simpl negb. cbv iota.
  pose proof (ring_unread _ _ _ _ G ltac:(by rewrite EN)) as G'.
  pose proof (queue_slot _ _ _ G' 0 f ltac:(done)) as Hs. simpl in Hs. rewrite EN, Z.add_0_r, Zmod_mod in Hs.
  apply twp_bind. eapply twp_lift; [done|].
  assert (frames (mkA d (f :: x :: q) (loan a)) ≡ₚ frames a) as P
    by (unfold frames; rewrite Ed, Eq; symmetry; apply Permutation_middle).
  pose proof (proj2 (sizes_perm _ _ P) (r_sizes _ _ _ _ _ R)) as Sz. unfold frames in Sz. simpl in Sz.
  apply sizes_app in Sz as [_ Sz]. pose proof (sizes_range _ Sz) as Rg.
  change (f :: x :: q) with ([f] ++ x :: q) in Sz. apply sizes_app in Sz as [_ Sz].
  pose proof (sizes_range _ Sz) as Rq. pose proof (r_size _ _ _ _ _ R) as Es. rewrite Eq in Es.
  simpl in Es, Rg, Rq. finish. split; [done|]. eexists. split; [done|].
  simpl in G'. rewrite EN in G'. destruct R. split; simpl; try done.
  - lia.
  - by eapply owned_perm; [| |exact r_mem0].
  - by eapply sizes_perm; [|exact r_sizes0].
Qed.

Definition a_info (i : Z) (a : astate) : option StreamFrame :=
  if i <? 0 then None else queue a !! Z.to_nat i.

Lemma info_ok w a i :
  rep w a -> twp (StreamManagerGetFrameInfo i) (fun r p => exists w', p = Some w' /\ rep w' a /\
    (p ← r; zlookup (pFrames (streamFifo (sm w'))) p) = a_info i a) (Some w).
Proof.
  intros R. unfold StreamManagerGetFrameInfo, a_info. start R. simpl.
  pose proof (r_ring _ _ _ _ _ R) as G. rewrite (valid_frames _ _ _ G).
  destruct (i <? 0) eqn:Ei; simpl.
  - finish. eexists. split; [done|]. split; [by eapply rep_same | done].
  - destruct (i >=? _) eqn:Eq; simpl.
    + finish. eexists. split; [done|]. split; [by eapply rep_same|]. simpl.
      symmetry. apply lookup_ge_None. lia.
    + assert (i < Z.of_nat (length (queue a))) as Hi by lia.
      pose proof (g_read _ _ _ G). pose proof (g_max _ _ _ G). pose proof (g_room _ _ _ G).
      destruct (lookup_lt_is_Some_2 (queue a) (Z.to_nat i) ltac:(lia)) as [f Ef].
      pose proof (queue_slot _ _ _ G _ _ Ef) as Hs. rewrite Z2Nat.id in Hs by lia.
      finish. eexists. split; [done|]. split; [by eapply rep_same|]. simpl.
      rewrite Ef, <- Hs. f_equal. clear Eq. destruct (_ + i >=? _) eqn:Ep.
      * apply (Z.mod_unique _ _ 1); lia.
      * rewrite Z.mod_small; lia.
Qed.

Lemma list_filter_all (l : list Z) : Forall (fun p => p <> 0) l -> filter (fun p => p <> 0) l = l.
Proof. induction 1 as [|x l Hx _ IH]; [done|]. by rewrite filter_cons_True, IH by done. Qed.

(** The blocks of the frames are those of the slots that are not empty. *)
Lemma slot_blocks w a :
  rep w a -> filter (fun p => p <> 0) (pData <$> pFrames (streamFifo (sm w))) ≡ₚ pData <$> frames a.
Proof.
  intros R. rewrite (slots_perm _ _ _ (r_ring _ _ _ _ _ R)). unfold slots, frames.
  pose proof (m_nonnull _ _ _ (r_mem _ _ _ _ _ R)) as Hn. unfold owned in Hn.
  apply Forall_app in Hn as [_ Hn]. rewrite !fmap_app, !filter_app.
  unfold frames in Hn. rewrite fmap_app in Hn. apply Forall_app in Hn as [H1 H2].
  rewrite reverse_Permutation, (list_filter_all _ H1), (list_filter_all _ H2).
  assert (forall n, filter (fun p => p <> 0) (pData <$> repeat zero_frame n) = []) as ->; [|by rewrite app_nil_r].
  induction n; [done|]. simpl. by rewrite filter_cons_False by tauto.
Qed.

Lemma take_slots w a :
  rep w a ->
  take (Z.to_nat (nMaxFrameNum (streamFifo (sm w)))) (pFrames (streamFifo (sm w))) =
  pFrames (streamFifo (sm w)).
Proof. intros R. apply take_ge. pose proof (g_len _ _ _ (r_ring _ _ _ _ _ R)). lia. Qed.

Lemma empty_ring n :
  10 <= n < 2 ^ 30 -> at_ring (mkFifo (repeat zero_frame (Z.to_nat n)) n 0 0) [] [].
Proof.
  intros H. split; simpl; try lia.
  - by rewrite repeat_length.
  - by rewrite Z.mod_small by lia.
  - intros k Hk. rewrite repeat_length. unfold slots in *. simpl in *. rewrite !repeat_length in *.
    rewrite Z2Nat.id, Zplus_mod_idemp_l, Z.mod_small by lia. do 2 f_equal; [lia|]. f_equal. lia.
Qed.

Lemma sm_reset_ok w a : rep w a -> twp StreamManagerReset (replies tt (a_reset a)) (Some w).
Proof.
  intros R. unfold StreamManagerReset, a_reset. start R. simpl. rewrite (take_slots _ _ R).
  pose proof (r_mem _ _ _ _ _ R) as Hm. unfold owned in Hm.
  rewrite Permutation_app_comm, <- (slot_blocks _ _ R) in Hm.
  apply twp_bind. eapply twp_free_all; [exact Hm|]. intros b Hb.
  pose proof (r_loan _ _ _ _ _ R) as Hl. pose proof (r_ring _ _ _ _ _ R) as G.
  pose proof (empty_ring _ (g_max _ _ _ G)) as G0. rewrite <- (g_len _ _ _ G) in G0.
  pose proof (m_nonnull _ _ _ Hb) as Hn.
  apply twp_bind; unfold mod_sm at 1; twp_step; apply twp_bind.
  destruct (pMem (sm w) =? 0) eqn:E; finish; (split; [done|]); eexists; (split; [done|]);
    destruct R; split; simpl; try done; unfold owned, sizes_ok; simpl; rewrite ?app_nil_r.
  - destruct (loan a); simpl in *; [done | | done]. destruct Hl as [-> _]. apply Forall_cons in Hn. lia.
  - by destruct (loan a).
  - destruct (loan a); simpl in *; [lia | | lia]. by destruct Hl as [-> _].
  - by destruct (loan a).
Qed.

(** The block that was lost stays allocated. *)
Definition leaked (a : astate) : list Z := match loan a with Lost p => [p] | _ => [] end.

Lemma sm_destroy_ok w a :
  rep w a ->
  twp StreamManagerDestroy (fun _ p => exists w', p = Some w' /\ blocks w' = list_to_set (leaked a) ∪ others) (Some w).
Proof.
  intros R. unfold StreamManagerDestroy. apply twp_deref_some, twp_bind, twp_get. rewrite (take_slots _ _ R).
  pose proof (r_mem _ _ _ _ _ R) as Hm. unfold owned in Hm.
  rewrite Permutation_app_comm, <- (slot_blocks _ _ R) in Hm.
  apply twp_bind. eapply twp_free_all; [exact Hm|]. intros b Hb.
  pose proof (r_loan _ _ _ _ _ R) as Hl. unfold leaked. destruct (loan a) as [|p n|p]; simpl in *.
  - unfold free. rewrite Hl. simpl. apply twp_ret. eexists. split; [done|]. simpl. by rewrite (m_blocks _ _ _ Hb).
  - destruct Hl as [-> _]. eapply twp_free_block; [exact Hb|]. intros b' Hb'. eexists. split; [done|]. simpl.
    by rewrite (m_blocks _ _ _ Hb').
  - destruct Hl as [-> _]. unfold free. simpl. apply twp_ret. eexists. split; [done|]. simpl. by rewrite (m_blocks _ _ _ Hb).
Qed.

(** ** Rewinding *)

Definition dist (t : Z) (f : StreamFrame) : Z := Z.abs (t - nPts f).

Lemma twp_distance {A} t f (k : Z -> M world A) Q w :
  dist t f < 2 ^ 31 -> twp (k (dist t f)) Q w -> twp (d ← sub64 t (nPts f); a ← c_abs d; k a) Q w.
Proof.
  intros H HQ. unfold dist in *. apply twp_bind. unfold sub64.
  replace ((_ <=? _) && _) with true by lia. apply twp_ret, twp_bind. unfold c_abs.
  rewrite s32_small by lia. by replace (_ =? _) with false by lia.
Qed.

Lemma twp_closest t l n find m (Q : Z -> world -> Prop) w :
  Forall (fun f => dist t f < 2 ^ 31) l ->
  (forall r, r = find /\ Forall (fun f => m <= dist t f) l \/
     (exists k f, l !! k = Some f /\ r = n + Z.of_nat k /\ dist t f < m /\
        Forall (fun f' => dist t f <= dist t f') l) -> Q r w) ->
  twp (closest t l n find m) Q w.
Proof.
  intros Hl. revert n find m. induction Hl as [|f l Hf _ IH]; intros n find m HQ; cbn [closest].
  - apply twp_ret, HQ. left. by split.
  - apply twp_distance; [done|].
    destruct (dist t f <? m) eqn:Em.
    + apply (IH (n + 1) n (dist t f)). intros r [[-> Hr] | (k & f' & Hk & -> & Hlt & Hr)]; apply HQ; right.
      * exists 0%nat, f. split_and!; [done|lia|lia|by constructor].
      * exists (S k), f'. split_and!; [done|lia|lia|constructor; [lia|done]].
    + apply (IH (n + 1) find m). intros r [[-> Hr] | (k & f' & Hk & -> & Hlt & Hr)]; apply HQ.
      * left. split; [done|]. constructor; [lia|done].
      * right. exists (S k), f'. split_and!; [done|lia|lia|constructor; [lia|done]].
Qed.

Lemma twp_sum_lengths q : forall fuel f i acc (Q : Z -> world -> Prop) w,
  (length q <= fuel)%nat -> Z.of_nat (length (pFrames f)) = nMaxFrameNum f ->
  ring_rep (pFrames f) i q -> 0 <= i < nMaxFrameNum f ->
  nWritePos f = (i + Z.of_nat (length q)) mod nMaxFrameNum f ->
  Z.of_nat (length q) < nMaxFrameNum f ->
  Forall (fun x => 0 <= nLength x) q -> 0 <= acc -> acc + zsum nLength q < 2 ^ 31 ->
  Q (acc + zsum nLength q) w -> twp (sum_lengths fuel f i acc) Q w.
Proof.
  induction q as [|x q IH]; intros fuel f i acc Q w Hfu Hlen R Hi Hw Hq Hs Ha Ht HQ.
  - simpl in Hw. rewrite Z.add_0_r, Z.mod_small in Hw by lia.
    destruct fuel; cbn [sum_lengths]; rewrite Hw, Z.eqb_refl; apply twp_ret;
      simpl in HQ; by rewrite Z.add_0_r in HQ.
  - destruct fuel as [|fuel]; simpl in Hfu; [lia|]. cbn [sum_lengths].
    assert ((i =? nWritePos f) = false) as ->.
    { apply Z.eqb_neq. intros E. rewrite <- (Z.mod_small i (nMaxFrameNum f)) in E at 1 by lia.
      rewrite Hw in E. rewrite <- (Z.add_0_r i) in E at 1. apply ring_index_inj in E; simpl in *; lia. }
    apply twp_bind. eapply twp_lift.
    { rewrite zlookup_some by lia. specialize (R 0%nat ltac:(simpl; lia)).
      rewrite Hlen, Z.add_0_r, Z.mod_small in R by lia. exact R. }
    apply Forall_cons in Hs as [Hx Hs]. pose proof (zsum_nonneg nLength _ Hs).
    change (zsum nLength (x :: q)) with (nLength x + zsum nLength q) in *.
    simpl length in Hq, Hw.
    apply twp_bind, twp_iadd; [lia|]. rewrite Z.rem_mod_nonneg by lia. apply IH; try done; try lia.
    + rewrite <- Hlen. apply ring_rep_pop with x; [lia|done].
    + apply Z.mod_pos_bound. lia.
    + rewrite Hw, Zplus_mod_idemp_l. f_equal. lia.
    + by rewrite <- Z.add_assoc.
Qed.

Lemma twp_sum_queue f i d q (Q : Z -> world -> Prop) w :
  at_ring (f <| nReadPos := i |>) d q -> sizes_ok q ->
  Q (zsum nLength q) w -> twp (sum_lengths (length (pFrames f)) f i 0) Q w.
Proof.
  intros G Sz HQ. pose proof (queue_ring _ _ _ G) as Rg. pose proof (sizes_range _ Sz).
  destruct G, Sz. simpl in *. eapply (twp_sum_lengths q); try done; lia.
Qed.

(** The frame closest to the time becomes the next to read; frames of a full ring
    that is rewound to its oldest frame all count as read. *)
Definition a_rewind (t : Z) (a a' : astate) : Prop :=
  exists k f, slots N (done a) (queue a) !! k = Some f /\
    Forall (fun f' => dist t f <= dist t f') (slots N (done a) (queue a)) /\
    a' = if pData f =? 0 then a
         else let l := reverse (done a) ++ queue a in
              mkA (rewound k N l).1 (rewound k N l).2 (loan a).

Lemma rewind_ok w a t :
  rep w a -> Forall (fun f => dist t f < 2 ^ 31) (slots N (done a) (queue a)) ->
  twp (StreamManagerRewind t) (fun r w' => r = 0 /\ exists a', a_rewind t a a' /\ rep w' a') w.
Proof.
  intros R Hd. unfold StreamManagerRewind.
  apply twp_bind, (twp_sm_lock _ _ (r_mutex _ _ _ _ _ R)). apply twp_bind, twp_get. cbv beta zeta. simpl sm. simpl.
  rewrite (take_slots _ _ R). pose proof (r_ring _ _ _ _ _ R) as G. pose proof (r_max _ _ _ _ _ R) as EN.
  pose proof (slots_perm _ _ _ G) as P. rewrite EN in P. rewrite <- P in Hd.
  apply twp_bind, twp_closest; [done|]. intros r Hr.
  pose proof (g_max _ _ _ G) as HN. pose proof (g_len _ _ _ G) as Hlen. rewrite EN in HN, Hlen.
  destruct Hr as [[_ Hr] | (i & f & Hi & -> & _ & Hmin)].
  { destruct (pFrames (streamFifo (sm w))) as [|x xs]; [simpl in *; lia|].
    apply Forall_cons in Hr as [Hr _]. apply Forall_cons in Hd as [Hd _]. unfold UINT64_MAX in *. lia. }
  pose proof (lookup_lt_Some _ _ _ Hi) as Hilt. rewrite Z.add_0_l.
  assert (zlookup (pFrames (streamFifo (sm w))) (Z.of_nat i) = Some f) as Hz
    by (rewrite zlookup_some, Nat2Z.id by lia; done).
  apply twp_bind. eapply twp_lift; [done|].
  destruct (ring_locate _ _ _ (Z.of_nat i) G ltac:(lia)) as (k & Hk & Ek & Es). rewrite EN in Hk, Ek, Es.
  rewrite Hz in Es. rewrite P in Hmin. destruct (pData f =? 0) eqn:E0.
  { rewrite orb_true_r. finish. split; [done|]. exists a. split; [|by eapply rep_same].
    exists k, f. by rewrite E0. }
  assert (k < length (done a) + length (queue a))%nat as Hkl.
  { apply Nat.nle_gt. intros Hge. unfold slots in Es. rewrite app_assoc, lookup_app_r in Es
      by (rewrite length_app, length_reverse; lia).
    apply list_elem_of_lookup_2, list_elem_of_In, repeat_spec in Es. subst f. done. }
  set (l := reverse (done a) ++ queue a).
  set (a' := mkA (rewound k N l).1 (rewound k N l).2 (loan a)).
  assert (a_rewind t a a') as Ha by (exists k, f; by rewrite E0).
  pose proof (ring_rewind _ _ _ k (Z.of_nat i) G Hkl ltac:(by rewrite EN)) as G'.
  rewrite EN in G'. fold l in G'.
  assert (frames a' ≡ₚ frames a) as Pf.
  { unfold frames, a'. simpl. rewrite <- (reverse_Permutation (_.1)), rewound_frames. unfold l.
    by rewrite reverse_Permutation. }
  destruct (Z.of_nat i =? nReadPos (streamFifo (sm w))) eqn:Er; simpl.
  - finish. split; [done|]. exists a'. split; [done|]. apply Z.eqb_eq in Er.
    assert (a' = a) as ->; [|by eapply rep_same].
    destruct (rewound_same _ _ _ k G) as [E1 E2].
    { rewrite EN. rewrite Er in G'. by destruct (streamFifo (sm w)). }
    unfold a'. rewrite EN in E1, E2. fold l in E1, E2. rewrite E1, E2. by destruct a.
  - pose proof (r_sizes _ _ _ _ _ R) as Sz. rewrite <- Pf in Sz. unfold frames in Sz. simpl in Sz.
    apply sizes_app in Sz as [_ Sz]. apply twp_bind. eapply twp_sum_queue; [exact G' | done |].
    finish. split; [done|]. exists a'. split; [done|]. destruct R. split; simpl; try done.
    + by eapply owned_perm.
    + by rewrite Pf.
Qed.

(** ** Sequences of calls *)

(** The calls of demultiplexer, decoder and player; [OReturn] gives back the frame
    that was read last. *)
Inductive op :=
| ORequest (size addr : Z) | OAdd (f : StreamFrame) | ORead | OInfo (i : Z) | OReturn
| OCount | OBytes | OReset | ORewind (t : Z).

Inductive reply :=
| RBuffer (r : Z * (Z * Z)) | RInt (n : Z) | RFrame (f : option StreamFrame) | RNone.

Definition a_step (o : op) (a : astate) (r : reply) (a' : astate) : Prop :=
  match o with
  | ORequest size addr => r = RBuffer (a_request size addr a).1 /\ a' = (a_request size addr a).2
  | OAdd f => r = RInt (a_add f a).1 /\ a' = (a_add f a).2
  | ORead => r = RFrame (a_read a).1 /\ a' = (a_read a).2
  | OInfo i => r = RFrame (a_info i a) /\ a' = a
  | OReturn => r = RInt (a_return a).1 /\ a' = (a_return a).2
  | OCount => r = RInt (Z.of_nat (length (queue a))) /\ a' = a
  | OBytes => r = RInt (zsum nLength (queue a)) /\ a' = a
  | OReset => r = RNone /\ a' = a_reset a
  | ORewind t => r = RInt 0 /\ a_rewind t a a'
  end.

(** What the callers owe: [malloc] gives fresh blocks and no second one is asked
    for while a lost one is out, a frame fills the block that was lent, only a frame that
    was read is returned, and times are 2^31 microseconds apart at most. *)
Definition legal (o : op) (a : astate) : Prop :=
  match o with
  | ORequest _ addr => (forall p, loan a <> Lost p) /\ (addr ∉ owned a) /\ addr ∉ others
  | OAdd f => fills f a
  | OReturn => done a <> [] /\ Z.of_nat (length (queue a)) + 1 < N
  | ORewind t => Forall (fun f => dist t f < 2 ^ 31) (slots N (done a) (queue a))
  | _ => True
  end.

Fixpoint safe (ops : list op) (a : astate) : Prop :=
  match ops with
  | [] => True
  | o :: ops => legal o a /\ forall r a', a_step o a r a' -> safe ops a'
  end.

Fixpoint a_run (ops : list op) (a : astate) (rs : list reply) (a' : astate) : Prop :=
  match ops, rs with
  | [], [] => a' = a
  | o :: ops, r :: rs => exists a1, a_step o a r a1 /\ a_run ops a1 rs a'
  | _, _ => False
  end.
End ops.

(** The same calls on the model of the code. *)
Definition the_slot (w : world) : Z :=
  (nReadPos (streamFifo (sm w)) - 1) mod nMaxFrameNum (streamFifo (sm w)).

Definition run_op (o : op) (w : world) : res (option world) reply :=
  match o with
  | ORequest size addr => (r ← StreamManagerRequestBuffer true size addr; mret (RBuffer r)) (Some w)
  | OAdd f => (r ← StreamManagerAddStream (Some f); mret (RInt r)) (Some w)
  | ORead =>
      match StreamManagerRequestStream (Some w) with
      | Ok None (Some w') => Ok (RFrame None) (Some w')
      | Ok (Some i) (Some w') =>
          if i =? the_slot w' then Ok (RFrame (zlookup (pFrames (streamFifo (sm w'))) i)) (Some w')
          else Undef
      | _ => Undef
      end
  | OInfo i =>
      match StreamManagerGetFrameInfo i (Some w) with
      | Ok r (Some w') => Ok (RFrame (i ← r; zlookup (pFrames (streamFifo (sm w'))) i)) (Some w')
      | _ => Undef
      end
  | OReturn => (r ← StreamManagerReturnStream (FSlot (the_slot w)); mret (RInt r)) (Some w)
  | OCount => (r ← StreamManagerStreamFrameNum; mret (RInt r)) (Some w)
  | OBytes => (r ← StreamManagerStreamDataSize; mret (RInt r)) (Some w)
  | OReset => (StreamManagerReset;; mret RNone) (Some w)
  | ORewind t =>
      match StreamManagerRewind t w with Ok r w' => Ok (RInt r) (Some w') | _ => Undef end
  end.

Fixpoint run (ops : list op) (w : world) : option (list reply * world) :=
  match ops with
  | [] => Some ([], w)
  | o :: ops =>
      match run_op o w with
      | Ok r (Some w') => '(rs, w'') ← run ops w'; Some (r :: rs, w'')
      | _ => None
      end
  end.

Section refinement.
Context (N cap : Z) (others : gset Z).
Abbreviation rep := (rep N cap others).

Lemma replied {A} (m : M (option world) A) (f : A -> reply) r a' w :
  twp m (replies N cap others r a') (Some w) ->
  exists w', (x ← m; mret (f x)) (Some w) = Ok (f r) (Some w') /\ rep w' a'.
Proof.
  intros H. apply twp_elim in H as (x & s & E & -> & w' & -> & R). exists w'. split; [|done].
  unfold mbind, M_bind. by rewrite E.
Qed.

Lemma sm_step_ok o w a :
  rep w a -> legal N others o a ->
  exists r w' a', run_op o w = Ok r (Some w') /\ a_step N cap o a r a' /\ rep w' a'.
Proof.
  intros R L. pose proof (r_max _ _ _ _ _ R) as EN.
  destruct o as [size addr|f| |i| | | | |t]; cbn [legal run_op a_step] in L |- *.
  - destruct L as (L1 & L2 & L3). assert (addr ∉ blocks w) as Hf
      by (rewrite (m_blocks _ _ _ (r_mem _ _ _ _ _ R)); set_solver).
    destruct (replied _ RBuffer _ _ _ (sm_request_ok _ _ _ _ _ size addr R L1 Hf)) as (w' & E & R'); eauto 8.
  - destruct (replied _ RInt _ _ _ (add_ok _ _ _ _ _ _ R L)) as (w' & E & R'); eauto 8.
  - destruct (twp_elim _ _ _ (read_ok _ _ _ _ _ R)) as (r & s & -> & w' & -> & R' & _ & Er & Hr).
    destruct r as [i|].
    + specialize (Hr ltac:(done)) as [= ->]. unfold the_slot. rewrite (r_max _ _ _ _ _ R'), Z.eqb_refl.
      simpl in Er. rewrite Er. eauto 8.
    + simpl in Er. rewrite <- Er. eauto 8.
  - destruct (twp_elim _ _ _ (info_ok _ _ _ _ _ i R)) as (r & s & -> & w' & -> & R' & Er).
    rewrite Er. eauto 8.
  - destruct L as [L1 L2]. pose proof (sm_return_ok _ _ _ _ _ R L1 L2) as H. rewrite <- EN in H at 1.
    destruct (replied _ RInt _ _ _ H) as (w' & E & R'); eauto 8.
  - pose proof (valid_frames _ _ _ (r_ring _ _ _ _ _ R)) as V. exists (RInt (validFrameNum (streamFifo (sm w)))), w, a.
    rewrite V at 2. done.
  - exists (RInt (nValidDataSize (sm w))), w, a. by rewrite (r_size _ _ _ _ _ R) at 2.
  - destruct (replied _ (fun _ => RNone) _ _ _ (sm_reset_ok _ _ _ _ _ R)) as (w' & E & R'); eauto 8.
  - destruct (twp_elim _ _ _ (rewind_ok _ _ _ _ _ _ R L)) as (r & w' & -> & -> & a' & Ha & R'). eauto 8.
Qed.

Lemma run_refines ops : forall w a,
  rep w a -> safe N cap others ops a ->
  exists rs w' a', run ops w = Some (rs, w') /\ a_run N cap ops a rs a' /\ rep w' a'.
Proof.
  induction ops as [|o ops IH]; intros w a R S; simpl in *.
  - exists [], w, a. done.
  - destruct S as [L S]. destruct (sm_step_ok o w a R L) as (r & w1 & a1 & -> & H1 & R1).
    destruct (IH w1 a1 R1 (S _ _ H1)) as (rs & w' & a' & -> & H2 & R').
    exists (r :: rs), w', a'. eauto.
Qed.

Lemma created_rep id :
  10 <= N < 2 ^ 30 ->
  exists m, StreamManagerCreate true true cap N id = Some m /\
    rep (mkWorld m others) (mkA [] [] NoLoan).
Proof.
  intros HN. unfold StreamManagerCreate. replace (N <=? 0) with false by lia.
  eexists. split; [done|]. split; simpl; try done.
  - by apply empty_ring.
  - split; simpl; try done; [constructor | set_solver | set_solver].
Qed.
End refinement.



(** The 100 bytes and the frame of the examples. *)
Definition ex_frame (p pts : Z) : StreamFrame := mkFrame p 100 pts 0 40000.
Definition ex_ops : list op :=
  [ORequest 100 4096; OAdd (ex_frame 4096 0); ORequest 100 8192; OAdd (ex_frame 8192 40000);
   ORead; OReturn; ORead; OCount; OReset; ORequest 100 4096; OReset; OAdd (ex_frame 4096 0); ORewind 500].

Ltac next_call :=
  lazymatch goal with
  | |- safe _ _ _ (?o :: _) _ =>
      split; [ cbn; repeat split; first [done | by apply (bool_decide_unpack _); vm_compute | idtac]
             | lazymatch o with
               | ORewind _ => intros r a' _
               | _ => intros r a' [-> ->];
                      match goal with |- safe _ _ _ _ ?a => let x := eval vm_compute in a in change a with x end
               end ]
  end.


(** * Where the code departs from a queue *)

(** A frame cannot be given back when it was the only one: with any manager of 10
    slots or more, reading the only frame and returning it at once yields -1, and the frame
    stays read. *)
Theorem sm_return_only N cap id size f :
  10 <= N < 2 ^ 30 -> 0 < cap -> pData f <> 0 -> 0 <= nLength f <= size -> nLength f < 2 ^ 31 ->
  exists m w, StreamManagerCreate true true cap N id = Some m /\
    run [ORequest size (pData f); OAdd f; ORead; OReturn; OCount; ORead] (mkWorld m ∅) =
      Some ([RBuffer (0, (pData f, size)); RInt 0; RFrame (Some f); RInt (-1); RInt 0; RFrame None], w).
Proof.
  intros HN Hc Hp Hl Hm. destruct (created_rep N cap ∅ id HN) as (m & Em & R).
  assert (forall q d l, (length q <= 1)%nat -> crowded N (mkA d q l) = false) as Hcr.
  { intros q d l Hq. unfold crowded. simpl. assert (N / 10 < N - 1) by dlia. lia. }
  assert (a_request N cap size (pData f) (mkA [] [] NoLoan) =
    ((0, (pData f, size)), mkA [] [] (Lent (pData f) size))) as E1.
  { unfold a_request. simpl. rewrite Hcr by (simpl; lia). simpl.
    destruct (0 >=? cap) eqn:E; [lia|]. simpl. destruct (_ =? 0) eqn:E'; [lia|done]. }
  assert (a_add N f (mkA [] [] (Lent (pData f) size)) = (0, mkA [] [f] NoLoan)) as E2.
  { unfold a_add. rewrite Hcr by (simpl; lia). simpl. unfold keep. by rewrite take_nil. }
  destruct (run_refines N cap ∅ [ORequest size (pData f); OAdd f; ORead; OReturn; OCount; ORead] _ _ R)
    as (rs & w & a & Er & Ha & _).
  { split; [split_and!; [done | set_solver | set_solver]|]. intros r a [-> ->]. rewrite E1. cbn [snd].
    split; [by repeat split; simpl; try lia|]. intros r a [-> ->]. rewrite E2. cbn [snd].
    split; [done|]. intros r a [-> ->]. split; [split; [done | simpl; lia]|].
    intros r a [-> ->]. split; [done|]. intros r a [-> ->]. by split. }
  exists m, w. split; [done|]. rewrite Er. f_equal. f_equal.
  repeat (destruct rs as [|? rs]; try done; destruct Ha as (? & [-> ->] & Ha));
    rewrite ?E1, ?E2 in *; cbn in *; rewrite ?E2 in *; cbn in *.
  destruct rs; [|done]. done.
Qed.

Lemma sm_return_only_witness :
  exists m w, StreamManagerCreate true true 1000 10 0 = Some m /\
    run [ORequest 100 4096; OAdd (ex_frame 4096 0); ORead; OReturn; OCount; ORead] (mkWorld m ∅) =
      Some ([RBuffer (0, (4096, 100)); RInt 0; RFrame (Some (ex_frame 4096 0)); RInt (-1); RInt 0; RFrame None], w).
Proof. apply (sm_return_only 10 1000 0 100 (ex_frame 4096 0)); simpl; lia. Defined.

(** The calls that put frames of the given times into the ring and read them. *)
Definition play (times : list Z) : list op :=
  concat (imap (fun i t => let p := 4096 * (Z.of_nat i + 1) in
    [ORequest 100 p; OAdd (ex_frame p t); ORead]) times).

Definition last_reply (N : Z) (ops : list op) : option reply :=
  m ← StreamManagerCreate true true 100000 N 0;
  '(rs, _) ← run ops (mkWorld m ∅); last rs.

(** Rewinding works while the ring is not full (all frames from the one closest to the
    time are to be read again), but rewinding a full ring to its oldest frame leaves no frame
    to read, and at times of 2^32 microseconds and more an empty slot counts as closest, because
    [abs] cuts the difference of the times to 32 bits. *)
Theorem sm_rewind_departs :
  let times := map (fun k => 40000 * k) (seqZ 1 20) in
  last_reply 21 (play times ++ [ORewind 40000; OCount]) = Some (RInt 20) /\
  last_reply 20 (play times ++ [ORewind 80000; OCount]) = Some (RInt 19) /\
  last_reply 20 (play times ++ [ORewind 40000; OCount]) = Some (RInt 0) /\
  last_reply 21 (play (map (Z.add (2 ^ 32)) times) ++ [ORewind (2 ^ 32); OCount]) = Some (RInt 0).
Proof. vm_compute. done. Qed.

(** A manager of fewer than 10 slots keeps none free, and as many frames as slots look
    like none. *)
Definition fill (n : Z) : list op :=
  concat (map (fun k => [ORequest 100 (4096 * k); OAdd (ex_frame (4096 * k) k)]) (seqZ 1 n)).
Lemma sm_small_rings :
  map (fun n => last_reply n (fill n ++ [OCount])) (seqZ 1 9) = repeat (Some (RInt 0)) 9.
Proof. vm_compute. reflexivity. Qed.

End StreamManagerSpec.
