(* ===== verification/Nvram.v ===== *)
(** The NVRAM library [utils/nvram/src] (nvram.c, crc.c): variables of a flash
    partition, kept in a hash table of 257 chains and written back as one image.

    The state holds the open handle (the mapped bytes, the address they are
    mapped at, the table and the list of dead tuples), the global partition size
    and what the process owns: heap blocks, file descriptors, mappings.  Fields of
    the header and the tuples' text are bytes of the mapping; reads and writes
    outside it are undefined.  The machine is little-endian and its [char]
    unsigned, as on the processors this repository builds for.

    Whether a call of [malloc] or [realloc] fails, [ULONG_MAX], and what the
    system answers when the device is opened are parameters. *)

From Stdlib Require Import ZArith Lia Ascii String.
From stdpp Require Import base list list_numbers numbers.
From S2P Require Import Prelude CString.

Open Scope Z_scope.

Module Nvram.

(** * Data *)

(** A C string: its bytes before the NUL. *)
Abbreviation cstr := (list Z).

Definition str (s : string) : cstr :=
  map (fun c => Z.of_N (N_of_ascii c)) (list_ascii_of_string s).
Definition text (s : cstr) : string :=
  string_of_list_ascii (map (fun b => ascii_of_N (Z.to_N b)) s).

(** [struct nvram_tuple]; the list it is on gives the link. *)
Record tuple := mkTuple { name : cstr; value : option cstr }.

(** [struct nvram_handle] *)
Record handle := mkHandle {
  mmap : list Z;
  mmap_addr : Z;
  hlength : Z;
  offset : Z;
  nvram_hash : list (list tuple);
  nvram_dead : list tuple
}.
#[export] Instance eta_handle : Eta handle := fun h =>
  mkHandle (mmap h) (mmap_addr h) (hlength h) (offset h) (nvram_hash h) (nvram_dead h).

(** The process: the handle in use, the global [nvram_part_size], live heap
    blocks for tuples and for values, handles, descriptors and mappings, and
    the number of allocations so far. *)
Record state := mkState {
  hd : handle;
  part_size : Z;
  tuples : Z;
  values : Z;
  handles : Z;
  fds : Z;
  maps : Z;
  allocs : nat
}.
#[export] Instance eta_state : Eta state := fun s =>
  mkState (hd s) (part_size s) (tuples s) (values s) (handles s) (fds s) (maps s) (allocs s).

(** What the surroundings decide. *)
Record env := mkEnv {
  oom : nat -> bool;
  ulong_max : Z
}.

Definition NVRAM_MAGIC : Z := 1213418566.
Definition NVRAM_VERSION : Z := 1.
Definition NVRAM_MIN_SPACE : Z := 32768.
Definition NVRAM_CRC_START_POSITION : Z := 9.
Definition NVRAM_ARRAYSIZE : nat := 257.
Definition sizeof_header : Z := 20.
Definition ENOMEM : Z := -12.

Definition SDRAM_INIT : Z := 1049.
Definition SDRAM_CONFIG : Z := 0.
(** [SDRAM_REF(0x40)] *)
Definition SDRAM_REFRESH : Z := Z.lor (Z.land 64 255) 32768.

Definition NVRAM_ROUNDUP (x y : Z) : Z := (x + (y - 1)) / y * y.

(** * The checksum *)

Definition crc8_table : list Z :=
  [ 0; 247; 185; 78; 37; 210; 156; 107; 74; 189; 243; 4; 111; 152; 214; 33;
    148; 99; 45; 218; 177; 70; 8; 255; 222; 41; 103; 144; 251; 12; 66; 181;
    127; 136; 198; 49; 90; 173; 227; 20; 53; 194; 140; 123; 16; 231; 169; 94;
    235; 28; 82; 165; 206; 57; 119; 128; 161; 86; 24; 239; 132; 115; 61; 202;
    254; 9; 71; 176; 219; 44; 98; 149; 180; 67; 13; 250; 145; 102; 40; 223;
    106; 157; 211; 36; 79; 184; 246; 1; 32; 215; 153; 110; 5; 242; 188; 75;
    129; 118; 56; 207; 164; 83; 29; 234; 203; 60; 114; 133; 238; 25; 87; 160;
    21; 226; 172; 91; 48; 199; 137; 126; 95; 168; 230; 17; 122; 141; 195; 52;
    171; 92; 18; 229; 142; 121; 55; 192; 225; 22; 88; 175; 196; 51; 125; 138;
    63; 200; 134; 113; 26; 237; 163; 84; 117; 130; 204; 59; 80; 167; 233; 30;
    212; 35; 109; 154; 241; 6; 72; 191; 158; 105; 39; 208; 187; 76; 2; 245;
    64; 183; 249; 14; 101; 146; 220; 43; 10; 253; 179; 68; 47; 216; 150; 97;
    85; 162; 236; 27; 112; 135; 201; 62; 31; 232; 166; 81; 58; 205; 131; 116;
    193; 54; 120; 143; 228; 19; 93; 170; 139; 124; 50; 197; 174; 89; 23; 224;
    42; 221; 147; 100; 15; 248; 182; 65; 96; 151; 217; 46; 69; 178; 252; 11;
    190; 73; 7; 240; 155; 108; 34; 213; 244; 3; 77; 186; 209; 38; 104; 159 ].

(** [hndcrc8]: the loop over the bytes. *)
Definition crc8_step (crc b : Z) : Z := nth (Z.to_nat (Z.land (Z.lxor crc b) 255)) crc8_table 0.
Definition hndcrc8 (pdata : list Z) (crc : Z) : Z := fold_left crc8_step pdata crc.

(** * The hash table *)

Definition hash (s : cstr) : Z := fold_left (fun h c => u32 (31 * h + c)) s 0.
Definition bucket (s : cstr) : nat := Z.to_nat (hash s mod Z.of_nat NVRAM_ARRAYSIZE).

(** [strcmp(t->name, name)] in the searches. *)
Definition named (n : cstr) (t : tuple) : bool := bool_decide (name t = n).

(** The tuple the search stops at, stored again or taken off its list. *)
Fixpoint replace (n : cstr) (u : tuple) (l : list tuple) : list tuple :=
  match l with
  | [] => []
  | t :: l => if named n t then u :: l else t :: replace n u l
  end.
Fixpoint unlink (n : cstr) (l : list tuple) : list tuple :=
  match l with
  | [] => []
  | t :: l => if named n t then l else t :: unlink n l
  end.

Definition chain (i : nat) : M state (list tuple) := s ← get; lift (nvram_hash (hd s) !! i).
Definition set_chain (i : nat) (l : list tuple) : M state unit :=
  modify (fun s => s <| hd ::= fun h => h <| nvram_hash ::= <[i := l]> |> |>).

Definition nvram_get (n : option cstr) : M state (option cstr) :=
  match n with
  | None => mret None
  | Some n =>
      l ← chain (bucket n);
      mret (match find (named n) l with Some t => value t | None => None end)
  end.

Definition nvram_unset (n : option cstr) : M state Z :=
  match n with
  | None => mret 0
  | Some n =>
      l ← chain (bucket n);
      match find (named n) l with
      | Some t =>
          set_chain (bucket n) (unlink n l);;
          modify (fun s => s <| hd ::= fun h => h <| nvram_dead ::= cons t |> |>);;
          mret 0
      | None => mret 0
      end
  end.

(** [_nvram_free]: the tuples of the table and of the dead list; the blocks of
    their values are not freed. *)
Definition nvram_free : M state unit :=
  modify (fun s => s
    <| tuples ::= fun n => n - Z.of_nat (length (concat (nvram_hash (hd s))))
                             - Z.of_nat (length (nvram_dead (hd s))) |>
    <| hd ::= fun h => h <| nvram_hash := repeat [] NVRAM_ARRAYSIZE |> <| nvram_dead := [] |> |>).

Section environment.
Context (E : env).

(** A call of the allocator. *)
Definition alloc : M state bool :=
  s ← get; modify (fun s => s <| allocs ::= S |>);; mret (negb (oom E (allocs s))).

(** The new value of a tuple: [realloc] returns null on failure and the block it
    was given is lost, since the pointer to it is overwritten. *)
Definition realloc_value (t : tuple) (v : cstr) : M state (tuple * bool) :=
  if bool_decide (value t = Some v) then mret (t, true)
  else
    ok ← alloc;
    if (ok : bool) then
      (match value t with
       | None => modify (fun s => s <| values ::= Z.add 1 |>)
       | Some _ => mret tt
       end);;
      mret (mkTuple (name t) (Some v), true)
    else mret (mkTuple (name t) None, false).

(** [_nvram_realloc]: the tuple as the call leaves it, and whether the call
    returns it rather than null. *)
Definition nvram_realloc (t : option tuple) (n v : cstr) : M state (option tuple * bool) :=
  s ← get;
  if Z.of_nat (length v) + 1 >? u32 (hlength (hd s) - offset (hd s)) then mret (t, false)
  else
    t ← (match t with
         | Some t => mret (Some t)
         | None =>
             ok ← alloc;
             if (ok : bool) then
               modify (fun s => s <| tuples ::= Z.add 1 |>);; mret (Some (mkTuple n None))
             else mret None
         end);
    match t with
    | None => mret (None, false)
    | Some t => r ← realloc_value t v; mret (Some r.1, r.2)
    end.

(** [nvram_set].  A tuple that was found is returned by [_nvram_realloc] itself
    ([t == u]), so it stays in its place. *)
Definition nvram_set (n v : cstr) : M state Z :=
  l ← chain (bucket n);
  let t := find (named n) l in
  r ← nvram_realloc t n v;
  match t, r with
  | Some _, (Some u, ok) =>
      set_chain (bucket n) (replace n u l);; mret (if (ok : bool) then 0 else ENOMEM)
  | None, (Some u, true) => set_chain (bucket n) (u :: l);; mret 0
  | _, _ => mret ENOMEM
  end.

(** [nvram_getall]: the copies made, the last one first.  A failing [malloc]
    ends the walk over one chain only. *)
Fixpoint copy_chain (l acc : list tuple) : M state (list tuple) :=
  match l with
  | [] => mret acc
  | t :: l =>
      ok ← alloc;
      if (ok : bool) then modify (fun s => s <| tuples ::= Z.add 1 |>);; copy_chain l (t :: acc)
      else mret acc
  end.
Fixpoint copy_chains (ls : list (list tuple)) (acc : list tuple) : M state (list tuple) :=
  match ls with
  | [] => mret acc
  | l :: ls => acc ← copy_chain l acc; copy_chains ls acc
  end.
Definition nvram_getall : M state (list tuple) :=
  s ← get; copy_chains (nvram_hash (hd s)) [].

(** * The mapped bytes *)

Definition load (pos n : Z) : M state (list Z) :=
  s ← get;
  let m := mmap (hd s) in
  if (0 <=? pos) && (0 <=? n) && (pos + n <=? Z.of_nat (length m))
  then mret (take (Z.to_nat n) (drop (Z.to_nat pos) m)) else undef.

Definition store (pos : Z) (l : list Z) : M state unit :=
  s ← get;
  let m := mmap (hd s) in
  if (0 <=? pos) && (pos + Z.of_nat (length l) <=? Z.of_nat (length m))
  then modify (fun s => s <| hd ::= fun h => h <| mmap ::= list_inserts (Z.to_nat pos) l |> |>)
  else undef.

(** Little-endian 32-bit fields. *)
Definition le32 (x : Z) : list Z :=
  [u8 x; u8 (Z.shiftr x 8); u8 (Z.shiftr x 16); u8 (Z.shiftr x 24)].
Definition word (l : list Z) : Z := foldr (fun b n => b + 256 * n) 0 l.

Definition load32 (pos : Z) : M state Z := l ← load pos 4; mret (word l).
Definition store32 (pos x : Z) : M state unit := store pos (le32 x).

(** [memset(ptr, b, n)] with a [size_t] count. *)
Definition memset (pos b n : Z) : M state unit :=
  if 0 <=? n then store pos (repeat b (Z.to_nat n)) else undef.

(** The C string at the front of some bytes, if there is a NUL. *)
Fixpoint cstring (l : list Z) : option cstr :=
  match l with
  | [] => None
  | b :: l => if b =? 0 then Some [] else s ← cstring l; Some (b :: s)
  end.

Definition string_at (pos : Z) : M state cstr :=
  s ← get;
  if 0 <=? pos then lift (cstring (drop (Z.to_nat pos) (mmap (hd s)))) else undef.

(** The text before and after the first ['=']. *)
Fixpoint split_eq (s : cstr) : option (cstr * cstr) :=
  match s with
  | [] => None
  | b :: s => if b =? 61 then Some ([], s)
              else p ← split_eq s; Some (b :: p.1, p.2)
  end.

(** Fields of the header, from its position. *)
Definition f_magic (header : Z) : Z := header.
Definition f_len (header : Z) : Z := header + 4.
Definition f_crc_ver_init (header : Z) : Z := header + 8.
Definition f_config_refresh (header : Z) : Z := header + 12.
Definition f_config_ncdl (header : Z) : Z := header + 16.

(** [nvram_header] *)
Definition nvram_header : M state Z := gets (fun s => offset (hd s)).

(** * Reading the image *)

(** The loop over ["name=value"] strings.  Each round but the last passes a
    string, so the size of the mapping bounds the rounds.  (The ['='] is
    overwritten during [nvram_set] and restored.) *)
Fixpoint rehash_loop (fuel : nat) (pos : Z) : M state unit :=
  match fuel with
  | O => undef
  | S fuel =>
      t ← string_at pos;
      match t with
      | [] => mret tt
      | _ =>
          match split_eq t with
          | None => mret tt
          | Some (n, v) => _ ← nvram_set n v; rehash_loop fuel (pos + Z.of_nat (length t) + 1)
          end
      end
  end.

(** [k] upper-case hexadecimal digits *)
Definition hex_digit (d : Z) : Z := if d <? 10 then 48 + d else 55 + d.
Fixpoint hex (k : nat) (n : Z) : cstr :=
  match k with
  | O => []
  | S k => (hex k (n / 16) ++ [hex_digit (n mod 16)])%list
  end.
(** ["0x%04X"] and ["0x%08X"] *)
Definition print_hex (k : nat) (n : Z) : cstr := (str "0x" ++ hex k n)%list.

(** [if (!nvram_get(h, n)) { sprintf(buf, ...); nvram_set(h, n, buf); }] *)
Definition set_default (n : cstr) (v : M state cstr) : M state unit :=
  g ← nvram_get (Some n);
  match g with
  | Some _ => mret tt
  | None => v ← v; _ ← nvram_set n v; mret tt
  end.

Definition nvram_rehash : M state Z :=
  header ← nvram_header;
  nvram_free;;
  s ← get;
  rehash_loop (S (length (mmap (hd s)))) (header + sizeof_header);;
  set_default (str "sdram_init")
    (x ← load32 (f_crc_ver_init header); mret (print_hex 4 (u16 (Z.shiftr x 16))));;
  set_default (str "sdram_config")
    (x ← load32 (f_config_refresh header); mret (print_hex 4 (u16 (Z.land x 65535))));;
  set_default (str "sdram_refresh")
    (x ← load32 (f_config_refresh header);
     mret (print_hex 4 (u16 (Z.land (Z.shiftr x 16) 65535))));;
  set_default (str "sdram_ncdl")
    (x ← load32 (f_config_ncdl header); mret (print_hex 8 x));;
  mret 0.

(** * Writing the image *)

(** [strtoul(s, NULL, 0)] *)
Definition number (s : cstr) : Z :=
  match CString.strtoul (ulong_max E) 0 (text s) with Some (n, _) => n | None => 0 end.

(** One chain, and all of them: the position after the last tuple written.  A
    tuple that does not fit ends its chain.  [strlen] of a null value is
    undefined. *)
Fixpoint write_chain (stop : Z) (l : list tuple) (ptr : Z) : M state Z :=
  match l with
  | [] => mret ptr
  | t :: l =>
      v ← lift (value t);
      if ptr + Z.of_nat (length (name t)) + 1 + Z.of_nat (length v) + 1 >? stop then mret ptr
      else
        store ptr (name t ++ 61 :: v ++ [0])%list;;
        write_chain stop l (ptr + Z.of_nat (length (name t) + 1 + length v) + 1)
  end.
Fixpoint write_chains (stop : Z) (ls : list (list tuple)) (ptr : Z) : M state Z :=
  match ls with
  | [] => mret ptr
  | l :: ls => ptr ← write_chain stop l ptr; write_chains stop ls ptr
  end.

(** The SDRAM fields of the header, from the variables or from the defaults.
    ([SDRAM_REFRESH << 16] sets the sign bit of an [int]; it is taken to wrap, as
    GCC defines it.) *)
Definition write_sdram (header : Z) : M state unit :=
  init ← nvram_get (Some (str "sdram_init"));
  config ← nvram_get (Some (str "sdram_config"));
  refresh ← nvram_get (Some (str "sdram_refresh"));
  ncdl ← nvram_get (Some (str "sdram_ncdl"));
  x ← load32 (f_crc_ver_init header);
  match init, config, refresh, ncdl with
  | Some init, Some config, Some refresh, Some ncdl =>
      store32 (f_crc_ver_init header)
        (u32 (Z.lor x (Z.shiftl (Z.land (number init) 65535) 16)));;
      store32 (f_config_refresh header)
        (u32 (Z.lor (Z.land (number config) 65535)
                    (Z.shiftl (Z.land (number refresh) 65535) 16)));;
      store32 (f_config_ncdl header) (u32 (number ncdl))
  | _, _, _, _ =>
      store32 (f_crc_ver_init header) (u32 (Z.lor x (Z.shiftl SDRAM_INIT 16)));;
      store32 (f_config_refresh header) (u32 (Z.lor SDRAM_CONFIG (Z.shiftl SDRAM_REFRESH 16)));;
      store32 (f_config_ncdl header) 0
  end.

(** The end of the tuples: a NUL, and zeros up to a multiple of four in the
    address seen as an [int]; the position behind. *)
Definition terminate (ptr : Z) : M state Z :=
  store ptr [0];;
  s ← get;
  let ptr := ptr + 1 in
  let r := Z.rem (s32 (mmap_addr (hd s) + ptr)) 4 in
  (if negb (r =? 0) then memset ptr 0 (4 - r) else mret tt);;
  mret (ptr + 1).

(** The checksum over the last bytes of the header and the data. *)
Definition checksum (header len : Z) : M state Z :=
  tmp ← load (header + NVRAM_CRC_START_POSITION) (sizeof_header - NVRAM_CRC_START_POSITION);
  data ← load (header + sizeof_header) (len - sizeof_header);
  mret (hndcrc8 data (hndcrc8 tmp 255)).

Definition nvram_commit : M state Z :=
  header ← nvram_header;
  store32 (f_magic header) NVRAM_MAGIC;;
  store32 (f_crc_ver_init header) (Z.shiftl NVRAM_VERSION 8);;
  write_sdram header;;
  s ← get;
  let ptr := header + sizeof_header in
  memset ptr 255 (part_size s - header - sizeof_header);;
  ptr ← write_chains (part_size s - 2) (nvram_hash (hd s)) ptr;
  ptr ← terminate ptr;
  let len := u32 (NVRAM_ROUNDUP (ptr - header) 4) in
  store32 (f_len header) len;;
  crc ← checksum header len;
  x ← load32 (f_crc_ver_init header);
  store32 (f_crc_ver_init header) (Z.lor x crc);;
  nvram_rehash.

(** * Opening and closing *)

(** What the system answers: the text of [/proc/mtd] if it can be read, the
    [st_mode] of a path if [stat] succeeds, whether [open] of the file or the
    device node succeeds, and the bytes and the address of a mapping of so many
    bytes of it, unless that fails. *)
Record device := mkDevice {
  proc_mtd : option (list Z);
  node : cstr -> option Z;
  can_open : bool;
  mapping : Z -> option (list Z * Z)
}.

Definition PATH_MAX : nat := Z.to_nat 4096.
Definition S_IFBLK : Z := 24576.

(** [fgets] with room for [k] characters: the line, its newline included, and
    what is left of the file. *)
Fixpoint fgets (k : nat) (l : list Z) : cstr * list Z :=
  match k, l with
  | S k, b :: l =>
      if b =? 10 then ([b], l) else let '(x, r) := fgets k l in (b :: x, r)
  | _, _ => ([], l)
  end.

(** [strstr(s, t) != NULL] *)
Fixpoint starts_with (t s : cstr) : option cstr :=
  match t, s with
  | [], _ => Some s
  | a :: t, b :: s => if a =? b then starts_with t s else None
  | _ :: _, [] => None
  end.
Fixpoint strstr (s t : cstr) : bool :=
  match starts_with t s with
  | Some _ => true
  | None => match s with [] => false | _ :: s => strstr s t end
  end.

(** [sscanf]: white space, a sign, and digits, at least one. *)
Definition is_space (b : Z) : bool := (b =? 32) || ((9 <=? b) && (b <=? 13)).
Fixpoint skip_spaces (s : cstr) : cstr :=
  match s with
  | b :: t => if is_space b then skip_spaces t else s
  | [] => []
  end.
Definition scan_sign (s : cstr) : bool * cstr :=
  match s with
  | b :: t => if b =? 45 then (true, t) else if b =? 43 then (false, t) else (false, s)
  | [] => (false, s)
  end.
Definition digit_of (b : Z) : Z := CString.digit (ascii_of_N (Z.to_N b)).
Fixpoint scan_digits (base : Z) (s : cstr) (n : Z) (some : bool) : option (Z * cstr) :=
  match s with
  | b :: t => if digit_of b <? base then scan_digits base t (n * base + digit_of b) true
              else if some then Some (n, s) else None
  | [] => if some then Some (n, s) else None
  end.

(** ["%d"] *)
Definition scan_d (s : cstr) : option (Z * cstr) :=
  let '(neg, t) := scan_sign (skip_spaces s) in
  '(n, r) ← scan_digits 10 t 0 false; Some (if (neg : bool) then - n else n, r).

(** ["%08x"]: of eight characters at most, a sign and a prefix [0x] among them. *)
Definition scan_08x (s : cstr) : option Z :=
  let '(neg, t) := scan_sign (take 8 (skip_spaces s)) in
  let t := match t with
           | 48 :: x :: t' => if (x =? 120) || (x =? 88) then t' else t
           | _ => t
           end in
  '(n, _) ← scan_digits 16 t 0 false; Some (u32 (if (neg : bool) then - n else n)).

(** [sscanf(dev, "mtd%d: %08x", &i, &part_size)]: none, one or both values. *)
Definition scan_mtd (dev : cstr) : option (Z * option Z) :=
  t ← starts_with (str "mtd") dev;
  '(i, t) ← scan_d t;
  Some (i, t ← starts_with (str ":") t; scan_08x t).

(** ["/dev/mtdblock%d"] *)
Definition print_i (n : Z) : cstr :=
  if n <? 0 then 45 :: str (CString.print_u (- n)) else str (CString.print_u n).
Definition mtdblock (i : Z) : cstr := (str "/dev/mtdblock" ++ print_i i)%list.

Definition block_node (d : device) (path : cstr) : bool :=
  match node d path with Some mode => negb (Z.land mode S_IFBLK =? 0) | None => false end.

(** The loop over the lines; every line has a character, so the size of the
    file bounds the rounds.  [size] is the variable [part_size], which a line
    with one number only leaves as it is; it is not initialised.  A number that
    is no [int] is undefined for [%d]. *)
Fixpoint mtd_loop (d : device) (fuel : nat) (l : list Z) (size : option Z) : M state (option cstr) :=
  match fuel with
  | O => undef
  | S fuel =>
      match fgets (PATH_MAX - 1) l with
      | ([], _) => mret None
      | (dev, l) =>
          if strstr dev (str "nvram") then
            match scan_mtd dev with
            | None => mtd_loop d fuel l size
            | Some (i, n) =>
                if negb (in_s32 i) then undef
                else
                  let size := match n with Some n => Some n | None => size end in
                  n ← lift size;
                  modify (fun s => s <| part_size := n |>);;
                  if block_node d (mtdblock i) then
                    ok ← alloc;
                    if (ok : bool) then mret (Some (mtdblock i)) else mtd_loop d fuel l size
                  else mtd_loop d fuel l size
            end
          else mtd_loop d fuel l size
      end
  end.

Definition nvram_find_mtd (d : device) : M state (option cstr) :=
  match proc_mtd d with
  | None => mret None
  | Some l => mtd_loop d (S (length l)) l None
  end.

(** The search for the magic number, from word [i] up to the word [last]; a
    read behind the mapping is undefined. *)
Fixpoint find_magic (l : list Z) (last i : Z) : M state (option Z) :=
  if last <? i then mret None
  else
    match l with
    | a :: b :: c :: d :: l =>
        if word [a; b; c; d] =? NVRAM_MAGIC then mret (Some (i * 4)) else find_magic l last (i + 1)
    | _ => undef
    end.

Definition nvram_open (d : device) (file rdonly : bool) : M state bool :=
  s ← get;
  ok ← (if (part_size s =? 0) || negb file then
          p ← nvram_find_mtd d;
          s ← get; mret (bool_decide (is_Some p) && negb (part_size s =? 0))
        else mret true);
  if negb ok then mret false
  else if negb (can_open d) then mret false
  else
    modify (fun s => s <| fds ::= Z.add 1 |>);;
    s ← get;
    match mapping d (part_size s) with
    | None => mret false
    | Some (bytes, addr) =>
        modify (fun s => s <| maps ::= Z.add 1 |>);;
        o ← find_magic bytes (u32 (part_size s - NVRAM_MIN_SPACE) / 4) 0;
        match o with
        | None => mret false
        | Some off =>
            ok ← alloc;
            if negb ok then mret false
            else
              modify (fun s => s <| handles ::= Z.add 1 |>
                <| hd := mkHandle bytes addr (part_size s) off (repeat [] NVRAM_ARRAYSIZE) [] |>);;
              magic ← load32 (f_magic off);
              len ← load32 (f_len off);
              s ← get;
              if (magic =? NVRAM_MAGIC)
                 && (rdonly || (len <? u32 (hlength (hd s) - offset (hd s))))
              then _ ← nvram_rehash; mret true
              else
                modify (fun s => s <| maps ::= Z.add (-1) |> <| handles ::= Z.add (-1) |>);;
                mret false
        end
    end.

Definition nvram_close : M state Z :=
  nvram_free;;
  modify (fun s => s <| maps ::= Z.add (-1) |> <| fds ::= Z.add (-1) |>
                     <| handles ::= Z.add (-1) |>);;
  mret 0.

End environment.
End Nvram.
