(* ===== verification/NvramSpec.v ===== *)
(** The NVRAM variables as a finite map: [nvram_get], [nvram_set], [nvram_unset]
    and [nvram_getall] on the hash table behave as the operations of the map, and
    the checksum of the image is the one of its polynomial. *)

From Stdlib Require Import ZArith Lia Ascii String.
From stdpp Require Import base list list_numbers numbers gmap sets.
From S2P Require Import Prelude CString Nvram.

Open Scope list_scope.
Open Scope Z_scope.

Module NvramSpec.
Import Nvram.

(** * The checksum *)

(** One bit of the division by x^8 + x^7 + x^6 + x^4 + x^2 + 1, least
    significant bit first: 171 is the polynomial without its highest term, with
    the bits in reverse. *)
Definition crc_bit (c : Z) : Z := if Z.odd c then Z.lxor (Z.shiftr c 1) 171 else Z.shiftr c 1.
Definition crc_byte (c b : Z) : Z := Nat.iter 8 crc_bit (Z.lxor c b).

Definition byte (b : Z) : Prop := 0 <= b < 256.

Lemma lxor_byte a b : byte a -> byte b -> byte (Z.lxor a b).
Proof.
  intros Ha Hb. unfold byte in *.
  assert (forall x, 0 <= x < 256 -> forall n, 8 <= n -> Z.testbit x n = false) as T.
  { intros x Hx n Hn. destruct (decide (x = 0)) as [->|]; [apply Z.testbit_0_l|].
    apply Z.bits_above_log2; [lia|]. apply Z.lt_le_trans with 8; [|done]. apply Z.log2_lt_pow2; lia. }
  assert (0 <= Z.lxor a b) by (apply Z.lxor_nonneg; lia). split; [done|].
  destruct (decide (Z.lxor a b = 0)) as [->|]; [lia|].
  change 256 with (2 ^ 8). apply Z.log2_lt_pow2; [lia|].
  destruct (Z.lt_ge_cases (Z.log2 (Z.lxor a b)) 8) as [|Hge]; [done|].
  pose proof (Z.bit_log2 (Z.lxor a b) ltac:(lia)) as B.
  rewrite Z.lxor_spec, !T in B by (done || lia). done.
Qed.

Lemma land_byte b : byte b -> Z.land b 255 = b.
Proof. intros H. change 255 with (Z.ones 8). rewrite Z.land_ones by lia. by apply Z.mod_small. Qed.

Definition table_at (i : Z) : Z := nth (Z.to_nat i) crc8_table 0.

(** The table is eight steps of the division, and a permutation of the bytes. *)
Lemma table_bits i : byte i -> table_at i = Nat.iter 8 crc_bit i.
Proof.
  intros H. apply Z.eqb_eq.
  by apply (byte_cases (fun i => table_at i =? Nat.iter 8 crc_bit i)); [vm_compute|].
Qed.

Lemma table_byte i : byte i -> byte (table_at i).
Proof.
  intros H. assert ((0 <=? table_at i) && (table_at i <? 256) = true); [|unfold byte; lia].
  by apply (byte_cases (fun i => (0 <=? table_at i) && (table_at i <? 256))); [vm_compute|].
Qed.

(** The position of a value in the table. *)
Definition untable (c : Z) : Z :=
  match find (fun k => table_at (Z.of_nat k) =? c) (seq 0 256) with
  | Some k => Z.of_nat k
  | None => -1
  end.

Lemma untable_table i : byte i -> untable (table_at i) = i.
Proof.
  intros H. apply Z.eqb_eq.
  by apply (byte_cases (fun i => untable (table_at i) =? i)); [vm_compute|].
Qed.

Lemma table_inj i j : byte i -> byte j -> table_at i = table_at j -> i = j.
Proof. intros Hi Hj E. rewrite <- (untable_table i), <- (untable_table j) by done. by rewrite E. Qed.

Lemma step_table c b : byte c -> byte b -> crc8_step c b = table_at (Z.lxor c b).
Proof. intros Hc Hb. unfold crc8_step. by rewrite land_byte by by apply lxor_byte. Qed.

Lemma step_byte c b : byte c -> byte b -> byte (crc8_step c b).
Proof. intros Hc Hb. rewrite step_table by done. by apply table_byte, lxor_byte. Qed.

Lemma hndcrc8_byte d : forall c, Forall byte d -> byte c -> byte (hndcrc8 d c).
Proof.
  induction d as [|b d IH]; intros c Hd Hc; [done|]. apply Forall_cons_1 in Hd as [Hb Hd].
  simpl. apply IH; [done|]. by apply step_byte.
Qed.

Lemma lxor_cancel_l c a b : Z.lxor c a = Z.lxor c b -> a = b.
Proof.
  intros E. assert (Z.lxor c (Z.lxor c a) = Z.lxor c (Z.lxor c b)) as H by by rewrite E.
  by rewrite <- !Z.lxor_assoc, !Z.lxor_nilpotent, !Z.lxor_0_l in H.
Qed.

Lemma hndcrc8_inj d : forall c c', Forall byte d -> byte c -> byte c' ->
  hndcrc8 d c = hndcrc8 d c' -> c = c'.
Proof.
  induction d as [|b d IH]; intros c c' Hd Hc Hc' E; [done|].
  apply Forall_cons_1 in Hd as [Hb Hd]. simpl in E.
  apply IH in E; [|done|by apply step_byte..].
  rewrite !step_table in E by done. apply table_inj in E; [|by apply lxor_byte..].
  rewrite !(Z.lxor_comm _ b) in E. by apply lxor_cancel_l in E.
Qed.

(** The table-driven checksum of the image is the bit-wise division by the
    polynomial that crc.c documents. *)
Theorem nvram_crc8_bitwise pdata crc :
  Forall byte pdata -> byte crc -> hndcrc8 pdata crc = fold_left crc_byte pdata crc.
Proof.
  revert crc. induction pdata as [|b d IH]; intros c Hd Hc; [done|].
  apply Forall_cons_1 in Hd as [Hb Hd]. simpl. rewrite <- IH; [|done|].
  - f_equal. rewrite step_table by done. by apply table_bits, lxor_byte.
  - unfold crc_byte. rewrite <- table_bits by by apply lxor_byte. by apply table_byte, lxor_byte.
Qed.

Lemma nvram_crc8_bitwise_witness :
  hndcrc8 (str "sdram_ncdl=0x0001") 255 = fold_left crc_byte (str "sdram_ncdl=0x0001") 255.
Proof.
  apply nvram_crc8_bitwise; [|unfold byte; lia]. vm_compute. repeat constructor; discriminate.
Defined.

(** the checksum detects every change confined to one byte of the data,
    whatever stands before and after it. *)
Theorem nvram_crc8_detects d1 a b d2 crc :
  Forall byte (d1 ++ a :: d2) -> byte b -> byte crc -> a <> b ->
  hndcrc8 (d1 ++ a :: d2) crc <> hndcrc8 (d1 ++ b :: d2) crc.
Proof.
  intros Hd Hb Hc Hab E. apply Forall_app in Hd as [H1 Hd]. apply Forall_cons_1 in Hd as [Ha H2].
  unfold hndcrc8 in E. rewrite !fold_left_app in E. simpl in E.
  pose proof (hndcrc8_byte d1 crc H1 Hc) as Hm.
  apply hndcrc8_inj in E; [|done|by apply step_byte..].
  rewrite !step_table in E by done. apply table_inj in E; [|by apply lxor_byte..].
  by apply lxor_cancel_l in E.
Qed.

Lemma nvram_crc8_detects_witness :
  hndcrc8 (str "boot_wait=on") 255 <> hndcrc8 (str "boot_wait=oN") 255.
Proof.
  apply (nvram_crc8_detects (str "boot_wait=o") 110 78 [] 255); [|unfold byte; lia..|discriminate].
  vm_compute. repeat constructor; discriminate.
Defined.

(** * Chains *)

(** The value a chain gives to a name. *)
Definition cget (n : cstr) (l : list tuple) : option cstr := find (named n) l ≫= value.

Lemma named_true n t : named n t = true <-> name t = n.
Proof. unfold named. by rewrite bool_decide_eq_true. Qed.

Lemma find_named n l t : find (named n) l = Some t -> t ∈ l /\ name t = n.
Proof. intros H. apply find_some in H as [H1 H2]. split; [by apply list_elem_of_In|by apply named_true]. Qed.

Lemma find_absent n l : find (named n) l = None <-> n ∉ map name l.
Proof.
  split.
  - intros H Hn. apply list_elem_of_fmap in Hn as (t & -> & Ht).
    pose proof (find_none _ _ H t ltac:(by apply list_elem_of_In)) as F.
    unfold named in F. by rewrite bool_decide_eq_false in F.
  - intros H. destruct (find _ l) as [t|] eqn:Ef; [|done]. apply find_named in Ef as [Ht <-].
    destruct H. by apply list_elem_of_fmap_2.
Qed.

Section chains.
Context (n : cstr) (u : tuple) (Hu : name u = n).

Lemma replace_names l : map name (replace n u l) = map name l.
Proof using Hu.
  induction l as [|t l IH]; simpl; [done|]. destruct (named n t) eqn:En; simpl; [|by rewrite IH].
  apply named_true in En. congruence.
Qed.

Lemma find_replace m l t : find (named n) l = Some t ->
  find (named m) (replace n u l) = if decide (m = n) then Some u else find (named m) l.
Proof using Hu.
  induction l as [|x l IH]; simpl; [done|]. destruct (named n x) eqn:En; intros Ht.
  - simpl. apply named_true in En. destruct (decide (m = n)) as [->|Hm].
    + by rewrite (proj2 (named_true n u) Hu).
    + replace (named m u) with false; [replace (named m x) with false; [done|]|];
        symmetry; apply bool_decide_eq_false; congruence.
  - simpl. rewrite (IH Ht). destruct (decide (m = n)) as [->|]; [by rewrite En|done].
Qed.

Lemma replace_forall (P : tuple -> Prop) l : Forall P l -> P u -> Forall P (replace n u l).
Proof using.
  intros H Pu. induction H as [|t l Ht Hl IH]; simpl; [constructor|].
  destruct (named n t); by constructor.
Qed.
End chains.

Lemma unlink_sublist n l : sublist (unlink n l) l.
Proof.
  induction l as [|t l IH]; simpl; [constructor|]. destruct (named n t); by constructor.
Qed.

Lemma unlink_forall (P : tuple -> Prop) n l : Forall P l -> Forall P (unlink n l).
Proof.
  intros H. induction H as [|t l Ht Hl IH]; simpl; [constructor|]. destruct (named n t); by try constructor.
Qed.

Lemma find_unlink n m l : NoDup (map name l) ->
  find (named m) (unlink n l) = if decide (m = n) then None else find (named m) l.
Proof.
  induction l as [|t l IH]; simpl; intros H; [by destruct (decide _)|].
  apply list.NoDup_cons in H as [Ht H]. destruct (named n t) eqn:En.
  - apply named_true in En as <-. destruct (decide (m = name t)) as [->|Hm].
    + by apply find_absent.
    + by replace (named m t) with false by (symmetry; apply bool_decide_eq_false; congruence).
  - simpl. rewrite (IH H). destruct (decide (m = n)) as [->|]; [by rewrite En|done].
Qed.

Lemma unlink_names n l : NoDup (map name l) -> NoDup (map name (unlink n l)).
Proof. intros H. eapply sublist_NoDup; [exact H|]. apply fmap_sublist, unlink_sublist. Qed.

(** * The table *)

(** A chain holds names of its bucket, each once, with a value. *)
Definition chain_ok (i : nat) (l : list tuple) : Prop :=
  NoDup (map name l) /\ Forall (fun t => bucket (name t) = i /\ is_Some (value t)) l.

Definition table_ok (tb : list (list tuple)) : Prop :=
  length tb = NVRAM_ARRAYSIZE /\ forall i l, tb !! i = Some l -> chain_ok i l.

Definition tget (tb : list (list tuple)) (n : cstr) : option cstr := tb !! bucket n ≫= cget n.

Lemma bucket_bound n : (bucket n < NVRAM_ARRAYSIZE)%nat.
Proof.
  unfold bucket. change (Z.of_nat NVRAM_ARRAYSIZE) with 257. unfold NVRAM_ARRAYSIZE.
  pose proof (Z.mod_pos_bound (hash n) 257 ltac:(lia)). lia.
Qed.

Lemma table_chain tb n : table_ok tb -> exists l, tb !! bucket n = Some l /\ chain_ok (bucket n) l.
Proof.
  intros [L H]. destruct (lookup_lt_is_Some_2 tb (bucket n)) as [l Hl].
  { rewrite L. apply bucket_bound. }
  eauto.
Qed.

Lemma table_ok_insert tb i l : table_ok tb -> chain_ok i l -> table_ok (<[i := l]> tb).
Proof.
  intros [L H] Hc. split; [by rewrite length_insert|]. intros j k Hj.
  destruct (decide (i = j)) as [->|Hn].
  - apply list_lookup_insert_Some in Hj. naive_solver.
  - rewrite list_lookup_insert_ne in Hj by done. eauto.
Qed.

(** Replacing the chain of [n] changes what the table says of [n] only. *)
Lemma tget_insert tb n m l l' v : table_ok tb -> tb !! bucket n = Some l ->
  (forall m, cget m l' = if decide (m = n) then v else cget m l) ->
  tget (<[bucket n := l']> tb) m = if decide (m = n) then v else tget tb m.
Proof.
  intros [L _] Hl H. unfold tget. destruct (decide (bucket n = bucket m)) as [Eb|Hb].
  - rewrite <- Eb, list_lookup_insert_eq, Hl by (rewrite L; apply bucket_bound).
    simpl. rewrite H. done.
  - rewrite list_lookup_insert_ne by done. destruct (decide (m = n)) as [->|]; done.
Qed.

Lemma empty_lookup i l : repeat (A := list tuple) [] NVRAM_ARRAYSIZE !! i = Some l -> l = [].
Proof.
  intros H. apply list_elem_of_lookup_2, list_elem_of_In in H. by apply repeat_spec in H.
Qed.

Lemma table_ok_empty : table_ok (repeat [] NVRAM_ARRAYSIZE).
Proof.
  split; [by rewrite repeat_length|]. intros i l ->%empty_lookup.
  split; constructor.
Qed.

Lemma tget_empty n : tget (repeat [] NVRAM_ARRAYSIZE) n = None.
Proof.
  unfold tget. destruct (_ !! _) as [l|] eqn:El; [|done]. by apply empty_lookup in El as ->.
Qed.

(** * The operations on the table *)

Definition tb (s : state) : list (list tuple) := nvram_hash (hd s).

(** The tuples the handle knows. *)
Definition known (s : state) : Z :=
  Z.of_nat (length (concat (tb s))) + Z.of_nat (length (nvram_dead (hd s))).

(** The mapping and the resources outside the table, which the operations on
    variables leave alone: every tuple the handle knows has one block, and one
    more for its value. *)
Definition same_rest (s s' : state) : Prop :=
  mmap (hd s') = mmap (hd s) /\ mmap_addr (hd s') = mmap_addr (hd s) /\
  hlength (hd s') = hlength (hd s) /\ offset (hd s') = offset (hd s) /\
  part_size s' = part_size s /\ handles s' = handles s /\ fds s' = fds s /\ maps s' = maps s /\
  tuples s' - known s' = tuples s - known s /\ values s' - known s' = values s - known s.

Lemma same_rest_refl s : same_rest s s.
Proof. by repeat split. Qed.
Lemma same_rest_trans s1 s2 s3 : same_rest s1 s2 -> same_rest s2 s3 -> same_rest s1 s3.
Proof. unfold same_rest. intros. destruct_and!. split_and!; congruence. Qed.

Lemma concat_insert {A} (ls : list (list A)) i l l' : ls !! i = Some l ->
  (length (concat (<[i := l']> ls)) + length l = length (concat ls) + length l')%nat.
Proof.
  revert i. induction ls as [|x ls IH]; intros [|i] H; simplify_eq/=; rewrite !length_app; [lia|].
  specialize (IH i H). lia.
Qed.

Lemma known_insert tb d i l l' : tb !! i = Some l ->
  Z.of_nat (length (concat (<[i := l']> tb))) + d =
    Z.of_nat (length (concat tb)) + d + (Z.of_nat (length l') - Z.of_nat (length (l : list tuple))).
Proof. intros H. pose proof (concat_insert tb i l l' H). lia. Qed.

Lemma unlink_length n l t : find (named n) l = Some t -> S (length (unlink n l)) = length l.
Proof.
  induction l as [|x l IH]; simpl; [done|]. destruct (named n x); [done|]. intros H. simpl. by rewrite IH.
Qed.

(** What a call leaves when it changes at most the value of [n]. *)
Definition updated (s s' : state) (n : cstr) (v : option cstr) : Prop :=
  same_rest s s' /\ table_ok (tb s') /\
  forall m, tget (tb s') m = if decide (m = n) then v else tget (tb s) m.

(** Room for one value: [h->length - h->offset]. *)
Definition room (s : state) : Z := u32 (hlength (hd s) - offset (hd s)).

Section operations.
Context (E : env) (Mem : forall k, oom E k = false).

Lemma twp_chain s n (Q : list tuple -> state -> Prop) : table_ok (tb s) ->
  (forall l, tb s !! bucket n = Some l -> chain_ok (bucket n) l -> Q l s) ->
  twp (chain (bucket n)) Q s.
Proof.
  intros T H. destruct (table_chain _ n T) as (l & Hl & Hc). unfold chain. do 2 twp_step.
  eapply twp_lift; [exact Hl|]. by apply H.
Qed.

Lemma get_ok s n : table_ok (tb s) -> nvram_get (Some n) s = Ok (tget (tb s) n) s.
Proof.
  intros T. destruct (table_chain _ n T) as (l & Hl & _). unfold nvram_get, chain, tget, cget.
  unfold mbind at 1 2, M_bind, get. unfold tb in *. rewrite Hl. simpl. by destruct (find _ l).
Qed.

Lemma unset_ok s n : table_ok (tb s) ->
  twp (nvram_unset (Some n)) (fun r s' => r = 0 /\ updated s s' n None) s.
Proof.
  intros T. unfold nvram_unset. twp_step. apply twp_chain; [done|]. intros l Hl [Nd Hf].
  destruct (find (named n) l) as [t|] eqn:Ef.
  - unfold set_chain. repeat twp_step. split; [done|]. split; [|split].
    + pose proof (concat_insert (tb s) _ l (unlink n l) Hl). pose proof (unlink_length _ _ _ Ef).
      unfold same_rest, known, tb in *. simpl. split_and!; try done; lia.
    + apply table_ok_insert; [done|]. split; [by apply unlink_names|].
      by apply unlink_forall.
    + intros m. apply (tget_insert _ n m l); [done..|]. intros m'.
      unfold cget. rewrite find_unlink by done. by destruct (decide (m' = n)).
  - repeat twp_step. split; [done|]. split; [apply same_rest_refl|]. split; [done|].
    intros m. destruct (decide (m = n)) as [->|]; [|done].
    unfold tget. rewrite Hl. simpl. unfold cget. by rewrite Ef.
Qed.

Lemma twp_alloc s (Q : bool -> state -> Prop) :
  Q true (s <| allocs ::= S |>) -> twp (alloc E) Q s.
Proof. intros H. eapply twp_intro; [reflexivity|]. by rewrite Mem. Qed.

(** [s'] has [k] more tuple blocks and [k'] more value blocks. *)
Definition grown (s s' : state) (k k' : Z) : Prop :=
  hd s' = hd s /\ part_size s' = part_size s /\ handles s' = handles s /\ fds s' = fds s /\
  maps s' = maps s /\ tuples s' = tuples s + k /\ values s' = values s + k'.

Lemma realloc_value_ok s t v (Q : tuple * bool -> state -> Prop) :
  (forall s', grown s s' 0 (match value t with Some _ => 0 | None => 1 end) ->
     Q (mkTuple (name t) (Some v), true) s') ->
  twp (realloc_value E t v) Q s.
Proof using Mem.
  intros H. destruct t as [n o]. unfold realloc_value. cbn [value name] in *.
  destruct (bool_decide _) eqn:Ed.
  - apply bool_decide_eq_true in Ed as ->. apply twp_ret, H. unfold grown. split_and!; done || lia.
  - twp_step. apply twp_alloc. destruct o; repeat twp_step; apply H; unfold grown; simpl;
      split_and!; done || lia.
Qed.

(** What [_nvram_realloc] gives for a tuple of the name or none. *)
Lemma realloc_ok s n v t (Q : option tuple * bool -> state -> Prop) :
  (forall t', t = Some t' -> name t' = n /\ is_Some (value t')) ->
  (Z.of_nat (length v) + 1 > room s -> Q (t, false) s) ->
  (Z.of_nat (length v) + 1 <= room s -> forall s',
     let k := match t with Some _ => 0 | None => 1 end in
     grown s s' k k -> Q (Some (mkTuple n (Some v)), true) s') ->
  twp (nvram_realloc E t n v) Q s.
Proof using Mem.
  intros Ht H1 H2. unfold nvram_realloc. twp_step. twp_step. fold (room s).
  destruct (Z.of_nat (length v) + 1 >? room s) eqn:Er; [apply twp_ret, H1; lia|].
  specialize (H2 ltac:(lia)). destruct t as [t'|]; twp_step.
  - destruct (Ht _ eq_refl) as [<- [v0 Hv]]. twp_step. cbv beta iota. twp_step.
    apply realloc_value_ok. rewrite Hv. intros s' G. twp_step. by apply H2.
  - twp_step. apply twp_alloc. cbv beta iota. do 3 twp_step. cbv beta iota. twp_step.
    apply realloc_value_ok. intros s' G. twp_step. apply H2.
    unfold grown in *. simpl in *. destruct_and!. split_and!; done || lia.
Qed.

Lemma cget_cons n v l m : cget m (mkTuple n (Some v) :: l) = if decide (m = n) then Some v else cget m l.
Proof.
  unfold cget. simpl. unfold named at 1. cbn [name]. destruct (decide (m = n)) as [->|].
  - by rewrite bool_decide_true.
  - by rewrite bool_decide_false.
Qed.

Lemma replace_same n t l : find (named n) l = Some t -> replace n t l = l.
Proof.
  induction l as [|x l IH]; simpl; [done|]. destruct (named n x); intros H; simplify_eq; [done|].
  by rewrite IH.
Qed.

Lemma replace_length n t l : length (replace n t l) = length l.
Proof. induction l as [|x l IH]; simpl; [done|]. destruct (named n x); simpl; by rewrite ?IH. Qed.

Lemma set_ok s n v : table_ok (tb s) ->
  twp (nvram_set E n v) (fun r s' =>
    if Z.of_nat (length v) + 1 <=? room s then r = 0 /\ updated s s' n (Some v)
    else r = ENOMEM /\ updated s s' n (tget (tb s) n)) s.
Proof using Mem.
  intros T. unfold nvram_set. twp_step. apply twp_chain; [done|]. intros l Hl [Nd Hf]. cbv beta zeta.
  twp_step. apply realloc_ok.
  - intros t Ht. apply find_named in Ht as [Ht <-]. split; [done|].
    apply (proj1 (List.Forall_forall _ _) Hf t), list_elem_of_In. done.
  - intros Hr. replace (_ <=? _) with false by lia.
    assert (forall s', tb s' = tb s -> same_rest s s' -> updated s s' n (tget (tb s) n)) as Same.
    { intros s' Et Hs. split; [done|]. rewrite Et. split; [done|]. intros m.
      by destruct (decide (m = n)) as [->|]. }
    destruct (find (named n) l) as [t|] eqn:Ef.
    + unfold set_chain. repeat twp_step. split; [done|]. rewrite (replace_same _ _ _ Ef).
      assert (tb (s <| hd ::= fun h => h <| nvram_hash ::= <[bucket n := l]> |> |>) = tb s) as Et
        by (unfold tb; simpl; by apply list_insert_id).
      apply Same; [done|]. unfold same_rest, known. rewrite Et. done.
    + apply twp_ret. split; [done|]. by apply Same; [|apply same_rest_refl].
  - intros Hr s1 k (Hh & Hp & Hh' & Hfd & Hm & Ht & Hv). subst k. replace (_ <=? _) with true by lia.
    destruct (find (named n) l) as [t|] eqn:Ef.
    + unfold set_chain. repeat twp_step. split; [done|].
      split.
      { unfold same_rest, known, tb. simpl. rewrite Hh, (known_insert _ _ _ l), replace_length by done.
        split_and!; try done; lia. }
      unfold tb. simpl. rewrite Hh. split.
      * apply table_ok_insert; [done|]. split; [by rewrite replace_names|].
        apply replace_forall; [done|]. simpl. split; [done|eauto].
      * intros m. apply (tget_insert _ n m l); [done..|]. intros m'. unfold cget.
        rewrite (find_replace n (mkTuple n (Some v)) eq_refl m' l t Ef). by destruct (decide _).
    + unfold set_chain. repeat twp_step. split; [done|].
      split.
      { unfold same_rest, known, tb. simpl. rewrite Hh, (known_insert _ _ _ l) by done. cbn [length].
        split_and!; try done; lia. }
      unfold tb. simpl. rewrite Hh. split.
      * apply table_ok_insert; [done|]. split.
        -- simpl. apply list.NoDup_cons. split; [by apply find_absent|done].
        -- constructor; [|done]. simpl. split; [done|eauto].
      * intros m. apply (tget_insert _ n m l); [done..|]. intros m'. apply cget_cons.
Qed.
End operations.

(** * The map *)

(** The handle represents the map [m]. *)
Definition rep (m : gmap cstr cstr) (s : state) : Prop :=
  table_ok (tb s) /\ forall n, m !! n = tget (tb s) n.

(** Calls of a client, their replies, and what they do to a map; [r] is the room
    for a value. *)
Inductive call :=
| Get (n : cstr)
| Set_ (n v : cstr)
| Unset (n : cstr).
Inductive reply :=
| Value (v : option cstr)
| Code (c : Z).

Definition exec (E : env) (c : call) : M state reply :=
  match c with
  | Get n => v ← nvram_get (Some n); mret (Value v)
  | Set_ n v => r ← nvram_set E n v; mret (Code r)
  | Unset n => r ← nvram_unset (Some n); mret (Code r)
  end.
Fixpoint exec_all (E : env) (cs : list call) : M state (list reply) :=
  match cs with
  | [] => mret []
  | c :: cs => r ← exec E c; rs ← exec_all E cs; mret (r :: rs)
  end.

Definition astep (r : Z) (m : gmap cstr cstr) (c : call) : gmap cstr cstr * reply :=
  match c with
  | Get n => (m, Value (m !! n))
  | Set_ n v => if Z.of_nat (length v) + 1 <=? r then (<[n := v]> m, Code 0) else (m, Code ENOMEM)
  | Unset n => (delete n m, Code 0)
  end.
Fixpoint asteps (r : Z) (m : gmap cstr cstr) (cs : list call) : gmap cstr cstr * list reply :=
  match cs with
  | [] => (m, [])
  | c :: cs =>
      let '(m, x) := astep r m c in
      let '(m, xs) := asteps r m cs in (m, x :: xs)
  end.

Lemma same_rest_room s s' : same_rest s s' -> room s' = room s.
Proof. unfold same_rest, room. intros. destruct_and!. congruence. Qed.

Lemma rep_updated m s s' n v : rep m s -> updated s s' n v ->
  rep (match v with Some v => <[n := v]> m | None => delete n m end) s'.
Proof.
  intros [_ H] (_ & T & U). split; [done|]. intros k. rewrite U.
  destruct v, (decide (k = n)) as [->|]; rewrite ?lookup_insert_eq, ?lookup_delete_eq,
    ?lookup_insert_ne, ?lookup_delete_ne by done; done.
Qed.

Lemma exec_ok E (Mem : forall k, oom E k = false) m s c : rep m s ->
  twp (exec E c) (fun x s' => x = (astep (room s) m c).2 /\ rep (astep (room s) m c).1 s' /\
    same_rest s s') s.
Proof.
  intros R. destruct c as [n|n v|n]; simpl.
  - twp_step. eapply twp_intro; [apply get_ok, R|]. twp_step.
    split; [by rewrite (proj2 R)|]. split; [done|apply same_rest_refl].
  - twp_step. eapply twp_mono; [apply set_ok; [done|apply R]|]. intros r s' H. twp_step.
    destruct (_ <=? _); destruct H as [-> U]; (split; [done|]); (split; [|apply U]).
    + by apply (rep_updated _ s _ _ (Some v)).
    + pose proof (rep_updated _ s _ _ _ R U) as R'. rewrite <- (proj2 R) in R'. simpl.
      destruct (m !! n) as [w|] eqn:Em; [by rewrite insert_id in R'|by rewrite delete_id in R'].
  - twp_step. eapply twp_mono; [apply unset_ok, R|]. intros r s' [-> U]. twp_step.
    split; [done|]. split; [|apply U]. by apply (rep_updated _ s _ _ None).
Qed.

(** C11: with memory available, any sequence of [nvram_get], [nvram_set] and
    [nvram_unset] calls returns, with the replies of a finite map from names to
    values that refuses values larger than the partition, leaves the table
    representing that map, and changes neither the mapped image nor the balance
    of heap blocks to tuples. *)
Theorem nvram_refines_map E m s cs :
  (forall k, oom E k = false) -> rep m s ->
  exists s', exec_all E cs s = Ok (asteps (room s) m cs).2 s' /\
    rep (asteps (room s) m cs).1 s' /\ same_rest s s'.
Proof.
  intros Mem. revert m s. induction cs as [|c cs IH]; intros m s R; simpl.
  - exists s. split; [done|]. split; [done|apply same_rest_refl].
  - destruct (twp_elim _ _ _ (exec_ok E Mem m s c R)) as (x & s1 & E1 & Hx & R1 & S1).
    destruct (IH _ s1 R1) as (s2 & E2 & R2 & S2).
    rewrite (same_rest_room _ _ S1) in E2, R2.
    destruct (astep (room s) m c) as [m1 x1] eqn:Ea. simpl in *.
    destruct (asteps (room s) m1 cs) as [m2 xs] eqn:Eb. simpl in *. subst x1.
    exists s2. split; [|split; [done|by eapply same_rest_trans]].
    unfold mbind, M_bind. by rewrite E1, E2.
Qed.

(** * All variables *)

Section getall.
Context (E : env) (Mem : forall k, oom E k = false).

Lemma copy_chain_ok l : forall acc s (Q : list tuple -> state -> Prop),
  (forall s', hd s' = hd s /\ part_size s' = part_size s -> Q (rev l ++ acc) s') -> twp (copy_chain E l acc) Q s.
Proof using Mem.
  induction l as [|t l IH]; intros acc s Q H; simpl; [by apply twp_ret, H|].
  twp_step. apply twp_alloc; [done|]. do 2 twp_step. apply IH. intros s' [Hs Hp].
  pose proof (H s') as Hq. simpl in Hq. rewrite <- app_assoc in Hq. apply Hq. by rewrite Hs, Hp.
Qed.

Lemma copy_chains_ok ls : forall acc s (Q : list tuple -> state -> Prop),
  (forall s', hd s' = hd s /\ part_size s' = part_size s -> Q (rev (concat ls) ++ acc) s') -> twp (copy_chains E ls acc) Q s.
Proof using Mem.
  induction ls as [|l ls IH]; intros acc s Q H; simpl; [by apply twp_ret, H|].
  twp_step. apply copy_chain_ok. intros s1 [H1 P1]. apply IH. intros s2 [H2 P2].
  rewrite app_assoc, <- rev_app_distr. apply H. split; congruence.
Qed.
End getall.

(** The names of the whole table are distinct. *)
Lemma table_nodup t : table_ok t -> NoDup (map name (concat t)).
Proof.
  intros [_ H]. assert (forall k ls, (forall i l, ls !! i = Some l -> chain_ok (k + i) l) ->
    NoDup (map name (concat ls)) /\
    Forall (fun t => (k <= bucket (name t))%nat) (concat ls)) as C.
  { intros k ls. revert k. induction ls as [|l ls IH]; intros k Hk; simpl; [by repeat constructor|].
    destruct (Hk 0%nat l eq_refl) as [Nd Hf]. rewrite Nat.add_0_r in Hf.
    destruct (IH (S k)) as [Nd' Hf'].
    { intros i l' Hi. replace (S k + i)%nat with (k + S i)%nat by lia. by apply Hk. }
    split.
    - rewrite map_app. apply list.NoDup_app. split_and!; [done| |done].
      intros x Hx Hx'. apply list_elem_of_fmap in Hx as (u & -> & Hu), Hx' as (w & Ew & Hw).
      pose proof (proj1 (Forall_forall _ _) Hf u Hu) as [Eb _].
      pose proof (proj1 (Forall_forall _ _) Hf' w Hw). simpl in *. rewrite Ew in Eb. lia.
    - apply Forall_app. split; [|eapply Forall_impl; [exact Hf'|]; simpl; intros; lia].
      eapply Forall_impl; [exact Hf|]. simpl. intros u [<- _]. lia. }
  apply (C 0%nat t). exact H.
Qed.

Lemma nodup_name l u w : NoDup (map name l) -> u ∈ l -> w ∈ l -> name u = name w -> u = w.
Proof.
  induction l as [|t l IH]; intros Nd Hu Hw En; [by apply not_elem_of_nil in Hu|].
  simpl in Nd. apply list.NoDup_cons in Nd as [Ht Nd].
  apply elem_of_cons in Hu as [->|Hu], Hw as [->|Hw]; try done.
  - destruct Ht. rewrite En. by apply list_elem_of_fmap_2.
  - destruct Ht. rewrite <- En. by apply list_elem_of_fmap_2.
  - by apply IH.
Qed.

Lemma table_elem t n v : table_ok t ->
  mkTuple n (Some v) ∈ concat t <-> tget t n = Some v.
Proof.
  intros T. destruct (table_chain t n T) as (l & Hl & Nd & Hf). unfold tget. rewrite Hl. simpl.
  unfold cget. split.
  - intros H. apply list_elem_of_In, in_concat in H as (l' & Hl' & Ht).
    apply list_elem_of_In in Hl', Ht. apply list_elem_of_lookup in Hl' as [i Hi].
    destruct (proj2 T i l' Hi) as [_ Hf'].
    pose proof (proj1 (Forall_forall _ _) Hf' _ Ht) as [Eb _]. simpl in Eb. subst i.
    assert (l' = l) as -> by congruence.
    destruct (find (named n) l) as [u|] eqn:Ef.
    + apply find_named in Ef as [Hu En]. simpl.
      assert (u = mkTuple n (Some v)) as -> by by apply (nodup_name l). done.
    + apply find_absent in Ef. destruct Ef. by apply (list_elem_of_fmap_2 name _ _ Ht).
  - intros H. destruct (find (named n) l) as [[n' v']|] eqn:Ef; simplify_eq/=.
    apply find_named in Ef as [Hu <-]. apply list_elem_of_In, in_concat. exists l.
    split; apply list_elem_of_In; [by apply list_elem_of_lookup_2 with (bucket n')|done].
Qed.

Lemma table_values t n v : table_ok t -> mkTuple n v ∈ concat t -> is_Some v.
Proof.
  intros T H. apply list_elem_of_In, in_concat in H as (l & Hl & Ht).
  apply list_elem_of_In in Hl, Ht. apply list_elem_of_lookup in Hl as [i Hi].
  destruct (proj2 T i l Hi) as [_ Hf]. by apply (proj1 (Forall_forall _ _) Hf _ Ht).
Qed.

(** The tuple of a variable. *)
Definition as_tuple (p : cstr * cstr) : tuple := mkTuple p.1 (Some p.2).

(** [nvram_getall] lists every variable exactly once. *)
Theorem nvram_getall_complete E m s :
  (forall k, oom E k = false) -> rep m s ->
  exists l s', nvram_getall E s = Ok l s' /\ hd s' = hd s /\ part_size s' = part_size s /\
    l ≡ₚ as_tuple <$> map_to_list m.
Proof.
  intros Mem [T R].
  cut (twp (nvram_getall E) (fun l s' => (hd s' = hd s /\ part_size s' = part_size s) /\
    l = rev (concat (tb s))) s).
  { intros H. destruct (twp_elim _ _ _ H) as (l & s' & Hl & [Hh Hp] & ->). exists (rev (concat (tb s))), s'.
    split; [done|]. split; [done|]. split; [done|]. rewrite <- Permutation_rev. apply NoDup_Permutation.
    - apply (NoDup_fmap_1 name), (table_nodup _ T).
    - apply NoDup_fmap_2; [|apply NoDup_map_to_list]. intros [] []. unfold as_tuple. simpl. naive_solver.
    - intros [n v]. rewrite list_elem_of_fmap. split.
      + intros H'. destruct (table_values _ _ _ T H') as [w ->]. exists (n, w). split; [done|].
        apply elem_of_map_to_list. rewrite R. by apply table_elem.
      + intros ([n' w] & Ew & Hw). unfold as_tuple in Ew. simplify_eq/=.
        apply table_elem; [done|]. rewrite <- R. by apply elem_of_map_to_list. }
  unfold nvram_getall. do 2 twp_step. apply copy_chains_ok; [done|]. intros s' Hs. by rewrite app_nil_r.
Qed.

(** * Running out of memory *)

(** when the [realloc] for a new value fails, [nvram_set] reports it, but the
    variable has lost its old value: [nvram_get] finds none any more, and the
    block of the old value stays allocated. *)
Theorem nvram_set_loses_value E s n v w :
  table_ok (tb s) -> tget (tb s) n = Some w -> w <> v -> Z.of_nat (length v) + 1 <= room s ->
  oom E (allocs s) = true ->
  exists s', nvram_set E n v s = Ok ENOMEM s' /\ nvram_get (Some n) s' = Ok None s' /\
    values s' = values s.
Proof.
  intros T Hg Hw Hr Ho. destruct (table_chain _ n T) as (l & Hl & _). unfold tget in Hg. rewrite Hl in Hg.
  simpl in Hg. unfold cget in Hg. destruct (find (named n) l) as [[n' o]|] eqn:Ef; [|done].
  simpl in Hg. subst o. destruct (find_named _ _ _ Ef) as [_ Hn]. simpl in Hn. subst n'.
  eexists. unfold nvram_set. split; [|split].
  - eapply bind_ok; [eapply bind_ok; [reflexivity|]; apply lift_ok; exact Hl|]. cbv zeta. rewrite Ef.
    eapply bind_ok.
    { unfold nvram_realloc. eapply bind_ok; [reflexivity|]. fold (room s).
      replace (_ >? room s) with false by lia. eapply bind_ok; [reflexivity|].
      eapply bind_ok; [|reflexivity]. unfold realloc_value. cbn [value name].
      rewrite bool_decide_false by congruence.
      eapply bind_ok; [eapply bind_ok; [reflexivity|]; eapply bind_ok; [reflexivity|];
        unfold mret, M_ret; rewrite Ho; reflexivity|reflexivity]. }
    cbn [fst snd]. eapply bind_ok; reflexivity.
  - set (s' := _ <| hd ::= _ |>). unfold nvram_get, chain, mbind, M_bind, get.
    assert (nvram_hash (hd s') !! bucket n = Some (replace n (mkTuple n None) l)) as Hs.
    { unfold s'. simpl. apply list_lookup_insert_eq. pose proof (bucket_bound n) as B. rewrite <- (proj1 T) in B. exact B. }
    rewrite Hs. simpl. rewrite (find_replace n (mkTuple n None) eq_refl n l _ Ef).
    by rewrite decide_True.
  - done.
Qed.

End NvramSpec.
