(* ===== verification/NvramCommit.v ===== *)
(** Writing the NVRAM image and reading it back: what [nvram_commit] leaves in the
    mapping, and that the variables survive it. *)

From Stdlib Require Import ZArith Lia Ascii String.
From stdpp Require Import base list list_numbers numbers gmap sets.
From S2P Require Import Prelude CString Nvram NvramSpec.

Open Scope list_scope.
Open Scope Z_scope.

Module NvramCommit.
Import Nvram NvramSpec.

(** * Bytes of the mapping *)

(** [s] with other bytes mapped. *)
Definition with_img (s : state) (m : list Z) : state := s <| hd ::= fun h => h <| mmap := m |> |>.

Lemma with_img_eta s : s = with_img s (mmap (hd s)).
Proof. by destruct s as [[] ? ? ? ? ? ? ?]. Qed.

Lemma span_true (a b c : Z) : 0 <= a -> a + b <= c -> (0 <=? a) && (a + b <=? c) = true.
Proof. lia. Qed.

Lemma gtb_false (a b : Z) : a <= b -> (a >? b) = false.
Proof. lia. Qed.

Lemma mmap_with_img s m : mmap (hd (with_img s m)) = m.
Proof. done. Qed.

Lemma store_ok s x y z l pos : pos = Z.of_nat (length x) -> length y = length l ->
  store pos l (with_img s (x ++ y ++ z)) = Ok tt (with_img s (x ++ l ++ z)).
Proof.
  intros -> H. unfold store, mbind, M_bind, get. cbv zeta. rewrite mmap_with_img.
  rewrite !length_app, H, span_true by lia.
  unfold modify. f_equal. unfold with_img. simpl. rewrite Nat2Z.id. do 2 f_equal.
  rewrite <- (Nat.add_0_r (length x)), list_inserts_app_r, list_inserts_0_r; done.
Qed.

Lemma load_ok s x y z pos n : pos = Z.of_nat (length x) -> n = Z.of_nat (length y) ->
  load pos n (with_img s (x ++ y ++ z)) = Ok y (with_img s (x ++ y ++ z)).
Proof.
  intros -> ->. unfold load, mbind, M_bind, get. cbv zeta. rewrite mmap_with_img.
  rewrite !length_app. rewrite (proj2 (Z.leb_le 0 (Z.of_nat (length y)))) by lia.
  rewrite andb_true_r, span_true by lia.
  rewrite !Nat2Z.id, drop_app_length, take_app_length. done.
Qed.

(** * The header *)

(** An image: the bytes before the header, its five words, and the data. *)
Definition image (A : list Z) (ws : list (list Z)) (D : list Z) : list Z := A ++ concat ws ++ D.

Definition words (ws : list (list Z)) : Prop := length ws = 5%nat /\ Forall (fun w => length w = 4%nat) ws.

Lemma words_concat ws : words ws -> length (concat ws) = 20%nat.
Proof.
  intros [L H]. destruct ws as [|w0 [|w1 [|w2 [|w3 [|w4 [|]]]]]]; try done.
  repeat (apply Forall_cons_1 in H as [? H]). simpl. rewrite !length_app. simpl. lia.
Qed.

Lemma words_insert ws i w : words ws -> length w = 4%nat -> words (<[i := w]> ws).
Proof. intros [L H] Hw. split; [by rewrite length_insert|]. by apply Forall_insert. Qed.

(** A word as a part of the image. *)
Lemma image_word A ws D i w : words ws -> ws !! i = Some w -> exists x z,
  length x = (length A + 4 * i)%nat /\ image A ws D = x ++ w ++ z /\
  forall w', image A (<[i := w']> ws) D = x ++ w' ++ z.
Proof.
  intros [L H] Hi.
  destruct ws as [|w0 [|w1 [|w2 [|w3 [|w4 [|]]]]]]; try done.
  repeat (apply Forall_cons_1 in H as [? H]). unfold image.
  destruct i as [|[|[|[|[|]]]]]; simplify_eq/=;
    [ exists A, (w1 ++ w2 ++ w3 ++ w4 ++ D) | exists (A ++ w0), (w2 ++ w3 ++ w4 ++ D)
    | exists (A ++ w0 ++ w1), (w3 ++ w4 ++ D) | exists (A ++ w0 ++ w1 ++ w2), (w4 ++ D)
    | exists (A ++ w0 ++ w1 ++ w2 ++ w3), D ];
    (split; [rewrite ?length_app; lia|]); (split; [|intros w']); by rewrite <- ?app_assoc, ?app_nil_l.
Qed.

Section fields.
Context (s : state) (A : list Z) (ws : list (list Z)) (D : list Z) (W : words ws).

Lemma store32_ok i pos v : pos = Z.of_nat (length A) + 4 * Z.of_nat i -> (i < 5)%nat ->
  store32 pos v (with_img s (image A ws D)) = Ok tt (with_img s (image A (<[i := le32 v]> ws) D)).
Proof using W.
  intros -> Hi. destruct (lookup_lt_is_Some_2 ws i) as [w Hw]; [by rewrite (proj1 W)|].
  destruct (image_word A ws D i w W Hw) as (x & z & Lx & -> & E). rewrite E.
  apply store_ok; [lia|]. by rewrite (proj1 (List.Forall_forall _ _) (proj2 W) w)
    by by apply list_elem_of_In, list_elem_of_lookup_2 with i.
Qed.

Lemma load32_ok i pos w : pos = Z.of_nat (length A) + 4 * Z.of_nat i -> ws !! i = Some w ->
  load32 pos (with_img s (image A ws D)) = Ok (word w) (with_img s (image A ws D)).
Proof using W.
  intros -> Hw. destruct (image_word A ws D i w W Hw) as (x & z & Lx & -> & _).
  unfold load32. eapply bind_ok; [apply load_ok|done]; [lia|].
  by rewrite (proj1 (List.Forall_forall _ _) (proj2 W) w)
    by by apply list_elem_of_In, list_elem_of_lookup_2 with i.
Qed.

(** The data behind the header. *)
Lemma store_data pos x y z l : D = x ++ y ++ z -> length y = length l ->
  pos = Z.of_nat (length A) + 20 + Z.of_nat (length x) ->
  store pos l (with_img s (image A ws D)) = Ok tt (with_img s (image A ws (x ++ l ++ z))).
Proof using W.
  intros -> Hl ->. unfold image. rewrite (app_assoc _ x), (app_assoc A).
  rewrite (app_assoc _ x (l ++ z)), (app_assoc A _ (l ++ z)).
  apply store_ok; [|done]. rewrite !length_app, words_concat by done. lia.
Qed.
End fields.

(** * The data *)

(** ["name=value"] with its NUL. *)
Definition enc (p : cstr * cstr) : list Z := p.1 ++ 61 :: p.2 ++ [0].
Definition encs (ps : list (cstr * cstr)) : list Z := concat (map enc ps).

Lemma enc_length p : length (enc p) = (length p.1 + length p.2 + 2)%nat.
Proof. unfold enc. rewrite length_app. cbn [length]. rewrite length_app. simpl. lia. Qed.

Lemma encs_app ps qs : encs (ps ++ qs) = encs ps ++ encs qs.
Proof. unfold encs. by rewrite map_app, concat_app. Qed.

(** The number of data bytes that stay cleared. *)
Lemma repeat_split {T} (x : T) n k : (k <= n)%nat -> repeat x n = repeat x k ++ repeat x (n - k).
Proof. intros H. rewrite <- repeat_app. f_equal. lia. Qed.

Section writing.
Context (s : state) (A : list Z) (ws : list (list Z)) (W : words ws) (stop : Z).

(** The state with the tuples [ps] written and [r] bytes cleared. *)
Definition written (ps : list (cstr * cstr)) (r : nat) : state :=
  with_img s (image A ws (encs ps ++ repeat 255 r)).
Definition position (ps : list (cstr * cstr)) : Z :=
  Z.of_nat (length A) + 20 + Z.of_nat (length (encs ps)).

Lemma write_chain_ok ps : forall done r,
  position (done ++ ps) <= stop -> stop <= position done + Z.of_nat r ->
  write_chain stop (map as_tuple ps) (position done) (written done r) =
    Ok (position (done ++ ps)) (written (done ++ ps) (r - length (encs ps))).
Proof using W.
  induction ps as [|[n v] ps IH]; intros done r H1 H2.
  - rewrite app_nil_r. simpl. by rewrite Nat.sub_0_r.
  - cbn [map write_chain as_tuple name value]. eapply bind_ok; [reflexivity|].
    assert (done ++ (n, v) :: ps = (done ++ [(n, v)]) ++ ps) as Ea by by rewrite <- app_assoc.
    rewrite Ea in H1 |- *.
    assert (length (enc (n, v)) = length n + length v + 2)%nat as Le by apply enc_length.
    assert (position (done ++ [(n, v)]) = position done + Z.of_nat (length n + length v + 2)) as Ep.
    { unfold position. rewrite encs_app, length_app. unfold encs at 2. simpl. rewrite app_nil_r. lia. }
    assert (position ((done ++ [(n, v)]) ++ ps) =
      position (done ++ [(n, v)]) + Z.of_nat (length (encs ps))) as Ep'
      by (unfold position; rewrite (encs_app _ ps), length_app; lia).
    cbn [name as_tuple fst snd]. rewrite gtb_false by lia.
    eapply bind_ok.
    { unfold written. apply (store_data _ _ _ _ W) with (x := encs done) (y := repeat 255 (length (enc (n, v))))
        (z := repeat 255 (r - length (enc (n, v)))).
      - rewrite (repeat_split 255 r (length (enc (n, v)))) by lia. done.
      - rewrite repeat_length. done.
      - done. }
    replace (position done + Z.of_nat (length n + 1 + length v) + 1)
      with (position (done ++ [(n, v)])) by lia.
    assert (with_img s (image A ws (encs done ++ enc (n, v) ++ repeat 255 (r - length (enc (n, v))))) =
      written (done ++ [(n, v)]) (r - length (enc (n, v)))) as Ew
      by (unfold written; rewrite encs_app; unfold encs at 3; simpl; by rewrite app_nil_r, <- app_assoc).
    etransitivity; [exact (f_equal _ Ew)|].
    rewrite IH by lia. do 2 f_equal. unfold encs at 2. simpl. rewrite length_app. fold (encs ps). lia.
Qed.

Lemma write_chains_ok pss : forall done r,
  position (done ++ concat pss) <= stop -> stop <= position done + Z.of_nat r ->
  write_chains stop (map (map as_tuple) pss) (position done) (written done r) =
    Ok (position (done ++ concat pss))
       (written (done ++ concat pss) (r - length (encs (concat pss)))).
Proof using W.
  induction pss as [|ps pss IH]; intros done r H1 H2.
  - simpl. rewrite app_nil_r, Nat.sub_0_r. done.
  - cbn [map write_chains concat]. cbn [concat] in H1. rewrite app_assoc in H1 |- *.
    assert (position ((done ++ ps) ++ concat pss) =
      position (done ++ ps) + Z.of_nat (length (encs (concat pss)))) as E1
      by (unfold position; rewrite (encs_app _ (concat pss)), length_app; lia).
    assert (position (done ++ ps) = position done + Z.of_nat (length (encs ps))) as E2
      by (unfold position; rewrite encs_app, length_app; lia).
    eapply bind_ok; [apply write_chain_ok; lia|]. rewrite IH by lia. do 2 f_equal.
    rewrite encs_app, length_app. lia.
Qed.

(** The zeros after the tuples: one that ends the last string's list, and those
    that round up. *)
Definition pad (n : nat) : nat := Z.to_nat ((- (Z.of_nat n + 1)) mod 4).

Lemma terminate_ok ps r :
  0 <= mmap_addr (hd s) -> mmap_addr (hd s) mod 4 = 0 -> Z.of_nat (length A) mod 4 = 0 ->
  mmap_addr (hd s) + position ps + Z.of_nat r < 2 ^ 31 ->
  (1 + pad (length (encs ps)) <= r)%nat ->
  terminate (position ps) (written ps r) = Ok (position ps + 2)
    (with_img s (image A ws (encs ps ++ repeat 0 (1 + pad (length (encs ps))) ++
                             repeat 255 (r - (1 + pad (length (encs ps))))))).
Proof using W.
  intros Ha Ha4 HA Hm Hr. unfold terminate. set (k := pad (length (encs ps))) in *.
  eapply bind_ok.
  { unfold written. apply (store_data _ _ _ _ W) with (x := encs ps) (y := [255]) (z := repeat 255 (r - 1)).
    - by rewrite (repeat_split 255 r 1) by lia.
    - done.
    - done. }
  eapply bind_ok; [reflexivity|]. cbv zeta.
  change (mmap_addr (hd (with_img s ?m))) with (mmap_addr (hd s)).
  rewrite s32_small by (unfold position in *; lia).
  rewrite Z.rem_mod_nonneg by (unfold position in *; lia).
  set (q := (mmap_addr (hd s) + (position ps + 1)) mod 4).
  assert (0 <= q < 4 /\ Z.of_nat k = if q =? 0 then 0 else 4 - q) as [Hq Hk].
  { split; [by apply Z.mod_pos_bound|]. unfold k, pad. set (n := length (encs ps)) in *.
    assert (q = (Z.of_nat n + 1) mod 4) as ->.
    { unfold q, position. fold n. rewrite Zplus_mod, Ha4, Z.add_0_l, Zmod_mod.
      replace (_ + 20 + _ + 1) with (Z.of_nat (length A) + (Z.of_nat n + 1 + 5 * 4)) by lia.
      rewrite Zplus_mod, HA, Z.add_0_l, Zmod_mod. by rewrite Z.mod_add by lia. }
    rewrite Z2Nat.id by (by apply Z.mod_pos_bound).
    destruct (_ =? 0) eqn:E0.
    - apply Z.mod_opp_l_z; lia.
    - apply Z.mod_opp_l_nz; lia. }
  destruct (q =? 0) eqn:E0; cbn [negb].
  - assert (k = 0%nat) as -> by lia. eapply bind_ok; [reflexivity|]. simpl. f_equal. lia.
  - assert (k = Z.to_nat (4 - q)) as -> by lia.
    eapply bind_ok; [|unfold mret, M_ret; f_equal; lia].
    unfold memset. replace (0 <=? 4 - q) with true by lia.
    rewrite (store_data _ _ _ _ W) with (x := encs ps ++ [0]) (y := repeat 255 (Z.to_nat (4 - q)))
      (z := repeat 255 (r - (1 + Z.to_nat (4 - q)))).
    + do 2 f_equal. rewrite <- !app_assoc. done.
    + rewrite <- !app_assoc. do 2 f_equal.
      rewrite (repeat_split 255 (r - 1) (Z.to_nat (4 - q))) by lia. do 2 f_equal. lia.
    + by rewrite !repeat_length.
    + unfold position. rewrite length_app. simpl. lia.
Qed.
End writing.

(** * The whole image *)

Lemma word_le32 x : 0 <= x < 2 ^ 32 -> word (le32 x) = x.
Proof.
  intros H. unfold word, le32, u8. simpl foldr. rewrite !Z.shiftr_div_pow2 by lia.
  change (2 ^ 32) with (256 * (256 * (256 * 256))) in H.
  change (2 ^ 24) with (256 * (256 * 256)). change (2 ^ 16) with (256 * 256). change (2 ^ 8) with 256.
  rewrite <- !Z.div_div by lia.
  pose proof (Z.div_mod x 256 ltac:(lia)). pose proof (Z.mod_pos_bound x 256 ltac:(lia)).
  set (x1 := x / 256) in *.
  pose proof (Z.div_mod x1 256 ltac:(lia)). pose proof (Z.mod_pos_bound x1 256 ltac:(lia)).
  set (x2 := x1 / 256) in *.
  pose proof (Z.div_mod x2 256 ltac:(lia)). pose proof (Z.mod_pos_bound x2 256 ltac:(lia)).
  set (x3 := x2 / 256) in *. rewrite (Z.mod_small x3) by lia. lia.
Qed.

Lemma le32_bytes x : Forall byte (le32 x).
Proof. unfold le32, u8. repeat constructor; apply Z.mod_pos_bound; lia. Qed.

(** The low byte of the version word is free for the checksum. *)
Lemma version_low y : u32 (Z.lor 256 (Z.shiftl y 16)) mod 256 = 0.
Proof.
  unfold u32. change 256 with (2 ^ 8) at 2. rewrite Z.mod_mod_divide by by exists (2 ^ 24).
  rewrite <- Z.land_ones, Z.land_lor_distr_l by lia. change (Z.land 256 (Z.ones 8)) with 0.
  rewrite Z.lor_0_l, Z.land_ones, Z.shiftl_mul_pow2 by lia.
  change (2 ^ 16) with (2 ^ 8 * 2 ^ 8). rewrite Z.mul_assoc. by apply Z.mod_mul.
Qed.

Lemma write_sdram_ok E s A ws D : words ws -> table_ok (tb s) -> ws !! 2%nat = Some (le32 256) ->
  exists x y z, x mod 256 = 0 /\ 0 <= x < 2 ^ 32 /\
    write_sdram E (Z.of_nat (length A)) (with_img s (image A ws D)) =
    Ok tt (with_img s (image A (<[4%nat := le32 z]> (<[3%nat := le32 y]> (<[2%nat := le32 x]> ws))) D)).
Proof.
  intros W T H2. unfold write_sdram.
  assert (forall n, nvram_get (Some n) (with_img s (image A ws D)) =
    Ok (tget (tb s) n) (with_img s (image A ws D))) as G by (intros n; by apply (get_ok (with_img s _))).
  assert (forall x y z, (store32 (f_crc_ver_init (Z.of_nat (length A))) x;;
    store32 (f_config_refresh (Z.of_nat (length A))) y;;
    store32 (f_config_ncdl (Z.of_nat (length A))) z) (with_img s (image A ws D)) =
    Ok tt (with_img s (image A (<[4%nat := le32 z]> (<[3%nat := le32 y]> (<[2%nat := le32 x]> ws))) D))) as S3.
  { intros x y z. pose proof (words_insert ws 2 (le32 x) W eq_refl) as W1.
    pose proof (words_insert _ 3 (le32 y) W1 eq_refl) as W2.
    eapply bind_ok; [apply (store32_ok s A ws D W 2); [done|lia]|].
    eapply bind_ok; [apply (store32_ok s A _ D W1 3); [done|lia]|].
    apply (store32_ok s A _ D W2 4); [done|lia]. }
  pose proof (load32_ok s A ws D W 2 _ _ eq_refl H2) as L2.
  change (word (le32 256)) with 256 in L2.
  destruct (tget (tb s) (str "sdram_init")) as [i|] eqn:E1, (tget (tb s) (str "sdram_config")) as [c|] eqn:E2,
    (tget (tb s) (str "sdram_refresh")) as [r|] eqn:E3, (tget (tb s) (str "sdram_ncdl")) as [n|] eqn:E4;
    eexists _, _, _; (split; [|split; [|
      (eapply bind_ok; [apply G|]); (eapply bind_ok; [apply G|]); (eapply bind_ok; [apply G|]);
      (eapply bind_ok; [apply G|]); (eapply bind_ok; [apply L2|]); rewrite ?E1, ?E2, ?E3, ?E4; apply S3]]);
    first [apply version_low | apply u32_range].
Qed.

(** A handle on an image with a table of the variables [pss], chain by chain,
    that fits: alignment and sizes as [nvram_open] finds them on a device. *)
Record fits (s : state) (A : list Z) (ws : list (list Z)) (D : list Z)
    (pss : list (list (cstr * cstr))) : Prop := mkFits {
  f_mmap : mmap (hd s) = image A ws D;
  f_words : words ws;
  f_offset : offset (hd s) = Z.of_nat (length A);
  f_size : part_size s = Z.of_nat (length A) + 20 + Z.of_nat (length D);
  f_align : Z.of_nat (length A) mod 4 = 0 /\ Z.of_nat (length D) mod 4 = 0;
  f_addr : 0 <= mmap_addr (hd s) /\ mmap_addr (hd s) mod 4 = 0 /\
           mmap_addr (hd s) + part_size s < 2 ^ 31;
  f_table : tb s = map (map as_tuple) pss;
  f_room : Z.of_nat (length (encs (concat pss))) + 2 <= Z.of_nat (length D)
}.

(** The image of the variables [ps], in [d] bytes after the header. *)
Definition data_of (ps : list (cstr * cstr)) (d : nat) : list Z :=
  let n := length (encs ps) in
  encs ps ++ repeat 0 (1 + pad n) ++ repeat 255 (d - n - (1 + pad n)).
Definition len_of (ps : list (cstr * cstr)) : Z := NVRAM_ROUNDUP (Z.of_nat (length (encs ps)) + 22) 4.
Definition crc_of (len : Z) (ws : list (list Z)) (D : list Z) : Z :=
  hndcrc8 (take (Z.to_nat (len - 20)) D) (hndcrc8 (drop 9 (concat ws)) 255).

(** Sizes of the parts of the data. *)
Lemma data_sizes n d : 0 <= n -> n + 2 <= d -> d mod 4 = 0 ->
  let k := (- (n + 1)) mod 4 in
  let len := NVRAM_ROUNDUP (n + 22) 4 in
  n + 1 + k <= d /\ 0 <= k < 4 /\ 20 < len <= d + 20 /\ len mod 4 = 0 /\
  n + 1 + k <= len - 20.
Proof.
  intros Hn Hd H4 k len. unfold NVRAM_ROUNDUP in len.
  pose proof (Z.div_mod (- (n + 1)) 4 ltac:(lia)). pose proof (Z.mod_pos_bound (- (n + 1)) 4 ltac:(lia)).
  pose proof (Z.div_mod d 4 ltac:(lia)).
  pose proof (Z.div_mod (n + 22 + (4 - 1)) 4 ltac:(lia)).
  pose proof (Z.mod_pos_bound (n + 22 + (4 - 1)) 4 ltac:(lia)).
  fold k in H, H0. unfold len. rewrite Z.mod_mul by lia.
  set (a := (n + 22 + (4 - 1)) / 4) in *. set (b := (- (n + 1)) / 4) in *. set (c := d / 4) in *.
  lia.
Qed.

Lemma data_length ps d : Z.of_nat (length (encs ps)) + 2 <= Z.of_nat d -> Z.of_nat d mod 4 = 0 ->
  length (data_of ps d) = d /\ (1 + pad (length (encs ps)) <= d - length (encs ps))%nat /\
  20 < len_of ps <= Z.of_nat d + 20.
Proof.
  intros H1 H2. pose proof (data_sizes (Z.of_nat (length (encs ps))) (Z.of_nat d) ltac:(lia) H1 H2) as H.
  simpl in H. unfold data_of, pad. rewrite !length_app, !repeat_length.
  set (k := (- (Z.of_nat (length (encs ps)) + 1)) mod 4) in *. unfold len_of. lia.
Qed.

(** The data area is cleared. *)
Lemma clear_ok s A ws D : words ws ->
  memset (position A []) 255 (Z.of_nat (length D)) (with_img s (image A ws D)) =
    Ok tt (written s A ws [] (length D)).
Proof.
  intros W. unfold memset. rewrite (proj2 (Z.leb_le _ _)) by lia. rewrite Nat2Z.id.
  rewrite (store_data _ _ _ _ W) with (x := []) (y := D) (z := []).
  - unfold written. simpl. by rewrite app_nil_r.
  - by rewrite app_nil_r.
  - by rewrite repeat_length.
  - unfold position. simpl. lia.
Qed.

Lemma checksum_ok s A ws D len : words ws -> 20 <= len <= Z.of_nat (length D) + 20 ->
  checksum (Z.of_nat (length A)) len (with_img s (image A ws D)) =
    Ok (crc_of len ws D) (with_img s (image A ws D)).
Proof.
  intros W Hl. pose proof (words_concat _ W) as Lw. unfold checksum.
  assert (image A ws D = (A ++ take 9 (concat ws)) ++ drop 9 (concat ws) ++ D) as E1.
  { unfold image. rewrite <- (take_drop 9 (concat ws)) at 1. by rewrite <- !app_assoc. }
  assert (image A ws D = (A ++ concat ws) ++ take (Z.to_nat (len - 20)) D ++ drop (Z.to_nat (len - 20)) D) as E2.
  { unfold image. by rewrite take_drop, <- app_assoc. }
  eapply bind_ok.
  { rewrite E1. apply load_ok; unfold NVRAM_CRC_START_POSITION, sizeof_header.
    - rewrite length_app, length_take, Lw. lia.
    - rewrite length_drop, Lw. done. }
  eapply bind_ok.
  { rewrite <- E1, E2. apply load_ok; unfold sizeof_header.
    - rewrite length_app, Lw. lia.
    - rewrite length_take. lia. }
  rewrite <- E2. done.
Qed.

Lemma commit_image E s A ws D pss : table_ok (tb s) -> fits s A ws D pss ->
  exists x y z, x mod 256 = 0 /\ 0 <= x < 2 ^ 32 /\
    let len := len_of (concat pss) in
    let D' := data_of (concat pss) (length D) in
    let crc := crc_of len [le32 NVRAM_MAGIC; le32 len; le32 x; le32 y; le32 z] D' in
    nvram_commit E s = nvram_rehash E (with_img s (image A
      [le32 NVRAM_MAGIC; le32 len; le32 (Z.lor x crc); le32 y; le32 z] D')).
Proof.
  intros T F. destruct F as [Fm W Fo Fs [Fa Fd] (Fx & Fx4 & Fxs) Ft Fr].
  destruct (data_length _ _ Fr Fd) as (Ld & Lp & Ll).
  destruct ws as [|w0 [|w1 [|w2 [|w3 [|w4 [|]]]]]]; try (by destruct W).
  pose proof (words_insert _ 0 (le32 NVRAM_MAGIC) W eq_refl) as W0.
  pose proof (words_insert _ 2 (le32 256) W0 eq_refl) as W2. simpl in W0, W2.
  destruct (write_sdram_ok E s A _ D W2 T eq_refl) as (x & y & z & Hx & Hx' & Ew). simpl in Ew.
  exists x, y, z. split; [done|]. split; [done|]. cbv zeta.
  rewrite (with_img_eta s) at 1. rewrite Fm. unfold nvram_commit.
  eapply bind_ok; [reflexivity|]. change (offset (hd (with_img s ?m))) with (offset (hd s)). rewrite Fo.
  eapply bind_ok; [apply (store32_ok s A _ D W 0); [unfold f_magic; lia|lia]|].
  eapply bind_ok; [apply (store32_ok s A _ D W0 2); [unfold f_crc_ver_init; lia|lia]|].
  eapply bind_ok; [exact Ew|].
  eapply bind_ok; [reflexivity|]. cbv zeta.
  change (part_size (with_img s ?m)) with (part_size s).
  change (nvram_hash (hd (with_img s ?m))) with (tb s). rewrite Fs, Ft.
  set (ws3 := [le32 NVRAM_MAGIC; w1; le32 x; le32 y; le32 z]).
  assert (words ws3) as W3.
  { apply (words_insert [le32 NVRAM_MAGIC; w1; le32 x; le32 y; w4] 4);
      [apply (words_insert [le32 NVRAM_MAGIC; w1; le32 x; w3; w4] 3);
       [apply (words_insert _ 2 (le32 x) W2)|]|]; done. }
  replace (Z.of_nat (length A) + 20 + Z.of_nat (length D) - Z.of_nat (length A) - sizeof_header)
    with (Z.of_nat (length D)) by (unfold sizeof_header; lia).
  replace (Z.of_nat (length A) + sizeof_header) with (position A []) by (unfold position, sizeof_header; simpl; lia).
  eapply bind_ok; [apply (clear_ok s A ws3 D W3)|].
  eapply bind_ok; [apply (write_chains_ok s A ws3 W3 _ pss []); simpl; unfold position; simpl; lia|].
  cbn [app]. eapply bind_ok; [apply (terminate_ok s A ws3 W3); [done..| |lia]|].
  { unfold position. lia. }
  cbv beta. replace (position A (concat pss) + 2 - Z.of_nat (length A))
    with (Z.of_nat (length (encs (concat pss))) + 22) by (unfold position; lia).
  fold (len_of (concat pss)). rewrite u32_small by lia. fold (data_of (concat pss) (length D)).
  set (D' := data_of (concat pss) (length D)) in *. set (len := len_of (concat pss)) in *.
  pose proof (words_insert _ 1 (le32 len) W3 eq_refl) as W4. simpl in W4.
  eapply bind_ok; [apply (store32_ok s A _ D' W3 1); [unfold f_len; lia|lia]|]. simpl.
  eapply bind_ok; [apply (checksum_ok s A _ D' _ W4); lia|].
  eapply bind_ok; [apply (load32_ok s A _ D' W4 2); [unfold f_crc_ver_init; lia|reflexivity]|].
  rewrite word_le32 by done.
  eapply bind_ok; [apply (store32_ok s A _ D' W4 2); [unfold f_crc_ver_init; lia|lia]|]. done.
Qed.

(** * Reading it back *)

(** A variable that the image can hold: no NUL in it, no ['='] in the name. *)
Definition text_ok (p : cstr * cstr) : Prop :=
  Forall (fun b => b <> 0) p.1 /\ Forall (fun b => b <> 0) p.2 /\ Forall (fun b => b <> 61) p.1.

Lemma cstring_app t rest : Forall (fun b => b <> 0) t -> cstring (t ++ 0 :: rest) = Some t.
Proof.
  induction 1 as [|b t Hb H IH]; simpl; [done|]. rewrite (proj2 (Z.eqb_neq _ _) Hb). by rewrite IH.
Qed.

Lemma split_eq_app n v : Forall (fun b => b <> 61) n -> split_eq (n ++ 61 :: v) = Some (n, v).
Proof.
  induction 1 as [|b n Hb H IH]; simpl; [done|]. rewrite (proj2 (Z.eqb_neq _ _) Hb). by rewrite IH.
Qed.

Definition set_all (m : gmap cstr cstr) (ps : list (cstr * cstr)) : gmap cstr cstr :=
  fold_left (fun m p => <[p.1 := p.2]> m) ps m.

Lemma set_all_spec ps : forall m n, NoDup ps.*1 ->
  set_all m ps !! n = match (list_to_map ps : gmap cstr cstr) !! n with Some v => Some v | None => m !! n end.
Proof.
  induction ps as [|[k v] ps IH]; intros m n Nd; [done|]. simpl in Nd. apply list.NoDup_cons in Nd as [Hk Nd].
  simpl. rewrite (IH _ _ Nd). destruct (decide (n = k)) as [->|Hn].
  - rewrite lookup_insert_eq, (not_elem_of_list_to_map_1 _ _ Hk). by rewrite lookup_insert_eq.
  - by rewrite !lookup_insert_ne by done.
Qed.

Section reading.
Context (E : env) (Mem : forall k, oom E k = false).

Lemma rehash_loop_ok ps : forall fuel s pos m rest,
  (length ps < fuel)%nat -> 0 <= pos ->
  drop (Z.to_nat pos) (mmap (hd s)) = encs ps ++ 0 :: rest ->
  Forall text_ok ps -> Forall (fun p => Z.of_nat (length p.2) + 1 <= room s) ps -> rep m s ->
  twp (rehash_loop E fuel pos) (fun _ s' => rep (set_all m ps) s' /\ same_rest s s') s.
Proof using Mem.
  induction ps as [|[n v] ps IH]; intros [|fuel] s pos m rest Hf Hp Hd Ht Hr R; try (simpl in Hf; lia);
    cbn [rehash_loop]; twp_step; unfold string_at; do 2 twp_step;
    rewrite (proj2 (Z.leb_le _ _) Hp), Hd.
  - eapply twp_lift; [reflexivity|]. apply twp_ret. split; [done|apply same_rest_refl].
  - apply Forall_cons_1 in Ht as [(H1 & H2 & H3) Ht], Hr as [Hv Hr]. simpl in H1, H2, H3, Hv.
    assert (encs ((n, v) :: ps) ++ 0 :: rest = (n ++ 61 :: v) ++ 0 :: (encs ps ++ 0 :: rest)) as Ee.
    { unfold encs. simpl. unfold enc at 1. simpl. rewrite <- !app_assoc. simpl. by rewrite <- !app_assoc. }
    rewrite Ee in Hd |- *.
    eapply twp_lift; [apply cstring_app, Forall_app; split; [done|by constructor]|].
    rewrite split_eq_app by done.
    assert (forall (X : Type) (a b : X), match n ++ 61 :: v with [] => a | _ => b end = b) as Ne
      by (intros; by destruct n).
    rewrite Ne. twp_step. eapply twp_mono; [apply (set_ok E Mem), R|]. intros r s' H.
    rewrite (proj2 (Z.leb_le _ _) Hv) in H. destruct H as [_ U]. cbv beta.
    assert (same_rest s s') as Sr by apply U.
    eapply twp_mono.
    + apply (IH fuel s' _ (<[n := v]> m) rest); [simpl in Hf; lia|lia| |done| |].
      * replace (Z.to_nat _) with (Z.to_nat pos + S (length (n ++ 61%Z :: v)))%nat by lia.
        rewrite <- drop_drop, (proj1 Sr), Hd. rewrite (cons_middle 0), app_assoc.
        rewrite drop_app_length'; [done|]. rewrite !length_app. simpl. lia.
      * by rewrite (same_rest_room _ _ Sr).
      * apply (rep_updated _ _ _ _ (Some v) R U).
    + intros [] s2 [R2 S2]. split; [done|]. by eapply same_rest_trans.
Qed.

(** The variables the header provides when the data has none. *)
Definition sdram_names : list cstr :=
  [str "sdram_init"; str "sdram_config"; str "sdram_refresh"; str "sdram_ncdl"].

(** [m'] has the variables of [m], and perhaps SDRAM parameters. *)
Definition extends (m m' : gmap cstr cstr) : Prop :=
  m ⊆ m' /\ forall n, n ∉ sdram_names -> m' !! n = m !! n.

Lemma extends_refl m : extends m m.
Proof using. done. Qed.
Lemma extends_trans m1 m2 m3 : extends m1 m2 -> extends m2 m3 -> extends m1 m3.
Proof using.
  intros [S1 H1] [S2 H2]. split; [by etransitivity|]. intros n Hn. by rewrite H2, H1.
Qed.

Lemma load32_total s pos : 0 <= pos -> pos + 4 <= Z.of_nat (length (mmap (hd s))) ->
  exists x, load32 pos s = Ok x s.
Proof using.
  intros H1 H2. eexists. unfold load32. eapply bind_ok; [|reflexivity].
  unfold load, mbind, M_bind, get. cbv zeta. rewrite andb_true_r, span_true by done. reflexivity.
Qed.

Lemma hex_length k : forall n, length (hex k n) = k.
Proof using. induction k as [|k IH]; intros n; simpl; [done|]. rewrite length_app, IH. simpl. lia. Qed.

Lemma set_default_ok s m n v x : rep m s -> v s = Ok x s -> Z.of_nat (length x) + 1 <= room s ->
  twp (set_default E n v) (fun _ s' => same_rest s s' /\ rep (m ∪ {[n := x]}) s') s.
Proof using Mem.
  intros R Hx Hr. unfold set_default. twp_step.
  eapply twp_intro; [apply get_ok, R|]. rewrite <- (proj2 R). destruct (m !! n) as [w|] eqn:Em.
  - apply twp_ret. split; [apply same_rest_refl|].
    replace (m ∪ {[n := x]}) with m; [done|]. apply map_eq. intros k. symmetry.
    destruct (decide (k = n)) as [->|]; [by rewrite Em; apply lookup_union_Some_l|].
    rewrite lookup_union, lookup_singleton_ne by done. by destruct (m !! k).
  - twp_step. eapply twp_intro; [exact Hx|]. twp_step.
    eapply twp_mono; [apply (set_ok E Mem), R|]. intros r s' H. apply twp_ret.
    rewrite (proj2 (Z.leb_le _ _)) in H by done.
    destruct H as [_ U]. split; [apply U|]. rewrite <- insert_union_singleton_r by done.
    apply (rep_updated _ _ _ _ (Some x) R U).
Qed.

(** The parameters a header stands for. *)
Definition sdram_of (ws : list (list Z)) : gmap cstr cstr :=
  let x i := word (nth i ws []) in
  {[str "sdram_init" := print_hex 4 (u16 (Z.shiftr (x 2%nat) 16))]} ∪
  ({[str "sdram_config" := print_hex 4 (u16 (Z.land (x 3%nat) 65535))]} ∪
  ({[str "sdram_refresh" := print_hex 4 (u16 (Z.land (Z.shiftr (x 3%nat) 16) 65535))]} ∪
   {[str "sdram_ncdl" := print_hex 8 (x 4%nat)]})).

Lemma sdram_of_extends m ws : extends m (m ∪ sdram_of ws).
Proof using.
  split; [apply map_union_subseteq_l|]. intros n Hn. rewrite lookup_union.
  assert (sdram_of ws !! n = None) as ->; [|by destruct (m !! n)].
  apply not_elem_of_cons in Hn as [H1 Hn]. apply not_elem_of_cons in Hn as [H2 Hn].
  apply not_elem_of_cons in Hn as [H3 Hn]. apply not_elem_of_cons in Hn as [H4 _].
  unfold sdram_of. rewrite !lookup_union_None, !lookup_singleton_None. split_and!; congruence.
Qed.

(** What reading an image leaves alone; the values of the tuples that were in
    the table before are not freed. *)
Definition reread (s s' : state) : Prop :=
  mmap (hd s') = mmap (hd s) /\ mmap_addr (hd s') = mmap_addr (hd s) /\
  hlength (hd s') = hlength (hd s) /\ offset (hd s') = offset (hd s) /\
  part_size s' = part_size s /\ handles s' = handles s /\ fds s' = fds s /\ maps s' = maps s /\
  tuples s' - known s' = tuples s - known s /\ values s' - known s' = values s.

Lemma free_ok s : exists s0, nvram_free s = Ok tt s0 /\ rep ∅ s0 /\ reread s s0.
Proof using.
  eexists. split; [reflexivity|]. split; [split; [apply table_ok_empty|]|].
  - intros n. rewrite lookup_empty. unfold tb. simpl. symmetry. apply tget_empty.
  - unfold reread, known, tb. cbn [hd set eta_state eta_handle tuples values nvram_hash nvram_dead].
    simpl nvram_dead. simpl tuples. simpl values.
    assert (length (concat (repeat (A := list tuple) [] NVRAM_ARRAYSIZE)) = 0%nat) as -> by done.
    simpl length. split_and!; try done; lia.
Qed.

Lemma reread_same s1 s2 s3 : reread s1 s2 -> same_rest s2 s3 -> reread s1 s3.
Proof using. unfold reread, same_rest. intros. destruct_and!. split_and!; congruence || lia. Qed.

Lemma encs_count ps : (length ps <= length (encs ps))%nat.
Proof using.
  unfold encs. induction ps as [|p ps IH]; simpl; [done|]. rewrite length_app, enc_length. lia.
Qed.

Lemma rehash_exact s A ws ps rest : words ws -> mmap (hd s) = image A ws (encs ps ++ 0 :: rest) ->
  offset (hd s) = Z.of_nat (length A) -> Forall text_ok ps -> NoDup ps.*1 -> 11 <= room s ->
  Forall (fun p => Z.of_nat (length p.2) + 1 <= room s) ps ->
  twp (nvram_rehash E) (fun r s' => r = 0 /\ reread s s' /\
    rep (list_to_map ps ∪ sdram_of ws) s') s.
Proof using Mem.
  intros W Hi Ho Ht Nd Hr Hv. unfold nvram_rehash, nvram_header. do 2 twp_step. rewrite Ho.
  destruct (free_ok s) as (s0 & E0 & R0 & F0). twp_step. eapply twp_intro; [exact E0|]. do 2 twp_step.
  twp_step.
  assert (mmap (hd s0) = image A ws (encs ps ++ 0 :: rest)) as Hi0 by (rewrite (proj1 F0); done).
  assert (room s0 = room s) as Hr0
    by (unfold room; destruct F0 as (_ & _ & -> & -> & _); done).
  pose proof (words_concat _ W) as Lw. pose proof (encs_count ps).
  eapply twp_mono.
  { apply (rehash_loop_ok ps _ s0 _ ∅ rest); [|unfold sizeof_header; lia| |done|by rewrite Hr0|done].
    - rewrite Hi0. unfold image. rewrite !length_app, Lw. simpl. lia.
    - rewrite Hi0. unfold image, sizeof_header. rewrite app_assoc. apply drop_app_length'.
      rewrite length_app, Lw. lia. }
  intros _ s1 [R1 S1].
  assert (set_all ∅ ps = list_to_map ps) as Em.
  { apply map_eq. intros n. rewrite set_all_spec by done. rewrite lookup_empty. by destruct (_ !! n). }
  rewrite Em in R1.
  assert (forall n i pos k (f : Z -> Z) s2 m2 (Q : unit -> state -> Prop),
    same_rest s0 s2 -> rep m2 s2 -> (k <= 8)%nat ->
    pos = Z.of_nat (length A) + 4 * Z.of_nat i -> (i < 5)%nat ->
    (forall s3, same_rest s0 s3 -> rep (m2 ∪ {[n := print_hex k (f (word (nth i ws [])))]}) s3 -> Q tt s3) ->
    twp (set_default E n (x ← load32 pos; mret (print_hex k (f x)))) Q s2) as Step.
  { intros n i pos k f s2 m2 Q S2 R2 Hk Hp Hi5 HQ.
    destruct (lookup_lt_is_Some_2 ws i) as [w Hw]; [by rewrite (proj1 W)|].
    eapply twp_mono; [apply (set_default_ok s2 m2 n _ (print_hex k (f (word w)))); [done| |]|].
    - rewrite (with_img_eta s2), (proj1 S2), Hi0.
      eapply bind_ok; [by apply (load32_ok s2 A ws _ W i)|done].
    - rewrite (same_rest_room _ _ S2), Hr0. unfold print_hex. rewrite length_app, hex_length. simpl. lia.
    - intros [] s3 [S3 R3]. apply HQ; [by eapply same_rest_trans|].
      rewrite nth_lookup, Hw. exact R3. }
  unfold f_crc_ver_init, f_config_refresh, f_config_ncdl.
  twp_step. apply (Step _ 2%nat _ _ _ _ _ _ S1 R1); [lia..|].
  intros s2 S2 R2. twp_step. apply (Step _ 3%nat _ _ _ _ _ _ S2 R2); [lia..|].
  intros s3 S3 R3. twp_step. apply (Step _ 3%nat _ _ _ _ _ _ S3 R3); [lia..|].
  intros s4 S4 R4. twp_step. apply (Step _ 4%nat _ _ (fun x => x) _ _ _ S4 R4); [lia..|].
  intros s5 S5 R5. twp_step. split; [done|]. split; [by eapply reread_same|].
  rewrite <- !map_union_assoc in R5. exact R5.
Qed.

Lemma rehash_ok s A ws ps rest : words ws -> mmap (hd s) = image A ws (encs ps ++ 0 :: rest) ->
  offset (hd s) = Z.of_nat (length A) -> Forall text_ok ps -> NoDup ps.*1 -> 11 <= room s ->
  Forall (fun p => Z.of_nat (length p.2) + 1 <= room s) ps ->
  twp (nvram_rehash E) (fun r s' => r = 0 /\ reread s s' /\
    exists m', rep m' s' /\ extends (list_to_map ps) m') s.
Proof using Mem.
  intros W Hi Ho Ht Nd Hr Hv. eapply twp_mono; [by eapply rehash_exact|].
  intros r s' (H1 & H2 & H3). split; [done|]. split; [done|]. eexists. split; [exact H3|].
  apply sdram_of_extends.
Qed.
End reading.
(** * Committing *)

Lemma tuples_pairs l : Forall (fun t => is_Some (value t)) l -> exists ps, l = map as_tuple ps.
Proof.
  induction 1 as [|[n o] l [v Hv] H [ps ->]]; [by exists []|]. simpl in Hv. subst o. by exists ((n, v) :: ps).
Qed.

Lemma table_pairs t : table_ok t -> exists pss, t = map (map as_tuple) pss.
Proof.
  intros [_ H]. assert (Forall (fun l => exists ps, l = map as_tuple ps) t) as F.
  { apply Forall_lookup. intros i l Hi. destruct (H i l Hi) as [_ Hf]. apply tuples_pairs.
    eapply Forall_impl; [exact Hf|]. by intros ? [_ ?]. }
  clear H. induction F as [|l t [ps ->] F [pss ->]]; [by exists []|]. by exists (ps :: pss).
Qed.

(** The variables of the table are those of the map, in some order. *)
Lemma table_perm m s pss : rep m s -> tb s = map (map as_tuple) pss ->
  concat pss ≡ₚ map_to_list m /\ NoDup (concat pss).*1.
Proof.
  intros [T R] Ht.
  assert (concat (tb s) = map as_tuple (concat pss)) as Hc by (rewrite Ht; by rewrite <- concat_map).
  pose proof (table_nodup _ T) as Nd. rewrite Hc, map_map in Nd. simpl in Nd.
  assert (NoDup (concat pss).*1) as Nd1 by exact Nd.
  split; [|done]. apply NoDup_Permutation; [by apply (NoDup_fmap_1 fst)|apply NoDup_map_to_list|].
  intros [n v]. rewrite elem_of_map_to_list, R, <- (table_elem _ _ _ T), Hc. split.
  - intros H. by apply (list_elem_of_fmap_2 as_tuple _ (n, v)).
  - intros H. apply list_elem_of_fmap in H as ([n' v'] & Ep & H). unfold as_tuple in Ep. by simplify_eq/=.
Qed.

Lemma encs_perm ps qs : ps ≡ₚ qs -> length (encs ps) = length (encs qs).
Proof.
  unfold encs. induction 1; simpl; rewrite ?length_app; try lia.
Qed.

(** The bytes that the variables of a map take in an image. *)
Definition data_size (m : gmap cstr cstr) : Z := Z.of_nat (length (encs (map_to_list m))).

(** A handle as [nvram_open] makes it: sizes and alignment. *)
Record aligned (s : state) : Prop := mkAligned {
  a_length : hlength (hd s) = part_size s;
  a_mmap : Z.of_nat (length (mmap (hd s))) = part_size s;
  a_offset : 0 <= offset (hd s) /\ offset (hd s) + 20 <= part_size s;
  a_four : offset (hd s) mod 4 = 0 /\ part_size s mod 4 = 0;
  a_addr : 0 <= mmap_addr (hd s) /\ mmap_addr (hd s) mod 4 = 0 /\
           mmap_addr (hd s) + part_size s < 2 ^ 31
}.

Lemma split_words l : length l = 20%nat -> exists ws, words ws /\ l = concat ws.
Proof.
  intros L. exists [take 4 l; take 4 (drop 4 l); take 4 (drop 8 l); take 4 (drop 12 l); drop 16 l].
  do 21 (destruct l as [|? l]; simplify_eq/=). by repeat constructor.
Qed.

Lemma aligned_fits m s : rep m s -> aligned s -> data_size m + 2 <= part_size s - offset (hd s) - 20 ->
  exists A ws D pss, fits s A ws D pss.
Proof.
  intros R [Hl Hm [Ho Ho'] [Ho4 Hp4] Ha] Hd. set (o := Z.to_nat (offset (hd s))).
  destruct (table_pairs _ (proj1 R)) as [pss Ht]. destruct (table_perm m s pss R Ht) as [Hp _].
  destruct (split_words (take 20 (drop o (mmap (hd s))))) as (ws & W & Hw).
  { rewrite length_take, length_drop. lia. }
  exists (take o (mmap (hd s))), ws, (drop 20 (drop o (mmap (hd s)))), pss.
  assert (length (take o (mmap (hd s))) = o) as La by (rewrite length_take; lia).
  assert (Z.of_nat (length (drop 20 (drop o (mmap (hd s))))) = part_size s - offset (hd s) - 20) as Ld
    by (rewrite !length_drop; lia).
  split; try done.
  - unfold image. rewrite <- Hw, !take_drop. done.
  - rewrite La. unfold o. lia.
  - rewrite La, Ld. unfold o. lia.
  - rewrite La, Ld. split; [unfold o; by rewrite Z2Nat.id|].
    replace (part_size s - offset (hd s) - 20) with (part_size s - (offset (hd s) + 5 * 4)) by lia.
    by rewrite Zminus_mod, Hp4, Z.mod_add, Ho4 by lia.
  - rewrite (encs_perm _ _ Hp), Ld. exact Hd.
Qed.

Lemma encs_value p ps : p ∈ ps -> Z.of_nat (length p.2) + 1 <= Z.of_nat (length (encs ps)).
Proof.
  intros Hin. apply list_elem_of_split in Hin as (l1 & l2 & ->).
  rewrite encs_app, length_app. unfold encs at 2. simpl. rewrite length_app, enc_length. lia.
Qed.

(** All of [nvram_commit]. *)
Lemma commit_ok E m s : (forall k, oom E k = false) -> rep m s -> aligned s ->
  (forall n v, m !! n = Some v -> text_ok (n, v)) ->
  data_size m + 2 <= part_size s - offset (hd s) - 20 ->
  exists s' A ps d x y z,
    let len := len_of ps in
    let crc := crc_of len [le32 NVRAM_MAGIC; le32 len; le32 x; le32 y; le32 z] (data_of ps d) in
    let img := image A [le32 NVRAM_MAGIC; le32 len; le32 (Z.lor x crc); le32 y; le32 z] (data_of ps d) in
    nvram_commit E s = Ok 0 s' /\ reread (with_img s img) s' /\
    (exists m', rep m' s' /\ extends m m') /\
    offset (hd s) = Z.of_nat (length A) /\ part_size s = Z.of_nat (length A) + 20 + Z.of_nat d /\
    Z.of_nat d mod 4 = 0 /\ ps ≡ₚ map_to_list m /\ x mod 256 = 0 /\ 0 <= x < 2 ^ 32 /\
    take (length A) (mmap (hd s)) = A.
Proof.
  intros Mem R Al Ht Hd. destruct (aligned_fits m s R Al Hd) as (A & ws & D & pss & F).
  destruct (commit_image E s A ws D pss (proj1 R) F) as (x & y & z & Hx & Hx' & Ec).
  destruct (table_perm m s pss R (f_table _ _ _ _ _ F)) as [Hp Nd].
  destruct F as [Fm _ Fo Fs [_ Fd] _ _ Fr]. destruct (data_length _ _ Fr Fd) as (Ld & _ & _).
  simpl in Ec. set (ps := concat pss) in *. set (crc := crc_of _ _ _) in Ec.
  set (img := image _ _ _) in Ec.
  assert (room (with_img s img) = part_size s - offset (hd s)) as Hroom.
  { destruct Al as [Hl _ Ho _ (Ha & _ & Ha')]. unfold room. change (hlength _) with (hlength (hd s)).
    change (offset _) with (offset (hd s)). rewrite u32_small; lia. }
  assert (Forall text_ok ps) as Hps.
  { apply Forall_forall. intros [n v] Hin. apply Ht, elem_of_map_to_list. by rewrite <- Hp. }
  destruct (twp_elim _ _ _ (rehash_ok E Mem (with_img s img) A
    [le32 NVRAM_MAGIC; le32 (len_of ps); le32 (Z.lor x crc); le32 y; le32 z] ps
    (repeat 0 (pad (length (encs ps))) ++
     repeat 255 (length D - length (encs ps) - (1 + pad (length (encs ps)))))
    ltac:(by repeat constructor) eq_refl Fo Hps Nd ltac:(lia)
    ltac:(apply Forall_forall; intros p Hin; pose proof (encs_value p ps Hin); lia)))
    as (r & s' & Er & -> & Rr & m' & R' & X).
  exists s', A, ps, (length D), x, y, z. cbv zeta.
  split; [by rewrite Ec|]. split; [done|]. split.
  { exists m'. split; [done|]. replace m with (list_to_map (M := gmap cstr cstr) ps); [done|].
    rewrite <- (list_to_map_to_list m). by apply list_to_map_proper. }
  do 6 (split; [done|]). rewrite Fm. apply take_app_length.
Qed.


Lemma lor_crc x crc : x mod 256 = 0 -> 0 <= x < 2 ^ 32 -> byte crc ->
  Z.lor x crc mod 256 = crc /\ 0 <= Z.lor x crc < 2 ^ 32.
Proof.
  intros Hx Hx' Hc. change 256 with (2 ^ 8) in Hx. split.
  - change 256 with (2 ^ 8). rewrite <- Z.land_ones, Z.land_lor_distr_l, !Z.land_ones, Hx by lia.
    rewrite Z.lor_0_l. by apply Z.mod_small.
  - assert (Z.lor x crc = x + crc) as ->; [|].
    + rewrite Z.add_nocarry_lxor, Z.lxor_lor; try done;
        rewrite <- (Z.mod_small crc 256) by done; change 256 with (2 ^ 8);
        rewrite <- Z.land_ones, Z.land_assoc, (Z.land_comm x), <- Z.land_assoc, Z.land_ones, Hx by lia;
        apply Z.land_0_r.
    + pose proof (Z.div_mod x (2 ^ 8) ltac:(lia)). unfold byte in Hc.
      change (2 ^ 32) with (2 ^ 8 * 16777216) in *. nia.
Qed.

(** The checksum leaves out the byte it is stored in. *)
Lemma crc_of_stored len w0 w1 x crc w3 w4 D : length w0 = 4%nat -> length w1 = 4%nat -> byte crc ->
  crc_of len [w0; w1; le32 (Z.lor x crc); w3; w4] D = crc_of len [w0; w1; le32 x; w3; w4] D.
Proof.
  intros H0 H1 Hc. unfold crc_of. do 2 f_equal.
  assert (forall k, 8 <= k -> Z.shiftr (Z.lor x crc) k = Z.shiftr x k) as Sh.
  { intros k Hk. rewrite Z.shiftr_lor. rewrite (Z.shiftr_div_pow2 crc) by lia.
    rewrite (Z.div_small crc), Z.lor_0_r; [done|]. unfold byte in Hc.
    assert (2 ^ 8 <= 2 ^ k) by (apply Z.pow_le_mono_r; lia). lia. }
  do 5 (destruct w0 as [|? w0]; simplify_eq/=). do 5 (destruct w1 as [|? w1]; simplify_eq/=).
  by rewrite !Sh by lia.
Qed.

Lemma encs_bytes ps : (forall p, p ∈ ps -> Forall byte p.1 /\ Forall byte p.2) -> Forall byte (encs ps).
Proof.
  intros H. unfold encs. induction ps as [|p ps IH]; simpl; [constructor|].
  destruct (H p ltac:(set_solver)) as [H1 H2]. apply Forall_app. split.
  - unfold enc. apply Forall_app. split; [done|]. constructor; [by unfold byte; lia|].
    apply Forall_app. split; [done|]. constructor; [by unfold byte; lia|constructor].
  - apply IH. intros q Hq. apply H. set_solver.
Qed.

Lemma data_bytes ps d : Forall byte (encs ps) -> Forall byte (data_of ps d).
Proof.
  intros H. unfold data_of. apply Forall_app. split; [done|]. apply Forall_app.
  split; apply List.Forall_forall; intros b Hb%repeat_spec; subst b; unfold byte; lia.
Qed.

Lemma crc_of_byte len a b c d e D : Forall byte D ->
  byte (crc_of len [le32 a; le32 b; le32 c; le32 d; le32 e] D).
Proof.
  intros H. unfold crc_of. apply hndcrc8_byte; [by apply Forall_take|].
  apply hndcrc8_byte; [|unfold byte; lia]. apply Forall_drop.
  apply Forall_concat. repeat (constructor; [apply le32_bytes|]). constructor.
Qed.

(** The bytes of the image from [pos] on. *)
Definition bytes_from (s : state) (pos n : Z) : list Z := take (Z.to_nat n) (drop (Z.to_nat pos) (mmap (hd s))).

(** The checksum, bit by bit over the bytes behind it. *)
Lemma crc_of_bits s A ws D len : mmap (hd s) = image A ws D -> words ws -> Forall byte (concat ws) -> Forall byte D ->
  20 <= len <= Z.of_nat (length D) + 20 ->
  crc_of len ws D = fold_left crc_byte (bytes_from s (Z.of_nat (length A) + 9) (len - 9)) 255.
Proof.
  intros Hs W Hw HD Hl. pose proof (words_concat _ W) as Lw. unfold crc_of, bytes_from. rewrite Hs. unfold image.
  rewrite drop_app_ge by lia. replace (Z.to_nat _ - length A)%nat with 9%nat by lia.
  rewrite drop_app_le by lia. rewrite take_app_ge by (rewrite length_drop, Lw; lia).
  rewrite length_drop, Lw. replace (Z.to_nat (len - 9) - _)%nat with (Z.to_nat (len - 20)) by lia.
  assert (byte 255) as B by (unfold byte; lia).
  rewrite fold_left_app, <- (nvram_crc8_bitwise (drop 9 (concat ws))); [|by apply Forall_drop|done].
  apply nvram_crc8_bitwise; [by apply Forall_take|]. apply hndcrc8_byte; [by apply Forall_drop|done].
Qed.

Lemma encs_stored s A ws ps d : mmap (hd s) = image A ws (data_of ps d) -> words ws ->
  bytes_from s (Z.of_nat (length A) + 20) (Z.of_nat (length (encs ps)) + 1) = encs ps ++ [0].
Proof.
  intros Hs W. pose proof (words_concat _ W) as Lw. unfold bytes_from. rewrite Hs. unfold image, data_of.
  rewrite drop_app_ge by lia. rewrite drop_app_ge by lia. replace (Z.to_nat _ - _ - _)%nat with 0%nat by lia.
  rewrite drop_0. replace (Z.to_nat _) with (length (encs ps) + 1)%nat by lia. by rewrite take_app_add.
Qed.

End NvramCommit.
