(* ===== verification/NvramOpen.v ===== *)
(** Opening the NVRAM: a committed image is found again; and a concrete partition
    on which the theorems about the library are applied. *)

From Stdlib Require Import ZArith Lia Ascii String.
From stdpp Require Import base list list_numbers numbers gmap sets.
From S2P Require Import Prelude CString Nvram NvramSpec NvramCommit.

Open Scope list_scope.
Open Scope Z_scope.

Module NvramOpen.
Import Nvram NvramSpec NvramCommit.

(** * Finding the image *)

(** No word of [l] is the magic number. *)
Fixpoint no_magic (l : list Z) : Prop :=
  match l with
  | a :: b :: c :: d :: l => word [a; b; c; d] <> NVRAM_MAGIC /\ no_magic l
  | _ => True
  end.

Lemma find_magic_ok k : forall A rest last i s,
  length A = (4 * k)%nat -> no_magic A -> i + Z.of_nat k <= last ->
  find_magic (A ++ le32 NVRAM_MAGIC ++ rest) last i s = Ok (Some ((i + Z.of_nat k) * 4)) s.
Proof.
  induction k as [|k IH]; intros A rest last i s L H Hi.
  - destruct A; [|done]. cbn [app find_magic le32]. replace (last <? i) with false by lia.
    change (word _ =? NVRAM_MAGIC) with true. unfold mret, M_ret. do 3 f_equal. lia.
  - destruct A as [|a [|b [|c [|d A]]]]; simpl in L; try lia.
    cbn [app find_magic no_magic] in *. destruct H as [Hw H].
    replace (last <? i) with false by lia. rewrite (proj2 (Z.eqb_neq _ _) Hw).
    rewrite IH by (done || lia). do 3 f_equal. lia.
Qed.

(** The state with a handle on the image at [length A] of the mapping. *)
Definition opened (s : state) (m : list Z) (addr off : Z) : state :=
  mkState (mkHandle m addr (part_size s) off (repeat [] NVRAM_ARRAYSIZE) [])
    (part_size s) (tuples s) (values s) (1 + handles s) (1 + fds s) (1 + maps s) (S (allocs s)).

Lemma open_image E d rdonly s A len ws D addr k : (forall k, oom E k = false) ->
  can_open d = true -> mapping d (part_size s) = Some (image A (le32 NVRAM_MAGIC :: le32 len :: ws) D, addr) ->
  part_size s <> 0 -> words (le32 NVRAM_MAGIC :: le32 len :: ws) -> 0 <= len < 2 ^ 32 ->
  length A = (4 * k)%nat -> no_magic A -> Z.of_nat k <= u32 (part_size s - NVRAM_MIN_SPACE) / 4 ->
  let s' := opened s (image A (le32 NVRAM_MAGIC :: le32 len :: ws) D) addr (Z.of_nat (length A)) in
  nvram_open E d true rdonly s =
    if rdonly || (len <? u32 (part_size s - Z.of_nat (length A)))
    then (_ ← nvram_rehash E; mret true) s'
    else Ok false (s' <| maps ::= Z.add (-1) |> <| handles ::= Z.add (-1) |>).
Proof.
  intros Mem Ho Hm Hp W Hl HA Nm Hk s'. set (img := image _ _ _) in *. unfold nvram_open.
  eapply bind_ok; [reflexivity|]. rewrite (proj2 (Z.eqb_neq _ _) Hp). cbn [orb negb].
  eapply bind_ok; [reflexivity|]. rewrite Ho. cbn [negb].
  eapply bind_ok; [reflexivity|]. eapply bind_ok; [reflexivity|].
  change (part_size (s <| fds ::= Z.add 1 |>)) with (part_size s). rewrite Hm.
  eapply bind_ok; [reflexivity|].
  assert (img = A ++ le32 NVRAM_MAGIC ++ (le32 len ++ concat ws ++ D)) as Ei
    by (unfold img, image; simpl; by rewrite <- ?app_assoc).
  eapply bind_ok; [rewrite Ei at 1; apply (find_magic_ok k); done|].
  eapply bind_ok; [eapply bind_ok; [reflexivity|]; eapply bind_ok; [reflexivity|];
    unfold mret, M_ret; by rewrite Mem|]. cbn [negb].
  eapply bind_ok; [unfold modify; reflexivity|]. cbv zeta.
  replace ((0 + Z.of_nat k) * 4) with (Z.of_nat (length A)) by lia.
  match goal with |- _ ?x = _ => change x with s' end.
  assert (forall i w pos, pos = Z.of_nat (length A) + 4 * Z.of_nat i ->
    (le32 NVRAM_MAGIC :: le32 len :: ws) !! i = Some w -> load32 pos s' = Ok (word w) s') as L.
  { intros i w pos Hpos Hw. exact (load32_ok s' A _ D W i pos w Hpos Hw). }
  eapply bind_ok; [apply (L 0%nat (le32 NVRAM_MAGIC)); [unfold f_magic; lia|done]|].
  eapply bind_ok; [apply (L 1%nat (le32 len)); [unfold f_len; lia|done]|].
  eapply bind_ok; [reflexivity|]. rewrite !word_le32 by (done || unfold NVRAM_MAGIC; lia).
  rewrite Z.eqb_refl. cbn [andb]. change (hlength (hd s')) with (part_size s).
  change (offset (hd s')) with (Z.of_nat (length A)). by destruct (rdonly || _).
Qed.

(** what [nvram_commit] has written, [nvram_open] finds again: the handle it
    gives has the variables that were committed, for reading always, for writing
    exactly when the length of the image is less than the partition.  [nvram_commit]
    itself also writes images that fill the partition: those are refused. *)
Theorem nvram_reopen E m s :
  (forall k, oom E k = false) -> rep m s -> aligned s ->
  (forall n v, m !! n = Some v -> text_ok (n, v)) ->
  data_size m + 2 <= part_size s - offset (hd s) - 20 ->
  no_magic (take (Z.to_nat (offset (hd s))) (mmap (hd s))) ->
  offset (hd s) + NVRAM_MIN_SPACE <= part_size s ->
  exists s', nvram_commit E s = Ok 0 s' /\
    forall d rdonly s2, can_open d = true -> mapping d (part_size s2) = Some (mmap (hd s'), mmap_addr (hd s)) ->
      part_size s2 = part_size s ->
      if rdonly || (NVRAM_ROUNDUP (data_size m + 22) 4 <? part_size s - offset (hd s))
      then exists s3 m', nvram_open E d true rdonly s2 = Ok true s3 /\ rep m' s3 /\ extends m m'
      else exists s3, nvram_open E d true rdonly s2 = Ok false s3 /\ fds s3 = fds s2 + 1.
Proof.
  intros Mem R Al Ht Hd Nm Hmin.
  destruct (commit_ok E m s Mem R Al Ht Hd)
    as (s' & A & ps & d & x & y & z & Ec & Rr & _ & Ho & Hs & Hd4 & Hp & Hx & Hx' & HA).
  exists s'. split; [done|]. intros dev rdonly s2 Hopen Hmap Hps.
  assert (len_of ps = NVRAM_ROUNDUP (data_size m + 22) 4) as El
    by (unfold len_of, data_size; by rewrite (encs_perm _ _ Hp)).
  rewrite Ho, Nat2Z.id, HA in Nm.
  pose proof (proj1 Rr) as Hm. rewrite mmap_with_img in Hm. rewrite Hm in Hmap. clear Hm.
  rewrite El in Hmap. set (len := NVRAM_ROUNDUP _ 4) in *. set (crc := crc_of _ _ _) in Hmap.
  set (ws := [le32 NVRAM_MAGIC; le32 len; le32 (Z.lor x crc); le32 y; le32 z]) in Hmap.
  set (D := data_of ps d) in *. assert (words ws) as W by by repeat constructor.
  destruct Al as [Al1 Al2 Al3 [Al4 Al5] Al6]. rewrite Ho in Al4.
  destruct (Zmod_divides (Z.of_nat (length A)) 4 ltac:(lia)) as [[q Hq] _]; [done|].
  assert (0 <= len < 2 ^ 32) as Hlen.
  { pose proof (data_sizes (data_size m) (Z.of_nat d) ltac:(unfold data_size; lia) ltac:(lia) Hd4) as Sz.
    simpl in Sz. fold len in Sz. lia. }
  assert (part_size s2 <> 0) as Hne by (unfold NVRAM_MIN_SPACE in Hmin; lia).
  assert (Z.of_nat (Z.to_nat q) <= u32 (part_size s2 - NVRAM_MIN_SPACE) / 4) as Hq'.
  { rewrite Hps, u32_small by (unfold NVRAM_MIN_SPACE in *; lia).
    apply Z.div_le_lower_bound; lia. }
  rewrite (open_image E dev rdonly s2 A len _ D _ (Z.to_nat q) Mem Hopen Hmap Hne W Hlen
    ltac:(lia) Nm Hq').
  rewrite Hps, u32_small, <- Ho by lia. destruct (rdonly || _); [|eexists; split; [done|simpl; lia]].
  set (s3 := opened _ _ _ _).
  assert (room s3 = part_size s - offset (hd s)) as Hroom.
  { unfold room. change (hlength (hd s3)) with (part_size s2). rewrite Hps.
    change (offset (hd s3)) with (offset (hd s)). rewrite u32_small; lia. }
  assert (Z.of_nat (length (encs ps)) = data_size m) as Hsz by (unfold data_size; by rewrite (encs_perm _ _ Hp)).
  destruct (twp_elim _ _ _ (rehash_ok E Mem s3 A ws ps
    (repeat 0 (pad (length (encs ps))) ++ repeat 255 (d - length (encs ps) - (1 + pad (length (encs ps)))))
    W eq_refl Ho
    ltac:(apply Forall_forall; intros [n v] Hin; rewrite Hp in Hin; by apply Ht, elem_of_map_to_list)
    ltac:(rewrite Hp; apply NoDup_fst_map_to_list) ltac:(lia)
    ltac:(apply Forall_forall; intros p Hin; pose proof (encs_value p ps Hin); lia)))
    as (r & s4 & Er & _ & _ & m' & R' & X).
  exists s4, m'. split; [by eapply bind_ok|]. split; [done|].
  replace m with (list_to_map (M := gmap cstr cstr) ps); [done|].
  rewrite <- (list_to_map_to_list m). apply list_to_map_proper; [|done].
  rewrite Hp. apply NoDup_fst_map_to_list.
Qed.

(** * A partition *)

Definition demo_env : env := mkEnv (fun _ => false) (2 ^ 32 - 1).
Definition bad_env : env := mkEnv (fun _ => true) (2 ^ 32 - 1).

Definition key : cstr := str "boot_wait".
Definition val : cstr := str "on".

(** 32 KiB with an image at the start and one variable set. *)
Definition demo_image : list Z := le32 NVRAM_MAGIC ++ repeat 0 (Z.to_nat 32764).
Definition demo_table : list (list tuple) :=
  <[bucket key := [mkTuple key (Some val)]]> (repeat [] NVRAM_ARRAYSIZE).
Definition demo : state :=
  mkState (mkHandle demo_image 4096 32768 0 demo_table []) 32768 1 1 1 1 1 2.
Definition demo_map : gmap cstr cstr := {[ key := val ]}.

Lemma demo_represents : rep demo_map demo.
Proof.
  assert (repeat (A := list tuple) [] NVRAM_ARRAYSIZE !! bucket key = Some []) as H0 by by vm_compute.
  split.
  - apply table_ok_insert; [apply table_ok_empty|]. split.
    + apply NoDup_singleton.
    + repeat constructor. eauto.
  - intros n. change (tb demo) with demo_table. unfold demo_table, demo_map.
    rewrite (tget_insert _ key n [] _ (Some val)); [|apply table_ok_empty|done|].
    + rewrite tget_empty. destruct (decide (n = key)) as [->|Hn].
      * apply lookup_singleton_eq.
      * by apply lookup_singleton_ne.
    + intros k. rewrite cget_cons. done.
Qed.

Lemma demo_length : Z.of_nat (length demo_image) = 32768.
Proof. unfold demo_image. rewrite length_app, repeat_length. simpl length. lia. Qed.

Lemma demo_aligned : aligned demo.
Proof. split; [done|exact demo_length|simpl; lia|done|by vm_compute]. Qed.

Lemma demo_text n v : demo_map !! n = Some v -> text_ok (n, v) /\ Forall byte n /\ Forall byte v.
Proof.
  unfold demo_map. intros [<- <-]%lookup_singleton_Some. unfold text_ok, byte. vm_compute.
  repeat split; repeat constructor; done.
Qed.

Lemma demo_size : data_size demo_map = 13.
Proof. unfold data_size, demo_map. by rewrite map_to_list_singleton. Qed.

Lemma nvram_refines_map_witness : exists s',
  exec_all demo_env [Set_ (str "a") (str "1"); Unset key; Get (str "a"); Get key] demo =
    Ok [Code 0; Code 0; Value (Some (str "1")); Value None] s'.
Proof.
  destruct (nvram_refines_map demo_env demo_map demo
    [Set_ (str "a") (str "1"); Unset key; Get (str "a"); Get key] (fun _ => eq_refl) demo_represents)
    as (s' & H & _).
  exists s'. rewrite H. reflexivity.
Defined.

Lemma nvram_getall_complete_witness : exists l s', nvram_getall demo_env demo = Ok l s' /\ length l = 1%nat.
Proof.
  destruct (nvram_getall_complete demo_env demo_map demo (fun _ => eq_refl) demo_represents) as (l & s' & H & _ & _ & P).
  exists l, s'. split; [exact H|]. rewrite P. by vm_compute.
Defined.

Lemma nvram_set_loses_value_witness : exists s',
  nvram_set bad_env key (str "off") demo = Ok ENOMEM s' /\ nvram_get (Some key) s' = Ok None s'.
Proof.
  destruct (nvram_set_loses_value bad_env demo key (str "off") val (proj1 demo_represents)
    ltac:(by vm_compute) ltac:(by vm_compute) ltac:(by vm_compute) eq_refl) as (s' & H1 & H2 & _).
  exists s'. split; [exact H1|exact H2].
Defined.



Lemma nvram_reopen_witness : exists s', nvram_commit demo_env demo = Ok 0 s' /\
  exists s3 m', nvram_open demo_env (mkDevice None (fun _ => None) true (fun _ => Some (mmap (hd s'), 4096))) true false demo =
    Ok true s3 /\ rep m' s3 /\ m' !! key = Some val.
Proof.
  destruct (nvram_reopen demo_env demo_map demo (fun _ => eq_refl) demo_represents demo_aligned
    (fun n v H => proj1 (demo_text n v H)) ltac:(rewrite demo_size; simpl; lia) I
    ltac:(simpl; unfold NVRAM_MIN_SPACE; lia)) as (s' & H1 & H2).
  exists s'. split; [exact H1|].
  specialize (H2 (mkDevice None (fun _ => None) true (fun _ => Some (mmap (hd s'), 4096))) false demo eq_refl eq_refl eq_refl).
  rewrite demo_size in H2. destruct H2 as (s3 & m' & H3 & H4 & [H5 _]).
  exists s3, m'. split; [exact H3|]. split; [exact H4|].
  apply (lookup_weaken _ _ _ _ (lookup_singleton_eq key val) H5).
Defined.

End NvramOpen.
