(* ===== verification/NvramMtd.v ===== *)
(** Finding the flash partition: [nvram_find_mtd] on the table of partitions that
    the kernel writes to [/proc/mtd]. *)

From Stdlib Require Import ZArith Lia Ascii String.
From stdpp Require Import base list list_numbers numbers.
From S2P Require Import Prelude CString Nvram.

Open Scope list_scope.
Open Scope Z_scope.

Module NvramMtd.
Import Nvram.

(** * The table *)

(** ["%8.8x"] *)
Definition lower (d : Z) : Z := if d <? 10 then 48 + d else 87 + d.
Fixpoint hex_low (k : nat) (n : Z) : cstr :=
  match k with
  | O => []
  | S k => hex_low k (n / 16) ++ [lower (n mod 16)]
  end.

(** A line of the table, as the kernel prints it:
    number, size, size of an erase block and name of a partition. *)
Definition mtd_text (i size erase : Z) (label : cstr) : cstr :=
  str "mtd" ++ print_i i ++ str ": " ++ hex_low 8 size ++ str " " ++ hex_low 8 erase ++
  [32; 34] ++ label ++ [34].
Definition mtd_line (i size erase : Z) (label : cstr) : cstr := mtd_text i size erase label ++ [10].

(** * Lines *)

Definition no_newline (l : cstr) : Prop := Forall (fun b => b <> 10) l.

Lemma fgets_mtd x : forall k r, no_newline x -> (length x < k)%nat ->
  fgets k (x ++ 10 :: r) = (x ++ [10], r).
Proof.
  induction x as [|b x IH]; intros [|k] r H Hk; simpl in Hk; try lia; [done|].
  apply Forall_cons_1 in H as [Hb H]. cbn [app fgets].
  rewrite (proj2 (Z.eqb_neq _ _) Hb), IH by (done || lia). done.
Qed.

Lemma starts_with_app t s : starts_with t (t ++ s) = Some s.
Proof. induction t as [|a t IH]; simpl; [done|]. by rewrite Z.eqb_refl. Qed.

Lemma starts_with_inv t : forall s r, starts_with t s = Some r -> s = t ++ r.
Proof.
  induction t as [|a t IH]; intros [|b s] r H; simplify_eq/=; [done..|].
  destruct (a =? b) eqn:Ea; [|done]. apply Z.eqb_eq in Ea as ->. by rewrite (IH _ _ H).
Qed.

(** [strstr] finds exactly the substrings. *)
Lemma strstr_spec s t : strstr s t = true <-> exists a b, s = a ++ t ++ b.
Proof.
  split.
  - induction s as [|c s IH]; cbn [strstr]; destruct (starts_with t _) as [r|] eqn:Es; intros H; try done.
    + exists [], r. exact (starts_with_inv _ _ _ Es).
    + exists [], r. exact (starts_with_inv _ _ _ Es).
    + destruct (IH H) as (a & b & ->). by exists (c :: a), b.
  - intros (a & b & ->). induction a as [|c a IH].
    + rewrite app_nil_l. destruct (t ++ b) eqn:E; cbn [strstr]; rewrite <- E, starts_with_app; done.
    + cbn [app strstr]. by destruct (starts_with _ _).
Qed.

Lemma strstr_app a s b t : strstr s t = true -> strstr (a ++ s ++ b) t = true.
Proof.
  intros (x & y & ->)%strstr_spec. apply strstr_spec. exists (a ++ x), (y ++ b).
  by rewrite <- !app_assoc.
Qed.

(** * Numbers *)

Lemma str_cons c s : str (String c s) = Z.of_N (N_of_ascii c) :: str s.
Proof. done. Qed.

Lemma digit_of_char c : digit_of (Z.of_N (N_of_ascii c)) = CString.digit c.
Proof. unfold digit_of. by rewrite N2Z.id, ascii_N_embedding. Qed.

Lemma scan_decimal fuel : forall n acc l, 0 <= n < 10 ^ Z.of_nat (S fuel) ->
  scan_digits 10 (str (CString.decimal (S fuel) n acc) ++ l) 0 false =
    scan_digits 10 (str acc ++ l) n true.
Proof.
  induction fuel as [|fuel IH]; intros n acc l Hn; rewrite CString.decimal_unfold;
    pose proof (Z.mod_pos_bound n 10 ltac:(lia)) as Hm;
    destruct (CString.numeral_spec _ Hm) as (Hd & _).
  - replace (n <? 10) with true by lia. rewrite str_cons. cbn [app scan_digits].
    rewrite digit_of_char, Hd, (proj2 (Z.ltb_lt _ _)) by lia. by rewrite Z.mod_small by lia.
  - destruct (n <? 10) eqn:E.
    + rewrite str_cons. cbn [app scan_digits].
      rewrite digit_of_char, Hd, (proj2 (Z.ltb_lt _ _)) by lia. by rewrite Z.mod_small by lia.
    + rewrite IH.
      * rewrite str_cons. cbn [app scan_digits]. rewrite digit_of_char, Hd, (proj2 (Z.ltb_lt _ _)) by lia.
        f_equal. pose proof (Z.div_mod n 10 ltac:(lia)). lia.
      * rewrite (Nat2Z.inj_succ (S fuel)), Z.pow_succ_r in Hn by lia.
        split; [apply Z.div_pos; lia|apply Z.div_lt_upper_bound; lia].
Qed.

Lemma scan_d_ok i l : 0 <= i < 2 ^ 31 -> scan_d (print_i i ++ 58 :: l) = Some (i, 58 :: l).
Proof.
  intros Hi. unfold print_i. replace (i <? 0) with false by lia. unfold scan_d.
  destruct (CString.decimal_head 19 i EmptyString ltac:(lia)) as (d & t & Hd & Et).
  assert (skip_spaces (str (CString.print_u i) ++ 58 :: l) = str (CString.print_u i) ++ 58 :: l /\
    scan_sign (str (CString.print_u i) ++ 58 :: l) = (false, str (CString.print_u i) ++ 58 :: l)) as [-> ->].
  { unfold CString.print_u. rewrite Et, str_cons. cbn [app skip_spaces scan_sign].
    assert (d = 0 \/ d = 1 \/ d = 2 \/ d = 3 \/ d = 4 \/ d = 5 \/ d = 6 \/ d = 7 \/ d = 8 \/ d = 9) as Hc by lia.
    destruct_or!; subst d; done. }
  unfold CString.print_u. rewrite scan_decimal; [done|].
  assert (2 ^ 31 <= 10 ^ 20) by by vm_compute. change (Z.of_nat 20) with 20. lia.
Qed.

(** A lower-case hexadecimal digit as the scanner sees it. *)
Definition is_hex (b : Z) : Prop := (48 <= b <= 57 \/ 97 <= b <= 102).

Lemma lower_spec d : 0 <= d < 16 -> digit_of (lower d) = d /\ is_hex (lower d).
Proof.
  intros H. assert (d = 0 \/ d = 1 \/ d = 2 \/ d = 3 \/ d = 4 \/ d = 5 \/ d = 6 \/ d = 7 \/ d = 8 \/ d = 9 \/
    d = 10 \/ d = 11 \/ d = 12 \/ d = 13 \/ d = 14 \/ d = 15) as Hd by lia.
  unfold is_hex. destruct_or!; subst; (split; [done|]);
    match goal with |- context [lower ?x] => let v := eval vm_compute in (lower x) in change (lower x) with v end;
    lia.
Qed.

Lemma hex_low_length k : forall n, length (hex_low k n) = k.
Proof. induction k as [|k IH]; intros n; simpl; [done|]. rewrite length_app, IH. simpl. lia. Qed.

Lemma hex_low_hex k : forall n, Forall is_hex (hex_low k n).
Proof.
  induction k as [|k IH]; intros n; simpl; [constructor|]. apply Forall_app. split; [apply IH|].
  constructor; [|constructor]. apply lower_spec, Z.mod_pos_bound. lia.
Qed.

Lemma scan_hex k : forall n l x b, 0 <= n < 16 ^ Z.of_nat k ->
  scan_digits 16 (hex_low k n ++ l) x b = scan_digits 16 l (x * 16 ^ Z.of_nat k + n) (b || negb (k =? 0)%nat).
Proof.
  induction k as [|k IH]; intros n l x b Hn.
  - simpl in *. rewrite orb_false_r. f_equal. lia.
  - cbn [hex_low]. rewrite Nat2Z.inj_succ, Z.pow_succ_r in Hn |- * by lia.
    pose proof (Z.mod_pos_bound n 16 ltac:(lia)) as Hm. pose proof (Z.div_mod n 16 ltac:(lia)).
    rewrite <- app_assoc, IH by (split; [apply Z.div_pos|apply Z.div_lt_upper_bound]; lia).
    cbn [app scan_digits]. destruct (lower_spec _ Hm) as [-> _]. rewrite (proj2 (Z.ltb_lt _ _)) by lia.
    cbn [Nat.eqb negb]. rewrite orb_true_r. f_equal. lia.
Qed.

Lemma scan_08x_ok n l : 0 <= n < 2 ^ 32 -> scan_08x (32 :: hex_low 8 n ++ l) = Some n.
Proof.
  intros Hn. unfold scan_08x. cbn [skip_spaces is_space Z.eqb orb Pos.eqb].
  pose proof (hex_low_length 8 n) as L. pose proof (hex_low_hex 8 n) as F.
  assert (scan_digits 16 (hex_low 8 n) 0 false = Some (n, [])) as Sc.
  { rewrite <- (app_nil_r (hex_low 8 n)), scan_hex by done. cbn [scan_digits]. do 2 f_equal. }
  destruct (hex_low 8 n) as [|b0 [|b1 t]] eqn:Eh; simpl in L; try lia.
  apply Forall_cons_1 in F as [H0 F]. apply Forall_cons_1 in F as [H1 _].
  assert (skip_spaces ((b0 :: b1 :: t) ++ l) = (b0 :: b1 :: t) ++ l) as ->.
  { cbn [app skip_spaces]. replace (is_space b0) with false; [done|]. unfold is_space, is_hex in *. lia. }
  rewrite take_app_length' by (simpl; lia). cbn [scan_sign].
  replace (b0 =? 45) with false by (unfold is_hex in *; lia).
  replace (b0 =? 43) with false by (unfold is_hex in *; lia).
  assert (forall T (x y : T), (if (b1 =? 120) || (b1 =? 88) then x else y) = y) as Hx.
  { intros. replace (_ || _) with false; [done|]. unfold is_hex in *. lia. }
  rewrite Hx.
  assert (match b0 with 48 => b0 :: b1 :: t | _ => b0 :: b1 :: t end = b0 :: b1 :: t) as Hm
    by (destruct b0 as [|p|p]; try done; by repeat (destruct p as [p|p|]; try done)).
  rewrite Hm, Sc. cbn [mbind option_bind]. by rewrite u32_small.
Qed.

Lemma scan_mtd_ok i n e label : 0 <= i < 2 ^ 31 -> 0 <= n < 2 ^ 32 ->
  scan_mtd (mtd_line i n e label) = Some (i, Some n).
Proof.
  intros Hi Hn. unfold scan_mtd, mtd_line, mtd_text. rewrite <- !app_assoc, starts_with_app.
  cbn [mbind option_bind]. change (str ": ") with [58; 32]. cbn [app].
  rewrite scan_d_ok by done. cbn [mbind option_bind].
  change (str ":") with [58]. cbn [starts_with Z.eqb Pos.eqb mbind option_bind]. by rewrite scan_08x_ok.
Qed.

(** * The search *)

Definition is_digit (b : Z) : Prop := 48 <= b <= 57.

Lemma decimal_digits fuel : forall n acc, Forall is_digit (str acc) ->
  Forall is_digit (str (CString.decimal fuel n acc)) /\
  (length (str (CString.decimal fuel n acc)) <= fuel + length (str acc))%nat.
Proof.
  induction fuel as [|fuel IH]; intros n acc H; [split; [done|simpl; lia]|].
  rewrite CString.decimal_unfold. pose proof (Z.mod_pos_bound n 10 ltac:(lia)) as Hm.
  assert (Forall is_digit (str (String (CString.numeral (n mod 10)) acc))) as H'.
  { rewrite str_cons. constructor; [|done]. unfold CString.numeral.
    rewrite N_ascii_embedding by lia. unfold is_digit. lia. }
  destruct (n <? 10).
  - split; [done|]. rewrite str_cons. simpl. lia.
  - destruct (IH (n / 10) _ H') as [H1 H2]. split; [done|]. rewrite str_cons in H2. simpl in *. lia.
Qed.

Lemma line_body i n e label : 0 <= i -> no_newline label ->
  no_newline (mtd_text i n e label) /\ (length (mtd_text i n e label) <= 45 + length label)%nat.
Proof.
  intros Hi Hl. unfold mtd_text, print_i. replace (i <? 0) with false by lia.
  destruct (decimal_digits 20 i EmptyString (Forall_nil _)) as [Hd Ld].
  fold (CString.print_u i) in Hd, Ld.
  assert (forall k n, no_newline (hex_low k n)) as Hh.
  { intros k y. eapply List.Forall_impl; [|apply hex_low_hex]. unfold is_hex. simpl. intros; lia. }
  assert (no_newline (str (CString.print_u i))) as Hu.
  { eapply List.Forall_impl; [|exact Hd]. unfold is_digit. simpl. intros; lia. }
  assert (no_newline (str "mtd") /\ no_newline (str ": ") /\ no_newline (str " ") /\
    no_newline [32; 34] /\ no_newline [34]) as (H1 & H2 & H3 & H4 & H5).
  { unfold no_newline. vm_compute. split_and!; repeat (apply Forall_cons_2; [discriminate|]); apply Forall_nil_2. }
  split.
  - unfold no_newline in *. rewrite !Forall_app. split_and!; solve [auto].
  - rewrite !length_app, !hex_low_length. simpl in *. lia.
Qed.

(** A line that is not the one. *)
Definition other_line (l : cstr) : Prop :=
  exists x, l = x ++ [10] /\ no_newline x /\ (length x < PATH_MAX - 1)%nat /\ strstr l (str "nvram") = false.

Definition found (s : state) (n : Z) : state := s <| part_size := n |> <| allocs ::= S |>.

Section search.
Context (E : env) (Mem : forall k, oom E k = false) (d : device).

Lemma mtd_loop_skip pre : forall fuel l size s, Forall other_line pre -> (length pre <= fuel)%nat ->
  mtd_loop E d fuel (concat pre ++ l) size s = mtd_loop E d (fuel - length pre) l size s.
Proof using.
  induction pre as [|x pre IH]; intros fuel l size s H Hf; [simpl; by rewrite Nat.sub_0_r|].
  apply Forall_cons_1 in H as [(y & -> & Hy & Ly & Hs) H]. destruct fuel as [|fuel]; simpl in Hf; [lia|].
  cbn [concat length Nat.sub mtd_loop].
  rewrite <- !app_assoc. cbn [app]. rewrite fgets_mtd by done.
  destruct (y ++ [10]) as [|c y'] eqn:Ey; [by destruct y|]. rewrite Hs. apply IH; [done|lia].
Qed.

(** The number of lines is no more than the number of characters. *)
Lemma lines_length pre : Forall other_line pre -> (length pre <= length (concat pre))%nat.
Proof using.
  induction 1 as [|x pre (y & -> & _) H IH]; simpl; [done|]. rewrite !length_app. simpl. lia.
Qed.

Lemma find_mtd_ok pre i n e label rest s :
  proc_mtd d = Some (concat pre ++ mtd_line i n e label ++ rest) -> Forall other_line pre ->
  0 <= i < 2 ^ 31 -> 0 <= n < 2 ^ 32 -> strstr label (str "nvram") = true -> no_newline label ->
  (length label < 4000)%nat -> block_node d (mtdblock i) = true ->
  nvram_find_mtd E d s = Ok (Some (mtdblock i)) (found s n).
Proof using Mem.
  intros Hp Hpre Hi Hn Hl Hnl Hlen Hb. unfold nvram_find_mtd. rewrite Hp.
  pose proof (lines_length pre Hpre) as Lp.
  rewrite mtd_loop_skip by (done || (rewrite length_app; lia)).
  destruct (S (length (concat pre ++ mtd_line i n e label ++ rest)) - length pre)%nat as [|fuel] eqn:Ef.
  { rewrite length_app in Ef. lia. }
  destruct (line_body i n e label ltac:(lia) Hnl) as [Hx Lx].
  cbn [mtd_loop]. unfold mtd_line at 1. rewrite <- app_assoc. cbn [app].
  rewrite fgets_mtd; [|exact Hx|unfold PATH_MAX; lia]. fold (mtd_line i n e label).
  destruct (mtd_line i n e label) as [|c y] eqn:Ey.
  { unfold mtd_line in Ey. by destruct (mtd_text i n e label). }
  rewrite <- Ey.
  assert (strstr (mtd_line i n e label) (str "nvram") = true) as ->.
  { unfold mtd_line, mtd_text. rewrite <- !app_assoc. do 6 rewrite app_assoc. by apply strstr_app. }
  rewrite scan_mtd_ok by done. replace (in_s32 i) with true by (unfold in_s32; lia). cbn [negb].
  eapply bind_ok; [reflexivity|]. eapply bind_ok; [reflexivity|]. rewrite Hb.
  eapply bind_ok; [eapply bind_ok; [reflexivity|]; eapply bind_ok; [reflexivity|];
    unfold mret, M_ret; by rewrite Mem|]. done.
Qed.
End search.
End NvramMtd.
