(* ===== verification/NvramSys.v ===== *)
(** The NVRAM library against the files of the system: [nvram_open] and
    [nvram_commit] on a file or a flash device, and the functions of nvram.c that
    copy the partition to the staging file and back.

    The world is the process of Nvram.v together with the files, the file that a
    writable handle maps, and what was printed.  What the system decides (which
    files open, what of a write reaches the file, where a mapping is placed) is a
    parameter.  A mapping ends with the last page of its file; behind it no byte
    can be accessed. *)

From Stdlib Require Import ZArith Lia Ascii String.
From stdpp Require Import base list list_numbers numbers gmap.
From S2P Require Import Prelude CString Nvram.

Open Scope list_scope.
Open Scope Z_scope.

Module NvramSys.
Import Nvram.

(** * The world *)

Record file := mkFile { st_mode : Z; contents : list Z }.

Record world := mkWorld {
  proc : state;
  files : gmap cstr file;
  shared : option cstr;
  out : list Z;
  err : list Z
}.
#[export] Instance eta_world : Eta world := fun w =>
  mkWorld (proc w) (files w) (shared w) (out w) (err w).

(** What the system decides. *)
Record sys := mkSys {
  lib : env;
  mtd_table : option (list Z);
  may_open : cstr -> bool;
  may_map : cstr -> bool;
  may_unlink : bool;
  map_addr : Z;
  accepts : cstr -> nat -> nat
}.

(** A part of the library runs in the process of the world. *)
Definition zoom {A} (m : M state A) : M world A := fun w =>
  match m (proc w) with
  | Ok a s => Ok a (w <| proc := s |>)
  | Aborted s => Aborted (w <| proc := s |>)
  | Undef => Undef
  end.

Definition NVRAM_STAGING : cstr := str "/tmp/.nvram".
Definition S_IFREG : Z := 32768.
Definition PAGE_SIZE : nat := Z.to_nat 4096.

(** The bytes a mapping of [n] bytes of a file gives access to. *)
Definition pages (l : list Z) : list Z :=
  l ++ repeat 0 ((PAGE_SIZE - length l mod PAGE_SIZE) mod PAGE_SIZE).
Definition mapped_bytes (l : list Z) (n : Z) : list Z := take (Z.to_nat n) (pages l).

Section system.
Context (S : sys).

Definition mode_of (w : world) (path : cstr) : option Z := st_mode <$> files w !! path.

(** What the library meets when it opens [path]. *)
Definition device_of (w : world) (path : cstr) : device :=
  mkDevice (mtd_table S) (mode_of w)
    (may_open S path && bool_decide (is_Some (files w !! path)))
    (fun n => f ← files w !! path;
              if may_map S path then Some (mapped_bytes (contents f) n, map_addr S) else None).

(** [open] and [close] of a descriptor, [read] of [n] bytes from the start, and
    [write], of which the system may take less than it is given. *)
Definition sys_open (path : cstr) (create : bool) : M world bool :=
  w ← get;
  if may_open S path && (create || bool_decide (is_Some (files w !! path))) then
    modify (fun w => w <| proc ::= fun s => s <| fds ::= Z.add 1 |> |>
      <| files := match files w !! path with
                  | Some _ => files w
                  | None => <[path := mkFile (Z.lor S_IFREG 384) []]> (files w)
                  end |>);;
    mret true
  else mret false.
Definition sys_close : M world unit :=
  modify (fun w => w <| proc ::= fun s => s <| fds ::= Z.add (-1) |> |>).
Definition sys_read (path : cstr) (n : Z) : M world (list Z) :=
  w ← get; f ← lift (files w !! path); mret (take (Z.to_nat n) (contents f)).
Definition sys_write (path : cstr) (buf : list Z) : M world unit :=
  w ← get;
  f ← lift (files w !! path);
  let k := Nat.min (accepts S path (length buf)) (length buf) in
  modify (fun w => w <| files ::= <[path := mkFile (st_mode f) (take k buf ++ drop k (contents f))]> |>).

(** A change of a shared mapping is a change of the file it maps. *)
Definition msync : M world unit :=
  modify (fun w =>
    match shared w with
    | Some path =>
        match files w !! path with
        | Some f =>
            let m := mmap (hd (proc w)) in
            w <| files ::= <[path := mkFile (st_mode f)
                   (take (length (contents f)) m ++ drop (length m) (contents f))]> |>
        | None => w
        end
    | None => w
    end).

(** * The library on files *)

Definition find_mtd : M world (option cstr) :=
  w ← get; zoom (nvram_find_mtd (lib S) (device_of w [])).

Definition open_file (path : cstr) (rdonly : bool) : M world bool :=
  w ← get;
  ok ← zoom (nvram_open (lib S) (device_of w path) true rdonly);
  (if (ok : bool) then modify (fun w => w <| shared := if rdonly then None else Some path |>)
   else mret tt);;
  mret ok.

Definition commit_file : M world Z := r ← zoom (nvram_commit (lib S)); msync;; mret r.
Definition close_file : M world Z :=
  r ← zoom nvram_close; modify (fun w => w <| shared := None |>);; mret r.

Definition nvram_find_staging : M world bool :=
  w ← get;
  mret (match mode_of w NVRAM_STAGING with
        | Some mode => negb (Z.land mode S_IFREG =? 0)
        | None => false
        end).

(** [nvram_to_staging]; a short read leaves no trace, the result of the
    write is not looked at. *)
Definition nvram_to_staging : M world Z :=
  mtd ← find_mtd;
  n ← gets (fun w => part_size (proc w));
  match mtd with
  | Some mtd =>
      if 0 <? n then
        ok ← sys_open mtd false;
        if (ok : bool) then
          buf ← sys_read mtd n;
          stat ← (if Z.of_nat (length buf) =? n then
                    ok ← sys_open NVRAM_STAGING true;
                    if (ok : bool) then sys_write NVRAM_STAGING buf;; sys_close;; mret 0
                    else mret (-1)
                  else mret (-1));
          sys_close;;
          mret stat
        else mret (-1)
      else mret (-1)
  | None => mret (-1)
  end.

Definition sys_unlink (path : cstr) : M world Z :=
  if may_unlink S then modify (fun w => w <| files ::= delete path |>);; mret 0 else mret (-1).

Definition staging_to_nvram : M world Z :=
  mtd ← find_mtd;
  n ← gets (fun w => part_size (proc w));
  match mtd with
  | Some mtd =>
      if 0 <? n then
        ok ← sys_open NVRAM_STAGING false;
        if (ok : bool) then
          buf ← sys_read NVRAM_STAGING n;
          stat ← (if Z.of_nat (length buf) =? n then
                    ok ← sys_open mtd false;
                    if (ok : bool) then sys_write mtd buf;; sys_close;; mret 0
                    else mret (-1)
                  else mret (-1));
          sys_close;;
          if stat =? 0 then
            r ← sys_unlink NVRAM_STAGING; mret (if r =? 0 then 0 else 1)
          else mret stat
        else mret (-1)
      else mret (-1)
  | None => mret (-1)
  end.

End system.
End NvramSys.
