(* ===== verification/NvramCli.v ===== *)
(** The command line [nvram] (utils/nvram/src/cli.c): its commands on an open
    handle, how it finds the image to work on, and [main].

    Text goes to the output and the error output of the world, byte by byte.  The
    percentage of [nvram info] is computed in binary64 as the code does. *)

From Stdlib Require Import ZArith Lia Ascii String SpecFloat.
From stdpp Require Import base list list_numbers numbers gmap.
From S2P Require Import Prelude CString Nvram NvramSys.

Open Scope list_scope.
Open Scope Z_scope.

Module NvramCli.
Import Nvram NvramSys.

Definition print (s : cstr) : M world unit := modify (fun w => w <| out ::= fun o => o ++ s |>).
Definition eprint (s : cstr) : M world unit := modify (fun w => w <| err ::= fun o => o ++ s |>).
Definition line (s : cstr) : cstr := s ++ [10].

(** * Numbers *)

(** ["%.2f"] of a binary64 number: hundredths, rounded half to even. *)
Definition round_half_even (a b : Z) : Z :=
  let q := a / b in
  let r := 2 * (a mod b) in
  if r <? b then q else if b <? r then q + 1 else if Z.even q then q else q + 1.
Definition print_2f (x : spec_float) : cstr :=
  match x with
  | S754_zero _ => str "0.00"
  | S754_infinity _ => str "inf"
  | S754_nan => str "nan"
  | S754_finite neg m e =>
      let h := if 0 <=? e then Z.pos m * 100 * 2 ^ e
               else round_half_even (Z.pos m * 100) (2 ^ (- e)) in
      (if (neg : bool) then [45] else []) ++ str (CString.print_u (h / 100)) ++ [46] ++
      [48 + h mod 100 / 10; 48 + h mod 10]
  end.

Definition double (n : Z) : spec_float := binary_normalize 53 1024 n 0 false.
(** [(100.00 / (double)size) * (double)len] *)
Definition percentage (size len : Z) : spec_float :=
  SFmul 53 1024 (SFdiv 53 1024 (double 100) (double size)) (double len).

(** * The commands *)

Section system.
Context (S : sys).

Definition nvram_open_rdonly : M world bool :=
  staging ← nvram_find_staging;
  if (staging : bool) then open_file S NVRAM_STAGING true
  else
    file ← find_mtd S;
    match file with
    | Some file => open_file S file true
    | None => mret false
    end.

Definition nvram_open_staging : M world bool :=
  staging ← nvram_find_staging;
  ok ← (if (staging : bool) then mret true else r ← nvram_to_staging S; mret (r =? 0));
  if (ok : bool) then open_file S NVRAM_STAGING false else mret false.

(** A tuple without a value has no text to print. *)
Fixpoint show_all (l : list tuple) : M world unit :=
  match l with
  | [] => mret tt
  | t :: l => v ← lift (value t); print (line (name t ++ 61 :: v));; show_all l
  end.

Definition do_show : M world Z :=
  l ← zoom (nvram_getall (lib S));
  match l with
  | [] => mret 1
  | _ => show_all l;; mret 0
  end.

Definition do_get (var : cstr) : M world Z :=
  val ← zoom (nvram_get (Some var));
  match val with
  | Some v => print (line v);; mret 0
  | None => mret 1
  end.

Definition do_unset (var : cstr) : M world Z := zoom (nvram_unset (Some var)).

Definition do_set (pair : cstr) : M world Z :=
  match split_eq pair with
  | Some (var, val) => zoom (nvram_set (lib S) var val)
  | None => mret 1
  end.

(** [do_info]: the fields of the header, the checksum stored and the one over
    [len - NVRAM_CRC_START_POSITION] bytes, unsigned. *)
Definition do_info : M world Z :=
  hdr ← zoom nvram_header;
  len ← zoom (load32 (f_len hdr));
  data ← zoom (load (hdr + NVRAM_CRC_START_POSITION) (u32 (len - NVRAM_CRC_START_POSITION)));
  magic ← zoom (load32 (f_magic hdr));
  init ← zoom (load32 (f_crc_ver_init hdr));
  refresh ← zoom (load32 (f_config_refresh hdr));
  ncdl ← zoom (load32 (f_config_ncdl hdr));
  s ← gets proc;
  let size := u32 (hlength (hd s) - offset (hd s)) in
  print (line (str "Magic:         " ++ print_hex 8 magic));;
  print (line (str "Length:        " ++ print_hex 8 len));;
  print (line (str "Offset:        " ++ print_hex 8 (offset (hd s))));;
  print (line (str "CRC8:          " ++ print_hex 2 (Z.land init 255) ++
               str " (calculated: " ++ print_hex 2 (hndcrc8 data 255) ++ str ")"));;
  print (line (str "Version:       " ++ print_hex 2 (Z.land (Z.shiftr init 8) 255)));;
  print (line (str "SDRAM init:    " ++ print_hex 4 (Z.land (Z.shiftr init 16) 65535)));;
  print (line (str "SDRAM config:  " ++ print_hex 4 (Z.land refresh 65535)));;
  print (line (str "SDRAM refresh: " ++ print_hex 4 (Z.land (Z.shiftr refresh 16) 65535)));;
  print (line (line (str "NCDL values:   " ++ print_hex 8 ncdl)));;
  print (line (print_i (s32 len) ++ str " bytes used / " ++ print_i (s32 (size - len)) ++
               str " bytes available (" ++ print_2f (percentage size len) ++ str "%)"));;
  mret 0.

(** * The program *)

(** The first loop, for whether a write is to be expected.  Behind the last
    argument stands a null pointer, which [strcmp] must not be given. *)
Fixpoint expects_write (args : list cstr) : option bool :=
  match args with
  | [] => Some false
  | a :: args =>
      if bool_decide (a = str "set") || bool_decide (a = str "unset") then
        match args with _ :: _ => Some true | [] => None end
      else if bool_decide (a = str "commit") then Some true
      else expects_write args
  end.

(** The variables of [main] that the second loop changes. *)
Record flags := mkFlags { stat : Z; ndone : Z; commit : bool }.

(** [switch(argv[i++][0])] *)
Definition do_with_argument (cmd arg : cstr) : M world Z :=
  if bool_decide (cmd = str "get") then do_get arg
  else if bool_decide (cmd = str "unset") then do_unset arg
  else do_set arg.

Fixpoint run_args (args : list cstr) (f : flags) : M world flags :=
  match args with
  | [] => mret f
  | a :: args =>
      if bool_decide (a = str "show") then
        r ← do_show; run_args args (mkFlags r (ndone f + 1) (commit f))
      else if bool_decide (a = str "info") then
        r ← do_info; run_args args (mkFlags r (ndone f + 1) (commit f))
      else if bool_decide (a = str "get") || bool_decide (a = str "unset") ||
              bool_decide (a = str "set") then
        match args with
        | b :: args =>
            r ← do_with_argument a b; run_args args (mkFlags r (ndone f + 1) (commit f))
        | [] =>
            eprint (line (str "Command '" ++ a ++ str "' requires an argument!"));;
            mret (mkFlags (stat f) 0 (commit f))
        end
      else if bool_decide (a = str "commit") then
        run_args args (mkFlags (stat f) (ndone f + 1) true)
      else
        eprint (line (str "Unknown option '" ++ a ++ str "' !"));;
        mret (mkFlags (stat f) 0 (commit f))
  end.

Definition no_nvram : cstr :=
  line (str "Could not open nvram! Possible reasons are:") ++
  line (9 :: str "- No device found (/proc not mounted or no nvram present)") ++
  line (9 :: str "- Insufficient permissions to open mtd device") ++
  line (9 :: str "- Insufficient memory to complete operation") ++
  line (9 :: str "- Memory mapping failed or not supported").
Definition usage : cstr :=
  line (str "Usage:") ++ line (9 :: str "nvram show") ++ line (9 :: str "nvram info") ++
  line (9 :: str "nvram get variable") ++ line (9 :: str "nvram set variable=value [set ...]") ++
  line (9 :: str "nvram unset variable [unset ...]") ++ line (9 :: str "nvram commit").

(** What follows the commands. *)
Definition finish (write : bool) (f : flags) : M world flags :=
  st ← (if write then commit_file S else mret (stat f));
  _ ← close_file;
  st ← (if commit f then staging_to_nvram S else mret st);
  mret (mkFlags st (ndone f) (commit f)).

(** [main] with the arguments after the program's name. *)
Definition main (args : list cstr) : M world Z :=
  write ← lift (expects_write args);
  nvram ← (if (write : bool) then nvram_open_staging else nvram_open_rdonly);
  if (nvram : bool) then
    f ← (match args with
         | [] => mret (mkFlags 1 0 false)
         | _ => f ← run_args args (mkFlags 1 0 false); finish write f
         end);
    if ndone f =? 0 then eprint usage;; mret 1 else mret (stat f)
  else eprint no_nvram;; mret 1.

(** A run of the program in a new process. *)
Definition init : state :=
  mkState (mkHandle [] 0 0 0 (repeat [] NVRAM_ARRAYSIZE) []) 0 0 0 0 0 0 0.
Definition run (args : list cstr) (fs : gmap cstr file) : res world Z :=
  main args (mkWorld init fs None [] []).

End system.
End NvramCli.
