(* ===== verification/NvramSysSpec.v ===== *)
(** The NVRAM image in the files of the system: what [nvram_open] and
    [nvram_commit] make of a file that holds variables, and the copies between
    the flash device and the staging file. *)

From Stdlib Require Import ZArith Lia Ascii String.
From stdpp Require Import base list list_numbers numbers gmap sets.
From S2P Require Import Prelude CString Nvram NvramSpec NvramCommit NvramOpen NvramMtd NvramSys.

Open Scope list_scope.
Open Scope Z_scope.

Module NvramSysSpec.
Import Nvram NvramSpec NvramCommit NvramOpen NvramMtd NvramSys.

(** * Images *)

(** The [n] bytes [c] hold, from the offset [off] on, an image whose variables
    are [m]: those of the data, and the parameters of the header that the data
    does not name.  It can be opened for writing. *)
Definition holds (n off : Z) (c : list Z) (m : gmap cstr cstr) : Prop :=
  exists A len ws ps rest,
    let hs := le32 NVRAM_MAGIC :: le32 len :: ws in
    c = image A hs (encs ps ++ 0 :: rest) /\ words hs /\ 20 <= len < n - off /\
    off = Z.of_nat (length A) /\ off mod 4 = 0 /\ no_magic A /\ Z.of_nat (length c) = n /\
    off + NVRAM_MIN_SPACE <= n /\ Forall text_ok ps /\ NoDup ps.*1 /\
    m = list_to_map ps ∪ sdram_of hs.

(** A handle on such an image. *)
Record handle_on (n off addr : Z) (c : list Z) (s : state) : Prop := mkHandleOn {
  ho_size : part_size s = n;
  ho_mmap : mmap (hd s) = c;
  ho_length : hlength (hd s) = n;
  ho_offset : offset (hd s) = off;
  ho_addr : mmap_addr (hd s) = addr
}.

Lemma handle_on_same n off addr c s s' : handle_on n off addr c s -> same_rest s s' ->
  handle_on n off addr c s'.
Proof. intros [] S. unfold same_rest in S. destruct_and!. split; congruence. Qed.

(** * The system *)

(** A system on which nothing fails, with the partition [mtd] of [n] bytes. *)
Record good (S : sys) (mtd : cstr) (n : Z) : Prop := mkGood {
  g_mem : forall k, oom (lib S) k = false;
  g_open : forall p, may_open S p = true;
  g_map : forall p, may_map S p = true;
  g_unlink : may_unlink S = true;
  g_accepts : forall p k, p <> mtd -> accepts S p k = k;
  g_addr : 0 <= map_addr S /\ map_addr S mod 4 = 0 /\ map_addr S + n < 2 ^ 31;
  g_size : 0 < n /\ n mod 4 = 0;
  g_table : exists pre i e label rest,
    mtd_table S = Some (concat pre ++ mtd_line i n e label ++ rest) /\ Forall other_line pre /\
    0 <= i < 2 ^ 31 /\ strstr label (str "nvram") = true /\ no_newline label /\
    (length label < 4000)%nat /\ mtd = mtdblock i
}.

(** The files: the flash device holds [f], the staging file, if there is one, [g]. *)
Definition flash_at (mtd : cstr) (fs : gmap cstr file) (c : list Z) : Prop :=
  exists mode, fs !! mtd = Some (mkFile mode c) /\ Z.land mode S_IFBLK <> 0.
Definition staging_at (fs : gmap cstr file) (c : list Z) : Prop :=
  exists mode, fs !! NVRAM_STAGING = Some (mkFile mode c) /\ Z.land mode S_IFREG <> 0.
Definition disk (mtd : cstr) (n off : Z) (fs : gmap cstr file) (f : gmap cstr cstr)
    (g : option (gmap cstr cstr)) : Prop :=
  (exists c, flash_at mtd fs c /\ holds n off c f) /\
  match g with
  | None => fs !! NVRAM_STAGING = None
  | Some g => exists c, staging_at fs c /\ holds n off c g
  end.

Lemma zoom_ok {A} (m : M state A) s a s' fs sh o e : m s = Ok a s' ->
  zoom m (mkWorld s fs sh o e) = Ok a (mkWorld s' fs sh o e).
Proof. intros H. unfold zoom. simpl. by rewrite H. Qed.

Lemma mapped_whole c n : Z.of_nat (length c) = n -> mapped_bytes c n = c.
Proof. intros <-. unfold mapped_bytes, pages. rewrite Nat2Z.id. apply take_app_length. Qed.

Section files.
Context (S : sys) (mtd : cstr) (n : Z) (G : good S mtd n).

Lemma mtd_staging : mtd <> NVRAM_STAGING.
Proof using G. destruct (g_table _ _ _ G) as (? & i & ? & ? & ? & _ & _ & _ & _ & _ & _ & ->). done. Qed.

Lemma mtd_found w c p s : flash_at mtd (files w) c ->
  nvram_find_mtd (lib S) (device_of S w p) s = Ok (Some mtd) (found s n).
Proof using G.
  intros (mode & Hf & Hm). destruct (g_table _ _ _ G) as (pre & i & e & label & rest & Ht & Hp & Hi & Hl & Hn & Hk & ->).
  destruct (g_addr _ _ _ G) as (? & ? & ?), (g_size _ _ _ G).
  apply (find_mtd_ok _ (g_mem _ _ _ G) _ pre i n e label rest); try done; [lia|].
  unfold block_node, device_of, mode_of. simpl. rewrite Hf. simpl. lia.
Qed.

Lemma find_mtd_world s fs sh o e c : flash_at mtd fs c ->
  find_mtd S (mkWorld s fs sh o e) = Ok (Some mtd) (mkWorld (found s n) fs sh o e).
Proof using G.
  intros Hf. unfold find_mtd. eapply bind_ok; [reflexivity|]. by eapply zoom_ok, mtd_found.
Qed.

(** When the size is not known, [nvram_open] looks for the partition first. *)
Lemma open_find d rdonly s : part_size s = 0 ->
  nvram_find_mtd (lib S) d s = Ok (Some mtd) (found s n) ->
  nvram_open (lib S) d true rdonly s = nvram_open (lib S) d true rdonly (found s n).
Proof using G.
  intros H0 Hf. unfold nvram_open at 1. eapply bind_ok; [reflexivity|]. rewrite H0. cbn [Z.eqb orb].
  assert (0 < n) by apply (g_size _ _ _ G).
  eapply bind_ok; [eapply bind_ok; [exact Hf|]; eapply bind_ok; [reflexivity|];
    change (part_size (found s n)) with n; replace (n =? 0) with false by lia; reflexivity|].
  unfold nvram_open. symmetry. eapply bind_ok; [reflexivity|].
  change (part_size (found s n)) with n. replace (n =? 0) with false by lia. cbn [orb negb].
  eapply bind_ok; [reflexivity|]. done.
Qed.

Lemma open_ok s fs sh o e path rdonly mode c cf off m :
  flash_at mtd fs cf -> fs !! path = Some (mkFile mode c) -> holds n off c m ->
  part_size s = 0 \/ part_size s = n ->
  exists s', open_file S path rdonly (mkWorld s fs sh o e) =
    Ok true (mkWorld s' fs (if rdonly then None else Some path) o e) /\
    rep m s' /\ handle_on n off (map_addr S) c s'.
Proof using G.
  intros Hf Hp (A & len & ws & ps & rest & Hc & W & Hl & Ho & Ho4 & Nm & Hn & Hmin & Ht & Nd & ->) Hs.
  set (hs := le32 NVRAM_MAGIC :: le32 len :: ws) in *.
  set (d := device_of S (mkWorld s fs sh o e) path).
  destruct (g_addr _ _ _ G) as (Ha & Ha4 & Hab).
  assert (exists s1, part_size s1 = n /\
    nvram_open (lib S) d true rdonly s = nvram_open (lib S) d true rdonly s1) as (s1 & H1 & E1).
  { destruct Hs as [Hs|Hs]; [|by exists s]. exists (found s n). split; [done|].
    apply open_find; [done|]. by eapply mtd_found. }
  assert (can_open d = true) as Hco.
  { unfold d, device_of. simpl. rewrite (g_open _ _ _ G), Hp. by apply bool_decide_eq_true_2. }
  assert (mapping d (part_size s1) = Some (image A hs (encs ps ++ 0 :: rest), map_addr S)) as Hm.
  { unfold d, device_of. cbn [mapping files]. rewrite Hp. cbn [mbind option_bind].
    rewrite (g_map _ _ _ G), H1. cbn [contents]. by rewrite mapped_whole, <- Hc. }
  destruct (Zmod_divides off 4 ltac:(lia)) as [[q Hq] _]; [done|].
  unfold NVRAM_MIN_SPACE in Hmin.
  assert (Z.of_nat (Z.to_nat q) <= u32 (part_size s1 - NVRAM_MIN_SPACE) / 4) as Hq'.
  { rewrite H1. unfold NVRAM_MIN_SPACE. rewrite u32_small by lia. apply Z.div_le_lower_bound; lia. }
  pose proof (open_image (lib S) d rdonly s1 A len ws _ _ (Z.to_nat q) (g_mem _ _ _ G) Hco Hm
    ltac:(lia) W ltac:(lia) ltac:(lia) Nm Hq') as Eo.
  cbv zeta in Eo. rewrite H1, u32_small, (proj2 (Z.ltb_lt len _)), orb_true_r in Eo by lia.
  set (s2 := opened _ _ _ _) in Eo.
  assert (room s2 = n - off) as Hr.
  { unfold room. change (hlength (hd s2)) with (part_size s1). rewrite H1.
    change (offset (hd s2)) with (Z.of_nat (length A)). rewrite u32_small; lia. }
  assert (Z.of_nat (length (encs ps)) + 21 <= n - off) as Hsz.
  { rewrite <- Hn, Hc. unfold image. rewrite !length_app, words_concat by done. simpl. lia. }
  destruct (twp_elim _ _ _ (rehash_exact (lib S) (g_mem _ _ _ G) s2 A hs ps rest W eq_refl eq_refl Ht Nd
    ltac:(lia) ltac:(apply Forall_forall; intros p Hin; pose proof (encs_value p ps Hin); lia)))
    as (r & s3 & Er & _ & Rr & R).
  exists s3. split; [|split; [done|]].
  - unfold open_file. eapply bind_ok; [reflexivity|]. eapply bind_ok.
    { apply zoom_ok. change (device_of _ _ _) with d. rewrite E1, Eo. by eapply bind_ok. }
    by destruct rdonly.
  - destruct Rr as (R1 & R2 & R3 & R4 & R5 & _). split; by rewrite ?R1, ?R2, ?R3, ?R4, ?R5.
Qed.

(** * Writing the image *)

Lemma msync_ok s fs o e path mode c : fs !! path = Some (mkFile mode c) ->
  length (mmap (hd s)) = length c ->
  msync (mkWorld s fs (Some path) o e) =
    Ok tt (mkWorld s (<[path := mkFile mode (mmap (hd s))]> fs) (Some path) o e).
Proof using.
  intros Hp Hl. unfold msync, modify. cbn [shared files proc]. rewrite Hp. cbn [st_mode contents].
  rewrite (drop_ge c), take_ge, app_nil_r by lia. done.
Qed.

(** [nvram_commit] of variables that fit leaves a file that holds them. *)
Lemma commit_file_ok s fs o e path mode c off m :
  fs !! path = Some (mkFile mode c) -> holds n off c m -> forall m1,
  rep m1 s -> handle_on n off (map_addr S) c s -> (forall k v, m1 !! k = Some v -> text_ok (k, v)) ->
  NVRAM_ROUNDUP (data_size m1 + 22) 4 < n - off ->
  exists s' c' m2, commit_file S (mkWorld s fs (Some path) o e) =
      Ok 0 (mkWorld s' (<[path := mkFile mode c']> fs) (Some path) o e) /\
    holds n off c' m2 /\ extends m1 m2 /\ part_size s' = n.
Proof using G.
  intros Hp (A & len & ws & ps & rest & Hc & W & Hl & Ho & Ho4 & Nm & Hn & Hmin & _) m1 R H Ht Hsz.
  destruct H as [H1 H2 H3 H4 H5]. destruct (g_size _ _ _ G) as [_ Hn4].
  assert (Z.of_nat (length (encs ps)) + 21 <= n - off) as Hes.
  { rewrite <- Hn, Hc. unfold image. rewrite !length_app, words_concat by done. simpl. lia. }
  assert (data_size m1 + 2 <= n - off - 20) as Hd.
  { unfold NVRAM_ROUNDUP in Hsz. pose proof (Z.div_mod (data_size m1 + 22 + (4 - 1)) 4 ltac:(lia)).
    pose proof (Z.mod_pos_bound (data_size m1 + 22 + (4 - 1)) 4 ltac:(lia)). lia. }
  assert (aligned s) as Al.
  { split; rewrite ?H1, ?H2, ?H3, ?H4, ?H5; try done; [lia|apply G]. }
  destruct (commit_ok (lib S) m1 s (g_mem _ _ _ G) R Al Ht ltac:(rewrite H1, H4; lia))
    as (s' & A' & ps' & d & x & y & z & Ec & Rr & _ & Ho' & Hs' & Hd4 & Hperm & Hx & Hx' & HA).
  set (crc := crc_of _ _ _) in Rr. set (hs := [_; _; _; _; _]) in Rr.
  assert (mmap (hd s') = image A' hs (data_of ps' d)) as Hi by apply Rr.
  assert (part_size s' = n) as Hps by (destruct Rr as (_ & _ & _ & _ & -> & _); done).
  assert (length A' = length A) as HAl by lia.
  assert (A' = A) as -> by (rewrite <- HA, H2, Hc, HAl; apply take_app_length).
  assert (Z.of_nat (length (encs ps')) = data_size m1) as Hps'
    by (unfold data_size; by rewrite (encs_perm _ _ Hperm)).
  assert (words hs) as W' by by repeat constructor.
  destruct (data_length ps' d ltac:(lia) Hd4) as (Ld & _ & Hlen).
  assert (Z.of_nat (length (mmap (hd s'))) = n) as Hn'.
  { rewrite Hi. unfold image. rewrite !length_app, words_concat, Ld by done. lia. }
  exists s', (mmap (hd s')), (list_to_map ps' ∪ sdram_of hs). split; [|split; [|split; [|done]]].
  - unfold commit_file. eapply bind_ok; [by apply zoom_ok|]. eapply bind_ok; [apply (msync_ok _ _ _ _ _ mode c); [done|lia]|done].
  - exists A, (len_of ps'), (drop 2 hs), ps'. eexists.
    split; [exact Hi|]. split; [done|]. split; [unfold len_of in Hlen |- *; rewrite Hps' in Hlen |- *; lia|].
    split_and!; try done.
    + apply Forall_forall. intros [k v] Hin. rewrite Hperm in Hin. by apply Ht, elem_of_map_to_list.
    + rewrite Hperm. apply NoDup_fst_map_to_list.
  - replace m1 with (list_to_map (M := gmap cstr cstr) ps'); [apply sdram_of_extends|].
    rewrite <- (list_to_map_to_list m1). apply list_to_map_proper; [|done].
    rewrite Hperm. apply NoDup_fst_map_to_list.
Qed.
(** * Copies *)

Definition more_fds (s : state) : state := s <| fds ::= Z.add 1 |>.

Lemma sys_open_ok s fs sh o e p f create : fs !! p = Some f ->
  sys_open S p create (mkWorld s fs sh o e) = Ok true (mkWorld (more_fds s) fs sh o e).
Proof using G.
  intros H. unfold sys_open. eapply bind_ok; [reflexivity|]. cbn [files].
  rewrite (g_open _ _ _ G), H, bool_decide_eq_true_2, orb_true_r by done. cbn [andb].
  eapply bind_ok; [reflexivity|]. cbn. by rewrite H.
Qed.

Lemma sys_create_ok s fs sh o e p : fs !! p = None ->
  sys_open S p true (mkWorld s fs sh o e) =
    Ok true (mkWorld (more_fds s) (<[p := mkFile (Z.lor S_IFREG 384) []]> fs) sh o e).
Proof using G.
  intros H. unfold sys_open. eapply bind_ok; [reflexivity|]. cbn [files].
  rewrite (g_open _ _ _ G). cbn [andb orb].
  eapply bind_ok; [reflexivity|]. cbn. by rewrite H.
Qed.

Lemma sys_read_ok s fs sh o e p mode c : fs !! p = Some (mkFile mode c) -> Z.of_nat (length c) = n ->
  sys_read p n (mkWorld s fs sh o e) = Ok c (mkWorld s fs sh o e).
Proof using.
  intros H Hn. unfold sys_read. eapply bind_ok; [reflexivity|]. eapply bind_ok; [apply lift_ok; exact H|].
  cbn [contents]. by rewrite <- Hn, Nat2Z.id, firstn_all.
Qed.

(** What a write leaves of the old contents [c]. *)
Definition over (p : cstr) (buf c : list Z) : list Z :=
  let k := Nat.min (accepts S p (length buf)) (length buf) in take k buf ++ drop k c.

Lemma over_all p buf c : accepts S p (length buf) = length buf -> (length c <= length buf)%nat ->
  over p buf c = buf.
Proof using. intros Ha Hl. unfold over. by rewrite Ha, Nat.min_id, firstn_all, drop_ge, app_nil_r. Qed.

Lemma sys_write_ok s fs sh o e p mode c buf : fs !! p = Some (mkFile mode c) ->
  sys_write S p buf (mkWorld s fs sh o e) = Ok tt (mkWorld s (<[p := mkFile mode (over p buf c)]> fs) sh o e).
Proof using. intros H. unfold sys_write. eapply bind_ok; [reflexivity|]. by eapply bind_ok; [apply lift_ok; exact H|]. Qed.

(** [nvram_to_staging] makes the staging file a copy of the device. *)
Lemma to_staging_ok s fs sh o e c : flash_at mtd fs c -> Z.of_nat (length c) = n ->
  fs !! NVRAM_STAGING = None ->
  exists s', nvram_to_staging S (mkWorld s fs sh o e) =
      Ok 0 (mkWorld s' (<[NVRAM_STAGING := mkFile (Z.lor S_IFREG 384) c]> fs) sh o e) /\
    part_size s' = n.
Proof using G.
  intros Hf Hn Hs. pose proof Hf as (mode & Hm & _). eexists. split; [|shelve].
  unfold nvram_to_staging. eapply bind_ok; [by eapply find_mtd_world|].
  eapply bind_ok; [reflexivity|]. cbn [proc]. change (part_size (found s n)) with n.
  replace (0 <? n) with true by (destruct (g_size _ _ _ G); lia).
  eapply bind_ok; [by eapply sys_open_ok|]. cbv beta iota.
  eapply bind_ok; [by eapply sys_read_ok|]. rewrite Hn, Z.eqb_refl.
  eapply bind_ok.
  { eapply bind_ok; [by apply sys_create_ok|]. cbv beta iota.
    eapply bind_ok; [eapply sys_write_ok; apply lookup_insert_eq|].
    rewrite over_all by (done || (simpl; lia) || (apply (g_accepts _ _ _ G), not_eq_sym, mtd_staging)).
    eapply bind_ok; reflexivity. }
  eapply bind_ok; [reflexivity|]. cbn. rewrite insert_insert_eq. reflexivity.
  Unshelve. done.
Qed.

(** [staging_to_nvram] writes the staging file to the device, and removes it. *)
Lemma staging_to_nvram_ok s fs sh o e c mode cf : fs !! mtd = Some (mkFile mode cf) ->
  Z.land mode S_IFBLK <> 0 ->
  staging_at fs c -> Z.of_nat (length c) = n ->
  exists s', staging_to_nvram S (mkWorld s fs sh o e) =
    Ok 0 (mkWorld s' (delete NVRAM_STAGING (<[mtd := mkFile mode (over mtd c cf)]> fs)) sh o e).
Proof using G.
  intros Hm Hb (mode' & Hs & _) Hn. eexists.
  unfold staging_to_nvram. eapply bind_ok; [eapply find_mtd_world; by exists mode|].
  eapply bind_ok; [reflexivity|]. cbn [proc]. change (part_size (found s n)) with n.
  replace (0 <? n) with true by (destruct (g_size _ _ _ G); lia).
  eapply bind_ok; [by eapply sys_open_ok|]. cbv beta iota.
  eapply bind_ok; [by eapply sys_read_ok|]. rewrite Hn, Z.eqb_refl.
  eapply bind_ok.
  { eapply bind_ok; [by eapply sys_open_ok|]. cbv beta iota.
    eapply bind_ok; [eapply sys_write_ok; exact Hm|].
    eapply bind_ok; reflexivity. }
  eapply bind_ok; [reflexivity|]. cbn [Z.eqb].
  eapply bind_ok; [unfold sys_unlink; rewrite (g_unlink _ _ _ G); eapply bind_ok; reflexivity|]. done.
Qed.
End files.
End NvramSysSpec.
