(* ===== verification/NvramCliSpec.v ===== *)
(** What the commands of [nvram] do to a map of variables, and that the program
    runs a list of commands that way on an open handle. *)

From Stdlib Require Import ZArith Lia Ascii String.
From stdpp Require Import base list list_numbers numbers gmap sets.
From S2P Require Import Prelude CString Nvram NvramSpec NvramCommit NvramOpen NvramMtd NvramSys.
From S2P Require Import NvramCli NvramSysSpec.

Open Scope list_scope.
Open Scope Z_scope.

Module NvramCliSpec.
Import Nvram NvramSpec NvramCommit NvramSys NvramCli NvramSysSpec.

(** * Commands on a map *)

Inductive cmd :=
| CShow
| CInfo
| CGet (n : cstr)
| CSet (n v : cstr)
| CUnset (n : cstr)
| CCommit.

(** Their arguments on the command line. *)
Definition args_of (c : cmd) : list cstr :=
  match c with
  | CShow => [str "show"]
  | CInfo => [str "info"]
  | CGet n => [str "get"; n]
  | CSet n v => [str "set"; n ++ 61 :: v]
  | CUnset n => [str "unset"; n]
  | CCommit => [str "commit"]
  end.
Definition args_all (cs : list cmd) : list cstr := concat (map args_of cs).

(** What is set is text, and a variable that is read is not called as a command
    that writes. *)
Definition cmd_text (c : cmd) : Prop :=
  match c with CSet n v => text_ok (n, v) | _ => True end.
Definition cmd_ok (c : cmd) : Prop :=
  match c with
  | CGet n => n <> str "set" /\ n <> str "unset" /\ n <> str "commit"
  | _ => cmd_text c
  end.

Lemma cmd_ok_text c : cmd_ok c -> cmd_text c.
Proof. by destruct c. Qed.

Definition is_write (c : cmd) : bool :=
  match c with CSet _ _ | CUnset _ | CCommit => true | _ => false end.
Definition is_commit (c : cmd) : bool := match c with CCommit => true | _ => false end.

(** The variables after a command; [r] is the room for a value. *)
Definition after (r : Z) (m : gmap cstr cstr) (c : cmd) : gmap cstr cstr :=
  match c with
  | CSet n v => if Z.of_nat (length v) + 1 <=? r then <[n := v]> m else m
  | CUnset n => delete n m
  | _ => m
  end.
Definition after_all (r : Z) (m : gmap cstr cstr) (cs : list cmd) : gmap cstr cstr :=
  fold_left (after r) cs m.

(** The status a command leaves, before one left [st]. *)
Definition status (r : Z) (m : gmap cstr cstr) (c : cmd) (st : Z) : Z :=
  match c with
  | CShow => if decide (m = ∅) then 1 else 0
  | CInfo => 0
  | CGet n => match m !! n with Some _ => 0 | None => 1 end
  | CSet n v => if Z.of_nat (length v) + 1 <=? r then 0 else ENOMEM
  | CUnset n => 0
  | CCommit => st
  end.
Fixpoint status_all (r : Z) (m : gmap cstr cstr) (cs : list cmd) (st : Z) : Z :=
  match cs with
  | [] => st
  | c :: cs => status_all r (after r m c) cs (status r m c st)
  end.

(** What a command may print: [show] lists the variables in any order, the text
    of [info] is left open. *)
Definition show_line (p : cstr * cstr) : cstr := line (p.1 ++ 61 :: p.2).
Definition prints (m : gmap cstr cstr) (c : cmd) (o : cstr) : Prop :=
  match c with
  | CShow => exists l, l ≡ₚ map_to_list m /\ o = concat (map show_line l)
  | CInfo => True
  | CGet n => o = match m !! n with Some v => line v | None => [] end
  | _ => o = []
  end.
Fixpoint prints_all (r : Z) (m : gmap cstr cstr) (cs : list cmd) (o : cstr) : Prop :=
  match cs with
  | [] => o = []
  | c :: cs => exists o1 o2, o = o1 ++ o2 /\ prints m c o1 /\ prints_all r (after r m c) cs o2
  end.

(** * One command *)

Section commands.
Context (S : sys) (mtd : cstr) (n off : Z) (G : good S mtd n) (c0 : list Z) (m0 : gmap cstr cstr)
  (H0 : holds n off c0 m0).

Definition on (m : gmap cstr cstr) (s : state) : Prop := rep m s /\ handle_on n off (map_addr S) c0 s.

Lemma on_room m s : on m s -> room s = n - off.
Proof using G H0.
  intros [_ H]. unfold room. rewrite (ho_length _ _ _ _ _ H), (ho_offset _ _ _ _ _ H).
  destruct H0 as (A & len & ws & ps & rest & _ & _ & Hl & Ho & _), (g_addr _ _ _ G) as (? & ? & ?).
  rewrite u32_small; lia.
Qed.

Lemma show_all_ok ps : forall s fs sh o e,
  show_all (map as_tuple ps) (mkWorld s fs sh o e) =
    Ok tt (mkWorld s fs sh (o ++ concat (map show_line ps)) e).
Proof using.
  induction ps as [|[k v] ps IH]; intros s fs sh o e; simpl.
  - by rewrite app_nil_r.
  - eapply bind_ok; [reflexivity|]. eapply bind_ok; [reflexivity|].
    etransitivity; [apply IH|]. unfold show_line at 2. simpl. by rewrite <- app_assoc.
Qed.

Lemma do_show_ok m s fs sh o e : on m s -> exists s' o',
  do_show S (mkWorld s fs sh o e) = Ok (status (n - off) m CShow 0) (mkWorld s' fs sh (o ++ o') e) /\
  on m s' /\ prints m CShow o'.
Proof using G.
  intros [R H].
  destruct (nvram_getall_complete (lib S) m s (g_mem _ _ _ G) R) as (l & s' & El & Hh & Hp & P).
  assert (exists ps, l = map as_tuple ps /\ ps ≡ₚ map_to_list m) as (ps & -> & Pp).
  { apply Permutation_map_inv in P as (ps & -> & P). exists ps. by rewrite P. }
  exists s', (concat (map show_line ps)). split; [|split].
  - unfold do_show. eapply bind_ok; [by apply zoom_ok|]. cbn [status].
    destruct ps as [|p ps].
    + symmetry in Pp. apply Permutation_nil_r in Pp. apply map_to_list_empty_iff in Pp as ->.
      by rewrite decide_True, app_nil_r.
    + rewrite decide_False by (intros ->; rewrite map_to_list_empty in Pp; by apply Permutation_nil_r in Pp).
      cbn [map]. eapply bind_ok; [apply (show_all_ok (p :: ps))|done].
  - split.
    + unfold rep, tb in *. by rewrite Hh.
    + destruct H as [H1 H2 H3 H4 H5]. split; by rewrite ?Hh, ?Hp.
  - by exists ps.
Qed.

(** [info] reads inside the mapping. *)
Lemma do_info_ok m s fs sh o e : on m s -> exists o',
  do_info (mkWorld s fs sh o e) = Ok 0 (mkWorld s fs sh (o ++ o') e).
Proof using G H0.
  intros [R H].
  destruct H0 as (A & len & ws & ps & rest & Hc & W & Hl & Ho & Ho4 & Nm & Hn & Hmin & _).
  destruct (g_addr _ _ _ G) as (? & ? & ?).
  pose proof (ho_mmap _ _ _ _ _ H) as Hm. pose proof (ho_offset _ _ _ _ _ H) as Hoff.
  set (hs := le32 NVRAM_MAGIC :: le32 len :: ws) in *. set (D := encs ps ++ 0 :: rest) in *.
  assert (forall i pos w, pos = off + 4 * Z.of_nat i -> hs !! i = Some w ->
    load32 pos s = Ok (word w) s) as L.
  { intros i pos w -> Hw. rewrite (with_img_eta s), Hm, Hc. apply (load32_ok s A hs D W i); [lia|done]. }
  destruct ws as [|w2 [|w3 [|w4 [|]]]]; try (by destruct W).
  assert (exists data, load (off + NVRAM_CRC_START_POSITION) (u32 (len - NVRAM_CRC_START_POSITION)) s =
    Ok data s) as [data Hd].
  { unfold NVRAM_CRC_START_POSITION. rewrite u32_small by lia.
    eexists. unfold load, mbind, M_bind, get. cbv zeta. rewrite Hm, Hn.
    rewrite (proj2 (Z.leb_le 0 (off + 9))), (proj2 (Z.leb_le 0 (len - 9))), (proj2 (Z.leb_le _ n)) by lia.
    reflexivity. }
  eexists. unfold do_info. eapply bind_ok; [apply zoom_ok; unfold nvram_header, gets; rewrite Hoff; reflexivity|].
  eapply bind_ok; [apply zoom_ok, (L 1%nat _ (le32 len)); [unfold f_len; lia|done]|].
  rewrite word_le32 by lia. eapply bind_ok; [apply zoom_ok; exact Hd|].
  eapply bind_ok; [apply zoom_ok, (L 0%nat _ (le32 NVRAM_MAGIC)); [unfold f_magic; lia|done]|].
  eapply bind_ok; [apply zoom_ok, (L 2%nat _ w2); [unfold f_crc_ver_init; lia|done]|].
  eapply bind_ok; [apply zoom_ok, (L 3%nat _ w3); [unfold f_config_refresh; lia|done]|].
  eapply bind_ok; [apply zoom_ok, (L 4%nat _ w4); [unfold f_config_ncdl; lia|done]|].
  do 11 (eapply bind_ok; [reflexivity|]). cbn. rewrite <- !app_assoc. reflexivity.
Qed.
Lemma do_get_ok m s fs sh o e k : on m s -> exists o',
  do_get k (mkWorld s fs sh o e) =
    Ok (status (n - off) m (CGet k) 0) (mkWorld s fs sh (o ++ o') e) /\ prints m (CGet k) o'.
Proof using.
  intros [R _]. exists (match m !! k with Some v => line v | None => [] end). split; [|done].
  unfold do_get. eapply bind_ok; [apply zoom_ok, get_ok, R|]. rewrite <- (proj2 R). cbn [status].
  destruct (m !! k); [by eapply bind_ok|]. by rewrite app_nil_r.
Qed.

Lemma on_exec m s c x s' : on m s -> exec (lib S) c s = Ok x s' ->
  x = (astep (n - off) m c).2 /\ on (astep (n - off) m c).1 s'.
Proof using G H0.
  intros O Ex. destruct (twp_elim _ _ _ (exec_ok (lib S) (g_mem _ _ _ G) m s c (proj1 O)))
    as (x' & s1 & E1 & Hx & R1 & S1).
  rewrite Ex in E1. simplify_eq. rewrite <- (on_room m s O). split; [done|]. split; [done|].
  eapply handle_on_same; [apply O|done].
Qed.

(** A call of the library that returns a code. *)
Lemma on_code m s c (k : M state Z) : on m s -> exec (lib S) c = (r ← k; mret (Code r)) ->
  exists r s', k s = Ok r s' /\ Code r = (astep (n - off) m c).2 /\ on (astep (n - off) m c).1 s'.
Proof using G H0.
  intros O Ek. destruct (twp_elim _ _ _ (exec_ok (lib S) (g_mem _ _ _ G) m s c (proj1 O)))
    as (x & s' & Ex & _).
  pose proof (on_exec m s c x s' O Ex) as [Hx O'].
  rewrite Ek in Ex. unfold mbind, M_bind in Ex. destruct (k s) as [r s1| |] eqn:Es; try done.
  unfold mret, M_ret in Ex. simplify_eq. eauto.
Qed.

Lemma do_argument_ok m s fs sh o e c a b f : on m s -> cmd_text c -> args_of c = [a; b] -> exists s' o',
  do_with_argument S a b (mkWorld s fs sh o e) = Ok (status (n - off) m c f) (mkWorld s' fs sh (o ++ o') e) /\
  on (after (n - off) m c) s' /\ prints m c o'.
Proof using G H0.
  intros O Hc Ha. destruct c as [| |k|k v|k|]; simplify_eq/=; unfold do_with_argument.
  - rewrite bool_decide_eq_true_2 by done. destruct (do_get_ok m s fs sh o e b O) as (o' & Eg & P).
    by exists s, o'.
  - destruct (on_code m s (Set_ k v) (nvram_set (lib S) k v) O eq_refl) as (r & s' & Er & Hr & O').
    exists s', []. rewrite bool_decide_eq_false_2, bool_decide_eq_false_2 by done.
    unfold do_set. rewrite split_eq_app by apply Hc. rewrite app_nil_r. simpl in Hr, O'.
    destruct (_ <=? _); simplify_eq/=; (split; [by apply zoom_ok|done]).
  - destruct (on_code m s (Unset b) (nvram_unset (Some b)) O eq_refl) as (r & s' & Er & Hr & O').
    exists s', []. rewrite bool_decide_eq_false_2, bool_decide_eq_true_2 by done. rewrite app_nil_r.
    simplify_eq/=. split; [by apply zoom_ok|done].
Qed.

(** * All commands *)

Lemma run_args_ok cs : forall m s fs sh o e f, on m s -> Forall cmd_text cs -> exists s' o',
  run_args S (args_all cs) f (mkWorld s fs sh o e) =
    Ok (mkFlags (status_all (n - off) m cs (stat f)) (ndone f + Z.of_nat (length cs))
                (commit f || existsb is_commit cs)) (mkWorld s' fs sh (o ++ o') e) /\
  on (after_all (n - off) m cs) s' /\ prints_all (n - off) m cs o'.
Proof using G H0.
  induction cs as [|c cs IH]; intros m s fs sh o e f O Hcs.
  { exists s, []. split; [|done]. simpl. rewrite Z.add_0_r, orb_false_r, app_nil_r. by destruct f. }
  apply Forall_cons_1 in Hcs as [Hc Hcs].
  assert (forall r b s1 o1, on (after (n - off) m c) s1 -> prints m c o1 ->
    r = status (n - off) m c (stat f) -> b = commit f || is_commit c ->
    exists s' o', run_args S (args_all cs) (mkFlags r (ndone f + 1) b) (mkWorld s1 fs sh (o ++ o1) e) =
      Ok (mkFlags (status_all (n - off) m (c :: cs) (stat f)) (ndone f + Z.of_nat (length (c :: cs)))
                (commit f || existsb is_commit (c :: cs))) (mkWorld s' fs sh (o ++ o') e) /\
      on (after_all (n - off) m (c :: cs)) s' /\ prints_all (n - off) m (c :: cs) o') as Next.
  { intros r b s1 o1 O1 P1 -> ->. destruct (IH _ s1 fs sh (o ++ o1) e
      (mkFlags (status (n - off) m c (stat f)) (ndone f + 1) (commit f || is_commit c)) O1 Hcs)
      as (s' & o' & E' & O' & P').
    exists s', (o1 ++ o'). split; [|split; [done|by exists o1, o']].
    rewrite E'. cbn [stat ndone commit existsb length status_all]. rewrite <- app_assoc, orb_assoc.
    do 2 f_equal. lia. }
  assert (forall a b, args_of c = [a; b] -> exists s' o',
    (r ← do_with_argument S a b; run_args S (args_all cs) (mkFlags r (ndone f + 1) (commit f)))
      (mkWorld s fs sh o e) =
      Ok (mkFlags (status_all (n - off) m (c :: cs) (stat f)) (ndone f + Z.of_nat (length (c :: cs)))
                (commit f || existsb is_commit (c :: cs))) (mkWorld s' fs sh (o ++ o') e) /\
      on (after_all (n - off) m (c :: cs)) s' /\ prints_all (n - off) m (c :: cs) o') as With.
  { intros a b Ha. destruct (do_argument_ok m s fs sh o e c a b (stat f) O Hc Ha) as (s1 & o1 & E1 & O1 & P1).
    destruct (Next _ (commit f) s1 o1 O1 P1 eq_refl) as (s' & o' & E' & H').
    { destruct c; try done; by rewrite orb_false_r. }
    exists s', o'. split; [|done]. by eapply bind_ok. }
  unfold args_all. cbn [map concat]. fold (args_all cs).
  destruct c as [| |k|k v|k|]; cbn [args_of app run_args]; repeat first
    [ rewrite bool_decide_eq_true_2 by done | rewrite bool_decide_eq_false_2 by done ]; cbn [orb].
  - destruct (do_show_ok m s fs sh o e O) as (s1 & o1 & E1 & O1 & P1).
    destruct (Next (status (n - off) m CShow 0) (commit f) s1 o1 O1 P1 eq_refl)
      as (s' & o' & E' & H'); [by rewrite orb_false_r|].
    exists s', o'. split; [|done]. by eapply bind_ok.
  - destruct (do_info_ok m s fs sh o e O) as (o1 & E1).
    destruct (Next 0 (commit f) s o1 O I eq_refl) as (s' & o' & E' & H'); [by rewrite orb_false_r|].
    exists s', o'. split; [|done]. by eapply bind_ok.
  - by apply With.
  - by apply With.
  - by apply With.
  - destruct (Next (stat f) true s [] O eq_refl eq_refl) as (s' & o' & E' & H'); [by rewrite orb_true_r|].
    rewrite app_nil_r in E'. by exists s', o'.
Qed.
End commands.

(** The first loop of [main] finds out whether there is a command that writes. *)
Lemma expects_write_ok cs : Forall cmd_ok cs ->
  expects_write (args_all cs) = Some (existsb is_write cs).
Proof.
  induction 1 as [|c cs Hc H IH]; [done|]. unfold args_all. cbn [map concat]. fold (args_all cs).
  destruct c as [| |k|k v|k|]; try done.
  destruct Hc as (H1 & H2 & H3). cbn [args_of app expects_write].
  by rewrite !(bool_decide_eq_false_2 (k = _)) by done.
Qed.
End NvramCliSpec.
