(* ===== verification/NvramCliTheorems.v ===== *)
(** Runs of the program [nvram]: it behaves as commands on a map of variables, kept
    in the flash partition and, between [set] and [commit], in the staging file;
    and where it does not do what it says. *)

From Stdlib Require Import ZArith Lia Ascii String.
From stdpp Require Import base list list_numbers numbers gmap sets.
From S2P Require Import Prelude CString Nvram NvramSpec NvramCommit NvramOpen NvramMtd NvramSys.
From S2P Require Import NvramCli NvramSysSpec NvramCliSpec.

Open Scope list_scope.
Open Scope Z_scope.

Module NvramCliTheorems.
Import Nvram NvramSpec NvramCommit NvramOpen NvramMtd NvramSys NvramCli NvramSysSpec NvramCliSpec.

(** * Variables that an image can hold *)

Definition texts (m : gmap cstr cstr) : Prop := forall k v, m !! k = Some v -> text_ok (k, v).

Lemma hex_digits k : forall x, Forall (fun b => b <> 0) (hex k x).
Proof.
  induction k as [|k IH]; intros x; simpl; [constructor|]. apply Forall_app. split; [apply IH|].
  constructor; [|constructor]. unfold hex_digit. pose proof (Z.mod_pos_bound x 16 ltac:(lia)).
  destruct (_ <? 10); lia.
Qed.

Lemma print_hex_text k x : Forall (fun b => b <> 0) (print_hex k x).
Proof.
  unfold print_hex. apply Forall_app. split; [|apply hex_digits].
  vm_compute. repeat (apply Forall_cons_2; [discriminate|]). apply Forall_nil_2.
Qed.

Lemma texts_singleton name v : Forall (fun b => b <> 0) name -> Forall (fun b => b <> 61) name ->
  Forall (fun b => b <> 0) v -> texts {[name := v]}.
Proof. intros H1 H2 H3 k w [<- <-]%lookup_singleton_Some. done. Qed.

Lemma texts_union m1 m2 : texts m1 -> texts m2 -> texts (m1 ∪ m2).
Proof. intros H1 H2 k v [H|[_ H]]%lookup_union_Some_raw; eauto. Qed.

Lemma texts_sdram hs : texts (sdram_of hs).
Proof.
  unfold sdram_of. repeat apply texts_union; apply texts_singleton;
    try apply print_hex_text;
    (vm_compute; repeat (apply Forall_cons_2; [discriminate|]); apply Forall_nil_2).
Qed.

Lemma holds_texts n off c m : holds n off c m -> texts m.
Proof.
  intros (A & len & ws & ps & rest & _ & _ & _ & _ & _ & _ & _ & _ & Ht & Nd & ->).
  apply texts_union; [|apply texts_sdram]. intros k v H.
  apply elem_of_list_to_map in H; [|done]. by apply (proj1 (Forall_forall _ _) Ht).
Qed.

Lemma after_texts r m c : texts m -> cmd_text c -> texts (after r m c).
Proof.
  intros H Hc. destruct c; simpl; try done.
  - destruct (_ <=? _); [|done]. intros k w [[-> <-]|[_ Hk]]%lookup_insert_Some; [done|eauto].
  - intros k w [_ Hk]%lookup_delete_Some. eauto.
Qed.

Lemma after_all_texts r cs : forall m, texts m -> Forall cmd_text cs -> texts (after_all r m cs).
Proof.
  induction cs as [|c cs IH]; intros m H Hc; [done|]. apply Forall_cons_1 in Hc as [Hc Hcs].
  apply IH; [|done]. by apply after_texts.
Qed.

(** Opening an image gives all parameters of the header; a map that has them is
    written and read as it is. *)
Definition complete (m : gmap cstr cstr) : Prop := forall k, k ∈ sdram_names -> is_Some (m !! k).

Lemma holds_complete n off c m : holds n off c m -> complete m.
Proof.
  intros (A & len & ws & ps & rest & _ & _ & _ & _ & _ & _ & _ & _ & _ & _ & ->) k Hk.
  rewrite lookup_union. set (hs := _ :: _ :: ws).
  assert (is_Some (sdram_of hs !! k)) as [v ->].
  { unfold sdram_of, sdram_names in *. rewrite !lookup_union.
    repeat (apply elem_of_cons in Hk as [->|Hk]); [..|by apply not_elem_of_nil in Hk];
      rewrite ?lookup_singleton_eq, ?lookup_singleton_ne by done; by eexists. }
  destruct (_ !! k); by eexists.
Qed.

Lemma extends_complete m m' : complete m -> extends m m' -> m' = m.
Proof.
  intros C [Hs He]. apply map_eq. intros k. destruct (decide (k ∈ sdram_names)) as [Hk|Hk]; [|auto].
  destruct (C k Hk) as [v Hv]. rewrite Hv. by apply (lookup_weaken _ _ _ _ Hv).
Qed.

(** * A run *)

Section run.
Context (S : sys) (mtd : cstr) (n off : Z) (G : good S mtd n).

Lemma holds_length c m : holds n off c m -> Z.of_nat (length c) = n.
Proof using. intros (A & len & ws & ps & rest & _ & _ & _ & _ & _ & _ & H & _). done. Qed.

Lemma staging_mode fs c s sh o e : staging_at fs c ->
  nvram_find_staging (mkWorld s fs sh o e) = Ok true (mkWorld s fs sh o e).
Proof using.
  intros (mode & Hs & Hr). unfold nvram_find_staging. eapply bind_ok; [reflexivity|].
  unfold mode_of. cbn [files]. rewrite Hs. cbn. by rewrite (proj2 (Z.eqb_neq _ _) Hr).
Qed.
Lemma staging_none fs s sh o e : fs !! NVRAM_STAGING = None ->
  nvram_find_staging (mkWorld s fs sh o e) = Ok false (mkWorld s fs sh o e).
Proof using.
  intros Hs. unfold nvram_find_staging. eapply bind_ok; [reflexivity|].
  unfold mode_of. cbn [files]. by rewrite Hs.
Qed.

(** For reading, the current image is mapped; nothing changes. *)
Lemma open_rdonly_ok fs f g : disk mtd n off fs f g -> exists s c,
  nvram_open_rdonly S (mkWorld init fs None [] []) = Ok true (mkWorld s fs None [] []) /\
  holds n off c (default f g) /\ on S n off c (default f g) s.
Proof using G.
  intros [(cf & Hf & Hh) Hg]. unfold nvram_open_rdonly. destruct g as [g|].
  - destruct Hg as (c & Hs & Hc). pose proof Hs as (mode & Hm & _).
    destruct (open_ok S mtd n G init fs None [] [] _ true mode c cf off g Hf Hm Hc (or_introl eq_refl))
      as (s & Eo & R & H).
    exists s, c. split; [|done]. eapply bind_ok; [by eapply staging_mode|]. exact Eo.
  - pose proof Hf as (mode & Hm & _).
    destruct (open_ok S mtd n G (found init n) fs None [] [] _ true mode cf cf off f Hf Hm Hh (or_intror eq_refl))
      as (s & Eo & R & H).
    exists s, cf. split; [|done]. eapply bind_ok; [by apply staging_none|].
    eapply bind_ok; [by eapply find_mtd_world|]. exact Eo.
Qed.

(** For writing, a staging file that holds the current variables is mapped, and
    made if there is none. *)
Lemma open_staging_ok fs f g : disk mtd n off fs f g -> exists s fs1 c,
  nvram_open_staging S (mkWorld init fs None [] []) =
    Ok true (mkWorld s fs1 (Some NVRAM_STAGING) [] []) /\
  staging_at fs1 c /\ holds n off c (default f g) /\ on S n off c (default f g) s /\
  exists cf, flash_at mtd fs1 cf /\ holds n off cf f.
Proof using G.
  intros [(cf & Hf & Hh) Hg]. unfold nvram_open_staging. destruct g as [g|].
  - destruct Hg as (c & Hs & Hc). pose proof Hs as (mode & Hm & _).
    destruct (open_ok S mtd n G init fs None [] [] _ false mode c cf off g Hf Hm Hc (or_introl eq_refl))
      as (s & Eo & R & H).
    exists s, fs, c. split; [|split_and!; eauto; done].
    eapply bind_ok; [by eapply staging_mode|]. eapply bind_ok; [reflexivity|]. exact Eo.
  - destruct (to_staging_ok S mtd n G init fs None [] [] cf Hf (holds_length _ _ Hh) Hg) as (s1 & E1 & H1).
    set (fs1 := <[NVRAM_STAGING := _]> fs) in E1.
    assert (flash_at mtd fs1 cf) as Hf1.
    { destruct Hf as (mode & Hm & Hb). exists mode. split; [|done]. unfold fs1.
      rewrite lookup_insert_ne; [done|]. apply not_eq_sym, (mtd_staging S mtd n G). }
    assert (staging_at fs1 cf) as Hs1 by (eexists; split; [apply lookup_insert_eq|done]).
    pose proof Hs1 as (mode1 & Hm1 & _).
    destruct (open_ok S mtd n G s1 fs1 None [] [] _ false _ cf cf off f Hf1 Hm1 Hh (or_intror H1))
      as (s & Eo & R & H).
    exists s, fs1, cf. split; [|split_and!; eauto; done].
    eapply bind_ok; [by apply staging_none|].
    eapply bind_ok; [eapply bind_ok; [exact E1|reflexivity]|exact Eo].
Qed.

(** What follows the commands of a run that writes. *)
Definition fitting (m : gmap cstr cstr) : Prop :=
  texts m /\ NVRAM_ROUNDUP (data_size m + 22) 4 < n - off.

Lemma finish_ok fs c m s m1 fl cf o e f :
  staging_at fs c -> holds n off c m -> on S n off c m1 s -> fitting m1 ->
  flash_at mtd fs cf -> holds n off cf f ->
  exists s2 fs2 m2 c2,
    finish S true fl (mkWorld s fs (Some NVRAM_STAGING) o e) =
      Ok (mkFlags 0 (ndone fl) (commit fl)) (mkWorld s2 fs2 None o e) /\
    holds n off c2 m2 /\ extends m1 m2 /\
    if commit fl then fs2 !! NVRAM_STAGING = None /\ flash_at mtd fs2 (over S mtd c2 cf)
    else staging_at fs2 c2 /\ flash_at mtd fs2 cf.
Proof using G.
  intros (mode & Hm & Hr) Hh [R H] [Ht Hsz] (modef & Hf & Hb) Hhf.
  pose proof (mtd_staging S mtd n G) as Hne.
  destruct (commit_file_ok S mtd n G s fs o e _ mode c off m Hm Hh m1 R H Ht Hsz)
    as (s' & c2 & m2 & Ec & Hh2 & X & Hp).
  set (fs1 := <[NVRAM_STAGING := mkFile mode c2]> fs) in Ec.
  assert (fs1 !! mtd = Some (mkFile modef cf)) as Hf1 by (unfold fs1; by rewrite lookup_insert_ne).
  assert (staging_at fs1 c2) as Hs1 by (exists mode; split; [apply lookup_insert_eq|done]).
  destruct (commit fl) eqn:Ef.
  - eassert (exists s2, staging_to_nvram S (mkWorld _ fs1 None o e) = Ok 0 (mkWorld s2 _ None o e)) as [s2 E2].
    { by apply (staging_to_nvram_ok S mtd n G) with (mode := modef) (cf := cf) (c := c2);
        [..|eapply holds_length]. }
    exists s2, (delete NVRAM_STAGING (<[mtd := mkFile modef (over S mtd c2 cf)]> fs1)), m2, c2.
    split; [|split_and!; try done].
    + unfold finish. eapply bind_ok; [exact Ec|]. eapply bind_ok; [eapply bind_ok; [by apply zoom_ok|reflexivity]|].
      rewrite Ef. eapply bind_ok; [exact E2|done].
    + apply lookup_delete_eq.
    + exists modef. split; [|done]. rewrite lookup_delete_ne by done. apply lookup_insert_eq.
  - eexists _, fs1, m2, c2. split; [|split_and!; try done].
    + unfold finish. eapply bind_ok; [exact Ec|]. eapply bind_ok; [eapply bind_ok; [by apply zoom_ok|reflexivity]|].
      rewrite Ef. done.
    + by exists modef.
Qed.
(** The parts of a run. *)
Lemma run_parts args fs write w fl w1 fl' w2 : args <> [] -> expects_write args = Some write ->
  (if write then nvram_open_staging S else nvram_open_rdonly S) (mkWorld init fs None [] []) = Ok true w ->
  run_args S args (mkFlags 1 0 false) w = Ok fl w1 -> finish S write fl w1 = Ok fl' w2 ->
  ndone fl' <> 0 -> run S args fs = Ok (stat fl') w2.
Proof using.
  intros Ha He Ho Hr Hf Hd. destruct args as [|a args]; [done|]. unfold run, main. eapply bind_ok; [apply lift_ok; exact He|].
  eapply bind_ok; [exact Ho|]. cbv beta iota.
  eapply bind_ok; [eapply bind_ok; [exact Hr|exact Hf]|].
  by rewrite (proj2 (Z.eqb_neq _ _) Hd).
Qed.

(** A run that writes: the variables that its commands leave are in the staging
    file, or were written to the device. *)
Lemma run_write_ok args fs f g m1 (Q : cstr -> Prop) cm d er :
  args <> [] -> disk mtd n off fs f g -> expects_write args = Some true -> d <> 0 -> fitting m1 ->
  (forall s fs1 sh c, holds n off c (default f g) -> on S n off c (default f g) s ->
    exists st s1 o, run_args S args (mkFlags 1 0 false) (mkWorld s fs1 sh [] []) =
      Ok (mkFlags st d cm) (mkWorld s1 fs1 sh o er) /\ on S n off c m1 s1 /\ Q o) ->
  exists w m2 c2 cf, run S args fs = Ok 0 w /\ Q (out w) /\ err w = er /\
    holds n off c2 m2 /\ extends m1 m2 /\ holds n off cf f /\
    if (cm : bool) then files w !! NVRAM_STAGING = None /\ flash_at mtd (files w) (over S mtd c2 cf)
    else staging_at (files w) c2 /\ flash_at mtd (files w) cf.
Proof using G.
  intros Ha D He Hd Fi Run. destruct (open_staging_ok fs f g D) as (s & fs1 & c & Eo & Hs & Hc & O & cf & Hf & Hh).
  destruct (Run s fs1 (Some NVRAM_STAGING) c Hc O) as (st & s1 & o & Er & O1 & Qo).
  destruct (finish_ok fs1 c _ s1 m1 (mkFlags st d cm) cf o er f Hs Hc O1 Fi Hf Hh)
    as (s2 & fs2 & m2 & c2 & Ef & Hc2 & X & D2).
  exists (mkWorld s2 fs2 None o er), m2, c2, cf. split; [|split_and!; done].
  exact (run_parts args fs true _ _ _ _ _ Ha He Eo Er Ef Hd).
Qed.

(** A run that only reads. *)
Lemma run_read_ok args fs f g st d m1 (Q : cstr -> Prop) :
  args <> [] -> disk mtd n off fs f g -> expects_write args = Some false -> d <> 0 ->
  (forall s fs1 sh c, holds n off c (default f g) -> on S n off c (default f g) s ->
    exists s1 o, run_args S args (mkFlags 1 0 false) (mkWorld s fs1 sh [] []) =
      Ok (mkFlags st d false) (mkWorld s1 fs1 sh o []) /\ on S n off c m1 s1 /\ Q o) ->
  exists w, run S args fs = Ok st w /\ Q (out w) /\ err w = [] /\ files w = fs.
Proof using G.
  intros Ha D He Hd Run. destruct (open_rdonly_ok fs f g D) as (s & c & Eo & Hc & O).
  destruct (Run s fs None c Hc O) as (s1 & o & Er & O1 & Qo).
  eexists. split; [by eapply (run_parts args fs false _ _ _ (mkFlags st d false))|done].
Qed.

Lemma disk_flash fs c f : flash_at mtd fs c -> holds n off c f -> fs !! NVRAM_STAGING = None ->
  disk mtd n off fs f None.
Proof using. intros. split; eauto. Qed.
Lemma disk_staged fs c f c2 g : flash_at mtd fs c -> holds n off c f -> staging_at fs c2 ->
  holds n off c2 g -> disk mtd n off fs f (Some g).
Proof using. intros. split; eauto. Qed.

Lemma existsb_false_sub {A} (p q : A -> bool) l : (forall a, q a = true -> p a = true) ->
  existsb p l = false -> existsb q l = false.
Proof using.
  intros H Hp. destruct (existsb q l) eqn:Eq; [|done]. apply existsb_exists in Eq as (a & Ha & Hq).
  rewrite <- Hp. symmetry. apply existsb_exists. eauto.
Qed.

Lemma args_all_nonempty cs : cs <> [] -> args_all cs <> [].
Proof using. destruct cs as [|c cs]; [done|]. intros _. by destruct c. Qed.

Lemma texts_disk fs f g : disk mtd n off fs f g -> texts (default f g).
Proof using.
  intros [(c & _ & Hh) Hg]. destruct g as [g|]; simpl; [|by eapply holds_texts].
  destruct Hg as (? & _ & Hg). by eapply holds_texts.
Qed.
End run.

(** * The program as commands on variables *)

(** The outcome of a run with the commands [cs]. *)
Definition outcome S mtd n off fs f g cs : Prop :=
  let m := default f g in
  let m1 := after_all (n - off) m cs in
  exists st w, run S (args_all cs) fs = Ok st w /\ err w = [] /\ prints_all (n - off) m cs (out w) /\
    if existsb is_write cs then
      st = 0 /\ exists m2, extends m1 m2 /\
        if existsb is_commit cs then disk mtd n off (files w) m2 None
        else disk mtd n off (files w) f (Some m2)
    else st = status_all (n - off) m cs 1 /\ files w = fs.

Lemma cli_ok S mtd n off fs f g cs :
  good S mtd n -> (forall k, accepts S mtd k = k) -> disk mtd n off fs f g ->
  cs <> [] -> Forall cmd_ok cs ->
  (existsb is_write cs = true ->
    NVRAM_ROUNDUP (data_size (after_all (n - off) (default f g) cs) + 22) 4 < n - off) ->
  outcome S mtd n off fs f g cs.
Proof.
  intros G Ac D Hne Hcs Hsz. set (m := default f g) in *. set (m1 := after_all _ _ _) in *.
  unfold outcome. cbv zeta. fold m m1.
  assert (Forall cmd_text cs) as Ht by (eapply Forall_impl; [exact Hcs|]; apply cmd_ok_text).
  assert (Z.of_nat (length cs) <> 0) as Hlen by (destruct cs; [done|simpl; lia]).
  pose proof (expects_write_ok cs Hcs) as He. pose proof (args_all_nonempty cs Hne) as Ha.
  destruct (existsb is_write cs) eqn:Ew.
  - destruct (run_write_ok S mtd n off G (args_all cs) fs f g m1 (prints_all (n - off) m cs)
      (existsb is_commit cs) (Z.of_nat (length cs)) [] Ha D He Hlen) as (w & m2 & c2 & cf & E & P & Er & H2 & X & Hf & R).
    { split; [|auto]. apply after_all_texts; [by eapply texts_disk|done]. }
    { intros s fs1 sh c Hc O.
      destruct (run_args_ok S mtd n off G c m Hc cs m s fs1 sh [] [] (mkFlags 1 0 false) O Ht)
        as (s1 & o & E1 & O1 & P1). eauto 10. }
    exists 0, w. do 3 (split; [done|]). split; [done|]. exists m2. split; [done|].
    destruct (existsb is_commit cs), R as [R1 R2].
    + eapply disk_flash; [exact R2| |done]. rewrite over_all; [done|by rewrite Ac|].
      apply holds_length in H2, Hf. lia.
    + by eapply disk_staged.
  - destruct (run_read_ok S mtd n off G (args_all cs) fs f g (status_all (n - off) m cs 1)
      (Z.of_nat (length cs)) m1 (prints_all (n - off) m cs) Ha D He Hlen) as (w & E & P & Er & Ef).
    { intros s fs1 sh c Hc O.
      destruct (run_args_ok S mtd n off G c m Hc cs m s fs1 sh [] [] (mkFlags 1 0 false) O Ht)
        as (s1 & o & E1 & O1 & P1). exists s1, o. split; [|done]. rewrite E1. do 2 f_equal.
      cbn [commit orb]. apply existsb_false_sub with is_write; [|done]. by intros []. }
    exists (status_all (n - off) m cs 1), w. done.
Qed.

(** C9: a run of [nvram] with a sequence of the commands [show], [info], [get NAME],
    [set NAME=VALUE], [unset NAME] and [commit], on a machine where no system call fails, returns and does
    what the commands do to a map of variables, if no [get] asks for a variable called [set], [unset] or
    [commit] (there the program crashes or writes, [nvram_cli_departs]), every [set] has its ['=']
    (without, nothing is set and the status is 0, [nvram_cli_departs]) and, for a run that writes, the
    resulting variables fit the partition: it starts from the variables of the staging file, or of the flash
    partition if there is none, and prints for each command what the map has then.
    A run that only reads leaves the files alone and returns the status of the
    last command.  A value longer than the partition is not set.  A run that writes returns 0, whatever
    the status of its commands, and leaves the resulting variables
    in the staging file with the partition as it was or, with [commit] among the
    commands, in the partition, without a staging file.  (Parameters of the header
    that a run removes come back with default values.) *)
Theorem nvram_cli_refines S mtd n off fs f g cs :
  good S mtd n -> (forall k, accepts S mtd k = k) -> disk mtd n off fs f g ->
  cs <> [] -> Forall cmd_ok cs ->
  let m := default f g in
  let m1 := after_all (n - off) m cs in
  (existsb is_write cs = true -> NVRAM_ROUNDUP (data_size m1 + 22) 4 < n - off) ->
  exists st w, run S (args_all cs) fs = Ok st w /\ err w = [] /\ prints_all (n - off) m cs (out w) /\
    if existsb is_write cs then
      st = 0 /\ exists m2, extends m1 m2 /\
        if existsb is_commit cs then disk mtd n off (files w) m2 None
        else disk mtd n off (files w) f (Some m2)
    else st = status_all (n - off) m cs 1 /\ files w = fs.
Proof. intros G Ac D Hne Hcs m m1 Hsz. exact (cli_ok S mtd n off fs f g cs G Ac D Hne Hcs Hsz). Qed.

(** * A session *)

Lemma disk_complete mtd n off fs f g : disk mtd n off fs f g -> complete (default f g).
Proof.
  intros [(c & _ & Hh) Hg]. destruct g as [g|]; simpl; [|by eapply holds_complete].
  destruct Hg as (? & _ & Hg). by eapply holds_complete.
Qed.

Lemma complete_insert m k v : complete m -> complete (<[k := v]> m).
Proof. intros C x Hx. rewrite lookup_insert_is_Some. destruct (decide (k = x)); eauto. Qed.

Lemma get_variable S mtd n off fs f g k v : good S mtd n -> (forall k, accepts S mtd k = k) ->
  disk mtd n off fs f g -> cmd_ok (CGet k) -> default f g !! k = Some v ->
  exists w, run S [str "get"; k] fs = Ok 0 w /\ out w = line v /\ files w = fs.
Proof.
  intros G Ac D Hk Hv.
  destruct (cli_ok S mtd n off fs f g [CGet k] G Ac D ltac:(done) ltac:(by constructor) ltac:(done))
    as (st & w & E & _ & (o1 & o2 & Ho & P & ->) & Hst & Hf).
  exists w. rewrite app_nil_r in Ho. simpl in P, Hst. rewrite Hv in P, Hst. by subst.
Qed.

(** C10: what is set is there, for a variable not called [set], [unset] or [commit] and variables that
    fit the partition, when no system call fails: [nvram set k=v] returns 0 and leaves the partition as
    it was; from then on [nvram get k] prints the value; [nvram commit] in a
    later run moves all variables to the partition and removes the staging file;
    and [nvram get k] still prints the value. *)
Theorem nvram_session S mtd n off fs f g k v :
  good S mtd n -> (forall k, accepts S mtd k = k) -> disk mtd n off fs f g ->
  text_ok (k, v) -> k <> str "set" -> k <> str "unset" -> k <> str "commit" ->
  let m := <[k := v]> (default f g) in
  NVRAM_ROUNDUP (data_size m + 22) 4 < n - off ->
  exists w1 w2 w3 w4,
    run S [str "set"; k ++ 61 :: v] fs = Ok 0 w1 /\ disk mtd n off (files w1) f (Some m) /\
    run S [str "get"; k] (files w1) = Ok 0 w2 /\ out w2 = line v /\ files w2 = files w1 /\
    run S [str "commit"] (files w2) = Ok 0 w3 /\ disk mtd n off (files w3) m None /\
    run S [str "get"; k] (files w3) = Ok 0 w4 /\ out w4 = line v.
Proof.
  intros G Ac D Ht H1 H2 H3 m Hsz.
  assert ((Z.of_nat (length v) + 1 <=? n - off) = true) as Hv.
  { assert ((k, v) ∈ map_to_list m) as Hin by (apply elem_of_map_to_list, lookup_insert_eq).
    apply encs_value in Hin. fold (data_size m) in Hin. simpl in Hin. unfold NVRAM_ROUNDUP in Hsz.
    pose proof (Z.div_mod (data_size m + 22 + (4 - 1)) 4 ltac:(lia)).
    pose proof (Z.mod_pos_bound (data_size m + 22 + (4 - 1)) 4 ltac:(lia)). lia. }
  assert (after (n - off) (default f g) (CSet k v) = m) as Em by (simpl; by rewrite Hv).
  assert (complete m) as C by by eapply complete_insert, disk_complete.
  destruct (cli_ok S mtd n off fs f g [CSet k v] G Ac D ltac:(done) ltac:(by constructor)
    ltac:(unfold after_all; cbn [fold_left]; by rewrite Em)) as (st & w1 & E1 & _ & _ & -> & m2 & X & D1).
  unfold after_all in X. cbn [fold_left] in X. rewrite Em in X.
  apply (extends_complete m m2 C) in X as ->. cbn in D1.
  destruct (get_variable S mtd n off (files w1) f (Some m) k v G Ac D1 ltac:(done) ltac:(apply lookup_insert_eq))
    as (w2 & E2 & O2 & F2).
  destruct (cli_ok S mtd n off (files w1) f (Some m) [CCommit] G Ac D1 ltac:(done) ltac:(by constructor)
    ltac:(done)) as (st & w3 & E3 & _ & _ & -> & m3 & X3 & D3).
  apply (extends_complete m m3 C) in X3 as ->. cbn in D3.
  destruct (get_variable S mtd n off (files w3) m None k v G Ac D3 ltac:(done) ltac:(apply lookup_insert_eq))
    as (w4 & E4 & O4 & _).
  exists w1, w2, w3, w4. rewrite F2. split_and!; done.
Qed.

(** * Where it departs *)

(** where the program does not do what it says.  A last argument [set] or [unset],
    even as the name of a variable to read, is undefined behaviour, not the
    message that an argument is missing.  [set] of a text without ['='] changes
    nothing and yet the run returns 0.  Reading a variable called [commit] makes a
    staging file.  And when the device takes nothing of the write, [commit]
    returns 0 and removes the staging file: its variables are lost. *)
Theorem nvram_cli_departs S mtd n off fs f g :
  good S mtd n -> disk mtd n off fs f g -> NVRAM_ROUNDUP (data_size (default f g) + 22) 4 < n - off ->
  run S [str "set"] fs = Undef /\ run S [str "unset"] fs = Undef /\ run S [str "get"; str "set"] fs = Undef /\
  (forall t, split_eq t = None ->
    exists w, run S [str "set"; t] fs = Ok 0 w /\ err w = [] /\
      disk mtd n off (files w) f (Some (default f g))) /\
  (exists w, run S [str "get"; str "commit"] fs = Ok 0 w /\
      disk mtd n off (files w) f (Some (default f g))) /\
  ((forall k, accepts S mtd k = 0%nat) ->
    exists w, run S [str "commit"] fs = Ok 0 w /\ disk mtd n off (files w) f None).
Proof.
  intros G D Hsz. set (m := default f g) in *.
  assert (fitting n off m) as Fi by (split; [by eapply texts_disk|done]).
  assert (complete m) as C by by eapply disk_complete.
  split; [done|]. split; [done|]. split; [done|]. split; [|split].
  - intros t Ht.
    destruct (run_write_ok S mtd n off G [str "set"; t] fs f g m (fun _ => True) false 1 [] ltac:(done) D
      eq_refl ltac:(done) Fi) as (w & m2 & c2 & cf & E & _ & Er & H2 & X & Hf & R1 & R2).
    { intros s fs1 sh c Hc O. exists 1, s, []. split; [|done]. cbn [run_args].
      unfold do_with_argument, do_set. rewrite Ht. done. }
    apply (extends_complete m m2 C) in X as ->. exists w. split; [done|]. split; [done|].
    by eapply disk_staged.
  - destruct (run_write_ok S mtd n off G [str "get"; str "commit"] fs f g m (fun _ => True) false 1 [] ltac:(done) D
      eq_refl ltac:(done) Fi) as (w & m2 & c2 & cf & E & _ & Er & H2 & X & Hf & R1 & R2).
    { intros s fs1 sh c Hc O.
      destruct (run_args_ok S mtd n off G c m Hc [CGet (str "commit")] m s fs1 sh [] [] (mkFlags 1 0 false) O
        ltac:(by repeat constructor)) as (s1 & o & E1 & O1 & P1). eauto 10. }
    apply (extends_complete m m2 C) in X as ->. exists w. split; [done|]. by eapply disk_staged.
  - intros Ac.
    destruct (run_write_ok S mtd n off G [str "commit"] fs f g m (fun _ => True) true 1 [] ltac:(done) D
      eq_refl ltac:(done) Fi) as (w & m2 & c2 & cf & E & _ & Er & H2 & X & Hf & R1 & R2).
    { intros s fs1 sh c Hc O.
      destruct (run_args_ok S mtd n off G c m Hc [CCommit] m s fs1 sh [] [] (mkFlags 1 0 false) O
        ltac:(by repeat constructor)) as (s1 & o & E1 & O1 & P1). eauto 10. }
    exists w. split; [done|]. unfold over in R2. rewrite Ac in R2. by eapply disk_flash.
Qed.

(** * A system *)

Definition header_line : cstr := str "dev:    size   erasesize  name" ++ [10].
Definition demo_proc_mtd : list Z :=
  concat [header_line; mtd_line 0 262144 65536 (str "cfe")] ++ mtd_line 1 32768 65536 (str "nvram") ++ [].
Definition demo_sys : sys :=
  mkSys demo_env (Some demo_proc_mtd) (fun _ => true) (fun _ => true) true 4096 (fun _ k => k).
Definition demo_mtd : cstr := mtdblock 1.

Lemma demo_other : Forall other_line [header_line; mtd_line 0 262144 65536 (str "cfe")].
Proof.
  repeat constructor; eexists; (split; [reflexivity|]); (split; [|split; [|reflexivity]]).
  - vm_compute. repeat (apply Forall_cons_2; [discriminate|]). apply Forall_nil_2.
  - by apply Nat.ltb_lt.
  - vm_compute. repeat (apply Forall_cons_2; [discriminate|]). apply Forall_nil_2.
  - by apply Nat.ltb_lt.
Qed.

Lemma demo_good : good demo_sys demo_mtd 32768.
Proof.
  split; try done; try (split_and!; by vm_compute).
  exists [header_line; mtd_line 0 262144 65536 (str "cfe")], 1, 65536, (str "nvram"), [].
  split; [done|]. split; [exact demo_other|]. split; [lia|]. split; [done|]. split; [|split; [simpl; lia|done]].
  vm_compute. repeat (apply Forall_cons_2; [discriminate|]). apply Forall_nil_2.
Qed.

(** A partition with one variable. *)
Definition demo_header : list (list Z) := [le32 NVRAM_MAGIC; le32 36; le32 256; le32 0; le32 0].
Definition demo_flash : list Z :=
  image [] demo_header (encs [(NvramOpen.key, NvramOpen.val)] ++ 0 :: repeat 0 (Z.to_nat 32734)).
Definition demo_vars : gmap cstr cstr := {[ NvramOpen.key := NvramOpen.val ]} ∪ sdram_of demo_header.
Definition demo_files : gmap cstr file := {[ demo_mtd := mkFile 24960 demo_flash ]}.

Lemma demo_holds : holds 32768 0 demo_flash demo_vars.
Proof.
  exists [], 36, [le32 256; le32 0; le32 0], [(NvramOpen.key, NvramOpen.val)], (repeat 0 (Z.to_nat 32734)).
  cbv zeta. split; [done|]. split; [by repeat constructor|]. do 4 (split; [done || lia|]). split.
  { unfold demo_flash, image. rewrite !length_app. cbn [length]. rewrite repeat_length. simpl length. lia. }
  split; [unfold NVRAM_MIN_SPACE; lia|]. split; [|split; [apply NoDup_singleton|done]].
  constructor; [|constructor]. unfold text_ok. vm_compute.
  split_and!; repeat (apply Forall_cons_2; [discriminate|]); apply Forall_nil_2.
Qed.

Lemma demo_disk : disk demo_mtd 32768 0 demo_files demo_vars None.
Proof.
  split; [|done]. exists demo_flash. split; [|exact demo_holds].
  exists 24960. split; [apply lookup_singleton_eq|done].
Qed.

Lemma nvram_cli_refines_witness : exists w,
  run demo_sys [str "get"; NvramOpen.key; str "unset"; NvramOpen.key; str "get"; NvramOpen.key; str "commit"]
    demo_files = Ok 0 w /\
  out w = str "on" ++ [10] /\ exists m, disk demo_mtd 32768 0 (files w) m None /\ m !! NvramOpen.key = None.
Proof.
  destruct (nvram_cli_refines demo_sys demo_mtd 32768 0 demo_files demo_vars None
    [CGet NvramOpen.key; CUnset NvramOpen.key; CGet NvramOpen.key; CCommit] demo_good (fun _ => eq_refl) demo_disk
    ltac:(done) ltac:(by repeat constructor) (fun _ => eq_refl))
    as (st & w & E & _ & (o1 & o2 & Ho & P1 & o3 & o4 & -> & P2 & o5 & o6 & -> & P3 & o7 & o8 & -> & P4 & ->) & -> & m2 & [X1 X2] & D).
  exists w. split; [exact E|]. split.
  - rewrite Ho. cbv [prints] in P1, P2, P3, P4. rewrite P1, P2, P3, P4. vm_compute. reflexivity.
  - exists m2. split; [exact D|]. rewrite X2; [vm_compute; reflexivity|].
    apply (bool_decide_eq_false_1 (NvramOpen.key ∈ sdram_names)). vm_compute. reflexivity.
Defined.

Lemma nvram_session_witness : exists w1 w2,
  run demo_sys [str "set"; str "lan_proto=dhcp"] demo_files = Ok 0 w1 /\
  run demo_sys [str "get"; str "lan_proto"] (files w1) = Ok 0 w2 /\ out w2 = str "dhcp" ++ [10].
Proof.
  destruct (nvram_session demo_sys demo_mtd 32768 0 demo_files demo_vars None (str "lan_proto") (str "dhcp")
    demo_good (fun _ => eq_refl) demo_disk
    ltac:(unfold text_ok; vm_compute; split_and!; repeat (apply Forall_cons_2; [discriminate|]); apply Forall_nil_2)
    ltac:(discriminate) ltac:(discriminate) ltac:(discriminate) eq_refl)
    as (w1 & w2 & w3 & w4 & E1 & _ & E2 & O2 & _).
  exists w1, w2. split; [exact E1|]. split; [exact E2|exact O2].
Defined.

Lemma nvram_cli_departs_witness : exists w,
  run demo_sys [str "set"; str "lan_proto"] demo_files = Ok 0 w /\ err w = [].
Proof.
  destruct (nvram_cli_departs demo_sys demo_mtd 32768 0 demo_files demo_vars None demo_good demo_disk eq_refl)
    as (_ & _ & _ & H & _).
  destruct (H (str "lan_proto") eq_refl) as (w & E & Er & _). exists w. split; [exact E|exact Er].
Defined.

End NvramCliTheorems.
