(* ===== verification/Owipcalc.v ===== *)
(** The IP address calculator [network/utils/owipcalc/src/owipcalc.c].

    An address is the 16 bytes of the C union; [s_addr] is the integer that a
    little-endian host (the processors this repository builds for) reads from
    the first four.  The stack of intermediate results, the two output flags and
    the text printed are the state; [exit] ends a run with a status.

    The text forms of addresses ([inet_pton], [inet_ntop]) and the outcome of
    [malloc] belong to the C library of the target and are parameters;
    the string functions are those of [CString], and the byte-order functions are
    written out. *)

From Stdlib Require Import ZArith Lia Ascii String.
From stdpp Require Import base list list_numbers numbers.
From S2P Require Import Prelude CString.

Open Scope string_scope.
Open Scope Z_scope.

Module Owipcalc.
Export CString.

(** * Data *)

Inductive family := AF_INET | AF_INET6.

#[export] Instance family_eq_dec : EqDecision family.
Proof. solve_decision. Defined.

(** [struct cidr]; the text buffer and the link are not part of the value. *)
Record cidr := mkCidr {
  fam : family;
  prefix : Z;
  addr : list Z
}.
#[export] Instance eta_cidr : Eta cidr := fun c => mkCidr (fam c) (prefix c) (addr c).

(** What the program takes from its surroundings: the address conversions,
    the range of [unsigned long], whether the [n]-th [malloc] fails, and what
    fresh memory holds. *)
Record libc := mkLibc {
  pton4 : string -> option (list Z);
  pton6 : string -> option (list Z);
  ntop4 : list Z -> option string;
  ntop6 : list Z -> option string;
  ulong_max : Z;
  oom : nat -> bool;
  junk : list Z
}.

Record state := mkState {
  stack : list cidr;
  quiet : bool;
  printed : bool;
  out : string;
  mallocs : nat;
  exit_code : option Z
}.
#[export] Instance eta_state : Eta state := fun s =>
  mkState (stack s) (quiet s) (printed s) (out s) (mallocs s) (exit_code s).

Definition init : state := mkState [] false false "" 0 None.

Definition exit {A} (code : Z) : M state A :=
  modify (fun s => s <| exit_code := Some code |>);; abort.

(** [qprintf] *)
Definition qprintf (t : string) : M state unit :=
  modify (fun s => (if quiet s then s else s <| out ::= fun o => o ++ t |>) <| printed := true |>).

(** [if (printed) qprintf(" ");] *)
Definition separate : M state unit :=
  p ← gets printed; if (p : bool) then qprintf " " else mret tt.

(** Print a verdict, ['1'] or ['0'], and return it. *)
Definition verdict (b : bool) : M state bool :=
  qprintf (if b then "1" else "0");; mret b.

(** * Integers and bytes *)

(** [1 << k] on [int]: undefined from 31 on, and for a huge unsigned [k]. *)
Definition one_shl (k : Z) : M state Z :=
  if (0 <=? k) && (k <=? 30) then mret (2 ^ k) else undef.

(** Big-endian bytes of a 32-bit value, and back. *)
Definition bytes4 (x : Z) : list Z :=
  [u8 (Z.shiftr x 24); u8 (Z.shiftr x 16); u8 (Z.shiftr x 8); u8 x].

Definition be (l : list Z) : Z := fold_left (fun n b => n * 256 + b) l 0.

(** [s_addr]: the first four bytes as a little-endian host reads them. *)
Definition le4 (l : list Z) : Z := be (rev (take 4 l)).
Definition set_le4 (x : Z) (l : list Z) : list Z := (rev (bytes4 x) ++ drop 4 l)%list.

Definition s_addr (c : cidr) : Z := le4 (addr c).
Definition set_s_addr (x : Z) (c : cidr) : cidr := c <| addr ::= set_le4 x |>.

(** [htonl] and [ntohl] swap the bytes on a little-endian host. *)
Definition htonl (x : Z) : Z := be (rev (bytes4 x)).
Definition ntohl (x : Z) : Z := htonl x.

(** [~x] and the conversions of an [int] to [uint32_t]. *)
Definition not32 (x : Z) : Z := u32 (Z.lnot x).

(** [uint32_t] subtraction [c - x]. *)
Definition usub32 (c x : Z) : Z := u32 (c - x).

Section libc_dependent.
Context (E : libc).

(** [strtoul] on this machine. *)
Definition strtoul (base : Z) (s : string) : option (Z * string) :=
  CString.strtoul (ulong_max E) base s.

(** The decimal prefix length after the slash. *)
Definition parse_prefix (limit : Z) (p : string) : option Z :=
  match strtoul 10 p with
  | Some (n, "") => if u32 n >? limit then None else Some (u32 n)
  | _ => None
  end.

(** [for (prefix = 0; m; m >>= 1) prefix += m & 1;] on 32 bits *)
Fixpoint popcount (fuel : nat) (m : Z) : Z :=
  match fuel with
  | O => 0
  | S fuel => if m =? 0 then 0 else Z.land m 1 + popcount fuel (Z.shiftr m 1)
  end.

Definition malloc_cidr : M state bool :=
  s ← get;
  modify (fun s => s <| mallocs ::= S |>);;
  mret (negb (oom E (mallocs s))).

(** The prefix of a parsed text: a mask, a number, or the default. *)
Definition prefix4 (p : option string) : option Z :=
  match p with
  | None => Some 32
  | Some p =>
      if strchr "." p then
        match pton4 E p with
        | Some m => Some (popcount 32 (le4 m))
        | None => None
        end
      else parse_prefix 32 p
  end.

(** [s] split at the slash. *)
Definition halves (s : string) : string * option string :=
  match split_at "/" s with
  | Some (a, p) => (a, Some p)
  | None => (s, None)
  end.

(** The address before the slash; nothing before it stands for zero. *)
Definition address (pton : string -> option (list Z)) (len : nat) (h : string * option string)
    : option (list Z) :=
  match h with
  | ("", Some _) => Some (repeat 0 len)
  | (a, _) => pton a
  end.

Definition parse4 (s : string) : option cidr :=
  if (33 <=? Z.of_nat (String.length s)) then None
  else
    let h := halves s in
    match prefix4 h.2 with
    | None => None
    | Some p =>
        match address (pton4 E) 4 h with
        | None => None
        | Some a => Some (mkCidr AF_INET p (a ++ drop 4 (junk E))%list)
        end
    end.

Definition cidr_parse4 (s : string) : M state (option cidr) :=
  ok ← malloc_cidr; mret (if (ok : bool) then parse4 s else None).

Definition parse6 (s : string) : option cidr :=
  if (51 <=? Z.of_nat (String.length s)) then None
  else
    let h := halves s in
    match (match h.2 with None => Some 128 | Some p => parse_prefix 128 p end) with
    | None => None
    | Some p =>
        match address (pton6 E) 16 h with
        | None => None
        | Some a => Some (mkCidr AF_INET6 p a)
        end
    end.

Definition cidr_parse6 (s : string) : M state (option cidr) :=
  ok ← malloc_cidr; mret (if (ok : bool) then parse6 s else None).

(** The low bytes of [sum], least significant last. *)
Definition bytes16 (sum : Z) : list Z :=
  rev (map (fun i => u8 (Z.shiftr sum (8 * Z.of_nat i))) (seq 0 16)).

Definition cidr_parse (op s : string) (af_hint : family) : M state (option cidr) :=
  match strtoul 0 s with
  | Some (n, "") =>
      let sum := u32 n in
      ok ← malloc_cidr;
      mret (if negb ok then None
            else match af_hint with
                 | AF_INET => Some (set_s_addr (htonl sum) (mkCidr AF_INET sum (junk E)))
                 | AF_INET6 => Some (mkCidr AF_INET6 sum (bytes16 sum))
                 end)
  | _ =>
      a ← (if strchr ":" s then cidr_parse6 s else cidr_parse4 s);
      match a with
      | None => mret None
      | Some a => if bool_decide (fam a = af_hint) then mret (Some a) else exit 4
      end
  end.

(** * The stack *)

Definition cidr_push (a : cidr) : M state unit := modify (fun s => s <| stack ::= cons a |>).

Definition cidr_pop : M state bool :=
  l ← gets stack;
  match l with
  | [] => mret false
  | _ :: l => modify (fun s => s <| stack := l |>);; mret true
  end.

(** [a], the top of the stack; [a->...] is undefined for an empty stack. *)
Definition top : M state cidr :=
  l ← gets stack; lift (head l).

Definition mod_top (f : cidr -> cidr) : M state unit :=
  l ← gets stack;
  match l with
  | [] => undef
  | a :: l => modify (fun s => s <| stack := f a :: l |>)
  end.

(** The clone [n] becomes the new top. *)
Definition cidr_clone (a : cidr) : M state unit :=
  ok ← malloc_cidr;
  if (ok : bool) then cidr_push a else exit 255.

(** * IPv4 operations; [a] is the top of the stack *)

Definition both (f : family) (a b : cidr) : bool :=
  bool_decide (fam a = f) && bool_decide (fam b = f).

Definition cidr_add4 (b : cidr) : M state bool :=
  a ← top;
  let x := ntohl (s_addr a) in
  let y := ntohl (s_addr b) in
  cidr_clone a;;
  if negb (both AF_INET a b) then mret false
  else if u32 (x + y) <? x then mret false
  else mod_top (set_s_addr (htonl (u32 (x + y))));; mret true.

Definition cidr_sub4 (b : cidr) : M state bool :=
  a ← top;
  let x := ntohl (s_addr a) in
  let y := ntohl (s_addr b) in
  cidr_clone a;;
  if negb (both AF_INET a b) then mret false
  else if u32 (x - y) >? x then mret false
  else mod_top (set_s_addr (htonl (u32 (x - y))));; mret true.

(** [(1 << (32 - prefix)) - 1] *)
Definition hostmask (p : Z) : M state Z :=
  k ← one_shl (usub32 32 p); isub k 1.

Definition cidr_network4 : M state bool :=
  a ← top;
  cidr_clone a;;
  m ← hostmask (prefix a);
  mod_top (fun n => set_s_addr (Z.land (s_addr n) (htonl (not32 m))) n <| prefix := 32 |>);;
  mret true.

Definition cidr_broadcast4 : M state bool :=
  a ← top;
  cidr_clone a;;
  m ← hostmask (prefix a);
  mod_top (fun n => set_s_addr (Z.lor (s_addr n) (htonl (u32 m))) n <| prefix := 32 |>);;
  mret true.

Definition cidr_contains4 (b : cidr) : M state bool :=
  a ← top;
  m ← hostmask (prefix a);
  let net1 := Z.land (s_addr a) (htonl (not32 m)) in
  let net2 := Z.land (s_addr b) (htonl (not32 m)) in
  separate;;
  verdict ((prefix b >=? prefix a) && (net1 =? net2)).

Definition cidr_netmask4 : M state bool :=
  a ← top;
  cidr_clone a;;
  m ← hostmask (prefix a);
  mod_top (fun n => set_s_addr (htonl (not32 m)) n <| prefix := 32 |>);;
  mret true.

Definition private4 (x : Z) : bool :=
  ((167772160 <=? x) && (x <=? 184549375)) || ((2886729728 <=? x) && (x <=? 2887778303))
  || ((3232235520 <=? x) && (x <=? 3232301055)).

Definition cidr_private4 : M state bool :=
  a ← top; separate;; verdict (private4 (ntohl (s_addr a))).

Definition linklocal4 (x : Z) : bool := (2851995648 <=? x) && (x <=? 2852061183).

Definition cidr_linklocal4 : M state bool :=
  a ← top; separate;; verdict (linklocal4 (ntohl (s_addr a))).

Definition cidr_prev4 (b : cidr) : M state bool :=
  a ← top;
  cidr_clone a;;
  mod_top (fun n => n <| prefix := prefix b |>);;
  k ← one_shl (usub32 32 (prefix b));
  mod_top (fun n => set_s_addr (u32 (s_addr n - htonl k)) n);;
  mret true.

Definition cidr_next4 (b : cidr) : M state bool :=
  a ← top;
  cidr_clone a;;
  mod_top (fun n => n <| prefix := prefix b |>);;
  k ← one_shl (usub32 32 (prefix b));
  mod_top (fun n => set_s_addr (u32 (s_addr n + htonl k)) n);;
  mret true.

Definition cidr_6to4 : M state bool :=
  a ← top;
  cidr_clone a;;
  let x := s_addr a in
  mod_top (fun _ => mkCidr AF_INET6 48
    ([32; 2; u8 (Z.shiftr x 24); Z.land (Z.shiftr x 16) 255; Z.land (Z.shiftr x 8) 255;
      Z.land x 255] ++ repeat 0 10)%list);;
  mret true.

(** The common part of the two print operations. *)
Definition print_top (t : option string) (p width : Z) : M state bool :=
  match t with
  | None => mret false
  | Some t =>
      separate;; qprintf t;;
      (if p <? width then qprintf ("/" ++ print_u p) else mret tt);;
      _ ← cidr_pop; mret true
  end.

(** With a null pointer or the other family, the functions return false. *)
Definition cidr_print4 : M state bool :=
  l ← gets stack;
  match l with
  | [] => mret false
  | a :: _ => if bool_decide (fam a = AF_INET)
              then print_top (ntop4 E (take 4 (addr a))) (prefix a) 32 else mret false
  end.

(** * IPv6 operations *)

(** One round of the addition loop on bytes [x], [y] with a carry. *)
Definition add_step (x y carry : Z) : Z * Z :=
  (u8 (x + (y + carry)), if x + y + carry >=? 256 then 1 else 0).
Definition sub_step (x y carry : Z) : Z * Z :=
  (u8 (x - (y + carry)), if x - y - carry <? 0 then 1 else 0).

(** [do ... while (idx-- > 0)] from the last byte to the first: the bytes and
    the final carry. *)
Fixpoint carry_loop (step : Z -> Z -> Z -> Z * Z) (xs ys : list Z) (carry : Z) : list Z * Z :=
  match xs, ys with
  | x :: xs, y :: ys =>
      let '(zs, c) := carry_loop step xs ys carry in
      let '(z, c) := step x y c in
      (z :: zs, c)
  | _, _ => ([], carry)
  end.

Definition add6 (x y : list Z) : list Z * Z := carry_loop add_step x y 0.
Definition sub6 (x y : list Z) : list Z * Z := carry_loop sub_step x y 0.

Definition cidr_add6 (b : cidr) : M state bool :=
  a ← top;
  cidr_clone a;;
  if negb (both AF_INET6 a b) then mret false
  else
    let '(z, c) := add6 (addr a) (addr b) in
    mod_top (fun n => n <| addr := z |>);;
    mret (c =? 0).

Definition cidr_sub6 (b : cidr) : M state bool :=
  a ← top;
  cidr_clone a;;
  if negb (both AF_INET6 a b) then mret false
  else
    let '(z, c) := sub6 (addr a) (addr b) in
    mod_top (fun n => n <| addr := z |>);;
    mret (c =? 0).

(** The loops of [next] and [prev] start at byte [idx]: the bytes behind it
    are left alone.  [idx] is a byte itself; past the array it is undefined. *)
Definition step_at (step : Z -> Z -> Z -> Z * Z) (idx : Z) (x : list Z) : M state (list Z * Z) :=
  if idx <? Z.of_nat (length x) then
    let k := S (Z.to_nat idx) in
    let '(z, c) := carry_loop step (take k x) (repeat 0 k) 1 in
    mret ((z ++ drop k x)%list, c)
  else undef.

Definition prefix_byte (p : Z) : Z := u8 ((p - 1) / 8).

Definition shift_prefix6 (step : Z -> Z -> Z -> Z * Z) (b : cidr) : M state bool :=
  a ← top;
  cidr_clone a;;
  if prefix b =? 0 then mret false
  else
    r ← step_at step (prefix_byte (prefix b)) (addr a);
    mod_top (fun n => n <| addr := r.1 |>);;
    if negb (r.2 =? 0) then mret false
    else mod_top (fun n => n <| prefix := prefix b |>);; mret true.

Definition cidr_prev6 : cidr -> M state bool := shift_prefix6 sub_step.
Definition cidr_next6 : cidr -> M state bool := shift_prefix6 add_step.

(** [s6_addr[15 - i] op= ...], undefined outside the array. *)
Definition mod_byte (k : Z) (f : Z -> Z) (l : list Z) : M state (list Z) :=
  if (0 <=? k) && (k <? Z.of_nat (length l)) then mret (alter f (Z.to_nat k) l) else undef.

(** [~((1 << r) - 1)] as a byte, for [r < 8]. *)
Definition bytemask (r : Z) : Z := u8 (Z.lnot (2 ^ r - 1)).

Fixpoint zero_tail (i : nat) (l : list Z) : M state (list Z) :=
  match i with
  | O => mret l
  | S i => l ← zero_tail i l; mod_byte (15 - Z.of_nat i) (fun _ => 0) l
  end.

Definition cidr_network6 : M state bool :=
  a ← top;
  cidr_clone a;;
  let host := usub32 128 (prefix a) in
  l ← zero_tail (Z.to_nat (host / 8)) (addr a);
  l ← (if host mod 8 =? 0 then mret l
       else mod_byte (15 - host / 8) (Z.land (bytemask (host mod 8))) l);
  mod_top (fun n => n <| addr := l |>);;
  mret true.

Definition cidr_contains6 (b : cidr) : M state bool :=
  a ← top;
  cidr_clone a;;
  let host := usub32 128 (prefix a) in
  let i := u8 (host / 8) in
  let m := bytemask (host mod 8) in
  x ← lift (zlookup (addr a) (15 - i));
  y ← lift (zlookup (addr b) (15 - i));
  separate;;
  verdict ((prefix b >=? prefix a) && (Z.land x m =? Z.land y m)
           && ((i =? 15) || bool_decide (take (Z.to_nat (15 - i)) (addr a)
                                         = take (Z.to_nat (15 - i)) (addr b)))).

Definition byte_at (a : cidr) (i : nat) : Z := nth i (addr a) 0.

Definition cidr_linklocal6 : M state bool :=
  a ← top; separate;;
  verdict ((byte_at a 0 =? 254) && (128 <=? byte_at a 1) && (byte_at a 1 <=? 191)).

Definition cidr_ula6 : M state bool :=
  a ← top; separate;;
  verdict ((252 <=? byte_at a 0) && (byte_at a 0 <=? 253)).

Definition cidr_print6 : M state bool :=
  l ← gets stack;
  match l with
  | [] => mret false
  | a :: _ => if bool_decide (fam a = AF_INET6)
              then print_top (ntop6 E (addr a)) (prefix a) 128 else mret false
  end.

(** * Operations for both families *)

Definition cidr_howmany (b : cidr) : M state bool :=
  a ← top; separate;;
  (if prefix b <? prefix a then qprintf "0"
   else k ← one_shl (prefix b - prefix a); qprintf (print_u k));;
  mret true.

Definition cidr_prefix (b : cidr) : M state bool :=
  mod_top (fun a => a <| prefix := prefix b |>);; mret true.

Definition cidr_quiet : M state bool :=
  modify (fun s => s <| quiet := true |>);; mret true.

(** * The operation table *)

(** [struct op]: at most one of the two arities per operation. *)
Inductive op :=
| Op1 (name : string) (f4 f6 : option (M state bool))
| Op2 (name : string) (f4 f6 : option (cidr -> M state bool)).

Definition name (o : op) : string := match o with Op1 n _ _ | Op2 n _ _ => n end.

Definition ops : list op :=
  [ Op2 "add" (Some cidr_add4) (Some cidr_add6);
    Op2 "sub" (Some cidr_sub4) (Some cidr_sub6);
    Op2 "next" (Some cidr_next4) (Some cidr_next6);
    Op2 "prev" (Some cidr_prev4) (Some cidr_prev6);
    Op1 "network" (Some cidr_network4) (Some cidr_network6);
    Op1 "broadcast" (Some cidr_broadcast4) None;
    Op2 "prefix" (Some cidr_prefix) (Some cidr_prefix);
    Op1 "netmask" (Some cidr_netmask4) None;
    Op1 "6to4" (Some cidr_6to4) None;
    Op2 "howmany" (Some cidr_howmany) (Some cidr_howmany);
    Op2 "contains" (Some cidr_contains4) (Some cidr_contains6);
    Op1 "private" (Some cidr_private4) None;
    Op1 "linklocal" (Some cidr_linklocal4) (Some cidr_linklocal6);
    Op1 "ula" None (Some cidr_ula6);
    Op1 "quiet" (Some cidr_quiet) (Some cidr_quiet);
    Op1 "pop" (Some cidr_pop) (Some cidr_pop);
    Op1 "print" (Some cidr_print4) (Some cidr_print6) ].

Definition pick {A} (f : family) (f4 f6 : option A) : option A :=
  match f with AF_INET => f4 | AF_INET6 => f6 end.

Definition status_of (b : bool) : Z := if b then 0 else 1.

(** One operation: whether to go on, the arguments left, and the status.
    (The C code also reads the argument after the last; it is not used.) *)
Definition runop (arg : list string) (status : Z) : M state (bool * list string * Z) :=
  match arg with
  | [] => mret (false, arg, status)
  | arg1 :: rest =>
      match find (fun o => String.eqb (name o) arg1) ops with
      | None => mret (false, arg, status)
      | Some (Op2 n f4 f6) =>
          match rest with
          | [] => mret (false, arg, 2)
          | arg2 :: rest =>
              a ← top;
              b ← cidr_parse n arg2 (fam a);
              match b with
              | None => mret (false, arg, 3)
              | Some b =>
                  match pick (fam a) f4 f6 with
                  | None => mret (false, rest, 5)
                  | Some f => r ← f b; mret (true, rest, status_of r)
                  end
              end
          end
      | Some (Op1 n f4 f6) =>
          a ← top;
          match pick (fam a) f4 f6 with
          | None => mret (false, rest, 5)
          | Some f => r ← f; mret (true, rest, status_of r)
          end
      end
  end.

(** [while (runop(&arg, &status));] the first [fuel] rounds; [None] when the loop
    is still not over then. *)
Fixpoint run_ops (fuel : nat) (arg : list string) (status : Z) : M state (option (list string * Z)) :=
  match fuel with
  | O => mret None
  | S fuel =>
      r ← runop arg status;
      let '(go, arg, status) := r in
      if (go : bool) then run_ops fuel arg status else mret (Some (arg, status))
  end.

(** [main], from the arguments after the program's name; it ends by [exit].  It
    gives the loop one round more than there are arguments, and returns [tt] only when
    the loop is not over after them. *)
Definition main (argv : list string) : M state unit :=
  match argv with
  | base :: ((_ :: _) as arg) =>
      a ← (if strchr ":" base then cidr_parse6 base else cidr_parse4 base);
      match a with
      | None => exit 1
      | Some a =>
          cidr_push a;;
          r ← run_ops (S (length arg)) arg 0;
          match r with
          | None => mret tt
          | Some (_ :: _, _) => exit 6
          | Some ([], status) =>
              p ← gets printed;
              (if negb p && (status <? 2) then
                 a ← top;
                 (match fam a with AF_INET => cidr_print4 | AF_INET6 => cidr_print6 end);;
                 mret tt
               else mret tt);;
              qprintf (String "010" EmptyString);;
              exit status
          end
      end
  | _ => exit 1
  end.

End libc_dependent.

End Owipcalc.
