(* ===== verification/OwipcalcBytes.v ===== *)
(** Addresses as numbers: the big-endian value of bytes, the byte order
    functions, bitwise operations byte by byte, and the carry loops of the IPv6
    operations against the arithmetic of 128-bit integers. *)

From Stdlib Require Import ZArith Lia Ascii String.
From stdpp Require Import base list list_numbers numbers.
From S2P Require Import Prelude Owipcalc.

Module OwipcalcBytes.
Import Owipcalc.

Definition byte (b : Z) : Prop := 0 <= b < 256.
Definition bytes (l : list Z) : Prop := Forall byte l.

(** * Values *)

Lemma be_fold l : forall n, fold_left (fun n b => n * 256 + b) l n = n * 256 ^ Z.of_nat (length l) + be l.
Proof.
  unfold be. induction l as [|b l IH]; intros n; [simpl; lia|].
  cbn [fold_left length]. rewrite (IH (n * 256 + b)), (IH (0 * 256 + b)).
  replace (Z.of_nat (S (length l))) with (Z.of_nat (length l) + 1) by lia.
  rewrite Z.pow_add_r by lia. lia.
Qed.

Lemma be_cons b l : be (b :: l) = b * 256 ^ Z.of_nat (length l) + be l.
Proof. unfold be at 1. simpl. by rewrite be_fold. Qed.

Lemma be_app l1 l2 : be (l1 ++ l2)%list = be l1 * 256 ^ Z.of_nat (length l2) + be l2.
Proof. unfold be at 1. rewrite fold_left_app. by rewrite be_fold. Qed.

Lemma be_snoc l b : be (l ++ [b])%list = be l * 256 + b.
Proof. rewrite be_app. simpl. unfold be at 2. simpl. lia. Qed.

Lemma be_bounds l : bytes l -> 0 <= be l < 256 ^ Z.of_nat (length l).
Proof.
  induction 1 as [|b l Hb _ IH]; [done|]. rewrite be_cons. simpl length.
  replace (Z.of_nat (S (length l))) with (Z.of_nat (length l) + 1) by lia.
  rewrite Z.pow_add_r by lia. unfold byte in Hb. nia.
Qed.

Lemma be_inj l1 : forall l2, bytes l1 -> bytes l2 -> length l1 = length l2 ->
  be l1 = be l2 -> l1 = l2.
Proof.
  induction l1 as [|x l1 IH]; intros [|y l2] H1 H2 Hl E; try done.
  apply Forall_cons_1 in H1 as [Hx H1], H2 as [Hy H2]. simpl in Hl.
  assert (length l1 = length l2) as Hl' by lia. rewrite !be_cons, Hl' in E.
  pose proof (be_bounds l1 H1) as B1. pose proof (be_bounds l2 H2) as B2. rewrite Hl' in B1.
  assert (x = y) as -> by nia. f_equal. apply IH; try done. lia.
Qed.

Lemma bytes_rev l : bytes l -> bytes (rev l).
Proof. apply List.Forall_rev. Qed.

Lemma bytes_app l1 l2 : bytes (l1 ++ l2)%list <-> bytes l1 /\ bytes l2.
Proof. apply Forall_app. Qed.

Lemma u8_byte x : byte (u8 x).
Proof. apply u8_range. Qed.

Lemma bytes_bytes4 x : bytes (bytes4 x).
Proof. repeat constructor; apply u8_byte. Qed.

Lemma be_bytes4 x : 0 <= x < 4294967296 -> be (bytes4 x) = x.
Proof.
  intros H. unfold bytes4, be, u8. cbn [fold_left]. rewrite !Z.shiftr_div_pow2 by lia.
  change (2 ^ 24) with 16777216. change (2 ^ 16) with 65536. change (2 ^ 8) with 256.
  rewrite (Z.mod_small (x / 16777216) 256) by
    (split; [apply Z.div_pos; lia | apply Z.div_lt_upper_bound; lia]).
  pose proof (Z.div_mod x 256 ltac:(lia)).
  pose proof (Z.div_mod (x / 256) 256 ltac:(lia)) as H1.
  pose proof (Z.div_mod (x / 65536) 256 ltac:(lia)) as H2.
  rewrite Z.div_div in H1 by lia. rewrite Z.div_div in H2 by lia.
  change (256 * 256) with 65536 in H1. change (65536 * 256) with 16777216 in H2. lia.
Qed.

Lemma bytes4_be l : bytes l -> length l = 4%nat -> bytes4 (be l) = l.
Proof.
  intros H Hl. apply be_inj; try done; [apply bytes_bytes4|].
  pose proof (be_bounds l H) as B. rewrite Hl in B. apply be_bytes4. done.
Qed.

(** * Bitwise operations byte by byte *)

Section bytewise.
Context (f : Z -> Z -> Z) (fb : bool -> bool -> bool).
Context (f_spec : forall a b n, 0 <= n -> Z.testbit (f a b) n = fb (Z.testbit a n) (Z.testbit b n)).
Context (fb_0 : fb false false = false).

Lemma high_bits_byte a : byte a <-> 0 <= a /\ forall n, 8 <= n -> Z.testbit a n = false.
Proof.
  unfold byte. split.
  - intros H. split; [lia|]. intros n Hn. rewrite <- (Z.mod_small a (2 ^ 8)) by lia.
    apply Z.mod_pow2_bits_high. lia.
  - intros [H0 H]. assert (a = a mod 2 ^ 8) as E.
    { apply Z.bits_inj'. intros n Hn. destruct (Z.lt_ge_cases n 8).
      - by rewrite Z.mod_pow2_bits_low.
      - rewrite Z.mod_pow2_bits_high by lia. by apply H. }
    rewrite E. apply (Z.mod_pos_bound _ (2 ^ 8)). lia.
Qed.

Lemma bitwise_byte a b : byte a -> byte b -> byte (f a b).
Proof.
  intros [_ Ha]%high_bits_byte [_ Hb]%high_bits_byte.
  assert (forall n, 8 <= n -> Z.testbit (f a b) n = false) as Hi
    by (intros n Hn; rewrite f_spec by lia; by rewrite Ha, Hb).
  apply high_bits_byte. split; [|done].
  apply Z.bits_iff_nonneg_ex. exists 7. intros m Hm. apply Hi. lia.
Qed.

Lemma bitwise_bytes l1 : forall l2, bytes l1 -> bytes l2 -> bytes (zip_with f l1 l2).
Proof.
  induction l1 as [|a l1 IH]; intros [|b l2] H1 H2; try constructor.
  - apply Forall_cons_1 in H1 as [? _], H2 as [? _]. by apply bitwise_byte.
  - apply Forall_cons_1 in H1 as [_ ?], H2 as [_ ?]. by apply IH.
Qed.

Lemma bitwise_step x y a b : byte a -> byte b ->
  f (x * 256 + a) (y * 256 + b) = f x y * 256 + f a b.
Proof.
  intros Ha Hb.
  assert (forall u v, byte v -> forall n, 0 <= n -> Z.testbit (u * 256 + v) n =
    if n <? 8 then Z.testbit v n else Z.testbit u (n - 8)) as T.
  { intros u v Hv n Hn. change 256 with (2 ^ 8). destruct (n <? 8) eqn:E.
    - rewrite <- (Z.mod_pow2_bits_low _ 8) by lia. rewrite Z.add_comm, Z.mod_add by lia.
      rewrite Z.mod_small by apply Hv. done.
    - replace n with (n - 8 + 8) at 1 by lia. rewrite <- Z.div_pow2_bits by lia.
      rewrite Z.add_comm, Z.div_add by lia. rewrite Z.div_small by apply Hv. done. }
  pose proof (bitwise_byte a b Ha Hb) as Hf.
  apply Z.bits_inj'. intros n Hn. rewrite f_spec by lia. rewrite !T by done.
  destruct (n <? 8) eqn:E; by rewrite f_spec by lia.
Qed.

Lemma bitwise_be l1 : forall l2, bytes l1 -> bytes l2 -> length l1 = length l2 -> f 0 0 = 0 ->
  f (be l1) (be l2) = be (zip_with f l1 l2).
Proof.
  induction l1 as [|a l1 IH] using rev_ind; intros l2 H1 H2 Hl H0.
  - destruct l2; [|done]. exact H0.
  - rewrite length_app in Hl. simpl in Hl. destruct l2 as [|b l2 _] using rev_ind; [simpl in Hl; lia|].
    rewrite length_app in Hl. simpl in Hl.
    apply bytes_app in H1 as [H1 Ha], H2 as [H2 Hb].
    apply Forall_cons_1 in Ha as [Ha _], Hb as [Hb _].
    rewrite zip_with_app by lia. simpl. rewrite !be_snoc, bitwise_step by done.
    rewrite IH by (done || lia). done.
Qed.
End bytewise.

Lemma zip_with_rev {A B C} (f : A -> B -> C) l1 : forall l2, length l1 = length l2 ->
  zip_with f (rev l1) (rev l2) = rev (zip_with f l1 l2).
Proof.
  induction l1 as [|a l1 IH]; intros [|b l2] H; try done. simpl in *.
  rewrite zip_with_app by (rewrite !length_rev; lia). rewrite IH by lia. done.
Qed.

(** * Byte order *)

Definition value4 (c : cidr) : Z := be (take 4 (addr c)).

(** A well-formed address: sixteen bytes. *)
Definition ok_addr (c : cidr) : Prop := bytes (addr c) /\ length (addr c) = 16%nat.

Lemma first4 c : ok_addr c -> bytes (take 4 (addr c)) /\ length (take 4 (addr c)) = 4%nat.
Proof.
  intros [H L]. split; [by apply Forall_take|]. rewrite length_take, L. done.
Qed.

Lemma value4_bounds c : ok_addr c -> 0 <= value4 c < 4294967296.
Proof. intros H. destruct (first4 c H) as [B L]. pose proof (be_bounds _ B) as P. by rewrite L in P. Qed.

Lemma ntohl_s_addr c : ok_addr c -> ntohl (s_addr c) = value4 c.
Proof.
  intros H. destruct (first4 c H) as [B L]. unfold ntohl, htonl, s_addr, le4.
  rewrite bytes4_be; [by rewrite rev_involutive|by apply bytes_rev|by rewrite length_rev].
Qed.

(** The first four bytes after a store of a byte-swapped value. *)
Lemma take_set_le4 x l : take 4 (set_le4 x l) = rev (bytes4 x).
Proof. done. Qed.

Lemma ok_set_s_addr x c : ok_addr c -> ok_addr (set_s_addr x c).
Proof.
  intros [B L]. split.
  - change (bytes (rev (bytes4 x) ++ drop 4 (addr c))%list). apply bytes_app. split; [apply bytes_rev, bytes_bytes4|by apply Forall_drop].
  - change (length (rev (bytes4 x) ++ drop 4 (addr c))%list = 16%nat).
    by rewrite length_app, length_drop, L.
Qed.

Lemma value4_store x c : 0 <= x < 4294967296 -> value4 (set_s_addr (htonl x) c) = x.
Proof.
  intros H. unfold value4. simpl addr. rewrite take_set_le4. unfold htonl.
  rewrite bytes4_be, rev_involutive; [by apply be_bytes4|apply bytes_rev, bytes_bytes4|done].
Qed.

(** A bitwise operation with a swapped operand is the operation on the values. *)
Lemma value4_bitwise f fb M c c' :
  (forall a b n, 0 <= n -> Z.testbit (f a b) n = fb (Z.testbit a n) (Z.testbit b n)) ->
  fb false false = false -> f 0 0 = 0 ->
  ok_addr c -> 0 <= M < 4294967296 ->
  value4 (set_s_addr (f (s_addr c) (htonl M)) c') = f (value4 c) M.
Proof.
  intros Hf Hb H0 H HM. destruct (first4 c H) as [B L].
  pose proof (bitwise_bytes f fb Hf Hb _ _ B (bytes_bytes4 M)) as Bz.
  unfold value4 at 1. simpl addr. rewrite take_set_le4.
  unfold s_addr, le4, htonl.
  rewrite (bitwise_be f fb Hf Hb), zip_with_rev;
    [|by rewrite L|by apply bytes_rev|apply bytes_rev, bytes_bytes4|by rewrite !length_rev, L|done].
  rewrite bytes4_be, rev_involutive;
    [|by apply bytes_rev|by rewrite length_rev, length_zip_with, L].
  rewrite <- (bitwise_be f fb Hf Hb) by (done || apply bytes_bytes4).
  by rewrite be_bytes4.
Qed.

Lemma value4_land M c c' : ok_addr c -> 0 <= M < 4294967296 ->
  value4 (set_s_addr (Z.land (s_addr c) (htonl M)) c') = Z.land (value4 c) M.
Proof. apply (value4_bitwise Z.land andb); try done. intros. apply Z.land_spec. Qed.

Lemma value4_lor M c c' : ok_addr c -> 0 <= M < 4294967296 ->
  value4 (set_s_addr (Z.lor (s_addr c) (htonl M)) c') = Z.lor (value4 c) M.
Proof. apply (value4_bitwise Z.lor orb); try done. intros. apply Z.lor_spec. Qed.

Lemma value4_set x c : value4 (set_s_addr x c) = htonl x.
Proof. done. Qed.

Lemma htonl_involutive x : 0 <= x < 4294967296 -> htonl (htonl x) = x.
Proof.
  intros H. unfold htonl. rewrite bytes4_be, rev_involutive;
    [by apply be_bytes4|apply bytes_rev, bytes_bytes4|done].
Qed.

Lemma land_bound x y : 0 <= x < 4294967296 -> 0 <= Z.land x y < 4294967296.
Proof.
  intros H. assert (Z.land x y = Z.land x y mod 2 ^ 32) as ->.
  { rewrite <- Z.land_ones by lia. rewrite <- Z.land_assoc, (Z.land_comm y), Z.land_assoc.
    rewrite Z.land_ones, (Z.mod_small x) by lia. done. }
  apply (Z.mod_pos_bound _ (2 ^ 32)). lia.
Qed.

Lemma s_addr_bounds c : ok_addr c -> 0 <= s_addr c < 4294967296.
Proof.
  intros H. destruct (first4 c H) as [B L]. unfold s_addr, le4.
  pose proof (be_bounds _ (bytes_rev _ B)) as P. by rewrite length_rev, L in P.
Qed.

(** Comparing masked addresses in network byte order compares their networks. *)
Lemma masked_eqb M a b : ok_addr a -> ok_addr b -> 0 <= M < 4294967296 ->
  (Z.land (s_addr a) (htonl M) =? Z.land (s_addr b) (htonl M)) =
  (Z.land (value4 a) M =? Z.land (value4 b) M).
Proof.
  intros Ha Hb HM. rewrite <- (value4_land M a a), <- (value4_land M b b), !value4_set by done.
  pose proof (land_bound _ (htonl M) (s_addr_bounds a Ha)).
  pose proof (land_bound _ (htonl M) (s_addr_bounds b Hb)).
  destruct (_ =? _) eqn:E1; symmetry.
  - apply Z.eqb_eq in E1. apply Z.eqb_eq. by f_equal.
  - apply Z.eqb_neq in E1. apply Z.eqb_neq. intros E2. apply E1.
    rewrite <- (htonl_involutive (Z.land (s_addr a) _)), E2 by done. by apply htonl_involutive.
Qed.

(** Masking with [~((1 << k) - 1)] on 32 bits. *)
Lemma not32_ones k : 0 <= k <= 32 -> not32 (2 ^ k - 1) = 2 ^ 32 - 2 ^ k.
Proof.
  intros H. unfold not32, u32, Z.lnot.
  assert (0 < 2 ^ k <= 2 ^ 32) by (split; [lia|apply Z.pow_le_mono_r; lia]).
  replace (Z.pred (- (2 ^ k - 1))) with (2 ^ 32 - 2 ^ k + (-1) * 2 ^ 32) by lia.
  rewrite Z.mod_add by lia. apply Z.mod_small. lia.
Qed.

Lemma land_netmask x k : 0 <= x < 4294967296 -> 0 <= k <= 32 ->
  Z.land x (not32 (2 ^ k - 1)) = x - x mod 2 ^ k.
Proof.
  intros Hx Hk. unfold not32, u32. rewrite <- Z.land_ones by lia.
  rewrite (Z.land_comm (Z.lnot _)), Z.land_assoc, Z.land_ones by lia.
  rewrite (Z.mod_small x) by lia. apply land_lnot_ones. lia.
Qed.

Lemma network_eqb x y h : 0 < h -> (x - x mod h =? y - y mod h) = (x / h =? y / h).
Proof.
  intros Hh. pose proof (Z.div_mod x h ltac:(lia)). pose proof (Z.div_mod y h ltac:(lia)).
  destruct (x / h =? y / h) eqn:E.
  - apply Z.eqb_eq in E. apply Z.eqb_eq. nia.
  - apply Z.eqb_neq in E. apply Z.eqb_neq. nia.
Qed.

(** * The carry loops are 128-bit arithmetic *)

Lemma add_loop xs : forall ys c, bytes xs -> bytes ys -> length xs = length ys -> 0 <= c <= 1 ->
  let r := carry_loop add_step xs ys c in
  be r.1 + r.2 * 256 ^ Z.of_nat (length xs) = be xs + be ys + c /\
  bytes r.1 /\ length r.1 = length xs /\ 0 <= r.2 <= 1.
Proof.
  induction xs as [|x xs IH]; intros [|y ys] c Hx Hy Hl Hc; try done.
  { unfold be; simpl; split_and!; try done; lia. }
  apply Forall_cons_1 in Hx as [Bx Hx], Hy as [By Hy]. simpl in Hl.
  destruct (IH ys c Hx Hy ltac:(lia) Hc) as (E & B & L & C). cbn [carry_loop].
  destruct (carry_loop add_step xs ys c) as [zs c']. simpl in *.
  unfold byte in *. rewrite !be_cons, L. replace (length ys) with (length xs) by lia.
  replace (Z.of_nat (S (length xs))) with (Z.of_nat (length xs) + 1) by lia.
  rewrite Z.pow_add_r by lia. split_and!.
  - assert (u8 (x + (y + c')) + (if x + y + c' >=? 256 then 1 else 0) * 256 = x + y + c') as S.
    { unfold u8. change (2 ^ 8) with 256. destruct (x + y + c' >=? 256) eqn:Eo.
      - replace (x + (y + c')) with (x + y + c' - 256 + 1 * 256) by lia.
        rewrite Z.mod_add, Z.mod_small by lia. lia.
      - rewrite Z.mod_small by lia. lia. }
    nia.
  - constructor; [apply u8_byte|done].
  - by f_equal.
  - destruct (_ >=? _); lia.
  - destruct (_ >=? _); lia.
Qed.

Lemma sub_loop xs : forall ys c, bytes xs -> bytes ys -> length xs = length ys -> 0 <= c <= 1 ->
  let r := carry_loop sub_step xs ys c in
  be r.1 - r.2 * 256 ^ Z.of_nat (length xs) = be xs - be ys - c /\
  bytes r.1 /\ length r.1 = length xs /\ 0 <= r.2 <= 1.
Proof.
  induction xs as [|x xs IH]; intros [|y ys] c Hx Hy Hl Hc; try done.
  { unfold be; simpl; split_and!; try done; lia. }
  apply Forall_cons_1 in Hx as [Bx Hx], Hy as [By Hy]. simpl in Hl.
  destruct (IH ys c Hx Hy ltac:(lia) Hc) as (E & B & L & C). cbn [carry_loop].
  destruct (carry_loop sub_step xs ys c) as [zs c']. simpl in *.
  unfold byte in *. rewrite !be_cons, L. replace (length ys) with (length xs) by lia.
  replace (Z.of_nat (S (length xs))) with (Z.of_nat (length xs) + 1) by lia.
  rewrite Z.pow_add_r by lia. split_and!.
  - assert (u8 (x - (y + c')) - (if x - y - c' <? 0 then 1 else 0) * 256 = x - y - c') as S.
    { unfold u8. change (2 ^ 8) with 256. destruct (x - y - c' <? 0) eqn:Eo.
      - replace (x - (y + c')) with (x - y - c' + 256 + (-1) * 256) by lia.
        rewrite Z.mod_add, Z.mod_small by lia. lia.
      - rewrite Z.mod_small by lia. lia. }
    nia.
  - constructor; [apply u8_byte|done].
  - by f_equal.
  - destruct (_ <? _); lia.
  - destruct (_ <? _); lia.
Qed.

Lemma be_zeros n : be (repeat 0 n) = 0.
Proof. induction n as [|n IH]; [done|]. cbn [repeat]. rewrite be_cons, IH. lia. Qed.

Lemma bytes_zeros n : bytes (repeat 0 n).
Proof. induction n; constructor; [done|done]. Qed.

(** * Prefixes of sixteen bytes *)

Lemma bytemask_land x r : byte x -> 0 <= r < 8 -> Z.land x (bytemask r) = x - x mod 2 ^ r.
Proof.
  intros Hx Hr. unfold bytemask, u8. rewrite <- Z.land_ones by lia.
  rewrite (Z.land_comm (Z.lnot _)), Z.land_assoc, Z.land_ones by lia.
  rewrite (Z.mod_small x) by (unfold byte in Hx; lia). apply land_lnot_ones. lia.
Qed.

Lemma be_split k l : (k <= length l)%nat ->
  be l = be (take k l) * 256 ^ Z.of_nat (length l - k) + be (drop k l).
Proof. intros H. rewrite <- (take_drop k l) at 1. by rewrite be_app, length_drop. Qed.

(** The leading bits of a list of bytes, from those of its head. *)
Lemma be_div l i r : bytes l -> (i <= length l)%nat -> 0 <= r ->
  be l / 2 ^ (8 * Z.of_nat i + r) = be (take (length l - i) l) / 2 ^ r.
Proof.
  intros B Hi Hr. rewrite (be_split (length l - i) l) by lia.
  replace (length l - (length l - i))%nat with i by lia.
  assert (bytes (drop (length l - i) l)) as Bd by (by apply Forall_drop).
  pose proof (be_bounds _ Bd) as Bt. rewrite length_drop in Bt.
  replace (length l - (length l - i))%nat with i in Bt by lia.
  rewrite Z.pow_add_r, <- Z.div_div by lia.
  replace (2 ^ (8 * Z.of_nat i)) with (256 ^ Z.of_nat i) by (rewrite Z.pow_mul_r by lia; done).
  rewrite Z.div_add_l by lia. by rewrite (Z.div_small (be (drop _ _))), Z.add_0_r by lia.
Qed.

Lemma div_snoc H x r : byte x -> 0 <= r < 8 ->
  (H * 256 + x) / 2 ^ r = H * 2 ^ (8 - r) + x / 2 ^ r.
Proof.
  intros Hx Hr. replace 256 with (2 ^ (8 - r) * 2 ^ r) by (rewrite <- Z.pow_add_r by lia;
    replace (8 - r + r) with 8 by lia; done).
  rewrite Z.mul_assoc, Z.div_add_l by lia. done.
Qed.

Lemma take_last k l (x : Z) : l !! k = Some x -> take (S k) l = (take k l ++ [x])%list.
Proof. intros H. by apply take_S_r. Qed.

End OwipcalcBytes.
