(* ===== verification/OwipcalcSpec.v ===== *)
(** What the operations of owipcalc compute, as arithmetic on 32-bit and 128-bit
    numbers. *)

From Stdlib Require Import ZArith Lia Ascii String.
From stdpp Require Import base list list_numbers numbers.
From S2P Require Import Prelude Owipcalc OwipcalcBytes.

Open Scope string_scope.
Open Scope Z_scope.

Module OwipcalcSpec.
Import Owipcalc OwipcalcBytes.

(** * Rules for the stack operations *)

(** [s'] is [s] with the result [n] on the stack, and nothing printed. *)
Definition pushed (s s' : state) (n : cidr) : Prop :=
  stack s' = n :: stack s /\ quiet s' = quiet s /\ printed s' = printed s /\ out s' = out s /\
  exit_code s' = exit_code s.

Definition no_oom (E : libc) : Prop := forall n, oom E n = false.

Section rules.
Context (E : libc) (Mem : no_oom E).
Implicit Types (s : state) (a b n : cidr).

Lemma twp_top s a l (Q : cidr -> state -> Prop) : stack s = a :: l -> Q a s -> twp top Q s.
Proof. intros Es H. unfold top. do 2 twp_step. eapply twp_lift; [by rewrite Es|done]. Qed.

Lemma twp_clone s a (Q : unit -> state -> Prop) :
  (forall s', pushed s s' a -> Q tt s') -> twp (cidr_clone E a) Q s.
Proof.
  intros H. unfold cidr_clone. apply twp_bind. eapply twp_intro; [reflexivity|].
  rewrite Mem. apply twp_modify, H. by repeat split.
Qed.

Lemma twp_mod_top s s0 n f (Q : unit -> state -> Prop) :
  pushed s0 s n -> (forall s', pushed s0 s' (f n) -> Q tt s') -> twp (mod_top f) Q s.
Proof.
  intros (Es & P) H. unfold mod_top. do 2 twp_step. rewrite Es. apply twp_modify, H.
  by repeat split; apply P.
Qed.

Lemma twp_one_shl s k (Q : Z -> state -> Prop) :
  0 <= k <= 30 -> Q (2 ^ k) s -> twp (one_shl k) Q s.
Proof. intros Hk H. unfold one_shl. by replace (_ && _) with true by lia. Qed.

Lemma twp_hostmask s p (Q : Z -> state -> Prop) :
  2 <= p <= 32 -> Q (2 ^ (32 - p) - 1) s -> twp (hostmask p) Q s.
Proof.
  intros Hp H. unfold hostmask, usub32. rewrite u32_small by lia.
  apply twp_bind, twp_one_shl; [lia|].
  assert (0 < 2 ^ (32 - p) <= 2 ^ 30) by (split; [lia|apply Z.pow_le_mono_r; lia]).
  apply twp_isub; [lia|done].
Qed.
End rules.

(** The operation returns [r] and pushes a result that satisfies [P]. *)
Lemma pushes_elim (m : M state bool) (s : state) (r : bool) (P : cidr -> Prop) :
  twp m (fun r' s' => r' = r /\ exists n, pushed s s' n /\ P n) s ->
  exists s' n, m s = Ok r s' /\ pushed s s' n /\ P n.
Proof. intros T. destruct (twp_elim _ _ _ T) as (r' & s' & E & -> & n & H). eauto. Qed.

Lemma not32_range m : 0 <= not32 m < 4294967296.
Proof. apply u32_range. Qed.

(** Runs an operation up to its next test. *)
Ltac owip_step :=
  cbv beta zeta;
  lazymatch goal with
  | |- twp (@mbind _ _ _ _ _ _) _ _ => apply twp_bind
  | |- twp (mret _) _ _ => apply twp_ret
  | |- twp top _ _ => eapply twp_top; [eassumption|]
  | |- twp (cidr_clone _ _) _ _ => apply twp_clone; [assumption|]; intros ? ?
  | |- twp (mod_top _) _ _ => eapply twp_mod_top; [eassumption|]; intros ? ?
  end.
Ltac owip := repeat owip_step.

(** * IPv4 *)

(** ['add'] and ['sub'] on IPv4 addresses: with [x] and [y] the numbers the
    addresses stand for, the result pushed stands for [x + y] ([x - y]) when
    that is a 32-bit number; otherwise the operation fails and pushes a copy. *)
Theorem owip_arith4 E s a l b :
  no_oom E -> stack s = a :: l -> ok_addr a -> ok_addr b -> fam a = AF_INET -> fam b = AF_INET ->
  (exists s' n, cidr_add4 E b s = Ok (value4 a + value4 b <? 2 ^ 32) s' /\ pushed s s' n /\
     prefix n = prefix a /\
     value4 n = if value4 a + value4 b <? 2 ^ 32 then value4 a + value4 b else value4 a) /\
  (exists s' n, cidr_sub4 E b s = Ok (value4 b <=? value4 a) s' /\ pushed s s' n /\
     prefix n = prefix a /\
     value4 n = if value4 b <=? value4 a then value4 a - value4 b else value4 a).
Proof.
  intros Mem Es Ha Hb Fa Fb. pose proof (value4_bounds a Ha). pose proof (value4_bounds b Hb).
  assert (both AF_INET a b = true) as Hboth by (unfold both; by rewrite Fa, Fb).
  split; apply (pushes_elim _ _ _ (fun n => prefix n = _ /\ value4 n = _)).
  - unfold cidr_add4. owip. rewrite !ntohl_s_addr, Hboth by done. cbn [negb].
    unfold u32. destruct (value4 a + value4 b <? 2 ^ 32) eqn:Ec.
    + rewrite Z.mod_small by lia. replace (_ <? value4 a) with false by lia. owip.
      split; [done|]. eexists. split_and!; [done..|]. apply value4_store. lia.
    + replace (value4 a + value4 b) with (value4 a + value4 b - 2 ^ 32 + 1 * 2 ^ 32) by lia.
      rewrite Z.mod_add, Z.mod_small by lia. replace (_ <? value4 a) with true by lia. owip.
      split; [done|]. by exists a.
  - unfold cidr_sub4. owip. rewrite !ntohl_s_addr, Hboth by done. cbn [negb].
    unfold u32. destruct (value4 b <=? value4 a) eqn:Ec.
    + rewrite Z.mod_small by lia. replace (_ >? value4 a) with false by lia. owip.
      split; [done|]. eexists. split_and!; [done..|]. apply value4_store. lia.
    + replace (value4 a - value4 b) with (value4 a - value4 b + 2 ^ 32 + (-1) * 2 ^ 32) by lia.
      rewrite Z.mod_add, Z.mod_small by lia. replace (_ >? value4 a) with true by lia. owip.
      split; [done|]. by exists a.
Qed.

(** ['network'], ['broadcast'] and ['netmask'] on an IPv4 address with a
    prefix of 2 to 32 bits give the first and the last address of its network
    and the mask of that length, each with prefix 32. *)
Theorem owip_network4 E s a l :
  no_oom E -> stack s = a :: l -> ok_addr a -> 2 <= prefix a <= 32 ->
  let h := 2 ^ (32 - prefix a) in
  (exists s' n, cidr_network4 E s = Ok true s' /\ pushed s s' n /\ prefix n = 32 /\
     value4 n = value4 a - value4 a mod h) /\
  (exists s' n, cidr_broadcast4 E s = Ok true s' /\ pushed s s' n /\ prefix n = 32 /\
     value4 n = value4 a - value4 a mod h + (h - 1)) /\
  (exists s' n, cidr_netmask4 E s = Ok true s' /\ pushed s s' n /\ prefix n = 32 /\
     value4 n = 2 ^ 32 - h).
Proof.
  intros Mem Es Ha Hp h. pose proof (value4_bounds a Ha).
  assert (0 < h <= 2 ^ 30) by (split; [unfold h; lia|apply Z.pow_le_mono_r; lia]).
  split_and!; apply (pushes_elim _ _ _ (fun n => prefix n = _ /\ value4 n = _)).
  - unfold cidr_network4. owip. apply twp_hostmask; [done|]. owip. split; [done|].
    eexists. split_and!; [done..|].
    rewrite value4_land by (done || apply not32_range). apply land_netmask; lia.
  - unfold cidr_broadcast4. owip. apply twp_hostmask; [done|]. owip. split; [done|].
    eexists. split_and!; [done..|]. fold h. rewrite u32_small by lia.
    rewrite value4_lor by (done || lia). apply lor_ones. lia.
  - unfold cidr_netmask4. owip. apply twp_hostmask; [done|]. owip. split; [done|].
    eexists. split_and!; [done..|].
    rewrite value4_store by apply not32_range. apply not32_ones. lia.
Qed.

(** The byte in which a prefix of [p] bits ends, and the value of its last bit
    there. *)
Definition last_byte (p : Z) : nat := Z.to_nat ((p - 1) / 8).
Definition last_bit (p : Z) : Z := 2 ^ (7 - (p - 1) mod 8).

Lemma htonl_step p : 2 <= p <= 32 ->
  htonl (2 ^ (32 - p)) = last_bit p * 256 ^ Z.of_nat (last_byte p) /\
  2 ^ (32 - p) = last_bit p * 256 ^ (3 - Z.of_nat (last_byte p)) /\ (last_byte p <= 3)%nat.
Proof.
  intros H. assert (forall k, (k <= 30)%nat -> let p := 32 - Z.of_nat k in
    htonl (2 ^ (32 - p)) = last_bit p * 256 ^ Z.of_nat (last_byte p) /\
    2 ^ (32 - p) = last_bit p * 256 ^ (3 - Z.of_nat (last_byte p)) /\ (last_byte p <= 3)%nat) as C.
  { intros k Hk. do 31 (destruct k as [|k]; [vm_compute; repeat split; lia|]). lia. }
  replace p with (32 - Z.of_nat (Z.to_nat (32 - p))) by lia. apply C. lia.
Qed.

(** Adding to one byte of the little-endian number, without carry. *)
Lemma le_step a p d : ok_addr a -> 2 <= p <= 32 ->
  byte (byte_at a (last_byte p) + d * last_bit p) ->
  htonl (u32 (s_addr a + d * htonl (2 ^ (32 - p)))) = value4 a + d * 2 ^ (32 - p).
Proof.
  intros Ha Hp Hb. destruct (htonl_step p Hp) as (-> & -> & Hi).
  destruct (first4 a Ha) as [B L]. unfold s_addr, le4, value4.
  set (u := last_bit p) in *. set (i := last_byte p) in *.
  assert (byte_at a i = nth i (take 4 (addr a)) 0) as Eb
    by (unfold byte_at; rewrite <- (take_drop 4 (addr a)) at 1; rewrite app_nth1 by lia; done).
  rewrite Eb in Hb.
  destruct (take 4 (addr a)) as [|b0 [|b1 [|b2 [|b3 [|]]]]]; try done. clear Eb L.
  repeat (apply Forall_cons_1 in B as [? B]).
  assert (forall c0 c1 c2 c3 : Z, byte c0 -> byte c1 -> byte c2 -> byte c3 ->
    htonl (u32 (be [c3; c2; c1; c0])) = be [c0; c1; c2; c3]) as R.
  { intros c0 c1 c2 c3 P0 P1 P2 P3.
    assert (bytes [c3; c2; c1; c0]) as Bc by (do 4 (apply list.Forall_cons; split; [done|]); apply Forall_nil_2).
    pose proof (be_bounds _ Bc) as P. simpl length in P. change (256 ^ Z.of_nat 4) with 4294967296 in P.
    rewrite u32_small by lia. unfold htonl. by rewrite bytes4_be. }
  destruct i as [|[|[|[|]]]]; [..|lia]; simpl nth in Hb;
    [ set (c := b0 + d * u) in *; pose proof (R c b1 b2 b3) as R'
    | set (c := b1 + d * u) in *; pose proof (R b0 c b2 b3) as R'
    | set (c := b2 + d * u) in *; pose proof (R b0 b1 c b3) as R'
    | set (c := b3 + d * u) in *; pose proof (R b0 b1 b2 c) as R' ];
    match type of R' with _ -> _ -> _ -> _ -> htonl (u32 ?x) = ?y =>
      match goal with |- htonl (u32 ?x') = ?y' =>
        replace x' with x by (unfold be, c; simpl; lia);
        replace y' with y by (unfold be, c; simpl; lia) end end; by apply R'.
Qed.

(** ['next'] and ['prev'] on IPv4 addresses give the next and the previous
    prefix of the given length as long as the byte in which that prefix ends
    does not overflow or underflow; the carry is not propagated in address
    order. *)
Theorem owip_next4 E s a l b :
  no_oom E -> stack s = a :: l -> ok_addr a -> 2 <= prefix b <= 32 ->
  let v := byte_at a (last_byte (prefix b)) in
  let u := last_bit (prefix b) in
  (exists s' n, cidr_next4 E b s = Ok true s' /\ pushed s s' n /\ ok_addr n /\
     prefix n = prefix b /\ (v + u < 256 -> value4 n = value4 a + 2 ^ (32 - prefix b))) /\
  (exists s' n, cidr_prev4 E b s = Ok true s' /\ pushed s s' n /\ ok_addr n /\
     prefix n = prefix b /\ (u <= v -> value4 n = value4 a - 2 ^ (32 - prefix b))).
Proof.
  intros Mem Es Ha Hp v u.
  assert (byte v) as Hv.
  { unfold v, byte_at. destruct Ha as [B L].
    apply (proj1 (List.Forall_forall _ _) B), nth_In. destruct (htonl_step _ Hp) as (_ & _ & ?). lia. }
  assert (0 < u) by (unfold u, last_bit; pose proof (Z.mod_pos_bound (prefix b - 1) 8); lia).
  split; apply (pushes_elim _ _ _ (fun n => ok_addr n /\ prefix n = _ /\ (_ -> value4 n = _))).
  - unfold cidr_next4. owip. unfold usub32. rewrite u32_small by lia. apply twp_one_shl; [lia|].
    owip. split; [done|]. eexists. split_and!; [done|by apply ok_set_s_addr|done|].
    intros Hc. rewrite value4_set.
    pose proof (le_step a (prefix b) 1 Ha Hp ltac:(fold v u; unfold byte in *; lia)) as R.
    rewrite !Z.mul_1_l in R. exact R.
  - unfold cidr_prev4. owip. unfold usub32. rewrite u32_small by lia. apply twp_one_shl; [lia|].
    owip. split; [done|]. eexists. split_and!; [done|by apply ok_set_s_addr|done|].
    intros Hc. rewrite value4_set.
    pose proof (le_step a (prefix b) (-1) Ha Hp ltac:(fold v u; unfold byte in *; lia)) as R.
    replace (value4 a - 2 ^ (32 - prefix b)) with (value4 a + -1 * 2 ^ (32 - prefix b)) by lia.
    rewrite <- R. do 2 f_equal.
Qed.

(** * Printing verdicts *)

(** [s'] is [s] after the text [t] was printed. *)
Definition said (s s' : state) (t : string) : Prop :=
  out s' = (if quiet s then out s else out s ++ (if printed s then " " else "") ++ t) /\
  printed s' = true /\ quiet s' = quiet s /\ stack s' = stack s /\ exit_code s' = exit_code s.

Lemma append_nil_r (t : string) : (t ++ "")%string = t.
Proof. induction t as [|c t IH]; simpl; [done|]. by rewrite IH. Qed.

Lemma append_assoc (t1 t2 t3 : string) : ((t1 ++ t2) ++ t3)%string = (t1 ++ t2 ++ t3)%string.
Proof. induction t1 as [|c t1 IH]; simpl; [done|]. by rewrite IH. Qed.

Lemma twp_say s (b : bool) (Q : bool -> state -> Prop) :
  (forall s', said s s' (if b then "1" else "0") -> Q b s') ->
  twp (separate;; verdict b) Q s.
Proof.
  intros H. destruct s as [st q p o m e]. destruct q, p; (eapply twp_intro; [reflexivity|]);
    apply H; repeat split; simpl; by rewrite ?append_assoc.
Qed.

Lemma said_elim (m : M state bool) (s : state) (b : bool) :
  twp m (fun r s' => r = b /\ said s s' (if b then "1" else "0")) s ->
  exists s', m s = Ok b s' /\ said s s' (if b then "1" else "0").
Proof. intros T. destruct (twp_elim _ _ _ T) as (r & s' & E & -> & H). eauto. Qed.

(** ['contains'] on IPv4 addresses, for a base prefix of 2 to 32 bits,
    prints 1 and succeeds exactly when the argument's prefix is at least as long
    and both addresses have the same network of the base's length; it prints 0
    and fails otherwise, and leaves the stack alone. *)
Theorem owip_contains4 s a l b :
  stack s = a :: l -> ok_addr a -> ok_addr b -> 2 <= prefix a <= 32 ->
  let h := 2 ^ (32 - prefix a) in
  let c := (prefix a <=? prefix b) && (value4 a / h =? value4 b / h) in
  exists s', cidr_contains4 b s = Ok c s' /\ said s s' (if c then "1" else "0").
Proof.
  intros Es Ha Hb Hp h c. pose proof (value4_bounds a Ha). pose proof (value4_bounds b Hb).
  assert (0 < h) by (unfold h; lia).
  apply said_elim. unfold cidr_contains4. owip_step. owip_step. owip_step.
  apply twp_hostmask; [done|]. cbv beta zeta.
  rewrite masked_eqb, !land_netmask, network_eqb by (done || lia || apply not32_range).
  rewrite Z.geb_leb. fold h. fold c. by apply twp_say.
Qed.

(** ['private'] and ['linklocal'] on IPv4 addresses answer by the address
    ranges 10/8, 172.16/12, 192.168/16 and 169.254/16. *)
Lemma ranges4 s a l :
  stack s = a :: l -> ok_addr a ->
  let net k := value4 a / 2 ^ (32 - k) in
  let p := (net 8 =? 10) || (net 12 =? 2753) || (net 16 =? 49320) in
  let ll := net 16 =? 43518 in
  (exists s', cidr_private4 s = Ok p s' /\ said s s' (if p then "1" else "0")) /\
  (exists s', cidr_linklocal4 s = Ok ll s' /\ said s s' (if ll then "1" else "0")).
Proof.
  intros Es Ha net p ll. pose proof (value4_bounds a Ha).
  assert (forall k q, 0 <= k <= 32 -> (net k =? q) =
    ((q * 2 ^ (32 - k) <=? value4 a) && (value4 a <=? q * 2 ^ (32 - k) + (2 ^ (32 - k) - 1)))) as R.
  { intros k q Hk. unfold net. assert (0 < 2 ^ (32 - k)) by lia.
    pose proof (Z.div_mod (value4 a) (2 ^ (32 - k)) ltac:(lia)).
    pose proof (Z.mod_pos_bound (value4 a) (2 ^ (32 - k)) ltac:(lia)).
    destruct (_ =? q) eqn:Eq; symmetry.
    - apply Z.eqb_eq in Eq. apply andb_true_iff. split; apply Z.leb_le; nia.
    - apply Z.eqb_neq in Eq. apply andb_false_iff. rewrite !Z.leb_gt. nia. }
  split; apply said_elim.
  - unfold cidr_private4. owip_step. owip_step. cbv beta. rewrite ntohl_s_addr by done.
    replace (private4 (value4 a)) with p by (unfold p, private4; rewrite !R by lia; done).
    by apply twp_say.
  - unfold cidr_linklocal4. owip_step. owip_step. cbv beta. rewrite ntohl_s_addr by done.
    replace (linklocal4 (value4 a)) with ll by (unfold ll, linklocal4; rewrite !R by lia; done).
    by apply twp_say.
Qed.

(** * IPv6 *)

Definition value6 (c : cidr) : Z := be (addr c).

Lemma value6_bounds c : ok_addr c -> 0 <= value6 c < 2 ^ 128.
Proof. intros [B L]. pose proof (be_bounds _ B) as P. by rewrite L in P. Qed.

(** ['add'] and ['sub'] on IPv6 addresses: the byte-wise loops compute the
    sum and the difference of the 128-bit numbers modulo [2 ^ 128], and fail
    exactly when the exact result is not a 128-bit number. *)
Theorem owip_arith6 E s a l b :
  no_oom E -> stack s = a :: l -> ok_addr a -> ok_addr b -> fam a = AF_INET6 -> fam b = AF_INET6 ->
  (exists s' n, cidr_add6 E b s = Ok (value6 a + value6 b <? 2 ^ 128) s' /\ pushed s s' n /\
     ok_addr n /\ prefix n = prefix a /\ value6 n = (value6 a + value6 b) mod 2 ^ 128) /\
  (exists s' n, cidr_sub6 E b s = Ok (value6 b <=? value6 a) s' /\ pushed s s' n /\
     ok_addr n /\ prefix n = prefix a /\ value6 n = (value6 a - value6 b) mod 2 ^ 128).
Proof.
  intros Mem Es Ha Hb Fa Fb. pose proof (value6_bounds a Ha). pose proof (value6_bounds b Hb).
  assert (both AF_INET6 a b = true) as Hboth by (unfold both; by rewrite Fa, Fb).
  destruct Ha as [Ba La], Hb as [Bb Lb].
  split; apply (pushes_elim _ _ _ (fun n => ok_addr n /\ prefix n = _ /\ value6 n = _)).
  - unfold cidr_add6. owip. rewrite Hboth. cbn [negb]. unfold add6.
    destruct (add_loop (addr a) (addr b) 0 Ba Bb ltac:(congruence) ltac:(lia)) as (E1 & B & L & C).
    destruct (carry_loop add_step (addr a) (addr b) 0) as [z c]. simpl in E1, B, L, C. rewrite La in E1, L.
    change (256 ^ Z.of_nat 16) with (2 ^ 128) in E1. fold (value6 a) (value6 b) in E1.
    pose proof (be_bounds z B) as Bz. rewrite L in Bz. change (256 ^ Z.of_nat 16) with (2 ^ 128) in Bz.
    owip. split; [|eexists; split_and!; [done|split; [exact B|exact L]|done|]].
    + destruct (c =? 0) eqn:Ec; lia.
    + change (be z = (value6 a + value6 b) mod 2 ^ 128).
      apply (Zmod_unique _ _ c); lia.
  - unfold cidr_sub6. owip. rewrite Hboth. cbn [negb]. unfold sub6.
    destruct (sub_loop (addr a) (addr b) 0 Ba Bb ltac:(congruence) ltac:(lia)) as (E1 & B & L & C).
    destruct (carry_loop sub_step (addr a) (addr b) 0) as [z c]. simpl in E1, B, L, C. rewrite La in E1, L.
    change (256 ^ Z.of_nat 16) with (2 ^ 128) in E1. fold (value6 a) (value6 b) in E1.
    pose proof (be_bounds z B) as Bz. rewrite L in Bz. change (256 ^ Z.of_nat 16) with (2 ^ 128) in Bz.
    owip. split; [|eexists; split_and!; [done|split; [exact B|exact L]|done|]].
    + destruct (c =? 0) eqn:Ec; lia.
    + change (be z = (value6 a - value6 b) mod 2 ^ 128).
      apply (Zmod_unique _ _ (- c)); lia.
Qed.

(** What the first loop of ['network'] leaves. *)
Lemma twp_zero_tail l s : length l = 16%nat -> forall i (Q : list Z -> state -> Prop),
  (i <= 16)%nat -> Q (take (16 - i) l ++ repeat 0 i)%list s -> twp (zero_tail i l) Q s.
Proof.
  intros L. induction i as [|i IH]; intros Q Hi H; cbn [zero_tail].
  - apply twp_ret. rewrite take_ge, app_nil_r in H by lia. done.
  - apply twp_bind, IH; [lia|]. unfold mod_byte.
    destruct (lookup_lt_is_Some_2 l (15 - i)) as [x Hx]; [lia|].
    rewrite length_app, length_take, repeat_length, L, Nat.min_l by lia.
    replace (16 - i + i)%nat with 16%nat by lia. change (Z.of_nat 16) with 16.
    replace ((0 <=? 15 - Z.of_nat i) && (15 - Z.of_nat i <? 16)) with true by lia.
    apply twp_ret. replace (Z.to_nat (15 - Z.of_nat i)) with (15 - i)%nat by lia.
    replace (16 - i)%nat with (S (15 - i)) by lia. rewrite (take_last _ _ _ Hx), <- app_assoc.
    replace (16 - S i)%nat with (15 - i)%nat in H by lia.
    assert (length (take (15 - i) l) = (15 - i)%nat) as Lt by (rewrite length_take, L; lia).
    rewrite alter_app_r_alt by lia. rewrite Lt, Nat.sub_diag. exact H.
Qed.

(** The bytes of the network address. *)
Definition net6 (p : Z) (l : list Z) : list Z :=
  let i := Z.to_nat ((128 - p) / 8) in
  let r := (128 - p) mod 8 in
  if r =? 0 then (take (16 - i) l ++ repeat 0 i)%list
  else (take (15 - i) l ++ Z.land (bytemask r) (nth (15 - i) l 0%Z) :: repeat 0 i)%list.

Lemma net6_spec p l : 0 <= p <= 128 -> bytes l -> length l = 16%nat ->
  bytes (net6 p l) /\ length (net6 p l) = 16%nat /\
  be (net6 p l) = be l - be l mod 2 ^ (128 - p).
Proof.
  intros Hp B L. unfold net6.
  set (i := Z.to_nat ((128 - p) / 8)). set (r := (128 - p) mod 8).
  pose proof (Z.div_mod (128 - p) 8 ltac:(lia)) as D.
  pose proof (Z.mod_pos_bound (128 - p) 8 ltac:(lia)) as Hr. fold r in D, Hr.
  assert (0 <= (128 - p) / 8 <= 16) by (split; [apply Z.div_pos; lia|apply Z.div_le_upper_bound; lia]).
  assert (128 - p = 8 * Z.of_nat i + r) as -> by lia.
  assert (i <= 16)%nat by lia.
  pose proof (be_div l i r B ltac:(lia) ltac:(lia)) as Q. rewrite L in Q.
  assert (be l - be l mod 2 ^ (8 * Z.of_nat i + r) =
          2 ^ (8 * Z.of_nat i + r) * (be l / 2 ^ (8 * Z.of_nat i + r))) as ->
    by (pose proof (Z.div_mod (be l) (2 ^ (8 * Z.of_nat i + r)) ltac:(lia)); lia).
  rewrite Q, Z.pow_add_r by lia.
  replace (2 ^ (8 * Z.of_nat i)) with (256 ^ Z.of_nat i) by (rewrite Z.pow_mul_r by lia; done).
  destruct (r =? 0) eqn:Er.
  - assert (r = 0) as -> by lia. split_and!.
    + apply bytes_app. split; [by apply Forall_take|apply bytes_zeros].
    + rewrite length_app, length_take, repeat_length. lia.
    + rewrite be_app, be_zeros, repeat_length, Z.pow_0_r, Z.div_1_r. lia.
  - assert (i < 16)%nat by lia.
    destruct (lookup_lt_is_Some_2 l (15 - i)) as [x Hx]; [lia|].
    assert (byte x) as Bx by (by eapply Forall_lookup_1 in Hx; [|exact B]).
    rewrite (nth_lookup_Some _ _ _ _ Hx), Z.land_comm, (bytemask_land x r) by done.
    replace (16 - i)%nat with (S (15 - i)) by lia. rewrite (take_last _ _ _ Hx), be_snoc.
    rewrite div_snoc by done.
    pose proof (Z.div_mod x (2 ^ r) ltac:(lia)) as Dx.
    pose proof (Z.mod_pos_bound x (2 ^ r) ltac:(lia)). unfold byte in Bx.
    split_and!.
    + apply bytes_app. split; [by apply Forall_take|].
      constructor; [|apply bytes_zeros]. split; [|lia].
      pose proof (Z.div_pos x (2 ^ r) ltac:(lia) ltac:(lia)). nia.
    + rewrite length_app. simpl. rewrite length_take, repeat_length. lia.
    + rewrite be_app, be_cons, be_zeros. cbn [length]. rewrite repeat_length.
      replace (Z.of_nat (S i)) with (Z.of_nat i + 1) by lia. rewrite Z.pow_add_r by lia.
      replace (256 ^ 1) with (2 ^ r * 2 ^ (8 - r))
        by (rewrite <- Z.pow_add_r by lia; replace (r + (8 - r)) with 8 by lia; done).
      nia.
Qed.

(** ['network'] on an IPv6 address clears exactly the bits behind the
    prefix, for every prefix length from 0 to 128. *)
Theorem owip_network6 E s a l :
  no_oom E -> stack s = a :: l -> ok_addr a -> 0 <= prefix a <= 128 ->
  exists s' n, cidr_network6 E s = Ok true s' /\ pushed s s' n /\ ok_addr n /\
    prefix n = prefix a /\ value6 n = value6 a - value6 a mod 2 ^ (128 - prefix a).
Proof.
  intros Mem Es [B L] Hp.
  apply (pushes_elim _ _ _ (fun n => ok_addr n /\ prefix n = _ /\ value6 n = _)).
  destruct (net6_spec (prefix a) (addr a) Hp B L) as (Bn & Ln & Vn).
  unfold cidr_network6. owip. unfold usub32. rewrite u32_small by lia.
  assert (0 <= (128 - prefix a) / 8 <= 16)
    by (split; [apply Z.div_pos; lia|apply Z.div_le_upper_bound; lia]).
  pose proof (Z.div_mod (128 - prefix a) 8 ltac:(lia)).
  pose proof (Z.mod_pos_bound (128 - prefix a) 8 ltac:(lia)).
  apply twp_zero_tail; [done|lia|]. apply twp_bind.
  eapply (twp_mono _ (fun z s' => z = net6 (prefix a) (addr a) /\ pushed s s' a)).
  - unfold net6 in *. destruct (_ =? 0) eqn:Er; [by apply twp_ret|].
    set (i := Z.to_nat ((128 - prefix a) / 8)) in *. assert (i < 16)%nat by lia.
    destruct (lookup_lt_is_Some_2 (addr a) (15 - i)) as [x Hx]; [lia|].
    unfold mod_byte. rewrite length_app, length_take, repeat_length, L, Nat.min_l by lia.
    replace (16 - i + i)%nat with 16%nat by lia. change (Z.of_nat 16) with 16.
    replace ((0 <=? 15 - (128 - prefix a) / 8) && (15 - (128 - prefix a) / 8 <? 16))
      with true by lia.
    apply twp_ret. split; [|done].
    replace (Z.to_nat (15 - (128 - prefix a) / 8)) with (15 - i)%nat by lia.
    replace (16 - i)%nat with (S (15 - i)) by lia. rewrite (take_last _ _ _ Hx), <- app_assoc.
    assert (length (take (15 - i) (addr a)) = (15 - i)%nat) as Lt by (rewrite length_take, L; lia).
    rewrite alter_app_r_alt by lia. rewrite Lt, Nat.sub_diag. simpl.
    by rewrite (nth_lookup_Some _ _ _ _ Hx).
  - intros z s1 [-> P1]. owip. split; [done|]. eexists.
    split_and!; [done|by split|done|exact Vn].
Qed.

Lemma lookup16 (l : list Z) k : length l = 16%nat -> 0 <= k < 16 ->
  exists x, l !! Z.to_nat k = Some x /\ zlookup l k = Some x.
Proof.
  intros L Hk. destruct (lookup_lt_is_Some_2 l (Z.to_nat k)) as [x Hx]; [lia|].
  exists x. split; [done|]. rewrite zlookup_some; [done|]. rewrite L. change (Z.of_nat 16) with 16. lia.
Qed.

(** Comparing the masked byte at the prefix's end and the bytes before it is
    comparing the leading bits. *)
Lemma leading_bits_eqb (la lb : list Z) p : 1 <= p <= 128 ->
  bytes la -> bytes lb -> length la = 16%nat -> length lb = 16%nat ->
  let i := (128 - p) / 8 in let r := (128 - p) mod 8 in
  forall x y, la !! Z.to_nat (15 - i) = Some x -> lb !! Z.to_nat (15 - i) = Some y ->
  (Z.land x (bytemask r) =? Z.land y (bytemask r))
    && bool_decide (take (Z.to_nat (15 - i)) la = take (Z.to_nat (15 - i)) lb) =
  (be la / 2 ^ (128 - p) =? be lb / 2 ^ (128 - p)).
Proof.
  intros Hp Ba Bb La Lb i r x y Hx Hy.
  pose proof (Z.div_mod (128 - p) 8 ltac:(lia)) as D.
  pose proof (Z.mod_pos_bound (128 - p) 8 ltac:(lia)) as Hr. fold i r in D, Hr.
  assert (0 <= i <= 15)
    by (split; [apply Z.div_pos; lia | apply Z.lt_succ_r, Z.div_lt_upper_bound; lia]).
  replace (128 - p) with (8 * Z.of_nat (Z.to_nat i) + r) by lia.
  rewrite !be_div by (done || lia). rewrite La, Lb.
  replace (16 - Z.to_nat i)%nat with (S (Z.to_nat (15 - i))) by lia.
  rewrite (take_last _ _ _ Hx), (take_last _ _ _ Hy), !be_snoc.
  assert (byte x) as Bx by (by eapply Forall_lookup_1 in Hx; [|exact Ba]).
  assert (byte y) as By by (by eapply Forall_lookup_1 in Hy; [|exact Bb]).
  rewrite !div_snoc, !bytemask_land, network_eqb by (done || lia).
  set (ta := take _ la). set (tb := take _ lb).
  assert (forall z, byte z -> 0 <= z / 2 ^ r < 2 ^ (8 - r)) as Hz.
  { intros z Bz. unfold byte in Bz. split; [apply Z.div_pos; lia|].
    apply Z.div_lt_upper_bound; [lia|]. rewrite <- Z.pow_add_r by lia.
    replace (r + (8 - r)) with 8 by lia. lia. }
  pose proof (Hz x Bx). pose proof (Hz y By).
  case_bool_decide as E.
  - rewrite E, andb_true_r. destruct (x / 2 ^ r =? y / 2 ^ r) eqn:Exy; lia.
  - rewrite andb_false_r. symmetry. apply Z.eqb_neq. intros Eq. apply E.
    apply be_inj; [by apply Forall_take|by apply Forall_take| |].
    + unfold ta, tb. rewrite !length_take. lia.
    + nia.
Qed.

(** ['contains'] on IPv6 addresses, for a base prefix of 1 to 128 bits,
    prints 1 and succeeds exactly when the argument's prefix is at least as long
    and both addresses have the same leading bits; it prints 0 and fails
    otherwise.  It leaves a copy of the base address on the stack. *)
Theorem owip_contains6 E s a l b :
  no_oom E -> stack s = a :: l -> ok_addr a -> ok_addr b -> 1 <= prefix a <= 128 ->
  let h := 2 ^ (128 - prefix a) in
  let c := (prefix a <=? prefix b) && (value6 a / h =? value6 b / h) in
  exists s1 s', cidr_contains6 E b s = Ok c s' /\ pushed s s1 a /\
    said s1 s' (if c then "1" else "0").
Proof.
  intros Mem Es [Ba La] [Bb Lb] Hp h c.
  cut (twp (cidr_contains6 E b) (fun r s' => r = c /\ exists s1, pushed s s1 a /\
    said s1 s' (if c then "1" else "0")) s).
  { intros T. destruct (twp_elim _ _ _ T) as (r & s' & E' & -> & s1 & H1 & H2). eauto. }
  unfold cidr_contains6. owip. unfold usub32. rewrite u32_small by lia.
  assert (0 <= (128 - prefix a) / 8 <= 15)
    by (split; [apply Z.div_pos; lia | apply Z.lt_succ_r, Z.div_lt_upper_bound; lia]).
  rewrite u8_small by lia.
  destruct (lookup16 (addr a) (15 - (128 - prefix a) / 8) La ltac:(lia)) as (x & Hx & Zx).
  destruct (lookup16 (addr b) (15 - (128 - prefix a) / 8) Lb ltac:(lia)) as (y & Hy & Zy).
  eapply twp_lift; [exact Zx|]. apply twp_bind. eapply twp_lift; [exact Zy|].
  assert (forall u v w t : bool, (v = true -> t = w) -> u && v && w = u && (v && t)) as R
    by (intros [] [] [] [] Hw; try done; by specialize (Hw eq_refl)).
  rewrite (R _ _ _ (bool_decide (take (Z.to_nat (15 - (128 - prefix a) / 8)) (addr a) =
                                 take (Z.to_nat (15 - (128 - prefix a) / 8)) (addr b)))).
  - rewrite (leading_bits_eqb (addr a) (addr b) (prefix a)) by done.
    rewrite Z.geb_leb. change (_ && _) with c. apply twp_say. eauto.
  - intros _. destruct (_ =? 15) eqn:E15; [|done].
    replace (15 - (128 - prefix a) / 8) with 0 by lia. by rewrite bool_decide_true.
Qed.

(** The step of ['next'] and ['prev'] on IPv6: one in the last byte of the prefix. *)
Definition byte_step (p : Z) : Z := 2 ^ (128 - 8 * ((p - 1) / 8 + 1)).

(** A run of the loop from byte [k - 1] up that leaves [z] and carry [c]. *)
Lemma shift_prefix6_run E s a l b step z c k :
  no_oom E -> stack s = a :: l -> ok_addr a -> 1 <= prefix b <= 128 ->
  k = S (Z.to_nat ((prefix b - 1) / 8)) ->
  carry_loop step (take k (addr a)) (repeat 0 k) 1 = (z, c) ->
  bytes z -> length z = k ->
  exists s' n, shift_prefix6 E step b s = Ok (c =? 0) s' /\ pushed s s' n /\ ok_addr n /\
    value6 n = be z * 256 ^ Z.of_nat (16 - k) + be (drop k (addr a)).
Proof.
  intros Mem Es [Ba La] Hp Ek Er Bz Lz.
  assert (0 <= (prefix b - 1) / 8 <= 15)
    by (split; [apply Z.div_pos; lia | apply Z.lt_succ_r, Z.div_lt_upper_bound; lia]).
  apply (pushes_elim _ _ _ (fun n => ok_addr n /\ value6 n = _)).
  unfold shift_prefix6, step_at, prefix_byte. owip. replace (prefix b =? 0) with false by lia.
  owip. rewrite u8_small by lia. rewrite La. change (Z.of_nat 16) with 16.
  replace ((prefix b - 1) / 8 <? 16) with true by lia. cbv zeta. rewrite <- Ek, Er. owip.
  cbn [fst snd].
  assert (forall p, ok_addr (mkCidr (fam a) p (z ++ drop k (addr a))%list) /\
    value6 (mkCidr (fam a) p (z ++ drop k (addr a))%list) =
    be z * 256 ^ Z.of_nat (16 - k) + be (drop k (addr a))) as N.
  { intros p. split; [split|].
    - apply bytes_app. split; [done|by apply Forall_drop].
    - cbn [addr]. rewrite length_app, length_drop, La, Lz. lia.
    - unfold value6. cbn [addr]. by rewrite be_app, length_drop, La. }
  destruct (c =? 0); cbn [negb]; owip; (split; [done|]); eexists; (split; [done|]); apply N.
Qed.

(** The address split behind the last byte a prefix reaches. *)
Lemma prefix_split6 a p : ok_addr a -> 1 <= p <= 128 -> exists k,
  k = S (Z.to_nat ((p - 1) / 8)) /\ byte_step p = 256 ^ Z.of_nat (16 - k) /\
  2 ^ 128 = 256 ^ Z.of_nat k * byte_step p /\
  value6 a = be (take k (addr a)) * byte_step p + be (drop k (addr a)) /\
  bytes (take k (addr a)) /\ length (take k (addr a)) = k /\
  0 <= be (drop k (addr a)) < byte_step p /\ 0 <= be (take k (addr a)) < 256 ^ Z.of_nat k.
Proof.
  intros [Ba La] Hp. pose proof (Z.div_mod (p - 1) 8 ltac:(lia)) as D.
  pose proof (Z.mod_pos_bound (p - 1) 8 ltac:(lia)) as Hr.
  set (q := (p - 1) / 8) in *. assert (0 <= q <= 15) by lia. set (k := S (Z.to_nat q)).
  assert (byte_step p = 256 ^ Z.of_nat (16 - k)) as Ed.
  { unfold byte_step. fold q. change 256 with (2 ^ 8). rewrite <- Z.pow_mul_r by lia. f_equal. lia. }
  assert (length (take k (addr a)) = k) as Lt by (rewrite length_take; lia).
  pose proof (be_bounds _ (Forall_drop _ k _ Ba)) as Vd. rewrite length_drop, La, <- Ed in Vd.
  pose proof (be_bounds _ (Forall_take _ k _ Ba)) as Vt. rewrite Lt in Vt.
  exists k. split_and!; [done|done| | |by apply Forall_take|done|lia..].
  - rewrite Ed, <- Z.pow_add_r by lia. change 256 with (2 ^ 8). rewrite <- Z.pow_mul_r by lia.
    f_equal. lia.
  - unfold value6. rewrite (be_split k) by lia. rewrite La. by rewrite Ed.
Qed.

Lemma byte_step_exact p : 1 <= p <= 128 -> byte_step p = 2 ^ (128 - p) <-> p mod 8 = 0.
Proof.
  intros Hp. unfold byte_step. pose proof (Z.div_mod (p - 1) 8 ltac:(lia)) as D.
  pose proof (Z.mod_pos_bound (p - 1) 8 ltac:(lia)) as Hr. set (q := (p - 1) / 8) in *. split.
  - intros Eq. apply Z.pow_inj_r in Eq; [|lia..].
    replace p with ((q + 1) * 8) by lia. apply Z_mod_mult.
  - intros Eq. pose proof (Z.div_mod p 8 ltac:(lia)). f_equal. lia.
Qed.

(** ['next'] and ['prev'] on IPv6 addresses move by one in the last byte
    that the prefix reaches, failing exactly at the ends of the address space;
    that is one prefix of the given size when its length is a multiple of
    eight, and a smaller step otherwise. *)
Theorem owip_next6 E s a l b :
  no_oom E -> stack s = a :: l -> ok_addr a -> 1 <= prefix b <= 128 ->
  let d := byte_step (prefix b) in
  (exists s' n, cidr_next6 E b s = Ok (value6 a + d <? 2 ^ 128) s' /\ pushed s s' n /\ ok_addr n /\
     value6 n = (value6 a + d) mod 2 ^ 128) /\
  (exists s' n, cidr_prev6 E b s = Ok (d <=? value6 a) s' /\ pushed s s' n /\ ok_addr n /\
     value6 n = (value6 a - d) mod 2 ^ 128) /\
  (d = 2 ^ (128 - prefix b) <-> prefix b mod 8 = 0).
Proof.
  intros Mem Es Ha Hp d. pose proof (value6_bounds a Ha) as Va.
  destruct (prefix_split6 a (prefix b) Ha Hp) as (k & Ek & Ed & E128 & Sa & Bt & Lt & Vd & Vt).
  fold d in Ed, E128, Sa, Vd. destruct Ha as [Ba La].
  split_and!.
  - destruct (add_loop (take k (addr a)) (repeat 0 k) 1 Bt (bytes_zeros k)
      ltac:(rewrite repeat_length; congruence) ltac:(lia)) as (E1 & B & L & C).
    destruct (carry_loop add_step _ _ 1) as [z c] eqn:Ez. cbv zeta in E1. cbn [fst snd] in E1, B, L, C.
    rewrite Lt, be_zeros in E1. rewrite Lt in L.
    pose proof (be_bounds _ B) as Vz. rewrite L in Vz.
    destruct (shift_prefix6_run E s a l b add_step z c k Mem Es (conj Ba La) Hp Ek Ez B L)
      as (s' & n & R & P & On & Vn). exists s', n. rewrite <- Ed in Vn.
    split_and!; [|done|done|].
    + unfold cidr_next6. rewrite R. f_equal. destruct (c =? 0) eqn:Ec; nia.
    + rewrite Vn. apply (Zmod_unique _ _ c); nia.
  - destruct (sub_loop (take k (addr a)) (repeat 0 k) 1 Bt (bytes_zeros k)
      ltac:(rewrite repeat_length; congruence) ltac:(lia)) as (E1 & B & L & C).
    destruct (carry_loop sub_step _ _ 1) as [z c] eqn:Ez. cbv zeta in E1. cbn [fst snd] in E1, B, L, C.
    rewrite Lt, be_zeros in E1. rewrite Lt in L.
    pose proof (be_bounds _ B) as Vz. rewrite L in Vz.
    destruct (shift_prefix6_run E s a l b sub_step z c k Mem Es (conj Ba La) Hp Ek Ez B L)
      as (s' & n & R & P & On & Vn). exists s', n. rewrite <- Ed in Vn.
    split_and!; [|done|done|].
    + unfold cidr_prev6. rewrite R. f_equal. destruct (c =? 0) eqn:Ec; nia.
    + rewrite Vn. apply (Zmod_unique _ _ (- c)); nia.
  - by apply byte_step_exact.
Qed.

End OwipcalcSpec.
