(* ===== verification/OwipcalcText.v ===== *)
(** The text form of addresses in owipcalc: what the print operations write is
    what the parsers read back, as far as the C library's own conversions of
    addresses do so. *)

From Stdlib Require Import ZArith Lia Ascii String.
From stdpp Require Import base list list_numbers numbers.
From S2P Require Import Prelude CString Owipcalc OwipcalcBytes OwipcalcSpec.

Open Scope string_scope.
Open Scope Z_scope.

Module OwipcalcText.
Import Owipcalc OwipcalcBytes OwipcalcSpec.

Section libc_dependent.
Context (E : libc).

(** [strtoul] with base 10 reads what ["%u"] prints. *)
Lemma strtoul_print_u n : 0 <= n < 2 ^ 32 -> 2 ^ 32 <= ulong_max E + 1 ->
  strtoul E 10 (print_u n) = Some (n, "").
Proof.
  intros Hn Hu. unfold strtoul, CString.strtoul, print_u.
  assert (n < 10 ^ Z.of_nat 20) by (change (10 ^ Z.of_nat 20) with 100000000000000000000; lia).
  destruct (digits_decimal 19 n "" ltac:(lia)) as [j Ed].
  destruct (decimal_head 19 n "" ltac:(lia)) as (d & t & Hd & Et). rewrite Et in Ed |- *.
  destruct (numeral_spec d Hd) as (_ & Hs & Hm & Hp & _).
  cbn [skip_space]. rewrite Hs. cbn [sign]. rewrite Hm, Hp. cbn [Z.eqb]. rewrite Ed.
  cbn [digits]. by replace (ulong_max E <? n) with false by lia.
Qed.

Lemma parse_prefix_print_u limit n : 0 <= n <= limit -> limit < 2 ^ 32 ->
  2 ^ 32 <= ulong_max E + 1 -> parse_prefix E limit (print_u n) = Some n.
Proof.
  intros Hn Hl Hu. unfold parse_prefix. rewrite strtoul_print_u by lia.
  rewrite u32_small by lia. by replace (n >? limit) with false by lia.
Qed.

(** * Slashes *)

Lemma split_at_app c t r : strchr c t = false -> split_at c (t ++ String c r) = Some (t, r).
Proof.
  induction t as [|d t IH]; simpl; intros H.
  - by rewrite Ascii.eqb_refl.
  - unfold strchr in H. simpl in H. apply orb_false_iff in H as [-> H].
    by rewrite (IH H).
Qed.

Lemma split_at_none c t : strchr c t = false -> split_at c t = None.
Proof.
  induction t as [|d t IH]; simpl; intros H; [done|].
  unfold strchr in H. simpl in H. apply orb_false_iff in H as [-> H]. by rewrite (IH H).
Qed.

Lemma address_nonempty pton len t p : t <> "" -> address pton len (t, p) = pton t.
Proof. by destruct t. Qed.

(** * Printing *)

(** The text printed for an address of [width] bits. *)
Definition shown (t : string) (p width : Z) : string :=
  t ++ (if p <? width then "/" ++ print_u p else "").

Lemma length_append t1 t2 : String.length (t1 ++ t2) = (String.length t1 + String.length t2)%nat.
Proof. induction t1; simpl; lia. Qed.

Lemma shown_length t p width : 0 <= p -> width <= 1000 ->
  (String.length (shown t p width) <= String.length t + 4)%nat.
Proof.
  intros Hp Hw. unfold shown. rewrite length_append.
  destruct (p <? width) eqn:Ec; [|simpl; lia]. cbn [append String.length].
  assert (String.length (print_u p) <= 3 + 0)%nat; [|lia].
  apply (decimal_length 20 p "") with (w := 2%nat); [change (10 ^ Z.of_nat 20) with 100000000000000000000|
    change (10 ^ Z.of_nat 3) with 1000]; lia.
Qed.

Lemma halves_shown t p width : strchr "/" t = false ->
  halves (shown t p width) = (t, if p <? width then Some (print_u p) else None).
Proof.
  intros H. unfold halves, shown. destruct (p <? width).
  - change ("/" ++ print_u p)%string with (String "/" (print_u p)). by rewrite split_at_app.
  - rewrite append_nil_r. by rewrite split_at_none.
Qed.

(** A print operation on the top [a] writes its text and drops it. *)
Lemma print_top_ok a l s t width : stack s = a :: l -> quiet s = false -> exists s',
  print_top (Some t) (prefix a) width s = Ok true s' /\ stack s' = l /\ printed s' = true /\
  out s' = out s ++ (if printed s then " " else "") ++ shown t (prefix a) width.
Proof.
  destruct s as [st q pr o m e]. simpl. intros -> ->. unfold print_top, shown.
  destruct pr, (prefix a <? width); eexists;
    (split; [reflexivity|]); simpl; by rewrite ?append_nil_r, ?append_assoc.
Qed.

End libc_dependent.

(** * Round trips *)

(** on an IPv4 address ['print'] writes its text and drops it from the stack,
    and [cidr_parse4] reads that text back as the same address and prefix,
    provided the C library's conversions of the address are inverse. *)
Theorem owip_text4 E s a l t :
  stack s = a :: l -> quiet s = false -> fam a = AF_INET -> ok_addr a -> 0 <= prefix a <= 32 ->
  ntop4 E (take 4 (addr a)) = Some t -> pton4 E t = Some (take 4 (addr a)) ->
  strchr "/" t = false -> t <> "" -> (String.length t <= 15)%nat -> 2 ^ 32 <= ulong_max E + 1 ->
  (exists s', cidr_print4 E s = Ok true s' /\ stack s' = l /\ printed s' = true /\
     out s' = out s ++ (if printed s then " " else "") ++ shown t (prefix a) 32) /\
  exists c, parse4 E (shown t (prefix a) 32) = Some c /\
    fam c = AF_INET /\ prefix c = prefix a /\ take 4 (addr c) = take 4 (addr a).
Proof.
  intros Es Q Fa Ha Hp Hn Ht Hs Ne Hl Hu. split.
  - unfold cidr_print4. unfold mbind, M_bind, gets. rewrite Es, bool_decide_true by done.
    rewrite Hn. by apply print_top_ok.
  - unfold parse4. pose proof (shown_length t (prefix a) 32 ltac:(lia) ltac:(lia)).
    replace (33 <=? _) with false by lia. rewrite halves_shown by done. cbn [snd].
    destruct (first4 a Ha) as [_ L].
    assert (prefix4 E (if prefix a <? 32 then Some (print_u (prefix a)) else None) = Some (prefix a)) as ->.
    { unfold prefix4. destruct (prefix a <? 32) eqn:Ec; [|f_equal; lia].
      unfold print_u at 1. rewrite decimal_dot. apply parse_prefix_print_u; lia. }
    rewrite address_nonempty, Ht by done. eexists. split_and!; [done..|].
    cbn [addr]. rewrite <- L at 1. by rewrite take_app_length.
Qed.

(** The same for IPv6 addresses: ['print'] writes the text and drops the
    address, and [cidr_parse6] reads the text back as the same address and
    prefix, provided the C library's conversions of the address are inverse. *)
Theorem owip_text6 E s a l t :
  stack s = a :: l -> quiet s = false -> fam a = AF_INET6 -> 0 <= prefix a <= 128 ->
  ntop6 E (addr a) = Some t -> pton6 E t = Some (addr a) ->
  strchr "/" t = false -> t <> "" -> (String.length t <= 45)%nat -> 2 ^ 32 <= ulong_max E + 1 ->
  (exists s', cidr_print6 E s = Ok true s' /\ stack s' = l /\ printed s' = true /\
     out s' = out s ++ (if printed s then " " else "") ++ shown t (prefix a) 128) /\
  parse6 E (shown t (prefix a) 128) = Some a.
Proof.
  intros Es Q Fa Hp Hn Ht Hs Ne Hl Hu. split.
  - unfold cidr_print6. unfold mbind, M_bind, gets. rewrite Es, bool_decide_true by done.
    rewrite Hn. by apply print_top_ok.
  - unfold parse6. pose proof (shown_length t (prefix a) 128 ltac:(lia) ltac:(lia)).
    replace (51 <=? _) with false by lia. rewrite halves_shown by done. cbn [snd].
    rewrite address_nonempty, Ht by done. destruct a as [f p bs]. simpl in *. subst f.
    destruct (p <? 128) eqn:Ec; [rewrite parse_prefix_print_u by lia; done|].
    by replace p with 128 by lia.
Qed.

End OwipcalcText.
