(* ===== verification/OwipcalcRun.v ===== *)
(** Whole runs of owipcalc: the operation loop ends, and the exit codes a run can
    have. *)

From Stdlib Require Import ZArith Lia Ascii String.
From stdpp Require Import base list list_numbers numbers sets.
From S2P Require Import Prelude Owipcalc OwipcalcBytes OwipcalcSpec.

Open Scope string_scope.
Open Scope Z_scope.

Module OwipcalcRun.
Import Owipcalc OwipcalcBytes OwipcalcSpec.

(** * How a call can end the program *)

Create HintDb exits.

(** A call that ends the program does so with a code in [C]. *)
Definition exits {A} (C : list Z) (m : M state A) : Prop :=
  forall s s', m s = Aborted s' -> exists c, exit_code s' = Some c /\ c ∈ C.

Section exits_rules.
Context (C : list Z).

Lemma exits_ret {A} (a : A) : exits C (mret a).
Proof. done. Qed.
Lemma exits_gets {A} (f : state -> A) : exits C (gets f).
Proof. done. Qed.
Lemma exits_get : exits C get.
Proof. done. Qed.
Lemma exits_modify f : exits C (modify f).
Proof. done. Qed.
Lemma exits_undef {A} : exits C (undef : M state A).
Proof. done. Qed.
Lemma exits_lift {A} (o : option A) : exits C (lift o).
Proof. by destruct o. Qed.
Lemma exits_isub x y : exits C (isub x y).
Proof. intros s s'. unfold isub. by destruct (in_s32 _). Qed.
Lemma exits_bind {A B} (m : M state A) (k : A -> M state B) :
  exits C m -> (forall a, exits C (k a)) -> exits C (m ≫= k).
Proof.
  intros Hm Hk s s'. unfold mbind, M_bind. destruct (m s) as [a s1|s1|] eqn:E; [|..]; intros H.
  - by apply (Hk a s1).
  - simplify_eq. by apply (Hm s).
  - done.
Qed.
Lemma exits_if {A} (b : bool) (m1 m2 : M state A) :
  exits C m1 -> exits C m2 -> exits C (if b then m1 else m2).
Proof. by destruct b. Qed.
Lemma exits_exit {A} c : c ∈ C -> exits C (exit c : M state A).
Proof.
  intros H s s' E. unfold exit, mbind, M_bind, modify, abort in E.
  injection E as <-. by exists c.
Qed.
End exits_rules.

#[export] Hint Resolve exits_ret exits_gets exits_get exits_modify exits_undef exits_lift
  exits_isub : exits.

(** Follows the structure of an operation. *)
Ltac exits_step :=
  cbv beta zeta;
  lazymatch goal with
  | |- forall _, _ => intros ?
  | |- exits _ (@mbind _ _ _ _ _ _) => apply exits_bind
  | |- exits _ (if ?b then _ else _) => first [apply exits_if | destruct b]
  | |- exits _ (match ?x with _ => _ end) => destruct x
  | |- _ => solve [auto with exits]
  end.
Ltac exits_solve := repeat exits_step.

Definition op_codes : list Z := [4; 255].

Section program.
Context (E : libc).

Lemma exits_malloc : exits op_codes (malloc_cidr E).
Proof. unfold malloc_cidr. exits_solve. Qed.
Lemma exits_clone a : exits op_codes (cidr_clone E a).
Proof.
  unfold cidr_clone. apply exits_bind; [apply exits_malloc|]. intros []; [apply exits_modify|].
  apply exits_exit. set_solver.
Qed.
Lemma exits_top : exits op_codes top.
Proof. unfold top. exits_solve. Qed.
Lemma exits_mod_top f : exits op_codes (mod_top f).
Proof. unfold mod_top. exits_solve. Qed.
Lemma exits_pop : exits op_codes cidr_pop.
Proof. unfold cidr_pop. exits_solve. Qed.
Lemma exits_qprintf t : exits op_codes (qprintf t).
Proof. apply exits_modify. Qed.
Lemma exits_separate : exits op_codes separate.
Proof. unfold separate, qprintf. exits_solve. Qed.
Lemma exits_verdict b : exits op_codes (verdict b).
Proof. unfold verdict, qprintf. exits_solve. Qed.
Lemma exits_shl k : exits op_codes (one_shl k).
Proof. unfold one_shl. exits_solve. Qed.
Lemma exits_hostmask p : exits op_codes (hostmask p).
Proof. unfold hostmask. apply exits_bind; [apply exits_shl|]. exits_solve. Qed.
Lemma exits_mod_byte k f l : exits op_codes (mod_byte k f l).
Proof. unfold mod_byte. exits_solve. Qed.
Lemma exits_zero_tail i l : exits op_codes (zero_tail i l).
Proof.
  induction i; simpl; [apply exits_ret|]. apply exits_bind; [done|]. intros. apply exits_mod_byte.
Qed.
Lemma exits_step_at step i l : exits op_codes (step_at step i l).
Proof. unfold step_at. exits_solve. Qed.
Lemma exits_parse4 t : exits op_codes (cidr_parse4 E t).
Proof. unfold cidr_parse4. apply exits_bind; [apply exits_malloc|]. exits_solve. Qed.
Lemma exits_parse6 t : exits op_codes (cidr_parse6 E t).
Proof. unfold cidr_parse6. apply exits_bind; [apply exits_malloc|]. exits_solve. Qed.
Lemma exits_print_top t p w : exits op_codes (print_top t p w).
Proof.
  unfold print_top. destruct t; [|apply exits_ret].
  apply exits_bind; [apply exits_separate|]. intros _. unfold qprintf.
  apply exits_bind; [apply exits_modify|]. intros _.
  apply exits_bind; [exits_solve|]. intros _. apply exits_bind; [apply exits_pop|]. exits_solve.
Qed.

Hint Resolve exits_clone exits_top exits_mod_top exits_pop exits_qprintf exits_separate
  exits_verdict exits_shl exits_hostmask exits_mod_byte exits_zero_tail exits_step_at
  exits_print_top : exits.

Lemma exits_parse n t f : exits op_codes (cidr_parse E n t f).
Proof.
  unfold cidr_parse.
  assert (exits op_codes (a ← (if strchr ":" t then cidr_parse6 E t else cidr_parse4 E t);
    match a with
    | None => mret None
    | Some a => if bool_decide (fam a = f) then mret (Some a) else exit 4
    end)) as H.
  { apply exits_bind; [apply exits_if; [apply exits_parse6|apply exits_parse4]|].
    intros [a|]; [|apply exits_ret]. apply exits_if; [apply exits_ret|]. apply exits_exit. set_solver. }
  destruct (strtoul E 0 t) as [[n' r]|]; [|done]. destruct r; [|done].
  apply exits_bind; [apply exits_malloc|]. exits_solve.
Qed.

(** Every function of the operation table. *)
Definition op_exits (o : op) : Prop :=
  match o with
  | Op1 _ f4 f6 => (forall f, f4 = Some f \/ f6 = Some f -> exits op_codes f)
  | Op2 _ f4 f6 => (forall f b, f4 = Some f \/ f6 = Some f -> exits op_codes (f b))
  end.

Lemma ops_exit : Forall op_exits (ops E).
Proof.
  unfold ops. repeat constructor; simpl; intros; destruct_or?; simplify_eq;
    unfold cidr_add4, cidr_add6, cidr_sub4, cidr_sub6, cidr_next4, cidr_next6, cidr_prev4,
      cidr_prev6, shift_prefix6, cidr_network4, cidr_network6, cidr_broadcast4, cidr_prefix,
      cidr_netmask4, cidr_6to4, cidr_howmany, cidr_contains4, cidr_contains6, cidr_private4,
      cidr_linklocal4, cidr_linklocal6, cidr_ula6, cidr_quiet, cidr_print4, cidr_print6;
    exits_solve.
Qed.

Lemma exits_runop arg status : exits op_codes (runop E arg status).
Proof.
  unfold runop. destruct arg as [|arg1 rest]; [apply exits_ret|].
  destruct (find _ (ops E)) as [o|] eqn:Ef; [|apply exits_ret].
  apply find_some in Ef as [Hin _]. apply list_elem_of_In in Hin.
  pose proof (proj1 (List.Forall_forall _ _) ops_exit o ltac:(by apply list_elem_of_In)) as Ho.
  destruct o as [n f4 f6|n f4 f6]; simpl in Ho.
  - apply exits_bind; [apply exits_top|]. intros a.
    destruct (pick (fam a) f4 f6) as [f|] eqn:Ep; [|apply exits_ret].
    apply exits_bind; [|intros; apply exits_ret]. apply Ho. destruct (fam a); simpl in Ep; auto.
  - destruct rest as [|arg2 rest]; [apply exits_ret|]. apply exits_bind; [apply exits_top|]. intros a.
    apply exits_bind; [apply exits_parse|]. intros [b|]; [|apply exits_ret].
    destruct (pick (fam a) f4 f6) as [f|] eqn:Ep; [|apply exits_ret].
    apply exits_bind; [|intros; apply exits_ret]. apply Ho. destruct (fam a); simpl in Ep; auto.
Qed.

Lemma exits_run fuel : forall arg status, exits op_codes (run_ops E fuel arg status).
Proof.
  induction fuel as [|fuel IH]; intros arg status; simpl; [apply exits_ret|].
  apply exits_bind; [apply exits_runop|]. intros [[go arg'] status'].
  apply exits_if; [apply IH|apply exits_ret].
Qed.

(** The print of the top at the end of [main]. *)
Lemma exits_print_final (b : bool) :
  exits op_codes (if b then a ← top;
    (match fam a with AF_INET => cidr_print4 E | AF_INET6 => cidr_print6 E end);; mret tt
    else mret tt).
Proof. unfold cidr_print4, cidr_print6. exits_solve. Qed.

(** * The loop *)

(** What one round returns. *)
Definition round_ok (arg : list string) (r : bool * list string * Z) (_ : state) : Prop :=
  let '(go, arg', status') := r in
  if go then (length arg' < length arg)%nat /\ (status' = 0 \/ status' = 1)
  else arg' = [] -> arg = [] \/ status' = 5.

Lemma round arg status s : wp (runop E arg status) (round_ok arg) s.
Proof.
  unfold runop. destruct arg as [|arg1 rest]; [by apply wp_ret; left|].
  destruct (find _ (ops E)) as [[n f4 f6|n f4 f6]|]; [| |by apply wp_ret].
  - apply wp_bind. apply wp_any. intros a s1. destruct (pick (fam a) f4 f6) as [f|]; [|by apply wp_ret; right].
    apply wp_bind. apply wp_any. intros [] s2; apply wp_ret; split; simpl; auto; lia.
  - destruct rest as [|arg2 rest]; [by apply wp_ret|].
    apply wp_bind. apply wp_any. intros a s1. apply wp_bind. apply wp_any. intros [b|] s2; [|by apply wp_ret].
    destruct (pick (fam a) f4 f6) as [f|]; [|by apply wp_ret; right].
    apply wp_bind. apply wp_any. intros [] s3; apply wp_ret; split; simpl; auto; lia.
Qed.

Lemma run_more fuel : forall extra arg status s, (length arg < fuel)%nat ->
  run_ops E (fuel + extra) arg status s = run_ops E fuel arg status s.
Proof.
  induction fuel as [|fuel IH]; intros extra arg status s Hf; [lia|]. simpl.
  unfold mbind, M_bind. destruct (runop E arg status s) as [[[go arg'] status'] s'|s'|] eqn:Er;
    [|done|done].
  pose proof (wp_elim _ _ _ _ _ (round arg status s) Er) as H. simpl in H.
  destruct go; [|done]. apply IH. lia.
Qed.

(** With more rounds than arguments the loop is over; what it leaves. *)
Lemma run_status fuel : forall arg status s, (length arg < fuel)%nat -> status = 0 \/ status = 1 ->
  wp (run_ops E fuel arg status)
    (fun r _ => exists arg' status', r = Some (arg', status') /\ (arg' = [] -> status' ∈ [0; 1; 5])) s.
Proof.
  induction fuel as [|fuel IH]; intros arg status s Hf Hs; simpl; [lia|].
  unfold wp, mbind, M_bind.
  destruct (runop E arg status s) as [[[go arg'] status'] s'|s'|] eqn:Er; [|done|done].
  pose proof (wp_elim _ _ _ _ _ (round arg status s) Er) as H. simpl in H.
  destruct go.
  - destruct H as [Hl H]. exact (IH arg' status' s' ltac:(lia) H).
  - simpl. exists arg', status'. split; [done|]. intros Ha. destruct (H Ha) as [->| ->]; [|set_solver].
    unfold runop in Er. vm_compute in Er. simplify_eq. set_solver.
Qed.

Lemma run_over fuel : forall arg status s, (length arg < fuel)%nat ->
  forall s', run_ops E fuel arg status s <> Ok None s'.
Proof.
  induction fuel as [|fuel IH]; intros arg status s Hf s'; [lia|]. simpl.
  unfold mbind, M_bind. destruct (runop E arg status s) as [[[go arg'] status'] s1|s1|] eqn:Er; [|done|done].
  pose proof (wp_elim _ _ _ _ _ (round arg status s) Er) as H. simpl in H.
  destruct go; [|done]. apply IH. lia.
Qed.

End program.

(** * How [main] ends *)

Definition run_codes : list Z := [0; 1; 4; 5; 6; 255].

(** Unless its behaviour is undefined, the run ends by [exit] with such a code. *)
Definition ends {A} (m : M state A) (s : state) : Prop :=
  match m s with
  | Ok _ _ => False
  | Aborted s' => exists c, exit_code s' = Some c /\ c ∈ run_codes
  | Undef => True
  end.

Lemma ends_bind {A B} (m : M state A) (k : A -> M state B) s :
  exits op_codes m -> wp m (fun a s' => ends (k a) s') s -> ends (m ≫= k) s.
Proof.
  intros He Hk. unfold ends, wp, mbind, M_bind in *. destruct (m s) as [a s1|s1|] eqn:Em; [done| |done].
  destruct (He _ _ Em) as (c & Ec & Hc). exists c. split; [done|].
  unfold op_codes, run_codes in *. set_solver.
Qed.

Lemma ends_exit {A} c s : c ∈ run_codes -> ends (exit c : M state A) s.
Proof. intros H. by exists c. Qed.

(** C40: every run of the program ends.  The operation loop is over after one round
    more than there are arguments ([run_ops] never gives [None], its out-of-rounds answer, and
    allowing more rounds changes nothing), and [main] never returns [Ok], which it would do for a
    loop that is not over: a run whose behaviour is defined
    ends by [exit], with 0 or 1 (the verdict of the last operation, or a usage
    error), 4 (address families differ), 5 (operation not supported), 6 (an argument
    left over) or 255 (out of memory).  The codes 2 and 3 that the operation loop
    sets for a missing or an invalid argument never leave the program: [main]
    exits with 6 first. *)
Theorem owip_exit_codes E argv s :
  (forall arg status extra s',
     run_ops E (S (length arg)) arg status s <> Ok None s' /\
     run_ops E (S (length arg) + extra) arg status s = run_ops E (S (length arg)) arg status s) /\
  match main E argv s with
  | Ok _ _ => False
  | Aborted s' => exists c, exit_code s' = Some c /\ c ∈ [0; 1; 4; 5; 6; 255]
  | Undef => True
  end.
Proof.
  split; [intros; split; [apply run_over; lia|apply run_more; lia]|].
  change (ends (main E argv) s). unfold main.
  destruct argv as [|base [|a1 arg]]; [apply ends_exit; set_solver..|].
  apply ends_bind; [apply exits_if; [apply exits_parse6|apply exits_parse4]|].
  apply wp_any. intros [a|] s1; [|apply ends_exit; set_solver].
  apply ends_bind; [apply exits_modify|]. apply wp_any. intros _ s2.
  apply ends_bind; [apply exits_run|]. eapply wp_mono; [apply run_status; [lia|by left]|].
  intros r s3 (arg' & status & -> & Hs). destruct arg' as [|x arg']; [|apply ends_exit; set_solver].
  apply ends_bind; [apply exits_gets|]. apply wp_any. intros p s4.
  apply ends_bind; [apply exits_print_final|]. apply wp_any. intros _ s5.
  apply ends_bind; [apply exits_qprintf|]. apply wp_any. intros _ s6.
  apply ends_exit. specialize (Hs eq_refl). unfold run_codes. set_solver.
Qed.

End OwipcalcRun.
