(* ===== verification/OwipcalcExamples.v ===== *)
(** Concrete runs of owipcalc: an instance of the C library's conversions, the
    theorems of the other files at concrete inputs, and the places where the
    program departs from its usage text or has undefined behaviour. *)

From Stdlib Require Import ZArith Lia Ascii String.
From stdpp Require Import base list list_numbers numbers sets.
From S2P Require Import Prelude Owipcalc OwipcalcBytes OwipcalcSpec OwipcalcText OwipcalcRun.

Open Scope string_scope.
Open Scope Z_scope.

Module OwipcalcExamples.
Import Owipcalc OwipcalcBytes OwipcalcSpec OwipcalcText OwipcalcRun.

(** * Address conversions *)

(** [t] split at every [c]. *)
Fixpoint split_all (fuel : nat) (c : ascii) (t : string) : list string :=
  match fuel with
  | O => [t]
  | S fuel => match split_at c t with
              | Some (a, r) => a :: split_all fuel c r
              | None => [t]
              end
  end.

(** A number of at most [width] digits, alone in its text, below [limit]. *)
Definition number (base limit : Z) (width : nat) (t : string) : option Z :=
  match digits base t 0 0 with
  | (n, k, "") => if (0 <? Z.of_nat k) && (Nat.leb k width) && (n <? limit) then Some n else None
  | _ => None
  end.

Definition dotted (t : string) : option (list Z) :=
  l ← mapM (number 10 256 3) (split_all 16 "." t);
  if Nat.eqb (length l) 4 then Some l else None.

Definition undotted (l : list Z) : option string :=
  match map print_u l with
  | [a; b; c; d] => Some (a ++ "." ++ b ++ "." ++ c ++ "." ++ d)%string
  | _ => None
  end.

Definition halfwords (t : string) : option (list Z) :=
  if String.eqb t "" then Some []
  else mapM (number 16 65536 4) (split_all 16 ":" t).

(** The text before and after the first ["::"]. *)
Fixpoint double_colon (t : string) : option (string * string) :=
  match t with
  | String a ((String b r) as t') =>
      if Ascii.eqb a ":" && Ascii.eqb b ":" then Some ("", r)
      else match double_colon t' with
           | Some (x, y) => Some (String a x, y)
           | None => None
           end
  | _ => None
  end.

Definition to_bytes (l : list Z) : list Z := concat (map (fun n => [n / 256; n mod 256]) l).

Definition colons (t : string) : option (list Z) :=
  match double_colon t with
  | Some (x, y) =>
      l ← halfwords x; r ← halfwords y;
      if Nat.leb (length l + length r) 7
      then Some (to_bytes (l ++ repeat 0 (8 - length l - length r) ++ r)%list) else None
  | None =>
      l ← halfwords t; if Nat.eqb (length l) 8 then Some (to_bytes l) else None
  end.

Definition hex_digit (n : Z) : string :=
  String (ascii_of_N (Z.to_N (if n <? 10 then 48 + n else 87 + n))) "".

Fixpoint halfword_texts (l : list Z) : list string :=
  match l with
  | a :: b :: l => (hex_digit (a / 16) ++ hex_digit (a mod 16) ++ hex_digit (b / 16)
                    ++ hex_digit (b mod 16))%string :: halfword_texts l
  | _ => []
  end.

(** Eight groups of four digits; the shortest form is not needed. *)
Definition uncolons (l : list Z) : option string :=
  if Nat.eqb (length l) 16 then Some (String.concat ":" (halfword_texts l)) else None.

Definition demo_libc : libc :=
  mkLibc dotted colons undotted uncolons (2 ^ 32 - 1) (fun _ => false) (repeat 0 16).

Lemma demo_mem : no_oom demo_libc.
Proof. done. Qed.

Definition ip4 (a b c d p : Z) : cidr := mkCidr AF_INET p ([a; b; c; d] ++ repeat 0 12)%list.
Definition ip6 (a b c d p : Z) : cidr := mkCidr AF_INET6 p ([a; b; c; d] ++ repeat 0 12)%list.

Definition on_stack (c : cidr) : state := init <| stack := [c] |>.

Lemma ok_addr_dec c : forallb (fun b => (0 <=? b) && (b <? 256)) (addr c) = true ->
  length (addr c) = 16%nat -> ok_addr c.
Proof.
  intros H L. split; [|done]. apply List.Forall_forall. intros b Hb.
  pose proof (proj1 (forallb_forall _ _) H b Hb) as P. cbv beta in P. unfold byte. lia.
Qed.

(** Closes the side conditions of the theorems at concrete addresses. *)
Ltac concrete :=
  first [ exact demo_mem | reflexivity | apply ok_addr_dec; reflexivity
        | (vm_compute; repeat split; discriminate) | (simpl; lia) | discriminate ].

(** The exit code and the output of a run. *)
Definition outcome (argv : list string) : option (option Z * string) :=
  match main demo_libc argv init with
  | Aborted s => Some (exit_code s, out s)
  | _ => None
  end.

Definition line (t : string) : string := t ++ String "010" "".

(** * The theorems at concrete inputs *)

Lemma owip_arith4_witness : exists s' n,
  cidr_add4 demo_libc (ip4 0 0 0 100 32) (on_stack (ip4 192 168 1 200 24)) = Ok true s' /\
  pushed (on_stack (ip4 192 168 1 200 24)) s' n /\ value4 n = value4 (ip4 192 168 2 44 24).
Proof.
  pose proof (owip_arith4 demo_libc (on_stack (ip4 192 168 1 200 24)) (ip4 192 168 1 200 24) []
    (ip4 0 0 0 100 32) ltac:(concrete) ltac:(concrete) ltac:(concrete) ltac:(concrete)
    ltac:(concrete) ltac:(concrete)) as [(s' & n & H1 & H2 & H3 & H4) _].
  exists s', n. split_and!; [exact H1|exact H2|exact H4].
Defined.

Lemma owip_network4_witness : exists s' n,
  cidr_network4 demo_libc (on_stack (ip4 192 168 1 200 20)) = Ok true s' /\
  pushed (on_stack (ip4 192 168 1 200 20)) s' n /\ value4 n = value4 (ip4 192 168 0 0 32).
Proof.
  pose proof (owip_network4 demo_libc (on_stack (ip4 192 168 1 200 20)) (ip4 192 168 1 200 20) []
    ltac:(concrete) ltac:(concrete) ltac:(concrete) ltac:(concrete))
    as [(s' & n & H1 & H2 & H3 & H4) _].
  exists s', n. split_and!; [exact H1|exact H2|exact H4].
Defined.

Lemma owip_contains4_witness : exists s',
  cidr_contains4 (ip4 10 1 255 0 24) (on_stack (ip4 10 1 2 3 16)) = Ok true s' /\
  said (on_stack (ip4 10 1 2 3 16)) s' "1".
Proof.
  exact (owip_contains4 (on_stack (ip4 10 1 2 3 16)) (ip4 10 1 2 3 16) [] (ip4 10 1 255 0 24)
    ltac:(concrete) ltac:(concrete) ltac:(concrete) ltac:(concrete)).
Defined.

Lemma owip_next4_witness : exists s' n,
  cidr_next4 demo_libc (ip4 0 0 0 0 20) (on_stack (ip4 192 168 16 0 20)) = Ok true s' /\
  pushed (on_stack (ip4 192 168 16 0 20)) s' n /\ value4 n = value4 (ip4 192 168 32 0 20).
Proof.
  pose proof (owip_next4 demo_libc (on_stack (ip4 192 168 16 0 20)) (ip4 192 168 16 0 20) []
    (ip4 0 0 0 0 20) ltac:(concrete) ltac:(concrete) ltac:(concrete) ltac:(concrete))
    as [(s' & n & H1 & H2 & H3 & H4 & H5) _].
  exists s', n. split_and!; [exact H1|exact H2|exact (H5 eq_refl)].
Defined.

Lemma owip_arith6_witness : exists s' n,
  cidr_add6 demo_libc (ip6 0 0 255 255 128) (on_stack (ip6 32 1 13 184 32)) = Ok true s' /\
  pushed (on_stack (ip6 32 1 13 184 32)) s' n /\ value6 n = value6 (ip6 32 2 13 183 32).
Proof.
  pose proof (owip_arith6 demo_libc (on_stack (ip6 32 1 13 184 32)) (ip6 32 1 13 184 32) []
    (ip6 0 0 255 255 128) ltac:(concrete) ltac:(concrete) ltac:(concrete) ltac:(concrete)
    ltac:(concrete) ltac:(concrete)) as [(s' & n & H1 & H2 & H3 & H4 & H5) _].
  exists s', n. split_and!; [exact H1|exact H2|exact H5].
Defined.

Lemma owip_contains6_witness : exists s1 s',
  cidr_contains6 demo_libc (ip6 32 1 13 200 32) (on_stack (ip6 32 1 13 184 21)) = Ok true s' /\
  pushed (on_stack (ip6 32 1 13 184 21)) s1 (ip6 32 1 13 184 21) /\ said s1 s' "1".
Proof.
  exact (owip_contains6 demo_libc (on_stack (ip6 32 1 13 184 21)) (ip6 32 1 13 184 21) []
    (ip6 32 1 13 200 32) ltac:(concrete) ltac:(concrete) ltac:(concrete) ltac:(concrete)
    ltac:(concrete)).
Defined.

Lemma owip_next6_witness : exists s' n,
  cidr_next6 demo_libc (ip6 0 0 0 0 32) (on_stack (ip6 32 1 13 255 32)) = Ok true s' /\
  pushed (on_stack (ip6 32 1 13 255 32)) s' n /\ value6 n = value6 (ip6 32 1 14 0 32).
Proof.
  pose proof (owip_next6 demo_libc (on_stack (ip6 32 1 13 255 32)) (ip6 32 1 13 255 32) []
    (ip6 0 0 0 0 32) ltac:(concrete) ltac:(concrete) ltac:(concrete) ltac:(concrete))
    as [(s' & n & H1 & H2 & H3 & H4) _].
  exists s', n. split_and!; [exact H1|exact H2|exact H4].
Defined.

Lemma owip_network6_witness : exists s' n,
  cidr_network6 demo_libc (on_stack (ip6 32 1 13 184 21)) = Ok true s' /\
  pushed (on_stack (ip6 32 1 13 184 21)) s' n /\ value6 n = value6 (ip6 32 1 8 0 21).
Proof.
  pose proof (owip_network6 demo_libc (on_stack (ip6 32 1 13 184 21)) (ip6 32 1 13 184 21) []
    ltac:(concrete) ltac:(concrete) ltac:(concrete) ltac:(concrete))
    as (s' & n & H1 & H2 & H3 & H4 & H5).
  exists s', n. split_and!; [exact H1|exact H2|exact H5].
Defined.

Lemma owip_text4_witness : exists s',
  cidr_print4 demo_libc (on_stack (ip4 192 168 1 200 24)) = Ok true s' /\
  out s' = "192.168.1.200/24".
Proof.
  pose proof (owip_text4 demo_libc (on_stack (ip4 192 168 1 200 24)) (ip4 192 168 1 200 24) []
    "192.168.1.200" ltac:(concrete) ltac:(concrete) ltac:(concrete) ltac:(concrete)
    ltac:(concrete) ltac:(concrete) ltac:(concrete) ltac:(concrete) ltac:(concrete)
    ltac:(concrete) ltac:(concrete)) as [(s' & H1 & _ & _ & H2) _].
  exists s'. split; [exact H1|exact H2].
Defined.

Lemma owip_text6_witness :
  parse6 demo_libc (shown "2001:0db8:0000:0000:0000:0000:0000:0000" 32 128) =
    Some (ip6 32 1 13 184 32).
Proof.
  exact (proj2 (owip_text6 demo_libc (on_stack (ip6 32 1 13 184 32)) (ip6 32 1 13 184 32) []
    "2001:0db8:0000:0000:0000:0000:0000:0000" ltac:(concrete) ltac:(concrete) ltac:(concrete)
    ltac:(concrete) ltac:(concrete) ltac:(concrete) ltac:(concrete) ltac:(concrete)
    ltac:(concrete) ltac:(concrete))).
Defined.

(** Runs that end with 0, 1 (a verdict, a usage error), 4, 5 and 6 (an unknown operation, an
    argument missing); the operation that is not known stays for [main] to report. *)
Lemma owip_exit_codes_witness :
  map (fun argv => fst <$> outcome argv)
    [["10.0.0.1"; "print"]; ["10.0.0.0/8"; "contains"; "11.0.0.1"]; ["10.0.0.1"];
     ["10.0.0.1"; "add"; "::1"]; ["::1"; "broadcast"]; ["10.0.0.1"; "fly"]; ["10.0.0.1"; "add"]]
  = map (fun c => Some (Some c)) [0; 1; 1; 4; 5; 6; 6] /\
  (forall s', run_ops demo_libc 2 ["fly"] 0 (on_stack (ip4 10 0 0 1 32)) <> Ok None s').
Proof.
  split; [vm_compute; reflexivity|]. intros s'.
  exact (proj1 (proj1 (owip_exit_codes demo_libc ["10.0.0.1"; "fly"] (on_stack (ip4 10 0 0 1 32)))
    ["fly"] 0 0%nat s')).
Defined.

(** * Departures from the usage text *)

(** where runs depart from what the usage text promises.  Its first example, a
    DHCP range, prints 192.168.1.150 second and not 192.168.1.250, since ['print']
    drops the sum it has printed (the second example is right).  ['next'] and
    ['prev'] add to the address as stored, in network byte order, so a carry goes
    to the following byte: after 192.168.255.0/24 comes 192.168.0.1/24.  A run that
    only pops the base address reads the top of an empty stack. *)
Theorem owip_departures :
  outcome ["192.168.1.1/255.255.255.0"; "network"; "add"; "100"; "print"; "add"; "150"; "print"]
    = Some (Some 0, line "192.168.1.100 192.168.1.150") /\
  outcome ["2001:0DB8:FDEF::/48"; "howmany"; "::/64"] = Some (Some 0, line "65536") /\
  outcome ["192.168.255.0/24"; "next"; "24"] = Some (Some 0, line "192.168.0.1/24") /\
  outcome ["192.168.0.0/24"; "prev"; "24"] = Some (Some 0, line "192.168.255.255/24") /\
  main demo_libc ["10.0.0.1"; "pop"] init = Undef.
Proof. vm_compute. done. Qed.

Lemma land_255 x : Z.land x 255 = u8 x.
Proof. change 255 with (Z.ones 8). by rewrite Z.land_ones. Qed.

(** ['6to4'] reads the address without converting it from network byte
    order: on a little-endian host the prefix it makes has the bytes of the IPv4
    address in reverse. *)
Theorem owip_6to4_reversed E s a l :
  no_oom E -> stack s = a :: l -> ok_addr a ->
  exists s', cidr_6to4 E s = Ok true s' /\
    pushed s s' (mkCidr AF_INET6 48 ([32; 2] ++ rev (take 4 (addr a)) ++ repeat 0 10)%list).
Proof.
  intros Mem Es Ha. destruct (first4 a Ha) as [B L].
  assert (bytes4 (s_addr a) = rev (take 4 (addr a))) as R.
  { unfold s_addr, le4. apply bytes4_be; [by apply bytes_rev|by rewrite length_rev]. }
  cut (twp (cidr_6to4 E) (fun r s' => r = true /\
    pushed s s' (mkCidr AF_INET6 48 ([32; 2] ++ rev (take 4 (addr a)) ++ repeat 0 10)%list)) s).
  { intros T. destruct (twp_elim _ _ _ T) as (r & s' & H & -> & P). eauto. }
  unfold cidr_6to4. owip. split; [done|]. rewrite <- R. unfold bytes4.
  rewrite !land_255 in H0. exact H0.
Qed.

Lemma owip_6to4_reversed_witness : exists s',
  cidr_6to4 demo_libc (on_stack (ip4 192 0 2 1 32)) = Ok true s' /\
  pushed (on_stack (ip4 192 0 2 1 32)) s'
    (mkCidr AF_INET6 48 ([32; 2; 1; 2; 0; 192] ++ repeat 0 10)%list).
Proof.
  exact (owip_6to4_reversed demo_libc (on_stack (ip4 192 0 2 1 32)) (ip4 192 0 2 1 32) []
    ltac:(concrete) ltac:(concrete) ltac:(concrete)).
Defined.

(** * Undefined behaviour *)

Lemma hostmask_undef p s : 0 <= p <= 1 -> hostmask p s = Undef.
Proof.
  intros H. unfold hostmask, usub32. rewrite u32_small by lia. unfold one_shl.
  by replace ((0 <=? 32 - p) && (32 - p <=? 30)) with false by lia.
Qed.

Lemma clone_ok E a s : no_oom E -> exists s', cidr_clone E a s = Ok tt s' /\ stack s' = a :: stack s.
Proof.
  intros Mem. destruct (twp_elim _ _ _ (twp_clone E Mem s a (fun _ s' => stack s' = a :: stack s)
    ltac:(by intros s' [? _]))) as ([] & s' & H). eauto.
Qed.

(** A call after the copy of the top was pushed. *)
Lemma after_clone_undef {A} E s a l (k : cidr -> unit -> M state A) :
  no_oom E -> stack s = a :: l -> (forall s', stack s' = a :: a :: l -> k a tt s' = Undef) ->
  (a ← top; x ← cidr_clone E a; k a x) s = Undef.
Proof.
  intros Mem Es H. eapply bind_ok; [unfold top; eapply bind_ok; [reflexivity|]; by rewrite Es|].
  destruct (clone_ok E a s Mem) as (s' & Ec & Est). eapply bind_ok; [exact Ec|].
  apply H. by rewrite Est, Es.
Qed.

(** the prefix lengths for which the shifts of the code leave the range of
    [int], or its array index the address, so that its behaviour is undefined:
    ['network'], ['broadcast'], ['netmask'] and ['contains'] on IPv4 addresses
    with a prefix of 0 or 1; ['contains'] on IPv6 addresses with prefix 0;
    ['howmany'] for prefixes that are 31 bits longer or more. *)
Theorem owip_undefined_prefixes E s a l b :
  no_oom E -> stack s = a :: l -> length (addr a) = 16%nat ->
  (0 <= prefix a <= 1 -> cidr_network4 E s = Undef /\ cidr_broadcast4 E s = Undef /\
     cidr_netmask4 E s = Undef /\ cidr_contains4 b s = Undef) /\
  (prefix a = 0 -> cidr_contains6 E b s = Undef) /\
  (prefix a + 31 <= prefix b -> cidr_howmany b s = Undef).
Proof.
  intros Mem Es L. split_and!.
  - intros Hp. split_and!; [apply (after_clone_undef E s a l); [done..|]; intros s' _;
      unfold mbind at 1, M_bind at 1; by rewrite hostmask_undef..|].
    unfold cidr_contains4. eapply bind_ok; [unfold top; eapply bind_ok; [reflexivity|]; by rewrite Es|].
    unfold mbind at 1, M_bind at 1. by rewrite hostmask_undef.
  - intros Hp. apply (after_clone_undef E s a l); [done..|]. intros s' _. by rewrite Hp.
  - intros Hp. unfold cidr_howmany.
    eapply bind_ok; [unfold top; eapply bind_ok; [reflexivity|]; by rewrite Es|].
    unfold mbind at 1, M_bind at 1. destruct (separate s) as [[] s1| |] eqn:Ese; [|..]; [| |done].
    + replace (prefix b <? prefix a) with false by lia. unfold one_shl.
      by replace ((0 <=? prefix b - prefix a) && (prefix b - prefix a <=? 30)) with false by lia.
    + exfalso. revert Ese. unfold separate. destruct s as [? [] [] ? ? ?]; done.
Qed.

Lemma owip_undefined_prefixes_witness :
  cidr_contains6 demo_libc (ip6 32 1 13 184 32) (on_stack (ip6 0 0 0 0 0)) = Undef.
Proof.
  exact (proj1 (proj2 (owip_undefined_prefixes demo_libc (on_stack (ip6 0 0 0 0 0)) (ip6 0 0 0 0 0) []
    (ip6 32 1 13 184 32) ltac:(concrete) ltac:(concrete) ltac:(concrete))) eq_refl).
Defined.

End OwipcalcExamples.
