(* ===== verification/Stdio.v ===== *)
(** The part of the C library the firmware tools use: streams on regular files,
    [malloc] as it can fail, [getopt], [strtol] and [atoi], and the byte order of
    structures on disk.

    A file is the list of its bytes, a stream a path with a position; writes reach the
    file at once.  Which writes and allocations fail is part of the state. *)

From Stdlib Require Import ZArith Lia Ascii String.
From stdpp Require Import base list list_numbers numbers strings gmap.
From S2P Require Import Prelude CString.

Open Scope list_scope.
Open Scope Z_scope.

Module Stdio.

(** * Files *)

(** [locked] cannot be opened.  [faults] are the outcomes of the next writes and
    allocations: [Some k] lets a write stop after [k] bytes and an allocation fail; beyond
    the list everything succeeds. *)
Record fs := mkFs {
  files : gmap string (list Z);
  locked : gset string;
  faults : list (option Z)
}.
#[export] Instance eta_fs : Eta fs := fun s => mkFs (files s) (locked s) (faults s).

Record FILE := mkFILE { path : string; pos : Z }.

Definition content (s : fs) (p : string) : list Z := default [] (files s !! p).

Definition fopen_r (p : string) : M fs (option FILE) :=
  s ← get;
  if bool_decide (p ∈ locked s) then mret None
  else match files s !! p with
       | Some _ => mret (Some (mkFILE p 0))
       | None => mret None
       end.

(** Modes "w" and "w+" truncate the file or create it. *)
Definition fopen_w (p : string) : M fs (option FILE) :=
  s ← get;
  if bool_decide (p ∈ locked s) then mret None
  else modify (fun s => s <| files ::= <[p := []]> |>);; mret (Some (mkFILE p 0)).

(** [fseek(f, off, SEEK_SET)] for a [long]; a negative offset is refused. *)
Definition fseek (f : FILE) (off : Z) : FILE := if off <? 0 then f else mkFILE (path f) off.

Definition fread (f : FILE) (n : Z) : M fs (list Z * FILE) :=
  s ← get;
  let rest := drop (Z.to_nat (pos f)) (content s (path f)) in
  let bs := take (Z.to_nat (Z.min n (Z.of_nat (length rest)))) rest in
  mret (bs, mkFILE (path f) (pos f + Z.of_nat (length bs))).

(** What a write at [p] makes of a file: a gap before it reads as zeros. *)
Definition write_at (c : list Z) (p : Z) (bs : list Z) : list Z :=
  take (Z.to_nat p) (c ++ repeat 0 (Z.to_nat p)) ++ bs ++ drop (Z.to_nat p + length bs) c.

Definition next_fault : M fs (option Z) :=
  s ← get;
  match faults s with
  | [] => mret None
  | x :: l => modify (fun s => s <| faults := l |>);; mret x
  end.

(** [fwrite(bs, 1, n, f)]: the number of bytes written. *)
Definition fwrite (f : FILE) (bs : list Z) : M fs (Z * FILE) :=
  match bs with
  | [] => mret (0, f)
  | _ =>
      x ← next_fault;
      let bs := match x with None => bs | Some k => take (Z.to_nat (Z.min k (Z.of_nat (length bs) - 1))) bs end in
      modify (fun s => s <| files ::= <[path f := write_at (content s (path f)) (pos f) bs]> |>);;
      mret (Z.of_nat (length bs), mkFILE (path f) (pos f + Z.of_nat (length bs)))
  end.

(** Whether [malloc] returns a block. *)
Definition malloc : M fs bool := x ← next_fault; mret (match x with None => true | Some _ => false end).

(** * Arguments *)

(** [getopt] on the arguments from [optind] on, the options of [optstring] all taking an
    argument, as POSIX has it: the options it returns with [optarg], ['?'] for an option that
    is not known or lacks its argument.  It stops at the first other argument. *)
Inductive opt := Opt (c : ascii) (optarg : string) | Bad.

Fixpoint cluster (optstring : list ascii) (s : string) : list opt * option ascii :=
  match s with
  | EmptyString => ([], None)
  | String c t =>
      if bool_decide (c ∈ optstring) then
        match t with EmptyString => ([], Some c) | _ => ([Opt c t], None) end
      else let '(l, r) := cluster optstring t in (Bad :: l, r)
  end.

Fixpoint getopt (optstring : list ascii) (args : list string) : list opt :=
  match args with
  | [] => []
  | a :: rest =>
      match a with
      | String c (String d t) =>
          if negb (Ascii.eqb c "-") || (Ascii.eqb d "-" && bool_decide (t = EmptyString)) then []
          else
            let '(l, r) := cluster optstring (String d t) in
            match r with
            | None => l ++ getopt optstring rest
            | Some c => match rest with
                        | [] => l ++ [Bad]
                        | x :: rest => l ++ Opt c x :: getopt optstring rest
                        end
            end
      | _ => []
      end
  end.

(** [strtol(s, NULL, base)] where [long] has [w] bits. *)
Definition strtol (w base : Z) (s : string) : Z :=
  let '(neg, t) := CString.sign (CString.skip_space s) in
  let '(base, t) := if base =? 0 then CString.auto_base t else (base, t) in
  let '(n, _, _) := CString.digits base t 0 0 in
  if neg then Z.max (- n) (- 2 ^ (w - 1)) else Z.min n (2 ^ (w - 1) - 1).

Definition atoi (w : Z) (s : string) : Z := s32 (strtol w 10 s).

(** * Integers in memory *)

Fixpoint le (n : nat) (x : Z) : list Z :=
  match n with O => [] | S n => x mod 256 :: le n (x / 256) end.
Fixpoint unle (l : list Z) : Z := match l with [] => 0 | b :: l => b + 256 * unle l end.

(** An unsigned integer of [n] bytes in the byte order of the machine. *)
Definition native (big : bool) (n : nat) (x : Z) : list Z := if big then reverse (le n x) else le n x.
Definition unnative (big : bool) (l : list Z) : Z := if big then unle (reverse l) else unle l.

Definition bswap (n : nat) (x : Z) : Z := unle (reverse (le n x)).


(** * Lemmas *)

Lemma length_le n : forall x, length (le n x) = n.
Proof. induction n as [|n IH]; intros x; simpl; [done|]. by rewrite IH. Qed.

Lemma unle_le n : forall x, 0 <= x < 256 ^ Z.of_nat n -> unle (le n x) = x.
Proof.
  induction n as [|n IH]; intros x Hx; [simpl in *; lia|].
  rewrite Nat2Z.inj_succ, Z.pow_succ_r in Hx by lia. simpl. rewrite IH; dlia.
Qed.

Lemma le_bytes n : forall x, Forall (fun b => 0 <= b < 256) (le n x).
Proof. induction n as [|n IH]; intros x; simpl; constructor; [dlia | apply IH]. Qed.

Lemma length_native big n x : length (native big n x) = n.
Proof. destruct big; simpl; rewrite ?length_reverse; apply length_le. Qed.

Lemma unnative_native big n x : 0 <= x < 256 ^ Z.of_nat n -> unnative big (native big n x) = x.
Proof. intros H. destruct big; simpl; rewrite ?reverse_involutive; by apply unle_le. Qed.

Lemma le_unle (l : list Z) : Forall (fun b => 0 <= b < 256) l -> le (length l) (unle l) = l.
Proof.
  induction 1 as [|b l Hb _ IH]; [done|]. simpl. f_equal; [dlia|].
  replace ((b + 256 * unle l) / 256) with (unle l) by dlia. done.
Qed.

(** A number whose bytes were swapped on a little-endian machine is stored with the most
    significant byte first, as on a big-endian one. *)
Lemma native_be (big : bool) (n : nat) (x : Z) :
  native big n (if big then x else bswap n x) = reverse (le n x).
Proof.
  destruct big; [done|]. unfold native, bswap.
  rewrite <- (length_le n x) at 1. rewrite <- length_reverse. apply le_unle.
  apply Forall_reverse, le_bytes.
Qed.

Lemma unnative_be (big : bool) (n : nat) (l : list Z) :
  Forall (fun b => 0 <= b < 256) l -> length l = n ->
  (if big then unnative big l else bswap n (unnative big l)) = unle (reverse l).
Proof. intros Hl <-. destruct big; [done|]. unfold bswap, unnative. by rewrite le_unle. Qed.

(** ** Writes that succeed *)

(** A file after a write: the empty write does not fill a gap. *)
Definition app_at (c : list Z) (p : Z) (bs : list Z) : list Z :=
  match bs with [] => c | _ => write_at c p bs end.

Definition put (p : string) (c : list Z) (s : fs) : fs := s <| files ::= <[p := c]> |>.

Lemma put_id p c s : files s !! p = Some c -> put p c s = s.
Proof. intros E. destruct s as [m l f]. unfold put. simpl. f_equal. by apply insert_id. Qed.
Lemma put_put p c c' s : put p c (put p c' s) = put p c s.
Proof. destruct s as [m l f]. unfold put. simpl. f_equal. apply insert_insert_eq. Qed.
Lemma files_put p c s : files (put p c s) !! p = Some c.
Proof. simpl. apply lookup_insert_eq. Qed.
Lemma files_put_ne p q c s : p <> q -> files (put p c s) !! q = files s !! q.
Proof. intros H. simpl. by apply lookup_insert_ne. Qed.
Lemma content_put p c s : content (put p c s) p = c.
Proof. unfold content. by rewrite files_put. Qed.

Lemma replicate_repeat_eq n : replicate n 0 = repeat 0 n.
Proof. induction n as [|n IH]; [done|]. simpl. by rewrite IH. Qed.

Lemma write_at_end c p bs :
  Z.of_nat (length c) <= p -> write_at c p bs = c ++ repeat 0 (Z.to_nat p - length c) ++ bs.
Proof.
  intros H. unfold write_at. rewrite (drop_ge c), app_nil_r by lia.
  rewrite take_app_ge, <- app_assoc by lia. do 2 f_equal.
  rewrite <- !replicate_repeat_eq, take_replicate. by rewrite Nat.min_l by lia.
Qed.

Lemma write_at_start c bs rest :
  length c = length bs -> write_at (c ++ rest) 0 bs = bs ++ rest.
Proof. intros H. unfold write_at. simpl. f_equal. by apply drop_app_length'. Qed.

Lemma length_app_at c p bs :
  Z.of_nat (length c) <= p -> Z.of_nat (length (app_at c p bs)) <= p + Z.of_nat (length bs).
Proof.
  intros H. unfold app_at. destruct bs as [|b bs]; [simpl; lia|].
  rewrite write_at_end, !length_app, repeat_length by done. lia.
Qed.

Lemma app_at_app c p xs ys :
  Z.of_nat (length c) <= p ->
  app_at (app_at c p xs) (p + Z.of_nat (length xs)) ys = app_at c p (xs ++ ys).
Proof.
  intros H. destruct xs as [|x xs]; [simpl; by rewrite Z.add_0_r|].
  destruct ys as [|y ys]; [by rewrite app_nil_r|]. unfold app_at. simpl ((x :: xs) ++ _). cbv iota.
  rewrite !(write_at_end c) by done. rewrite write_at_end.
  - rewrite !length_app, repeat_length.
    replace (Z.to_nat (p + _) - _)%nat with 0%nat by lia. simpl. by rewrite <- !app_assoc.
  - rewrite !length_app, repeat_length. lia.
Qed.

(** Nothing fails from here on. *)
Definition quiet (s : fs) : Prop := faults s = [].

Lemma fwrite_quiet f bs s c :
  quiet s -> files s !! path f = Some c ->
  fwrite f bs s = Ok (Z.of_nat (length bs), mkFILE (path f) (pos f + Z.of_nat (length bs)))
                     (put (path f) (app_at c (pos f) bs) s).
Proof.
  intros Hq Hc. destruct bs as [|b bs].
  - simpl. rewrite put_id by done. rewrite Z.add_0_r. by destruct f.
  - unfold fwrite, next_fault, mbind, M_bind, get. rewrite Hq. simpl. unfold put, content. by rewrite Hc.
Qed.

Lemma malloc_quiet s : quiet s -> malloc s = Ok true s.
Proof. intros Hq. unfold malloc, next_fault, mbind, M_bind, get. by rewrite Hq. Qed.

Lemma fseek_ok p x off : 0 <= off -> fseek (mkFILE p x) off = mkFILE p off.
Proof. intros H. unfold fseek. by replace (off <? 0) with false by lia. Qed.

Lemma fread_eq f n s :
  fread f n s = Ok (take (Z.to_nat n) (drop (Z.to_nat (pos f)) (content s (path f))),
    mkFILE (path f) (pos f + Z.of_nat (length (take (Z.to_nat n) (drop (Z.to_nat (pos f)) (content s (path f))))))) s.
Proof.
  unfold fread, mbind, M_bind, get, mret, M_ret. set (rest := drop _ _).
  replace (take (Z.to_nat (Z.min n (Z.of_nat (length rest)))) rest) with (take (Z.to_nat n) rest); [done|].
  destruct (decide (n <= Z.of_nat (length rest))); [by rewrite Z.min_l by lia|].
  by rewrite Z.min_r, !take_ge by lia.
Qed.

Lemma fopen_r_ok p s c : files s !! p = Some c -> (p ∉ locked s) -> fopen_r p s = Ok (Some (mkFILE p 0)) s.
Proof.
  intros E H. unfold fopen_r, mbind, M_bind, get. by rewrite bool_decide_false, E by done.
Qed.
Lemma fopen_w_ok p s : (p ∉ locked s) -> fopen_w p s = Ok (Some (mkFILE p 0)) (put p [] s).
Proof. intros H. unfold fopen_w, mbind, M_bind, get. by rewrite bool_decide_false by done. Qed.
#[global] Arguments native : simpl never.
#[global] Arguments unnative : simpl never.
#[global] Arguments fread : simpl never.
#[global] Arguments fwrite : simpl never.
#[global] Arguments malloc : simpl never.

End Stdio.
