(* ===== verification/Otrx.v ===== *)
(** The TRX firmware image tool, [utils/otrx/src/otrx.c]: creating an image from
    partition files, checking its header and checksum, and extracting partitions.

    [big] is the byte order of the machine, [W] the width of [long] and [size_t].
    Messages are not modelled; the result is the exit status and the files. *)

From Stdlib Require Import ZArith Lia Ascii String.
From stdpp Require Import base list list_numbers numbers strings gmap.
From S2P Require Import Prelude CString Stdio.

Open Scope Z_scope.

Module Otrx.
Import Stdio.

Definition EIO : Z := 5.
Definition ENOMEM : Z := 12.
Definition EACCES : Z := 13.
Definition EINVAL : Z := 22.
Definition ENOSPC : Z := 28.

Definition TRX_MAGIC : Z := 0x30524448.
Definition TRX_FLAGS_OFFSET : Z := 12.
Definition TRX_MAX_PARTS : Z := 3.

Record trx_header := mkHdr {
  magic : Z; hdr_length : Z; crc32 : Z; flags : Z; version : Z; offset : list Z
}.
#[export] Instance eta_hdr : Eta trx_header := fun h =>
  mkHdr (magic h) (hdr_length h) (crc32 h) (flags h) (version h) (offset h).
Definition sizeof_hdr : Z := 28.

Definition otrx_min (x y : Z) : Z := if x <? y then x else y.

(** * CRC-32 *)

Definition crc32_tbl : list Z :=
  [0x00000000; 0x77073096; 0xee0e612c; 0x990951ba; 0x076dc419; 0x706af48f; 0xe963a535; 0x9e6495a3;
   0x0edb8832; 0x79dcb8a4; 0xe0d5e91e; 0x97d2d988; 0x09b64c2b; 0x7eb17cbd; 0xe7b82d07; 0x90bf1d91;
   0x1db71064; 0x6ab020f2; 0xf3b97148; 0x84be41de; 0x1adad47d; 0x6ddde4eb; 0xf4d4b551; 0x83d385c7;
   0x136c9856; 0x646ba8c0; 0xfd62f97a; 0x8a65c9ec; 0x14015c4f; 0x63066cd9; 0xfa0f3d63; 0x8d080df5;
   0x3b6e20c8; 0x4c69105e; 0xd56041e4; 0xa2677172; 0x3c03e4d1; 0x4b04d447; 0xd20d85fd; 0xa50ab56b;
   0x35b5a8fa; 0x42b2986c; 0xdbbbc9d6; 0xacbcf940; 0x32d86ce3; 0x45df5c75; 0xdcd60dcf; 0xabd13d59;
   0x26d930ac; 0x51de003a; 0xc8d75180; 0xbfd06116; 0x21b4f4b5; 0x56b3c423; 0xcfba9599; 0xb8bda50f;
   0x2802b89e; 0x5f058808; 0xc60cd9b2; 0xb10be924; 0x2f6f7c87; 0x58684c11; 0xc1611dab; 0xb6662d3d;
   0x76dc4190; 0x01db7106; 0x98d220bc; 0xefd5102a; 0x71b18589; 0x06b6b51f; 0x9fbfe4a5; 0xe8b8d433;
   0x7807c9a2; 0x0f00f934; 0x9609a88e; 0xe10e9818; 0x7f6a0dbb; 0x086d3d2d; 0x91646c97; 0xe6635c01;
   0x6b6b51f4; 0x1c6c6162; 0x856530d8; 0xf262004e; 0x6c0695ed; 0x1b01a57b; 0x8208f4c1; 0xf50fc457;
   0x65b0d9c6; 0x12b7e950; 0x8bbeb8ea; 0xfcb9887c; 0x62dd1ddf; 0x15da2d49; 0x8cd37cf3; 0xfbd44c65;
   0x4db26158; 0x3ab551ce; 0xa3bc0074; 0xd4bb30e2; 0x4adfa541; 0x3dd895d7; 0xa4d1c46d; 0xd3d6f4fb;
   0x4369e96a; 0x346ed9fc; 0xad678846; 0xda60b8d0; 0x44042d73; 0x33031de5; 0xaa0a4c5f; 0xdd0d7cc9;
   0x5005713c; 0x270241aa; 0xbe0b1010; 0xc90c2086; 0x5768b525; 0x206f85b3; 0xb966d409; 0xce61e49f;
   0x5edef90e; 0x29d9c998; 0xb0d09822; 0xc7d7a8b4; 0x59b33d17; 0x2eb40d81; 0xb7bd5c3b; 0xc0ba6cad;
   0xedb88320; 0x9abfb3b6; 0x03b6e20c; 0x74b1d29a; 0xead54739; 0x9dd277af; 0x04db2615; 0x73dc1683;
   0xe3630b12; 0x94643b84; 0x0d6d6a3e; 0x7a6a5aa8; 0xe40ecf0b; 0x9309ff9d; 0x0a00ae27; 0x7d079eb1;
   0xf00f9344; 0x8708a3d2; 0x1e01f268; 0x6906c2fe; 0xf762575d; 0x806567cb; 0x196c3671; 0x6e6b06e7;
   0xfed41b76; 0x89d32be0; 0x10da7a5a; 0x67dd4acc; 0xf9b9df6f; 0x8ebeeff9; 0x17b7be43; 0x60b08ed5;
   0xd6d6a3e8; 0xa1d1937e; 0x38d8c2c4; 0x4fdff252; 0xd1bb67f1; 0xa6bc5767; 0x3fb506dd; 0x48b2364b;
   0xd80d2bda; 0xaf0a1b4c; 0x36034af6; 0x41047a60; 0xdf60efc3; 0xa867df55; 0x316e8eef; 0x4669be79;
   0xcb61b38c; 0xbc66831a; 0x256fd2a0; 0x5268e236; 0xcc0c7795; 0xbb0b4703; 0x220216b9; 0x5505262f;
   0xc5ba3bbe; 0xb2bd0b28; 0x2bb45a92; 0x5cb36a04; 0xc2d7ffa7; 0xb5d0cf31; 0x2cd99e8b; 0x5bdeae1d;
   0x9b64c2b0; 0xec63f226; 0x756aa39c; 0x026d930a; 0x9c0906a9; 0xeb0e363f; 0x72076785; 0x05005713;
   0x95bf4a82; 0xe2b87a14; 0x7bb12bae; 0x0cb61b38; 0x92d28e9b; 0xe5d5be0d; 0x7cdcefb7; 0x0bdbdf21;
   0x86d3d2d4; 0xf1d4e242; 0x68ddb3f8; 0x1fda836e; 0x81be16cd; 0xf6b9265b; 0x6fb077e1; 0x18b74777;
   0x88085ae6; 0xff0f6a70; 0x66063bca; 0x11010b5c; 0x8f659eff; 0xf862ae69; 0x616bffd3; 0x166ccf45;
   0xa00ae278; 0xd70dd2ee; 0x4e048354; 0x3903b3c2; 0xa7672661; 0xd06016f7; 0x4969474d; 0x3e6e77db;
   0xaed16a4a; 0xd9d65adc; 0x40df0b66; 0x37d83bf0; 0xa9bcae53; 0xdebb9ec5; 0x47b2cf7f; 0x30b5ffe9;
   0xbdbdf21c; 0xcabac28a; 0x53b39330; 0x24b4a3a6; 0xbad03605; 0xcdd70693; 0x54de5729; 0x23d967bf;
   0xb3667a2e; 0xc4614ab8; 0x5d681b02; 0x2a6f2b94; 0xb40bbe37; 0xc30c8ea1; 0x5a05df1b; 0x2d02ef8d].

Definition crc_step (crc b : Z) : Z :=
  Z.lxor (nth (Z.to_nat (Z.land (Z.lxor crc b) 255)) crc32_tbl 0) (Z.shiftr crc 8).
Definition otrx_crc32 (buf : list Z) : Z := fold_left crc_step buf 0xffffffff.

Section otrx.
Context (big : bool) (W : Z).

Definition usize (z : Z) : Z := z mod 2 ^ W.
Definition ssize (z : Z) : Z := (z + 2 ^ (W - 1)) mod 2 ^ W - 2 ^ (W - 1).

Definition cpu_to_le32 (x : Z) : Z := if big then bswap 4 x else x.
Definition le32_to_cpu (x : Z) : Z := if big then bswap 4 x else x.

(** The structure in memory. *)
Definition hdr_bytes (h : trx_header) : list Z :=
  native big 4 (magic h) ++ native big 4 (hdr_length h) ++ native big 4 (crc32 h) ++
  native big 2 (flags h) ++ native big 2 (version h) ++ concat (native big 4 <$> offset h).
Definition bytes_hdr (b : list Z) : trx_header :=
  let at_ i n := unnative big (take n (drop i b)) in
  mkHdr (at_ 0%nat 4%nat) (at_ 4%nat 4%nat) (at_ 8%nat 4%nat) (at_ 12%nat 2%nat) (at_ 14%nat 2%nat)
    [at_ 16%nat 4%nat; at_ 20%nat 4%nat; at_ 24%nat 4%nat].

(** * Check *)

(** The option's offset: [trx_offset = atoi(optarg)]. *)
Definition option_offset (off : Z) (o : opt) : Z :=
  match o with
  | Opt c optarg => if Ascii.eqb c "o" then usize (atoi W optarg) else off
  | Bad => off
  end.
Definition otrx_check_parse_options (args : list string) : Z :=
  fold_left option_offset (getopt ["o"%char] args) 0.

(** Every round reads at least one byte of the file. *)
Fixpoint check_loop (fuel : nat) (trx : FILE) (length crc : Z) : M fs (Z * Z) :=
  match fuel with
  | O => undef
  | S fuel =>
      '(buf, trx) ← fread trx (otrx_min 1024 length);
      match buf with
      | [] => mret (length, crc)
      | _ => check_loop fuel trx (length - Z.of_nat (List.length buf)) (fold_left crc_step buf crc)
      end
  end.

Definition otrx_check (argv : list string) : M fs Z :=
  match argv !! 2%nat with
  | None => mret (- EINVAL)
  | Some trx_path =>
      let trx_offset := otrx_check_parse_options (drop 3 argv) in
      f ← fopen_r trx_path;
      match f with
      | None => mret (- EACCES)
      | Some trx =>
          let trx := fseek trx (ssize trx_offset) in
          '(b, trx) ← fread trx sizeof_hdr;
          if negb (Z.of_nat (length b) =? sizeof_hdr) then mret (- EIO)
          else
            let hdr := bytes_hdr b in
            if negb (le32_to_cpu (magic hdr) =? TRX_MAGIC) then mret (- EINVAL)
            else
              let len := le32_to_cpu (hdr_length hdr) in
              if len <? sizeof_hdr then mret (- EINVAL)
              else
                let trx := fseek trx (ssize (usize (trx_offset + TRX_FLAGS_OFFSET))) in
                s ← get;
                '(len, crc) ← check_loop (S (length (content s trx_path))) trx (len - TRX_FLAGS_OFFSET)
                                0xffffffff;
                if negb (len =? 0) then mret (- EIO)
                else if negb (crc =? le32_to_cpu (crc32 hdr)) then mret (- EINVAL)
                else mret 0
      end
  end.

(** * Create *)

(** The loop over the input ends when the input is another file than the image. *)
Fixpoint append_loop (fuel : nat) (inp trx : FILE) (length : Z) : M fs (Z * FILE) :=
  match fuel with
  | O => undef
  | S fuel =>
      '(buf, inp) ← fread inp 128;
      match buf with
      | [] => mret (length, trx)
      | _ =>
          '(n, trx) ← fwrite trx buf;
          if negb (n =? Z.of_nat (List.length buf)) then mret (- EIO, trx)
          else append_loop fuel inp trx (length + n)
      end
  end.

Definition otrx_create_append_file (trx : FILE) (in_path : string) : M fs (Z * FILE) :=
  f ← fopen_r in_path;
  match f with
  | None => mret (- EACCES, trx)
  | Some inp => s ← get; append_loop (S (length (content s in_path))) inp trx 0
  end.

Definition otrx_create_append_zeros (trx : FILE) (length : Z) : M fs (Z * FILE) :=
  ok ← malloc;
  if negb ok then mret (- ENOMEM, trx)
  else
    '(n, trx) ← fwrite trx (repeat 0 (Z.to_nat length));
    if negb (n =? length) then mret (- EIO, trx) else mret (length, trx).

Definition otrx_create_align (trx : FILE) (curr_offset alignment : Z) : M fs (Z * FILE) :=
  if negb (Z.land curr_offset (alignment - 1) =? 0)
  then otrx_create_append_zeros trx (alignment - curr_offset mod alignment)
  else mret (0, trx).

Definition otrx_create_write_hdr (trx : FILE) (hdr : trx_header) : M fs Z :=
  let hdr := hdr <| magic := cpu_to_le32 TRX_MAGIC |> <| version := 1 |> in
  '(n, trx) ← fwrite (fseek trx 0) (hdr_bytes hdr);
  if negb (n =? sizeof_hdr) then mret (- EIO)
  else
    let len := le32_to_cpu (hdr_length hdr) in
    ok ← malloc;
    if negb ok then mret (- ENOMEM)
    else
      '(buf, trx) ← fread (fseek trx 0) len;
      if negb (Z.of_nat (length buf) =? len) then mret (- ENOMEM)
      else if len <? TRX_FLAGS_OFFSET then undef
      else
        let hdr := hdr <| crc32 := cpu_to_le32 (otrx_crc32 (drop (Z.to_nat TRX_FLAGS_OFFSET) buf)) |> in
        '(n, trx) ← fwrite (fseek trx 0) (hdr_bytes hdr);
        if negb (n =? sizeof_hdr) then mret (- EIO) else mret 0.

(** The state of the loop over the options: the stream, [hdr.offset], [curr_idx] and
    [curr_offset]. *)
Record image := mkImage { trx : FILE; offsets : list Z; curr_idx : Z; curr_offset : Z }.

(** [case 'f'] after the limit on partitions. *)
Definition create_file (im : image) (optarg : string) : M fs image :=
  '(sbytes, t) ← otrx_create_append_file (trx im) optarg;
  let im :=
    if sbytes <? 0 then mkImage t (offsets im) (curr_idx im) (curr_offset im)
    else mkImage t (<[Z.to_nat (curr_idx im) := u32 (curr_offset im)]> (offsets im)) (curr_idx im + 1)
           (usize (curr_offset im + sbytes)) in
  '(sbytes, t) ← otrx_create_align (trx im) (curr_offset im) 4;
  mret (mkImage t (offsets im) (curr_idx im)
    (if sbytes <? 0 then curr_offset im else usize (curr_offset im + sbytes))).

(** [case 'b']. *)
Definition create_pad (im : image) (optarg : string) : M fs image :=
  let sbytes := ssize (usize (strtol W 0 optarg) - curr_offset im) in
  if sbytes <? 0 then mret im
  else
    '(sbytes, t) ← otrx_create_append_zeros (trx im) sbytes;
    mret (mkImage t (offsets im) (curr_idx im)
      (if sbytes <? 0 then curr_offset im else usize (curr_offset im + sbytes))).

(** The loop over the options; [inr] is the jump to [err_close]. *)
Fixpoint create_loop (opts : list opt) (im : image) : M fs (image + Z) :=
  match opts with
  | [] => mret (inl im)
  | Opt c optarg :: opts =>
      if Ascii.eqb c "f" then
        if curr_idx im >=? TRX_MAX_PARTS then mret (inr (- ENOSPC))
        else im ← create_file im optarg; create_loop opts im
      else if Ascii.eqb c "b" then im ← create_pad im optarg; create_loop opts im
      else create_loop opts im
  | Bad :: opts => create_loop opts im
  end.

Definition otrx_create (argv : list string) : M fs Z :=
  match argv !! 2%nat with
  | None => mret (- EINVAL)
  | Some trx_path =>
      f ← fopen_w trx_path;
      match f with
      | None => mret (- EACCES)
      | Some f =>
          r ← create_loop (getopt ["f"; "b"]%char (drop 3 argv))
                (mkImage (fseek f sizeof_hdr) [0; 0; 0] 0 sizeof_hdr);
          match r with
          | inr err => mret err
          | inl im =>
              otrx_create_write_hdr (trx im) (mkHdr 0 (u32 (curr_offset im)) 0 0 0 (offsets im));;
              mret 0
          end
      end
  end.

(** * Extract *)

(** [trx_offset] and [partition]. *)
Definition extract_option (st : Z * list (option string)) (o : opt) : Z * list (option string) :=
  let '(off, parts) := st in
  match o with
  | Opt c optarg =>
      if Ascii.eqb c "o" then (usize (atoi W optarg), parts)
      else if Ascii.eqb c "1" then (off, <[0%nat := Some optarg]> parts)
      else if Ascii.eqb c "2" then (off, <[1%nat := Some optarg]> parts)
      else if Ascii.eqb c "3" then (off, <[2%nat := Some optarg]> parts)
      else st
  | Bad => st
  end.
Definition otrx_extract_parse_options (args : list string) : Z * list (option string) :=
  fold_left extract_option (getopt ["c"; "e"; "o"; "1"; "2"; "3"]%char args) (0, [None; None; None]).

Definition otrx_extract_copy (trx : FILE) (offset length : Z) (out_path : string) : M fs (Z * FILE) :=
  f ← fopen_w out_path;
  match f with
  | None => mret (- EACCES, trx)
  | Some out =>
      ok ← malloc;
      if negb ok then mret (- ENOMEM, trx)
      else
        '(buf, trx) ← fread (fseek trx (ssize offset)) length;
        if negb (Z.of_nat (List.length buf) =? length) then mret (- ENOMEM, trx)
        else
          '(n, _) ← fwrite out buf;
          if negb (n =? length) then mret (- ENOMEM, trx) else mret (0, trx)
  end.

(** The loop over the partitions from index [i] on; [off] are the fields of the header
    from there on. *)
Fixpoint extract_loop (trx : FILE) (trx_offset hdr_len : Z) (parts : list (option string)) (off : list Z)
    : M fs unit :=
  match parts, off with
  | p :: parts, o :: off =>
      match p with
      | None => extract_loop trx trx_offset hdr_len parts off
      | Some out =>
          if o =? 0 then extract_loop trx trx_offset hdr_len parts off
          else
            let len := match off with
                       | [] => u32 (le32_to_cpu hdr_len - le32_to_cpu o)
                       | o' :: _ => if o' =? 0 then u32 (le32_to_cpu hdr_len - le32_to_cpu o)
                                    else u32 (le32_to_cpu o' - le32_to_cpu o)
                       end in
            '(_, trx) ← otrx_extract_copy trx (usize (trx_offset + le32_to_cpu o)) len out;
            extract_loop trx trx_offset hdr_len parts off
      end
  | _, _ => mret tt
  end.

Definition otrx_extract (argv : list string) : M fs Z :=
  match argv !! 2%nat with
  | None => mret (- EINVAL)
  | Some trx_path =>
      let '(trx_offset, partition) := otrx_extract_parse_options (drop 3 argv) in
      f ← fopen_r trx_path;
      match f with
      | None => mret (- EACCES)
      | Some trx =>
          '(b, trx) ← fread (fseek trx (ssize trx_offset)) sizeof_hdr;
          if negb (Z.of_nat (length b) =? sizeof_hdr) then mret (- EIO)
          else
            let hdr := bytes_hdr b in
            if negb (le32_to_cpu (magic hdr) =? TRX_MAGIC) then mret (- EINVAL)
            else
              extract_loop trx trx_offset (hdr_length hdr) partition (offset hdr);;
              mret 0
      end
  end.

Definition main (argv : list string) : M fs Z :=
  match argv !! 1%nat with
  | Some cmd =>
      if bool_decide (cmd = "check"%string) then otrx_check argv
      else if bool_decide (cmd = "create"%string) then otrx_create argv
      else if bool_decide (cmd = "extract"%string) then otrx_extract argv
      else mret 0
  | None => mret 0
  end.
End otrx.

End Otrx.
