(* ===== verification/OtrxCrc.v ===== *)
(** The checksum of the TRX tool: the table gives the CRC-32 of the bitwise
    definition, and a change of one byte always changes it. *)

From Stdlib Require Import ZArith Lia Btauto.
From stdpp Require Import base list list_numbers numbers.
From S2P Require Import Prelude Otrx.

Module OtrxCrc.
Import Otrx.

(** * The bitwise definition *)

(** Division by the reflected polynomial of CRC-32, one bit at a time. *)
Definition bit_step (c : Z) : Z :=
  Z.lxor (Z.shiftr c 1) (if Z.odd c then 0xedb88320 else 0).
Definition crc_byte (c b : Z) : Z := Nat.iter 8 bit_step (Z.lxor c b).
Definition crc_bits (c : Z) (data : list Z) : Z := fold_left crc_byte data c.

Lemma bit_step_lxor x y : bit_step (Z.lxor x y) = Z.lxor (bit_step x) (bit_step y).
Proof.
  unfold bit_step. rewrite Z.shiftr_lxor, <- !Z.bit0_odd, Z.lxor_spec.
  apply Z.bits_inj'. intros n Hn.
  destruct (Z.testbit x 0), (Z.testbit y 0); rewrite ?Z.lxor_spec, ?Z.bits_0; simpl xorb;
    rewrite ?Z.lxor_spec, ?Z.bits_0; btauto.
Qed.

Lemma iter_lxor n x y :
  Nat.iter n bit_step (Z.lxor x y) = Z.lxor (Nat.iter n bit_step x) (Nat.iter n bit_step y).
Proof. induction n as [|n IH]; [done|]. simpl. by rewrite IH, bit_step_lxor. Qed.

(** While the low bits are zero, a step only shifts. *)
Lemma iter_shift n h : Nat.iter n bit_step (Z.shiftl h (Z.of_nat n)) = h.
Proof.
  revert h. induction n as [|n IH]; intros h; [apply Z.shiftl_0_r|].
  replace (Z.of_nat (S n)) with (1 + Z.of_nat n) by lia.
  rewrite <- Z.shiftl_shiftl by lia. simpl. rewrite IH. unfold bit_step.
  rewrite Z.shiftr_shiftl_r, <- Z.bit0_odd, Z.shiftl_spec_low by lia.
  by rewrite Z.sub_diag, Z.shiftr_0_r, Z.lxor_0_r.
Qed.

(** ** The table *)

(** Every entry is what eight steps make of its index. *)
Lemma tbl_bits :
  forallb (fun i => nth (Z.to_nat i) crc32_tbl 0 =? Nat.iter 8 bit_step i) (seqZ 0 256) = true.
Proof. vm_compute. reflexivity. Qed.

Lemma tbl_spec i : 0 <= i < 256 -> nth (Z.to_nat i) crc32_tbl 0 = Nat.iter 8 bit_step i.
Proof.
  intros H. pose proof tbl_bits as T. rewrite forallb_forall in T. apply Z.eqb_eq, T.
  apply list_elem_of_In, elem_of_seqZ. lia.
Qed.

Lemma low_byte x : 0 <= Z.land x 255 < 256.
Proof. change 255 with (Z.ones 8). rewrite Z.land_ones by lia. apply Z.mod_pos_bound. lia. Qed.

(** A word is its low byte and the rest. *)
Lemma split_byte x : 0 <= x -> x = Z.lxor (Z.land x 255) (Z.shiftl (Z.shiftr x 8) 8).
Proof.
  intros H. change 255 with (Z.ones 8). apply Z.bits_inj'. intros n Hn.
  rewrite Z.lxor_spec, Z.land_spec, Z.testbit_ones, Z.shiftl_spec by lia.
  destruct (decide (n < 8)).
  - rewrite (Z.testbit_neg_r _ (n - 8)) by lia. replace ((0 <=? n) && (n <? 8)) with true by lia.
    by rewrite andb_true_r, xorb_false_r.
  - replace ((0 <=? n) && (n <? 8)) with false by lia. rewrite andb_false_r, Z.shiftr_spec by lia.
    rewrite xorb_false_l. f_equal. lia.
Qed.

Lemma crc_step_bits c b : 0 <= c -> 0 <= b < 256 -> crc_step c b = crc_byte c b.
Proof.
  intros Hc Hb. unfold crc_step, crc_byte. assert (0 <= Z.lxor c b) by (apply Z.lxor_nonneg; lia).
  rewrite (split_byte (Z.lxor c b)) at 2 by done.
  rewrite iter_lxor, (iter_shift 8), tbl_spec by apply low_byte. f_equal.
  rewrite Z.shiftr_lxor. replace (Z.shiftr b 8) with 0; [by rewrite Z.lxor_0_r|].
  symmetry. rewrite Z.shiftr_div_pow2 by lia. apply Z.div_small. lia.
Qed.

Lemma tbl_range : Forall (fun x => 0 <= x < 2 ^ 32) crc32_tbl.
Proof. apply (bool_decide_unpack _). by vm_compute. Qed.

Lemma tbl_entry i : 0 <= nth i crc32_tbl 0 < 2 ^ 32.
Proof.
  destruct (nth_in_or_default i crc32_tbl 0) as [H | ->]; [|lia].
  pose proof tbl_range as T. rewrite Forall_forall in T. apply T. exact H.
Qed.

Lemma nth_lookup_lt i : (i < 256)%nat -> crc32_tbl !! i = Some (nth i crc32_tbl 0).
Proof.
  intros H. destruct (lookup_lt_is_Some_2 crc32_tbl i H) as [x E].
  by rewrite (nth_lookup_Some _ _ _ _ E).
Qed.

(** The top bytes of the entries differ. *)
Lemma tbl_top_nodup : NoDup ((fun x => x / 2 ^ 24) <$> crc32_tbl).
Proof. apply (bool_decide_unpack _). by vm_compute. Qed.

Lemma tbl_top_inj i j :
  (i < 256)%nat -> (j < 256)%nat -> nth i crc32_tbl 0 / 2 ^ 24 = nth j crc32_tbl 0 / 2 ^ 24 -> i = j.
Proof.
  intros Hi Hj E. eapply (NoDup_lookup _ i j _ tbl_top_nodup).
  - rewrite list_lookup_fmap, (nth_lookup_lt i) by done. reflexivity.
  - rewrite list_lookup_fmap, (nth_lookup_lt j) by done. cbn [fmap option_fmap option_map]. by rewrite <- E.
Qed.

(** ** One byte at a time nothing is lost *)

Lemma crc_step_range c b : 0 <= c < 2 ^ 32 -> 0 <= crc_step c b < 2 ^ 32.
Proof.
  intros Hc. unfold crc_step. set (x := nth _ _ _). pose proof (tbl_entry (Z.to_nat (Z.land (Z.lxor c b) 255))) as Hx.
  fold x in Hx. assert (0 <= Z.shiftr c 8 < 2 ^ 32) as Hs.
  { rewrite Z.shiftr_div_pow2 by lia. dlia. }
  assert (0 <= Z.lxor x (Z.shiftr c 8)) by (apply Z.lxor_nonneg; lia).
  split; [done|]. destruct (decide (Z.lxor x (Z.shiftr c 8) = 0)) as [->|]; [lia|].
  apply Z.log2_lt_pow2; [lia|]. eapply Z.le_lt_trans; [apply Z.log2_lxor; lia|].
  assert (forall y, 0 <= y < 2 ^ 32 -> Z.log2 y < 32) as L; [|pose proof (L x Hx); pose proof (L _ Hs); lia].
  intros y Hy. destruct (decide (y = 0)) as [->|]; [simpl; lia|]. apply Z.log2_lt_pow2; lia.
Qed.

Lemma lxor_cancel a b c : Z.lxor a b = Z.lxor a c -> b = c.
Proof. intros E. rewrite <- (Z.lxor_0_l b), <- (Z.lxor_0_l c), <- (Z.lxor_nilpotent a), !Z.lxor_assoc. by rewrite E. Qed.

(** The step determines the index into the table and the rest of the old value. *)
Lemma crc_step_inv c b c' b' :
  0 <= c < 2 ^ 32 -> 0 <= c' < 2 ^ 32 -> crc_step c b = crc_step c' b' ->
  Z.land (Z.lxor c b) 255 = Z.land (Z.lxor c' b') 255 /\ Z.shiftr c 8 = Z.shiftr c' 8.
Proof.
  intros Hc Hc' E. unfold crc_step in E.
  set (i := Z.land (Z.lxor c b) 255) in *. set (j := Z.land (Z.lxor c' b') 255) in *.
  pose proof (low_byte (Z.lxor c b)) as Hi. pose proof (low_byte (Z.lxor c' b')) as Hj. fold i in Hi. fold j in Hj.
  assert (forall x, 0 <= x < 2 ^ 32 -> Z.shiftr (Z.shiftr x 8) 24 = 0) as Hz.
  { intros x Hx. rewrite Z.shiftr_shiftr, Z.shiftr_div_pow2 by lia. apply Z.div_small. lia. }
  assert (i = j) as Eij.
  { apply Z2Nat.inj; [lia..|]. apply tbl_top_inj; [lia..|].
    rewrite <- !Z.shiftr_div_pow2 by lia.
    apply (f_equal (fun x => Z.shiftr x 24)) in E. rewrite !Z.shiftr_lxor, !Hz, !Z.lxor_0_r in E by done. done. }
  split; [done|]. rewrite Eij in E. by apply lxor_cancel in E.
Qed.

Lemma land_lxor a b m : Z.land (Z.lxor a b) m = Z.lxor (Z.land a m) (Z.land b m).
Proof. apply Z.bits_inj'. intros n Hn. rewrite Z.land_spec, !Z.lxor_spec, !Z.land_spec. btauto. Qed.

Lemma land_lxor_cancel a b c : Z.land (Z.lxor a b) 255 = Z.land (Z.lxor a c) 255 -> Z.land b 255 = Z.land c 255.
Proof. rewrite !land_lxor. apply lxor_cancel. Qed.

Lemma crc_step_inj_l c c' b :
  0 <= c < 2 ^ 32 -> 0 <= c' < 2 ^ 32 -> crc_step c b = crc_step c' b -> c = c'.
Proof.
  intros Hc Hc' E. apply crc_step_inv in E as [E1 E2]; [|done..].
  rewrite (split_byte c), (split_byte c'), E2 by lia. f_equal.
  rewrite !(Z.lxor_comm _ b) in E1. by eapply land_lxor_cancel.
Qed.

Lemma crc_step_inj_r c b b' :
  0 <= c < 2 ^ 32 -> 0 <= b < 256 -> 0 <= b' < 256 -> crc_step c b = crc_step c b' -> b = b'.
Proof.
  intros Hc Hb Hb' E. apply crc_step_inv in E as [E _]; [|done..]. apply land_lxor_cancel in E.
  change 255 with (Z.ones 8) in E. rewrite !Z.land_ones in E by lia.
  by rewrite !Z.mod_small in E by lia.
Qed.

Lemma crc_fold_inj data : forall c c',
  0 <= c < 2 ^ 32 -> 0 <= c' < 2 ^ 32 -> fold_left crc_step data c = fold_left crc_step data c' -> c = c'.
Proof.
  induction data as [|b data IH]; intros c c' Hc Hc' E; [done|]. simpl in E.
  apply IH in E; [|by apply crc_step_range..]. by apply crc_step_inj_l in E.
Qed.

Lemma crc_fold_range data : forall c, 0 <= c < 2 ^ 32 -> 0 <= fold_left crc_step data c < 2 ^ 32.
Proof. induction data as [|b data IH]; intros c Hc; [done|]. by apply IH, crc_step_range. Qed.

(** A change of one byte changes the checksum. *)
Lemma crc_one_byte pre b b' post :
  0 <= b < 256 -> 0 <= b' < 256 ->
  otrx_crc32 (pre ++ b :: post) = otrx_crc32 (pre ++ b' :: post) -> b = b'.
Proof.
  intros Hb Hb' E. unfold otrx_crc32 in E. rewrite !fold_left_app in E. simpl in E.
  pose proof (crc_fold_range pre 0xffffffff ltac:(lia)) as Hc.
  apply crc_fold_inj in E; [|by apply crc_step_range..]. by apply crc_step_inj_r in E.
Qed.

(** The table-driven checksum is CRC-32: for every sequence of bytes [otrx_crc32]
    gives the remainder of the bitwise division by the polynomial 0xedb88320 that starts from
    all ones, and it is an unsigned 32-bit value. *)
Theorem otrx_crc_bitwise data :
  Forall (fun b => 0 <= b < 256) data ->
  otrx_crc32 data = crc_bits 0xffffffff data /\ 0 <= otrx_crc32 data < 2 ^ 32.
Proof.
  intros Hd. split; [|apply crc_fold_range; lia]. unfold otrx_crc32, crc_bits.
  assert (0 <= 0xffffffff < 2 ^ 32) as Hc by lia. revert Hc. generalize 0xffffffff.
  induction Hd as [|b data Hb _ IH]; intros c Hc; [done|]. simpl.
  rewrite IH by (by apply crc_step_range). by rewrite crc_step_bits by lia.
Qed.

Lemma otrx_crc_bitwise_witness :
  otrx_crc32 [49; 50; 51] = crc_bits 0xffffffff [49; 50; 51] /\ 0 <= otrx_crc32 [49; 50; 51] < 2 ^ 32.
Proof. apply (otrx_crc_bitwise [49; 50; 51]). repeat constructor; lia. Defined.

End OtrxCrc.
