(* ===== verification/OtrxSpec.v ===== *)
(** The TRX tool: what checking says of any file, that a created image passes the
    check and gives its partitions back, and the failures it does not report. *)

From Stdlib Require Import ZArith Lia Ascii String.
From stdpp Require Import base list list_numbers numbers strings gmap.
From S2P Require Import Prelude CString Stdio Otrx OtrxCrc.

Open Scope list_scope.
Open Scope Z_scope.

Module OtrxSpec.
Import Stdio Otrx OtrxCrc.

(** The programs run in a size that has room for a 32-bit length. *)
Section sizes.
Context (W : Z).
Hypothesis HW : 32 <= W.

Lemma pow_W : 2 ^ 32 <= 2 ^ W /\ 2 ^ 31 <= 2 ^ (W - 1) /\ 2 ^ W = 2 * 2 ^ (W - 1).
Proof.
  split_and!; [apply Z.pow_le_mono_r; lia.. |]. rewrite <- Z.pow_succ_r by lia. f_equal. lia.
Qed.
Lemma usize_small z : 0 <= z < 2 ^ 32 -> usize W z = z.
Proof. intros H. pose proof pow_W. apply Z.mod_small. lia. Qed.
Lemma ssize_small z : - 2 ^ 31 <= z < 2 ^ 31 -> ssize W z = z.
Proof. intros H. pose proof pow_W. unfold ssize. rewrite Z.mod_small; lia. Qed.
End sizes.

(** * Check *)

Section check.
Context (big : bool) (W : Z).
Hypothesis HW : 32 <= W.

(** The answer for an image that starts at the front of [b]. *)
Definition check_image (b : list Z) : Z :=
  let hdr := bytes_hdr big (take 28 b) in
  let len := le32_to_cpu big (hdr_length hdr) in
  if negb (Z.of_nat (length (take 28 b)) =? 28) then - EIO
  else if negb (le32_to_cpu big (magic hdr) =? TRX_MAGIC) then - EINVAL
  else if len <? 28 then - EINVAL
  else if Z.of_nat (length b) <? len then - EIO
  else if negb (otrx_crc32 (take (Z.to_nat (len - 12)) (drop 12 b)) =? le32_to_cpu big (crc32 hdr)) then - EINVAL
  else 0.

(** The checksum is taken of what there is of the wanted bytes, in any number of reads. *)
Lemma check_loop_ok fuel : forall p s pos len crc,
  0 <= pos -> 0 <= len ->
  (length (drop (Z.to_nat pos) (content s p)) < fuel)%nat ->
  let t := take (Z.to_nat len) (drop (Z.to_nat pos) (content s p)) in
  check_loop fuel (mkFILE p pos) len crc s = Ok (len - Z.of_nat (length t), fold_left crc_step t crc) s.
Proof.
  induction fuel as [|fuel IH]; intros p s pos len crc Hp Hl Hf t; [lia|].
  set (rest := drop (Z.to_nat pos) (content s p)) in *.
  cbn [check_loop]. set (n := otrx_min 1024 len).
  assert (0 <= n <= len /\ n <= 1024 /\ (n = 0 -> len = 0)) as Hn
    by (unfold n, otrx_min; destruct (_ <? _) eqn:?; lia).
  unfold mbind, M_bind. rewrite fread_eq. cbn [path Stdio.pos]. fold rest.
  destruct (take (Z.to_nat n) rest) as [|b buf] eqn:Eb.
  - assert (t = []) as E0; [|rewrite E0; simpl; by rewrite Z.sub_0_r].
    destruct rest as [|x rest'] eqn:Er; [unfold t; by rewrite take_nil|].
    destruct (Z.to_nat n) eqn:En; [|done]. assert (len = 0) as El by lia. unfold t. by rewrite El.
  - set (bs := b :: buf) in *. assert (bs = take (Z.to_nat n) rest) as Ebs by done.
    assert (Z.of_nat (length bs) <= n /\ (0 < length bs)%nat) as [Hb1 Hb2].
    { split; [rewrite Ebs, length_take; lia | simpl; lia]. }
    assert (drop (Z.to_nat (pos + Z.of_nat (length bs))) (content s p) = drop (length bs) rest) as Ed.
    { unfold rest. rewrite drop_drop. f_equal. lia. }
    assert (length bs <= length rest)%nat as Hbr by (rewrite Ebs, length_take; lia).
    assert (t = bs ++ take (Z.to_nat (len - Z.of_nat (length bs))) (drop (length bs) rest)) as Et.
    { unfold t. rewrite Ebs at 1. rewrite <- (take_drop (length bs) rest) at 1.
      replace (Z.to_nat len) with (length bs + Z.to_nat (len - Z.of_nat (length bs)))%nat by lia.
      replace (take (Z.to_nat n) rest) with (take (length bs) rest).
      2: { rewrite Ebs at 1. rewrite length_take. destruct (decide (Z.to_nat n <= length rest)%nat).
           - by rewrite Nat.min_l by lia.
           - by rewrite Nat.min_r, !take_ge by lia. }
      apply take_app_add'. rewrite length_take. lia. }
    rewrite (IH p s (pos + Z.of_nat (length bs)) (len - Z.of_nat (length bs))), Ed; [|lia|lia|].
    + rewrite Et, length_app, fold_left_app. do 2 f_equal. lia.
    + rewrite Ed, length_drop. lia.
Qed.

Lemma trx_check_ok argv p off s c :
  argv !! 2%nat = Some p -> otrx_check_parse_options W (drop 3 argv) = off -> 0 <= off < 2 ^ 31 - 12 ->
  (p ∉ locked s) -> files s !! p = Some c ->
  otrx_check big W argv s = Ok (check_image (drop (Z.to_nat off) c)) s.
Proof.
  intros Ha Ho Hoff Hl Hc. unfold otrx_check. rewrite Ha, Ho.
  unfold mbind, M_bind at 1. rewrite (fopen_r_ok _ _ _ Hc Hl).
  rewrite (ssize_small W HW off) by lia. rewrite fseek_ok by lia.
  unfold mbind, M_bind at 1. rewrite fread_eq. cbn [path pos].
  assert (content s p = c) as Ec by (unfold content; by rewrite Hc). rewrite Ec.
  change (Z.to_nat sizeof_hdr) with 28%nat. unfold check_image, sizeof_hdr.
  set (b := drop (Z.to_nat off) c). set (hdr := bytes_hdr big (take 28 b)).
  destruct (negb (_ =? 28)) eqn:E1; [done|]. destruct (negb (_ =? TRX_MAGIC)) eqn:E2; [done|].
  destruct (_ <? 28) eqn:E3; [done|].
  set (len := le32_to_cpu big (hdr_length hdr)) in *.
  rewrite (usize_small W HW), (ssize_small W HW) by (unfold TRX_FLAGS_OFFSET; lia).
  rewrite fseek_ok by (unfold TRX_FLAGS_OFFSET; lia).
  unfold mbind, M_bind, get. rewrite Ec. rewrite check_loop_ok; rewrite ?Ec.
  2,3: unfold TRX_FLAGS_OFFSET; lia.
  2: rewrite length_drop; lia.
  replace (drop (Z.to_nat (off + TRX_FLAGS_OFFSET)) c) with (drop 12 b)
    by (unfold b, TRX_FLAGS_OFFSET; rewrite drop_drop; f_equal; lia).
  unfold TRX_FLAGS_OFFSET. rewrite length_take, length_drop.
  apply negb_false_iff, Z.eqb_eq in E1. rewrite length_take in E1.
  destruct (Z.of_nat (length b) <? len) eqn:E4.
  - destruct (Z.eqb_spec (len - 12 - Z.of_nat (Z.to_nat (len - 12) `min` (length b - 12))) 0); [lia | done].
  - destruct (Z.eqb_spec (len - 12 - Z.of_nat (Z.to_nat (len - 12) `min` (length b - 12))) 0); [|lia].
    cbn [negb]. fold (otrx_crc32 (take (Z.to_nat (len - 12)) (drop 12 b))).
    by destruct (negb (otrx_crc32 _ =? _)).
Qed.
End check.

(** * Create *)

(** ** The header in memory *)

Definition field (n : nat) (x : Z) : Prop := 0 <= x < 256 ^ Z.of_nat n.

Definition hdr_ok (h : trx_header) : Prop :=
  field 4 (magic h) /\ field 4 (hdr_length h) /\ field 4 (crc32 h) /\ field 2 (flags h) /\
  field 2 (version h) /\ length (offset h) = 3%nat /\ Forall (field 4) (offset h).

Lemma length_hdr_bytes big h : length (offset h) = 3%nat -> length (hdr_bytes big h) = 28%nat.
Proof.
  destruct h as [m l c f v o]. simpl. intros H. do 4 (destruct o as [|? o]; try done).
  unfold hdr_bytes. simpl. by rewrite !length_app, !length_native.
Qed.

Lemma native2 big x : field 2 x -> exists a b, native big 2 x = [a; b] /\ unnative big [a; b] = x.
Proof.
  intros H. pose proof (length_native big 2 x) as L. pose proof (unnative_native big 2 x H) as U.
  destruct (native big 2 x) as [|a [|b [|]]]; simpl in L; try done. eauto.
Qed.
Lemma native4 big x : field 4 x ->
  exists a b c d, native big 4 x = [a; b; c; d] /\ unnative big [a; b; c; d] = x.
Proof.
  intros H. pose proof (length_native big 4 x) as L. pose proof (unnative_native big 4 x H) as U.
  destruct (native big 4 x) as [|a [|b [|c [|d [|]]]]]; simpl in L; try done. eauto 6.
Qed.

(** Every field is read where it was written. *)
Lemma bytes_hdr_bytes big h : hdr_ok h -> bytes_hdr big (hdr_bytes big h) = h.
Proof.
  destruct h as [m l c f v o]. intros (H1 & H2 & H3 & H4 & H5 & H6 & H7). simpl in *.
  do 4 (destruct o as [|? o]; try done). repeat setoid_rewrite Forall_cons in H7.
  destruct H7 as (H7 & H8 & H9 & _). unfold bytes_hdr, hdr_bytes.
  cbn [magic hdr_length crc32 flags version offset fmap list_fmap concat].
  destruct (native4 big _ H1) as (?&?&?&?&->&E1), (native4 big _ H2) as (?&?&?&?&->&E2),
    (native4 big _ H3) as (?&?&?&?&->&E3), (native2 big _ H4) as (?&?&->&E4),
    (native2 big _ H5) as (?&?&->&E5), (native4 big _ H7) as (?&?&?&?&->&E7),
    (native4 big _ H8) as (?&?&?&?&->&E8), (native4 big _ H9) as (?&?&?&?&->&E9).
  cbn [app take drop]. by rewrite E1, E2, E3, E4, E5, E7, E8, E9.
Qed.

(** The bytes the checksum covers do not depend on it. *)
Lemma drop_hdr_crc big h c :
  length (offset h) = 3%nat ->
  drop 12 (hdr_bytes big (h <| crc32 := c |>)) = drop 12 (hdr_bytes big h).
Proof.
  intros H. destruct h as [m l c0 f v o]. unfold hdr_bytes. simpl. rewrite !app_assoc.
  rewrite <- !app_assoc, !(app_assoc (native big 4 m)), !(app_assoc (native big 4 m ++ native big 4 l)).
  rewrite !drop_app_length' by (by rewrite !length_app, !length_native). done.
Qed.


(** ** Appending *)

Definition zeros (n : Z) : list Z := repeat 0 (Z.to_nat n).

Lemma append_loop_ok fuel : forall p q s c d x y len,
  p <> q -> quiet s -> files s !! p = Some c -> Z.of_nat (length c) <= x -> 0 <= y ->
  content s q = d -> (length (drop (Z.to_nat y) d) < fuel)%nat ->
  let rest := drop (Z.to_nat y) d in
  append_loop fuel (mkFILE q y) (mkFILE p x) len s =
    Ok (len + Z.of_nat (length rest), mkFILE p (x + Z.of_nat (length rest))) (put p (app_at c x rest) s).
Proof.
  induction fuel as [|fuel IH]; intros p q s c d x y len Hne Hq Hc Hx Hy Hd Hf rest; [lia|].
  cbn [append_loop]. unfold mbind, M_bind. rewrite fread_eq. cbn [path pos]. rewrite Hd. fold rest.
  change (Z.to_nat 128) with 128%nat.
  destruct (take 128 rest) as [|b bs] eqn:Eb.
  - assert (rest = []) as E0 by (by destruct rest). rewrite E0. simpl.
    rewrite !Z.add_0_r, put_id by done. done.
  - set (buf := b :: bs) in *.
    rewrite (fwrite_quiet (mkFILE p x) buf s c Hq Hc). cbn [path pos]. rewrite Z.eqb_refl. cbn [negb].
    assert (rest = buf ++ drop (length buf) rest) as Er.
    { rewrite <- (take_drop 128 rest) at 1. rewrite Eb. f_equal.
      assert (length buf = length (take 128 rest)) as Lb by (by rewrite Eb).
      rewrite length_take in Lb. destruct (decide (128 <= length rest)%nat).
      - f_equal. lia.
      - rewrite !drop_ge; [done|lia..]. }
    assert (drop (Z.to_nat (y + Z.of_nat (length buf))) d = drop (length buf) rest) as Ed.
    { unfold rest. rewrite drop_drop. f_equal. lia. }
    rewrite (IH p q _ (app_at c x buf) d).
    + rewrite Ed, put_put, app_at_app by done. rewrite <- Er.
      assert (length rest = length buf + length (drop (length buf) rest))%nat as Ll
        by (rewrite Er at 1; apply length_app).
      rewrite Ll. f_equal. f_equal; [lia|]. f_equal. lia.
    + done.
    + done.
    + apply files_put.
    + by apply length_app_at.
    + lia.
    + unfold content. by rewrite files_put_ne.
    + rewrite Ed. fold rest in Hf. rewrite Er, length_app in Hf. simpl in Hf. simpl. lia.
Qed.

Section create.
Context (W : Z).
Hypothesis HW : 32 <= W.
Implicit Types (s : fs) (p q : string) (c d : list Z).

Lemma append_file_ok p q s c d x :
  p <> q -> quiet s -> files s !! p = Some c -> Z.of_nat (length c) <= x ->
  files s !! q = Some d -> (q ∉ locked s) ->
  otrx_create_append_file (mkFILE p x) q s =
    Ok (Z.of_nat (length d), mkFILE p (x + Z.of_nat (length d))) (put p (app_at c x d) s).
Proof.
  intros Hne Hq Hc Hx Hd Hl. unfold otrx_create_append_file, mbind, M_bind.
  rewrite (fopen_r_ok _ _ _ Hd Hl). unfold get. assert (content s q = d) as Ed by (unfold content; by rewrite Hd).
  rewrite Ed, (append_loop_ok _ p q s c d) by (done || (simpl; rewrite ?drop_0; lia)). simpl. by rewrite drop_0.
Qed.

Lemma append_zeros_ok p s c x n :
  quiet s -> files s !! p = Some c -> 0 <= n ->
  otrx_create_append_zeros (mkFILE p x) n s = Ok (n, mkFILE p (x + n)) (put p (app_at c x (zeros n)) s).
Proof.
  intros Hq Hc Hn. unfold otrx_create_append_zeros, mbind, M_bind. rewrite malloc_quiet by done.
  cbn [negb]. fold (zeros n). rewrite (fwrite_quiet _ _ _ c) by done. cbn [path pos].
  assert (Z.of_nat (length (zeros n)) = n) as -> by (unfold zeros; rewrite repeat_length; lia).
  by rewrite Z.eqb_refl.
Qed.

(** The zeros up to the next multiple of four. *)
Definition pad (n : Z) : Z := (- n) mod 4.

Lemma align_ok p s c x :
  quiet s -> files s !! p = Some c -> 0 <= x ->
  otrx_create_align (mkFILE p x) x 4 s = Ok (pad x, mkFILE p (x + pad x)) (put p (app_at c x (zeros (pad x))) s).
Proof.
  intros Hq Hc Hx. unfold otrx_create_align, pad. change (4 - 1) with (Z.ones 2).
  rewrite Z.land_ones by lia. change (2 ^ 2) with 4.
  destruct (Z.eqb_spec (x mod 4) 0) as [E|E]; cbn [negb].
  - replace ((- x) mod 4) with 0 by dlia. simpl. by rewrite Z.add_0_r, put_id.
  - replace (4 - x mod 4) with ((- x) mod 4) by dlia. apply append_zeros_ok; [done..|dlia].
Qed.

(** ** The image the options describe *)

(** The bytes after the header and the offsets of the partitions. *)
Definition layout_step (s : fs) (st : list Z * list Z) (o : opt) : list Z * list Z :=
  let '(data, offs) := st in
  let cur := 28 + Z.of_nat (length data) in
  match o with
  | Opt c a =>
      if Ascii.eqb c "f" then
        let d := content s a in
        (data ++ d ++ zeros (pad (cur + Z.of_nat (length d))), offs ++ [cur])
      else if Ascii.eqb c "b" then (data ++ zeros (strtol W 0 a - cur), offs)
      else st
  | Bad => st
  end.
Definition layout (s : fs) (st : list Z * list Z) (opts : list opt) : list Z * list Z :=
  fold_left (layout_step s) opts st.

(** Partition files can be read and are not the image itself; an offset does not wrap. *)
Definition opt_ok (s : fs) (p : string) (o : opt) : Prop :=
  match o with
  | Opt c a =>
      if Ascii.eqb c "f" then p <> a /\ is_Some (files s !! a) /\ (a ∉ locked s)
      else if Ascii.eqb c "b" then - 2 ^ (W - 1) + 2 ^ 31 <= strtol W 0 a
      else True
  | Bad => True
  end.

Lemma layout_grows s opts : forall st,
  (length st.1 <= length (layout s st opts).1)%nat /\ (length st.2 <= length (layout s st opts).2)%nat.
Proof.
  induction opts as [|o opts IH]; intros st; [simpl; lia|].
  destruct (IH (layout_step s st o)) as [H1 H2]. unfold layout in *. simpl.
  assert (length st.1 <= length (layout_step s st o).1 /\ length st.2 <= length (layout_step s st o).2)%nat; [|lia].
  destruct st as [data offs], o as [c a|]; [|simpl; lia]. simpl.
  destruct (Ascii.eqb c "f"); [simpl; rewrite !length_app; lia|].
  destruct (Ascii.eqb c "b"); simpl; rewrite ?length_app; lia.
Qed.

Definition image_at (p : string) (data offs : list Z) : image :=
  mkImage (mkFILE p (28 + Z.of_nat (length data))) (offs ++ repeat 0 (3 - length offs))
    (Z.of_nat (length offs)) (28 + Z.of_nat (length data)).

Abbreviation st_of p data s := (put p (app_at [] 28 data) s).

Lemma length_zeros n : 0 <= n -> Z.of_nat (length (zeros n)) = n.
Proof. intros H. unfold zeros. rewrite repeat_length. lia. Qed.

Lemma data_size data : Z.of_nat (length (app_at [] 28 data)) <= 28 + Z.of_nat (length data).
Proof. apply length_app_at. simpl. lia. Qed.

Lemma st_of_app p data xs s :
  put p (app_at (app_at [] 28 data) (28 + Z.of_nat (length data)) xs) (st_of p data s) = st_of p (data ++ xs) s.
Proof. by rewrite put_put, app_at_app by (simpl; lia). Qed.

Lemma create_pad_ok p data offs a s :
  quiet s -> 28 + Z.of_nat (length data) < 2 ^ 31 -> strtol W 0 a < 2 ^ 31 ->
  - 2 ^ (W - 1) + 2 ^ 31 <= strtol W 0 a ->
  create_pad W (image_at p data offs) a (st_of p data s) =
    Ok (image_at p (data ++ zeros (strtol W 0 a - (28 + Z.of_nat (length data)))) offs)
       (st_of p (data ++ zeros (strtol W 0 a - (28 + Z.of_nat (length data)))) s).
Proof.
  intros Hq Hd Hz1 Hz2. unfold create_pad. set (z := strtol W 0 a) in *. cbn [curr_offset image_at trx offsets curr_idx].
  set (cur := 28 + Z.of_nat (length data)) in *. pose proof (pow_W W HW) as (P1 & P2 & P3).
  assert (ssize W (usize W z - cur) = z - cur) as ->.
  { unfold ssize, usize.
    replace (z mod 2 ^ W - cur + 2 ^ (W - 1)) with (z mod 2 ^ W + (2 ^ (W - 1) - cur)) by lia.
    rewrite Zplus_mod_idemp_l, Z.mod_small; lia. }
  destruct (z - cur <? 0) eqn:E.
  - unfold zeros. replace (Z.to_nat (z - cur)) with 0%nat by lia. simpl. by rewrite app_nil_r.
  - unfold mbind, M_bind. unfold cur. rewrite (append_zeros_ok _ _ (app_at [] 28 data)); [|done|apply files_put|lia].
    rewrite st_of_app. fold cur. replace (z - cur <? 0) with false by lia.
    rewrite (usize_small W HW) by lia. unfold mret, M_ret, image_at. rewrite length_app, Nat2Z.inj_add, length_zeros by lia.
    by replace (28 + (Z.of_nat (length data) + (z - cur))) with (cur + (z - cur)) by lia.
Qed.

Lemma insert_offset offs x :
  (length offs < 3)%nat ->
  <[length offs := x]> (offs ++ repeat 0 (3 - length offs)) = (offs ++ [x]) ++ repeat 0 (3 - length (offs ++ [x])).
Proof.
  intros H. rewrite insert_app_r_alt, Nat.sub_diag, length_app by lia. simpl length.
  replace (3 - length offs)%nat with (S (3 - (length offs + 1))) by lia. simpl. by rewrite <- app_assoc.
Qed.

Lemma create_file_ok p data offs a d s :
  quiet s -> p <> a -> files s !! a = Some d -> (a ∉ locked s) -> (length offs < 3)%nat ->
  let cur := 28 + Z.of_nat (length data) in
  let data' := data ++ d ++ zeros (pad (cur + Z.of_nat (length d))) in
  28 + Z.of_nat (length data') < 2 ^ 31 ->
  create_file W (image_at p data offs) a (st_of p data s) =
    Ok (image_at p data' (offs ++ [cur])) (st_of p data' s).
Proof.
  intros Hq Hne Ha Hl Ho cur data' Hb. unfold data' in Hb. rewrite !length_app, !Nat2Z.inj_add in Hb.
  unfold create_file, mbind, M_bind. cbn [trx image_at offsets curr_idx curr_offset].
  rewrite (append_file_ok p a _ (app_at [] 28 data) d); [|done|done|apply files_put|apply data_size|by rewrite files_put_ne|done].
  rewrite st_of_app. replace (Z.of_nat (length d) <? 0) with false by lia. cbn [trx curr_offset offsets curr_idx].
  rewrite (usize_small W HW) by lia. fold cur.
  assert (cur + Z.of_nat (length d) = 28 + Z.of_nat (length (data ++ d))) as Ecur by (rewrite length_app; lia).
  unfold data'. clear data'. rewrite Ecur in *.
  rewrite (align_ok _ _ (app_at [] 28 (data ++ d))); [|done|apply files_put|lia]. rewrite st_of_app, <- app_assoc.
  set (n := pad (28 + Z.of_nat (length (data ++ d)))) in *. assert (0 <= n) as Hn by (unfold n, pad; dlia).
  pose proof (length_zeros n Hn) as Lz.
  replace (n <? 0) with false by lia. rewrite length_app in Ecur.
  assert (28 + Z.of_nat (length (data ++ d)) + n = 28 + Z.of_nat (length (data ++ d ++ zeros n))) as En
    by (rewrite !length_app, !Nat2Z.inj_add, length_zeros by done; lia).
  rewrite En. rewrite (usize_small W HW) by (rewrite <- En, length_app; lia).
  unfold mret, M_ret, image_at. rewrite Nat2Z.id, u32_small, insert_offset by lia.
  rewrite (length_app offs), Nat2Z.inj_add. done.
Qed.

Lemma create_loop_ok p s opts : forall data offs,
  quiet s -> Forall (opt_ok s p) opts ->
  28 + Z.of_nat (length (layout s (data, offs) opts).1) < 2 ^ 31 ->
  (length (layout s (data, offs) opts).2 <= 3)%nat ->
  create_loop W opts (image_at p data offs) (st_of p data s) =
    Ok (inl (image_at p (layout s (data, offs) opts).1 (layout s (data, offs) opts).2))
       (st_of p (layout s (data, offs) opts).1 s).
Proof.
  induction opts as [|o opts IH]; intros data offs Hq Ho Hd Hf; [done|].
  apply Forall_cons in Ho as [Ho Hos]. change (layout s (data, offs) (o :: opts))
    with (layout s (layout_step s (data, offs) o) opts) in *.
  destruct (layout_grows s opts (layout_step s (data, offs) o)) as [G1 G2].
  destruct o as [c a|]; [|apply IH; done]. cbn [create_loop]. simpl in Ho.
  destruct (layout_step s (data, offs) (Opt c a)) as [data' offs'] eqn:El. cbn [layout_step] in El.
  destruct (Ascii.eqb c "f").
  - injection El as <- <-. destruct Ho as (Hne & [d Ea] & Hl).
    assert (content s a = d) as Ec by (unfold content; by rewrite Ea). rewrite Ec in *.
    cbn [fst snd] in G1, G2. rewrite (length_app offs) in G2. simpl in G2. cbn [curr_idx image_at].
    destruct (_ >=? TRX_MAX_PARTS) eqn:E3; [unfold TRX_MAX_PARTS in E3; lia|].
    unfold mbind, M_bind. rewrite (create_file_ok p data offs a d s); [apply IH|..]; (done || lia).
  - destruct (Ascii.eqb c "b"); [|injection El as <- <-; apply IH; done].
    injection El as <- <-. unfold mbind, M_bind. cbn [fst] in G1. rewrite length_app in G1.
    set (z := strtol W 0 a) in *. set (cur := 28 + Z.of_nat (length data)) in *.
    assert (length (zeros (z - cur)) = Z.to_nat (z - cur)) as Lz by apply repeat_length.
    rewrite create_pad_ok; [apply IH|..]; try done; fold z; fold cur; lia.
Qed.

(** ** The image *)

Definition image_hdr (data offs : list Z) (crc : Z) : trx_header :=
  mkHdr TRX_MAGIC (28 + Z.of_nat (length data)) crc 0 1 (offs ++ repeat 0 (3 - length offs)).
Definition image_crc (data offs : list Z) : Z :=
  otrx_crc32 (drop 12 (hdr_bytes false (image_hdr data offs 0)) ++ data).
Definition trx_image (data offs : list Z) : list Z :=
  hdr_bytes false (image_hdr data offs (image_crc data offs)) ++ data.

Lemma hdr_over_data h data :
  length h = 28%nat -> app_at (app_at [] 28 data) 0 h = h ++ data.
Proof.
  intros Hh. unfold app_at at 1. destruct h as [|b h]; [done|]. set (bs := b :: h) in *.
  destruct data as [|x data]; [rewrite app_nil_r; by rewrite (write_at_end []) by (simpl; lia)|].
  unfold app_at. rewrite (write_at_end [] 28), app_nil_l by (simpl; lia). by apply write_at_start.
Qed.

Lemma hdr_over_hdr h h' data : length h = 28%nat -> length h' = 28%nat -> app_at (h ++ data) 0 h' = h' ++ data.
Proof. intros Hh Hh'. destruct h' as [|b h'']; [done|]. apply write_at_start. lia. Qed.

Lemma length_offs3 offs : (length offs <= 3)%nat -> length (offs ++ repeat 0 (3 - length offs)) = 3%nat.
Proof. intros H. rewrite length_app, repeat_length. lia. Qed.

Lemma write_hdr_ok p x data offs s :
  quiet s -> (length offs <= 3)%nat -> 28 + Z.of_nat (length data) < 2 ^ 31 ->
  otrx_create_write_hdr false (mkFILE p x)
    (mkHdr 0 (u32 (28 + Z.of_nat (length data))) 0 0 0 (offs ++ repeat 0 (3 - length offs))) (st_of p data s) =
    Ok 0 (put p (trx_image data offs) s).
Proof.
  intros Hq Ho Hd. unfold otrx_create_write_hdr. rewrite u32_small by lia.
  cbv zeta. lazymatch goal with |- context [fwrite _ (hdr_bytes false ?x)] => change x with (image_hdr data offs 0) end.
  set (h := image_hdr data offs 0). pose proof (length_offs3 _ Ho) as Lo.
  assert (length (hdr_bytes false h) = 28%nat) as Lh by (by apply length_hdr_bytes).
  rewrite !fseek_ok by lia. unfold mbind, M_bind.
  rewrite (fwrite_quiet (mkFILE p 0) _ _ (app_at [] 28 data)) by (done || apply files_put).
  cbn [path pos]. rewrite put_put, hdr_over_data, Lh by done. cbn [Z.eqb negb Z.of_nat sizeof_hdr]. 
  replace (Z.of_nat 28 =? sizeof_hdr) with true by done. cbn [negb]. rewrite malloc_quiet by done. cbn [negb].
  rewrite fseek_ok by lia. rewrite fread_eq. cbn [path pos]. rewrite content_put, drop_0.
  change (le32_to_cpu false (hdr_length h)) with (28 + Z.of_nat (length data)).
  rewrite take_ge by (rewrite length_app; lia). rewrite length_app, Lh, Nat2Z.inj_add, Z.eqb_refl. cbn [negb].
  replace (_ <? TRX_FLAGS_OFFSET) with false by (unfold TRX_FLAGS_OFFSET; lia).
  rewrite fseek_ok by lia. change (Z.to_nat TRX_FLAGS_OFFSET) with 12%nat.
  rewrite drop_app_le by lia.
  lazymatch goal with |- context [fwrite _ (hdr_bytes false ?x)] =>
    change x with (image_hdr data offs (image_crc data offs)) end.
  assert (length (hdr_bytes false (image_hdr data offs (image_crc data offs))) = 28%nat) as Lh' by (by apply length_hdr_bytes).
  rewrite (fwrite_quiet (mkFILE p 0) _ _ (hdr_bytes false h ++ data)) by (done || apply files_put).
  cbn [path pos]. rewrite put_put, hdr_over_hdr, Lh' by done. done.
Qed.

(** Creating an image with readable files writes the image the options describe. *)
Lemma trx_create_ok argv p opts s :
  argv !! 2%nat = Some p -> getopt ["f"; "b"]%char (drop 3 argv) = opts ->
  quiet s -> (p ∉ locked s) -> Forall (opt_ok s p) opts ->
  28 + Z.of_nat (length (layout s ([], []) opts).1) < 2 ^ 31 ->
  (length (layout s ([], []) opts).2 <= 3)%nat ->
  otrx_create false W argv s =
    Ok 0 (put p (trx_image (layout s ([], []) opts).1 (layout s ([], []) opts).2) s).
Proof.
  intros Ha Hopt Hq Hl Ho Hd Hf. unfold otrx_create. rewrite Ha, Hopt. unfold mbind, M_bind.
  rewrite fopen_w_ok by done. rewrite fseek_ok by (unfold sizeof_hdr; lia).
  change (mkImage _ _ _ _) with (image_at p [] []). change (put p [] s) with (st_of p [] s).
  rewrite (create_loop_ok p s opts [] []) by done. cbn [trx image_at curr_offset offsets].
  by rewrite write_hdr_ok.
Qed.

Lemma layout_offs s opts : forall st,
  Forall (fun o => 28 <= o <= 28 + Z.of_nat (length st.1)) st.2 ->
  Forall (fun o => 28 <= o <= 28 + Z.of_nat (length (layout s st opts).1)) (layout s st opts).2.
Proof.
  induction opts as [|o opts IH]; intros st H; [done|]. apply (IH (layout_step s st o)).
  destruct st as [data offs]. simpl in H. destruct o as [c a|]; [|done]. simpl.
  destruct (Ascii.eqb c "f"); [|destruct (Ascii.eqb c "b"); [|done]]; simpl; rewrite !length_app.
  - apply Forall_app; split; [|apply Forall_singleton; lia]. eapply Forall_impl; [exact H|]. simpl. lia.
  - eapply Forall_impl; [exact H|]. simpl. lia.
Qed.

Lemma image_hdr_ok data offs :
  (length offs <= 3)%nat -> 28 + Z.of_nat (length data) < 2 ^ 31 ->
  Forall (fun o => 28 <= o <= 28 + Z.of_nat (length data)) offs ->
  hdr_ok (image_hdr data offs (image_crc data offs)).
Proof.
  intros Ho Hd Hf. unfold hdr_ok, field. simpl. split_and!; try lia.
  - by vm_compute.
  - by vm_compute.
  - apply crc_fold_range. lia.
  - unfold image_crc. apply crc_fold_range. lia.
  - by apply length_offs3.
  - apply Forall_app; split; [eapply Forall_impl; [exact Hf|]; simpl; lia|].
    apply Forall_forall. intros x Hx. apply list_elem_of_In, repeat_spec in Hx. subst x. lia.
Qed.

(** The header read back. *)
Lemma image_header data offs post :
  (length offs <= 3)%nat -> 28 + Z.of_nat (length data) < 2 ^ 31 ->
  Forall (fun o => 28 <= o <= 28 + Z.of_nat (length data)) offs ->
  length (take 28 (trx_image data offs ++ post)) = 28%nat /\
  bytes_hdr false (take 28 (trx_image data offs ++ post)) = image_hdr data offs (image_crc data offs).
Proof.
  intros Ho Hd Hf. unfold trx_image.
  assert (length (hdr_bytes false (image_hdr data offs (image_crc data offs))) = 28%nat) as Lh
    by (by apply length_hdr_bytes, length_offs3).
  rewrite <- app_assoc, take_app_length' by done. split; [done|]. by apply bytes_hdr_bytes, image_hdr_ok.
Qed.

(** The image passes the check, whatever follows it. *)
Lemma image_check data offs post :
  (length offs <= 3)%nat -> 28 + Z.of_nat (length data) < 2 ^ 31 ->
  Forall (fun o => 28 <= o <= 28 + Z.of_nat (length data)) offs ->
  check_image false (trx_image data offs ++ post) = 0.
Proof.
  intros Ho Hd Hf. unfold check_image, trx_image. set (h := image_hdr data offs (image_crc data offs)).
  assert (length (hdr_bytes false h) = 28%nat) as Lh by (by apply length_hdr_bytes, length_offs3).
  rewrite <- app_assoc, take_app_length' by done.
  rewrite bytes_hdr_bytes by (by apply image_hdr_ok). rewrite Lh. cbn [negb].
  change (le32_to_cpu false (magic h) =? TRX_MAGIC) with true.
  change (le32_to_cpu false (hdr_length h)) with (28 + Z.of_nat (length data)).
  change (le32_to_cpu false (crc32 h)) with (image_crc data offs).
  replace (28 + Z.of_nat (length data) <? 28) with false by lia.
  replace (Z.of_nat (length (hdr_bytes false h ++ data ++ post)) <? 28 + Z.of_nat (length data)) with false
    by (symmetry; apply Z.ltb_ge; rewrite !length_app; lia).
  rewrite drop_app_le by lia. rewrite app_assoc.
  rewrite take_app_length' by (rewrite length_app, length_drop; lia).
  unfold h. change (image_hdr data offs (image_crc data offs))
    with ((image_hdr data offs 0) <| crc32 := image_crc data offs |>).
  rewrite drop_hdr_crc by (by apply length_offs3).
  fold (image_crc data offs). by rewrite (Z.eqb_refl (image_crc data offs)).
Qed.

(** * Extract *)

(** Where blocks that follow one another from [o] on start. *)
Fixpoint starts (o : Z) (blocks : list (list Z)) : list Z :=
  match blocks with [] => [] | b :: bs => o :: starts (o + Z.of_nat (length b)) bs end.

Lemma length_starts blocks : forall o, length (starts o blocks) = length blocks.
Proof. induction blocks as [|b bs IH]; intros o; [done|]. simpl. by rewrite IH. Qed.

Lemma starts_range blocks : forall o,
  Forall (fun x => o <= x <= o + Z.of_nat (length (concat blocks))) (starts o blocks).
Proof.
  induction blocks as [|b bs IH]; intros o; [constructor|]. simpl. rewrite length_app. constructor; [lia|].
  eapply Forall_impl; [apply IH|]. simpl. lia.
Qed.

Fixpoint puts (outs : list string) (blocks : list (list Z)) (s : fs) : fs :=
  match outs, blocks with
  | o :: outs, b :: bs => puts outs bs (put o b s)
  | _, _ => s
  end.

Lemma extract_copy_ok p x pre b post s out :
  quiet s -> p <> out -> (out ∉ locked s) -> content s p = pre ++ b ++ post ->
  Z.of_nat (length pre) < 2 ^ 31 ->
  exists f, otrx_extract_copy W (mkFILE p x) (Z.of_nat (length pre)) (Z.of_nat (length b)) out s =
    Ok (0, f) (put out b s) /\ path f = p.
Proof.
  intros Hq Hne Hl Hc Hp. unfold otrx_extract_copy, mbind, M_bind. rewrite fopen_w_ok, malloc_quiet by done.
  cbn [negb]. rewrite (ssize_small W HW) by lia. rewrite fseek_ok by lia. rewrite fread_eq. cbn [path pos].
  assert (content (put out [] s) p = pre ++ b ++ post) as ->
    by (unfold content; rewrite files_put_ne by congruence; exact Hc).
  rewrite !Nat2Z.id, drop_app_length, take_app_length, Z.eqb_refl. cbn [negb].
  rewrite (fwrite_quiet (mkFILE out 0) b _ []) by (done || apply files_put). cbn [path pos].
  rewrite Z.eqb_refl. cbn [negb]. eexists. split; [|by instantiate (1 := mkFILE p _)]. rewrite put_put.
  replace (app_at [] 0 b) with b; [done|]. destruct b; [done|]. unfold app_at.
  by rewrite write_at_end by (simpl; lia).
Qed.

(** The length of the partition that starts at [o]. *)
Lemma partition_length len o (b : list Z) (bs : list (list Z)) k :
  0 < o -> len = o + Z.of_nat (length b) + Z.of_nat (length (concat bs)) -> len < 2 ^ 31 ->
  match starts (o + Z.of_nat (length b)) bs ++ repeat 0 k with
  | [] => u32 (le32_to_cpu false len - le32_to_cpu false o)
  | o' :: _ => if o' =? 0 then u32 (le32_to_cpu false len - le32_to_cpu false o)
               else u32 (le32_to_cpu false o' - le32_to_cpu false o)
  end = Z.of_nat (length b).
Proof.
  intros Ho Hl Hb. cbn [le32_to_cpu]. destruct bs as [|b' bs].
  - simpl in Hl. destruct k; simpl; rewrite u32_small; lia.
  - simpl. replace (_ =? 0) with false by lia. rewrite u32_small; lia.
Qed.

Lemma extract_loop_ok p len k : forall blocks outs pre f s,
  quiet s -> path f = p -> length outs = length blocks ->
  Forall (fun o => p <> o /\ (o ∉ locked s)) outs ->
  content s p = pre ++ concat blocks -> len = Z.of_nat (length (content s p)) -> 0 < Z.of_nat (length pre) ->
  len < 2 ^ 31 ->
  extract_loop false W f 0 len ((Some <$> outs) ++ repeat None k)
    (starts (Z.of_nat (length pre)) blocks ++ repeat 0 k) s = Ok tt (puts outs blocks s).
Proof.
  induction blocks as [|b bs IH]; intros [|out outs] pre f s Hq Hf Hlen Ho Hc Hl Hpre Hb; simpl in Hlen; try lia.
  - simpl. clear. induction k as [|k IH]; [done|]. simpl. exact IH.
  - apply Forall_cons in Ho as [[Ho1 Ho2] Ho].
    assert (len = Z.of_nat (length pre) + Z.of_nat (length b) + Z.of_nat (length (concat bs))) as Hl'
      by (rewrite Hl, Hc; simpl; rewrite !length_app; lia).
    cbn [starts app fmap list_fmap extract_loop]. replace (Z.of_nat (length pre) =? 0) with false by lia.
    rewrite partition_length by lia. unfold mbind, M_bind. cbn [le32_to_cpu].
    rewrite (usize_small W HW), Z.add_0_l by lia. destruct f as [q x]. simpl in Hf. subst q.
    destruct (extract_copy_ok p x pre b (concat bs) s out) as (f' & -> & Hf'); [done..|lia|].
    assert (content (put out b s) p = content s p) as Ec
      by (unfold content; by rewrite files_put_ne by congruence).
    rewrite <- Nat2Z.inj_add, <- length_app. apply IH; try done; rewrite ?Ec; try done.
    + lia.
    + by rewrite Hc, <- app_assoc.
    + rewrite length_app. lia.
Qed.

(** ** Partition files *)

(** What a partition file becomes. *)
Definition block (d : list Z) : list Z := d ++ zeros (pad (Z.of_nat (length d))).

Lemma block_length d : Z.of_nat (length (block d)) mod 4 = 0.
Proof.
  unfold block, pad. rewrite length_app, Nat2Z.inj_add, length_zeros by dlia. dlia.
Qed.

Lemma layout_files s ins : forall data offs,
  Z.of_nat (length data) mod 4 = 0 ->
  layout s (data, offs) (Opt "f" <$> ins) =
    (data ++ concat (block ∘ content s <$> ins),
     offs ++ starts (28 + Z.of_nat (length data)) (block ∘ content s <$> ins)).
Proof.
  induction ins as [|a ins IH]; intros data offs Hd; [simpl; by rewrite !app_nil_r|].
  set (d := content s a).
  assert (layout_step s (data, offs) (Opt "f" a) = (data ++ block d, offs ++ [28 + Z.of_nat (length data)])) as E.
  { simpl. fold d. unfold block. do 4 f_equal. unfold pad. dlia. }
  change (layout s (data, offs) (Opt "f" <$> a :: ins))
    with (layout s (layout_step s (data, offs) (Opt "f" a)) (Opt "f" <$> ins)).
  rewrite E, IH.
  - cbn [fmap list_fmap concat starts compose]. fold d. rewrite length_app, <- !app_assoc, Nat2Z.inj_add, Z.add_assoc. done.
  - rewrite length_app, Nat2Z.inj_add. pose proof (block_length d). dlia.
Qed.

(** ** Arguments *)

(** The arguments of a command on the image [p]. *)
Definition args (cmd p : string) (l : list string) : list string := "otrx"%string :: cmd :: p :: l.
Definition create_args (ins : list string) : list string := concat ((fun a => ["-f"%string; a]) <$> ins).

Lemma getopt_files ins : getopt ["f"; "b"]%char (create_args ins) = Opt "f" <$> ins.
Proof.
  unfold create_args. induction ins as [|a ins IH]; [done|]. cbn [fmap list_fmap concat app].
  rewrite <- IH. reflexivity.
Qed.

Definition extract_args (outs : list string) : list string := concat (zip_with (fun o a => [o; a]) ["-1"; "-2"; "-3"]%string outs).

Lemma parse_extract outs :
  (length outs <= 3)%nat ->
  otrx_extract_parse_options W (extract_args outs) = (0, (Some <$> outs) ++ repeat None (3 - length outs)).
Proof. intros H. do 4 (destruct outs as [|? outs]; [done|]). simpl in H. lia. Qed.

Lemma extract_ok argv p outs blocks s :
  argv !! 2%nat = Some p ->
  otrx_extract_parse_options W (drop 3 argv) = (0, (Some <$> outs) ++ repeat None (3 - length outs)) ->
  quiet s -> (p ∉ locked s) -> length outs = length blocks -> (length blocks <= 3)%nat ->
  Forall (fun o => p <> o /\ (o ∉ locked s)) outs ->
  28 + Z.of_nat (length (concat blocks)) < 2 ^ 31 ->
  files s !! p = Some (trx_image (concat blocks) (starts 28 blocks)) ->
  otrx_extract false W argv s = Ok 0 (puts outs blocks s).
Proof.
  intros Ha Hopt Hq Hl Hlen Hn Ho Hd Hc. unfold otrx_extract. rewrite Ha, Hopt. unfold mbind, M_bind.
  rewrite (fopen_r_ok _ _ _ Hc Hl). rewrite (ssize_small W HW), fseek_ok by lia. rewrite fread_eq. cbn [path pos].
  assert (content s p = trx_image (concat blocks) (starts 28 blocks)) as Ec by (unfold content; by rewrite Hc).
  assert (length (starts 28 blocks) = length blocks) as Ls by apply length_starts.
  rewrite Ec, drop_0. change (Z.to_nat sizeof_hdr) with 28%nat.
  destruct (image_header (concat blocks) (starts 28 blocks) []) as [L1 L2];
    [lia | done | by apply starts_range |]. rewrite app_nil_r in L1, L2.
  rewrite L1, L2. cbn [negb Z.of_nat]. replace (Z.of_nat 28 =? sizeof_hdr) with true by done. cbn [negb].
  change (le32_to_cpu false (magic _) =? TRX_MAGIC) with true. cbn [negb].
  change (hdr_length _) with (28 + Z.of_nat (length (concat blocks))).
  change (offset _) with (starts 28 blocks ++ repeat 0 (3 - length (starts 28 blocks))).
  rewrite Ls, <- Hlen.
  set (pre := hdr_bytes false (image_hdr (concat blocks) (starts 28 blocks) (image_crc (concat blocks) (starts 28 blocks)))).
  assert (length pre = 28%nat) as Lp by (apply length_hdr_bytes, length_offs3; lia).
  assert (content s p = pre ++ concat blocks) as Ec' by done.
  assert (28 + Z.of_nat (length (concat blocks)) = Z.of_nat (length (content s p))) as El
    by (rewrite Ec', length_app; lia).
  pose proof (extract_loop_ok p _ (3 - length outs) blocks outs pre
    (mkFILE p (0 + Z.of_nat 28)) s Hq eq_refl Hlen Ho Ec' El ltac:(lia) Hd) as E.
  rewrite Lp in E. change (starts 28 blocks) with (starts (Z.of_nat 28) blocks). by rewrite E.
Qed.
End create.

(** * The commands *)

Lemma puts_other outs : forall blocks s q, (q ∉ outs) -> files (puts outs blocks s) !! q = files s !! q.
Proof.
  induction outs as [|o outs IH]; intros [|b bs] s q Hq; [done..|]. apply not_elem_of_cons in Hq as [H1 H2].
  simpl. rewrite IH by done. by apply files_put_ne.
Qed.

Lemma puts_lookup outs : forall blocks s i o b,
  NoDup outs -> outs !! i = Some o -> blocks !! i = Some b -> files (puts outs blocks s) !! o = Some b.
Proof.
  induction outs as [|o' outs IH]; intros [|b' bs] s [|i] o b Hn Ho Hb; try done;
    apply NoDup_cons in Hn as [H1 H2]; simpl in *.
  - injection Ho as ->. injection Hb as ->. rewrite puts_other by done. apply files_put.
  - by eapply IH.
Qed.

(** C25: On a little-endian machine where no file operation fails, creating a TRX image of less than 2^31
    bytes from up to three partition files, checking it and
    extracting its partitions again all succeed, and every extracted file holds its partition
    file, padded with zeros to a multiple of four bytes; no other file is touched.  (On a big-endian machine no image that is created passes the
    check: [otrx_silent].) *)
Theorem otrx_roundtrip W s p ins outs :
  32 <= W -> quiet s -> (p ∉ locked s) -> (length ins <= 3)%nat -> length outs = length ins -> NoDup outs ->
  Forall (fun a => p <> a /\ is_Some (files s !! a) /\ (a ∉ locked s)) ins ->
  Forall (fun o => p <> o /\ (o ∉ locked s)) outs ->
  28 + Z.of_nat (length (concat (block ∘ content s <$> ins))) < 2 ^ 31 ->
  exists s1 s2,
    main false W (args "create" p (create_args ins)) s = Ok 0 s1 /\
    main false W (args "check" p []) s1 = Ok 0 s1 /\
    main false W (args "extract" p (extract_args outs)) s1 = Ok 0 s2 /\
    (forall i a o, ins !! i = Some a -> outs !! i = Some o -> files s2 !! o = Some (block (content s a))) /\
    (forall q, q <> p -> (q ∉ outs) -> files s2 !! q = files s !! q).
Proof.
  intros HW Hq Hl Hn Hlen Hnd Hins Houts Hsz.
  set (blocks := block ∘ content s <$> ins) in *.
  assert (length blocks = length ins) as Lb by apply length_fmap.
  pose proof (layout_files W s ins [] [] eq_refl) as Elay. simpl in Elay. fold blocks in Elay.
  set (s1 := put p (trx_image (concat blocks) (starts 28 blocks)) s).
  exists s1, (puts outs blocks s1). split_and!.
  - change (main false W _) with (otrx_create false W (args "create" p (create_args ins))).
    rewrite (trx_create_ok W HW _ p (Opt "f" <$> ins)); [by rewrite Elay|done|apply getopt_files|done|done|..];
      rewrite ?Elay; try done.
    + apply Forall_fmap. eapply Forall_impl; [exact Hins|]. done.
    + simpl. rewrite length_starts. lia.
  - change (main false W _) with (otrx_check false W (args "check" p [])).
    rewrite (trx_check_ok false W HW _ p 0 s1 (trx_image (concat blocks) (starts 28 blocks))); [|done..|apply files_put].
    simpl Z.to_nat. rewrite drop_0. rewrite <- (app_nil_r (trx_image _ _)).
    rewrite image_check; [done|rewrite length_starts; lia|done|apply starts_range].
  - change (main false W _) with (otrx_extract false W (args "extract" p (extract_args outs))).
    apply (extract_ok W HW _ p); try done; [|lia..|apply files_put].
    simpl drop. apply parse_extract. lia.
  - intros i a o Hi Ho. apply (puts_lookup _ _ _ i); [done..|]. unfold blocks. by rewrite list_lookup_fmap, Hi.
  - intros q H1 H2. rewrite puts_other by done. by apply files_put_ne.
Qed.

(** A number that was printed is read back. *)
Lemma atoi_print W n : 32 <= W -> 0 <= n < 2 ^ 31 -> atoi W (CString.print_u n) = n.
Proof.
  intros HW Hn. unfold atoi, strtol, CString.print_u.
  destruct (CString.decimal_head 19 n "" ltac:(lia)) as (d & t & Hd & E).
  destruct (CString.numeral_spec d Hd) as (_ & S1 & S2 & S3 & _).
  destruct (CString.digits_decimal 19 n "" ltac:(lia)) as [j Ej]. rewrite E in Ej. rewrite E.
  cbn [CString.skip_space]. rewrite S1. cbn [CString.sign]. rewrite S2, S3.
  change (10 =? 0) with false. cbv iota. rewrite Ej. cbn [CString.digits].
  pose proof (pow_W W HW) as (_ & P & _). rewrite Z.min_l by lia. apply s32_small. lia.
Qed.

(** [otrx check] decides: for every file and every offset the exit status is
    the one of [check_image], which accepts an image with the right magic number, a length of at
    least a header and at most the bytes there are, and the CRC-32 of the bytes from the flags
    on; the file system does not change. *)
Theorem otrx_check_decides big W s p off c :
  32 <= W -> 0 <= off < 2 ^ 31 - 12 -> (p ∉ locked s) -> files s !! p = Some c ->
  main big W (args "check" p ["-o"%string; CString.print_u off]) s =
    Ok (check_image big (drop (Z.to_nat off) c)) s.
Proof.
  intros HW Hoff Hl Hc.
  change (main big W _) with (otrx_check big W (args "check" p ["-o"%string; CString.print_u off])).
  apply (trx_check_ok big W HW _ p); try done.
  change (drop 3 _) with ["-o"%string; CString.print_u off].
  change (otrx_check_parse_options W _) with (usize W (atoi W (CString.print_u off))).
  rewrite atoi_print by lia. apply usize_small; lia.
Qed.

(** The first fields of the header are read from its first 12 bytes. *)
Lemma first_fields big b i y :
  (12 <= i)%nat ->
  magic (bytes_hdr big (take 28 (<[i := y]> b))) = magic (bytes_hdr big (take 28 b)) /\
  hdr_length (bytes_hdr big (take 28 (<[i := y]> b))) = hdr_length (bytes_hdr big (take 28 b)) /\
  crc32 (bytes_hdr big (take 28 (<[i := y]> b))) = crc32 (bytes_hdr big (take 28 b)).
Proof.
  intros Hi. assert (forall k (l : list Z), (k <= 8)%nat -> take 4 (drop k (take 28 l)) = take 4 (drop k (take 12 l))) as E.
  { intros k l Hk. rewrite !take_drop_commute, !take_take. do 2 f_equal. lia. }
  unfold bytes_hdr. simpl. rewrite !E by lia. by rewrite take_insert_ge by lia.
Qed.

(** A damaged byte is found: when a file passes the check, the same file with any
    one byte of the checked range (from the flags to the end of the image) changed fails it
    with -EINVAL. *)
Theorem otrx_check_detects big W s p c i x y :
  32 <= W -> (p ∉ locked s) -> files s !! p = Some c -> main big W (args "check" p []) s = Ok 0 s ->
  (12 <= i)%nat -> Z.of_nat i < le32_to_cpu big (hdr_length (bytes_hdr big (take 28 c))) ->
  c !! i = Some x -> 0 <= x < 256 -> 0 <= y < 256 -> x <> y ->
  main big W (args "check" p []) (put p (<[i := y]> c) s) = Ok (- EINVAL) (put p (<[i := y]> c) s).
Proof.
  intros HW Hl Hc Hok Hi Hil Hx Bx By Hne.
  assert (forall s' c', (p ∉ locked s') -> files s' !! p = Some c' ->
    main big W (args "check" p []) s' = Ok (check_image big c') s') as Hm.
  { intros s' c' H1 H2. change (main big W _) with (otrx_check big W (args "check" p [])).
    by rewrite (trx_check_ok big W HW _ p 0 s' c'). }
  rewrite (Hm s c Hl Hc) in Hok. injection Hok as Hok.
  rewrite (Hm _ (<[i := y]> c)); [|done|apply files_put]. f_equal.
  destruct (first_fields big c i y Hi) as (F1 & F2 & F3).
  unfold check_image in *. rewrite F1, F2, F3, !length_take, !length_insert in *.
  set (len := le32_to_cpu big (hdr_length _)) in *.
  destruct (negb (_ =? 28)); [done|]. destruct (negb (_ =? TRX_MAGIC)); [done|].
  destruct (len <? 28); [done|]. destruct (_ <? len); [done|].
  destruct (Z.eqb_spec (otrx_crc32 (take (Z.to_nat (len - 12)) (drop 12 c)))
    (le32_to_cpu big (crc32 (bytes_hdr big (take 28 c))))) as [Ecrc|]; [|done]. rewrite <- Ecrc.
  destruct (Z.eqb_spec (otrx_crc32 (take (Z.to_nat (len - 12)) (drop 12 (<[i := y]> c))))
    (otrx_crc32 (take (Z.to_nat (len - 12)) (drop 12 c)))) as [E|]; [|done]. exfalso.
  rewrite drop_insert_ge, take_insert_lt in E by lia.
  set (t := take (Z.to_nat (len - 12)) (drop 12 c)) in *.
  assert (t !! (i - 12)%nat = Some x) as Et.
  { unfold t. rewrite lookup_take_lt, lookup_drop by lia. by replace (12 + (i - 12))%nat with i by lia. }
  pose proof (lookup_lt_Some _ _ _ Et) as Lt. rewrite insert_take_drop in E by done.
  rewrite <- (take_drop_middle t (i - 12) x Et) in E at 3.
  by apply crc_one_byte in E.
Qed.

(** * Failures that are not reported *)

Definition ex_fs (faults : list (option Z)) : fs :=
  mkFs {["a"%string := [1; 2; 3; 4; 5]]} ∅ faults.

(** Run the commands in turn; the exit statuses and the files. *)
Definition session (big : bool) (cmds : list (list string)) (s : fs) : list Z * fs :=
  fold_left (fun st cmd => match main big 32 cmd st.2 with
                           | Ok r s => (st.1 ++ [r], s)
                           | _ => (st.1, st.2)
                           end) cmds ([], s).

(** [otrx create] and [otrx extract] report success whatever happens to partitions
    and header: a partition file that cannot be read is left out (the next one takes its
    place), a header that could not be written leaves an image that fails the check, and an
    extraction that could not write its output exits with 0; on a big-endian machine no image
    that is created can be checked. *)
Theorem otrx_silent :
  (let '(r, s) := session false [args "create" "t" (create_args ["missing"; "a"]);
                                 args "check" "t" []; args "extract" "t" (extract_args ["x"])]%string (ex_fs []) in
   r = [0; 0; 0] /\ content s "x"%string = [1; 2; 3; 4; 5; 0; 0; 0]) /\
  (session false [args "create" "t" (create_args ["a"]); args "check" "t" []]%string
     (ex_fs [None; None; None; Some 0])).1 = [0; - EINVAL] /\
  (let '(r, s) := session false [args "create" "t" (create_args ["a"]);
                                 args "extract" "t" (extract_args ["x"])]%string
                    (ex_fs (repeat None 6 ++ [None; Some 2])) in
   r = [0; 0] /\ content s "x"%string = [1; 2]) /\
  (session true [args "create" "t" (create_args ["a"]); args "check" "t" []]%string (ex_fs [])).1 = [0; - EIO].
Proof. vm_compute. done. Qed.

Section witnesses.
Open Scope string_scope.
Open Scope list_scope.
Open Scope Z_scope.

Lemma otrx_roundtrip_witness :
  exists s1 s2,
    main false 32 (args "create" "t" (create_args ["a"; "a"])) (ex_fs []) = Ok 0 s1 /\
    main false 32 (args "check" "t" []) s1 = Ok 0 s1 /\
    main false 32 (args "extract" "t" (extract_args ["x"; "y"])) s1 = Ok 0 s2 /\
    (forall i a o, ["a"; "a"] !! i = Some a -> ["x"; "y"] !! i = Some o ->
       files s2 !! o = Some (block (content (ex_fs []) a))) /\
    (forall q, q <> "t" -> (q ∉ ["x"; "y"]) -> files s2 !! q = files (ex_fs []) !! q).
Proof.
  apply (otrx_roundtrip 32 (ex_fs []) "t" ["a"; "a"] ["x"; "y"]); try done; try (simpl; lia).
  - apply (bool_decide_unpack _). by vm_compute.
  - repeat constructor; done.
  - repeat constructor; done.
Defined.

(** A created image, to be checked. *)
Definition ex_image : list Z := trx_image [1; 2; 3; 4; 5; 0; 0; 0] [28].
Definition ex_trx : fs := mkFs {["t" := ex_image]} ∅ [].

Lemma otrx_check_decides_witness :
  main false 32 (args "check" "t" ["-o"; CString.print_u 1]) ex_trx =
    Ok (check_image false (drop 1 ex_image)) ex_trx.
Proof. apply (otrx_check_decides false 32 ex_trx "t" 1 ex_image); try done; lia. Defined.

Lemma otrx_check_detects_witness :
  main false 32 (args "check" "t" []) (put "t" (<[30%nat := 7]> ex_image) ex_trx) =
    Ok (- EINVAL) (put "t" (<[30%nat := 7]> ex_image) ex_trx).
Proof.
  apply (otrx_check_detects false 32 ex_trx "t" ex_image 30 3 7); try done; try lia; vm_compute; done.
Defined.
End witnesses.

End OtrxSpec.
