(* ===== verification/Md5.v ===== *)
(** The MD5 of the Seama image tool, [utils/oseama/src/md5.c], in the portable variant
    that gathers the words of a block byte by byte. *)

From Stdlib Require Import ZArith Lia.
From stdpp Require Import base list list_numbers numbers.
From S2P Require Import Prelude.

Open Scope Z_scope.

Module Md5.

(** * Data *)

Record MD5_CTX := mkCtx {
  lo : Z; hi : Z;
  a : Z; b : Z; c : Z; d : Z;
  buffer : list Z;
  block : list Z
}.
#[export] Instance eta_ctx : Eta MD5_CTX := fun x =>
  mkCtx (lo x) (hi x) (a x) (b x) (c x) (d x) (buffer x) (block x).

(** * The basic functions *)

(** [~z] of an unsigned 32-bit word. *)
Definition not32 (z : Z) : Z := 2 ^ 32 - 1 - z.

Definition F (x y z : Z) : Z := Z.lxor z (Z.land x (Z.lxor y z)).
Definition G (x y z : Z) : Z := Z.lxor y (Z.land z (Z.lxor x y)).
Definition H (x y z : Z) : Z := Z.lxor (Z.lxor x y) z.
Definition H2 (x y z : Z) : Z := Z.lxor x (Z.lxor y z).
Definition I (x y z : Z) : Z := Z.lxor y (Z.lor x (not32 z)).

(** * The transformation *)

(** A line of [body]: the function, the four variables it is applied to, the word of the
    block ([SET] also stores it), the constant and the rotation. *)
Inductive fn := fF | fG | fH | fH2 | fI.
Inductive reg := Ra | Rb | Rc | Rd.
Inductive operand := SET (n : nat) | GET (n : nat).
Inductive line := STEP (f : fn) (a b c d : reg) (x : operand) (t s : Z).

Definition apply_fn (f : fn) : Z -> Z -> Z -> Z :=
  match f with fF => F | fG => G | fH => H | fH2 => H2 | fI => I end.

(** The local variables. *)
Record regs := mkRegs { va : Z; vb : Z; vc : Z; vd : Z }.
Definition get_reg (r : reg) (v : regs) : Z :=
  match r with Ra => va v | Rb => vb v | Rc => vc v | Rd => vd v end.
Definition set_reg (r : reg) (x : Z) (v : regs) : regs :=
  match r with
  | Ra => mkRegs x (vb v) (vc v) (vd v) | Rb => mkRegs (va v) x (vc v) (vd v)
  | Rc => mkRegs (va v) (vb v) x (vd v) | Rd => mkRegs (va v) (vb v) (vc v) x
  end.

(** The word [n] of the data at [ptr], little-endian. *)
Definition word (ptr : list Z) (n : nat) : Z :=
  let byte k := nth (n * 4 + k) ptr 0 in
  Z.lor (Z.lor (Z.lor (byte 0%nat) (Z.shiftl (byte 1%nat) 8)) (Z.shiftl (byte 2%nat) 16))
    (Z.shiftl (byte 3%nat) 24).

Definition fetch (ptr blk : list Z) (x : operand) : Z * list Z :=
  match x with
  | SET n => (word ptr n, <[n := word ptr n]> blk)
  | GET n => (nth n blk 0, blk)
  end.

Definition rotate (x s : Z) : Z := Z.lor (u32 (Z.shiftl x s)) (Z.shiftr x (32 - s)).

Definition step (ptr : list Z) (st : regs * list Z) (l : line) : regs * list Z :=
  let '(v, blk) := st in
  let '(STEP f ra rb rc rd op t s) := l in
  let '(x, blk) := fetch ptr blk op in
  let y := u32 (get_reg ra v + (apply_fn f (get_reg rb v) (get_reg rc v) (get_reg rd v) + x + t)) in
  (set_reg ra (u32 (rotate y s + get_reg rb v)) v, blk).

Definition steps : list line :=
  [STEP fF Ra Rb Rc Rd (SET 0) 0xd76aa478 7;
   STEP fF Rd Ra Rb Rc (SET 1) 0xe8c7b756 12;
   STEP fF Rc Rd Ra Rb (SET 2) 0x242070db 17;
   STEP fF Rb Rc Rd Ra (SET 3) 0xc1bdceee 22;
   STEP fF Ra Rb Rc Rd (SET 4) 0xf57c0faf 7;
   STEP fF Rd Ra Rb Rc (SET 5) 0x4787c62a 12;
   STEP fF Rc Rd Ra Rb (SET 6) 0xa8304613 17;
   STEP fF Rb Rc Rd Ra (SET 7) 0xfd469501 22;
   STEP fF Ra Rb Rc Rd (SET 8) 0x698098d8 7;
   STEP fF Rd Ra Rb Rc (SET 9) 0x8b44f7af 12;
   STEP fF Rc Rd Ra Rb (SET 10) 0xffff5bb1 17;
   STEP fF Rb Rc Rd Ra (SET 11) 0x895cd7be 22;
   STEP fF Ra Rb Rc Rd (SET 12) 0x6b901122 7;
   STEP fF Rd Ra Rb Rc (SET 13) 0xfd987193 12;
   STEP fF Rc Rd Ra Rb (SET 14) 0xa679438e 17;
   STEP fF Rb Rc Rd Ra (SET 15) 0x49b40821 22;
   STEP fG Ra Rb Rc Rd (GET 1) 0xf61e2562 5;
   STEP fG Rd Ra Rb Rc (GET 6) 0xc040b340 9;
   STEP fG Rc Rd Ra Rb (GET 11) 0x265e5a51 14;
   STEP fG Rb Rc Rd Ra (GET 0) 0xe9b6c7aa 20;
   STEP fG Ra Rb Rc Rd (GET 5) 0xd62f105d 5;
   STEP fG Rd Ra Rb Rc (GET 10) 0x02441453 9;
   STEP fG Rc Rd Ra Rb (GET 15) 0xd8a1e681 14;
   STEP fG Rb Rc Rd Ra (GET 4) 0xe7d3fbc8 20;
   STEP fG Ra Rb Rc Rd (GET 9) 0x21e1cde6 5;
   STEP fG Rd Ra Rb Rc (GET 14) 0xc33707d6 9;
   STEP fG Rc Rd Ra Rb (GET 3) 0xf4d50d87 14;
   STEP fG Rb Rc Rd Ra (GET 8) 0x455a14ed 20;
   STEP fG Ra Rb Rc Rd (GET 13) 0xa9e3e905 5;
   STEP fG Rd Ra Rb Rc (GET 2) 0xfcefa3f8 9;
   STEP fG Rc Rd Ra Rb (GET 7) 0x676f02d9 14;
   STEP fG Rb Rc Rd Ra (GET 12) 0x8d2a4c8a 20;
   STEP fH Ra Rb Rc Rd (GET 5) 0xfffa3942 4;
   STEP fH2 Rd Ra Rb Rc (GET 8) 0x8771f681 11;
   STEP fH Rc Rd Ra Rb (GET 11) 0x6d9d6122 16;
   STEP fH2 Rb Rc Rd Ra (GET 14) 0xfde5380c 23;
   STEP fH Ra Rb Rc Rd (GET 1) 0xa4beea44 4;
   STEP fH2 Rd Ra Rb Rc (GET 4) 0x4bdecfa9 11;
   STEP fH Rc Rd Ra Rb (GET 7) 0xf6bb4b60 16;
   STEP fH2 Rb Rc Rd Ra (GET 10) 0xbebfbc70 23;
   STEP fH Ra Rb Rc Rd (GET 13) 0x289b7ec6 4;
   STEP fH2 Rd Ra Rb Rc (GET 0) 0xeaa127fa 11;
   STEP fH Rc Rd Ra Rb (GET 3) 0xd4ef3085 16;
   STEP fH2 Rb Rc Rd Ra (GET 6) 0x04881d05 23;
   STEP fH Ra Rb Rc Rd (GET 9) 0xd9d4d039 4;
   STEP fH2 Rd Ra Rb Rc (GET 12) 0xe6db99e5 11;
   STEP fH Rc Rd Ra Rb (GET 15) 0x1fa27cf8 16;
   STEP fH2 Rb Rc Rd Ra (GET 2) 0xc4ac5665 23;
   STEP fI Ra Rb Rc Rd (GET 0) 0xf4292244 6;
   STEP fI Rd Ra Rb Rc (GET 7) 0x432aff97 10;
   STEP fI Rc Rd Ra Rb (GET 14) 0xab9423a7 15;
   STEP fI Rb Rc Rd Ra (GET 5) 0xfc93a039 21;
   STEP fI Ra Rb Rc Rd (GET 12) 0x655b59c3 6;
   STEP fI Rd Ra Rb Rc (GET 3) 0x8f0ccc92 10;
   STEP fI Rc Rd Ra Rb (GET 10) 0xffeff47d 15;
   STEP fI Rb Rc Rd Ra (GET 1) 0x85845dd1 21;
   STEP fI Ra Rb Rc Rd (GET 8) 0x6fa87e4f 6;
   STEP fI Rd Ra Rb Rc (GET 15) 0xfe2ce6e0 10;
   STEP fI Rc Rd Ra Rb (GET 6) 0xa3014314 15;
   STEP fI Rb Rc Rd Ra (GET 13) 0x4e0811a1 21;
   STEP fI Ra Rb Rc Rd (GET 4) 0xf7537e82 6;
   STEP fI Rd Ra Rb Rc (GET 11) 0xbd3af235 10;
   STEP fI Rc Rd Ra Rb (GET 2) 0x2ad7d2bb 15;
   STEP fI Rb Rc Rd Ra (GET 9) 0xeb86d391 21].

(** One round of the loop of [body]. *)
Definition body_block (ctx : MD5_CTX) (ptr : list Z) : MD5_CTX :=
  let '(v, blk) := fold_left (step ptr) steps (mkRegs (a ctx) (b ctx) (c ctx) (d ctx), block ctx) in
  ctx <| a := u32 (va v + a ctx) |> <| b := u32 (vb v + b ctx) |> <| c := u32 (vc v + c ctx) |>
      <| d := u32 (vd v + d ctx) |> <| block := blk |>.

(** [body] on [n] blocks; the data behind them is what the returned pointer is at. *)
Fixpoint body (n : nat) (ctx : MD5_CTX) (data : list Z) : MD5_CTX * list Z :=
  match n with
  | O => (ctx, data)
  | S n => body n (body_block ctx (take 64 data)) (drop 64 data)
  end.

(** * Interface *)

Definition MD5_Init (ctx : MD5_CTX) : MD5_CTX :=
  ctx <| a := 0x67452301 |> <| b := 0xefcdab89 |> <| c := 0x98badcfe |> <| d := 0x10325476 |>
      <| lo := 0 |> <| hi := 0 |>.

(** [memcpy(&buffer[used], data, size)] *)
Definition store (used : nat) (data : list Z) (buf : list Z) : list Z :=
  take used buf ++ data ++ drop (used + length data) buf.

(** The byte counters: 29 bits in [lo], the rest in [hi]. *)
Definition count (ctx : MD5_CTX) (size : Z) : MD5_CTX :=
  let saved_lo := lo ctx in
  let ctx := ctx <| lo := Z.land (saved_lo + size) 0x1fffffff |> in
  let ctx := if lo ctx <? saved_lo then ctx <| hi ::= fun h => u32 (h + 1) |> else ctx in
  ctx <| hi ::= fun h => u32 (h + Z.shiftr size 29) |>.

(** Whole blocks from the data, and the rest into the buffer. *)
Definition update_tail (ctx : MD5_CTX) (data : list Z) : MD5_CTX :=
  let '(ctx, data) :=
    if (64 <=? length data)%nat then body (length data / 64) ctx data else (ctx, data) in
  ctx <| buffer ::= store 0 data |>.

Definition MD5_Update (ctx : MD5_CTX) (data : list Z) : MD5_CTX :=
  let used := Z.to_nat (Z.land (lo ctx) 0x3f) in
  let ctx := count ctx (Z.of_nat (length data)) in
  if (used =? 0)%nat then update_tail ctx data
  else
    let available := (64 - used)%nat in
    if (length data <? available)%nat then ctx <| buffer ::= store used data |>
    else
      let ctx := ctx <| buffer ::= store used (take available data) |> in
      let '(ctx, _) := body 1 ctx (buffer ctx) in
      update_tail ctx (drop available data).

(** The four bytes of a word. *)
Definition bytes4 (x : Z) : list Z :=
  [u8 x; u8 (Z.shiftr x 8); u8 (Z.shiftr x 16); u8 (Z.shiftr x 24)].

(** The result; the context is cleared. *)
Definition MD5_Final (ctx : MD5_CTX) : list Z :=
  let used := Z.to_nat (Z.land (lo ctx) 0x3f) in
  let ctx := ctx <| buffer ::= <[used := 0x80]> |> in
  let used := S used in
  let available := (64 - used)%nat in
  let '(ctx, used, available) :=
    if (available <? 8)%nat then
      let ctx := ctx <| buffer ::= store used (repeat 0 available) |> in
      let '(ctx, _) := body 1 ctx (buffer ctx) in (ctx, 0%nat, 64%nat)
    else (ctx, used, available) in
  let ctx := ctx <| buffer ::= store used (repeat 0 (available - 8)) |> in
  let ctx := ctx <| lo := u32 (Z.shiftl (lo ctx) 3) |> in
  let ctx := ctx <| buffer ::= store 56 (bytes4 (lo ctx) ++ bytes4 (hi ctx)) |> in
  let '(ctx, _) := body 1 ctx (buffer ctx) in
  bytes4 (a ctx) ++ bytes4 (b ctx) ++ bytes4 (c ctx) ++ bytes4 (d ctx).

End Md5.
