(* ===== verification/Md5Spec.v ===== *)
(** The MD5 of the Seama tool against RFC 1321: for any way to cut a message into
    pieces, [MD5_Init], [MD5_Update] and [MD5_Final] give the digest of the message. *)

From Stdlib Require Import ZArith Lia Btauto.
From stdpp Require Import base list list_numbers numbers.
From S2P Require Import Prelude Md5.

Open Scope Z_scope.

Module Md5Spec.
Import Md5.

(** * RFC 1321 *)

Definition rfc_F (x y z : Z) : Z := Z.lor (Z.land x y) (Z.land (not32 x) z).
Definition rfc_G (x y z : Z) : Z := Z.lor (Z.land x z) (Z.land y (not32 z)).
Definition rfc_H (x y z : Z) : Z := Z.lxor (Z.lxor x y) z.
Definition rfc_I (x y z : Z) : Z := Z.lxor y (Z.lor x (not32 z)).

(** The sine of an integer in units of 2^-200, by its power series. *)
Fixpoint sine (terms : nat) (k term x : Z) : Z :=
  match terms with
  | O => 0
  | S n => term + sine n (k + 2) (- (term * x * x) / ((k + 1) * (k + 2))) x
  end.
(** [T[i+1]], the integer part of 2^32 times the absolute value of the sine of [i+1]. *)
Definition rfc_T (i : Z) : Z :=
  Z.abs (sine 120 1 ((i + 1) * 2 ^ 200) (i + 1)) / 2 ^ 168.

(** The function, the word and the rotation of step [i]. *)
Definition rfc_f (i : Z) : Z -> Z -> Z -> Z :=
  if i <? 16 then rfc_F else if i <? 32 then rfc_G else if i <? 48 then rfc_H else rfc_I.
Definition rfc_k (i : Z) : Z :=
  if i <? 16 then i else if i <? 32 then (5 * i + 1) mod 16
  else if i <? 48 then (3 * i + 5) mod 16 else 7 * i mod 16.
Definition rfc_s (i : Z) : Z :=
  nth (Z.to_nat (i mod 4))
    (if i <? 16 then [7; 12; 17; 22] else if i <? 32 then [5; 9; 14; 20]
     else if i <? 48 then [4; 11; 16; 23] else [6; 10; 15; 21]) 0.

Definition rfc_word (block : list Z) (n : nat) : Z :=
  nth (n * 4) block 0 + 2 ^ 8 * nth (n * 4 + 1) block 0 + 2 ^ 16 * nth (n * 4 + 2) block 0 +
  2 ^ 24 * nth (n * 4 + 3) block 0.

Definition state : Type := Z * Z * Z * Z.

Definition rfc_step (block : list Z) (st : state) (i : Z) : state :=
  let '(a, b, c, d) := st in
  let x := u32 (a + rfc_f i b c d + rfc_word block (Z.to_nat (rfc_k i)) + rfc_T i) in
  let s := rfc_s i in
  (d, u32 (b + (u32 (x * 2 ^ s) + x / 2 ^ (32 - s))), b, c).

Definition rfc_block (st : state) (block : list Z) : state :=
  let '(a, b, c, d) := st in
  let '(a', b', c', d') := fold_left (rfc_step block) (seqZ 0 64) st in
  (u32 (a' + a), u32 (b' + b), u32 (c' + c), u32 (d' + d)).

Fixpoint rfc_blocks (n : nat) (st : state) (m : list Z) : state :=
  match n with O => st | S n => rfc_blocks n (rfc_block st (take 64 m)) (drop 64 m) end.

(** The little-endian bytes of a number. *)
Fixpoint le_bytes (n : nat) (x : Z) : list Z :=
  match n with O => [] | S n => x mod 256 :: le_bytes n (x / 256) end.

Definition rfc_pad (m : list Z) : list Z :=
  m ++ [0x80] ++ repeat 0 (Z.to_nat ((55 - Z.of_nat (length m)) mod 64)) ++
  le_bytes 8 (8 * Z.of_nat (length m)).

Definition rfc_init : state := (0x67452301, 0xefcdab89, 0x98badcfe, 0x10325476).

Definition rfc_md5 (m : list Z) : list Z :=
  let '(a, b, c, d) := rfc_blocks (length (rfc_pad m) / 64) rfc_init (rfc_pad m) in
  le_bytes 4 a ++ le_bytes 4 b ++ le_bytes 4 c ++ le_bytes 4 d.

(** * The basic functions *)

Definition w32 (x : Z) : Prop := 0 <= x < 2 ^ 32.

Lemma w32_u32 x : w32 (u32 x).
Proof. pose proof (u32_range x). unfold w32. lia. Qed.

Lemma w32_high x n : w32 x -> 32 <= n -> Z.testbit x n = false.
Proof.
  intros Hx Hn. rewrite <- (Z.mod_small x (2 ^ 32)) by done. by apply Z.mod_pow2_bits_high.
Qed.

Lemma not32_bits x n : w32 x -> 0 <= n -> Z.testbit (not32 x) n = (n <? 32) && negb (Z.testbit x n).
Proof.
  intros Hx Hn. assert (not32 x = Z.lxor (Z.ones 32) x) as ->.
  { unfold not32. change (2 ^ 32 - 1) with (Z.ones 32). symmetry.
    rewrite Z.sub_nocarry_ldiff.
    - apply Z.bits_inj'. intros k Hk. rewrite Z.lxor_spec, Z.ldiff_spec, Z.testbit_ones by lia.
      destruct (Z.ltb_spec k 32); [rewrite (proj2 (Z.leb_le 0 k)) by lia; btauto|].
      rewrite (w32_high x k) by (done || lia). btauto.
    - apply Z.bits_inj'. intros k Hk. rewrite Z.ldiff_spec, Z.testbit_ones, Z.bits_0 by lia.
      destruct (Z.ltb_spec k 32); [rewrite (proj2 (Z.leb_le 0 k)) by lia; btauto|].
      rewrite (w32_high x k) by (done || lia). btauto. }
  rewrite Z.lxor_spec, Z.testbit_ones by lia. rewrite (proj2 (Z.leb_le 0 n)) by lia.
  destruct (Z.ltb_spec n 32); [btauto|]. rewrite (w32_high x n) by (done || lia). btauto.
Qed.

Lemma F_rfc x y z : w32 x -> w32 y -> w32 z -> F x y z = rfc_F x y z.
Proof.
  intros Hx Hy Hz. apply Z.bits_inj'. intros n Hn. unfold F, rfc_F.
  rewrite Z.lxor_spec, Z.lor_spec, !Z.land_spec, Z.lxor_spec, not32_bits by done.
  destruct (Z.ltb_spec n 32); [btauto|]. rewrite !w32_high by (done || lia). btauto.
Qed.
Lemma G_rfc x y z : w32 x -> w32 y -> w32 z -> G x y z = rfc_G x y z.
Proof.
  intros Hx Hy Hz. apply Z.bits_inj'. intros n Hn. unfold G, rfc_G.
  rewrite Z.lxor_spec, Z.lor_spec, !Z.land_spec, Z.lxor_spec, not32_bits by done.
  destruct (Z.ltb_spec n 32); [btauto|]. rewrite !w32_high by (done || lia). btauto.
Qed.
Lemma H2_rfc x y z : H2 x y z = rfc_H x y z.
Proof. unfold H2, rfc_H. by rewrite Z.lxor_assoc. Qed.

(** Disjoint bits: a sum is an or. *)
Lemma lor_add x y n : 0 <= n -> 0 <= x < 2 ^ n -> Z.lor x (Z.shiftl y n) = x + 2 ^ n * y.
Proof.
  intros Hn Hx. rewrite Z.shiftl_mul_pow2, (Z.mul_comm y) by done.
  rewrite <- Z.lxor_lor, <- Z.add_nocarry_lxor; [done|..];
    (apply Z.bits_inj'; intros k Hk; rewrite Z.land_spec, Z.bits_0;
     destruct (Z.ltb_spec k n);
     [rewrite (Z.mul_comm (2 ^ n)), Z.mul_pow2_bits_low by lia; btauto|
      rewrite <- (Z.mod_small x (2 ^ n)), Z.mod_pow2_bits_high by lia; btauto]).
Qed.

Lemma rotate_rfc y s : w32 y -> 0 < s < 32 -> rotate y s = u32 (y * 2 ^ s) + y / 2 ^ (32 - s).
Proof.
  intros Hy Hs. unfold rotate, w32 in *. rewrite Z.shiftl_mul_pow2, Z.shiftr_div_pow2 by lia.
  assert (2 ^ 32 = 2 ^ (32 - s) * 2 ^ s) as E by (rewrite <- Z.pow_add_r by lia; f_equal; lia).
  assert (u32 (y * 2 ^ s) = Z.shiftl (y mod 2 ^ (32 - s)) s) as ->.
  { unfold u32. rewrite E, Zmult_mod_distr_r, Z.shiftl_mul_pow2 by lia. done. }
  rewrite Z.lor_comm, lor_add.
  - rewrite Z.shiftl_mul_pow2 by lia. ring.
  - lia.
  - split; [apply Z.div_pos; lia|]. apply Z.div_lt_upper_bound; [lia|]. rewrite <- E. lia.
Qed.

Definition is_byte (x : Z) : Prop := 0 <= x < 256.

Lemma nth_byte l n : Forall is_byte l -> is_byte (nth n l 0).
Proof.
  intros Hl. destruct (nth_in_or_default n l 0) as [Hin | ->]; [|unfold is_byte; lia].
  rewrite List.Forall_forall in Hl. by apply Hl.
Qed.

Lemma word_rfc ptr n : Forall is_byte ptr -> word ptr n = rfc_word ptr n.
Proof.
  intros Hp. unfold word, rfc_word. rewrite Nat.add_0_r.
  pose proof (nth_byte _ (n * 4) Hp). pose proof (nth_byte _ (n * 4 + 1) Hp).
  pose proof (nth_byte _ (n * 4 + 2) Hp). pose proof (nth_byte _ (n * 4 + 3) Hp).
  unfold is_byte in *. by rewrite (lor_add _ _ 8), (lor_add _ _ 16), (lor_add _ _ 24) by lia.
Qed.

(** * One block *)

(** The variables of step [i], in the order of the macro's arguments. *)
Definition order (i : Z) : reg * reg * reg * reg :=
  if i mod 4 =? 0 then (Ra, Rb, Rc, Rd) else if i mod 4 =? 1 then (Rd, Ra, Rb, Rc)
  else if i mod 4 =? 2 then (Rc, Rd, Ra, Rb) else (Rb, Rc, Rd, Ra).
Definition fn_at (i : Z) : fn :=
  if i <? 16 then fF else if i <? 32 then fG
  else if i <? 48 then if Z.even i then fH else fH2 else fI.
Definition operand_at (i : Z) : operand :=
  if i <? 16 then SET (Z.to_nat i) else GET (Z.to_nat (rfc_k i)).
Definition line_at (i : Z) : line :=
  let '(r0, r1, r2, r3) := order i in STEP (fn_at i) r0 r1 r2 r3 (operand_at i) (rfc_T i) (rfc_s i).

(** The 64 lines of the code follow the scheme of the RFC, sine constants included. *)
Lemma steps_rfc : steps = line_at <$> seqZ 0 64.
Proof. vm_compute. reflexivity. Qed.

Lemma fn_rfc i x y z : w32 x -> w32 y -> w32 z -> apply_fn (fn_at i) x y z = rfc_f i x y z.
Proof.
  intros Hx Hy Hz. unfold fn_at, rfc_f. destruct (i <? 16); [by apply F_rfc|].
  destruct (i <? 32); [by apply G_rfc|]. destruct (i <? 48); [|done].
  destruct (Z.even i); [done | apply H2_rfc].
Qed.

Lemma rfc_s_range i : 0 <= i -> 0 < rfc_s i < 32.
Proof.
  intros Hi. unfold rfc_s. assert (exists k, Z.to_nat (i mod 4) = k /\ (k < 4)%nat) as (k & -> & Hk)
    by (eexists; split; [done|]; dlia).
  destruct (i <? 16); [|destruct (i <? 32); [|destruct (i <? 48)]];
    do 4 (destruct k as [|k]; [simpl; lia|]); lia.
Qed.

(** Before step [i]: the variables in their order are the state, and the words that
    were set are those of the block. *)
Definition sim (ptr : list Z) (i : Z) (st : regs * list Z) (r : state) : Prop :=
  let '(v, blk) := st in
  let '(r0, r1, r2, r3) := order i in
  r = (get_reg r0 v, get_reg r1 v, get_reg r2 v, get_reg r3 v) /\
  w32 (va v) /\ w32 (vb v) /\ w32 (vc v) /\ w32 (vd v) /\ length blk = 16%nat /\
  forall n, (n < 16)%nat -> Z.of_nat n < i -> nth n blk 0 = word ptr n.

Lemma fetch_sim ptr i v blk r :
  sim ptr i (v, blk) r -> 0 <= i < 64 ->
  exists blk', fetch ptr blk (operand_at i) = (word ptr (Z.to_nat (rfc_k i)), blk') /\
    length blk' = 16%nat /\ forall n, (n < 16)%nat -> Z.of_nat n < i + 1 -> nth n blk' 0 = word ptr n.
Proof.
  intros Hs Hi. unfold sim in Hs. destruct (order i) as [[[r0 r1] r2] r3].
  destruct Hs as (_ & _ & _ & _ & _ & Hl & Hb). unfold operand_at.
  destruct (i <? 16) eqn:E; cbn [fetch].
  - exists (<[Z.to_nat i := word ptr (Z.to_nat i)]> blk). unfold rfc_k. rewrite E. split; [done|].
    rewrite length_insert. split; [done|]. intros n Hn Hni.
    destruct (decide (n = Z.to_nat i)) as [->|Hne].
    + apply nth_lookup_Some. apply list_lookup_insert_eq. lia.
    + rewrite nth_lookup, list_lookup_insert_ne, <- nth_lookup by done. apply Hb; lia.
  - exists blk. assert (0 <= rfc_k i < 16) as Hk by (unfold rfc_k; rewrite E; repeat case_match; dlia).
    split; [|split; [done|]].
    + f_equal. apply Hb; lia.
    + intros n Hn _. apply Hb; lia.
Qed.

Lemma step_sim ptr i st r :
  Forall is_byte ptr -> 0 <= i < 64 -> sim ptr i st r ->
  sim ptr (i + 1) (step ptr st (line_at i)) (rfc_step ptr r i).
Proof.
  intros Hp Hi Hs. destruct st as [v blk].
  destruct (fetch_sim _ _ _ _ _ Hs Hi) as (blk' & Ef & Hl & Hb).
  unfold line_at. unfold sim in Hs. destruct (order i) as [[[r0 r1] r2] r3] eqn:Eo.
  cbn [step]. rewrite Ef. clear Ef. destruct Hs as (-> & Wa & Wb & Wc & Wd & _ & _).
  assert (forall q, w32 (get_reg q v)) as Wr by (intros []; done).
  rewrite fn_rfc by apply Wr. rewrite word_rfc by done.
  set (y := u32 (get_reg r0 v + _)). assert (rotate y (rfc_s i) = u32 (y * 2 ^ rfc_s i) + y / 2 ^ (32 - rfc_s i)) as ->
    by (apply rotate_rfc; [apply w32_u32 | apply rfc_s_range; lia]).
  unfold rfc_step. replace (get_reg r0 v + rfc_f i (get_reg r1 v) (get_reg r2 v) (get_reg r3 v) +
    rfc_word ptr (Z.to_nat (rfc_k i)) + rfc_T i) with (get_reg r0 v + (rfc_f i (get_reg r1 v) (get_reg r2 v) (get_reg r3 v) +
    rfc_word ptr (Z.to_nat (rfc_k i)) + rfc_T i)) by ring. fold y.
  rewrite (Z.add_comm _ (get_reg r1 v)). set (x := u32 (get_reg r1 v + _)).
  assert (w32 x) as Wx by apply w32_u32. clearbody x. clear y.
  assert (i mod 4 = 0 /\ (i + 1) mod 4 = 1 \/ i mod 4 = 1 /\ (i + 1) mod 4 = 2 \/
    i mod 4 = 2 /\ (i + 1) mod 4 = 3 \/ i mod 4 = 3 /\ (i + 1) mod 4 = 0) as Hm by dlia.
  unfold sim, order in *. destruct_or! Hm; destruct Hm as [M1 M2]; rewrite M1 in Eo; rewrite M2;
    simpl in Eo; injection Eo as <- <- <- <-; simpl; split_and!; done.
Qed.

Lemma steps_sim ptr : Forall is_byte ptr -> forall n i st r,
  0 <= i -> i + Z.of_nat n <= 64 -> sim ptr i st r ->
  sim ptr (i + Z.of_nat n) (fold_left (step ptr) (line_at <$> seqZ i (Z.of_nat n)) st)
    (fold_left (rfc_step ptr) (seqZ i (Z.of_nat n)) r).
Proof.
  intros Hp. induction n as [|n IH]; intros i st r Hi Hn Hs; [by rewrite Z.add_0_r|].
  rewrite seqZ_cons by lia. replace (Z.succ i) with (i + 1) by lia.
  replace (Z.pred (Z.of_nat (S n))) with (Z.of_nat n) by lia. simpl.
  replace (i + Z.of_nat (S n)) with (i + 1 + Z.of_nat n) by lia.
  apply IH; [lia..|]. apply step_sim; [done|lia|done].
Qed.

(** ** Contexts *)

Definition st_of (ctx : MD5_CTX) : state := (a ctx, b ctx, c ctx, d ctx).

Record ctx_ok (ctx : MD5_CTX) : Prop := {
  ok_a : w32 (a ctx); ok_b : w32 (b ctx); ok_c : w32 (c ctx); ok_d : w32 (d ctx);
  ok_buffer : length (buffer ctx) = 64%nat; ok_block : length (block ctx) = 16%nat
}.

Lemma body_block_rfc ctx ptr :
  ctx_ok ctx -> Forall is_byte ptr ->
  st_of (body_block ctx ptr) = rfc_block (st_of ctx) ptr /\ ctx_ok (body_block ctx ptr) /\
  buffer (body_block ctx ptr) = buffer ctx /\ lo (body_block ctx ptr) = lo ctx /\ hi (body_block ctx ptr) = hi ctx.
Proof.
  intros [] Hp. unfold body_block, rfc_block, st_of. rewrite steps_rfc.
  pose proof (steps_sim ptr Hp 64 0 (mkRegs (a ctx) (b ctx) (c ctx) (d ctx), block ctx) (st_of ctx)
    ltac:(lia) ltac:(lia)) as S. change (Z.of_nat 64) with 64 in S. change (0 + 64) with 64 in S.
  destruct (fold_left (step ptr) _ _) as [v blk]. unfold st_of in S.
  destruct (fold_left (rfc_step ptr) _ _) as [[[a' b'] c'] d'].
  destruct S as (E & _ & _ & _ & _ & Hl & _).
  - unfold sim. simpl. split_and!; try done. lia.
  - simpl in E. injection E as -> -> -> ->. simpl. split; [done|].
    split; [|done]. split; simpl; try apply w32_u32; done.
Qed.

(** * Messages in pieces *)

Ltac div64 x :=
  lazymatch goal with
  | _ : x = (64 * (x / 64) + x mod 64)%nat |- _ => fail
  | _ => pose proof (Nat.div_mod_eq x 64); pose proof (Nat.mod_upper_bound x 64 ltac:(lia))
  end.
Ltac ndlia :=
  repeat match goal with
  | |- context [(?x / 64)%nat] => div64 x
  | |- context [(?x mod 64)%nat] => div64 x
  | _ : context [(?x / 64)%nat] |- _ => div64 x
  | _ : context [(?x mod 64)%nat] |- _ => div64 x
  end; lia.

Lemma rfc_blocks_app n : forall st m x, (64 * n <= length m)%nat -> rfc_blocks n st (m ++ x) = rfc_blocks n st m.
Proof.
  induction n as [|n IH]; intros st m x Hn; [done|]. simpl.
  rewrite take_app_le, drop_app_le by lia. apply IH. rewrite length_drop. lia.
Qed.

Lemma rfc_blocks_add n : forall k st m,
  rfc_blocks (n + k) st m = rfc_blocks k (rfc_blocks n st m) (drop (64 * n) m).
Proof.
  induction n as [|n IH]; intros k st m; [done|]. simpl Nat.add. cbn [rfc_blocks].
  rewrite IH, drop_drop. do 2 f_equal. lia.
Qed.

Lemma body_rfc n : forall ctx data,
  ctx_ok ctx -> Forall is_byte data -> (64 * n <= length data)%nat ->
  exists ctx', body n ctx data = (ctx', drop (64 * n) data) /\ ctx_ok ctx' /\
    st_of ctx' = rfc_blocks n (st_of ctx) data /\
    buffer ctx' = buffer ctx /\ lo ctx' = lo ctx /\ hi ctx' = hi ctx.
Proof.
  induction n as [|n IH]; intros ctx data Hc Hd Hn; [exists ctx; done|].
  cbn [body rfc_blocks]. destruct (body_block_rfc ctx (take 64 data) Hc ltac:(by apply Forall_take)) as (E1 & E2 & E3 & E4 & E5).
  destruct (IH (body_block ctx (take 64 data)) (drop 64 data) E2 ltac:(by apply Forall_drop)) as (ctx' & Eb & H1 & H2 & H3 & H4 & H5).
  { rewrite length_drop. lia. }
  exists ctx'. rewrite Eb, drop_drop. split; [do 2 f_equal; lia|].
  split; [done|]. rewrite H2, E1. split_and!; congruence.
Qed.

(** The state after the whole blocks of the message; the rest is in the buffer. *)
Record core (ctx : MD5_CTX) (m : list Z) : Prop := {
  k_ok : ctx_ok ctx;
  k_st : st_of ctx = rfc_blocks (length m / 64) rfc_init m;
  k_buffer : take (length m mod 64) (buffer ctx) = drop (64 * (length m / 64)) m
}.

Lemma ctx_ok_buffer ctx buf :
  ctx_ok ctx -> length buf = 64%nat -> ctx_ok (ctx <| buffer := buf |>).
Proof. intros [] H. by split. Qed.

Lemma length_store used data buf :
  (used + length data <= length buf)%nat -> length (store used data buf) = length buf.
Proof. intros H. unfold store. rewrite !length_app, length_take, length_drop. lia. Qed.

Lemma take_store used data buf :
  (used + length data <= length buf)%nat ->
  take (used + length data) (store used data buf) = take used buf ++ data.
Proof.
  intros H. unfold store. rewrite app_assoc. apply take_app_length'.
  rewrite length_app, length_take. lia.
Qed.

Lemma tail_core ctx m data :
  core ctx m -> (length m mod 64 = 0)%nat -> Forall is_byte data ->
  core (update_tail ctx data) (m ++ data) /\ lo (update_tail ctx data) = lo ctx /\ hi (update_tail ctx data) = hi ctx.
Proof.
  intros [K1 K2 K3] Hm Hd. assert (length m = 64 * (length m / 64))%nat as Hq by ndlia.
  unfold update_tail. set (n := (length data / 64)%nat).
  assert ((64 * n <= length data)%nat /\ (length data < 64 * n + 64)%nat) as Hn by (unfold n; ndlia).
  assert (exists ctx', (if (64 <=? length data)%nat then body n ctx data else (ctx, data)) = (ctx', drop (64 * n) data)
    /\ ctx_ok ctx' /\ st_of ctx' = rfc_blocks n (st_of ctx) data /\
    buffer ctx' = buffer ctx /\ lo ctx' = lo ctx /\ hi ctx' = hi ctx) as (ctx' & -> & H1 & H2 & H3 & H4 & H5).
  { destruct (64 <=? length data)%nat eqn:E; [apply body_rfc; [done..|lia]|].
    apply Nat.leb_gt in E. assert (n = 0%nat) as E0 by lia. rewrite E0. by exists ctx. }
  set (rest := drop (64 * n) data). assert (length rest = length data - 64 * n)%nat as Lr by apply length_drop.
  pose proof (ok_buffer _ H1) as Lb.
  assert ((length (m ++ data) / 64)%nat = (length m / 64 + n)%nat) as Eq by (rewrite length_app; unfold n; ndlia).
  assert ((length (m ++ data) mod 64)%nat = length rest) as Er by (rewrite Lr, length_app; unfold n; ndlia).
  split; [|done]. split.
  - apply ctx_ok_buffer; [done|]. rewrite length_store; lia.
  - change (st_of (_ <| buffer ::= _ |>)) with (st_of ctx'). rewrite H2, K2, Eq, rfc_blocks_add.
    rewrite rfc_blocks_app by lia. f_equal. rewrite <- Hq. by rewrite drop_app_length.
  - rewrite Eq, Er. change (buffer (_ <| buffer ::= _ |>)) with (store 0 rest (buffer ctx')).
    pose proof (take_store 0 rest (buffer ctx') ltac:(lia)) as T. simpl in T. rewrite T.
    replace (64 * (length m / 64 + n))%nat with (length m + 64 * n)%nat by lia. by rewrite drop_app_add.
Qed.

(** The buffer filled up is the next block. *)
Lemma fill_core ctx m data :
  core ctx m -> Forall is_byte m -> Forall is_byte data -> (length data = 64 - length m mod 64)%nat ->
  exists ctx', body 1 (ctx <| buffer ::= store (length m mod 64) data |>)
      (buffer (ctx <| buffer ::= store (length m mod 64) data |>)) = (ctx', []) /\
    core ctx' (m ++ data) /\ lo ctx' = lo ctx /\ hi ctx' = hi ctx.
Proof.
  intros [K1 K2 K3] Bm Bd Hl. set (used := (length m mod 64)%nat) in *.
  set (ctx1 := ctx <| buffer ::= store used data |>). pose proof (ok_buffer _ K1) as Lb.
  assert (used < 64)%nat as Hu by (unfold used; ndlia).
  assert (buffer ctx1 = drop (64 * (length m / 64)) m ++ data) as Eb.
  { unfold ctx1. simpl. unfold store. rewrite K3, (drop_ge (buffer ctx)) by lia. by rewrite app_nil_r. }
  assert (length (buffer ctx1) = 64%nat) as Lb1 by (rewrite Eb, length_app, length_drop, Hl; unfold used; ndlia).
  assert (ctx_ok ctx1) as Ok1 by (apply ctx_ok_buffer; [done|exact Lb1]).
  destruct (body_rfc 1 ctx1 (buffer ctx1) Ok1) as (ctx' & E1 & E2 & E3 & E4 & E5 & E6); [|lia|].
  { rewrite Eb. apply Forall_app; split; [by apply Forall_drop | done]. }
  exists ctx'. rewrite E1, drop_ge by lia. split; [done|]. split; [|split; [exact E5 | exact E6]].
  assert ((length (m ++ data) / 64)%nat = (length m / 64 + 1)%nat) as Eq by (rewrite length_app, Hl; unfold used in *; ndlia).
  assert ((length (m ++ data) mod 64)%nat = 0%nat) as Er by (rewrite length_app, Hl; unfold used in *; ndlia).
  split; [done| |].
  - rewrite E3, Eq, rfc_blocks_add, rfc_blocks_app by ndlia. change (st_of ctx1) with (st_of ctx). rewrite K2.
    rewrite Eb, drop_app_le by ndlia. done.
  - rewrite Er, Eq. simpl take. symmetry. apply drop_ge. rewrite length_app, Hl. unfold used in *. ndlia.
Qed.

(** ** Counters *)

Record counted (ctx : MD5_CTX) (n : Z) : Prop := {
  n_lo : lo ctx = n mod 2 ^ 29;
  n_hi : hi ctx = n / 2 ^ 29 mod 2 ^ 32
}.

Lemma count_ok ctx n size : 0 <= n -> 0 <= size -> counted ctx n -> counted (count ctx size) (n + size).
Proof.
  intros Hn Hs [L E]. unfold count. cbn [lo].
  assert (Z.land (lo ctx + size) 0x1fffffff = (n + size) mod 2 ^ 29) as El.
  { change 0x1fffffff with (Z.ones 29). rewrite Z.land_ones, L, Zplus_mod_idemp_l by lia. done. }
  assert (lo (ctx <| lo := Z.land (lo ctx + size) 0x1fffffff |>) = (n + size) mod 2 ^ 29) as -> by exact El.
  rewrite L. rewrite Z.shiftr_div_pow2 by lia.
  pose proof (Z.div_mod n (2 ^ 29) ltac:(lia)) as D1. pose proof (Z.mod_pos_bound n (2 ^ 29) ltac:(lia)) as D2.
  pose proof (Z.div_mod size (2 ^ 29) ltac:(lia)) as D3. pose proof (Z.mod_pos_bound size (2 ^ 29) ltac:(lia)) as D4.
  pose proof (Z.div_mod (n + size) (2 ^ 29) ltac:(lia)) as D5.
  pose proof (Z.mod_pos_bound (n + size) (2 ^ 29) ltac:(lia)) as D6.
  destruct (Z.ltb_spec ((n + size) mod 2 ^ 29) (n mod 2 ^ 29)) as [Hc|Hc]; split; simpl;
    [rewrite <- L; exact El | | rewrite <- L; exact El |]; unfold u32; rewrite E, ?Zplus_mod_idemp_l.
  - rewrite <- Z.add_assoc, Zplus_mod_idemp_l. f_equal. lia.
  - f_equal. lia.
Qed.

Lemma used_ok ctx n : 0 <= n -> counted ctx n -> Z.land (lo ctx) 0x3f = n mod 64.
Proof.
  intros Hn [-> _]. change 0x3f with (Z.ones 6). rewrite Z.land_ones by lia. change (2 ^ 6) with 64.
  dlia.
Qed.

Lemma count_core ctx m size : core ctx m -> core (count ctx size) m.
Proof.
  intros [[] K2 K3]. unfold count. destruct (_ <? _); (split; [by split | done | done]).
Qed.

(** ** [MD5_Update] *)

Record held (ctx : MD5_CTX) (m : list Z) : Prop := {
  h_core : core ctx m;
  h_counted : counted ctx (Z.of_nat (length m));
  h_bytes : Forall is_byte m
}.

Lemma used_nat ctx m : held ctx m -> Z.to_nat (Z.land (lo ctx) 0x3f) = (length m mod 64)%nat.
Proof.
  intros [_ Hn _]. rewrite (used_ok ctx (Z.of_nat (length m)) ltac:(lia) Hn). change 64 with (Z.of_nat 64).
  by rewrite <- Nat2Z.inj_mod, Nat2Z.id.
Qed.

Lemma update_held ctx m data :
  held ctx m -> Forall is_byte data -> held (MD5_Update ctx data) (m ++ data).
Proof.
  intros Hh Hd. unfold MD5_Update. rewrite (used_nat _ _ Hh). destruct Hh as [K N B].
  set (ctx1 := count ctx (Z.of_nat (length data))).
  assert (core ctx1 m) as K1 by (by apply count_core).
  assert (counted ctx1 (Z.of_nat (length (m ++ data)))) as N1
    by (rewrite length_app, Nat2Z.inj_add; apply count_ok; (done || lia)).
  assert (Forall is_byte (m ++ data)) as B1 by (by apply Forall_app).
  clearbody ctx1. clear K N ctx. destruct N1 as [N1 N2].
  destruct (length m mod 64 =? 0)%nat eqn:E0.
  - apply Nat.eqb_eq in E0. destruct (tail_core _ _ _ K1 E0 Hd) as (T1 & T2 & T3).
    split; [done | split; congruence | done].
  - apply Nat.eqb_neq in E0. set (used := (length m mod 64)%nat) in *.
    assert (used < 64)%nat as Hu by (unfold used; ndlia).
    destruct (length data <? 64 - used)%nat eqn:El.
    + apply Nat.ltb_lt in El. destruct K1 as [C1 C2 C3]. pose proof (ok_buffer _ C1) as Lb.
      split; [|split; done|done]. split.
      * apply ctx_ok_buffer; [done|]. rewrite length_store; lia.
      * change (st_of (_ <| buffer ::= _ |>)) with (st_of ctx1). rewrite C2, length_app.
        replace ((length m + length data) / 64)%nat with (length m / 64)%nat by (unfold used in *; ndlia).
        by rewrite rfc_blocks_app by ndlia.
      * change (buffer (_ <| buffer ::= _ |>)) with (store used data (buffer ctx1)). rewrite length_app.
        replace ((length m + length data) / 64)%nat with (length m / 64)%nat by (unfold used in *; ndlia).
        replace ((length m + length data) mod 64)%nat with (used + length data)%nat by (unfold used in *; ndlia).
        fold used in C3. rewrite take_store, C3, drop_app_le by ndlia. done.
    + apply Nat.ltb_ge in El. rewrite <- (take_drop (64 - used) data) in N1, N2, B1 |- *.
      assert (length (take (64 - used) data) = 64 - used)%nat as Lt by (rewrite length_take; lia).
      destruct (fill_core ctx1 m (take (64 - used) data)) as (ctx' & Eb & Kb & E1 & E2);
        [done|done|by apply Forall_take|done|].
      fold used in Eb. rewrite take_drop, Eb.
      destruct (tail_core ctx' (m ++ take (64 - used) data) (drop (64 - used) data)) as (T1 & T2 & T3);
        [done | rewrite length_app, Lt; unfold used in *; ndlia | by apply Forall_drop|].
      rewrite <- app_assoc in T1. rewrite take_drop in *. split; [done | split; congruence | done].
Qed.

(** ** [MD5_Final] *)

Lemma le_bytes_app n : forall k x, le_bytes (n + k) x = le_bytes n x ++ le_bytes k (x / 256 ^ Z.of_nat n).
Proof.
  induction n as [|n IH]; intros k x; [simpl; by rewrite Z.div_1_r|].
  simpl le_bytes. simpl Nat.add. cbn [le_bytes]. rewrite IH. simpl. do 3 f_equal.
  rewrite Nat2Z.inj_succ, Z.pow_succ_r, <- Z.div_div by lia. done.
Qed.

Lemma le_bytes_mod n : forall x, le_bytes n (x mod 256 ^ Z.of_nat n) = le_bytes n x.
Proof.
  induction n as [|n IH]; intros x; [done|]. simpl le_bytes. rewrite Nat2Z.inj_succ, Z.pow_succ_r by lia.
  f_equal.
  - symmetry. rewrite Z.mod_mod_divide; [done|]. by exists (256 ^ Z.of_nat n); lia.
  - rewrite <- (IH (x / 256)). f_equal. rewrite Z.rem_mul_r by lia.
    rewrite Z.mul_comm, Z.div_add by lia. rewrite Z.div_small by (apply Z.mod_pos_bound; lia). lia.
Qed.

Lemma bytes4_le x : bytes4 x = le_bytes 4 x.
Proof.
  unfold bytes4, u8. cbn [le_bytes]. rewrite !Z.shiftr_div_pow2, !Z.div_div by lia. done.
Qed.

Lemma length_bytes n x : length (le_bytes n x) = n.
Proof. revert x. induction n as [|n IH]; intros x; [done|]. simpl. by rewrite IH. Qed.
Lemma le_is_byte n x : Forall is_byte (le_bytes n x).
Proof. revert x. induction n as [|n IH]; intros x; [done|]. constructor; [unfold is_byte; dlia | apply IH]. Qed.

(** The counters hold the length of the message in bits. *)
Lemma length_field ctx n :
  0 <= n -> counted ctx n ->
  bytes4 (u32 (Z.shiftl (lo ctx) 3)) ++ bytes4 (hi ctx) = le_bytes 8 (8 * n).
Proof.
  intros Hn [-> ->]. rewrite !bytes4_le, (le_bytes_app 4 4), Z.shiftl_mul_pow2 by lia.
  rewrite <- (le_bytes_mod 4 (8 * n)). unfold u32. change (256 ^ Z.of_nat 4) with (2 ^ 32).
  f_equal.
  - f_equal. change (2 ^ 32) with (2 ^ 29 * 2 ^ 3).
    rewrite Zmult_mod_distr_r, Zmod_mod, <- Zmult_mod_distr_r. f_equal. lia.
  - change (2 ^ 32) with (256 ^ Z.of_nat 4) at 1. rewrite le_bytes_mod. f_equal.
    change (2 ^ 32) with (8 * 2 ^ 29). rewrite Z.div_mul_cancel_l by lia. done.
Qed.

Lemma store_store used x y buf :
  (used + length x + length y <= length buf)%nat ->
  store (used + length x) y (store used x buf) = store used (x ++ y) buf.
Proof.
  intros Hl. unfold store at 1. rewrite take_store by lia. unfold store. rewrite length_app, <- !app_assoc.
  do 3 f_equal. rewrite app_assoc, drop_app_ge by (rewrite length_app, length_take; lia).
  rewrite drop_drop, length_app, length_take. f_equal. lia.
Qed.

Lemma store_one used x buf : (used < length buf)%nat -> <[used := x]> buf = store used [x] buf.
Proof. intros Hu. unfold store. rewrite insert_take_drop by done. simpl. by rewrite Nat.add_1_r. Qed.

Lemma digest_core ctx p :
  core ctx p -> (length p mod 64 = 0)%nat ->
  bytes4 (a ctx) ++ bytes4 (b ctx) ++ bytes4 (c ctx) ++ bytes4 (d ctx) =
  let '(a, b, c, d) := rfc_blocks (length p / 64) rfc_init p in
  le_bytes 4 a ++ le_bytes 4 b ++ le_bytes 4 c ++ le_bytes 4 d.
Proof. intros [_ K2 _] _. unfold st_of in K2. rewrite <- K2. by rewrite !bytes4_le. Qed.

Lemma core_lo ctx m x : core ctx m -> core (ctx <| lo := x |>) m.
Proof. intros [[] K2 K3]. by split. Qed.

Lemma pad_length m : (length (rfc_pad m) mod 64 = 0)%nat.
Proof.
  unfold rfc_pad. rewrite !length_app, repeat_length, length_bytes. simpl length.
  assert (Z.of_nat (length m + (1 + (Z.to_nat ((55 - Z.of_nat (length m)) mod 64) + 8))) mod 64 = 0) as E by dlia.
  apply Nat2Z.inj. by rewrite Nat2Z.inj_mod.
Qed.

(** The last block and the digest: [ctx] has taken in [p], and the rest of the padded
    message fills a block. *)
Lemma last_block ctx p used z m :
  core ctx p -> Forall is_byte p -> (length p mod 64 = used)%nat -> (used + length z = 56)%nat -> Forall is_byte z ->
  counted ctx (Z.of_nat (length m)) -> p ++ z ++ le_bytes 8 (8 * Z.of_nat (length m)) = rfc_pad m ->
  (let ctx := ctx <| buffer ::= store used z |> in
   let ctx := ctx <| lo := u32 (Z.shiftl (lo ctx) 3) |> in
   let ctx := ctx <| buffer ::= store 56 (bytes4 (lo ctx) ++ bytes4 (hi ctx)) |> in
   let '(ctx, _) := body 1 ctx (buffer ctx) in
   bytes4 (a ctx) ++ bytes4 (b ctx) ++ bytes4 (c ctx) ++ bytes4 (d ctx)) = rfc_md5 m.
Proof.
  intros K Bp Hu Hz Bz N Ep. cbv zeta. pose proof (ok_buffer _ (k_ok _ _ K)) as Lb.
  set (len := le_bytes 8 (8 * Z.of_nat (length m))) in *.
  set (ctx1 := ctx <| lo := u32 (Z.shiftl (lo ctx) 3) |>).
  assert (length len = 8%nat) as Ll by apply length_bytes.
  match goal with |- context [body 1 ?x _] =>
    assert (x = ctx1 <| buffer ::= store (length p mod 64) (z ++ len) |>) as -> end.
  { pose proof (length_field ctx (Z.of_nat (length m)) ltac:(lia) N) as El. fold len in El.
    clearbody len. destruct ctx. unfold ctx1. simpl in *. rewrite El, Hu. f_equal.
    rewrite <- (store_store used z len) by lia. by rewrite Hz. }
  destruct (fill_core ctx1 p (z ++ len)) as (ctx' & Eb & K' & _).
  - by apply core_lo.
  - done.
  - apply Forall_app; split; [done | apply le_is_byte].
  - rewrite length_app, Hu. lia.
  - rewrite Eb. rewrite Ep in K'. rewrite (digest_core _ _ K' (pad_length m)). done.
Qed.

Lemma zeros_bytes n : Forall is_byte (repeat 0 n).
Proof. induction n; constructor; [unfold is_byte; lia | done]. Qed.

(** The padded message as the code builds it. *)
Lemma rfc_pad_short m :
  (length m mod 64 <= 55)%nat ->
  rfc_pad m = m ++ ([0x80] ++ repeat 0 (55 - length m mod 64)) ++ le_bytes 8 (8 * Z.of_nat (length m)).
Proof.
  intros H. unfold rfc_pad. rewrite <- (app_assoc [0x80]). do 3 f_equal. f_equal.
  pose proof (Nat2Z.inj_mod (length m) 64) as E. change (Z.of_nat 64) with 64 in E. dlia.
Qed.
Lemma rfc_pad_long m :
  (55 < length m mod 64)%nat ->
  rfc_pad m = (m ++ [0x80] ++ repeat 0 (63 - length m mod 64)) ++ repeat 0 56 ++ le_bytes 8 (8 * Z.of_nat (length m)).
Proof.
  intros H. unfold rfc_pad. rewrite <- !app_assoc. do 2 f_equal. rewrite app_assoc, <- repeat_app. do 2 f_equal.
  pose proof (Nat2Z.inj_mod (length m) 64) as E. change (Z.of_nat 64) with 64 in E.
  pose proof (Nat.mod_upper_bound (length m) 64 ltac:(lia)). dlia.
Qed.

Lemma final_held ctx m : held ctx m -> MD5_Final ctx = rfc_md5 m.
Proof.
  intros Hh. unfold MD5_Final. rewrite (used_nat _ _ Hh). destruct Hh as [K N B].
  set (used := (length m mod 64)%nat). assert (used < 64)%nat as Hu by (unfold used; ndlia).
  pose proof (ok_buffer _ (k_ok _ _ K)) as Lb. cbv zeta.
  assert (forall z, (used + 1 + length z <= 64)%nat ->
    (ctx <| buffer ::= <[used := 0x80]> |>) <| buffer ::= store (S used) z |> =
    ctx <| buffer ::= store used ([0x80] ++ z) |>) as Est.
  { intros z Hz. destruct ctx. simpl in *. f_equal. rewrite store_one by lia.
    change (128 :: z) with ([128] ++ z). rewrite <- (store_store used [128] z) by (simpl; lia).
    f_equal. simpl. lia. }
  assert (is_byte 0x80) as B80 by (unfold is_byte; lia).
  destruct (Nat.ltb_spec (64 - S used) 8) as [Hlt|Hge].
  - rewrite Est by (rewrite repeat_length; lia).
    destruct (fill_core ctx m ([0x80] ++ repeat 0 (64 - S used))) as (ctx' & Eb & K' & E1 & E2).
    + done.
    + done.
    + constructor; [done | apply zeros_bytes].
    + rewrite length_app, repeat_length. fold used. simpl. lia.
    + fold used in Eb. rewrite Eb. replace (64 - 8)%nat with 56%nat by lia.
      apply (last_block ctx' (m ++ [0x80] ++ repeat 0 (64 - S used)) 0 (repeat 0 56) m).
      * done.
      * apply Forall_app; split; [done|]. constructor; [done | apply zeros_bytes].
      * rewrite !length_app, repeat_length. simpl length. unfold used in *. ndlia.
      * done.
      * apply zeros_bytes.
      * destruct N as [N1 N2]. split; congruence.
      * rewrite rfc_pad_long by (fold used; lia). fold used. do 4 f_equal.
  - rewrite Est by (rewrite repeat_length; lia).
    replace (64 - S used - 8)%nat with (55 - used)%nat by lia.
    apply (last_block ctx m used ([0x80] ++ repeat 0 (55 - used)) m); try done.
    + rewrite length_app, repeat_length. simpl. lia.
    + constructor; [done | apply zeros_bytes].
    + by rewrite rfc_pad_short by (fold used; lia).
Qed.

(** * The theorem *)

Definition md5 (ctx : MD5_CTX) (pieces : list (list Z)) : list Z :=
  MD5_Final (fold_left MD5_Update pieces (MD5_Init ctx)).

Lemma md5_pieces ctx pieces :
  length (buffer ctx) = 64%nat -> length (block ctx) = 16%nat ->
  Forall (Forall (fun x => 0 <= x < 256)) pieces ->
  md5 ctx pieces = rfc_md5 (concat pieces).
Proof.
  intros H1 H2 Hp. unfold md5.
  assert (held (MD5_Init ctx) []) as H0.
  { split; [|done|constructor]. split; [|done|done]. by split; simpl; try (unfold w32; lia). }
  apply final_held. change (concat pieces) with ([] ++ concat pieces).
  revert H0. generalize (MD5_Init ctx). generalize (@nil Z).
  induction Hp as [|x xs Hx _ IH]; intros m c0 H0; simpl; [by rewrite app_nil_r|].
  rewrite app_assoc. apply IH. by apply update_held.
Qed.

(** C27: MD5 is that of RFC 1321: for every message and every way to hand it over in
    pieces (empty ones and ones that end inside a block included), initialising any
    context, updating it with the pieces and finishing gives the digest of the message, with
    the four round functions as the RFC writes them and the constants computed from the sine. *)
Theorem md5_rfc1321 ctx pieces :
  length (buffer ctx) = 64%nat -> length (block ctx) = 16%nat ->
  Forall (Forall (fun x => 0 <= x < 256)) pieces ->
  md5 ctx pieces = rfc_md5 (concat pieces).
Proof. apply md5_pieces. Qed.

(** The digest of "abc". *)
Lemma md5_rfc1321_witness :
  let ctx := mkCtx 0 0 0 0 0 0 (repeat 0 64) (repeat 0 16) in
  md5 ctx [[97; 98]; []; [99]] = rfc_md5 [97; 98; 99] /\
  rfc_md5 [97; 98; 99] = [144; 1; 80; 152; 60; 210; 79; 176; 214; 150; 63; 125; 40; 225; 127; 114].
Proof.
  split; [|vm_compute; reflexivity].
  apply (md5_rfc1321 (mkCtx 0 0 0 0 0 0 (repeat 0 64) (repeat 0 16)) [[97; 98]; []; [99]]);
    [done | done | repeat constructor; lia].
Defined.

End Md5Spec.
