(* ===== verification/Oseama.v ===== *)
(** The Seama firmware image tool, [utils/oseama/src/oseama.c]: creating an entity
    with meta information and an MD5 digest, and listing the entities of a seal.

    [big] is the byte order of the machine, [W] the width of [long] and [size_t], [ctx0] what
    the uninitialised digest context on the stack holds.  What is printed to standard output
    is part of the result. *)

From Stdlib Require Import ZArith Lia Ascii String.
From stdpp Require Import base list list_numbers numbers strings gmap.
From S2P Require Import Prelude CString Stdio Otrx Md5.

Open Scope list_scope.
Open Scope Z_scope.

Module Oseama.
Import Stdio.

Definition SEAMA_MAGIC : Z := 0x5ea3a417.

Record seama_seal_header := mkSeal {
  seal_magic : Z; seal_reserved : Z; seal_metasize : Z; seal_imagesize : Z
}.
Record seama_entity_header := mkEntity {
  magic : Z; reserved : Z; metasize : Z; imagesize : Z; md5 : list Z
}.
Definition sizeof_seal : Z := 12.
Definition sizeof_entity : Z := 28.

Definition oseama_min (x y : Z) : Z := if x <? y then x else y.

(** A line on standard output. *)
Inductive output :=
| OBlank | OEntityOffset (n : Z) | OEntitySize (n : Z) | OMetaSize (n : Z) | OImageSize (n : Z)
| OMetaEntry (s : list Z).

Section oseama.
Context (big : bool) (W : Z) (ctx0 : Md5.MD5_CTX).

Definition usize (z : Z) : Z := z mod 2 ^ W.
Definition ssize (z : Z) : Z := (z + 2 ^ (W - 1)) mod 2 ^ W - 2 ^ (W - 1).

Definition cpu_to_be32 (x : Z) : Z := if big then x else bswap 4 x.
Definition be32_to_cpu (x : Z) : Z := if big then x else bswap 4 x.
Definition cpu_to_be16 (x : Z) : Z := if big then x else bswap 2 x.
Definition be16_to_cpu (x : Z) : Z := if big then x else bswap 2 x.

(** The packed structures in memory. *)
Definition bytes_seal (b : list Z) : seama_seal_header :=
  let at_ i n := unnative big (take n (drop i b)) in
  mkSeal (at_ 0%nat 4%nat) (at_ 4%nat 2%nat) (at_ 6%nat 2%nat) (at_ 8%nat 4%nat).
Definition bytes_entity (b : list Z) : seama_entity_header :=
  let at_ i n := unnative big (take n (drop i b)) in
  mkEntity (at_ 0%nat 4%nat) (at_ 4%nat 2%nat) (at_ 6%nat 2%nat) (at_ 8%nat 4%nat) (take 16 (drop 12 b)).
Definition entity_bytes (h : seama_entity_header) : list Z :=
  native big 4 (magic h) ++ native big 2 (reserved h) ++ native big 2 (metasize h) ++
  native big 4 (imagesize h) ++ md5 h.

(** [fseek(f, off, SEEK_CUR)] *)
Definition fseek_cur (f : FILE) (off : Z) : FILE :=
  if pos f + off <? 0 then f else mkFILE (path f) (pos f + off).

(** * Info *)

Definition option_entity (idx : Z) (o : opt) : Z :=
  match o with
  | Opt c optarg => if Ascii.eqb c "e" then atoi W optarg else idx
  | Bad => idx
  end.
Definition oseama_info_parse_options (args : list string) : Z :=
  fold_left option_entity (getopt ["e"%char] args) (-1).

(** [strlen(tmp)] on what is left of the buffer, which has a NUL. *)
Fixpoint strlen (b : list Z) : nat :=
  match b with [] => O | x :: b => if x =? 0 then O else S (strlen b) end.

(** The loop that prints the entries before [end]; each round takes at least two bytes. *)
Fixpoint meta_entries (fuel : nat) (tmp : list Z) : list output :=
  match fuel with
  | O => []
  | S fuel =>
      if (1 <? length tmp)%nat && negb (strlen tmp =? 0)%nat
      then OMetaEntry (take (strlen tmp) tmp) :: meta_entries fuel (drop (S (strlen tmp)) tmp)
      else []
  end.
(** [end] is the last byte, which becomes a NUL; without meta bytes it is the byte before the
    buffer. *)
Definition print_meta (buf : list Z) : M fs (list output) :=
  match buf with
  | [] => undef
  | _ => let buf := <[(length buf - 1)%nat := 0]> buf in mret (meta_entries (length buf) buf)
  end.

(** A round reads a header; the sizes may move the position back on a 32-bit machine, so the
    number of rounds has no bound. *)
Fixpoint entities_loop (fuel : nat) (entity_idx : Z) (seama : FILE) (i : Z) (outs : list output)
    : M fs (Z * list output) :=
  match fuel with
  | O => undef
  | S fuel =>
      '(b, seama) ← fread seama sizeof_entity;
      if negb (Z.of_nat (length b) =? sizeof_entity) then mret (0, outs)
      else
        let hdr := bytes_entity b in
        if negb (be32_to_cpu (magic hdr) =? SEAMA_MAGIC) then mret (- Otrx.EINVAL, outs)
        else
          let metasize := be16_to_cpu (metasize hdr) in
          let imagesize := be32_to_cpu (imagesize hdr) in
          if (entity_idx >=? 0) && negb (i =? entity_idx) then
            entities_loop fuel entity_idx (fseek_cur seama (ssize (usize (metasize + imagesize)))) (i + 1) outs
          else if metasize >=? 1024 then mret (- Otrx.EINVAL, outs)
          else
            let outs := outs ++ (if entity_idx <? 0 then [OBlank] else []) ++
              [OEntityOffset (pos seama - sizeof_entity); OEntitySize (ssize (usize (sizeof_entity + metasize + imagesize)));
               OMetaSize metasize; OImageSize (ssize imagesize)] in
            '(buf, seama) ← fread seama metasize;
            if negb (Z.of_nat (length buf) =? metasize) then mret (- Otrx.EIO, outs)
            else
              m ← print_meta buf;
              entities_loop fuel entity_idx (fseek_cur seama (ssize imagesize)) (i + 1) (outs ++ m)
  end.

Definition oseama_info_entities (fuel : nat) (entity_idx : Z) (seama : FILE) (outs : list output)
    : M fs (Z * list output) := entities_loop fuel entity_idx seama 0 outs.

(** The exit status and what was printed. *)
Definition oseama_info (fuel : nat) (argv : list string) : M fs (Z * list output) :=
  match argv !! 2%nat with
  | None => mret (- Otrx.EINVAL, [])
  | Some seama_path =>
      let entity_idx := oseama_info_parse_options (drop 3 argv) in
      f ← fopen_r seama_path;
      match f with
      | None => mret (- Otrx.EACCES, [])
      | Some seama =>
          '(b, seama) ← fread seama sizeof_seal;
          if negb (Z.of_nat (length b) =? sizeof_seal) then mret (- Otrx.EIO, [])
          else
            let hdr := bytes_seal b in
            let metasize := be16_to_cpu (seal_metasize hdr) in
            let imagesize := be32_to_cpu (seal_imagesize hdr) in
            if negb (be32_to_cpu (seal_magic hdr) =? SEAMA_MAGIC) then mret (- Otrx.EINVAL, [])
            else if metasize >=? 1024 then mret (- Otrx.EINVAL, [])
            else if negb (imagesize =? 0) then mret (- Otrx.EINVAL, [])
            else
              '(buf, seama) ← fread seama metasize;
              if negb (Z.of_nat (length buf) =? metasize) then mret (- Otrx.EIO, [])
              else
                outs ← (if entity_idx <? 0
                        then m ← print_meta buf; mret ([OMetaSize metasize; OImageSize imagesize] ++ m)
                        else mret []);
                '(_, outs) ← oseama_info_entities fuel entity_idx seama outs;
                mret (0, outs)
      end
  end.

(** * Create *)

(** Each round reads at least one byte of the input. *)
Fixpoint append_loop (fuel : nat) (inp seama : FILE) (length : Z) : M fs (Z * FILE) :=
  match fuel with
  | O => undef
  | S fuel =>
      '(buf, inp) ← fread inp 128;
      match buf with
      | [] => mret (length, seama)
      | _ =>
          '(n, seama) ← fwrite seama buf;
          if negb (n =? Z.of_nat (List.length buf)) then mret (- Otrx.EIO, seama)
          else append_loop fuel inp seama (length + n)
      end
  end.

Definition oseama_entity_append_file (seama : FILE) (in_path : string) : M fs (Z * FILE) :=
  f ← fopen_r in_path;
  match f with
  | None => mret (- Otrx.EACCES, seama)
  | Some inp => s ← get; append_loop (S (length (content s in_path))) inp seama 0
  end.

Definition oseama_entity_append_zeros (seama : FILE) (length : Z) : M fs (Z * FILE) :=
  ok ← malloc;
  if negb ok then mret (- Otrx.ENOMEM, seama)
  else
    '(n, seama) ← fwrite seama (repeat 0 (Z.to_nat length));
    if negb (n =? length) then mret (- Otrx.EIO, seama) else mret (length, seama).

Definition oseama_entity_align (seama : FILE) (curr_offset alignment : Z) : M fs (Z * FILE) :=
  if negb (Z.land curr_offset (alignment - 1) =? 0)
  then oseama_entity_append_zeros seama (alignment - curr_offset mod alignment)
  else mret (0, seama).

(** The digest of the image; each round reads at least one byte. *)
Fixpoint md5_loop (fuel : nat) (seama : FILE) (length : Z) (ctx : Md5.MD5_CTX) : M fs (Md5.MD5_CTX * FILE) :=
  match fuel with
  | O => undef
  | S fuel =>
      '(buf, seama) ← fread seama (oseama_min 128 length);
      match buf with
      | [] => mret (ctx, seama)
      | _ => md5_loop fuel seama (length - Z.of_nat (List.length buf)) (Md5.MD5_Update ctx buf)
      end
  end.

Definition oseama_entity_write_hdr (seama : FILE) (metasize imagesize : Z) : M fs Z :=
  let seama := fseek seama (ssize (usize (sizeof_entity + metasize))) in
  s ← get;
  '(ctx, seama) ← md5_loop (S (length (content s (path seama)))) seama imagesize (Md5.MD5_Init ctx0);
  let hdr := mkEntity (cpu_to_be32 SEAMA_MAGIC) 0 (cpu_to_be16 (u16 metasize)) (cpu_to_be32 (u32 imagesize))
               (Md5.MD5_Final ctx) in
  '(n, seama) ← fwrite (fseek seama 0) (entity_bytes hdr);
  if negb (n =? sizeof_entity) then mret (- Otrx.EIO) else mret 0.

(** The variables of [oseama_entity]. *)
Record entity := mkE { seama : FILE; curr_offset : Z; e_metasize : Z; e_imagesize : Z }.

(** The bytes of an argument with the NUL. *)
Definition string_bytes (s : string) : list Z :=
  ((fun c => Z.of_N (N_of_ascii c)) <$> list_ascii_of_string s) ++ [0].

(** [case 'm'] of the first loop: [sbytes] is not negative after [fwrite]. *)
Definition add_meta (e : entity) (optarg : string) : M fs entity :=
  '(n, f) ← fwrite (seama e) (string_bytes optarg);
  let e := mkE f (usize (curr_offset e + n)) (usize (e_metasize e + n)) (e_imagesize e) in
  '(n, f) ← oseama_entity_align (seama e) (curr_offset e) 4;
  mret (if n <? 0 then mkE f (curr_offset e) (e_metasize e) (e_imagesize e)
        else mkE f (usize (curr_offset e + n)) (usize (e_metasize e + n)) (e_imagesize e)).

(** [case 'f'] and [case 'b'] of the second loop. *)
Definition grow_image (e : entity) (n : Z) (f : FILE) : entity :=
  if n <? 0 then mkE f (curr_offset e) (e_metasize e) (e_imagesize e)
  else mkE f (usize (curr_offset e + n)) (e_metasize e) (usize (e_imagesize e + n)).
Definition add_image (e : entity) (optarg : string) : M fs entity :=
  '(n, f) ← oseama_entity_append_file (seama e) optarg; mret (grow_image e n f).
Definition pad_image (e : entity) (optarg : string) : M fs entity :=
  let n := ssize (usize (strtol W 0 optarg) - curr_offset e) in
  if n <? 0 then mret e
  else '(n, f) ← oseama_entity_append_zeros (seama e) n; mret (grow_image e n f).

Fixpoint meta_loop (opts : list opt) (e : entity) : M fs entity :=
  match opts with
  | [] => mret e
  | Opt c optarg :: opts =>
      e ← (if Ascii.eqb c "m" then add_meta e optarg else mret e); meta_loop opts e
  | Bad :: opts => meta_loop opts e
  end.
Fixpoint image_loop (opts : list opt) (e : entity) : M fs entity :=
  match opts with
  | [] => mret e
  | Opt c optarg :: opts =>
      e ← (if Ascii.eqb c "f" then add_image e optarg
           else if Ascii.eqb c "b" then pad_image e optarg else mret e); image_loop opts e
  | Bad :: opts => image_loop opts e
  end.

Definition oseama_entity (argv : list string) : M fs Z :=
  match argv !! 2%nat with
  | None => mret (- Otrx.EINVAL)
  | Some seama_path =>
      f ← fopen_w seama_path;
      match f with
      | None => mret (- Otrx.EACCES)
      | Some f =>
          let opts := getopt ["m"; "f"; "b"]%char (drop 3 argv) in
          e ← meta_loop opts (mkE (fseek f sizeof_entity) sizeof_entity 0 0);
          e ← image_loop opts e;
          oseama_entity_write_hdr (seama e) (e_metasize e) (e_imagesize e);;
          mret 0
      end
  end.

Definition main (fuel : nat) (argv : list string) : M fs (Z * list output) :=
  match argv !! 1%nat with
  | Some cmd =>
      if bool_decide (cmd = "info"%string) then oseama_info fuel argv
      else if bool_decide (cmd = "entity"%string) then r ← oseama_entity argv; mret (r, [])
      else mret (0, [])
  | None => mret (0, [])
  end.
End oseama.

End Oseama.
