(* ===== verification/OseamaSpec.v ===== *)
(** The Seama tool: what creating an entity writes, that listing a seal shows the entities it
    is made of, and where the tool goes wrong. *)

From Stdlib Require Import ZArith Lia Ascii String.
From stdpp Require Import base list list_numbers numbers strings gmap.
From S2P Require Import Prelude CString Stdio Otrx OtrxSpec Md5 Md5Spec Oseama.

Open Scope list_scope.
Open Scope Z_scope.

Module OseamaSpec.
Import Stdio Oseama.
Import OtrxSpec(zeros, pad, block, length_zeros, block_length).

(** * The format *)

(** An integer with the most significant byte first. *)
Definition be (n : nat) (x : Z) : list Z := reverse (le n x).

Definition header (meta img digest : list Z) : list Z :=
  be 4 SEAMA_MAGIC ++ be 2 0 ++ be 2 (Z.of_nat (length meta)) ++ be 4 (Z.of_nat (length img)) ++ digest.
Definition entity_file (meta img : list Z) : list Z := header meta img (Md5Spec.rfc_md5 img) ++ meta ++ img.

Lemma length_be n x : length (be n x) = n.
Proof. unfold be. by rewrite length_reverse, length_le. Qed.

Lemma length_rfc_md5 m : length (Md5Spec.rfc_md5 m) = 16%nat.
Proof.
  unfold Md5Spec.rfc_md5. destruct (Md5Spec.rfc_blocks _ _ _) as [[[x y] z] w].
  by rewrite !length_app, !Md5Spec.length_bytes.
Qed.

Lemma length_header meta img digest : length digest = 16%nat -> length (header meta img digest) = 28%nat.
Proof. intros H. unfold header. by rewrite !length_app, !length_be, H. Qed.

Lemma le_u16 x : le 2 (u16 x) = le 2 x.
Proof. exact (Md5Spec.le_bytes_mod 2 x). Qed.
Lemma le_u32 x : le 4 (u32 x) = le 4 x.
Proof. exact (Md5Spec.le_bytes_mod 4 x). Qed.

Section entity.
Context (big : bool) (W : Z) (ctx0 : Md5.MD5_CTX).
Hypothesis HW : 32 <= W.
Hypothesis Hctx : length (Md5.buffer ctx0) = 64%nat /\ length (Md5.block ctx0) = 16%nat.
Implicit Types (s : fs) (p q : string) (meta img data : list Z).

Lemma entity_bytes_be meta img digest :
  entity_bytes big (mkEntity (cpu_to_be32 big SEAMA_MAGIC) 0 (cpu_to_be16 big (u16 (Z.of_nat (length meta))))
    (cpu_to_be32 big (u32 (Z.of_nat (length img)))) digest) = header meta img digest.
Proof.
  unfold entity_bytes, header, cpu_to_be32, cpu_to_be16. cbn [magic reserved metasize imagesize md5].
  rewrite !native_be. unfold be. rewrite le_u16, le_u32. do 2 f_equal. by destruct big.
Qed.

(** * Creating an entity *)

(** The digest is taken of what there is of the wanted bytes, in any number of reads. *)
Lemma md5_loop_ok fuel : forall p s pos len ctx,
  0 <= pos -> 0 <= len ->
  (length (drop (Z.to_nat pos) (content s p)) < fuel)%nat ->
  exists pieces f, md5_loop fuel (mkFILE p pos) len ctx s = Ok (fold_left Md5.MD5_Update pieces ctx, f) s /\
    path f = p /\ concat pieces = take (Z.to_nat len) (drop (Z.to_nat pos) (content s p)).
Proof.
  induction fuel as [|fuel IH]; intros p s pos len ctx Hp Hl Hf; [lia|].
  set (rest := drop (Z.to_nat pos) (content s p)) in *.
  cbn [md5_loop]. set (n := oseama_min 128 len).
  assert (0 <= n <= len /\ (n = 0 -> len = 0)) as Hn
    by (unfold n, oseama_min; destruct (_ <? _) eqn:?; lia).
  unfold mbind, M_bind. rewrite fread_eq. cbn [path Stdio.pos]. fold rest.
  set (bs := take (Z.to_nat n) rest). assert (length bs = Z.to_nat n `min` length rest)%nat as Lb by apply length_take.
  destruct bs as [|b buf] eqn:Eb.
  - exists [], (mkFILE p (pos + Z.of_nat (length (@nil Z)))). split; [done|]. split; [done|]. simpl in Lb.
    destruct rest as [|x rest'] eqn:Er; [by rewrite take_nil|].
    simpl in Lb. replace len with 0 by lia. done.
  - assert (0 < length bs)%nat as Hpos by (rewrite Eb; simpl; lia). rewrite <- Eb in *. clear Eb b buf.
    assert (drop (Z.to_nat (pos + Z.of_nat (length bs))) (content s p) = drop (length bs) rest) as Ed.
    { unfold rest. rewrite drop_drop. f_equal. lia. }
    assert (take (length bs) rest = bs) as Etk.
    { unfold bs at 2. rewrite Lb. destruct (decide (Z.to_nat n <= length rest)%nat).
      - by rewrite Nat.min_l by lia.
      - by rewrite Nat.min_r, !take_ge by lia. }
    destruct (IH p s (pos + Z.of_nat (length bs)) (len - Z.of_nat (length bs)) (Md5.MD5_Update ctx bs))
      as (pieces & f & E & Hpf & Hcat); [lia|lia|rewrite Ed, length_drop; lia|].
    exists (bs :: pieces), f. cbn [fold_left concat]. split; [exact E|]. split; [exact Hpf|].
    rewrite Hcat, Ed, <- Etk at 1. rewrite take_take_drop. f_equal. lia.
Qed.

(** Appending is the code of the TRX tool. *)
Lemma append_file_same : oseama_entity_append_file = Otrx.otrx_create_append_file.
Proof. reflexivity. Qed.
Lemma append_zeros_same : oseama_entity_append_zeros = Otrx.otrx_create_append_zeros.
Proof. reflexivity. Qed.
Lemma align_same : oseama_entity_align = Otrx.otrx_create_align.
Proof. reflexivity. Qed.
Lemma usize_fits z : 0 <= z < 2 ^ 32 -> usize W z = z.
Proof. exact (OtrxSpec.usize_small W HW z). Qed.
Lemma ssize_fits z : - 2 ^ 31 <= z < 2 ^ 31 -> ssize W z = z.
Proof. exact (OtrxSpec.ssize_small W HW z). Qed.

(** The variables of the loops and the file they have written. *)
Definition entity_at (p : string) (meta img : list Z) : entity :=
  mkE (mkFILE p (28 + Z.of_nat (length (meta ++ img)))) (28 + Z.of_nat (length (meta ++ img)))
    (Z.of_nat (length meta)) (Z.of_nat (length img)).
Abbreviation file_at p data s := (put p (app_at [] 28 data) s).

Lemma add_meta_ok p meta a s :
  quiet s -> Z.of_nat (length meta) mod 4 = 0 ->
  let meta' := meta ++ block (string_bytes a) in
  28 + Z.of_nat (length meta') < 2 ^ 31 ->
  add_meta W (entity_at p meta []) a (file_at p meta s) = Ok (entity_at p meta' []) (file_at p meta' s).
Proof.
  intros Hq Hm meta' Hb. set (d := string_bytes a) in *. unfold add_meta, mbind, M_bind.
  cbn [seama entity_at e_metasize e_imagesize curr_offset]. rewrite !app_nil_r. fold d.
  rewrite (fwrite_quiet _ _ _ (app_at [] 28 meta)) by (done || apply files_put). cbn [path pos].
  rewrite OtrxSpec.st_of_app. unfold meta', block in Hb. rewrite !length_app, !Nat2Z.inj_add in Hb.
  cbn [seama entity_at e_metasize e_imagesize curr_offset].
  rewrite !usize_fits, align_same by lia.
  assert (28 + Z.of_nat (length meta) + Z.of_nat (length d) = 28 + Z.of_nat (length (meta ++ d))) as Ec
    by (rewrite length_app; lia). rewrite Ec.
  rewrite (OtrxSpec.align_ok _ _ (app_at [] 28 (meta ++ d))) by (done || lia || apply files_put).
  rewrite OtrxSpec.st_of_app, <- app_assoc.
  assert (pad (28 + Z.of_nat (length (meta ++ d))) = pad (Z.of_nat (length d))) as Ep
    by (rewrite <- Ec; unfold pad; dlia).
  rewrite Ep. set (n := pad (Z.of_nat (length d))) in *. assert (0 <= n) as Hn by (unfold n, pad; dlia).
  pose proof (length_zeros n Hn) as Lz. rewrite Lz in Hb. replace (n <? 0) with false by lia.
  rewrite <- Ec, !usize_fits by lia. unfold mret, M_ret, entity_at, meta', block. fold n.
  rewrite !app_nil_r, !length_app, !Nat2Z.inj_add, Lz. f_equal. f_equal; [f_equal|..]; lia.
Qed.

(** The image that options add to. *)
Definition image_step (s : fs) (meta img : list Z) (o : opt) : list Z :=
  match o with
  | Opt c a =>
      if Ascii.eqb c "f" then img ++ content s a
      else if Ascii.eqb c "b" then img ++ zeros (strtol W 0 a - (28 + Z.of_nat (length (meta ++ img))))
      else img
  | Bad => img
  end.
Definition image_of (s : fs) (meta : list Z) (opts : list opt) : list Z := fold_left (image_step s meta) opts [].

Definition meta_step (meta : list Z) (o : opt) : list Z :=
  match o with
  | Opt c a => if Ascii.eqb c "m" then meta ++ block (string_bytes a) else meta
  | Bad => meta
  end.
Definition meta_of (opts : list opt) : list Z := fold_left meta_step opts [].

Lemma meta_grows opts : forall meta, (length meta <= length (fold_left meta_step opts meta))%nat.
Proof.
  induction opts as [|o opts IH]; intros meta; [done|]. simpl. etrans; [|apply IH].
  destruct o as [c a|]; [|done]. simpl. destruct (Ascii.eqb c "m"); rewrite ?length_app; lia.
Qed.
Lemma image_grows s meta opts : forall img, (length img <= length (fold_left (image_step s meta) opts img))%nat.
Proof.
  induction opts as [|o opts IH]; intros img; [done|]. simpl. etrans; [|apply IH].
  destruct o as [c a|]; [|done]. simpl. repeat case_match; rewrite ?length_app; lia.
Qed.

Lemma meta_loop_ok p s opts : forall meta,
  quiet s -> Z.of_nat (length meta) mod 4 = 0 ->
  28 + Z.of_nat (length (fold_left meta_step opts meta)) < 2 ^ 31 ->
  meta_loop W opts (entity_at p meta []) (file_at p meta s) =
    Ok (entity_at p (fold_left meta_step opts meta) []) (file_at p (fold_left meta_step opts meta) s).
Proof.
  induction opts as [|o opts IH]; intros meta Hq Hm Hb; [done|].
  destruct o as [c a|]; [|by apply IH]. cbn [meta_loop fold_left meta_step] in *.
  pose proof (meta_grows opts (meta_step meta (Opt c a))) as Hg. cbn [meta_step] in Hg.
  unfold mbind, M_bind. destruct (Ascii.eqb c "m"); [|by apply IH].
  rewrite add_meta_ok by (done || lia). apply IH; [done| |done].
  rewrite length_app, Nat2Z.inj_add. pose proof (block_length (string_bytes a)). dlia.
Qed.

Lemma grow_image_at p meta img d :
  28 + Z.of_nat (length (meta ++ img ++ d)) < 2 ^ 31 ->
  grow_image W (entity_at p meta img) (Z.of_nat (length d))
    (mkFILE p (28 + Z.of_nat (length (meta ++ img)) + Z.of_nat (length d))) = entity_at p meta (img ++ d).
Proof.
  intros H. rewrite !length_app, !Nat2Z.inj_add in H. unfold grow_image, entity_at.
  cbn [seama e_metasize e_imagesize curr_offset]. replace (Z.of_nat (length d) <? 0) with false by lia.
  rewrite !length_app, !Nat2Z.inj_add. rewrite !usize_fits by lia. f_equal; [f_equal|..]; lia.
Qed.

Lemma add_image_ok p meta img a s d :
  quiet s -> p <> a -> files s !! a = Some d -> (a ∉ locked s) ->
  28 + Z.of_nat (length (meta ++ img ++ d)) < 2 ^ 31 ->
  add_image W (entity_at p meta img) a (file_at p (meta ++ img) s) =
    Ok (entity_at p meta (img ++ d)) (file_at p (meta ++ img ++ d) s).
Proof.
  intros Hq Hne Ha Hl Hb. unfold add_image, mbind, M_bind. rewrite append_file_same. cbn [seama entity_at].
  rewrite (OtrxSpec.append_file_ok p a _ (app_at [] 28 (meta ++ img)) d);
    [|done|done|apply files_put|apply OtrxSpec.data_size|by rewrite files_put_ne|done].
  rewrite OtrxSpec.st_of_app, <- app_assoc. fold (entity_at p meta img). by rewrite grow_image_at.
Qed.

Lemma pad_image_ok p meta img a s :
  let cur := 28 + Z.of_nat (length (meta ++ img)) in
  quiet s -> cur < 2 ^ 31 -> - 2 ^ (W - 1) + 2 ^ 31 <= strtol W 0 a < 2 ^ 31 ->
  pad_image W (entity_at p meta img) a (file_at p (meta ++ img) s) =
    Ok (entity_at p meta (img ++ zeros (strtol W 0 a - cur)))
       (file_at p (meta ++ img ++ zeros (strtol W 0 a - cur)) s).
Proof.
  intros cur Hq Hd Hz. unfold pad_image. set (z := strtol W 0 a) in *.
  cbn [curr_offset entity_at]. fold cur. pose proof (OtrxSpec.pow_W W HW) as (P1 & P2 & P3).
  assert (ssize W (usize W z - cur) = z - cur) as ->.
  { unfold ssize, usize.
    replace (z mod 2 ^ W - cur + 2 ^ (W - 1)) with (z mod 2 ^ W + (2 ^ (W - 1) - cur)) by lia.
    rewrite Zplus_mod_idemp_l, Z.mod_small; lia. }
  destruct (z - cur <? 0) eqn:E.
  - unfold zeros. replace (Z.to_nat (z - cur)) with 0%nat by lia. simpl. by rewrite !app_nil_r.
  - unfold mbind, M_bind. rewrite append_zeros_same. cbn [seama entity_at]. fold cur.
    rewrite (OtrxSpec.append_zeros_ok _ _ (app_at [] 28 (meta ++ img))); [|done|apply files_put|lia].
    unfold cur at 2. rewrite OtrxSpec.st_of_app, <- app_assoc. fold cur.
    assert (Z.of_nat (length (zeros (z - cur))) = z - cur) as Lz by (apply length_zeros; lia).
    rewrite <- Lz at 1 2. fold (entity_at p meta img). unfold cur at 2. rewrite grow_image_at; [done|].
    rewrite app_assoc, length_app, Nat2Z.inj_add, Lz. lia.
Qed.

(** Image files can be read and are not the entity itself; an offset does not wrap. *)
Definition opt_ok (s : fs) (p : string) (o : opt) : Prop :=
  match o with
  | Opt c a =>
      if Ascii.eqb c "f" then p <> a /\ is_Some (files s !! a) /\ (a ∉ locked s)
      else if Ascii.eqb c "b" then - 2 ^ (W - 1) + 2 ^ 31 <= strtol W 0 a
      else True
  | Bad => True
  end.

Lemma image_loop_ok p s meta opts : forall img,
  quiet s -> Forall (opt_ok s p) opts ->
  28 + Z.of_nat (length (meta ++ fold_left (image_step s meta) opts img)) < 2 ^ 31 ->
  image_loop W opts (entity_at p meta img) (file_at p (meta ++ img) s) =
    Ok (entity_at p meta (fold_left (image_step s meta) opts img))
       (file_at p (meta ++ fold_left (image_step s meta) opts img) s).
Proof.
  induction opts as [|o opts IH]; intros img Hq Ho Hb; [done|]. apply Forall_cons in Ho as [Ho Hos].
  destruct o as [c a|]; [|by apply IH]. cbn [image_loop fold_left image_step opt_ok] in *.
  pose proof (image_grows s meta opts (image_step s meta img (Opt c a))) as Hg. cbn [image_step] in Hg.
  rewrite length_app in Hb. unfold mbind, M_bind. destruct (Ascii.eqb c "f").
  - destruct Ho as (Hne & [d Ea] & Hl). assert (content s a = d) as Ec by (unfold content; by rewrite Ea).
    rewrite Ec in *. rewrite (add_image_ok p meta img a s d) by (done || (rewrite length_app; lia)).
    apply IH; [done..|]. rewrite length_app. lia.
  - destruct (Ascii.eqb c "b"); [|apply IH; (done || (rewrite length_app; lia))].
    set (z := strtol W 0 a) in *. set (cur := 28 + Z.of_nat (length (meta ++ img))) in *.
    assert (length (zeros (z - cur)) = Z.to_nat (z - cur)) as Lz by apply repeat_length.
    rewrite length_app, Lz in Hg. unfold cur in *. rewrite length_app in *.
    rewrite pad_image_ok; fold z; try done; rewrite ?length_app; try lia.
    apply IH; [done..|]. rewrite length_app. lia.
Qed.

Lemma drop_file_at meta img :
  take (length img) (drop (28 + length meta) (app_at [] 28 (meta ++ img))) = img.
Proof.
  unfold app_at. destruct (meta ++ img) as [|x l] eqn:E.
  - apply app_eq_nil in E as [-> ->]. by rewrite take_0.
  - rewrite <- E, write_at_end by (simpl; lia). simpl app. rewrite <- drop_drop.
    change (drop 28 _) with (meta ++ img). by rewrite drop_app_length, take_ge.
Qed.

Lemma entity_hdr_ok p x meta img s :
  quiet s -> 28 + Z.of_nat (length (meta ++ img)) < 2 ^ 31 -> Forall (fun b => 0 <= b < 256) img ->
  oseama_entity_write_hdr big W ctx0 (mkFILE p x) (Z.of_nat (length meta)) (Z.of_nat (length img))
    (file_at p (meta ++ img) s) = Ok 0 (put p (entity_file meta img) s).
Proof.
  intros Hq Hb Hby. rewrite length_app, Nat2Z.inj_add in Hb. unfold oseama_entity_write_hdr, sizeof_entity.
  rewrite (usize_fits (28 + _)), ssize_fits, fseek_ok by lia. unfold mbind, M_bind, get. cbn [path].
  set (st := file_at p (meta ++ img) s).
  assert (content st p = app_at [] 28 (meta ++ img)) as Ec by apply content_put. rewrite Ec.
  destruct (md5_loop_ok (S (length (app_at [] 28 (meta ++ img)))) p st (28 + Z.of_nat (length meta))
    (Z.of_nat (length img)) (Md5.MD5_Init ctx0)) as (pieces & f & E & Hf & Hcat);
    [lia|lia|rewrite Ec, length_drop; lia|]. rewrite E. destruct f as [q y]. simpl in Hf. subst q.
  rewrite Ec, Nat2Z.id, Z2Nat.inj_add, Nat2Z.id in Hcat by lia. change (Z.to_nat 28) with 28%nat in Hcat.
  rewrite drop_file_at in Hcat.
  assert (Md5.MD5_Final (fold_left Md5.MD5_Update pieces (Md5.MD5_Init ctx0)) = Md5Spec.rfc_md5 img) as Ed.
  { rewrite <- Hcat in Hby. apply Forall_concat in Hby. destruct Hctx as [H1 H2].
    pose proof (Md5Spec.md5_pieces ctx0 pieces H1 H2 Hby) as Em. by rewrite <- Hcat. }
  rewrite Ed, entity_bytes_be, fseek_ok by lia.
  assert (length (header meta img (Md5Spec.rfc_md5 img)) = 28%nat) as Lh by apply length_header, length_rfc_md5.
  rewrite (fwrite_quiet _ _ _ (app_at [] 28 (meta ++ img))) by (done || apply files_put). cbn [path pos].
  rewrite Lh. unfold st. rewrite put_put, OtrxSpec.hdr_over_data by done. done.
Qed.

Lemma entity_ok p args s :
  let opts := getopt ["m"; "f"; "b"]%char args in
  let meta := meta_of opts in
  let img := image_of s meta opts in
  quiet s -> (p ∉ locked s) -> Forall (opt_ok s p) opts -> 28 + Z.of_nat (length (meta ++ img)) < 2 ^ 31 ->
  Forall (fun b => 0 <= b < 256) img ->
  oseama_entity big W ctx0 ("oseama" :: "entity" :: p :: args)%string s = Ok 0 (put p (entity_file meta img) s).
Proof.
  intros opts meta img Hq Hl Ho Hb Hby. unfold oseama_entity. cbn [lookup list_lookup drop]. rewrite drop_0.
  unfold mbind, M_bind. rewrite fopen_w_ok, fseek_ok by (done || unfold sizeof_entity; lia). fold opts.
  change (mkE _ sizeof_entity 0 0) with (entity_at p [] []). change (put p [] s) with (file_at p [] s).
  pose proof Hb as Hb'. rewrite length_app in Hb'.
  rewrite (meta_loop_ok p s opts []) by (done || (fold (meta_of opts); fold meta; lia)).
  fold (meta_of opts). fold meta. rewrite <- (app_nil_r meta) at 2.
  rewrite (image_loop_ok p s meta opts []) by done. fold (image_of s meta opts). fold img.
  cbn [seama e_metasize e_imagesize entity_at]. by rewrite entity_hdr_ok.
Qed.

End entity.

(** * Listing a seal *)

(** An entity as it lies in a seal: meta information, image and digest. *)
Definition ent : Type := list Z * list Z * list Z.
Definition ent_bytes (e : ent) : list Z :=
  let '(meta, img, digest) := e in header meta img digest ++ meta ++ img.
Definition seal_header (meta : list Z) : list Z :=
  be 4 SEAMA_MAGIC ++ be 2 0 ++ be 2 (Z.of_nat (length meta)) ++ be 4 0.
Definition seal_file (meta : list Z) (es : list ent) : list Z :=
  seal_header meta ++ meta ++ concat (ent_bytes <$> es).

(** The meta information of a list of [-m] arguments. *)
Definition metas (ms : list string) : list Z := concat (block ∘ string_bytes <$> ms).

(** The arguments that are listed: padding after one looks like the end of the list. *)
Fixpoint printed (ms : list string) : list (list Z) :=
  match ms with
  | [] => []
  | a :: ms =>
      if bool_decide (a = EmptyString) then []
      else ((fun c => Z.of_N (N_of_ascii c)) <$> list_ascii_of_string a) ::
           (if Z.of_nat (length (string_bytes a)) mod 4 =? 0 then printed ms else [])
  end.

Definition no_nul (a : string) : Prop := Forall (fun c => c <> Ascii.zero) (list_ascii_of_string a).

Lemma strlen_string a rest :
  no_nul a -> strlen (string_bytes a ++ rest) = length (list_ascii_of_string a).
Proof.
  unfold no_nul, string_bytes. generalize (list_ascii_of_string a). intros l H. rewrite <- app_assoc.
  induction H as [|c l Hc _ IH]; [done|]. cbn [fmap list_fmap app strlen length].
  destruct (Z.eqb_spec (Z.of_N (N_of_ascii c)) 0) as [E|_]; [|exact (f_equal S IH)].
  destruct Hc. rewrite <- (ascii_N_embedding c). by replace (N_of_ascii c) with 0%N by lia.
Qed.

Lemma meta_entries_stop fuel l : meta_entries fuel (0 :: l) = [].
Proof. destruct fuel as [|fuel]; [done|]. cbn [meta_entries strlen]. by rewrite andb_false_r. Qed.

Lemma meta_entries_metas ms : forall fuel,
  Forall no_nul ms -> (length (metas ms) <= fuel)%nat -> meta_entries fuel (metas ms) = OMetaEntry <$> printed ms.
Proof.
  induction ms as [|a ms IH]; intros fuel Hn Hf; [by destruct fuel|].
  apply Forall_cons in Hn as [Ha Hn].
  assert (metas (a :: ms) = string_bytes a ++ zeros (pad (Z.of_nat (length (string_bytes a)))) ++ metas ms) as E.
  { unfold metas. cbn [fmap list_fmap concat compose]. unfold block at 1. by rewrite app_assoc. }
  rewrite E in *. pose proof (strlen_string a (zeros (pad (Z.of_nat (length (string_bytes a)))) ++ metas ms) Ha) as Hs.
  assert (length (string_bytes a) = S (length (list_ascii_of_string a))) as Lb
    by (unfold string_bytes; rewrite length_app, length_fmap; simpl; lia).
  cbn [printed]. rewrite length_app in Hf. destruct fuel as [|fuel]; [lia|].
  destruct a as [|c a]; [by apply meta_entries_stop|].
  rewrite bool_decide_false by done. cbn [meta_entries]. rewrite Hs.
  cbn [list_ascii_of_string length] in Lb, Hs |- *.
  replace (1 <? _)%nat with true by (symmetry; apply Nat.ltb_lt; rewrite length_app; lia).
  cbn [Nat.eqb negb andb fmap list_fmap]. f_equal.
  - f_equal. unfold string_bytes at 1. cbn [list_ascii_of_string]. rewrite <- app_assoc.
    rewrite take_app_length' by (by rewrite length_fmap). done.
  - rewrite drop_app_length' by lia. set (n := Z.of_nat (length (string_bytes (String c a)))) in *.
    destruct (Z.eqb_spec (n mod 4) 0) as [En|En].
    + replace (pad n) with 0 by (unfold pad; dlia). apply IH; [done|]. rewrite length_app in Hf. lia.
    + assert (0 < pad n) as Hp by (unfold pad; dlia). unfold zeros.
      destruct (Z.to_nat (pad n)) eqn:Ez; [lia|]. apply meta_entries_stop.
Qed.

Lemma metas_last ms : ms <> [] -> exists l, metas ms = l ++ [0].
Proof.
  intros H. destruct (exists_last H) as (ms' & a & ->). unfold metas.
  rewrite fmap_app, concat_app. cbn [fmap list_fmap concat compose]. rewrite app_nil_r.
  enough (exists l, block (string_bytes a) = l ++ [0]) as [l ->] by (eexists; apply app_assoc).
  unfold block. destruct (Z.to_nat (pad (Z.of_nat (length (string_bytes a))))) as [|k] eqn:E; unfold zeros; rewrite E.
  - unfold string_bytes. simpl. rewrite app_nil_r. eauto.
  - rewrite <- replicate_repeat_eq, replicate_S_end, app_assoc. eauto.
Qed.

Lemma print_metas ms s :
  ms <> [] -> Forall no_nul ms -> print_meta (metas ms) s = Ok (OMetaEntry <$> printed ms) s.
Proof.
  intros Hne Hn. destruct (metas_last ms Hne) as [l E]. unfold print_meta.
  destruct (metas ms) as [|x m] eqn:Em; [by destruct l|]. rewrite <- Em in *.
  assert (<[(length (metas ms) - 1)%nat := 0]> (metas ms) = metas ms) as ->.
  { apply list_insert_id. rewrite E, length_app, lookup_app_r by (simpl; lia). simpl.
    by replace (length l + 1 - 1 - length l)%nat with 0%nat by lia. }
  unfold mret, M_ret. by rewrite meta_entries_metas.
Qed.

Section listing.
Context (big : bool) (W : Z) (ctx0 : Md5.MD5_CTX).
Hypothesis HW : 32 <= W.

Lemma read_be n x : 0 <= x < 256 ^ Z.of_nat n ->
  (if big then unnative big (be n x) else bswap n (unnative big (be n x))) = x.
Proof.
  intros H. rewrite unnative_be; [|apply Forall_reverse, le_bytes|apply length_be].
  unfold be. rewrite reverse_involutive. by apply unle_le.
Qed.

(** A field in the middle of a header. *)
Lemma middle_be n x (a b : list Z) k : length a = k -> take n (drop k (a ++ be n x ++ b)) = be n x.
Proof. intros <-. by rewrite drop_app_length, take_app_length' by (by rewrite length_be). Qed.

Lemma first_be n x (b : list Z) : take n (drop 0 (be n x ++ b)) = be n x.
Proof. exact (middle_be n x [] b 0 eq_refl). Qed.

Lemma read_entity_header meta img digest rest :
  length digest = 16%nat -> Z.of_nat (length meta) < 2 ^ 16 -> Z.of_nat (length img) < 2 ^ 32 ->
  let b := take 28 (header meta img digest ++ rest) in
  Z.of_nat (length b) = 28 /\ be32_to_cpu big (magic (bytes_entity big b)) = SEAMA_MAGIC /\
  be16_to_cpu big (metasize (bytes_entity big b)) = Z.of_nat (length meta) /\
  be32_to_cpu big (imagesize (bytes_entity big b)) = Z.of_nat (length img).
Proof.
  intros Hd Hm Hi b. unfold b. rewrite take_app_length' by (by rewrite length_header).
  split; [by rewrite length_header|]. unfold bytes_entity. cbn [magic metasize imagesize].
  unfold be32_to_cpu, be16_to_cpu. unfold header. split_and!.
  - rewrite first_be. by apply read_be.
  - rewrite (app_assoc (be 4 _)), middle_be by (by rewrite length_app, !length_be). apply read_be. simpl. lia.
  - rewrite (app_assoc (be 2 _)), (app_assoc (be 4 _)), middle_be
      by (by rewrite !length_app, !length_be). apply read_be. simpl. lia.
Qed.

Lemma read_seal_header meta rest :
  Z.of_nat (length meta) < 2 ^ 16 ->
  let b := take 12 (seal_header meta ++ rest) in
  Z.of_nat (length b) = 12 /\ be32_to_cpu big (seal_magic (bytes_seal big b)) = SEAMA_MAGIC /\
  be16_to_cpu big (seal_metasize (bytes_seal big b)) = Z.of_nat (length meta) /\
  be32_to_cpu big (seal_imagesize (bytes_seal big b)) = 0.
Proof.
  intros Hm b. assert (length (seal_header meta) = 12%nat) as L by (unfold seal_header; by rewrite !length_app, !length_be).
  unfold b. rewrite take_app_length' by done. split; [by rewrite L|].
  unfold bytes_seal, be32_to_cpu, be16_to_cpu, seal_header. cbn [seal_magic seal_metasize seal_imagesize]. split_and!.
  - rewrite first_be. by apply read_be.
  - rewrite (app_assoc (be 4 _)), middle_be by (by rewrite length_app, !length_be). apply read_be. simpl. lia.
  - rewrite <- (app_nil_r (be 4 0)), !app_assoc, <- (app_assoc _ (be 4 0)), middle_be
      by (by rewrite !length_app, !length_be). by apply read_be.
Qed.

(** What is printed of the entities from index [i] at [off] on; all of them when [idx] is
    negative. *)
Definition of_args (e : list string * list Z * list Z) : ent := (metas e.1.1, e.1.2, e.2).
Fixpoint entity_lines (idx off i : Z) (es : list (list string * list Z * list Z)) : list output :=
  match es with
  | [] => []
  | (ms, img, digest) :: es =>
      let m := Z.of_nat (length (metas ms)) in
      let n := Z.of_nat (length img) in
      (if (idx <? 0) || (i =? idx)
       then (if idx <? 0 then [OBlank] else []) ++
            [OEntityOffset off; OEntitySize (28 + m + n); OMetaSize m; OImageSize n] ++
            (OMetaEntry <$> printed ms)
       else []) ++ entity_lines idx (off + 28 + m + n) (i + 1) es
  end.

Definition meta_ok (ms : list string) : Prop :=
  ms <> [] /\ Forall no_nul ms /\ Z.of_nat (length (metas ms)) < 1024.

Lemma length_ent meta img digest :
  length digest = 16%nat -> Z.of_nat (length (ent_bytes (meta, img, digest))) = 28 + Z.of_nat (length meta) + Z.of_nat (length img).
Proof. intros H. unfold ent_bytes. rewrite !length_app, length_header by done. lia. Qed.

Lemma fseek_cur_ok p x off : 0 <= x -> 0 <= off -> fseek_cur (mkFILE p x) off = mkFILE p (x + off).
Proof. intros H1 H2. unfold fseek_cur. cbn [pos path]. by replace (x + off <? 0) with false by lia. Qed.

Lemma entities_loop_ok p idx s : forall es pre i outs fuel,
  content s p = pre ++ concat (ent_bytes ∘ of_args <$> es) -> (length es < fuel)%nat ->
  Forall (fun e => meta_ok e.1.1 /\ length e.2 = 16%nat) es -> Z.of_nat (length (content s p)) < 2 ^ 31 ->
  entities_loop big W fuel idx (mkFILE p (Z.of_nat (length pre))) i outs s =
    Ok (0, outs ++ entity_lines idx (Z.of_nat (length pre)) i es) s.
Proof.
  induction es as [|[[ms img] digest] es IH]; intros pre i outs fuel Hc Hf Hok Hb;
    (destruct fuel as [|fuel]; [simpl in Hf; lia|]); cbn [entities_loop]; unfold mbind, M_bind;
    rewrite fread_eq; cbn [path pos]; rewrite Nat2Z.id, Hc, drop_app_length.
  - cbn [fmap list_fmap concat entity_lines]. rewrite take_nil, app_nil_r. done.
  - cbn [fmap list_fmap concat compose] in *. 
    change (ent_bytes (of_args (ms, img, digest))) with (ent_bytes (metas ms, img, digest)) in *.
    apply Forall_cons in Hok as [[(Hne & Hnn & Hm) Hd] Hok]. cbn [fst snd] in *.
    set (meta := metas ms) in *. set (tl := concat _) in *.
    pose proof (length_ent meta img digest Hd) as Le.
    assert (length (content s p) = length pre + length (ent_bytes (meta, img, digest)) + length tl)%nat as Lc
      by (rewrite Hc, !length_app; lia).
    change (ent_bytes (meta, img, digest)) with (header meta img digest ++ meta ++ img) in *.
    rewrite <- !app_assoc. change (Z.to_nat sizeof_entity) with 28%nat.
    destruct (read_entity_header meta img digest (meta ++ img ++ tl) Hd) as (L1 & L2 & L3 & L4); [lia|lia|].
    set (b := take 28 _) in *. rewrite L1. change (28 =? sizeof_entity) with true. cbn [negb].
    rewrite L2, L3, L4, Z.eqb_refl. cbn [negb].
    set (m := Z.of_nat (length meta)) in *. set (n := Z.of_nat (length img)) in *.
    assert (content s p = (pre ++ ent_bytes (meta, img, digest)) ++ concat (ent_bytes ∘ of_args <$> es)) as Hc'
      by (rewrite Hc; unfold tl, ent_bytes; by rewrite <- !app_assoc).
    assert (Z.of_nat (length (pre ++ ent_bytes (meta, img, digest))) = Z.of_nat (length pre) + 28 + m + n) as Lp
      by (rewrite length_app, Nat2Z.inj_add, length_ent by done; unfold m, n; lia).
    pose proof (fun i outs => IH _ i outs fuel Hc' ltac:(simpl in Hf; lia) Hok Hb) as IH'. rewrite Lp in IH'.
    assert (take (Z.to_nat m) (drop (Z.to_nat (Z.of_nat (length pre) + 28)) (content s p)) = meta) as Emeta.
    { replace (Z.to_nat (Z.of_nat (length pre) + 28)) with (length pre + 28)%nat by lia.
      rewrite Hc, <- drop_drop, drop_app_length, <- !app_assoc, drop_app_length' by (by rewrite length_header).
      unfold m. by rewrite Nat2Z.id, take_app_length. }
    cbn [entity_lines]. fold meta. fold m. fold n. rewrite Z.geb_leb.
    destruct (Z.ltb_spec idx 0) as [Hi|Hi]; [|destruct (Z.eqb_spec i idx) as [->|Hne']]; cbn [orb].
    1: replace (0 <=? idx) with false by lia.
    2,3: replace (0 <=? idx) with true by lia.
    all: cbn [andb negb].
    1,2: replace (m >=? 1024) with false by lia.
    1,2: rewrite fread_eq; cbn [path pos].
    1,2: rewrite Emeta; fold m; rewrite Z.eqb_refl; cbn [negb]; unfold meta at 1; rewrite print_metas by done.
    1,2: rewrite (ssize_fits W HW n), (usize_fits W HW), (ssize_fits W HW (_ + _ + _)), fseek_cur_ok by (unfold sizeof_entity; lia).
    1,2: replace (Z.of_nat (length pre) + 28 - sizeof_entity) with (Z.of_nat (length pre)) by (unfold sizeof_entity; lia).
    1,2: rewrite IH', <- !app_assoc; reflexivity.
    rewrite (usize_fits W HW), (ssize_fits W HW), fseek_cur_ok by lia.
    replace (Z.of_nat (length pre) + 28 + (m + n)) with (Z.of_nat (length pre) + 28 + m + n) by lia. apply IH'.
Qed.

(** The lines of a whole seal. *)
Definition seal_lines (idx : Z) (sms : list string) (es : list (list string * list Z * list Z)) : list output :=
  (if idx <? 0 then [OMetaSize (Z.of_nat (length (metas sms))); OImageSize 0] ++ (OMetaEntry <$> printed sms) else []) ++
  entity_lines idx (12 + Z.of_nat (length (metas sms))) 0 es.

Lemma seal_info_ok p args s sms es fuel :
  let c := seal_file (metas sms) (of_args <$> es) in
  (p ∉ locked s) -> files s !! p = Some c -> Z.of_nat (length c) < 2 ^ 31 ->
  meta_ok sms -> Forall (fun e => meta_ok e.1.1 /\ length e.2 = 16%nat) es -> (length es < fuel)%nat ->
  oseama_info big W fuel ("oseama" :: "info" :: p :: args)%string s =
    Ok (0, seal_lines (oseama_info_parse_options W args) sms es) s.
Proof.
  intros c Hl Hc Hb (Hne & Hnn & Hm) Hok Hf. unfold oseama_info. cbn [lookup list_lookup drop]. rewrite drop_0.
  set (idx := oseama_info_parse_options W args). unfold mbind, M_bind. rewrite (fopen_r_ok _ _ _ Hc Hl).
  assert (content s p = c) as Ec by (unfold content; by rewrite Hc).
  rewrite fread_eq. cbn [path pos]. rewrite Ec. unfold c at 1 2, seal_file at 1 2.
  simpl (Z.to_nat 0). rewrite drop_0. set (meta := metas sms) in *. set (tl := concat _).
  change (Z.to_nat sizeof_seal) with 12%nat.
  destruct (read_seal_header meta (meta ++ tl)) as (L1 & L2 & L3 & L4); [lia|].
  set (b := take 12 _) in *. rewrite L1. change (12 =? sizeof_seal) with true. cbn [negb].
  rewrite L2, L3, L4, Z.eqb_refl. cbn [negb]. replace (Z.of_nat (length meta) >=? 1024) with false by lia.
  change (0 =? 0) with true. cbn [negb]. rewrite fread_eq. cbn [path pos].
  assert (length (seal_header meta) = 12%nat) as Lh by (unfold seal_header; by rewrite !length_app, !length_be).
  assert (take (Z.to_nat (Z.of_nat (length meta))) (drop (Z.to_nat (0 + 12)) (content s p)) = meta) as Em.
  { rewrite Ec. unfold c, seal_file. change (Z.to_nat (0 + 12)) with 12%nat. fold meta.
    by rewrite drop_app_length', Nat2Z.id, take_app_length by done. }
  rewrite Em, Z.eqb_refl. cbn [negb]. unfold seal_lines. fold meta.
  assert (Z.of_nat (length (seal_header meta ++ meta)) = 12 + Z.of_nat (length meta)) as Lp
    by (rewrite length_app, Lh; lia).
  pose proof (fun outs => entities_loop_ok p idx s es (seal_header meta ++ meta) 0 outs fuel) as Hloop.
  rewrite Lp, Ec in Hloop. rewrite Z.add_0_l in *.
  assert (c = (seal_header meta ++ meta) ++ concat (ent_bytes ∘ of_args <$> es)) as Ec2.
  { unfold c, seal_file. fold meta. rewrite <- app_assoc. do 3 f_equal. symmetry. apply list_fmap_compose. }
  unfold oseama_info_entities. destruct (idx <? 0).
  - unfold meta at 1. rewrite print_metas by done. unfold mret, M_ret. by rewrite (Hloop _ Ec2) by done.
  - unfold mret, M_ret. by rewrite (Hloop _ Ec2) by done.
Qed.
End listing.

(** * The commands *)

(** C26: [oseama entity] with readable image files writes exactly one Seama entity: the
    magic number, the sizes and the MD5 digest of RFC 1321 of the image in big-endian order on
    machines of either byte order, then the [-m] arguments with their NUL, each padded to four bytes,
    then the images and zeros of [-f] and [-b] in the order of the options; no other file is
    touched. *)
Theorem oseama_entity_format big W ctx0 fuel s p args :
  let opts := getopt ["m"; "f"; "b"]%char args in
  let meta := meta_of opts in
  let img := image_of W s meta opts in
  32 <= W -> length (Md5.buffer ctx0) = 64%nat -> length (Md5.block ctx0) = 16%nat ->
  quiet s -> (p ∉ locked s) -> Forall (opt_ok W s p) opts -> 28 + Z.of_nat (length (meta ++ img)) < 2 ^ 31 ->
  Forall (fun b => 0 <= b < 256) img ->
  main big W ctx0 fuel ("oseama" :: "entity" :: p :: args)%string s = Ok (0, []) (put p (entity_file meta img) s).
Proof.
  intros opts meta img HW H1 H2 Hq Hl Ho Hb Hby. cbn [main lookup list_lookup]. unfold main. cbn [lookup list_lookup].
  rewrite bool_decide_false, bool_decide_true by done. unfold mbind, M_bind.
  by rewrite (entity_ok big W ctx0 HW (conj H1 H2) p args s).
Qed.

(** [oseama info] lists a seal as it was put together: for any number of entities
    it prints, of every one or of the one chosen with [-e], the offset, the sizes and the meta
    entries, up to and including the first whose padding ends the list, and changes no file. *)
Theorem oseama_info_lists big W ctx0 fuel s p args sms es :
  let c := seal_file (metas sms) (of_args <$> es) in
  32 <= W -> (p ∉ locked s) -> files s !! p = Some c -> Z.of_nat (length c) < 2 ^ 31 ->
  meta_ok sms -> Forall (fun e => meta_ok e.1.1 /\ length e.2 = 16%nat) es -> (length es < fuel)%nat ->
  main big W ctx0 fuel ("oseama" :: "info" :: p :: args)%string s =
    Ok (0, seal_lines (oseama_info_parse_options W args) sms es) s.
Proof. intros c HW. unfold main. cbn [lookup list_lookup]. rewrite bool_decide_true by done. by apply seal_info_ok. Qed.

(** * Where the tool goes wrong *)

Lemma entities_end big W fuel idx p x i outs s :
  Z.of_nat (length (content s p)) <= x ->
  entities_loop big W (S fuel) idx (mkFILE p x) i outs s = Ok (0, outs) s.
Proof.
  intros H. cbn [entities_loop]. unfold mbind, M_bind. rewrite fread_eq. cbn [path pos].
  by rewrite drop_ge, take_nil by lia.
Qed.

Section departures.
Open Scope string_scope.
Open Scope list_scope.
Open Scope Z_scope.

Definition ex_ctx : Md5.MD5_CTX := Md5.mkCtx 0 0 0 0 0 0 (repeat 0 64) (repeat 0 16).
Definition ex_seal (rest : list Z) : fs :=
  mkFs {["s" := seal_header (metas ["a=b"]) ++ metas ["a=b"] ++ rest]} ∅ [].
(** A header that asks for 2^32 - 32 bytes of image after four bytes of meta information. *)
Definition back_entity : list Z :=
  be 4 SEAMA_MAGIC ++ be 2 0 ++ be 2 4 ++ be 4 (2 ^ 32 - 32) ++ repeat 0 16 ++ metas ["c=d"].
Definition back_lines : list output :=
  [OBlank; OEntityOffset 16; OEntitySize 0; OMetaSize 4; OImageSize (-32); OMetaEntry [99; 61; 100]].

(** [oseama info] trusts the sizes it reads and reports success too often: where [long]
    has 32 bits, an image size that is negative as a [long] sends it back to the same header, so the
    listing repeats for ever, while with 64 bits the same file ends; an entity without meta
    information makes it write before its buffer; bytes after the seal that are no entity do not
    change the exit status.  [oseama entity] exits with 0 when an image file is missing. *)
Theorem oseama_departs :
  (forall fuel i outs,
     entities_loop false 32 (S fuel) (-1) (mkFILE "s" 16) i outs (ex_seal back_entity) =
     entities_loop false 32 fuel (-1) (mkFILE "s" 16) (i + 1) (outs ++ back_lines) (ex_seal back_entity)) /\
  (forall fuel i outs, exists outs',
     entities_loop false 64 (2 + fuel) (-1) (mkFILE "s" 16) i outs (ex_seal back_entity) = Ok (0, outs') (ex_seal back_entity)) /\
  main false 64 ex_ctx 3 ["oseama"; "info"; "s"] (ex_seal (entity_file [] [1; 2])) = Undef /\
  main false 64 ex_ctx 3 ["oseama"; "info"; "s"] (ex_seal (repeat 255 28)) =
    Ok (0, [OMetaSize 4; OImageSize 0; OMetaEntry [97; 61; 98]]) (ex_seal (repeat 255 28)) /\
  (exists s, main false 64 ex_ctx 0 ["oseama"; "entity"; "e"; "-f"; "missing"] (ex_seal []) = Ok (0, []) s /\
     content s "e" = entity_file [] []).
Proof.
  split_and!.
  - intros fuel i outs.
    transitivity (entities_loop false 32 fuel (-1) (mkFILE "s" 16) (i + 1)
      ((outs ++ take 5 back_lines) ++ drop 5 back_lines) (ex_seal back_entity)).
    + cbn [entities_loop]. generalize (entities_loop false 32 fuel) as loop. intros loop. vm_compute. reflexivity.
    + by rewrite <- app_assoc, take_drop.
  - intros fuel i outs. eexists. etrans; [|apply (entities_end false 64 fuel (-1) "s" 4294967312 (i + 1)); by vm_compute].
    change (2 + fuel)%nat with (S (S fuel)). generalize (S fuel) as k. intros k.
    cbn [entities_loop]. generalize (entities_loop false 64 k) as loop. intros loop. vm_compute. reflexivity.
  - by vm_compute.
  - by vm_compute.
  - eexists. split; vm_compute; reflexivity.
Qed.

Definition ex_in : fs := mkFs {["img" := [1; 2; 3]]} ∅ [].
Definition ex_args : list string := ["-f"; "img"; "-m"; "dev=x"; "-b"; "44"].

Lemma oseama_entity_format_witness :
  let opts := getopt ["m"; "f"; "b"]%char ex_args in
  meta_of opts = [100; 101; 118; 61; 120; 0; 0; 0] /\
  image_of 32 ex_in (meta_of opts) opts = [1; 2; 3; 0; 0; 0; 0; 0] /\
  main false 32 ex_ctx 0 ("oseama" :: "entity" :: "e" :: ex_args) ex_in =
    Ok (0, []) (put "e" (entity_file (meta_of opts) (image_of 32 ex_in (meta_of opts) opts)) ex_in).
Proof.
  split; [by vm_compute|]. split; [by vm_compute|].
  apply (oseama_entity_format false 32 ex_ctx 0 ex_in "e" ex_args).
  - lia.
  - reflexivity.
  - reflexivity.
  - reflexivity.
  - by vm_compute.
  - repeat constructor; try done; vm_compute; done.
  - by vm_compute.
  - vm_compute. repeat constructor; done.
Defined.

(** Two entities; the second has a padded entry before another one. *)
Definition ex_entities : list (list string * list Z * list Z) :=
  [(["a=b"; "c=d"], [1; 2; 3], repeat 0 16); (["ab=c"; "d=e"], [4], repeat 0 16)].
Definition ex_sealed : fs := mkFs {["s" := seal_file (metas ["x=y"]) (of_args <$> ex_entities)]} ∅ [].

Lemma oseama_info_lists_witness :
  main true 64 ex_ctx 5 ["oseama"; "info"; "s"; "-e"; "1"] ex_sealed =
  Ok (0, [OEntityOffset 55; OEntitySize 41; OMetaSize 12; OImageSize 1; OMetaEntry [97; 98; 61; 99]]) ex_sealed.
Proof.
  apply (oseama_info_lists true 64 ex_ctx 5 ex_sealed "s" ["-e"; "1"] ["x=y"] ex_entities).
  - lia.
  - by vm_compute.
  - reflexivity.
  - by vm_compute.
  - split_and!; [done| |by vm_compute]. repeat constructor; done.
  - repeat constructor; (done || by vm_compute).
  - simpl. lia.
Defined.
End departures.
End OseamaSpec.
