(* ===== verification/AwPool.v ===== *)
(** The memory pool of the multimedia framework,
    [allwinner/libcedarx/libcore/base/AwPool.c] and the inline function of [AwPool.h].

    A pool takes blocks of 8192 bytes from [malloc] and cuts small requests out of them; large
    requests get a block each.  The state has the live blocks of [malloc] and the structures in
    them by their address; a structure whose memory was freed is gone, so using it is
    undefined.  The intrusive lists are lists of addresses, as [CdxListSpec] justifies; a node
    knows the list it is on.  The bytes of the allocations are not in the state, nor are the names and
    lines for log messages. *)

From Stdlib Require Import ZArith Lia.
From stdpp Require Import base list list_numbers numbers gmap fin_maps.
From S2P Require Import Prelude.

Module AwPool.

Definition POOL_BLOCK_SIZE : Z := 8192.
Definition POOL_ALIGNMENT : Z := 8.
Definition POOL_LARGE_SIZE : Z := 4095.

(** * Data *)

(** [pd_pool] is the pool on whose list the block is. *)
Record PoolData := mkPd {
  last : Z; end_ : Z; pmList : list Z; ref : Z; failed : Z; pd_pool : Z
}.
(** [node] is the pool on whose list of large memory the header is; small memory is on the list of
    its owner. *)
Record PoolMemory := mkPm { owner : option Z; pm_size : Z; node : Z }.
(** [father] is the pool on whose list of children the pool is, [locked] the state of the
    mutex. *)
Record Pool := mkPool {
  current : Z; largeList : list Z; pdList : list Z; childList : list Z;
  father : option Z; locked : bool
}.

Record st := mkSt {
  heap : gmap Z Z;
  pds : gmap Z PoolData;
  pms : gmap Z PoolMemory;
  pools : gmap Z Pool;
  gGolbalPool : option Z;
  calls : nat
}.

#[export] Instance eta_pd : Eta PoolData := fun x =>
  mkPd (last x) (end_ x) (pmList x) (ref x) (failed x) (pd_pool x).
#[export] Instance eta_pm : Eta PoolMemory := fun x => mkPm (owner x) (pm_size x) (node x).
#[export] Instance eta_pool : Eta Pool := fun x =>
  mkPool (current x) (largeList x) (pdList x) (childList x) (father x) (locked x).
#[export] Instance eta_st : Eta st := fun x =>
  mkSt (heap x) (pds x) (pms x) (pools x) (gGolbalPool x) (calls x).

Definition init : st := mkSt ∅ ∅ ∅ ∅ None 0.

Section pool.
(** [wide]: pointers of 64 bits; [malloc] is the outcome of the call of that number for the
    live blocks and a size, [attr_ok] whether mutex attributes can be set up. *)
Context (wide : bool) (malloc : nat -> gmap Z Z -> Z -> option Z) (attr_ok : bool).

Definition sizeof_pd : Z := if wide then 64 else 32.
Definition sizeof_pm : Z := if wide then 48 else 24.

Definition AwAlign (d a : Z) : Z := Z.land (d + (a - 1)) (Z.lnot (a - 1)).
(** [pmSize], an [int]. *)
Definition pm_room (size : Z) : Z := s32 (AwAlign (sizeof_pm + size) POOL_ALIGNMENT).

(** * Memory *)

Definition do_malloc (n : Z) : M st (option Z) :=
  s ← get;
  modify (fun s => s <| calls ::= S |>);;
  match malloc (calls s) (heap s) n with
  | Some b => modify (fun s => s <| heap ::= <[b := n]> |>);; mret (Some b)
  | None => mret None
  end.
(** [free] of a block that is not live is undefined. *)
Definition do_free (b : Z) : M st unit :=
  s ← get; lift (heap s !! b);; modify (fun s => s <| heap ::= delete b |>).

Definition load_pd (d : Z) : M st PoolData := s ← get; lift (pds s !! d).
Definition load_pm (x : Z) : M st PoolMemory := s ← get; lift (pms s !! x).
Definition load_pool (p : Z) : M st Pool := s ← get; lift (pools s !! p).
Definition set_pd (d : Z) (D : PoolData) : M st unit := modify (fun s => s <| pds ::= <[d := D]> |>).
Definition set_pm (x : Z) (m : PoolMemory) : M st unit := modify (fun s => s <| pms ::= <[x := m]> |>).
Definition set_pool (p : Z) (P : Pool) : M st unit := modify (fun s => s <| pools ::= <[p := P]> |>).

(** [CdxListDel] on the lists: the node must be on its list. *)
Definition del (x : Z) (l : list Z) : option (list Z) :=
  if bool_decide (x ∈ l) then Some (filter (.≠ x) l) else None.

(** The mutex checks for errors, which the code ignores: a second lock by the same thread
    changes nothing, the next unlock releases it. *)
Definition CdxMutexLock (p : Z) : M st unit :=
  P ← load_pool p; set_pool p (P <| locked := true |>).
Definition CdxMutexUnlock (p : Z) : M st unit :=
  P ← load_pool p; set_pool p (P <| locked := false |>).

(** * Blocks *)

Definition PoolDataIncRef (d : Z) : M st unit :=
  D ← load_pd d; set_pd d (D <| ref ::= Z.add 1 |>).

(** [free(poolData)]: the headers inside the block go with it. *)
Definition free_pd (d : Z) (D : PoolData) : M st unit :=
  do_free d;;
  modify (fun s => s <| pds ::= delete d |>
                     <| pms ::= fun m => foldr delete m (pmList D) |>).

Definition PoolDataDecRef (d : Z) : M st unit :=
  D ← load_pd d;
  let D := D <| ref ::= fun r => r - 1 |> in
  set_pd d D;;
  if ref D =? 0 then
    P ← load_pool (pd_pool D);
    l ← lift (del d (pdList P));
    set_pool (pd_pool D) (P <| pdList := l |>);;
    free_pd d D
  else mret tt.

(** The blocks from [pool->current] to the end of the list. *)
Fixpoint from (d : Z) (l : list Z) : option (list Z) :=
  match l with
  | [] => None
  | x :: l' => if x =? d then Some l else from d l'
  end.

(** The loop of [PallocBlock]: [currentPd] at its end. *)
Fixpoint fail_loop (newPd : Z) (l : list Z) (currentPd : option Z) : M st (option Z) :=
  match l with
  | [] => mret currentPd
  | d :: l =>
      D ← load_pd d;
      set_pd d (D <| failed ::= Z.add 1 |>);;
      if 4 <? failed D then
        PoolDataDecRef d;; fail_loop newPd l (Some (default newPd (head l)))
      else fail_loop newPd l currentPd
  end.

(** A header at the end of block [d]; the address after it is returned. *)
Definition cut (d size room : Z) : M st Z :=
  D ← load_pd d;
  let pm := last D in
  set_pm pm (mkPm (Some d) size d);;
  set_pd d (D <| ref ::= Z.add 1 |> <| pmList ::= fun l => l ++ [pm] |> <| last ::= Z.add room |>);;
  mret (pm + sizeof_pm).

Definition PallocBlock (pool size : Z) : M st (option Z) :=
  r ← do_malloc POOL_BLOCK_SIZE;
  match r with
  | None => mret None
  | Some newPd =>
      P ← load_pool pool;
      l ← lift (from (current P) (pdList P));
      set_pd newPd (mkPd (newPd + AwAlign sizeof_pd POOL_ALIGNMENT) (newPd + POOL_BLOCK_SIZE) [] 1 0 pool);;
      currentPd ← fail_loop newPd l None;
      P ← load_pool pool;
      set_pool pool (P <| pdList ::= fun l => l ++ [newPd] |>
                       <| current := default (current P) currentPd |>);;
      p ← cut newPd size (AwAlign (sizeof_pm + size) POOL_ALIGNMENT);
      mret (Some p)
  end.

Definition PallocLarge (pool size : Z) : M st (option Z) :=
  r ← do_malloc (size + sizeof_pm);
  match r with
  | None => mret None
  | Some pm =>
      set_pm pm (mkPm None size pool);;
      P ← load_pool pool;
      set_pool pool (P <| largeList ::= cons pm |>);;
      mret (Some (pm + sizeof_pm))
  end.

(** * Pools *)

Definition PoolNodeCreate : M st (option Z) :=
  pool ← do_malloc 1024;
  poolData ← do_malloc POOL_BLOCK_SIZE;
  match pool, poolData with
  | Some pool, Some poolData =>
      set_pd poolData (mkPd (poolData + sizeof_pd) (poolData + POOL_BLOCK_SIZE) [] 1 0 pool);;
      if negb attr_ok then mret None
      else
        set_pool pool (mkPool poolData [] [poolData] [] None false);;
        mret (Some pool)
  | _, _ =>
      match pool with Some p => do_free p | None => mret tt end;;
      match poolData with Some d => do_free d | None => mret tt end;;
      mret None
  end.

(** The global pool, made on first use. *)
Definition global_pool : M st (option Z) :=
  s ← get;
  match gGolbalPool s with
  | Some g => mret (Some g)
  | None => g ← PoolNodeCreate; modify (fun s => s <| gGolbalPool := g |>);; mret g
  end.

(** A failure of [PoolNodeCreate] is not looked at. *)
Definition AwPoolCreate (fat : option Z) : M st Z :=
  fat ← (match fat with Some f => mret (Some f) | None => global_pool end);
  p ← PoolNodeCreate;
  pool ← lift p;
  fat ← lift fat;
  P ← load_pool pool;
  set_pool pool (P <| father := Some fat |>);;
  F ← load_pool fat;
  set_pool fat (F <| childList ::= cons pool |>);;
  mret pool.

(** [CdxListDel(&p->node)] *)
Definition del_child (p : Z) : M st unit :=
  P ← load_pool p;
  f ← lift (father P);
  F ← load_pool f;
  l ← lift (del p (childList F));
  set_pool f (F <| childList := l |>);;
  P ← load_pool p;
  set_pool p (P <| father := None |>).

(** The loops of [AwPoolDestroy] over large memory and blocks. *)
Fixpoint free_large (pool : Z) (l : list Z) : M st unit :=
  match l with
  | [] => mret tt
  | pm :: l =>
      P ← load_pool pool;
      l' ← lift (del pm (largeList P));
      set_pool pool (P <| largeList := l' |>);;
      do_free pm;; modify (fun s => s <| pms ::= delete pm |>);;
      free_large pool l
  end.

Fixpoint dec_refs (d : Z) (l : list Z) : M st unit :=
  match l with [] => mret tt | _ :: l => PoolDataDecRef d;; dec_refs d l end.

Fixpoint free_blocks (l : list Z) : M st unit :=
  match l with
  | [] => mret tt
  | d :: l =>
      D ← load_pd d;
      (if 5 <? failed D then PoolDataIncRef d else mret tt);;
      D ← load_pd d;
      (if negb (ref D =? 1) then dec_refs d (pmList D) else mret tt);;
      D ← load_pd d;
      if negb (ref D =? 1) then abort
      else PoolDataDecRef d;; free_blocks l
  end.

(** Pools nest as deep as there are pools. *)
Fixpoint destroy (fuel : nat) (pool : Z) : M st unit :=
  match fuel with
  | O => undef
  | S fuel =>
      P ← load_pool pool;
      (fix children (l : list Z) : M st unit :=
         match l with
         | [] => mret tt
         | c :: l => del_child c;; destroy fuel c;; children l
         end) (childList P);;
      s ← get;
      (if bool_decide (gGolbalPool s = Some pool) then mret tt else del_child pool);;
      P ← load_pool pool;
      free_large pool (largeList P);;
      P ← load_pool pool;
      free_blocks (pdList P);;
      do_free pool;;
      modify (fun s => s <| pools ::= delete pool |>)
  end.
Definition AwPoolDestroy (pool : Z) : M st unit :=
  s ← get; destroy (S (size (pools s))) pool.

Definition AwPoolReset : M st unit :=
  s ← get;
  match gGolbalPool s with
  | Some g => AwPoolDestroy g;; modify (fun s => s <| gGolbalPool := None |>)
  | None => mret tt
  end.

(** * Allocation *)

(** The first block with room. *)
Fixpoint find_block (room : Z) (l : list Z) : M st (option Z) :=
  match l with
  | [] => mret None
  | d :: l =>
      D ← load_pd d;
      if s32 (end_ D - last D) >=? room then mret (Some d) else find_block room l
  end.

Definition palloc (pool size : Z) : M st (option Z) :=
  let room := pm_room size in
  if room <=? POOL_LARGE_SIZE then
    P ← load_pool pool;
    l ← lift (from (current P) (pdList P));
    d ← find_block room l;
    match d with
    | Some d => p ← cut d size room; mret (Some p)
    | None => PallocBlock pool size
    end
  else PallocLarge pool size.

Definition AwPalloc (pool : option Z) (size : Z) : M st (option Z) :=
  if negb (0 <? size) then abort
  else
    p ← (match pool with Some p => mret (Some p) | None => global_pool end);
    pool ← lift p;
    CdxMutexLock pool;;
    ret ← palloc pool size;
    CdxMutexUnlock pool;;
    mret ret.

(** The pool of a call that does not make the global one. *)
Definition the_pool (pool : option Z) : M st Z :=
  s ← get; lift (match pool with Some p => Some p | None => gGolbalPool s end).

(** A header leaves the list it is on; [owner] of small memory must not be null. *)
Definition del_large (x : Z) (m : PoolMemory) : M st unit :=
  P ← load_pool (node m);
  l ← lift (del x (largeList P));
  set_pool (node m) (P <| largeList := l |>);;
  do_free x;; modify (fun s => s <| pms ::= delete x |>).
Definition del_small (x : Z) (m : PoolMemory) : M st unit :=
  d ← lift (owner m);
  D ← load_pd d;
  l ← lift (del x (pmList D));
  set_pd d (D <| pmList := l |>);;
  modify (fun s => s <| pms ::= delete x |>);;
  PoolDataDecRef d.

Definition AwPfree (pool : option Z) (p : Z) : M st unit :=
  pool ← the_pool pool;
  CdxMutexLock pool;;
  let x := p - sizeof_pm in
  m ← load_pm x;
  (if POOL_LARGE_SIZE <? pm_size m then del_large x m else del_small x m);;
  CdxMutexUnlock pool.

(** The header after [x] on the list of its block. *)
Fixpoint next_of (x : Z) (l : list Z) : option Z :=
  match l with
  | [] => None
  | y :: l => if y =? x then head l else next_of x l
  end.

(** The case of memory that stays or moves between blocks; [Some] is the result. *)
Definition grow_small (pool p size : Z) (m : PoolMemory) : M st (option Z) :=
  let x := p - sizeof_pm in
  d ← lift (owner m);
  D ← load_pd d;
  let next := next_of x (pmList D) in
  let freeSize := s32 (match next with None => d + POOL_BLOCK_SIZE | Some y => y end - p) in
  if freeSize >=? size then
    set_pm x (m <| pm_size := size |>);;
    (match next with
     | None => set_pd d (D <| last := x + AwAlign (sizeof_pm + size) POOL_ALIGNMENT |>)
     | Some _ => mret tt
     end);;
    mret (Some p)
  else
    newP ← AwPalloc (Some pool) size;
    newP ← lift newP;
    AwPfree (Some pool) p;;
    mret (Some newP).

Definition AwRealloc (pool : option Z) (p size : Z) : M st (option Z) :=
  if negb (0 <? size) then abort
  else
    pool ← the_pool pool;
    CdxMutexLock pool;;
    let x := p - sizeof_pm in
    m ← load_pm x;
    if negb (pm_size m <? size) then abort
    else
      newP ← (if POOL_LARGE_SIZE <? pm_size m then
                newP ← PallocLarge pool size;
                match newP with None => mret None | Some _ => del_large x m;; mret newP end
              else if POOL_LARGE_SIZE <? size then
                newP ← PallocLarge pool size;
                match newP with None => mret None | Some _ => AwPfree (Some pool) p;; mret newP end
              else grow_small pool p size m);
      CdxMutexUnlock pool;;
      mret newP.

(** [strlen(str) + 1] bytes. *)
Definition AwStrDup (pool : option Z) (len : Z) : M st Z := p ← AwPalloc pool (len + 1); lift p.
End pool.

End AwPool.
