(* ===== verification/AwPoolSpec.v ===== *)
(** The memory pool: every sequence of legal calls keeps the structures well formed, so that
    allocations are aligned, inside live memory and apart from each other, and nothing leaks. *)

From Stdlib Require Import ZArith Lia.
From stdpp Require Import base list list_numbers numbers gmap fin_maps.
From S2P Require Import Prelude AwPool.

Open Scope Z_scope.

Module AwPoolSpec.
Import AwPool.

(** * Rows of headers *)

Section rows.
Context (wide : bool).
Abbreviation spm := (sizeof_pm wide).

(** The bytes that memory of [n] bytes takes with its header. *)
Definition room (n : Z) : Z := AwAlign (spm + n) POOL_ALIGNMENT.

Lemma align_eq d : AwAlign d POOL_ALIGNMENT = d + (- d) mod 8.
Proof.
  unfold AwAlign, POOL_ALIGNMENT. change (8 - 1) with (2 ^ 3 - 1). rewrite land_lnot_ones by lia.
  change (2 ^ 3) with 8. dlia.
Qed.
Lemma spm_range : 24 <= spm <= 48 /\ spm mod 8 = 0.
Proof. unfold sizeof_pm. destruct wide; split; (done || lia). Qed.
Lemma room_range n : spm + n <= room n < spm + n + 8 /\ room n mod 8 = 0.
Proof. unfold room. rewrite align_eq. dlia. Qed.
Lemma pm_room_eq n : 0 < n -> spm + n + 8 <= 2 ^ 31 -> pm_room wide n = room n.
Proof. intros H1 H2. unfold pm_room. fold (room n). apply s32_small. pose proof (room_range n). pose proof spm_range. lia. Qed.

(** [l] are headers between [lo] and [hi], in order and apart, [sz] the sizes. *)
Fixpoint chain (sz : Z -> option Z) (lo : Z) (l : list Z) (hi : Z) : Prop :=
  match l with
  | [] => lo <= hi
  | x :: l => exists n, sz x = Some n /\ 0 < n /\ x mod 8 = 0 /\ lo <= x /\ chain sz (x + room n) l hi
  end.

Lemma room_pos n : 0 < n -> 0 < room n.
Proof. pose proof (room_range n). pose proof spm_range. lia. Qed.

Lemma row_ext sz sz' l : forall lo hi,
  (forall x, x ∈ l -> sz' x = sz x) -> chain sz lo l hi -> chain sz' lo l hi.
Proof.
  induction l as [|x l IH]; intros lo hi E C; [done|]. destruct C as (n & H1 & H2 & H3 & H4 & C).
  exists n. rewrite E by set_solver. split_and!; try done. apply IH; [set_solver|done].
Qed.
Lemma chain_le sz l : forall lo hi, chain sz lo l hi -> lo <= hi.
Proof.
  induction l as [|x l IH]; intros lo hi C; [done|]. destruct C as (n & H1 & H2 & H3 & H4 & C).
  apply IH in C. pose proof (room_pos n H2). lia.
Qed.
Lemma chain_wider sz l : forall lo lo' hi hi', lo' <= lo -> hi <= hi' -> chain sz lo l hi -> chain sz lo' l hi'.
Proof.
  induction l as [|x l IH]; intros lo lo' hi hi' H1 H2 C; [simpl in *; lia|].
  destruct C as (n & E1 & E2 & E3 & E4 & C). exists n. split_and!; try done; [lia|]. by eapply IH; [| |exact C].
Qed.
Lemma row_snoc sz l x n : forall lo hi,
  chain sz lo l x -> sz x = Some n -> 0 < n -> x mod 8 = 0 -> x + room n <= hi -> chain sz lo (l ++ [x]) hi.
Proof.
  induction l as [|y l IH]; intros lo hi C E H1 H2 H3.
  - simpl in *. exists n. split_and!; done.
  - destruct C as (k & E1 & E2 & E3 & E4 & C). exists k. split_and!; try done. by apply IH.
Qed.
Lemma chain_in sz l x : forall lo hi, chain sz lo l hi -> x ∈ l ->
  exists n, sz x = Some n /\ 0 < n /\ x mod 8 = 0 /\ lo <= x /\ x + room n <= hi.
Proof.
  induction l as [|y l IH]; intros lo hi C Hx; [by apply not_elem_of_nil in Hx|].
  destruct C as (k & E1 & E2 & E3 & E4 & C). apply elem_of_cons in Hx as [->|Hx].
  - exists k. split_and!; try done. by apply chain_le in C.
  - destruct (IH _ _ C Hx) as (n & ? & ? & ? & ? & ?). exists n. pose proof (room_pos k E2). split_and!; try done; lia.
Qed.
Lemma chain_apart sz l x y n k : forall lo hi, chain sz lo l hi -> x ∈ l -> y ∈ l -> x <> y ->
  sz x = Some n -> sz y = Some k -> x + room n <= y \/ y + room k <= x.
Proof.
  induction l as [|z l IH]; intros lo hi C Hx Hy Hne En Ek; [by apply not_elem_of_nil in Hx|].
  destruct C as (j & E1 & E2 & E3 & E4 & C).
  apply elem_of_cons in Hx as [->|Hx]; apply elem_of_cons in Hy as [->|Hy]; [done| | |by eapply IH].
  - destruct (chain_in _ _ _ _ _ C Hy) as (? & ? & ? & ? & ? & ?). simplify_eq. lia.
  - destruct (chain_in _ _ _ _ _ C Hx) as (? & ? & ? & ? & ? & ?). simplify_eq. lia.
Qed.
Lemma chain_del sz l x : forall lo hi, chain sz lo l hi -> chain sz lo (filter (.≠ x) l) hi.
Proof.
  induction l as [|y l IH]; intros lo hi C; [done|]. destruct C as (n & E1 & E2 & E3 & E4 & C). apply IH in C.
  rewrite filter_cons. destruct (decide (y ≠ x)); [by exists n|].
  eapply chain_wider; [| |exact C]; [pose proof (room_pos n E2)|]; lia.
Qed.
Lemma chain_nodup sz l : forall lo hi, chain sz lo l hi -> NoDup l.
Proof.
  induction l as [|y l IH]; intros lo hi C; [constructor|]. destruct C as (n & E1 & E2 & E3 & E4 & C).
  constructor; [|by eapply IH]. intros Hy. destruct (chain_in _ _ _ _ _ C Hy) as (? & ? & ? & ? & ? & ?).
  pose proof (room_pos n E2). lia.
Qed.
(** One size grows up to the next header or the end. *)
Lemma chain_grow sz l x n' : forall lo hi, chain sz lo l hi -> x ∈ l -> 0 < n' ->
  x + room n' <= default (x + room n') (next_of x l) ->
  chain (fun y => if decide (y = x) then Some n' else sz y) lo l
    (match next_of x l with Some _ => hi | None => x + room n' end).
Proof.
  induction l as [|y l IH]; intros lo hi C Hx Hn Hnext; [by apply not_elem_of_nil in Hx|].
  pose proof (chain_nodup _ _ _ _ C) as N. apply NoDup_cons in N as [Ny N].
  destruct C as (n & E1 & E2 & E3 & E4 & C). cbn [next_of] in *. destruct (Z.eqb_spec y x) as [->|Hne].
  - exists n'. rewrite decide_True by done. split_and!; try done. destruct l as [|z l]; [simpl; lia|].
    cbn [head] in *. destruct C as (k & K1 & K2 & K3 & K4 & C). exists k.
    rewrite decide_False by (intros ->; apply Ny; by left). simpl in Hnext. split_and!; try done.
    eapply row_ext; [|exact C]. intros w Hw. rewrite decide_False; [done|]. intros ->. apply Ny. by right.
  - apply elem_of_cons in Hx as [->|Hx]; [done|]. exists n. rewrite decide_False by done. split_and!; try done.
    by apply IH.
Qed.
End rows.

(** * The invariant *)

Section inv.
Context (wide : bool).
Abbreviation spm := (sizeof_pm wide).
Abbreviation spd := (sizeof_pd wide).
Implicit Types (s : st) (D : PoolData) (P : Pool) (m : PoolMemory) (p d x b n : Z).

Definition size_at s x : option Z := pm_size <$> pms s !! x.
(** The references to a block: one of its pool until it was passed over six times, and one
    for each memory in it. *)
Definition held D : Z := (if failed D <? 6 then 1 else 0) + Z.of_nat (length (pmList D)).

Definition pd_ok s d D : Prop :=
  heap s !! d = Some POOL_BLOCK_SIZE /\ end_ D = d + POOL_BLOCK_SIZE /\
  ref D = held D /\ 0 < held D /\ 0 <= failed D <= 6 /\
  chain wide (size_at s) (d + spd) (pmList D) (last D) /\ last D <= d + POOL_BLOCK_SIZE /\ last D mod 8 = 0.

Definition pm_ok s x m : Prop :=
  match owner m with
  | None => POOL_LARGE_SIZE < pm_size m /\ heap s !! x = Some (pm_size m + spm) /\ pds s !! x = None /\
            exists P, pools s !! node m = Some P /\ x ∈ largeList P
  | Some d => pm_size m <= POOL_LARGE_SIZE /\ node m = d /\ exists D, pds s !! d = Some D /\ x ∈ pmList D
  end.

(** What a live block of [malloc] is. *)
Definition used s b n : Prop :=
  is_Some (pools s !! b) \/ is_Some (pds s !! b) \/ exists m, pms s !! b = Some m /\ owner m = None.

(** The structures are consistent; the block [pend] is not yet on the list of its pool. *)
Record wfs (pend : option Z) s : Prop := {
  w_pool p P : pools s !! p = Some P ->
    heap s !! p = Some 1024 /\ pds s !! p = None /\ NoDup (largeList P) /\ NoDup (pdList P);
  w_large p P x : pools s !! p = Some P -> x ∈ largeList P ->
    exists m, pms s !! x = Some m /\ owner m = None /\ node m = p;
  w_list p P d : pools s !! p = Some P -> d ∈ pdList P -> exists D, pds s !! d = Some D /\ pd_pool D = p;
  w_pd d D : pds s !! d = Some D -> pd_ok s d D;
  w_listed d D : pds s !! d = Some D -> pend <> Some d ->
    exists P, pools s !! pd_pool D = Some P /\ d ∈ pdList P;
  w_owner d D x : pds s !! d = Some D -> x ∈ pmList D -> exists m, pms s !! x = Some m /\ owner m = Some d;
  w_pm x m : pms s !! x = Some m -> pm_ok s x m;
  w_used b n : heap s !! b = Some n -> used s b n;
  w_block b n : heap s !! b = Some n -> 0 < b /\ 0 < n /\ b mod 8 = 0;
  w_apart b n b' n' : heap s !! b = Some n -> heap s !! b' = Some n' -> b <> b' -> b + n <= b' \/ b' + n' <= b
}.

(** Every pool has a block it allocates from, which it holds on to. *)
Definition cur_ok s P : Prop :=
  exists old l, pdList P = old ++ current P :: l /\
    forall d, d ∈ current P :: l -> exists D, pds s !! d = Some D /\ failed D < 6.

(** Children and fathers. *)
Record family (ps : gmap Z Pool) : Prop := {
  f_child p P c : ps !! p = Some P -> c ∈ childList P -> exists C, ps !! c = Some C /\ father C = Some p;
  f_father p P f : ps !! p = Some P -> father P = Some f -> exists F, ps !! f = Some F /\ p ∈ childList F;
  f_nodup p P : ps !! p = Some P -> NoDup (childList P)
}.

Record core s : Prop := {
  c_s : wfs None s;
  c_cur p P : pools s !! p = Some P -> cur_ok s P;
  c_family : family (pools s);
  c_global g : gGolbalPool s = Some g -> exists P, pools s !! g = Some P /\ father P = None
}.
Definition unlocked s : Prop := forall p P, pools s !! p = Some P -> locked P = false.
Definition wf s : Prop := core s /\ unlocked s.

Lemma spd_range : 32 <= spd <= 64 /\ spd mod 8 = 0.
Proof. unfold sizeof_pd. destruct wide; split; (done || lia). Qed.

(** ** Addresses *)

Lemma same_block o s b n b' n' a :
  wfs o s -> heap s !! b = Some n -> heap s !! b' = Some n' -> b <= a < b + n -> b' <= a < b' + n' -> b = b'.
Proof. intros W H1 H2 A1 A2. destruct (decide (b = b')); [done|]. destruct (w_apart _ _ W _ _ _ _ H1 H2); lia. Qed.

(** Where a header and its memory lie. *)
Lemma pm_inside o s x m :
  wfs o s -> pms s !! x = Some m ->
  0 < pm_size m /\ x mod 8 = 0 /\
  exists b n, heap s !! b = Some n /\ b <= x /\ x + spm + pm_size m <= b + n /\
    match owner m with None => b = x | Some d => b = d /\ d < x end.
Proof.
  intros W E. pose proof (w_pm _ _ W _ _ E) as K. unfold pm_ok in K. destruct (owner m) as [d|] eqn:Eo.
  - destruct K as (K1 & K2 & D & K3 & K4). destruct (w_pd _ _ W _ _ K3) as (H1 & H2 & H3 & H4 & H5 & H6 & H7 & H8).
    destruct (chain_in _ _ _ _ _ _ H6 K4) as (n & N1 & N2 & N3 & N4 & N5). unfold size_at in N1.
    rewrite E in N1. simpl in N1. injection N1 as <-. pose proof (room_range wide (pm_size m)). pose proof spd_range.
    split_and!; try done. exists d, POOL_BLOCK_SIZE. split_and!; try done; lia.
  - destruct K as (K1 & K2 & K3 & K4). destruct (w_block _ _ W _ _ K2) as (B1 & B2 & B3).
    unfold POOL_LARGE_SIZE in K1. split_and!; try done; [lia|].
    exists x, (pm_size m + spm). split_and!; try done; lia.
Qed.

(** Nothing is yet at the end of a block. *)
Lemma last_fresh o s d D :
  wfs o s -> pds s !! d = Some D -> last D < d + POOL_BLOCK_SIZE -> pms s !! last D = None.
Proof.
  intros W E Hl. destruct (pms s !! last D) as [m|] eqn:Em; [exfalso|done].
  destruct (w_pd _ _ W _ _ E) as (H1 & H2 & H3 & H4 & H5 & H6 & H7 & H8). pose proof spd_range.
  pose proof (chain_le _ _ _ _ _ H6) as Hle. pose proof (spm_range wide).
  destruct (pm_inside _ _ _ _ W Em) as (S1 & S2 & b & n & B1 & B2 & B3 & B4).
  assert (b = d) as -> by (eapply (same_block o s b n d _ (last D)); try done; lia).
  destruct (owner m) as [d'|] eqn:Eo; [|lia]. destruct B4 as [<- _].
  pose proof (w_pm _ _ W _ _ Em) as K. unfold pm_ok in K. rewrite Eo in K.
  destruct K as (_ & _ & D' & K3 & K4). simplify_eq.
  destruct (chain_in _ _ _ _ _ _ H6 K4) as (k & N1 & N2 & N3 & N4 & N5).
  pose proof (room_pos wide k N2). lia.
Qed.

(** ** Steps *)

Ltac upd :=
  repeat match goal with
  | H : <[_ := _]> _ !! _ = Some _ |- _ => apply lookup_insert_Some in H as [[<- <-]|[? ?]]
  | H : delete _ _ !! _ = Some _ |- _ => apply lookup_delete_Some in H as [? ?]
  end; simpl in *.

(** A pool whose lists stay. *)
Lemma wfs_set_pool o s p P P' :
  wfs o s -> pools s !! p = Some P -> largeList P' = largeList P -> pdList P' = pdList P ->
  wfs o (s <| pools ::= <[p := P']> |>).
Proof.
  intros W E H1 H2. destruct W. split; simpl; intros; upd; rewrite ?H1, ?H2 in *; eauto.
  - destruct (w_listed0 d D) as (Q & Q1 & Q2); [done..|]. destruct (decide (pd_pool D = p)) as [Ep|].
    + rewrite Ep in *. simplify_eq. exists P'. rewrite lookup_insert_eq. by rewrite H2.
    + exists Q. by rewrite lookup_insert_ne.
  - specialize (w_pm0 x m H). unfold pm_ok in *. simpl. destruct (owner m); [done|].
    destruct w_pm0 as (K1 & K2 & K3 & Q & Q1 & Q2). split_and!; try done. destruct (decide (node m = p)) as [Ep|].
    + rewrite Ep in *. simplify_eq. exists P'. rewrite lookup_insert_eq. by rewrite H1.
    + exists Q. by rewrite lookup_insert_ne.
  - destruct (w_used0 b n H) as [U|U]; [left|right; exact U]. simpl. rewrite lookup_insert_is_Some.
    destruct (decide (p = b)); [by left|by right].
Qed.

(** A block whose memory stays. *)
Lemma wfs_set_pd o s d D D' :
  wfs o s -> pds s !! d = Some D ->
  pmList D' = pmList D -> last D' = last D -> end_ D' = end_ D -> pd_pool D' = pd_pool D ->
  ref D' = held D' -> 0 < held D' -> 0 <= failed D' <= 6 ->
  wfs o (s <| pds ::= <[d := D']> |>).
Proof.
  intros W E H1 H2 H3 H4 H5 H6 H7.
  assert (forall x, is_Some (pds s !! x) <-> is_Some (<[d := D']> (pds s) !! x)) as Hs.
  { intros x. rewrite lookup_insert_is_Some. destruct (decide (d = x)) as [<-|]; [rewrite E|]; naive_solver. }
  assert (forall x, pds s !! x = None -> <[d := D']> (pds s) !! x = None) as Hn.
  { intros x Hx. rewrite eq_None_not_Some in *. by rewrite <- Hs. }
  destruct W. split; simpl; intros; upd; rewrite ?H1, ?H4 in *; eauto.
  - destruct (w_pool0 p P) as (? & ? & ?); [done|]. eauto.
  - destruct (w_list0 p P d0) as (C & C1 & C2); [done..|]. destruct (decide (d0 = d)) as [->|]; simplify_map_eq; eauto.
  - destruct (w_pd0 d D E) as (? & ? & ? & ? & ? & ? & ? & ?). unfold pd_ok. simpl. rewrite H1, H2, H3. split_and!; done || lia.
  - specialize (w_pm0 x m H). unfold pm_ok in *. simpl. destruct (owner m) as [e|].
    + destruct w_pm0 as (? & ? & C & C1 & C2). split_and!; try done.
      destruct (decide (e = d)) as [->|]; simplify_map_eq; [exists D'; by rewrite H1|eauto].
    + destruct w_pm0 as (? & ? & ? & ?). eauto.
  - destruct (w_used0 b n H) as [U|[U|U]]; [by left|right; left|by right; right]. by apply Hs.
Qed.

(** New memory at the end of a block. *)
Lemma wfs_cut o s d D n r :
  wfs o s -> pds s !! d = Some D -> 0 < n <= POOL_LARGE_SIZE -> r = room wide n ->
  last D + r <= d + POOL_BLOCK_SIZE ->
  wfs o (s <| pms ::= <[last D := mkPm (Some d) n d]> |>
           <| pds ::= <[d := D <| ref ::= Z.add 1 |> <| pmList ::= fun l => l ++ [last D] |> <| last ::= Z.add r |>]> |>).
Proof.
  intros W E Hn -> Hl. pose proof (room_pos wide n ltac:(lia)) as Hr. pose proof (room_range wide n) as Hrr.
  pose proof (last_fresh o s d D W E ltac:(lia)) as Hf.
  set (D' := D <| ref ::= _ |> <| pmList ::= _ |> <| last ::= _ |>).
  assert (forall x, is_Some (pds s !! x) <-> is_Some (<[d := D']> (pds s) !! x)) as Hs.
  { intros x. rewrite lookup_insert_is_Some. destruct (decide (d = x)) as [<-|]; [rewrite E|]; naive_solver. }
  assert (forall x, pds s !! x = None -> <[d := D']> (pds s) !! x = None) as Hno.
  { intros x Hx. rewrite eq_None_not_Some in *. by rewrite <- Hs. }
  assert (forall d0 D0, pds s !! d0 = Some D0 -> (last D ∉ pmList D0)) as Hnew.
  { intros d0 D0 E0 Hin. destruct (w_owner _ _ W _ _ _ E0 Hin) as (m & Em & _). congruence. }
  assert (forall x, x <> last D -> size_at (s <| pms ::= <[last D := mkPm (Some d) n d]> |>) x = size_at s x) as Hsz.
  { intros x Hx. unfold size_at. simpl. by rewrite lookup_insert_ne. }
  destruct W. split; simpl; intros; upd; eauto.
  - destruct (w_pool0 p P) as (? & ? & ?); [done|]. eauto.
  - destruct (w_large0 p P x) as (m & ? & ? & ?); [done..|]. exists m. rewrite lookup_insert_ne; [done|]. congruence.
  - destruct (w_list0 p P d0) as (C & C1 & C2); [done..|]. destruct (decide (d0 = d)) as [->|]; simplify_map_eq; eauto.
  - destruct (w_pd0 d D E) as (? & ? & ? & ? & ? & C & ? & L8). unfold pd_ok, held in *. simpl. rewrite length_app. simpl.
    split_and!; try done; try lia.
    + apply (row_snoc wide _ _ _ n).
      * eapply row_ext; [|exact C]. intros x Hx. apply Hsz. intros ->. by apply (Hnew d D).
      * unfold size_at. simpl. by rewrite lookup_insert_eq.
      * lia.
      * done.
      * lia.
    + dlia.
  - destruct (w_pd0 d0 D0) as (? & ? & ? & ? & ? & C & ? & ?); [done|]. unfold pd_ok. simpl. split_and!; try done; try lia.
    eapply row_ext; [|exact C]. intros x Hx. apply Hsz. intros ->. by apply (Hnew d0 D0).
  - apply elem_of_app in H0 as [Hx|Hx%list_elem_of_singleton]; [|subst; exists (mkPm (Some d) n d); by rewrite lookup_insert_eq].
    destruct (w_owner0 d D x) as (m & ? & ?); [done..|]. exists m. rewrite lookup_insert_ne; [done|]. congruence.
  - destruct (w_owner0 d0 D0 x) as (m & ? & ?); [done..|]. exists m. rewrite lookup_insert_ne; [done|]. congruence.
  - unfold pm_ok. simpl. split_and!; [lia|done|]. exists D'. rewrite lookup_insert_eq. split; [done|]. unfold D'. simpl. set_solver.
  - specialize (w_pm0 x m H0). unfold pm_ok in *. simpl. destruct (owner m) as [e|].
    + destruct w_pm0 as (? & ? & C & C1 & C2). split_and!; try done.
      destruct (decide (e = d)) as [->|]; simplify_map_eq; [|eauto]. exists D'. split; [done|]. unfold D'. simpl. set_solver.
    + destruct w_pm0 as (? & ? & ? & ?). eauto.
  - destruct (w_used0 b n0 H) as [U|[U|(m & U1 & U2)]]; [by left|right; left; by apply Hs|].
    right; right. exists m. simpl. rewrite lookup_insert_ne; [done|]. congruence.
Qed.

(** A block that [malloc] may return. *)
Definition fresh (h : gmap Z Z) b n : Prop :=
  0 < b /\ b mod 8 = 0 /\ forall b' n', h !! b' = Some n' -> b + n <= b' \/ b' + n' <= b.

Lemma fresh_none o s b n :
  wfs o s -> 0 < n -> fresh (heap s) b n ->
  heap s !! b = None /\ pools s !! b = None /\ pds s !! b = None /\ pms s !! b = None.
Proof.
  intros W Hn (H1 & H2 & H3).
  assert (heap s !! b = None) as Hh.
  { destruct (heap s !! b) as [k|] eqn:E; [|done]. destruct (w_block _ _ W _ _ E) as (? & ? & ?). specialize (H3 _ _ E). lia. }
  split_and!; [done|..].
  - destruct (pools s !! b) as [P|] eqn:E; [|done]. destruct (w_pool _ _ W _ _ E). congruence.
  - destruct (pds s !! b) as [D|] eqn:E; [|done]. destruct (w_pd _ _ W _ _ E). congruence.
  - destruct (pms s !! b) as [m|] eqn:E; [|done]. destruct (pm_inside _ _ _ _ W E) as (? & ? & b' & n' & E' & ? & ? & _).
    specialize (H3 _ _ E'). pose proof (spm_range wide). lia.
Qed.

Lemma insert_apart (h : gmap Z Z) b n b1 n1 b2 n2 :
  fresh h b n ->
  (forall b n b' n', h !! b = Some n -> h !! b' = Some n' -> b <> b' -> b + n <= b' \/ b' + n' <= b) ->
  <[b := n]> h !! b1 = Some n1 -> <[b := n]> h !! b2 = Some n2 -> b1 <> b2 -> b1 + n1 <= b2 \/ b2 + n2 <= b1.
Proof.
  intros (_ & _ & F) A [[<- <-]|[? E1]]%lookup_insert_Some [[<- <-]|[? E2]]%lookup_insert_Some Hne; [done| | |by apply A].
  - by apply F.
  - apply or_comm. by apply F.
Qed.

(** A new block, not yet on a list. *)
Lemma wfs_new_block s b p :
  wfs None s -> fresh (heap s) b POOL_BLOCK_SIZE ->
  wfs (Some b) (s <| heap ::= <[b := POOL_BLOCK_SIZE]> |>
                  <| pds ::= <[b := mkPd (b + spd) (b + POOL_BLOCK_SIZE) [] 1 0 p]> |>).
Proof.
  intros W F. destruct (fresh_none None s b POOL_BLOCK_SIZE W ltac:(unfold POOL_BLOCK_SIZE; lia) F) as (N1 & N2 & N3 & N4).
  pose proof F as (F1 & F2 & F3). pose proof spd_range as (R1 & R2). unfold POOL_BLOCK_SIZE in *.
  assert (forall k, k <> b -> <[b := 8192]> (heap s) !! k = heap s !! k) as Hh by (intros; by rewrite lookup_insert_ne).
  destruct W. split; simpl; intros; upd; eauto.
  - destruct (w_pool0 p0 P) as (? & ? & ? & ?); [done|]. rewrite !lookup_insert_ne by congruence. done.
  - destruct (w_list0 p0 P d) as (C & C1 & C2); [done..|]. exists C. rewrite lookup_insert_ne by congruence. done.
  - unfold pd_ok, held, POOL_BLOCK_SIZE. simpl. rewrite lookup_insert_eq. split_and!; try done; try lia. dlia.
  - destruct (w_pd0 d D) as (K & ?); [done|]. split; [|done]. simpl. by rewrite Hh.
  - done.
  - by apply not_elem_of_nil in H0.
  - pose proof (w_pm0 x m H) as K. unfold pm_ok in *. simpl. destruct (owner m) as [e|].
    + destruct K as (? & ? & C & C1 & C2). split_and!; try done. exists C. rewrite lookup_insert_ne by congruence. done.
    + destruct K as (? & ? & ? & ?). rewrite !lookup_insert_ne by congruence. done.
  - right. left. simpl. rewrite lookup_insert_eq. eauto.
  - destruct (w_used0 b0 n H0) as [U|[U|U]]; [by left|right; left|by right; right]. simpl. by rewrite lookup_insert_ne.
  - split_and!; done || lia.
  - done.
  - apply or_comm. eauto.
Qed.

(** The new block is put on the list of its pool. *)
Lemma wfs_link s b D P :
  wfs (Some b) s -> pds s !! b = Some D -> pools s !! pd_pool D = Some P -> (b ∉ pdList P) ->
  wfs None (s <| pools ::= <[pd_pool D := P <| pdList ::= fun l => l ++ [b] |>]> |>).
Proof.
  intros W E EP Hb. set (p := pd_pool D) in *. set (P' := P <| pdList ::= _ |>). destruct W. split; simpl; intros; upd; eauto.
  - destruct (w_pool0 p P) as (? & ? & ? & ?); [done|]. split_and!; try done. apply NoDup_app. split_and!; [done| |apply NoDup_singleton].
    intros y Hy ->%list_elem_of_singleton. done.
  - apply elem_of_app in H0 as [Hd|Hd%list_elem_of_singleton]; [|subst d]; eauto.
  - destruct (decide (d = b)) as [->|Hdb].
    + simplify_eq. exists P'. fold p. rewrite lookup_insert_eq. split; [done|]. unfold P'. simpl. set_solver.
    + destruct (w_listed0 d D0) as (Q & Q1 & Q2); [done|congruence|]. destruct (decide (pd_pool D0 = p)) as [Ep|].
      * rewrite Ep in *. simplify_eq. exists P'. rewrite lookup_insert_eq. split; [done|]. unfold P'. simpl. set_solver.
      * exists Q. by rewrite lookup_insert_ne.
  - specialize (w_pm0 x m H). unfold pm_ok in *. simpl. destruct (owner m); [done|].
    destruct w_pm0 as (K1 & K2 & K3 & Q & Q1 & Q2). split_and!; try done. destruct (decide (node m = p)) as [Ep|].
    + rewrite Ep in *. simplify_eq. exists P'. by rewrite lookup_insert_eq.
    + exists Q. by rewrite lookup_insert_ne.
  - destruct (w_used0 b0 n H) as [U|U]; [left|right; exact U]. simpl. rewrite lookup_insert_is_Some.
    destruct (decide (p = b0)); [by left|by right].
Qed.

Lemma foldr_delete_Some {A} (ms : gmap Z A) l x (v : A) :
  foldr delete ms l !! x = Some v <-> (x ∉ l) /\ ms !! x = Some v.
Proof.
  induction l as [|y l IH]; simpl; [set_solver|]. rewrite lookup_delete_Some, IH. set_solver.
Qed.

(** A block and all memory in it go. *)
Lemma wfs_drop_block o s d D P :
  wfs o s -> pds s !! d = Some D -> pools s !! pd_pool D = Some P -> o <> Some d ->
  wfs o (s <| pools ::= <[pd_pool D := P <| pdList := filter (.≠ d) (pdList P) |>]> |>
           <| heap ::= delete d |> <| pds ::= delete d |> <| pms ::= fun ms => foldr delete ms (pmList D) |>).
Proof.
  intros W E EP Ho. set (p := pd_pool D) in *. set (P' := P <| pdList := _ |>).
  assert (forall p P, pools s !! p = Some P -> p <> d) as Hpd.
  { intros q Q Hq ->. destruct (w_pool _ _ W _ _ Hq) as (_ & N & _). congruence. }
  assert (forall x m e, pms s !! x = Some m -> owner m = Some e -> e <> d -> (x ∉ pmList D)) as Hx1.
  { intros x m e Ex Eo Hne Hin. destruct (w_owner _ _ W _ _ _ E Hin) as (m' & ? & ?). congruence. }
  assert (forall x m, pms s !! x = Some m -> owner m = None -> (x ∉ pmList D) /\ x <> d) as Hx2.
  { intros x m Ex Eo. split.
    - intros Hin. destruct (w_owner _ _ W _ _ _ E Hin) as (m' & ? & ?). congruence.
    - intros ->. pose proof (w_pm _ _ W _ _ Ex) as K. unfold pm_ok in K. rewrite Eo in K. destruct K as (_ & _ & K & _). congruence. }
  pose proof W as W'. destruct W. split; simpl; intros; upd; eauto.
  - destruct (w_pool0 p P EP) as (? & ? & ? & ?). rewrite lookup_delete_ne, lookup_delete_None by (by apply not_eq_sym, (Hpd p P)).
    split_and!; [done|by right|done|by apply NoDup_filter].
  - destruct (w_pool0 p0 P0) as (? & ? & ? & ?); [done|]. rewrite lookup_delete_ne, lookup_delete_None by (by apply not_eq_sym, (Hpd p0 P0)).
    split_and!; [done|by right|done..].
  - destruct (w_large0 p P x) as (m & ? & ? & ?); [done..|]. exists m. rewrite foldr_delete_Some. split_and!; try done. by eapply Hx2.
  - destruct (w_large0 p0 P0 x) as (m & ? & ? & ?); [done..|]. exists m. rewrite foldr_delete_Some. split_and!; try done. by eapply Hx2.
  - apply list_elem_of_filter in H0 as [Hne Hin]. destruct (w_list0 p P d0) as (C & ? & ?); [done..|]. exists C. by rewrite lookup_delete_ne.
  - destruct (w_list0 p0 P0 d0) as (C & C1 & C2); [done..|]. exists C. rewrite lookup_delete_ne; [done|]. intros ->. assert (C = D) as -> by congruence. by subst p0.
  - destruct (w_pd0 d0 D0) as (? & ? & ? & ? & ? & C & ?); [done|]. unfold pd_ok. simpl. rewrite lookup_delete_ne by done.
    split_and!; try done; try lia. eapply row_ext; [|exact C]. intros x Hx. unfold size_at. simpl. f_equal.
    destruct (w_owner0 d0 D0 x) as (m & Em & Om); [done..|]. rewrite Em. apply foldr_delete_Some. split; [|done]. by eapply Hx1.
  - destruct (w_listed0 d0 D0) as (Q & Q1 & Q2); [done..|]. destruct (decide (pd_pool D0 = p)) as [Ep|].
    + rewrite Ep in *. simplify_eq. exists P'. rewrite lookup_insert_eq. split; [done|]. unfold P'. simpl. apply list_elem_of_filter. done.
    + exists Q. by rewrite lookup_insert_ne.
  - destruct (w_owner0 d0 D0 x) as (m & ? & ?); [done..|]. exists m. rewrite foldr_delete_Some. split_and!; try done. by eapply Hx1.
  - apply foldr_delete_Some in H as [H H']. pose proof (w_pm0 x m H') as K. unfold pm_ok in *. simpl. destruct (owner m) as [e|] eqn:Eo.
    + destruct K as (? & ? & C & C1 & C2). split_and!; try done. exists C. rewrite lookup_delete_ne; [done|]. intros ->. congruence.
    + destruct K as (? & ? & ? & Q & Q1 & Q2). destruct (Hx2 x m H' Eo). rewrite lookup_delete_ne, lookup_delete_None by done.
      split_and!; [done|done|by right|]. destruct (decide (node m = p)) as [Ep|].
      * rewrite Ep in *. simplify_eq. exists P'. by rewrite lookup_insert_eq.
      * exists Q. by rewrite lookup_insert_ne.
  - destruct (w_used0 b n) as [U|[U|(m & U1 & U2)]]; [done|left|right; left|right; right]; simpl.
    + rewrite lookup_insert_is_Some. destruct (decide (p = b)); [by left|by right].
    + by rewrite lookup_delete_ne.
    + exists m. rewrite foldr_delete_Some. split_and!; try done. by eapply Hx2.
Qed.

(** Large memory comes and goes. *)
Lemma wfs_add_large s p P x n :
  wfs None s -> pools s !! p = Some P -> POOL_LARGE_SIZE < n -> fresh (heap s) x (n + spm) ->
  wfs None (s <| heap ::= <[x := n + spm]> |> <| pms ::= <[x := mkPm None n p]> |>
              <| pools ::= <[p := P <| largeList ::= cons x |>]> |>).
Proof.
  intros W EP Hn F. pose proof (spm_range wide) as (R1 & _). unfold POOL_LARGE_SIZE in *.
  destruct (fresh_none None s x (n + spm) W ltac:(lia) F) as (N1 & N2 & N3 & N4). pose proof F as (F1 & F2 & F3).
  set (P' := P <| largeList ::= _ |>).
  assert (forall k v, heap s !! k = Some v -> <[x := n + spm]> (heap s) !! k = Some v) as Hh
    by (intros k v Hk; rewrite lookup_insert_ne; congruence).
  assert (forall y m, pms s !! y = Some m -> <[x := mkPm None n p]> (pms s) !! y = Some m) as Hm
    by (intros y m Hk; rewrite lookup_insert_ne; congruence).
  destruct W. split; simpl; intros; upd; eauto.
  - destruct (w_pool0 p P EP) as (? & ? & ? & ?). split_and!; eauto. apply NoDup_cons. split; [|done].
    intros Hin. destruct (w_large0 p P x EP Hin) as (m & ? & _). congruence.
  - destruct (w_pool0 p0 P0) as (? & ? & ? & ?); eauto.
  - apply elem_of_cons in H0 as [->|Hin]; [exists (mkPm None n p); by rewrite lookup_insert_eq|].
    destruct (w_large0 p P x0) as (m & ? & ? & ?); eauto.
  - destruct (w_large0 p0 P0 x0) as (m & ? & ? & ?); eauto.
  - destruct (w_pd0 d D) as (? & ? & ? & ? & ? & C & ?); [done|]. unfold pd_ok. simpl. split_and!; try done; try lia; [eauto|].
    eapply row_ext; [|exact C]. intros y Hy. unfold size_at. simpl. destruct (w_owner0 d D y) as (m & Em & _); [done..|].
    by rewrite Em, (Hm _ _ Em).
  - destruct (w_listed0 d D) as (Q & Q1 & Q2); [done..|]. destruct (decide (pd_pool D = p)) as [Ep|].
    + rewrite Ep in *. simplify_eq. exists P'. by rewrite lookup_insert_eq.
    + exists Q. by rewrite lookup_insert_ne.
  - destruct (w_owner0 d D x0) as (m & ? & ?); eauto.
  - unfold pm_ok, POOL_LARGE_SIZE. simpl. rewrite lookup_insert_eq. split_and!; try done. exists P'. rewrite lookup_insert_eq.
    split; [done|]. by left.
  - pose proof (w_pm0 x0 m H0) as K. unfold pm_ok in *. simpl. destruct (owner m) as [e|]; [done|].
    destruct K as (? & ? & ? & Q & Q1 & Q2). split_and!; eauto. destruct (decide (node m = p)) as [Ep|].
    + rewrite Ep in *. simplify_eq. exists P'. rewrite lookup_insert_eq. split; [done|]. by right.
    + exists Q. by rewrite lookup_insert_ne.
  - right; right. exists (mkPm None n p). simpl. by rewrite lookup_insert_eq.
  - destruct (w_used0 b n0) as [U|[U|(m & U1 & U2)]]; [done|left|by right; left|right; right]; simpl; [|eauto].
    rewrite lookup_insert_is_Some. destruct (decide (p = b)); [by left|by right].
  - split_and!; done || lia.
  - done.
  - apply or_comm. eauto.
Qed.

Lemma wfs_del_large o s x m P :
  wfs o s -> pms s !! x = Some m -> owner m = None -> pools s !! node m = Some P ->
  wfs o (s <| pools ::= <[node m := P <| largeList := filter (.≠ x) (largeList P) |>]> |>
           <| heap ::= delete x |> <| pms ::= delete x |>).
Proof.
  intros W E Eo EP. pose proof (w_pm _ _ W _ _ E) as K. unfold pm_ok in K. rewrite Eo in K.
  destruct K as (K1 & K2 & K3 & _). set (p := node m) in *. set (P' := P <| largeList := _ |>).
  pose proof (spm_range wide) as (R1 & _). unfold POOL_LARGE_SIZE in *.
  assert (forall q Q, pools s !! q = Some Q -> q <> x) as Hq.
  { intros q Q Hq ->. destruct (w_pool _ _ W _ _ Hq) as (N & _). rewrite K2 in N. injection N. lia. }
  destruct W. split; simpl; intros; upd; eauto.
  - destruct (w_pool0 p P EP) as (? & ? & ? & ?). rewrite lookup_delete_ne by (by apply not_eq_sym, (Hq p P)).
    split_and!; [done..|by apply NoDup_filter|done].
  - destruct (w_pool0 p0 P0) as (? & ? & ? & ?); [done|]. rewrite lookup_delete_ne by (by apply not_eq_sym, (Hq p0 P0)). done.
  - apply list_elem_of_filter in H0 as [? ?]. destruct (w_large0 p P x0) as (m' & ? & ? & ?); [done..|]. exists m'. by rewrite lookup_delete_ne.
  - destruct (w_large0 p0 P0 x0) as (m' & ? & ? & ?); [done..|]. exists m'. rewrite lookup_delete_ne; [done|]. intros ->.
    assert (m' = m) as -> by congruence. by subst p0.
  - destruct (w_pd0 d D) as (? & ? & ? & ? & ? & C & ?); [done|]. unfold pd_ok. simpl. rewrite lookup_delete_ne by congruence.
    split_and!; try done; try lia.
    eapply row_ext; [|exact C]. intros y Hy. unfold size_at. simpl. destruct (w_owner0 d D y) as (m' & Em & Om); [done..|].
    rewrite lookup_delete_ne; [done|]. congruence.
  - destruct (w_listed0 d D) as (Q & Q1 & Q2); [done..|]. destruct (decide (pd_pool D = p)) as [Ep|].
    + rewrite Ep in *. simplify_eq. exists P'. by rewrite lookup_insert_eq.
    + exists Q. by rewrite lookup_insert_ne.
  - destruct (w_owner0 d D x0) as (m' & ? & ?); [done..|]. exists m'. rewrite lookup_delete_ne; [done|]. congruence.
  - pose proof (w_pm0 x0 m0 H0) as K. unfold pm_ok in *. simpl. destruct (owner m0) as [e|] eqn:Eo'; [done|].
    destruct K as (? & ? & ? & Q & Q1 & Q2). rewrite lookup_delete_ne by done. split_and!; eauto. destruct (decide (node m0 = p)) as [Ep|].
    + rewrite Ep in *. simplify_eq. exists P'. rewrite lookup_insert_eq. split; [done|]. unfold P'. simpl. by apply list_elem_of_filter.
    + exists Q. by rewrite lookup_insert_ne.
  - destruct (w_used0 b n) as [U|[U|(m' & U1 & U2)]]; [done|left|by right; left|right; right]; simpl.
    + rewrite lookup_insert_is_Some. destruct (decide (p = b)); [by left|by right].
    + exists m'. by rewrite lookup_delete_ne.
Qed.

Lemma filter_ne x (l : list Z) : (x ∉ l) -> filter (.≠ x) l = l.
Proof.
  induction l as [|y l IH]; intros H; [done|]. apply not_elem_of_cons in H as [H1 H2].
  rewrite filter_cons, decide_True by congruence. by rewrite IH.
Qed.
Lemma length_filter_ne x (l : list Z) :
  NoDup l -> x ∈ l -> Z.of_nat (length (filter (.≠ x) l)) = Z.of_nat (length l) - 1.
Proof.
  induction l as [|y l IH]; intros N H; [by apply not_elem_of_nil in H|]. apply NoDup_cons in N as [N1 N2].
  rewrite filter_cons. destruct (decide (y ≠ x)) as [Hy|Hy].
  - cbn [length]. apply elem_of_cons in H as [->|H]; [done|]. specialize (IH N2 H). lia.
  - apply dec_stable in Hy as ->. rewrite filter_ne by done. simpl. lia.
Qed.

(** A header leaves a block that stays. *)
Lemma wfs_del_small o s x m d D :
  wfs o s -> pms s !! x = Some m -> owner m = Some d -> pds s !! d = Some D ->
  let D' := D <| pmList := filter (.≠ x) (pmList D) |> <| ref ::= fun r => r - 1 |> in
  0 < ref D' -> wfs o (s <| pds ::= <[d := D']> |> <| pms ::= delete x |>).
Proof.
  intros W E Eo ED D' Hr. pose proof (w_pm _ _ W _ _ E) as K. unfold pm_ok in K. rewrite Eo in K.
  destruct K as (K1 & K2 & D0 & K3 & K4). assert (D0 = D) as -> by congruence.
  assert (NoDup (pmList D)) as Nd by (destruct (w_pd _ _ W _ _ ED) as (_ & _ & _ & _ & _ & C & _); by eapply chain_nodup).
  pose proof (length_filter_ne x (pmList D) Nd K4) as Lf.
  assert (forall z, is_Some (pds s !! z) <-> is_Some (<[d := D']> (pds s) !! z)) as Hs.
  { intros z. rewrite lookup_insert_is_Some. destruct (decide (d = z)) as [<-|]; [rewrite ED|]; naive_solver. }
  assert (forall z, pds s !! z = None -> <[d := D']> (pds s) !! z = None) as Hno.
  { intros z Hz. rewrite eq_None_not_Some in *. by rewrite <- Hs. }
  assert (forall z, z <> x -> size_at (s <| pms ::= delete x |>) z = size_at s z) as Hsz.
  { intros z Hz. unfold size_at. simpl. by rewrite lookup_delete_ne. }
  destruct W. split; simpl; intros; upd; eauto.
  - destruct (w_pool0 p P) as (? & ? & ?); [done|]. eauto.
  - destruct (w_large0 p P x0) as (m' & ? & ? & ?); [done..|]. exists m'. rewrite lookup_delete_ne; [done|]. congruence.
  - destruct (w_list0 p P d0) as (C & C1 & C2); [done..|]. destruct (decide (d0 = d)) as [->|]; simplify_map_eq; eauto.
  - destruct (w_pd0 d D ED) as (? & ? & ? & ? & ? & C & ? & ?). unfold pd_ok, held in *. unfold D' in *. simpl in *. rewrite Lf.
    split_and!; try done; try lia.
    eapply row_ext; [|by apply chain_del, C]. intros z [Hz _]%list_elem_of_filter. by apply Hsz.
  - destruct (w_pd0 d0 D0) as (? & ? & ? & ? & ? & C & ? & ?); [done|]. unfold pd_ok. simpl. split_and!; try done; try lia.
    eapply row_ext; [|exact C]. intros z Hz. apply Hsz. intros ->. destruct (w_owner0 d0 D0 x) as (m' & ? & ?); [done..|]. congruence.
  - apply list_elem_of_filter in H0 as [? ?]. destruct (w_owner0 d D x0) as (m' & ? & ?); [done..|]. exists m'. by rewrite lookup_delete_ne.
  - destruct (w_owner0 d0 D0 x0) as (m' & ? & ?); [done..|]. exists m'. rewrite lookup_delete_ne; [done|]. congruence.
  - pose proof (w_pm0 x0 m0 H0) as K. unfold pm_ok in *. simpl. destruct (owner m0) as [e|].
    + destruct K as (? & ? & C & C1 & C2). split_and!; try done.
      destruct (decide (e = d)) as [->|]; simplify_map_eq; [|eauto]. exists D'. split; [done|]. unfold D'. simpl. by apply list_elem_of_filter.
    + destruct K as (? & ? & ? & ?). eauto.
  - destruct (w_used0 b n H) as [U|[U|(m' & U1 & U2)]]; [by left|right; left; by apply Hs|].
    right; right. exists m'. simpl. rewrite lookup_delete_ne; [done|]. congruence.
Qed.

(** Memory grows where it is. *)
Lemma wfs_grow o s x m d D n l :
  wfs o s -> pms s !! x = Some m -> owner m = Some d -> pds s !! d = Some D ->
  0 < n <= POOL_LARGE_SIZE ->
  x + room wide n <= default (d + POOL_BLOCK_SIZE) (next_of x (pmList D)) ->
  l = match next_of x (pmList D) with Some _ => last D | None => x + room wide n end ->
  wfs o (s <| pms ::= <[x := m <| pm_size := n |>]> |> <| pds ::= <[d := D <| last := l |>]> |>).
Proof.
  intros W E Eo ED Hn Hfit Hl. pose proof (w_pm _ _ W _ _ E) as K. unfold pm_ok in K. rewrite Eo in K.
  destruct K as (K1 & K2 & D0 & K3 & K4). assert (D0 = D) as -> by congruence. subst l. set (D' := D <| last := _ |>). set (m' := m <| pm_size := n |>).
  assert (forall z, is_Some (pds s !! z) <-> is_Some (<[d := D']> (pds s) !! z)) as Hs.
  { intros z. rewrite lookup_insert_is_Some. destruct (decide (d = z)) as [<-|]; [rewrite ED|]; naive_solver. }
  assert (forall z, pds s !! z = None -> <[d := D']> (pds s) !! z = None) as Hno.
  { intros z Hz. rewrite eq_None_not_Some in *. by rewrite <- Hs. }
  assert (forall z, size_at (s <| pms ::= <[x := m']> |>) z = if decide (z = x) then Some n else size_at s z) as Hsz.
  { intros z. unfold size_at. simpl. destruct (decide (z = x)) as [->|]; [by rewrite lookup_insert_eq|by rewrite lookup_insert_ne]. }
  pose proof (room_range wide n) as Hrr.
  pose proof W as W'. destruct W. split; simpl; intros; upd; eauto.
  - destruct (w_pool0 p P) as (? & ? & ?); [done|]. eauto.
  - destruct (w_large0 p P x0) as (m1 & ? & ? & ?); [done..|]. exists m1. rewrite lookup_insert_ne; [done|]. congruence.
  - destruct (w_list0 p P d0) as (C & C1 & C2); [done..|]. destruct (decide (d0 = d)) as [->|]; simplify_map_eq; eauto.
  - destruct (w_pd0 d D ED) as (? & ? & ? & ? & ? & C & ? & L8).
    destruct (pm_inside _ _ _ _ W' E) as (_ & X8 & _).
    unfold pd_ok, held in *. unfold D'. simpl. split_and!; try done; try lia.
    + eapply row_ext; [intros z _; apply Hsz|]. apply chain_grow; try done; [lia|].
      destruct (next_of x (pmList D)); simpl in *; lia.
    + destruct (next_of x (pmList D)); simpl in *; lia.
    + destruct (next_of x (pmList D)); [done|]. dlia.
  - destruct (w_pd0 d0 D0) as (? & ? & ? & ? & ? & C & ? & ?); [done|]. unfold pd_ok. simpl. split_and!; try done; try lia.
    eapply row_ext; [|exact C]. intros z Hz. etrans; [apply Hsz|]. rewrite decide_False; [done|]. intros ->.
    destruct (w_owner0 d0 D0 x) as (m1 & ? & ?); [done..|]. congruence.
  - destruct (decide (x0 = x)) as [->|]; [exists m'; rewrite lookup_insert_eq; done|].
    destruct (w_owner0 d D x0) as (m1 & ? & ?); [done..|]. exists m1. by rewrite lookup_insert_ne.
  - destruct (w_owner0 d0 D0 x0) as (m1 & ? & ?); [done..|]. exists m1. rewrite lookup_insert_ne; [done|]. congruence.
  - unfold pm_ok. simpl. rewrite Eo. split_and!; [lia|done|]. exists D'. by rewrite lookup_insert_eq.
  - pose proof (w_pm0 x0 m0 H0) as K. unfold pm_ok in *. simpl. destruct (owner m0) as [e|].
    + destruct K as (? & ? & C & C1 & C2). split_and!; try done.
      destruct (decide (e = d)) as [->|]; simplify_map_eq; eauto.
    + destruct K as (? & ? & ? & ?). eauto.
  - destruct (w_used0 b n0 H) as [U|[U|(m1 & U1 & U2)]]; [by left|right; left; by apply Hs|].
    right; right. exists m1. simpl. rewrite lookup_insert_ne; [done|]. congruence.
Qed.

(** An empty pool comes and goes. *)
Lemma wfs_new_pool s p P :
  wfs None s -> fresh (heap s) p 1024 -> largeList P = [] -> pdList P = [] ->
  wfs None (s <| heap ::= <[p := 1024]> |> <| pools ::= <[p := P]> |>).
Proof.
  intros W F H1 H2. destruct (fresh_none None s p 1024 W ltac:(lia) F) as (N1 & N2 & N3 & N4).
  pose proof F as (F1 & F2 & F3).
  assert (forall k v, heap s !! k = Some v -> <[p := 1024]> (heap s) !! k = Some v) as Hh
    by (intros k v Hk; rewrite lookup_insert_ne; congruence).
  assert (forall k Q, pools s !! k = Some Q -> <[p := P]> (pools s) !! k = Some Q) as Hp
    by (intros k Q Hk; rewrite lookup_insert_ne; congruence).
  destruct W. split; simpl; intros; upd; eauto.
  - rewrite lookup_insert_eq, H1, H2. split_and!; (done || constructor).
  - destruct (w_pool0 p0 P0) as (? & ? & ? & ?); eauto.
  - rewrite H1 in H0. by apply not_elem_of_nil in H0.
  - rewrite H2 in H0. by apply not_elem_of_nil in H0.
  - destruct (w_pd0 d D) as (? & ?); [done|]. split; eauto.
  - destruct (w_listed0 d D) as (Q & ? & ?); eauto.
  - pose proof (w_pm0 x m H) as K. unfold pm_ok in *. simpl. destruct (owner m) as [e|]; [done|].
    destruct K as (? & ? & ? & Q & ? & ?). eauto 8.
  - left. simpl. rewrite lookup_insert_eq. eauto.
  - destruct (w_used0 b n) as [U|U]; [done|left|by right]. simpl. rewrite lookup_insert_ne by done. done.
  - split_and!; done || lia.
  - done.
  - apply or_comm. eauto.
Qed.

Lemma wfs_del_pool s p P :
  wfs None s -> pools s !! p = Some P -> largeList P = [] -> pdList P = [] ->
  wfs None (s <| heap ::= delete p |> <| pools ::= delete p |>).
Proof.
  intros W E H1 H2.
  assert (forall d D, pds s !! d = Some D -> pd_pool D <> p /\ d <> p) as Hd.
  { intros d D ED. split; intros Heq.
    - destruct (w_listed _ _ W _ _ ED ltac:(done)) as (Q & Q1 & Q2). rewrite Heq in Q1. simplify_eq. rewrite H2 in Q2. by apply not_elem_of_nil in Q2.
    - subst d. destruct (w_pool _ _ W _ _ E) as (_ & ? & _). congruence. }
  assert (forall x m, pms s !! x = Some m -> owner m = None -> node m <> p /\ x <> p) as Hx.
  { intros x m Ex Eo. pose proof (w_pm _ _ W _ _ Ex) as K. unfold pm_ok in K. rewrite Eo in K.
    destruct K as (K1 & K2 & _ & Q & Q1 & Q2). split; intros Heq.
    - rewrite Heq in Q1. simplify_eq. rewrite H1 in Q2. by apply not_elem_of_nil in Q2.
    - rewrite Heq in K2. destruct (w_pool _ _ W _ _ E) as (Kp & _). rewrite Kp in K2. injection K2. unfold POOL_LARGE_SIZE in K1.
      pose proof (spm_range wide). lia. }
  destruct W. split; simpl; intros; upd; eauto.
  - destruct (w_pool0 p0 P0) as (? & ? & ? & ?); [done|]. by rewrite lookup_delete_ne.
  - destruct (w_pd0 d D) as (? & ?); [done|]. destruct (Hd d D H). split; [simpl; by rewrite lookup_delete_ne|done].
  - destruct (w_listed0 d D) as (Q & ? & ?); [done..|]. destruct (Hd d D H). exists Q. by rewrite lookup_delete_ne.
  - pose proof (w_pm0 x m H) as K. unfold pm_ok in *. simpl. destruct (owner m) as [e|] eqn:Eo; [done|].
    destruct K as (? & ? & ? & Q & ? & ?). destruct (Hx x m H Eo). rewrite lookup_delete_ne by done. split_and!; try done.
    exists Q. by rewrite lookup_delete_ne.
  - destruct (w_used0 b n) as [U|U]; [done|left|by right]. simpl. by rewrite lookup_delete_ne.
Qed.
End inv.
End AwPoolSpec.
