(* ===== verification/AwPoolCalls.v ===== *)
(** The calls of the memory pool keep its invariant and do to the live memory what an
    allocator should. *)

From Stdlib Require Import ZArith Lia.
From stdpp Require Import base list list_numbers numbers gmap fin_maps.
From S2P Require Import Prelude AwPool AwPoolSpec.

Open Scope Z_scope.

Module AwPoolCalls.
Import AwPool AwPoolSpec.

Section steps.
Context (wide : bool).
Abbreviation spm := (sizeof_pm wide).
Abbreviation spd := (sizeof_pd wide).
Abbreviation wfs := (wfs wide).
Abbreviation core := (core wide).
Implicit Types (s : st) (D : PoolData) (P : Pool) (m : PoolMemory) (p d x b n : Z).

(** * Single steps *)

Lemma load_pool_ok s p P : pools s !! p = Some P -> load_pool p s = Ok P s.
Proof. intros E. unfold load_pool. eapply bind_ok; [done|]. by rewrite E. Qed.
Lemma load_pd_ok s d D : pds s !! d = Some D -> load_pd d s = Ok D s.
Proof. intros E. unfold load_pd. eapply bind_ok; [done|]. by rewrite E. Qed.
Lemma load_pm_ok s x m : pms s !! x = Some m -> load_pm x s = Ok m s.
Proof. intros E. unfold load_pm. eapply bind_ok; [done|]. by rewrite E. Qed.
Lemma do_free_ok s b n : heap s !! b = Some n -> do_free b s = Ok tt (s <| heap ::= delete b |>).
Proof. intros E. unfold do_free. eapply bind_ok; [done|]. eapply bind_ok; [by rewrite E|]. done. Qed.
Lemma del_ok x l : x ∈ l -> del x l = Some (filter (.≠ x) l).
Proof. intros H. unfold del. by rewrite bool_decide_true. Qed.

Lemma dec_keep s d D :
  pds s !! d = Some D -> ref D <> 1 ->
  PoolDataDecRef d s = Ok tt (s <| pds ::= <[d := D <| ref ::= fun r => r - 1 |>]> |>).
Proof.
  intros E H. unfold PoolDataDecRef. eapply bind_ok; [by apply load_pd_ok|]. cbv zeta. eapply bind_ok; [done|].
  simpl. by replace (ref D - 1 =? 0) with false by lia.
Qed.

Lemma dec_free s d D P n :
  pds s !! d = Some D -> ref D = 1 -> pools s !! pd_pool D = Some P -> d ∈ pdList P -> heap s !! d = Some n ->
  PoolDataDecRef d s =
    Ok tt (s <| pools ::= <[pd_pool D := P <| pdList := filter (.≠ d) (pdList P) |>]> |>
             <| heap ::= delete d |> <| pds ::= delete d |> <| pms ::= fun ms => foldr delete ms (pmList D) |>).
Proof.
  intros E H EP Hin Hh. unfold PoolDataDecRef. eapply bind_ok; [by apply load_pd_ok|]. cbv zeta. eapply bind_ok; [done|].
  simpl. replace (ref D - 1 =? 0) with true by lia. eapply bind_ok; [by apply load_pool_ok|].
  eapply bind_ok; [by rewrite del_ok|]. eapply bind_ok; [done|]. unfold free_pd.
  eapply bind_ok; [by eapply do_free_ok|]. unfold modify. destruct s as [h ds ms ps g c]. simpl.
  by rewrite delete_insert_eq.
Qed.

(** ** The pool of the invariant that the calls read *)

Lemma from_split d old l : (d ∉ old) -> from d (old ++ d :: l) = Some (d :: l).
Proof.
  induction old as [|x old IH]; intros H; simpl; [by rewrite Z.eqb_refl|]. apply not_elem_of_cons in H as [H1 H2].
  replace (x =? d) with false by lia. by apply IH.
Qed.

Lemma from_current o s p P :
  wfs o s -> pools s !! p = Some P -> cur_ok s P ->
  exists old l, pdList P = old ++ current P :: l /\ from (current P) (pdList P) = Some (current P :: l) /\
    forall d, d ∈ current P :: l -> exists D, pds s !! d = Some D /\ failed D < 6.
Proof.
  intros W E (old & l & H & Hl). exists old, l. split_and!; try done. rewrite H. apply from_split.
  destruct (w_pool _ _ _ W _ _ E) as (_ & _ & _ & N). rewrite H in N. apply NoDup_app in N as (_ & N & _).
  intros Hin. apply (N _ Hin). by left.
Qed.

(** Blocks keep their [failed] count. *)
Lemma cur_ok_mono s s' P :
  (forall d D, pds s !! d = Some D -> d ∈ pdList P -> exists D', pds s' !! d = Some D' /\ failed D' = failed D) ->
  cur_ok s P -> cur_ok s' P.
Proof.
  intros H (old & l & E & Hl). exists old, l. split; [done|]. intros d Hd. destruct (Hl d Hd) as (D & ED & HD).
  destruct (H d D ED) as (D' & ED' & HD'); [rewrite E; set_solver|]. exists D'. split; [done|lia].
Qed.

(** Only the lists of children and the father matter to the family. *)
Lemma family_set ps p P P' :
  family ps -> ps !! p = Some P -> childList P' = childList P -> father P' = father P -> family (<[p := P']> ps).
Proof.
  intros F E H1 H2. destruct F. split; intros q Q *; intros [[<- <-]|[Hq Eq]]%lookup_insert_Some; rewrite ?H1, ?H2; intros.
  - destruct (f_child0 p P c) as (C & C1 & C2); [done..|]. destruct (decide (c = p)) as [->|].
    + exists P'. rewrite lookup_insert_eq. split; [done|]. congruence.
    + exists C. by rewrite lookup_insert_ne.
  - destruct (f_child0 q Q c) as (C & C1 & C2); [done..|]. destruct (decide (c = p)) as [->|].
    + exists P'. rewrite lookup_insert_eq. split; [done|]. congruence.
    + exists C. by rewrite lookup_insert_ne.
  - destruct (f_father0 p P f) as (C & C1 & C2); [done..|]. destruct (decide (f = p)) as [->|].
    + exists P'. rewrite lookup_insert_eq. split; [done|]. by simplify_eq; rewrite H1.
    + exists C. by rewrite lookup_insert_ne.
  - destruct (f_father0 q Q f) as (C & C1 & C2); [done..|]. destruct (decide (f = p)) as [->|].
    + exists P'. rewrite lookup_insert_eq. split; [done|]. by simplify_eq; rewrite H1.
    + exists C. by rewrite lookup_insert_ne.
  - by eapply f_nodup0.
  - by eapply f_nodup0.
Qed.

Lemma global_set s p P P' :
  (forall g, gGolbalPool s = Some g -> exists P, pools s !! g = Some P /\ father P = None) ->
  pools s !! p = Some P -> father P' = father P ->
  forall g, gGolbalPool s = Some g -> exists Q, <[p := P']> (pools s) !! g = Some Q /\ father Q = None.
Proof.
  intros G E H g Hg. destruct (G g Hg) as (Q & Q1 & Q2). destruct (decide (g = p)) as [->|].
  - exists P'. rewrite lookup_insert_eq. split; [done|]. congruence.
  - exists Q. by rewrite lookup_insert_ne.
Qed.

(** Pools keep everything but the state of their mutex. *)
Lemma core_lock s p P v : core s -> pools s !! p = Some P -> core (s <| pools ::= <[p := P <| locked := v |>]> |>).
Proof.
  intros [W C F G] E. split; simpl.
  - by apply (wfs_set_pool wide None s p P).
  - intros q Q [[<- <-]|[Hq Eq]]%lookup_insert_Some; [|by apply (C q)].
    destruct (C p P E) as (old & l & H). by exists old, l.
  - by apply (family_set _ p P).
  - by apply (global_set s p P).
Qed.

(** The pools stay, and blocks keep their [failed] count. *)
Lemma core_mem s s' :
  core s -> wfs None s' -> pools s' = pools s -> gGolbalPool s' = gGolbalPool s ->
  (forall d D, pds s !! d = Some D -> exists D', pds s' !! d = Some D' /\ failed D' = failed D) -> core s'.
Proof.
  intros [W C F G] W' E1 E2 H. split; rewrite ?E1, ?E2; try done.
  intros p P EP. eapply cur_ok_mono; [|by apply (C p)]. eauto.
Qed.

(** * Live memory *)

(** The pool memory belongs to. *)
Definition home s m : option Z :=
  match owner m with Some d => pd_pool <$> pds s !! d | None => Some (node m) end.
(** The size and the pool by the address of the header. *)
Definition live s : gmap Z (Z * Z) := map_imap (fun _ m => pair (pm_size m) <$> home s m) (pms s).
Definition locks s : gmap Z bool := locked <$> pools s.

Lemma live_lookup s x : live s !! x = m ← pms s !! x; pair (pm_size m) <$> home s m.
Proof. apply map_lookup_imap. Qed.

(** The blocks of some memory stay with their pools. *)
Definition homed (ms : gmap Z PoolMemory) s s' : Prop :=
  forall x m d, ms !! x = Some m -> owner m = Some d -> pd_pool <$> pds s' !! d = pd_pool <$> pds s !! d.

Lemma home_eq ms s s' x m : homed ms s s' -> ms !! x = Some m -> home s' m = home s m.
Proof. intros H E. unfold home. destruct (owner m) eqn:Eo; [by eapply H|done]. Qed.
Lemma live_ext s s' : pms s' = pms s -> homed (pms s) s s' -> live s' = live s.
Proof.
  intros E H. apply map_eq. intros x. rewrite !live_lookup, E. destruct (pms s !! x) as [m|] eqn:Ex; [|done]. simpl.
  by rewrite (home_eq _ _ _ _ _ H Ex).
Qed.
Lemma live_insert s s' x m h :
  pms s' = <[x := m]> (pms s) -> home s' m = Some h -> homed (delete x (pms s)) s s' ->
  live s' = <[x := (pm_size m, h)]> (live s).
Proof.
  intros E Hh H. apply map_eq. intros y. rewrite !live_lookup, E. destruct (decide (y = x)) as [->|Hy].
  - rewrite !lookup_insert_eq. simpl. by rewrite Hh.
  - rewrite !lookup_insert_ne by done. rewrite live_lookup. destruct (pms s !! y) as [k|] eqn:Ey; [|done]. simpl.
    rewrite (home_eq _ s s' y k H); [done|]. by rewrite lookup_delete_ne.
Qed.
Lemma live_delete s s' x :
  pms s' = delete x (pms s) -> homed (delete x (pms s)) s s' -> live s' = delete x (live s).
Proof.
  intros E H. apply map_eq. intros y. rewrite !live_lookup, E. destruct (decide (y = x)) as [->|Hy].
  - by rewrite !lookup_delete_eq.
  - rewrite !lookup_delete_ne by done. rewrite live_lookup. destruct (pms s !! y) as [k|] eqn:Ey; [|done]. simpl.
    rewrite (home_eq _ s s' y k H); [done|]. by rewrite lookup_delete_ne.
Qed.
Lemma homed_same ms s s' : pds s' = pds s -> homed ms s s'.
Proof. intros E x m d _ _. by rewrite E. Qed.
Lemma homed_set ms s s' d D D' :
  pds s !! d = Some D -> pds s' = <[d := D']> (pds s) -> pd_pool D' = pd_pool D -> homed ms s s'.
Proof.
  intros E Hs H x m e _ _. rewrite Hs. destruct (decide (e = d)) as [->|]; [|by rewrite lookup_insert_ne].
  rewrite lookup_insert_eq, E. simpl. by rewrite H.
Qed.
(** A block without memory is dropped. *)
Lemma homed_drop o ms s s' d D :
  wfs o s -> pds s !! d = Some D -> ms ⊆ pms s -> (forall x, x ∈ pmList D -> ms !! x = None) -> pds s' = delete d (pds s) ->
  homed ms s s'.
Proof.
  intros W E Hs Hn Hd x m e Hx Ho. rewrite Hd, lookup_delete_ne; [done|]. intros <-.
  pose proof (w_pm _ _ _ W x m (lookup_weaken _ _ _ _ Hx Hs)) as K. unfold pm_ok in K. rewrite Ho in K.
  destruct K as (_ & _ & D' & ? & Hin). simplify_eq. rewrite Hn in Hx; done.
Qed.

Definition size_ok n : Prop :=
  0 < n /\ spm + n + 8 <= 2 ^ 31 /\ (n <= POOL_LARGE_SIZE -> room wide n <= POOL_LARGE_SIZE).

(** What an allocation from [p] does. *)
Definition allocated p n s (r : option Z) s' : Prop :=
  match r with
  | Some a => live s !! (a - spm) = None /\ live s' = <[a - spm := (n, p)]> (live s)
  | None => live s' = live s
  end.
Definition stays s s' : Prop :=
  core s' /\ locks s' = locks s /\ gGolbalPool s' = gGolbalPool s.

Lemma core_calls s : core s -> core (s <| calls ::= S |>).
Proof. intros [[] C F G]. split; [by split|exact C|exact F|exact G]. Qed.

Lemma cut_ok o s d D n r :
  wfs o s -> pds s !! d = Some D -> 0 < n <= POOL_LARGE_SIZE -> r = room wide n ->
  last D + r <= d + POOL_BLOCK_SIZE ->
  exists s', cut wide d n r s = Ok (last D + spm) s' /\ wfs o s' /\
    allocated (pd_pool D) n s (Some (last D + spm)) s' /\ pools s' = pools s /\ gGolbalPool s' = gGolbalPool s /\
    forall e E, pds s !! e = Some E -> exists E', pds s' !! e = Some E' /\ failed E' = failed E.
Proof.
  intros W E Hn Hr Hl. eexists. split_and!.
  - unfold cut. eapply bind_ok; [by apply load_pd_ok|]. cbv zeta. eapply bind_ok; [done|]. eapply bind_ok; [done|]. done.
  - by apply (wfs_cut wide o s d D).
  - unfold allocated. replace (last D + spm - spm) with (last D) by lia. split.
    + pose proof (room_pos wide n ltac:(lia)). rewrite live_lookup, (last_fresh wide o s d D W E) by lia. done.
    + apply (live_insert s _ (last D) (mkPm (Some d) n d)); [done| |by apply (homed_set _ s _ d D (D <| ref ::= Z.add 1 |> <| pmList ::= fun l => l ++ [last D] |> <| last ::= Z.add r |>))].
      unfold home. simpl. by rewrite lookup_insert_eq.
  - done.
  - done.
  - intros e E0 HE. simpl. destruct (decide (e = d)) as [->|]; [|rewrite lookup_insert_ne by done; eauto].
    rewrite lookup_insert_eq. simplify_eq. eexists. split; [done|]. done.
Qed.

Lemma find_block_ok o s r l :
  wfs o s -> (forall d, d ∈ l -> is_Some (pds s !! d)) ->
  exists f, find_block r l s = Ok f s /\
    match f with
    | Some d => d ∈ l /\ exists D, pds s !! d = Some D /\ last D + r <= d + POOL_BLOCK_SIZE
    | None => True
    end.
Proof.
  intros W. induction l as [|d l IH]; intros Hl; [by exists None|]. destruct (Hl d) as [D E]; [by left|].
  destruct (w_pd _ _ _ W _ _ E) as (_ & H2 & _ & _ & _ & C & H7 & _). apply chain_le in C. pose proof (spd_range wide).
  unfold POOL_BLOCK_SIZE in *. cbn [find_block]. unfold mbind, M_bind. rewrite (load_pd_ok _ _ _ E). rewrite s32_small by lia.
  destruct (end_ D - last D >=? r) eqn:Ef.
  - exists (Some d). split; [done|]. split; [by left|]. exists D. split; [done|lia].
  - destruct IH as (f & Hf1 & Hf2); [intros e He; apply Hl; by right|]. exists f. split; [done|].
    destruct f as [e|]; [|done]. destruct Hf2 as [? ?]. split; [by right|done].
Qed.

(** ** A new block *)

Lemma pool_same s p P l : pools s !! p = Some P -> pdList P = l -> <[p := P <| pdList := l |>]> (pools s) = pools s.
Proof. intros E <-. apply insert_id. rewrite E. f_equal. by destruct P. Qed.

(** A block that was passed over for the last time: it stays as long as there is memory in it. *)
Lemma drop_ref_ok b s p P d D old l :
  wfs (Some b) s -> pools s !! p = Some P -> pdList P = old ++ d :: l -> pds s !! d = Some D -> failed D = 5 -> b <> d ->
  exists s1 old1,
    PoolDataDecRef d (s <| pds ::= <[d := D <| failed ::= Z.add 1 |>]> |>) = Ok tt s1 /\
    wfs (Some b) s1 /\ pools s1 = <[p := P <| pdList := old1 ++ l |>]> (pools s) /\ old1 ++ l ⊆ pdList P /\
    live s1 = live s /\ gGolbalPool s1 = gGolbalPool s /\
    forall e, e <> d -> pds s1 !! e = pds s !! e.
Proof.
  intros W EP Hl E Hf Hb. destruct (w_pd _ _ _ W _ _ E) as (K1 & K2 & K3 & K4 & K5 & K6 & K7 & K8).
  assert (pd_pool D = p) as Hp.
  { destruct (w_list _ _ _ W p P d) as (D' & ? & ?); [done|rewrite Hl; set_solver|]. congruence. }
  destruct (w_pool _ _ _ W _ _ EP) as (_ & _ & _ & Nd). rewrite Hl in Nd.
  apply NoDup_app in Nd as (_ & Nd1 & Nd2). apply NoDup_cons in Nd2 as [Nd2 _].
  set (D1 := D <| failed ::= Z.add 1 |>). unfold held in K3. rewrite Hf in K3. simpl in K3.
  destruct (pmList D) as [|y ys] eqn:Em.
  - exists (s <| pools ::= <[p := P <| pdList := filter (.≠ d) (pdList P) |>]> |>
             <| heap ::= delete d |> <| pds ::= delete d |> <| pms ::= fun ms => foldr delete ms (pmList D) |>), old.
    assert (filter (.≠ d) (pdList P) = old ++ l) as Ef.
    { rewrite Hl, filter_app, filter_cons, decide_False by (intros H; by apply H).
      rewrite !filter_ne; [done|done|]. intros Hin. apply (Nd1 d Hin). by left. }
    split_and!.
    + rewrite (dec_free _ d D1 P POOL_BLOCK_SIZE); simpl; try done.
      * rewrite Hp. unfold modify. destruct s as [h ds ms ps g c]. simpl. by rewrite delete_insert_eq.
      * by rewrite lookup_insert_eq.
      * by rewrite Hp.
      * rewrite Hl. set_solver.
    + rewrite <- Hp. apply wfs_drop_block; [done|done|by rewrite Hp|congruence].
    + simpl. by rewrite Ef.
    + rewrite Hl. set_solver.
    + apply live_ext; [simpl; by rewrite Em|]. apply (homed_drop (Some b) (pms s) s _ d D); try done.
      rewrite Em. intros x Hx. by apply not_elem_of_nil in Hx.
    + done.
    + intros e He. simpl. by rewrite lookup_delete_ne.
  - assert (ref D1 <> 1) as Hr by (unfold D1; simpl; rewrite K3; simpl; lia).
    eexists _, (old ++ [d]). split_and!.
    + apply dec_keep; [simpl; by rewrite lookup_insert_eq|exact Hr].
    + destruct s as [h ds ms ps g c]. simpl. rewrite insert_insert_eq.
      apply (wfs_set_pd wide (Some b) (mkSt h ds ms ps g c) d D); try done.
      all: unfold held; cbn [failed pmList ref set]; rewrite ?Em, ?K3, ?Hf; simpl; lia.
    + symmetry. apply (pool_same s); [done|]. by rewrite <- app_assoc.
    + rewrite Hl, <- app_assoc. done.
    + apply live_ext; [done|]. eapply (homed_set _ s _ d D); [done|simpl; apply insert_insert_eq|done].
    + done.
    + intros e He. simpl. by rewrite !lookup_insert_ne.
Qed.

Lemma fail_loop_ok b p : forall l c s old P,
  wfs (Some b) s -> pools s !! p = Some P -> pdList P = old ++ l -> (b ∉ pdList P) ->
  (forall d, d ∈ l -> exists D, pds s !! d = Some D /\ failed D < 6) ->
  exists c' s' old' l', fail_loop b l c s = Ok c' s' /\ wfs (Some b) s' /\
    pools s' = <[p := P <| pdList := old' ++ l' |>]> (pools s) /\ (b ∉ old' ++ l') /\
    live s' = live s /\ gGolbalPool s' = gGolbalPool s /\
    (forall d, d ∈ l' -> exists D, pds s' !! d = Some D /\ failed D < 6) /\
    (forall d, (d ∉ l) -> pds s' !! d = pds s !! d) /\
    ((c' = c /\ l' = l /\ old' = old) \/ c' = Some (default b (head l'))).
Proof.
  induction l as [|d l IH]; intros c s old P W EP Hl Hb Hd.
  { exists c, s, old, []. split_and!; try done.
    - by rewrite pool_same.
    - by rewrite <- Hl.
    - by left. }
  destruct (Hd d) as (D & E & Hf); [by left|]. destruct (w_pd _ _ _ W _ _ E) as (K1 & K2 & K3 & K4 & K5 & K6).
  assert (b <> d) as Hbd by (intros ->; apply Hb; rewrite Hl; set_solver).
  assert (d ∉ l) as Hdl.
  { destruct (w_pool _ _ _ W _ _ EP) as (_ & _ & _ & N). rewrite Hl in N. apply NoDup_app in N as (_ & _ & N). by apply NoDup_cons in N as [N _]. }
  cbn [fail_loop]. unfold mbind, M_bind. rewrite (load_pd_ok _ _ _ E). unfold set_pd, modify.
  destruct (4 <? failed D) eqn:E4.
  - destruct (drop_ref_ok b s p P d D old l) as (s1 & old1 & R1 & R2 & R3 & R4 & R5 & R6 & R7); try done; [lia|].
    rewrite R1. set (P1 := P <| pdList := old1 ++ l |>) in *.
    destruct (IH (Some (default b (head l))) s1 old1 P1) as (c' & s' & old' & l' & H1 & H2 & H3 & H4 & H5 & H6 & H7 & H8 & H9).
    + done.
    + by rewrite R3, lookup_insert_eq.
    + done.
    + simpl. intros Hin. apply Hb. by apply R4.
    + intros e He. rewrite R7 by (intros ->; done). apply Hd. by right.
    + exists c', s', old', l'. split_and!; try done; try congruence.
      * by rewrite H3, R3, insert_insert_eq.
      * intros e He. rewrite H8, R7; [done|set_solver..].
      * right. destruct H9 as [(-> & -> & _)|H9]; done.
  - set (D1 := D <| failed ::= Z.add 1 |>). set (s1 := s <| pds ::= <[d := D1]> |>).
    assert (failed D1 < 6) as HfD1 by (unfold D1; simpl; lia).
    assert (wfs (Some b) s1) as W1.
    { apply (wfs_set_pd wide (Some b) s d D); try done; unfold held, D1 in *; simpl in *; try lia.
      - replace (1 + failed D <? 6) with true by lia. by replace (failed D <? 6) with true in K3 by lia.
      - replace (1 + failed D <? 6) with true by lia. lia. }
    assert (live s1 = live s) as Hlive by (apply live_ext; [done|]; by apply (homed_set _ s _ d D D1)).
    destruct (IH c s1 (old ++ [d]) P) as (c' & s' & old' & l' & H1 & H2 & H3 & H4 & H5 & H6 & H7 & H8 & H9); try done.
    + by rewrite Hl, <- app_assoc.
    + intros e He. unfold s1. simpl. rewrite lookup_insert_ne by (intros ->; done). apply Hd. by right.
    + assert (forall e, (e ∉ d :: l) -> pds s' !! e = pds s !! e) as Hfr.
      { intros e [He1 He2]%not_elem_of_cons. rewrite H8 by done. unfold s1. simpl. by rewrite lookup_insert_ne. }
      destruct H9 as [(-> & -> & ->)|H9].
      * exists c, s', old, (d :: l). rewrite <- app_assoc in H3, H4. split_and!; try done; [congruence| |by left].
        intros e [->|He]%elem_of_cons; [|by apply H7]. exists D1. rewrite H8 by done. unfold s1. simpl. by rewrite lookup_insert_eq.
      * exists c', s', old', l'. split_and!; try done; [congruence|by right].
Qed.

Lemma locks_set s p P P' ps :
  pools s !! p = Some P -> locked P' = locked P -> ps = <[p := P']> (pools s) -> locked <$> ps = locks s.
Proof. intros E H ->. unfold locks. rewrite fmap_insert. apply insert_id. rewrite lookup_fmap, E. simpl. by rewrite H. Qed.

(** The current block after a new one was put at the end of the list. *)
Lemma new_current s' P' b old l c cur :
  pdList P' = (old ++ l) ++ [b] -> current P' = default cur c -> (exists D, pds s' !! b = Some D /\ failed D < 6) ->
  (forall d, d ∈ l -> exists D, pds s' !! d = Some D /\ failed D < 6) ->
  (c = None /\ head l = Some cur) \/ c = Some (default b (head l)) -> cur_ok s' P'.
Proof.
  intros H1 H2 Hb Hl Hc.
  assert (exists l1, l ++ [b] = current P' :: l1) as [l1 E1].
  { rewrite H2. destruct Hc as [[-> Hh]| ->]; destruct l as [|x l]; simpl in *; try done; simplify_eq; eauto. }
  exists old, l1. rewrite H1, <- app_assoc, E1. split; [done|]. intros d Hd. rewrite <- E1 in Hd.
  apply elem_of_app in Hd as [Hd|Hd%list_elem_of_singleton]; [by apply Hl|by subst].
Qed.

(** * Calls *)

(** The pool a call works on. *)
Definition target s (po : option Z) : option Z := match po with Some p => Some p | None => gGolbalPool s end.
(** The mutex of [p] is free afterwards, the others are as before. *)
Definition done_with p s s' : Prop :=
  core s' /\ locks s' = <[p := false]> (locks s) /\ gGolbalPool s' = gGolbalPool s.

Lemma pool_lock_ok s p P : core s -> pools s !! p = Some P ->
  exists s1, CdxMutexLock p s = Ok tt s1 /\ core s1 /\ locks s1 = <[p := true]> (locks s) /\
    gGolbalPool s1 = gGolbalPool s /\ pms s1 = pms s /\ pds s1 = pds s /\ heap s1 = heap s /\ calls s1 = calls s.
Proof.
  intros C E. eexists. split_and!.
  - unfold CdxMutexLock. eapply bind_ok; [by apply load_pool_ok|]. done.
  - by apply core_lock.
  - unfold locks. simpl. by rewrite fmap_insert.
  - done.
  - done.
  - done.
  - done.
  - done.
Qed.

Lemma locks_some s p v : locks s !! p = Some v -> exists P, pools s !! p = Some P.
Proof. unfold locks. rewrite lookup_fmap. destruct (pools s !! p); [eauto|done]. Qed.

Lemma pool_unlock_ok s0 s p v :
  core s -> locks s = <[p := v]> (locks s0) -> gGolbalPool s = gGolbalPool s0 ->
  exists s', CdxMutexUnlock p s = Ok tt s' /\ done_with p s0 s' /\ live s' = live s.
Proof.
  intros C Hl Hg. destruct (locks_some s p v) as [P E]; [by rewrite Hl, lookup_insert_eq|]. eexists. split_and!.
  - unfold CdxMutexUnlock. eapply bind_ok; [by apply load_pool_ok|]. done.
  - split_and!; [by apply core_lock| |done]. unfold locks in *. simpl. rewrite fmap_insert, Hl. apply insert_insert_eq.
  - done.
Qed.

Lemma cur_ok_filter s s' d P :
  cur_ok s P -> (forall D, pds s !! d = Some D -> failed D = 6) -> (forall e, e <> d -> pds s' !! e = pds s !! e) ->
  cur_ok s' (P <| pdList := filter (.≠ d) (pdList P) |>).
Proof.
  intros (old & l & E & Hl) Hd Hs. assert (d ∉ current P :: l) as Hn.
  { intros Hin. destruct (Hl d Hin) as (D & HD & ?). apply Hd in HD. lia. }
  exists (filter (.≠ d) old), l. simpl. rewrite E, filter_app, (filter_ne d (current P :: l)) by done. split; [done|].
  intros e He. rewrite Hs; [by apply Hl|]. intros ->. done.
Qed.

(** Freeing small memory. *)
Lemma del_small_ok s x m :
  core s -> pms s !! x = Some m -> is_Some (owner m) ->
  twp (del_small x m) (fun _ s' => stays s s' /\ live s' = delete x (live s)) s.
Proof.
  intros C E [d Eo]. pose proof (c_s _ _ C) as W. pose proof (w_pm _ _ _ W _ _ E) as K. unfold pm_ok in K. rewrite Eo in K.
  destruct K as (_ & _ & D & ED & Hin). destruct (w_pd _ _ _ W _ _ ED) as (K1 & K2 & K3 & K4 & K5 & K6 & K7 & K8).
  set (D1 := D <| pmList := filter (.≠ x) (pmList D) |>).
  set (s1 := s <| pds ::= <[d := D1]> |> <| pms ::= delete x |>).
  assert (live s1 = delete x (live s)) as Hlive by (apply live_delete; [done|]; by apply (homed_set _ s _ d D D1)).
  pose proof (length_filter_ne x (pmList D) (chain_nodup _ _ _ _ _ K6) Hin) as Lf.
  assert (exists s', PoolDataDecRef d s1 = Ok tt s' /\ stays s s' /\ live s' = live s1) as (s' & R1 & R2 & R3).
  { destruct (decide (ref D = 1)) as [Hr|Hr].
    - assert (failed D = 6 /\ filter (.≠ x) (pmList D) = []) as [Hf Hnil].
      { unfold held in K3. destruct (pmList D) as [|y l]; [by apply not_elem_of_nil in Hin|]. cbn [length] in *.
        destruct (failed D <? 6) eqn:Ef; [lia|]. split; [lia|]. by destruct (filter _ _); [|simpl in Lf; lia]. }
      destruct (w_listed _ _ _ W _ _ ED ltac:(done)) as (P & EP & HdP). eexists. split_and!.
      + apply (dec_free s1 d D1 P POOL_BLOCK_SIZE); unfold s1; simpl; try done. by rewrite lookup_insert_eq.
      + assert (pmList D = [x]) as Ex.
        { unfold held in K3. rewrite Hr, Hf in K3. simpl in K3. destruct (pmList D) as [|y [|]]; simpl in K3; try lia.
          by apply list_elem_of_singleton in Hin as ->. }
        pose proof (wfs_drop_block wide None s d D P W ED EP ltac:(done)) as W'. rewrite Ex in W'. simpl in W'.
        split_and!; [|by apply (locks_set s (pd_pool D) P (P <| pdList := filter (.≠ d) (pdList P) |>))|done].
        split; simpl; rewrite ?Hnil; simpl; rewrite ?delete_insert_eq.
        * exact W'.
        * intros q Q [[<- <-]|[Hq EQ]]%lookup_insert_Some.
          -- apply (cur_ok_filter s); [by apply (c_cur _ _ C (pd_pool D))|congruence|]. intros e He. simpl. by rewrite lookup_delete_ne.
          -- apply (cur_ok_mono s); [|by apply (c_cur _ _ C q)]. intros e D0 HD0 He. exists D0. simpl.
             destruct (w_list _ _ _ W q Q e EQ He) as (D' & ? & ?). rewrite lookup_delete_ne; [done|]. congruence.
        * apply (family_set _ (pd_pool D) P); try done. apply C.
        * apply (global_set s (pd_pool D) P); try done. apply C.
      + apply live_ext; [simpl; by rewrite Hnil|]. intros y k e Hy Ho. simpl. rewrite lookup_delete_ne; [done|]. intros <-.
        simpl in Hy. apply lookup_delete_Some in Hy as [Hne Hy]. pose proof (w_pm _ _ _ W y k Hy) as K. unfold pm_ok in K. rewrite Ho in K.
        destruct K as (_ & _ & D' & ? & Hin'). simplify_eq.
        assert (y ∈ filter (.≠ x) (pmList D)) as Hf' by (by apply list_elem_of_filter). rewrite Hnil in Hf'. by apply not_elem_of_nil in Hf'.
    - eexists. split_and!.
      + apply dec_keep; [simpl; by rewrite lookup_insert_eq|done].
      + pose proof (wfs_del_small wide None s x m d D W E Eo ED) as W'. cbv zeta in W'. fold D1 in W'.
        assert (0 < ref (D1 <| ref ::= fun r => r - 1 |>)) as Hpos.
        { unfold D1. simpl. lia. }
        specialize (W' Hpos). split_and!; [|done|done]. unfold s1. simpl. rewrite insert_insert_eq.
        apply (core_mem s); try done. intros e D0 HD0. simpl. destruct (decide (e = d)) as [->|].
        * rewrite lookup_insert_eq. simplify_eq. eauto.
        * rewrite lookup_insert_ne by done. eauto.
      + apply live_ext; [done|]. eapply (homed_set _ s1 _ d D1); [simpl; by rewrite lookup_insert_eq|done|done]. }
  apply (twp_intro _ _ _ tt s').
  - unfold del_small. rewrite Eo. eapply bind_ok; [done|]. eapply bind_ok; [by apply load_pd_ok|].
    eapply bind_ok; [by rewrite del_ok|]. eapply bind_ok; [done|]. eapply bind_ok; [done|]. exact R1.
  - split; [done|]. by rewrite R3.
Qed.

Lemma del_large_ok s x m :
  core s -> pms s !! x = Some m -> owner m = None ->
  twp (del_large x m) (fun _ s' => stays s s' /\ live s' = delete x (live s)) s.
Proof.
  intros C E Eo. pose proof (c_s _ _ C) as W. pose proof (w_pm _ _ _ W _ _ E) as K. unfold pm_ok in K. rewrite Eo in K.
  destruct K as (_ & Hh & _ & P & EP & Hin). set (P' := P <| largeList := filter (.≠ x) (largeList P) |>).
  eapply twp_intro.
  - unfold del_large. eapply bind_ok; [by apply load_pool_ok|]. eapply bind_ok; [by rewrite del_ok|].
    eapply bind_ok; [done|]. eapply bind_ok; [by eapply do_free_ok|]. done.
  - split; [|by apply live_delete; [|apply homed_same]].
    split_and!; [|by apply (locks_set s (node m) P P')|done]. split.
    + by apply wfs_del_large.
    + simpl. intros q Q [[<- <-]|[Hq EQ]]%lookup_insert_Some; [|by apply (c_cur _ _ C q)].
      destruct (c_cur _ _ C (node m) P EP) as (old & l & H). by exists old, l.
    + simpl. apply (family_set _ (node m) P); try done. apply C.
    + simpl. apply (global_set s (node m) P); try done. apply C.
Qed.

Lemma free_mem_ok s x m :
  core s -> pms s !! x = Some m ->
  twp (if POOL_LARGE_SIZE <? pm_size m then del_large x m else del_small x m)
    (fun _ s' => stays s s' /\ live s' = delete x (live s)) s.
Proof.
  intros C E. pose proof (w_pm _ _ _ (c_s _ _ C) _ _ E) as K. unfold pm_ok in K. destruct (owner m) as [d|] eqn:Eo.
  - destruct K as (K & _). replace (_ <? _) with false by lia. apply del_small_ok; [done..|by rewrite Eo].
  - destruct K as (K & _). replace (_ <? _) with true by lia. by apply del_large_ok.
Qed.

Lemma pfree_call s po p P a m :
  core s -> target s po = Some p -> pools s !! p = Some P -> pms s !! (a - spm) = Some m ->
  twp (AwPfree wide po a) (fun _ s' => done_with p s s' /\ live s' = delete (a - spm) (live s)) s.
Proof.
  intros C T E Em. unfold AwPfree. apply twp_bind. apply (twp_intro _ _ _ p s).
  { unfold the_pool. eapply bind_ok; [done|]. unfold target in T. by rewrite T. }
  destruct (pool_lock_ok s p P C E) as (s1 & L1 & L2 & L3 & L4 & L5 & L6 & L7 & L8).
  apply twp_bind. eapply twp_intro; [exact L1|]. cbv beta zeta. rewrite <- L5 in Em.
  apply twp_bind. eapply twp_intro; [by apply load_pm_ok|]. cbv beta.
  apply twp_bind. eapply twp_mono; [by apply free_mem_ok|]. intros _ s2 ((S1 & S2 & S3) & A).
  destruct (pool_unlock_ok s s2 p true) as (s' & U1 & U2 & U3); [done|congruence|congruence|].
  eapply twp_intro; [exact U1|]. split; [done|]. rewrite U3, A. by rewrite (live_ext s s1) by (done || by apply homed_same).
Qed.

(** Memory of [a] grown in its place or moved to new memory of [p], or kept when there is none. *)
Definition moved p a n s (r : option Z) s' : Prop :=
  match r with
  | Some b =>
      (exists k q, b = a /\ live s !! (a - spm) = Some (k, q) /\ live s' = <[a - spm := (n, q)]> (live s)) \/
      live s !! (b - spm) = None /\ live s' = <[b - spm := (n, p)]> (delete (a - spm) (live s))
  | None => live s' = live s
  end.

Lemma room_fits x n limit : x mod 8 = 0 -> limit mod 8 = 0 -> spm + n <= limit - x -> x + room wide n <= limit.
Proof. intros H1 H2 H3. pose proof (room_range wide n). dlia. Qed.

Lemma next_of_in x l y : next_of x l = Some y -> y ∈ l.
Proof.
  induction l as [|z l IH]; [done|]. simpl. destruct (z =? x); [|intros H; right; by apply IH].
  destruct l; [done|]. simpl. intros [= ->]. right. by left.
Qed.

(** Growing in place. *)
Lemma grow_place_ok s x m d D n :
  core s -> pms s !! x = Some m -> owner m = Some d -> pds s !! d = Some D -> 0 < n <= POOL_LARGE_SIZE ->
  x + room wide n <= default (d + POOL_BLOCK_SIZE) (next_of x (pmList D)) ->
  twp (set_pm x (m <| pm_size := n |>);;
       match next_of x (pmList D) with
       | None => set_pd d (D <| last := x + AwAlign (spm + n) POOL_ALIGNMENT |>)
       | Some _ => mret tt
       end) (fun _ s' => stays s s' /\ live s' = <[x := (n, pd_pool D)]> (live s)) s.
Proof.
  intros C E Eo ED Hn Hfit. pose proof (c_s _ _ C) as W.
  pose proof (wfs_grow wide None s x m d D n _ W E Eo ED Hn Hfit eq_refl) as W'.
  set (l := match next_of _ _ with Some _ => _ | None => _ end) in W'.
  set (s' := _ <| pds ::= _ |>) in W'. apply (twp_intro _ _ _ tt s').
  - eapply bind_ok; [done|]. unfold s', l. destruct (next_of x (pmList D)); [|done].
    unfold mret, M_ret. f_equal. destruct s as [h ds ms ps g c]. simpl in *. f_equal. symmetry. apply insert_id. rewrite ED. by destruct D.
  - split.
    2: { rewrite (live_insert s s' x (m <| pm_size := n |>) (pd_pool D)); [done|done| |by apply (homed_set _ s _ d D (D <| last := l |>))].
         unfold home. simpl. by rewrite Eo, lookup_insert_eq. }
    split_and!; try done. apply (core_mem s); try done.
    intros e D0 HD0. simpl. destruct (decide (e = d)) as [->|].
    + rewrite lookup_insert_eq. simplify_eq. eauto.
    + rewrite lookup_insert_ne by done. eauto.
Qed.

(** Some mutex state of [p], everything else of the locks as before. *)
Definition about p s s' : Prop :=
  core s' /\ (exists v, locks s' = <[p := v]> (locks s)) /\ gGolbalPool s' = gGolbalPool s.

Lemma stays_about p P s s' : pools s !! p = Some P -> stays s s' -> about p s s'.
Proof.
  intros E (H1 & H2 & H3). split_and!; try done. exists (locked P). rewrite H2. symmetry. apply insert_id.
  unfold locks. by rewrite lookup_fmap, E.
Qed.

Lemma live_some s x m : wfs None s -> pms s !! x = Some m -> exists q, home s m = Some q /\ live s !! x = Some (pm_size m, q).
Proof.
  intros W E. rewrite live_lookup, E. simpl. pose proof (w_pm _ _ _ W _ _ E) as K. unfold pm_ok, home in *.
  destruct (owner m) as [d|]; [|by exists (node m)]. destruct K as (_ & _ & D & ED & _). rewrite ED. by exists (pd_pool D).
Qed.

(** Freeing the old memory after a new one was made. *)
Lemma replace_ok s s2 p P a b n m :
  core s -> core s2 -> pools s !! p = Some P -> (exists v, locks s2 = <[p := v]> (locks s)) -> gGolbalPool s2 = gGolbalPool s ->
  pms s !! (a - spm) = Some m -> allocated p n s (Some b) s2 ->
  twp (AwPfree wide (Some p) a;; mret (Some b)) (fun r s' => (about p s s' /\ moved p a n s r s') /\ is_Some r) s2.
Proof.
  intros C0 C E [v Hl] Hg Em [A1 A2]. destruct (live_some _ _ _ (c_s _ _ C0) Em) as (q & _ & Ha).
  destruct (locks_some s2 p v) as [P2 E2]; [by rewrite Hl, lookup_insert_eq|].
  assert (live s2 !! (a - spm) = Some (pm_size m, q)) as Ha2.
  { rewrite A2, lookup_insert_ne; [done|]. congruence. }
  rewrite live_lookup in Ha2. destruct (pms s2 !! (a - spm)) as [m2|] eqn:Em2; [|done].
  apply twp_bind. eapply twp_mono; [by apply (pfree_call s2 (Some p) p P2 a m2)|]. intros _ s' ((H1 & H2 & H3) & H4).
  apply twp_ret. split; [|by eexists]. split; [split_and!; [done| |congruence]|].
  - exists false. by rewrite H2, Hl, insert_insert_eq.
  - simpl. right. split; [done|]. rewrite H4, A2. apply delete_insert_ne. congruence.
Qed.
End steps.

Section calls.
Context (wide : bool) (malloc : nat -> gmap Z Z -> Z -> option Z).
(** [malloc] returns aligned memory apart from all live blocks. *)
Hypothesis malloc_fresh : forall k h n b, 0 < n -> malloc k h n = Some b -> fresh h b n.
Abbreviation spm := (sizeof_pm wide).
Abbreviation spd := (sizeof_pd wide).
Abbreviation wfs := (wfs wide).
Abbreviation core := (core wide).
Abbreviation stays := (stays wide).
Abbreviation allocated := (allocated wide).
Abbreviation moved := (moved wide).
Abbreviation size_ok := (size_ok wide).
Abbreviation done_with := (done_with wide).
Abbreviation about := (about wide).
Implicit Types (s : st) (D : PoolData) (P : Pool) (m : PoolMemory) (p d x b n : Z).

Lemma do_malloc_cases s n :
  0 < n ->
  (exists b, do_malloc malloc n s = Ok (Some b) (s <| calls ::= S |> <| heap ::= <[b := n]> |>) /\ fresh (heap s) b n) \/
  do_malloc malloc n s = Ok None (s <| calls ::= S |>) /\ malloc (calls s) (heap s) n = None.
Proof.
  intros Hn. unfold do_malloc, mbind, M_bind, get, modify. destruct (malloc (calls s) (heap s) n) as [b|] eqn:E; [left|by right].
  exists b. split; [done|]. by eapply malloc_fresh.
Qed.

(** [malloc] has another block; what an allocation may need. *)
Definition has_block s : Prop := is_Some (malloc (calls s) (heap s) POOL_BLOCK_SIZE).
Definition has_mem s n : Prop :=
  if n <=? POOL_LARGE_SIZE then has_block s else is_Some (malloc (calls s) (heap s) (n + spm)).

Lemma palloc_large_ok s p P n :
  core s -> pools s !! p = Some P -> POOL_LARGE_SIZE < n ->
  twp (PallocLarge wide malloc p n)
    (fun r s' => (stays s s' /\ allocated p n s r s' /\ (has_mem s n -> is_Some r)) /\
       forall x m, pms s !! x = Some m -> pms s' !! x = Some m) s.
Proof.
  intros C E Hn. pose proof (spm_range wide) as (R & _). unfold PallocLarge. apply twp_bind.
  destruct (do_malloc_cases s (n + spm)) as [(b & Eb & Fb)|[Eb Em]]; [unfold POOL_LARGE_SIZE in *; lia|..];
    (eapply twp_intro; [exact Eb|]); cbv beta.
  - destruct (fresh_none wide None s b (n + spm) (c_s _ _ C) ltac:(unfold POOL_LARGE_SIZE in *; lia) Fb) as (N1 & N2 & N3 & N4).
    eapply twp_intro; [eapply bind_ok; [done|]; eapply bind_ok; [by apply load_pool_ok|]; eapply bind_ok; [done|]; done|].
    pose proof (core_calls wide s C) as C'. unfold allocated, stays. replace (b + spm - spm) with b by lia.
    split; [|intros x m Hx; simpl; rewrite lookup_insert_ne; congruence]. split_and!.
    + destruct C' as [W Cu F G]. split.
      * by apply (wfs_add_large wide (s <| calls ::= S |>) p P).
      * simpl. intros q Q [[<- <-]|[Hq Eq]]%lookup_insert_Some; [|by apply (Cu q)].
        destruct (Cu p P E) as (old & l & H). by exists old, l.
      * simpl. by apply (family_set _ p P).
      * simpl. by apply (global_set s p P).
    + unfold locks. simpl. rewrite fmap_insert. apply insert_id. by rewrite lookup_fmap, E.
    + done.
    + by rewrite live_lookup, N4.
    + by apply (live_insert s _ b (mkPm None n p)); [| |apply homed_same].
    + by eexists.
  - split; [|done]. split_and!; [by unfold stays; split_and!; [apply core_calls|..]|done|].
    unfold has_mem. replace (n <=? POOL_LARGE_SIZE) with false by lia. rewrite Em. by intros [? ?].
Qed.

Lemma palloc_block_ok s p P n :
  core s -> pools s !! p = Some P -> 0 < n -> room wide n <= POOL_LARGE_SIZE ->
  twp (PallocBlock wide malloc p n) (fun r s' => stays s s' /\ allocated p n s r s' /\ (has_block s -> is_Some r)) s.
Proof.
  intros C E Hn Hr. pose proof (core_calls wide s C) as C'. pose proof (spm_range wide) as (R & _). pose proof (spd_range wide) as (R' & _).
  pose proof (room_range wide n) as Rn. unfold PallocBlock. apply twp_bind.
  destruct (do_malloc_cases s POOL_BLOCK_SIZE) as [(b & Eb & Fb)|[Eb Em]]; [done|..]; (eapply twp_intro; [exact Eb|]); cbv beta.
  2: { split_and!; [by unfold stays|done|]. intros [? H]. congruence. }
  destruct (fresh_none wide None s b POOL_BLOCK_SIZE (c_s _ _ C) ltac:(done) Fb) as (N1 & N2 & N3 & N4).
  pose proof (wfs_new_block wide (s <| calls ::= S |>) b p (c_s _ _ C') Fb) as W2.
  set (Db := mkPd (b + spd) _ _ _ _ _) in W2. set (s2 := _ <| pds ::= _ |>) in W2.
  destruct (from_current wide None s p P (c_s _ _ C) E (c_cur _ _ C p P E)) as (old & l & Hl & Hfrom & Hcur).
  assert (forall d, d ∈ pdList P -> d <> b /\ exists D, pds s !! d = Some D /\ pd_pool D = p) as HP.
  { intros d Hd. destruct (w_list _ _ _ (c_s _ _ C) p P d E Hd) as (D & ED & Hp). split; [congruence|eauto]. }
  destruct (fail_loop_ok wide b p (current P :: l) None s2 old P) as (c' & s' & old' & l' & L1 & L2 & L3 & L4 & L5 & L6 & L7 & L8 & L9); try done.
  { intros Hin. by destruct (HP b Hin). }
  { intros d Hd. simpl. rewrite lookup_insert_ne; [by apply Hcur|]. intros <-. destruct (HP b) as [? _]; [rewrite Hl; set_solver|done]. }
  set (P1 := P <| pdList := old' ++ l' |>) in *.
  set (P2 := P1 <| pdList ::= fun l => l ++ [b] |> <| current := default (current P1) c' |>).
  set (s3 := s' <| pools ::= <[p := P2]> |>).
  assert (pds s' !! b = Some Db) as Hb.
  { rewrite L8; [simpl; by rewrite lookup_insert_eq|]. intros Hin. destruct (HP b) as [? _]; [rewrite Hl; set_solver|done]. }
  assert (pools s' !! p = Some P1) as EP1 by (by rewrite L3, lookup_insert_eq).
  assert (wfs None s3) as W3.
  { pose proof (wfs_link wide s' b Db P1 L2 Hb EP1 L4) as W4.
    apply (wfs_set_pool wide None _ p (P1 <| pdList ::= fun l => l ++ [b] |>) P2) in W4; try done; [|simpl; by rewrite lookup_insert_eq].
    destruct s' as [h ds ms ps g k]. simpl in *. by rewrite insert_insert_eq in W4. }
  destruct (cut_ok wide None s3 b Db n (room wide n)) as (s4 & Q1 & Q2 & Q3 & Q4 & Q5 & Q6); try done.
  { unfold POOL_LARGE_SIZE in *. lia. }
  { unfold Db. simpl. unfold POOL_LARGE_SIZE, POOL_BLOCK_SIZE in *. lia. }
  assert (pools s4 = <[p := P2]> (pools s)) as EP4 by (rewrite Q4; simpl; by rewrite L3, insert_insert_eq).
  apply (twp_intro _ _ _ (Some (b + spd + spm)) s4).
  - eapply bind_ok; [by apply load_pool_ok|]. eapply bind_ok; [by rewrite Hfrom|].
    eapply bind_ok; [unfold set_pd, modify; rewrite align_eq; replace ((- spd) mod 8) with 0 by (unfold sizeof_pd; by destruct wide);
      rewrite Z.add_0_r; reflexivity|].
    eapply bind_ok; [exact L1|]. eapply bind_ok; [by apply load_pool_ok|]. eapply bind_ok; [done|]. eapply bind_ok; [exact Q1|]. done.
  - assert (live s3 = live s) as Hlive.
    { transitivity (live s'); [by apply live_ext; [|apply homed_same]|]. rewrite L5. apply live_ext; [done|].
      intros y k e Hy Ho. simpl. rewrite lookup_insert_ne; [done|]. intros <-. pose proof (w_pm _ _ _ (c_s _ _ C) y k Hy) as K.
      unfold pm_ok in K. rewrite Ho in K. destruct K as (_ & _ & D' & ? & _). congruence. }
    split; [|split; [unfold allocated in *; rewrite Hlive in Q3; exact Q3|by eexists]]. split; [|split; [exact (locks_set s p P P2 (pools s4) E eq_refl EP4)|by rewrite Q5; simpl; rewrite L6]].
    split; [done| | |].
    + rewrite EP4. intros q Q [[<- <-]|[Hq EQ]]%lookup_insert_Some.
      * apply (new_current s4 P2 b old' l' c' (current P)); try done.
        -- destruct (Q6 b Db Hb) as (D' & ? & HD'). exists D'. split; [done|]. rewrite HD'. simpl. lia.
        -- intros d Hd. destruct (L7 d Hd) as (D & HD & ?). destruct (Q6 d D HD) as (D' & ? & HD'). exists D'. split; [done|lia].
        -- destruct L9 as [(-> & -> & ->)|L9]; [by left|by right].
      * apply (cur_ok_mono s); [|by apply (c_cur _ _ C q)]. intros d D HD Hin. apply Q6. simpl.
        destruct (w_list _ _ _ (c_s _ _ C) q Q d EQ Hin) as (D' & ? & ?). simplify_eq.
        rewrite L8; [simpl; rewrite lookup_insert_ne; congruence|]. intros Hdl. destruct (HP d) as (_ & D1 & ? & ?); [rewrite Hl; set_solver|]. congruence.
    + rewrite EP4. apply (family_set _ p P); try done. apply C.
    + rewrite EP4, Q5. simpl. rewrite L6. apply (global_set s p P); [apply C|done|done].
Qed.

Lemma palloc_ok s p P n :
  core s -> pools s !! p = Some P -> size_ok n ->
  twp (palloc wide malloc p n)
    (fun r s' => stays s s' /\ allocated p n s r s' /\ (has_mem s n -> is_Some r)) s.
Proof.
  intros C E (H1 & H2 & H3). unfold palloc. rewrite pm_room_eq by done. pose proof (room_range wide n). pose proof (spm_range wide).
  destruct (room wide n <=? POOL_LARGE_SIZE) eqn:Er.
  - destruct (from_current wide None s p P (c_s _ _ C) E (c_cur _ _ C p P E)) as (old & l & Hl & Hfrom & Hcur).
    apply twp_bind. eapply twp_intro; [by apply load_pool_ok|]. cbv beta. rewrite Hfrom.
    apply twp_bind. eapply twp_lift; [done|].
    destruct (find_block_ok wide None s (room wide n) (current P :: l) (c_s _ _ C)) as (f & F1 & F2).
    { intros d Hd. destruct (Hcur d Hd) as (D & ? & _). eauto. }
    apply twp_bind. eapply twp_intro; [exact F1|]. cbv beta. destruct f as [d|].
    2: { eapply twp_mono; [apply (palloc_block_ok s p P); (done || lia)|]. unfold has_mem.
         replace (n <=? POOL_LARGE_SIZE) with true by (unfold POOL_LARGE_SIZE in *; lia). done. }
    destruct F2 as (Hd & D & ED & HD).
    destruct (cut_ok wide None s d D n (room wide n) (c_s _ _ C) ED) as (s' & Q1 & Q2 & Q3 & Q4 & Q5 & Q6); try done; [unfold POOL_LARGE_SIZE in *; lia|].
    assert (pd_pool D = p) as Hp.
    { destruct (w_list _ _ _ (c_s _ _ C) p P d E) as (D' & ? & ?); [rewrite Hl; set_solver|]. congruence. }
    rewrite Hp in Q3. eapply twp_intro; [eapply bind_ok; [exact Q1|]; done|]. split; [|split; [exact Q3|by eexists]]. unfold stays, locks. rewrite Q4. split_and!; try done.
    by apply (core_mem wide s).
  - assert (POOL_LARGE_SIZE < n) as Hn by (unfold POOL_LARGE_SIZE in *; lia).
    eapply twp_mono; [by apply (palloc_large_ok s p P)|]. intros r s' [? _]. done.
Qed.

Lemma palloc_call s po p P n :
  core s -> target s po = Some p -> pools s !! p = Some P -> size_ok n ->
  twp (AwPalloc wide malloc true po n)
    (fun r s' => done_with p s s' /\ allocated p n s r s' /\ (has_mem s n -> is_Some r)) s.
Proof.
  intros C T E Hn. pose proof Hn as [Hpos _]. unfold AwPalloc. replace (0 <? n) with true by lia. cbn [negb].
  apply twp_bind. apply (twp_intro _ _ _ (Some p) s).
  { unfold target in T. destruct po; [by injection T as ->|]. unfold global_pool. eapply bind_ok; [done|]. cbv beta. by rewrite T. }
  apply twp_bind. eapply twp_lift; [done|]. destruct (pool_lock_ok wide s p P C E) as (s1 & L1 & L2 & L3 & L4 & L5 & L6 & L7 & L8).
  apply twp_bind. eapply twp_intro; [exact L1|]. cbv beta.
  destruct (locks_some s1 p true) as [P1 E1]; [by rewrite L3, lookup_insert_eq|].
  apply twp_bind. eapply twp_mono; [by apply (palloc_ok s1 p P1)|]. intros r s2 ((S1 & S2 & S3) & A & B).
  destruct (pool_unlock_ok wide s s2 p true) as (s' & U1 & U2 & U3); [done|congruence|congruence|].
  eapply twp_intro; [eapply bind_ok; [exact U1|]; done|]. split; [done|].
  assert (live s1 = live s) as Hlive by (apply live_ext; [done|]; by apply homed_same). split.
  - unfold allocated in *. rewrite U3, <- Hlive. exact A.
  - unfold has_mem, has_block in *. by rewrite L7, L8 in B.
Qed.

Lemma grow_small_ok s p P a m d n :
  core s -> pools s !! p = Some P -> pms s !! (a - spm) = Some m -> owner m = Some d ->
  n <= POOL_LARGE_SIZE -> size_ok n -> has_mem s n ->
  twp (grow_small wide malloc true p a n m) (fun r s' => (about p s s' /\ moved p a n s r s') /\ is_Some r) s.
Proof.
  intros C E Em Eo Hn Hs Hb. pose proof (c_s _ _ C) as W. pose proof Hs as [Hpos _]. set (x := a - spm) in *.
  pose proof (w_pm _ _ _ W _ _ Em) as K. unfold pm_ok in K. rewrite Eo in K. destruct K as (_ & _ & D & ED & Hin).
  destruct (w_pd _ _ _ W _ _ ED) as (K1 & K2 & K3 & K4 & K5 & K6 & K7 & K8). pose proof (spm_range wide) as (R & _).
  pose proof (spd_range wide) as (R' & _).
  destruct (pm_inside wide None s x m W Em) as (X1 & X2 & _).
  destruct (chain_in _ _ _ _ _ _ K6 Hin) as (k & _ & N2 & _ & N4 & N5). pose proof (room_pos wide k N2).
  destruct (w_block _ _ _ W _ _ K1) as (_ & _ & D8).
  unfold grow_small. rewrite Eo. apply twp_bind. eapply twp_lift; [done|]. apply twp_bind. eapply twp_intro; [by apply load_pd_ok|].
  cbv beta zeta. fold x. set (limit := match next_of x (pmList D) with None => d + POOL_BLOCK_SIZE | Some y => y end).
  assert (limit mod 8 = 0 /\ d <= limit <= d + POOL_BLOCK_SIZE) as (Hl8 & Hl1).
  { unfold limit. destruct (next_of x (pmList D)) as [y|] eqn:En; [|unfold POOL_BLOCK_SIZE; split; [dlia|lia]].
    apply next_of_in in En. destruct (chain_in _ _ _ _ _ _ K6 En) as (j & _ & J2 & J3 & J4 & J5). pose proof (room_pos wide j J2).
    split; [done|lia]. }
  unfold POOL_BLOCK_SIZE in Hl1, K7. rewrite s32_small by (unfold x in *; lia).
  destruct (limit - a >=? n) eqn:Ef.
  - assert (x + room wide n <= default (d + POOL_BLOCK_SIZE) (next_of x (pmList D))) as Hfit.
    { replace (default _ _) with limit by (unfold limit; by destruct (next_of x (pmList D))).
      apply room_fits; [done|done|]. unfold x. lia. }
    pose proof (grow_place_ok wide s x m d D n C Em Eo ED ltac:(lia) Hfit) as G.
    destruct (twp_elim _ _ _ G) as ([] & s' & G1 & G2 & G3). unfold mbind, M_bind in G1. simpl in G1.
    apply (twp_intro _ _ _ (Some a) s').
    + eapply bind_ok; [done|]. eapply bind_ok; [exact G1|]. done.
    + split; [|by eexists]. split; [by eapply stays_about|]. simpl. left.
      destruct (live_some wide s x m W Em) as (q & Hq & Hlq). unfold home in Hq. rewrite Eo, ED in Hq. simpl in Hq. injection Hq as <-. eauto.
  - apply twp_bind. eapply twp_mono; [by apply (palloc_call s (Some p) p P n)|]. intros r s2 ((H1 & H2 & H3) & A & B).
    destruct (B Hb) as [b ->]. apply twp_bind. eapply twp_lift; [done|].
    apply (replace_ok wide s s2 p P a b n m); try done. by exists false.
Qed.

Lemma realloc_call s po p P a m n :
  core s -> target s po = Some p -> pools s !! p = Some P -> pms s !! (a - spm) = Some m ->
  pm_size m < n -> size_ok n -> (n <= POOL_LARGE_SIZE -> has_block s) ->
  twp (AwRealloc wide malloc true po a n)
    (fun r s' => done_with p s s' /\ moved p a n s r s' /\ (has_mem s n -> is_Some r)) s.
Proof.
  intros C T E Em Hlt Hn Hb. pose proof Hn as [Hpos _]. unfold AwRealloc. replace (0 <? n) with true by lia. cbn [negb].
  apply twp_bind. apply (twp_intro _ _ _ p s).
  { unfold the_pool. eapply bind_ok; [done|]. unfold target in T. by rewrite T. }
  destruct (pool_lock_ok wide s p P C E) as (s1 & L1 & L2 & L3 & L4 & L5 & L6 & L7 & L8).
  apply twp_bind. eapply twp_intro; [exact L1|]. cbv beta zeta. rewrite <- L5 in Em.
  apply twp_bind. eapply twp_intro; [by apply load_pm_ok|]. cbv beta. replace (pm_size m <? n) with true by lia. cbn [negb].
  destruct (locks_some s1 p true) as [P1 E1]; [by rewrite L3, lookup_insert_eq|].
  assert (live s1 = live s) as Hlive by (apply live_ext; [done|]; by apply homed_same).
  assert (has_mem s1 n = has_mem s n) as Hm by (unfold has_mem, has_block; by rewrite L7, L8).
  apply twp_bind. eapply (twp_mono _ (fun r s' => (about p s1 s' /\ moved p a n s1 r s') /\ (has_mem s1 n -> is_Some r))).
  2: { intros r s2 (((S1 & [v S2] & S3) & A) & B). rewrite Hm in B. destruct (pool_unlock_ok wide s s2 p v) as (s' & U1 & U2 & U3); [done| |congruence|].
       - by rewrite S2, L3, insert_insert_eq.
       - eapply twp_intro; [eapply bind_ok; [exact U1|]; done|]. split; [done|]. split; [|done]. unfold moved in *. by rewrite U3, <- Hlive. }
  pose proof (w_pm _ _ _ (c_s _ _ L2) _ _ Em) as K. unfold pm_ok in K. destruct (POOL_LARGE_SIZE <? pm_size m) eqn:El.
  - destruct (owner m) as [d|] eqn:Eo; [lia|]. apply twp_bind. eapply twp_mono; [apply (palloc_large_ok s1 p P1); (done || lia)|].
    intros [b|] s2 [(S & A & B) Hk]; [|apply twp_ret; split; [split; [by eapply stays_about|done]|done]]. pose proof S as (S1 & S2 & S3).
    apply twp_bind. eapply twp_mono; [apply (del_large_ok wide s2 (a - spm) m S1); [by apply Hk|done]|].
    intros _ s3 ((T1 & T2 & T3) & T4). apply twp_ret. destruct A as [A1 A2]. destruct (live_some wide _ _ _ (c_s _ _ L2) Em) as (q & _ & Ha).
    assert (b - spm <> a - spm) as Hne by congruence. split; [|done]. split.
    + eapply stays_about; [done|]. split_and!; [done|congruence|congruence].
    + simpl. right. split; [done|]. rewrite T4, A2. by apply delete_insert_ne.
  - destruct (owner m) as [d|] eqn:Eo; [|lia]. destruct (POOL_LARGE_SIZE <? n) eqn:El'.
    + apply twp_bind. eapply twp_mono; [apply (palloc_large_ok s1 p P1); (done || lia)|].
      intros [b|] s2 [(S & A & B) Hk]; [|apply twp_ret; split; [split; [by eapply stays_about|done]|done]].
      apply (stays_about wide p P1) in S as (S1 & S2 & S3); [|done].
      eapply twp_mono; [by apply (replace_ok wide s1 s2 p P1 a b n m)|]. naive_solver.
    + eapply twp_mono; [apply (grow_small_ok s1 p P1 a m d n); try done; [lia|]|naive_solver].
      rewrite Hm. unfold has_mem. replace (n <=? POOL_LARGE_SIZE) with true by lia. apply Hb. lia.
Qed.
End calls.
End AwPoolCalls.
