(* ===== verification/AwPoolLife.v ===== *)
(** Creating and destroying memory pools. *)

From Stdlib Require Import ZArith Lia.
From stdpp Require Import base list list_numbers numbers gmap fin_maps.
From S2P Require Import Prelude AwPool AwPoolSpec AwPoolCalls.

Open Scope Z_scope.

Module AwPoolLife.
Import AwPool AwPoolSpec AwPoolCalls.

Section steps.
Context (wide : bool).
Abbreviation spm := (sizeof_pm wide).
Abbreviation spd := (sizeof_pd wide).
Abbreviation wfs := (wfs wide).
Abbreviation core := (core wide).
Implicit Types (s : st) (D : PoolData) (P : Pool) (m : PoolMemory) (p d x b n : Z).

(** * Fathers and children *)

Lemma family_new ps p P : family ps -> ps !! p = None -> childList P = [] -> father P = None -> family (<[p := P]> ps).
Proof.
  intros F E H1 H2. assert (forall q Q, ps !! q = Some Q -> <[p := P]> ps !! q = Some Q) as Hk
    by (intros q Q Hq; rewrite lookup_insert_ne; congruence).
  destruct F. split; intros q Q *; intros [[<- <-]|[Hq Eq]]%lookup_insert_Some; rewrite ?H1, ?H2; intros.
  - by apply not_elem_of_nil in H.
  - destruct (f_child0 q Q c) as (C & ? & ?); eauto.
  - done.
  - destruct (f_father0 q Q f) as (C & ? & ?); eauto.
  - constructor.
  - by eapply f_nodup0.
Qed.

(** The new pool is made a child. *)
Lemma add_child_ok s p P f F :
  core s -> pools s !! p = Some P -> pools s !! f = Some F -> father P = None -> childList P = [] -> p <> f ->
  core (s <| pools ::= <[p := P <| father := Some f |>]> |> <| pools ::= <[f := F <| childList ::= cons p |>]> |>) \/
  gGolbalPool s = Some p.
Proof.
  intros C EP EF H1 H2 Hne. destruct (decide (gGolbalPool s = Some p)) as [|Hg]; [by right|left].
  set (P' := P <| father := Some f |>). set (F' := F <| childList ::= cons p |>).
  assert (p ∉ childList F) as Hnc.
  { intros Hin. destruct (f_child _ (c_family _ _ C) f F p EF Hin) as (Q & ? & ?). congruence. }
  split.
  - apply (wfs_set_pool wide None _ f F); try done; [|simpl; by rewrite lookup_insert_ne].
    apply (wfs_set_pool wide None _ p P); try done. apply C.
  - simpl. intros q Q [[<- <-]|[Hq [[<- <-]|[Hq' EQ]]%lookup_insert_Some]]%lookup_insert_Some.
    + destruct (c_cur _ _ C f F EF) as (old & l & H). by exists old, l.
    + destruct (c_cur _ _ C p P EP) as (old & l & H). by exists old, l.
    + by apply (c_cur _ _ C q).
  - destruct (c_family _ _ C) as [Fc Ff Fn]. simpl.
    assert (forall q Q, pools s !! q = Some Q -> exists Q', <[f := F']> (<[p := P']> (pools s)) !! q = Some Q' /\
      childList Q ⊆ childList Q' /\ (q <> p -> father Q' = father Q)) as Hk.
    { intros q Q EQ. destruct (decide (q = f)) as [->|]; [|destruct (decide (q = p)) as [->|]].
      - exists F'. rewrite lookup_insert_eq. simplify_eq. split_and!; try done. unfold F'. simpl. set_solver.
      - exists P'. rewrite lookup_insert_ne, lookup_insert_eq by done. simplify_eq. split_and!; done.
      - exists Q. rewrite !lookup_insert_ne by done. done. }
    split; intros q Q *; intros [[<- <-]|[Hq [[<- <-]|[Hq' EQ]]%lookup_insert_Some]]%lookup_insert_Some; simpl; intros.
    + apply elem_of_cons in H as [->|Hin]; [exists P'; by rewrite lookup_insert_ne, lookup_insert_eq by done|].
      destruct (Fc f F c EF Hin) as (R & R1 & R2). destruct (Hk c R R1) as (R' & ? & _ & Hf). exists R'. split; [done|].
      rewrite Hf; [done|]. intros ->. congruence.
    + rewrite H2 in H. by apply not_elem_of_nil in H.
    + destruct (Fc q Q c EQ H) as (R & R1 & R2). destruct (Hk c R R1) as (R' & ? & _ & Hf). exists R'. split; [done|].
      rewrite Hf; [done|]. intros ->. congruence.
    + destruct (Ff f F f0 EF H) as (R & R1 & R2). destruct (Hk f0 R R1) as (R' & ? & Hs & _). eauto.
    + simplify_eq. exists F'. rewrite lookup_insert_eq. split; [done|]. by left.
    + destruct (Ff q Q f0 EQ H) as (R & R1 & R2). destruct (Hk f0 R R1) as (R' & ? & Hs & _). eauto.
    + apply NoDup_cons. split; [done|]. by eapply Fn.
    + by eapply Fn.
    + by eapply Fn.
  - simpl. intros g Hg'. destruct (c_global _ _ C g Hg') as (Q & Q1 & Q2). destruct (decide (g = f)) as [->|].
    + exists F'. rewrite lookup_insert_eq. simplify_eq. done.
    + exists Q. rewrite !lookup_insert_ne by congruence. done.
Qed.

(** [CdxListDel(&p->node)] of a pool without children. *)
Lemma del_child_ok s p P f :
  core s -> pools s !! p = Some P -> father P = Some f -> childList P = [] ->
  exists s' F, del_child p s = Ok tt s' /\ core s' /\ pools s !! f = Some F /\ f <> p /\
    pools s' = <[p := P <| father := None |>]> (<[f := F <| childList := filter (.≠ p) (childList F) |>]> (pools s)) /\
    pds s' = pds s /\ pms s' = pms s /\ heap s' = heap s /\ gGolbalPool s' = gGolbalPool s.
Proof.
  intros C EP Hf Hc. destruct (c_family _ _ C) as [Fc Ff Fn]. destruct (Ff p P f EP Hf) as (F & EF & Hin).
  assert (f <> p) as Hne by (intros ->; simplify_eq; rewrite Hc in Hin; by apply not_elem_of_nil in Hin).
  set (P' := P <| father := None |>). set (F' := F <| childList := filter (.≠ p) (childList F) |>).
  eexists (s <| pools ::= <[f := F']> |> <| pools ::= <[p := P']> |>), F. split_and!; try done.
  - unfold del_child. eapply bind_ok; [by apply load_pool_ok|]. eapply bind_ok; [by rewrite Hf|].
    eapply bind_ok; [by apply load_pool_ok|]. eapply bind_ok; [by rewrite del_ok|]. eapply bind_ok; [done|].
    eapply bind_ok; [apply load_pool_ok; simpl; by rewrite lookup_insert_ne|]. done.
  - split.
    + apply (wfs_set_pool wide None _ p P); try done; [|simpl; by rewrite lookup_insert_ne].
      apply (wfs_set_pool wide None _ f F); try done. apply C.
    + simpl. intros q Q [[<- <-]|[Hq [[<- <-]|[Hq' EQ]]%lookup_insert_Some]]%lookup_insert_Some.
      * destruct (c_cur _ _ C p P EP) as (old & l & H). by exists old, l.
      * destruct (c_cur _ _ C f F EF) as (old & l & H). by exists old, l.
      * by apply (c_cur _ _ C q).
    + simpl.
      assert (forall q Q, pools s !! q = Some Q -> exists Q', <[p := P']> (<[f := F']> (pools s)) !! q = Some Q' /\
        (forall c, c ∈ childList Q -> c <> p -> c ∈ childList Q') /\ (q <> p -> father Q' = father Q)) as Hk.
      { intros q Q EQ. destruct (decide (q = p)) as [->|]; [|destruct (decide (q = f)) as [->|]].
        - exists P'. rewrite lookup_insert_eq. simplify_eq. split_and!; done.
        - exists F'. rewrite lookup_insert_ne, lookup_insert_eq by done. simplify_eq. split_and!; try done. intros c ? ?. by apply list_elem_of_filter.
        - exists Q. rewrite !lookup_insert_ne by done. done. }
      assert (forall q Q c, pools s !! q = Some Q -> c ∈ childList Q -> c <> p ->
        exists C', <[p := P']> (<[f := F']> (pools s)) !! c = Some C' /\ father C' = Some q) as Hch.
      { intros q Q c EQ Hc' Hcp. destruct (Fc q Q c EQ Hc') as (R & R1 & R2). destruct (Hk c R R1) as (R' & ? & _ & HR). exists R'. rewrite HR; done. }
      assert (forall q Q g, pools s !! q = Some Q -> q <> p -> father Q = Some g ->
        exists G, <[p := P']> (<[f := F']> (pools s)) !! g = Some G /\ q ∈ childList G) as Hfa.
      { intros q Q g EQ Hqp Hg. destruct (Ff q Q g EQ Hg) as (R & R1 & R2). destruct (Hk g R R1) as (R' & ? & HR & _). eauto. }
      split; intros q Q *; intros [[<- <-]|[Hq [[<- <-]|[Hq' EQ]]%lookup_insert_Some]]%lookup_insert_Some; simpl; intros.
      * rewrite Hc in H. by apply not_elem_of_nil in H.
      * apply list_elem_of_filter in H as [? ?]. by apply (Hch f F).
      * apply (Hch q Q c); try done. intros ->. destruct (Fc q Q p EQ H) as (R & ? & ?). congruence.
      * done.
      * by apply (Hfa f F).
      * by apply (Hfa q Q).
      * rewrite Hc. constructor.
      * apply NoDup_filter. by eapply Fn.
      * by eapply Fn.
    + simpl. intros g Hg. destruct (c_global _ _ C g Hg) as (Q & Q1 & Q2). destruct (decide (g = p)) as [->|].
      * exists P'. by rewrite lookup_insert_eq.
      * destruct (decide (g = f)) as [->|]; [exists F'|exists Q]; rewrite !lookup_insert_ne by done; [rewrite lookup_insert_eq|]; simplify_eq; done.
Qed.

(** * Destruction *)

Lemma filter_head x (l : list Z) : (x ∉ l) -> filter (.≠ x) (x :: l) = l.
Proof. intros H. rewrite filter_cons, decide_False by (intros Hx; by apply Hx). by apply filter_ne. Qed.

Lemma free_large_ok p : forall l s P,
  wfs None s -> pools s !! p = Some P -> largeList P = l ->
  exists s', free_large p l s = Ok tt s' /\ wfs None s' /\ pools s' = <[p := P <| largeList := [] |>]> (pools s) /\
    pds s' = pds s /\ gGolbalPool s' = gGolbalPool s /\
    forall x m, pms s' !! x = Some m <-> pms s !! x = Some m /\ (x ∉ l).
Proof.
  induction l as [|x l IH]; intros s P W EP Hl.
  { exists s. split_and!; try done; [|set_solver]. symmetry. apply insert_id. rewrite EP. f_equal. destruct P. simpl in *. by subst. }
  destruct (w_large _ _ _ W p P x EP) as (m & Em & Eo & En); [rewrite Hl; by left|].
  destruct (w_pool _ _ _ W _ _ EP) as (_ & _ & Nd & _). rewrite Hl in Nd. apply NoDup_cons in Nd as [Nd _].
  pose proof (w_pm _ _ _ W _ _ Em) as K. unfold pm_ok in K. rewrite Eo in K. destruct K as (_ & Hh & _).
  pose proof (wfs_del_large wide None s x m P W Em Eo) as W1. rewrite En in W1. specialize (W1 EP). rewrite Hl, filter_head in W1 by done.
  set (s1 := _ <| pms ::= delete x |>) in W1. set (P1 := P <| largeList := l |>) in *.
  destruct (IH s1 P1 W1) as (s' & H1 & H2 & H3 & H4 & H5 & H6); [unfold s1; simpl; by rewrite lookup_insert_eq|done|].
  exists s'. split_and!; try done.
  - cbn [free_large]. eapply bind_ok; [by apply load_pool_ok|]. eapply bind_ok.
    { rewrite del_ok by (rewrite Hl; by left). by rewrite Hl, filter_head. }
    eapply bind_ok; [done|]. eapply bind_ok; [by eapply do_free_ok|]. eapply bind_ok; [done|]. exact H1.
  - rewrite H3. unfold s1. simpl. by rewrite insert_insert_eq.
  - intros y k. rewrite H6. unfold s1. simpl. rewrite lookup_delete_Some. set_solver.
Qed.

Lemma set_same s d D : pds s !! d = Some D -> s <| pds ::= <[d := D]> |> = s.
Proof. intros E. destruct s as [h ds ms ps g c]. simpl in *. f_equal. by apply insert_id. Qed.

Lemma dec_refs_ok d l : forall s D,
  pds s !! d = Some D -> ref D = 1 + Z.of_nat (length l) ->
  dec_refs d l s = Ok tt (s <| pds ::= <[d := D <| ref := 1 |>]> |>).
Proof.
  induction l as [|x l IH]; intros s D E Hr.
  - simpl in *. unfold mret, M_ret. f_equal. symmetry. apply (set_same s d). rewrite E. f_equal. destruct D. simpl in *. by subst.
  - cbn [dec_refs length] in *. unfold mbind, M_bind. rewrite (dec_keep s d D) by (done || lia).
    rewrite (IH _ (D <| ref ::= fun r => r - 1 |>)) by (simpl; rewrite ?lookup_insert_eq; (done || lia)).
    destruct s as [h ds ms ps g c]. simpl. by rewrite insert_insert_eq.
Qed.

(** A block goes with its memory. *)
Lemma free_block_ok s p P d D l :
  wfs None s -> pools s !! p = Some P -> d ∈ pdList P -> pds s !! d = Some D ->
  free_blocks (d :: l) s =
    free_blocks l (s <| pools ::= <[p := P <| pdList := filter (.≠ d) (pdList P) |>]> |>
             <| heap ::= delete d |> <| pds ::= delete d |> <| pms ::= fun ms => foldr delete ms (pmList D) |>).
Proof.
  intros W EP Hin E. destruct (w_pd _ _ _ W _ _ E) as (K1 & K2 & K3 & K4 & K5 & _). unfold held in K3.
  assert (pd_pool D = p) as Hp by (destruct (w_list _ _ _ W p P d) as (D' & ? & ?); [done..|congruence]).
  set (D1 := D <| ref := 1 + Z.of_nat (length (pmList D)) |>). set (s1 := s <| pds ::= <[d := D1]> |>).
  set (s2 := s <| pds ::= <[d := D <| ref := 1 |>]> |>).
  assert (pds s1 !! d = Some D1) as E1 by (simpl; by rewrite lookup_insert_eq).
  assert ((if 5 <? failed D then PoolDataIncRef d else mret tt) s = Ok tt s1) as R1.
  { destruct (5 <? failed D) eqn:Ef.
    - unfold PoolDataIncRef. eapply bind_ok; [by apply load_pd_ok|]. unfold set_pd, modify. replace (failed D <? 6) with false in K3 by lia.
      unfold s1, D1. do 2 f_equal. simpl. by rewrite K3, Z.add_0_l.
    - unfold mret, M_ret. f_equal. symmetry. apply set_same. rewrite E. f_equal. unfold D1. replace (failed D <? 6) with true in K3 by lia.
      destruct D. simpl in *. by subst. }
  assert ((if negb (ref D1 =? 1) then dec_refs d (pmList D1) else mret tt) s1 = Ok tt s2) as R2.
  { assert (s1 <| pds ::= <[d := D1 <| ref := 1 |>]> |> = s2) as Es
      by (unfold s1, s2; destruct s; simpl; by rewrite insert_insert_eq).
    destruct (Z.eqb_spec (ref D1) 1) as [Hr|Hr]; cbn [negb].
    - unfold mret, M_ret. f_equal. rewrite <- Es. symmetry. apply set_same. rewrite E1. f_equal. destruct D1. simpl in *. by subst.
    - rewrite (dec_refs_ok d (pmList D1) s1 D1) by done. by rewrite Es. }
  cbn [free_blocks]. eapply bind_ok; [by apply load_pd_ok|]. eapply bind_ok; [exact R1|].
  eapply bind_ok; [by apply load_pd_ok|]. eapply bind_ok; [exact R2|].
  eapply bind_ok; [apply (load_pd_ok s2 d (D <| ref := 1 |>)); simpl; by rewrite lookup_insert_eq|].
  change (ref (D <| ref := 1 |>) =? 1) with true. cbn [negb]. eapply bind_ok.
  { apply (dec_free s2 d (D <| ref := 1 |>) P POOL_BLOCK_SIZE); simpl; rewrite ?Hp; try done. by rewrite lookup_insert_eq. }
  f_equal. unfold s2. destruct s as [h ds ms ps g c]. simpl. by rewrite delete_insert_eq, Hp.
Qed.

Lemma free_blocks_ok p : forall l s P,
  wfs None s -> pools s !! p = Some P -> pdList P = l ->
  exists s', free_blocks l s = Ok tt s' /\ wfs None s' /\ pools s' = <[p := P <| pdList := [] |>]> (pools s) /\
    (forall e, (e ∉ l) -> pds s' !! e = pds s !! e) /\ gGolbalPool s' = gGolbalPool s /\
    forall x m, pms s' !! x = Some m <-> pms s !! x = Some m /\ forall d D, d ∈ l -> pds s !! d = Some D -> (x ∉ pmList D).
Proof.
  induction l as [|d l IH]; intros s P W EP Hl.
  { exists s. split_and!; try done; [|set_solver]. symmetry. apply insert_id. rewrite EP. f_equal. destruct P. simpl in *. by subst. }
  assert (d ∈ pdList P) as Hd by (rewrite Hl; by left).
  destruct (w_list _ _ _ W p P d EP Hd) as (D & E & Hp).
  destruct (w_pool _ _ _ W _ _ EP) as (_ & _ & _ & Nd). rewrite Hl in Nd. apply NoDup_cons in Nd as [Nd _].
  rewrite (free_block_ok s p P d D l W EP Hd E).
  pose proof (wfs_drop_block wide None s d D P W E) as W1. rewrite Hp in W1. specialize (W1 EP ltac:(done)).
  rewrite Hl, filter_head in * by done. set (s1 := _ <| pms ::= _ |>) in *. set (P1 := P <| pdList := l |>) in *.
  destruct (IH s1 P1 W1) as (s' & H1 & H2 & H3 & H4 & H5 & H6); [unfold s1; simpl; by rewrite lookup_insert_eq|done|].
  exists s'. split_and!; try done.
  - rewrite H3. unfold s1. simpl. by rewrite insert_insert_eq.
  - intros e [He1 He2]%not_elem_of_cons. rewrite H4 by done. unfold s1. simpl. by rewrite lookup_delete_ne.
  - intros x m. rewrite H6. unfold s1. simpl. rewrite foldr_delete_Some. split.
    + intros ((Hx1 & Hx2) & Hx3). split; [done|]. intros e D' [->|He]%elem_of_cons HD'; [by simplify_eq|].
      apply (Hx3 e D' He). rewrite lookup_delete_ne; [done|]. intros ->. done.
    + intros (Hx1 & Hx2). split_and!; [by apply (Hx2 d D); [left|]|done|]. intros e D' He [? HD']%lookup_delete_Some.
      by apply (Hx2 e D'); [right|].
Qed.

(** The pool memory belongs to. *)
Definition pool_of s x : option Z := m ← pms s !! x; home s m.

Lemma in_pool s p P x m :
  wfs None s -> pools s !! p = Some P -> pms s !! x = Some m ->
  pool_of s x <> Some p <->
  (x ∉ largeList P) /\ forall d D, d ∈ pdList P -> pds s !! d = Some D -> (x ∉ pmList D).
Proof.
  intros W EP Em. unfold pool_of, home. rewrite Em. simpl. pose proof (w_pm _ _ _ W _ _ Em) as K. unfold pm_ok in K.
  destruct (owner m) as [d|] eqn:Eo.
  - destruct K as (_ & _ & D & ED & Hin). rewrite ED. simpl. split.
    + intros Hne. split.
      * intros Hx. destruct (w_large _ _ _ W p P x EP Hx) as (m' & ? & ? & _). congruence.
      * intros e D' He HD' Hx. destruct (w_owner _ _ _ W e D' x HD' Hx) as (m' & ? & ?).
        destruct (w_list _ _ _ W p P e EP He) as (D2 & ? & ?). apply Hne. congruence.
    + intros [_ H] [= <-]. destruct (w_listed _ _ _ W d D ED ltac:(done)) as (P' & ? & Hd). simplify_eq. by apply (H d D).
  - destruct K as (_ & _ & _ & P' & EP' & Hin). split.
    + intros Hne. split.
      * intros Hx. destruct (w_large _ _ _ W p P x EP Hx) as (m' & ? & ? & ?). congruence.
      * intros e D' He HD' Hx. destruct (w_owner _ _ _ W e D' x HD' Hx) as (m' & ? & ?). congruence.
    + intros [H _] [= <-]. simplify_eq. done.
Qed.

(** The part of [AwPoolDestroy] after the lists of pools. *)
Definition release (pool : Z) : M st unit :=
  P ← load_pool pool;
  free_large pool (largeList P);;
  P ← load_pool pool;
  free_blocks (pdList P);;
  do_free pool;;
  modify (fun s => s <| pools ::= delete pool |>).

Lemma release_ok s p P :
  wfs None s -> pools s !! p = Some P ->
  exists s', release p s = Ok tt s' /\ wfs None s' /\ pools s' = delete p (pools s) /\
    (forall e, (e ∉ pdList P) -> pds s' !! e = pds s !! e) /\ gGolbalPool s' = gGolbalPool s /\
    forall x m, pms s' !! x = Some m <-> pms s !! x = Some m /\ pool_of s x <> Some p.
Proof.
  intros W EP. destruct (free_large_ok p (largeList P) s P W EP eq_refl) as (s1 & A1 & A2 & A3 & A4 & A5 & A6).
  set (P1 := P <| largeList := [] |>) in *. assert (pools s1 !! p = Some P1) as EP1 by (by rewrite A3, lookup_insert_eq).
  destruct (free_blocks_ok p (pdList P1) s1 P1 A2 EP1 eq_refl) as (s2 & B1 & B2 & B3 & B4 & B5 & B6).
  set (P2 := P1 <| pdList := [] |>) in *. assert (pools s2 !! p = Some P2) as EP2 by (by rewrite B3, lookup_insert_eq).
  destruct (w_pool _ _ _ B2 _ _ EP2) as (Hh & _).
  pose proof (wfs_del_pool wide s2 p P2 B2 EP2 eq_refl eq_refl) as W3.
  eexists. split_and!.
  - unfold release. eapply bind_ok; [by apply load_pool_ok|]. eapply bind_ok; [exact A1|]. eapply bind_ok; [by apply load_pool_ok|].
    eapply bind_ok; [exact B1|]. eapply bind_ok; [by eapply do_free_ok|]. done.
  - exact W3.
  - simpl. by rewrite B3, A3, insert_insert_eq, delete_insert_eq.
  - intros e He. simpl. rewrite B4, A4; done.
  - simpl. congruence.
  - intros x m. simpl. rewrite B6, A6, A4. split.
    + intros ((H1 & H2) & H3). split; [done|]. by apply (in_pool s p P x m W EP H1).
    + intros (H1 & H2). apply (in_pool s p P x m W EP H1) in H2 as [? ?]. done.
Qed.

Lemma family_delete ps p P : family ps -> ps !! p = Some P -> childList P = [] -> father P = None -> family (delete p ps).
Proof.
  intros [Fc Ff Fn] E H1 H2. split; intros q Q *; intros [Hq Eq]%lookup_delete_Some; intros.
  - destruct (Fc q Q c Eq H) as (C & C1 & C2). exists C. rewrite lookup_delete_ne; [done|]. congruence.
  - destruct (Ff q Q f Eq H) as (F & F1 & F2). exists F. rewrite lookup_delete_ne; [done|]. intros <-. simplify_eq.
    rewrite H1 in F2. by apply not_elem_of_nil in F2.
  - by eapply Fn.
Qed.

(** Other pools keep their blocks. *)
Lemma release_core s p P s' :
  core s -> pools s !! p = Some P -> childList P = [] -> father P = None ->
  wfs None s' -> pools s' = delete p (pools s) -> (forall e, (e ∉ pdList P) -> pds s' !! e = pds s !! e) ->
  (forall g, gGolbalPool s' = Some g -> gGolbalPool s = Some g /\ g <> p) -> core s'.
Proof.
  intros C E H1 H2 W Hp Hd Hg. split; [done| | |].
  - rewrite Hp. intros q Q [Hq EQ]%lookup_delete_Some. apply (cur_ok_mono s); [|by apply (c_cur _ _ C q)].
    intros e D HD He. exists D. split; [|done]. rewrite Hd; [done|]. intros Hin.
    destruct (w_list _ _ _ (c_s _ _ C) p P e E Hin) as (? & ? & ?). destruct (w_list _ _ _ (c_s _ _ C) q Q e EQ He) as (? & ? & ?). congruence.
  - rewrite Hp. apply (family_delete _ p P); try done. apply C.
  - intros g [Hg1 Hg2]%Hg. destruct (c_global _ _ C g Hg1) as (Q & ? & ?). exists Q. by rewrite Hp, lookup_delete_ne.
Qed.

(** The memory of the other pools is left. *)
Definition only_without p s s' : Prop :=
  live s' = filter (fun kv => kv.2.2 <> p) (live s).

Lemma live_without s p P s' :
  wfs None s -> pools s !! p = Some P -> (forall e, (e ∉ pdList P) -> pds s' !! e = pds s !! e) ->
  (forall x m, pms s' !! x = Some m <-> pms s !! x = Some m /\ pool_of s x <> Some p) -> only_without p s s'.
Proof.
  intros W EP Hd Hm. apply map_eq. intros x. rewrite map_lookup_filter, !live_lookup.
  destruct (pms s !! x) as [m|] eqn:Em.
  - destruct (live_some wide s x m W Em) as (q & Hq & _). simpl. rewrite Hq. simpl.
    assert (pool_of s x = Some q) as Hx by (unfold pool_of; by rewrite Em). destruct (decide (q = p)) as [->|Hne].
    + destruct (pms s' !! x) as [m'|] eqn:Em'; [by apply Hm in Em' as []|]. simpl. by rewrite option_guard_False by (intros H; by apply H).
    + assert (pms s' !! x = Some m) as Em' by (apply Hm; split; [done|congruence]). rewrite Em', option_guard_True by done. simpl.
      replace (home s' m) with (home s m); [by rewrite Hq|]. unfold home in *. destruct (owner m) as [d|] eqn:Eo; [|done].
      rewrite Hd; [done|]. intros Hin. destruct (w_list _ _ _ W p P d EP Hin) as (D & ED & HD). rewrite ED in Hq. simpl in Hq. congruence.
  - destruct (pms s' !! x) as [m'|] eqn:Em'; [|done]. by apply Hm in Em' as [? _]; congruence.
Qed.

Lemma destroy_unfold p s P :
  pools s !! p = Some P -> childList P = [] ->
  AwPoolDestroy p s = ((if bool_decide (gGolbalPool s = Some p) then mret tt else del_child p) ≫= fun _ => release p) s.
Proof.
  intros E H. unfold AwPoolDestroy. eapply bind_ok; [done|]. cbn [destroy]. eapply bind_ok; [by apply load_pool_ok|].
  rewrite H. eapply bind_ok; [done|]. eapply bind_ok; [done|]. done.
Qed.

Lemma destroy_call s p P :
  core s -> pools s !! p = Some P -> childList P = [] -> is_Some (father P) ->
  twp (AwPoolDestroy p)
    (fun _ s' => core s' /\ locks s' = delete p (locks s) /\ gGolbalPool s' = gGolbalPool s /\ only_without p s s') s.
Proof.
  intros C E H [f Hf]. assert (gGolbalPool s <> Some p) as Hg.
  { intros Hg. destruct (c_global _ _ C p Hg) as (Q & ? & ?). congruence. }
  unfold twp. rewrite (destroy_unfold p s P E H), bool_decide_false by done. fold (twp (A := unit) (S := st)).
  destruct (del_child_ok s p P f C E Hf H) as (s1 & F & A1 & A2 & A3 & A4 & A5 & A6 & A7 & A8 & A9).
  set (P' := P <| father := None |>) in *. set (F' := F <| childList := _ |>) in *.
  assert (pools s1 !! p = Some P') as E1 by (by rewrite A5, lookup_insert_eq).
  destruct (release_ok s1 p P' (c_s _ _ A2) E1) as (s' & B1 & B2 & B3 & B4 & B5 & B6).
  unfold mbind, M_bind. rewrite A1, B1. split_and!.
  - apply (release_core s1 p P' s'); try done. intros g Hg'. split; congruence.
  - unfold locks. rewrite B3, A5, delete_insert_eq, fmap_delete, fmap_insert. f_equal. apply insert_id. by rewrite lookup_fmap, A3.
  - congruence.
  - assert (live s1 = live s) as Hl by (apply live_ext; [done|by apply homed_same]). unfold only_without. rewrite <- Hl.
    by apply (live_without s1 p P'); [apply A2|..].
Qed.

Lemma reset_call s g P :
  core s -> gGolbalPool s = Some g -> pools s !! g = Some P -> childList P = [] ->
  twp AwPoolReset
    (fun _ s' => core s' /\ locks s' = delete g (locks s) /\ gGolbalPool s' = None /\ only_without g s s') s.
Proof.
  intros C Hg E H. destruct (c_global _ _ C g Hg) as (Q & ? & Hf). simplify_eq.
  destruct (release_ok s g P (c_s _ _ C) E) as (s1 & B1 & B2 & B3 & B4 & B5 & B6).
  apply (twp_intro _ _ _ tt (s1 <| gGolbalPool := None |>)).
  - unfold AwPoolReset. eapply bind_ok; [done|]. cbv beta. rewrite Hg. eapply bind_ok; [|done].
    rewrite (destroy_unfold g s P E H), bool_decide_true by done. unfold mbind, M_bind. exact B1.
  - split_and!.
    + apply (release_core s g P); try done. destruct B2. by split.
    + unfold locks. simpl. by rewrite B3, fmap_delete.
    + done.
    + apply (live_without s g P); try done. apply C.
Qed.
End steps.

Section life.
Context (wide : bool) (malloc : nat -> gmap Z Z -> Z -> option Z).
Hypothesis malloc_fresh : forall k h n b, 0 < n -> malloc k h n = Some b -> fresh h b n.
Abbreviation spm := (sizeof_pm wide).
Abbreviation spd := (sizeof_pd wide).
Abbreviation wfs := (wfs wide).
Abbreviation core := (core wide).
Implicit Types (s : st) (D : PoolData) (P : Pool) (m : PoolMemory) (p d x b n : Z).

(** * Creation *)

(** [malloc] has the two blocks of a pool. *)
Definition creatable s : Prop :=
  match malloc (calls s) (heap s) 1024 with
  | Some a => is_Some (malloc (S (calls s)) (<[a := 1024]> (heap s)) POOL_BLOCK_SIZE)
  | None => False
  end.

Lemma node_create_ok s :
  core s -> creatable s ->
  exists p b s', PoolNodeCreate wide malloc true s = Ok (Some p) s' /\ core s' /\
    pools s !! p = None /\ pools s' = <[p := mkPool b [] [b] [] None false]> (pools s) /\
    live s' = live s /\ gGolbalPool s' = gGolbalPool s.
Proof.
  intros C K. unfold creatable in K. destruct (malloc (calls s) (heap s) 1024) as [a|] eqn:Ea; [|done]. destruct K as [b Eb]. pose proof (core_calls _ _ (core_calls _ _ C)) as C2. set (s0 := s <| calls ::= S |> <| calls ::= S |>) in *.
  pose proof (malloc_fresh _ _ 1024 _ ltac:(lia) Ea) as Fa. pose proof (malloc_fresh _ _ POOL_BLOCK_SIZE _ ltac:(done) Eb) as Fb.
  destruct (fresh_none wide None s0 a 1024 (c_s _ _ C2) ltac:(lia) Fa) as (N1 & N2 & N3 & N4).
  pose proof (wfs_new_pool wide s0 a (mkPool b [] [] [] None false) (c_s _ _ C2) Fa eq_refl eq_refl) as W1.
  pose proof (wfs_new_block wide _ b a W1 Fb) as W2. set (Db := mkPd _ _ _ _ _ _) in W2.
  destruct (fresh_none wide None _ b POOL_BLOCK_SIZE W1 ltac:(done) Fb) as (M1 & M2 & M3 & M4).
  pose proof (wfs_link wide _ b Db (mkPool b [] [] [] None false) W2) as W3. simpl in W3.
  rewrite !lookup_insert_eq in W3. specialize (W3 eq_refl eq_refl ltac:(apply not_elem_of_nil)).
  rewrite insert_insert_eq in W3. set (P0 := mkPool b [] [b] [] None false) in *.
  eexists a, b, _. split_and!.
  - unfold PoolNodeCreate. eapply bind_ok.
    { unfold do_malloc, mbind, M_bind, get, modify. rewrite Ea. reflexivity. }
    eapply bind_ok.
    { unfold do_malloc, mbind, M_bind, get, modify. simpl. rewrite Eb. reflexivity. }
    cbv beta iota. eapply bind_ok; [done|]. cbn [negb]. eapply bind_ok; [done|]. done.
  - split.
    + exact W3.
    + simpl. intros q Q [[<- <-]|[Hq EQ]]%lookup_insert_Some.
      * exists [], []. split; [done|]. intros d ->%list_elem_of_singleton. exists Db. simpl. rewrite lookup_insert_eq. done.
      * apply (cur_ok_mono s); [|by apply (c_cur _ _ C q)]. intros d D HD _. exists D. simpl. rewrite lookup_insert_ne; [done|]. simpl in M3. congruence.
    + simpl. apply family_new; try done. apply C.
    + simpl. intros g Hg. destruct (c_global _ _ C g Hg) as (Q & ? & ?). exists Q. rewrite lookup_insert_ne; [done|]. simpl in N2. congruence.
  - exact N2.
  - done.
  - apply live_ext; [done|]. intros y k e Hy Ho. simpl. rewrite lookup_insert_ne; [done|]. intros <-.
    pose proof (w_pm _ _ _ (c_s _ _ C) y k Hy) as K. unfold pm_ok in K. rewrite Ho in K. destruct K as (_ & _ & D' & ? & _).
    simpl in M3. congruence.
  - done.
Qed.

(** The pool of a call that makes the global pool on first use. *)
Definition some_pool (po : option Z) : M st (option Z) :=
  match po with Some p => mret (Some p) | None => global_pool wide malloc true end.
Definition reachable s (po : option Z) : Prop :=
  match target s po with Some p => is_Some (pools s !! p) | None => creatable s end.

Lemma some_pool_ok s po :
  core s -> reachable s po ->
  exists p s', some_pool po s = Ok (Some p) s' /\ core s' /\ is_Some (pools s' !! p) /\ target s' po = Some p /\
    live s' = live s /\
    (s' = s \/ target s po = None /\ pools s !! p = None /\ gGolbalPool s' = Some p /\ locks s' = <[p := false]> (locks s)).
Proof.
  intros C R. unfold reachable in R. destruct (target s po) as [p|] eqn:T.
  - exists p, s. split_and!; try done; [|by left]. unfold target, some_pool in *. destruct po; [by injection T as ->|].
    unfold global_pool. eapply bind_ok; [done|]. cbv beta. by rewrite T.
  - destruct (node_create_ok s C R) as (p & b & s' & N1 & N2 & N3 & N4 & N5 & N6). unfold target, some_pool in *. destruct po; [done|].
    set (s2 := s' <| gGolbalPool := Some p |>). exists p, s2. split_and!.
    + unfold global_pool. eapply bind_ok; [done|]. cbv beta. rewrite T. eapply bind_ok; [exact N1|]. done.
    + destruct N2 as [[] Cu F G]. split; [by split|exact Cu|exact F|]. intros g [= <-]. simpl. rewrite N4, lookup_insert_eq. eauto.
    + simpl. by rewrite N4, lookup_insert_eq.
    + done.
    + done.
    + right. split_and!; try done. unfold locks. simpl. by rewrite N4, fmap_insert.
Qed.

(** A pool under a father that is there. *)
Lemma create_child_ok s f F :
  core s -> pools s !! f = Some F -> creatable s ->
  twp (AwPoolCreate wide malloc true (Some f))
    (fun p s' => core s' /\ pools s !! p = None /\ locks s' = <[p := false]> (locks s) /\
       gGolbalPool s' = gGolbalPool s /\ live s' = live s /\
       exists P, pools s' !! p = Some P /\ father P = Some f /\ childList P = []) s.
Proof.
  intros C EF K. destruct (node_create_ok s C K) as (p & b & s1 & N1 & N2 & N3 & N4 & N5 & N6).
  set (P0 := mkPool b [] [b] [] None false) in *. assert (p <> f) as Hne by congruence.
  assert (pools s1 !! p = Some P0) as E1 by (by rewrite N4, lookup_insert_eq).
  assert (pools s1 !! f = Some F) as E2 by (by rewrite N4, lookup_insert_ne).
  destruct (add_child_ok wide s1 p P0 f F N2 E1 E2 eq_refl eq_refl Hne) as [C2|Hg].
  2: { rewrite N6 in Hg. destruct (c_global _ _ C p Hg) as (Q & ? & _). congruence. }
  eapply twp_intro.
  - unfold AwPoolCreate. eapply bind_ok; [done|]. eapply bind_ok; [exact N1|]. eapply bind_ok; [done|]. eapply bind_ok; [done|].
    eapply bind_ok; [by apply load_pool_ok|]. eapply bind_ok; [done|].
    eapply bind_ok; [apply load_pool_ok; simpl; by rewrite lookup_insert_ne|]. eapply bind_ok; [done|]. done.
  - split_and!; [exact C2|done| |done|done|].
    + unfold locks. simpl. rewrite !fmap_insert, N4, fmap_insert, insert_insert_eq. simpl. apply insert_id.
      rewrite lookup_insert_ne, lookup_fmap, EF by done. done.
    + eexists. simpl. rewrite lookup_insert_ne, lookup_insert_eq by done. done.
Qed.

Lemma create_unfold s po p s0 : some_pool po s = Ok (Some p) s0 ->
  AwPoolCreate wide malloc true po s = AwPoolCreate wide malloc true (Some p) s0.
Proof. intros E. unfold AwPoolCreate at 1. eapply bind_ok; [exact E|]. done. Qed.
Lemma palloc_unfold s po p s0 n : 0 < n -> some_pool po s = Ok (Some p) s0 ->
  AwPalloc wide malloc true po n s = AwPalloc wide malloc true (Some p) n s0.
Proof.
  intros Hn E. unfold AwPalloc. replace (0 <? n) with true by lia. cbn [negb]. eapply bind_ok; [exact E|]. done.
Qed.
End life.
End AwPoolLife.
