(* ===== verification/AwPoolTheorems.v ===== *)
(** What the memory pool guarantees: it refines an abstract allocator, its memory is apart, a
    pool gives back what it took; and where the code departs from this. *)

From Stdlib Require Import ZArith Lia.
From stdpp Require Import base list list_numbers numbers gmap fin_maps fin_map_dom.
From S2P Require Import Prelude AwPool AwPoolSpec AwPoolCalls AwPoolLife.

Open Scope Z_scope.

Module AwPoolTheorems.
Import AwPool AwPoolSpec AwPoolCalls AwPoolLife.

(** * Sessions *)

Inductive op : Type :=
| Create (fat : option Z)
| Palloc (pool : option Z) (size : Z)
| StrDup (pool : option Z) (len : Z)
| Realloc (pool : option Z) (p size : Z)
| Pfree (pool : option Z) (p : Z)
| Destroy (pool : Z)
| Reset.

(** * The abstract allocator *)

(** The memory by the address of its header, with its size and pool, the pools, and the
    global pool. *)
Record view := mkView { v_mem : gmap Z (Z * Z); v_pools : gset Z; v_global : option Z }.
Definition view_of (s : st) : view := mkView (live s) (dom (pools s)) (gGolbalPool s).

Definition v_target (v : view) (po : option Z) : option Z :=
  match po with Some p => Some p | None => v_global v end.
(** The global pool is made when it is needed first. *)
Definition opens (v : view) (po : option Z) (v' : view) : Prop :=
  match v_target v po with
  | Some _ => v' = v
  | None => exists g, (g ∉ v_pools v) /\ v' = mkView (v_mem v) ({[g]} ∪ v_pools v) (Some g)
  end.
Definition drops (p : Z) (g : option Z) (v v' : view) : Prop :=
  v' = mkView (filter (fun kv => kv.2.2 <> p) (v_mem v)) (v_pools v ∖ {[p]}) g.

(** Allocation of [n] bytes with a header of [h] bytes. *)
Definition gives (h : Z) (po : option Z) (n : Z) (r : option Z) (v v' : view) : Prop :=
  exists v0 q, opens v po v0 /\ v_target v0 po = Some q /\
    match r with
    | Some a => v_mem v !! (a - h) = None /\
                v' = mkView (<[a - h := (n, q)]> (v_mem v0)) (v_pools v0) (v_global v0)
    | None => v' = v0
    end.

Definition does (h : Z) (o : op) (r : option Z) (v v' : view) : Prop :=
  match o with
  | Create po => exists v0 p, opens v po v0 /\ r = Some p /\ (p ∉ v_pools v0) /\
      v' = mkView (v_mem v0) ({[p]} ∪ v_pools v0) (v_global v0)
  | Palloc po n => gives h po n r v v'
  | StrDup po len => is_Some r /\ gives h po (len + 1) r v v'
  | Realloc po a n =>
      match r with
      | Some b => exists k q p, v_mem v !! (a - h) = Some (k, q) /\ v_target v po = Some p /\
          ((b = a /\ v' = mkView (<[a - h := (n, q)]> (v_mem v)) (v_pools v) (v_global v)) \/
           (v_mem v !! (b - h) = None /\
            v' = mkView (<[b - h := (n, p)]> (delete (a - h) (v_mem v))) (v_pools v) (v_global v)))
      | None => v' = v
      end
  | Pfree _ a => v' = mkView (delete (a - h) (v_mem v)) (v_pools v) (v_global v)
  | Destroy p => drops p (v_global v) v v'
  | Reset => match v_global v with Some g => drops g None v v' | None => v' = v end
  end.

Section sessions.
Context (wide : bool) (malloc : nat -> gmap Z Z -> Z -> option Z).
Abbreviation spm := (sizeof_pm wide).
Abbreviation core := (core wide).
Abbreviation wf := (wf wide).

Definition exec (o : op) : M st (option Z) :=
  match o with
  | Create fat => p ← AwPoolCreate wide malloc true fat; mret (Some p)
  | Palloc po n => AwPalloc wide malloc true po n
  | StrDup po len => p ← AwStrDup wide malloc true po len; mret (Some p)
  | Realloc po a n => AwRealloc wide malloc true po a n
  | Pfree po a => AwPfree wide po a;; mret None
  | Destroy p => AwPoolDestroy p;; mret None
  | Reset => AwPoolReset;; mret None
  end.
Fixpoint run (ops : list op) : M st unit :=
  match ops with [] => mret tt | o :: ops => exec o;; run ops end.

Definition no_children (s : st) (p : Z) : Prop := from_option (fun P => childList P = []) False (pools s !! p).
Definition usable (s : st) (po : option Z) : Prop :=
  from_option (fun p => is_Some (pools s !! p)) False (target s po).

(** Calls that are in order: the pool is there or can be made, the memory is live, the size is
    one the code handles, a pool is destroyed after its children, and where the code does
    not check [malloc] it has memory. *)
Definition legal (s : st) (o : op) : Prop :=
  match o with
  | Create po => reachable malloc s po /\
      match some_pool wide malloc po s with Ok _ s' => creatable malloc s' | _ => True end
  | Palloc po n => reachable malloc s po /\ size_ok wide n
  | StrDup po len => usable s po /\ size_ok wide (len + 1) /\ has_mem wide malloc s (len + 1)
  | Realloc po a n => usable s po /\ from_option (fun kq => kq.1 < n) False (live s !! (a - spm)) /\
      size_ok wide n /\ (n <= POOL_LARGE_SIZE -> has_block malloc s)
  | Pfree po a => usable s po /\ is_Some (live s !! (a - spm))
  | Destroy p => from_option (fun P => is_Some (father P)) False (pools s !! p) /\ no_children s p
  | Reset => from_option (no_children s) True (gGolbalPool s)
  end.

(** A session whose calls are in order when they are made. *)
Fixpoint legal_run (ops : list op) (s : st) : Prop :=
  match ops with
  | [] => True
  | o :: ops => legal s o /\ match exec o s with Ok _ s' => legal_run ops s' | _ => True end
  end.

(** [malloc] has the memory the call may need. *)
Definition supplied (s : st) (o : op) : Prop :=
  match o with
  | Palloc po n => is_Some (target s po) /\ has_mem wide malloc s n
  | Realloc _ _ n => has_mem wide malloc s n
  | Create _ | StrDup _ _ => True
  | _ => False
  end.
End sessions.

Section proofs.
Context (wide : bool) (malloc : nat -> gmap Z Z -> Z -> option Z).
Hypothesis malloc_fresh : forall k h n b, 0 < n -> malloc k h n = Some b -> fresh h b n.
Abbreviation spm := (sizeof_pm wide).
Abbreviation core := (core wide).
Abbreviation wf := (wf wide).
Implicit Types (s : st) (P : Pool) (p a n : Z).

(** ** Mutexes *)

Lemma unlocked_locks s : unlocked s <-> map_Forall (fun _ v => v = false) (locks s).
Proof.
  unfold unlocked, locks. rewrite map_Forall_fmap. split.
  - intros H p P E. by apply (H p).
  - intros H p P E. by apply (H p P).
Qed.
Lemma unlocked_set s s' p : unlocked s -> locks s' = <[p := false]> (locks s) -> unlocked s'.
Proof. rewrite !unlocked_locks. intros H ->. by apply map_Forall_insert_2. Qed.
Lemma unlocked_delete s s' p : unlocked s -> locks s' = delete p (locks s) -> unlocked s'.
Proof. rewrite !unlocked_locks. intros H ->. by apply map_Forall_delete. Qed.

Lemma dom_locks s : dom (locks s) = dom (pools s).
Proof. apply dom_fmap_L. Qed.
Lemma pools_set s s' p : locks s' = <[p := false]> (locks s) -> dom (pools s') = {[p]} ∪ dom (pools s).
Proof. intros H. by rewrite <- !dom_locks, H, dom_insert_L. Qed.
Lemma pools_same s s' p : is_Some (pools s !! p) -> locks s' = <[p := false]> (locks s) -> dom (pools s') = dom (pools s).
Proof. intros Hp H. rewrite (pools_set s s' p H). apply elem_of_dom in Hp. set_solver. Qed.
Lemma pools_delete s s' p : locks s' = delete p (locks s) -> dom (pools s') = dom (pools s) ∖ {[p]}.
Proof. intros H. by rewrite <- !dom_locks, H, dom_delete_L. Qed.

Lemma usable_pool s po : usable s po -> exists p P, target s po = Some p /\ pools s !! p = Some P.
Proof. unfold usable. destruct (target s po) as [p|]; [|done]. intros [P ?]. eauto. Qed.

Lemma view_set s s' p m :
  is_Some (pools s !! p) -> done_with wide p s s' -> live s' = m ->
  view_of s' = mkView m (dom (pools s)) (gGolbalPool s).
Proof. intros Hp (_ & Hl & Hg) <-. unfold view_of. by rewrite Hg, (pools_same s s' p Hp Hl). Qed.

Lemma some_pool_view s po :
  wf s -> reachable malloc s po ->
  exists p s', some_pool wide malloc po s = Ok (Some p) s' /\ wf s' /\ is_Some (pools s' !! p) /\ target s' po = Some p /\
    live s' = live s /\ opens (view_of s) po (view_of s') /\ (is_Some (target s po) -> s' = s).
Proof.
  intros [C U] R. destruct (some_pool_ok wide malloc malloc_fresh s po C R) as (p & s' & H1 & H2 & H3 & H4 & H5 & H6).
  exists p, s'. split_and!; try done.
  - split; [done|]. destruct H6 as [->|(_ & _ & _ & Hl)]; [done|]. by apply (unlocked_set s s' p).
  - unfold opens, v_target, view_of. simpl. destruct H6 as [->|(T & Hn & Hg & Hl)].
    + unfold target in H4. by rewrite H4.
    + unfold target in T. rewrite T. exists p. split; [by apply not_elem_of_dom|]. by rewrite H5, Hg, (pools_set s s' p Hl).
  - intros [q Hq]. destruct H6 as [->|(T & _)]; [done|]. congruence.
Qed.

Lemma target_view s po : v_target (view_of s) po = target s po.
Proof. done. Qed.

(** ** Each call *)

Definition good (s : st) (o : op) (r : option Z) (s' : st) : Prop :=
  wf s' /\ does spm o r (view_of s) (view_of s') /\ (supplied wide malloc s o -> is_Some r).

Lemma create_good s po : wf s -> legal wide malloc s (Create po) -> twp (exec wide malloc (Create po)) (good s (Create po)) s.
Proof.
  intros W [R K]. destruct (some_pool_view s po W R) as (f & s0 & H1 & [C0 U0] & [F HF] & H4 & H5 & H6 & _). rewrite H1 in K.
  simpl. unfold twp, mbind, M_bind. rewrite (create_unfold wide malloc s po f s0 H1).
  pose proof (create_child_ok wide malloc malloc_fresh s0 f F C0 HF K) as T. unfold twp in T.
  destruct (AwPoolCreate wide malloc true (Some f) s0) as [p s'| |]; try done. destruct T as (T1 & T2 & T3 & T4 & T5 & T6).
  unfold mret, M_ret. split_and!.
  - split; [done|]. by apply (unlocked_set s0 s' p).
  - exists (view_of s0), p. split_and!; try done; [by apply not_elem_of_dom|].
    unfold view_of. simpl. by rewrite T5, T4, (pools_set s0 s' p T3).
  - by eexists.
Qed.

Lemma palloc_good s po n :
  wf s -> reachable malloc s po -> size_ok wide n ->
  twp (AwPalloc wide malloc true po n)
    (fun r s' => wf s' /\ gives spm po n r (view_of s) (view_of s') /\
       (is_Some (target s po) -> has_mem wide malloc s n -> is_Some r)) s.
Proof.
  intros W R Hn. destruct (some_pool_view s po W R) as (p & s0 & H1 & [C0 U0] & H3 & H4 & H5 & H6 & H7). pose proof H3 as [P HP].
  unfold twp. rewrite (palloc_unfold wide malloc s po p s0 n ltac:(apply Hn) H1).
  pose proof (palloc_call wide malloc malloc_fresh s0 (Some p) p P n C0 eq_refl HP Hn) as T. unfold twp in T.
  destruct (AwPalloc wide malloc true (Some p) n s0) as [r s'| |]; try done. destruct T as (T1 & T2 & T3). split_and!.
  - destruct T1 as (T1 & Tl & _). split; [done|]. by apply (unlocked_set s0 s' p).
  - exists (view_of s0), p. split_and!; try done. unfold allocated in T2. destruct r as [a|].
    + destruct T2 as [A1 A2]. split; [simpl; by rewrite <- H5|]. by apply (view_set s0 s' p).
    + by rewrite (view_set s0 s' p (live s0)).
  - intros Ht Hm. apply T3. by rewrite (H7 Ht).
Qed.

Lemma strdup_good s po len :
  wf s -> legal wide malloc s (StrDup po len) -> twp (exec wide malloc (StrDup po len)) (good s (StrDup po len)) s.
Proof.
  intros W (R & Hn & Hm). destruct (usable_pool s po R) as (p & P & T & E).
  simpl. unfold AwStrDup. apply twp_bind, twp_bind. eapply twp_mono.
  - apply palloc_good; [done| |done]. unfold reachable. by rewrite T, E.
  - intros r s' (H1 & H2 & H3). rewrite T in H3. destruct (H3 ltac:(done) Hm) as [a ->]. eapply twp_lift; [done|].
    apply twp_ret. split_and!; try done.
Qed.

Lemma realloc_good s po a n :
  wf s -> legal wide malloc s (Realloc po a n) -> twp (exec wide malloc (Realloc po a n)) (good s (Realloc po a n)) s.
Proof.
  intros [C U] (R & Hlt & Hn & Hb). destruct (usable_pool s po R) as (p & P & T & E).
  destruct (live s !! (a - spm)) as [[k q]|] eqn:El; [|done]. simpl in Hlt. pose proof El as El'. rewrite live_lookup in El'.
  destruct (pms s !! (a - spm)) as [m|] eqn:Em; [|done]. simpl in El'. apply fmap_Some in El' as (q' & _ & [= -> ->]).
  simpl. eapply twp_mono; [by apply (realloc_call wide malloc malloc_fresh s po p P a m n)|]. intros r s' (H1 & H2 & H3). split_and!.
  - destruct H1 as (H1 & Hl & _). split; [done|]. by apply (unlocked_set s s' p).
  - simpl. unfold moved in H2. destruct r as [b|]; [|by apply (view_set s s' p)].
    exists (pm_size m), q', p. split_and!; try done. destruct H2 as [(k & q & -> & Hk & Hl)|[Hf Hl]].
    + left. split; [done|]. rewrite El in Hk. injection Hk as <- <-. by apply (view_set s s' p).
    + right. split; [done|]. by apply (view_set s s' p).
  - exact H3.
Qed.

Lemma pfree_good s po a : wf s -> legal wide malloc s (Pfree po a) -> twp (exec wide malloc (Pfree po a)) (good s (Pfree po a)) s.
Proof.
  intros [C U] (R & Ha). destruct (usable_pool s po R) as (p & P & T & E). rewrite live_lookup in Ha.
  destruct (pms s !! (a - spm)) as [m|] eqn:Em; [|by destruct Ha]. simpl. apply twp_bind.
  eapply twp_mono; [by apply (pfree_call wide s po p P a m)|]. intros _ s' (H1 & H2). apply twp_ret. split_and!.
  - destruct H1 as (H1 & Hl & _). split; [done|]. by apply (unlocked_set s s' p).
  - by apply (view_set s s' p).
  - done.
Qed.

Lemma drops_view p g s s' :
  locks s' = delete p (locks s) -> gGolbalPool s' = g -> only_without p s s' -> drops p g (view_of s) (view_of s').
Proof. intros Hl Hg H. unfold drops, view_of. simpl. by rewrite (pools_delete s s' p Hl), Hg, H. Qed.

Lemma destroy_good s p :
  wf s -> legal wide malloc s (Destroy p) -> twp (exec wide malloc (Destroy p)) (good s (Destroy p)) s.
Proof.
  intros [C U] (Hf & Hc). unfold no_children in Hc. destruct (pools s !! p) as [P|] eqn:E; [|done]. simpl in *.
  apply twp_bind. eapply twp_mono; [by apply (destroy_call wide s p P)|]. intros _ s' (H1 & H2 & H3 & H4). apply twp_ret. split_and!.
  - split; [done|]. by apply (unlocked_delete s s' p).
  - by apply drops_view.
  - done.
Qed.

Lemma reset_good s : wf s -> legal wide malloc s Reset -> twp (exec wide malloc Reset) (good s Reset) s.
Proof.
  intros [C U] Hc. simpl in Hc |- *. destruct (gGolbalPool s) as [g|] eqn:Eg; simpl in Hc.
  - destruct (c_global _ _ C g Eg) as (P & E & _). unfold no_children in Hc. rewrite E in Hc. simpl in Hc.
    apply twp_bind. eapply twp_mono; [by apply (reset_call wide s g P)|]. intros _ s' (H1 & H2 & H3 & H4). apply twp_ret. split_and!.
    + split; [done|]. by apply (unlocked_delete s s' g).
    + simpl. rewrite Eg. by apply drops_view.
    + done.
  - apply (twp_intro _ _ _ None s).
    + unfold AwPoolReset. eapply bind_ok; [|done]. eapply bind_ok; [done|]. cbv beta. by rewrite Eg.
    + split_and!; [done| |done]. simpl. by rewrite Eg.
Qed.

Lemma exec_good s o : wf s -> legal wide malloc s o -> twp (exec wide malloc o) (good s o) s.
Proof.
  destruct o as [fat|po n|po len|po a n|po a|p|]; intros W L.
  - by apply create_good.
  - destruct L as [R Hn]. eapply twp_mono; [by apply palloc_good|]. intros r s' (H1 & H2 & H3). split_and!; try done. naive_solver.
  - by apply strdup_good.
  - by apply realloc_good.
  - by apply pfree_good.
  - by apply destroy_good.
  - by apply reset_good.
Qed.

Lemma run_wf ops : forall s, wf s -> legal_run wide malloc ops s -> exists s', run wide malloc ops s = Ok tt s' /\ wf s'.
Proof.
  induction ops as [|o ops IH]; intros s W L; [by exists s|]. destruct L as [L1 L2].
  destruct (twp_elim _ _ _ (exec_good s o W L1)) as (r & s1 & E & W1 & _). rewrite E in L2.
  destruct (IH s1 W1 L2) as (s' & R & W'). exists s'. split; [|done]. simpl. by eapply bind_ok.
Qed.

Lemma wf_init : wf init.
Proof.
  split; [|intros p P E; simpl in E; by rewrite lookup_empty in E].
  split; [split| | |done]; try (intros *; simpl; rewrite ?lookup_empty; done).
Qed.

End proofs.

Section memory.
Context (wide : bool).
Abbreviation spm := (sizeof_pm wide).
Abbreviation core := (core wide).
Abbreviation wf := (wf wide).
Implicit Types (s : st) (P : Pool) (p a n : Z).

(** ** Memory *)

(** Memory and its header are aligned, belong to a pool, lie in one live block of [malloc], and
    share no byte with other memory, a pool or the header of a block. *)
Definition placed s x n q : Prop :=
  0 < n /\ (x + spm) mod 8 = 0 /\ is_Some (pools s !! q) /\
  (exists b k, heap s !! b = Some k /\ b <= x /\ x + spm + n <= b + k) /\
  (forall y n' q', live s !! y = Some (n', q') -> y <> x -> x + spm + n <= y \/ y + spm + n' <= x) /\
  (forall p, is_Some (pools s !! p) -> x + spm + n <= p \/ p + 1024 <= x) /\
  (forall d, is_Some (pds s !! d) -> x + spm + n <= d \/ d + sizeof_pd wide <= x).

Lemma live_pm s x n q : live s !! x = Some (n, q) -> exists m, pms s !! x = Some m /\ pm_size m = n /\ home s m = Some q.
Proof.
  rewrite live_lookup. destruct (pms s !! x) as [m|]; [|done]. simpl. intros (q' & ? & [= -> ->])%fmap_Some. eauto.
Qed.

(** Two memories in one block are in its row. *)
Lemma pm_apart s x y m k :
  wfs wide None s -> pms s !! x = Some m -> pms s !! y = Some k -> y <> x ->
  x + spm + pm_size m <= y \/ y + spm + pm_size k <= x.
Proof.
  intros W Ex Ey Hne. destruct (pm_inside wide None s x m W Ex) as (X1 & X2 & b & j & X3 & X4 & X5 & X6).
  destruct (pm_inside wide None s y k W Ey) as (Y1 & Y2 & c & i & Y3 & Y4 & Y5 & Y6). pose proof (spm_range wide).
  destruct (decide (b = c)) as [<-|Hbc].
  2: { destruct (w_apart _ _ _ W _ _ _ _ X3 Y3 Hbc); lia. }
  pose proof (w_pm _ _ _ W x m Ex) as Kx. pose proof (w_pm _ _ _ W y k Ey) as Ky. unfold pm_ok in Kx, Ky.
  destruct (owner m) as [d|] eqn:Em, (owner k) as [e|] eqn:Ek; try lia.
  - destruct X6 as [-> _], Y6 as [<- _]. destruct Kx as (_ & _ & D & ED & Dx), Ky as (_ & _ & D' & ED' & Dy). simplify_eq.
    destruct (w_pd _ _ _ W _ _ ED) as (_ & _ & _ & _ & _ & C & _).
    assert (x + room wide (pm_size m) <= y \/ y + room wide (pm_size k) <= x) as A.
    { eapply (chain_apart wide (size_at s) (pmList D)); try done; unfold size_at; by rewrite ?Ex, ?Ey. }
    pose proof (room_range wide (pm_size m)). pose proof (room_range wide (pm_size k)). lia.
  - destruct X6 as [-> _]. subst y. destruct Kx as (_ & _ & D & ED & _), Ky as (_ & _ & Hn & _). congruence.
  - destruct Y6 as [<- _]. subst x. destruct Ky as (_ & _ & D & ED & _), Kx as (_ & _ & Hn & _). congruence.
Qed.

Lemma home_pool s x m q : wfs wide None s -> pms s !! x = Some m -> home s m = Some q -> is_Some (pools s !! q).
Proof.
  intros W E H. pose proof (w_pm _ _ _ W x m E) as K. unfold pm_ok, home in *. destruct (owner m) as [d|].
  - destruct K as (_ & _ & D & ED & _). rewrite ED in H. simpl in H. destruct (w_listed _ _ _ W d D ED ltac:(done)) as (P & ? & _).
    injection H as <-. eauto.
  - destruct K as (_ & _ & _ & P & ? & _). injection H as <-. eauto.
Qed.

(** Memory is not in the block of a pool, nor before the row of its block. *)
Lemma pm_not_pool s x m p :
  wfs wide None s -> pms s !! x = Some m -> is_Some (pools s !! p) -> x + spm + pm_size m <= p \/ p + 1024 <= x.
Proof.
  intros W Ex [P EP]. destruct (pm_inside wide None s x m W Ex) as (X1 & X2 & b & j & X3 & X4 & X5 & X6).
  destruct (w_pool _ _ _ W _ _ EP) as (Hp & Hd & _). destruct (decide (b = p)) as [->|Hne].
  2: { destruct (w_apart _ _ _ W _ _ _ _ X3 Hp Hne); lia. }
  pose proof (w_pm _ _ _ W x m Ex) as K. unfold pm_ok in K. exfalso. destruct (owner m) as [d|].
  - destruct X6 as [-> _], K as (_ & _ & D & ED & _). congruence.
  - subst p. destruct K as (K & Hh & _). unfold POOL_LARGE_SIZE in K. pose proof (spm_range wide). rewrite Hp in Hh. injection Hh. lia.
Qed.
Lemma pm_not_head s x m d :
  wfs wide None s -> pms s !! x = Some m -> is_Some (pds s !! d) -> x + spm + pm_size m <= d \/ d + sizeof_pd wide <= x.
Proof.
  intros W Ex [D ED]. destruct (pm_inside wide None s x m W Ex) as (X1 & X2 & b & j & X3 & X4 & X5 & X6).
  destruct (w_pd _ _ _ W _ _ ED) as (Hd & _ & _ & _ & _ & C & _). pose proof (spd_range wide).
  destruct (decide (b = d)) as [->|Hne].
  2: { unfold POOL_BLOCK_SIZE in Hd. destruct (w_apart _ _ _ W _ _ _ _ X3 Hd Hne); lia. }
  pose proof (w_pm _ _ _ W x m Ex) as K. unfold pm_ok in K. destruct (owner m) as [e|].
  - destruct X6 as [<- _], K as (_ & _ & D' & ED' & Hin). simplify_eq.
    destruct (chain_in _ _ _ _ _ _ C Hin) as (k & _ & _ & _ & ? & _). lia.
  - subst d. destruct K as (_ & _ & ? & _). congruence.
Qed.

Lemma live_placed s x n q : wf s -> live s !! x = Some (n, q) -> placed s x n q.
Proof.
  intros [C _] (m & E & <- & Hh)%live_pm. pose proof (c_s _ _ C) as W. pose proof (spm_range wide).
  destruct (pm_inside wide None s x m W E) as (X1 & X2 & b & k & X3 & X4 & X5 & _). split_and!.
  - done.
  - dlia.
  - by apply (home_pool s x m).
  - eauto.
  - intros y n' q' (m' & E' & <- & _)%live_pm Hne. by apply (pm_apart s).
  - intros p Hp. by apply (pm_not_pool s).
  - intros d Hd. by apply (pm_not_head s).
Qed.

(** ** Blocks *)

(** What a live block of [malloc] is for: a pool, a block that a pool allocates from or that has
    memory in it, or large memory. *)
Definition needed s b : Prop :=
  is_Some (pools s !! b) \/
  (exists D P, pds s !! b = Some D /\ pools s !! pd_pool D = Some P /\ b ∈ pdList P /\
     (failed D < 6 \/ exists x n, live s !! x = Some (n, pd_pool D) /\ b < x < b + POOL_BLOCK_SIZE)) \/
  exists n q, live s !! b = Some (n, q) /\ is_Some (pools s !! q).

Lemma heap_needed s b n : wf s -> heap s !! b = Some n -> needed s b.
Proof.
  intros [C _] Hb. pose proof (c_s _ _ C) as W. destruct (w_used _ _ _ W b n Hb) as [U|[[D U]|(m & U & Uo)]]; [by left|right; left|right; right].
  - destruct (w_pd _ _ _ W _ _ U) as (_ & _ & _ & Hh & Hf & Ch & Hlast & _). destruct (w_listed _ _ _ W b D U ltac:(done)) as (P & ? & ?).
    exists D, P. split_and!; try done. unfold held in Hh. destruct (failed D <? 6) eqn:Ef; [left; lia|right].
    destruct (pmList D) as [|x l] eqn:El; [simpl in Hh; lia|]. destruct (w_owner _ _ _ W b D x U) as (m & Em & Eo); [rewrite El; by left|].
    destruct (live_some wide s x m W Em) as (q & Hq & Hl). unfold home in Hq. rewrite Eo, U in Hq. injection Hq as <-.
    exists x, (pm_size m). split; [done|]. destruct (pm_inside wide None s x m W Em) as (X1 & _ & c & k & X3 & X4 & X5 & X6).
    rewrite Eo in X6. destruct X6 as [-> ?]. destruct (chain_in _ _ _ x _ _ Ch) as (j & _ & J & _ & _ & ?); [by left|].
    pose proof (room_pos wide j J). lia.
  - destruct (live_some wide s b m W U) as (q & Hq & Hl). exists (pm_size m), q. split; [done|]. by apply (home_pool s b m).
Qed.

Lemma no_pools_empty s : wf s -> pools s = ∅ -> heap s = ∅ /\ live s = ∅.
Proof.
  intros W E. split; apply map_empty; intros x.
  - destruct (heap s !! x) as [n|] eqn:Ex; [|done]. destruct (heap_needed s x n W Ex) as [[P H]|[(D & P & _ & H & _)|(? & ? & _ & [P H])]];
      rewrite E, lookup_empty in H; done.
  - destruct (live s !! x) as [[n q]|] eqn:Ex; [|done]. destruct (live_placed s x n q W Ex) as (_ & _ & [P H] & _).
    by rewrite E, lookup_empty in H.
Qed.
End memory.

(** * The theorems *)

(** A [malloc] that gives the next free address, up to a number of calls. *)
Definition bump_top (h : gmap Z Z) : Z := map_fold (fun b n t => Z.max t (b + AwAlign n 8)) 4096 h.
Definition bump (limit : nat) (k : nat) (h : gmap Z Z) (n : Z) : option Z :=
  if bool_decide (k < limit)%nat && (0 <? n) then Some (AwAlign (bump_top h) 8) else None.

Lemma bump_top_spec h : 4096 <= bump_top h /\ forall b n, h !! b = Some n -> b + n <= bump_top h.
Proof.
  unfold bump_top. apply (map_fold_weak_ind (fun t h => 4096 <= t /\ forall b n, h !! b = Some n -> b + n <= t)).
  - split; [done|]. intros b n. by rewrite lookup_empty.
  - intros b n h' t _ [H1 H2]. split; [lia|]. intros c k [[<- <-]|[Hc E]]%lookup_insert_Some.
    + pose proof (align_eq n) as A. unfold POOL_ALIGNMENT in A. rewrite A. pose proof (Z.mod_pos_bound (- n) 8). lia.
    + apply H2 in E. lia.
Qed.
Lemma bump_fresh limit k h n b : 0 < n -> bump limit k h n = Some b -> fresh h b n.
Proof.
  intros Hn. unfold bump. destruct (_ && _); [|done]. intros [= <-]. destruct (bump_top_spec h) as [H1 H2].
  pose proof (align_eq (bump_top h)) as A. unfold POOL_ALIGNMENT in A. rewrite A. pose proof (Z.mod_pos_bound (- bump_top h) 8).
  unfold fresh. split_and!; [lia|dlia|]. intros c j E. apply H2 in E. lia.
Qed.

(** ** Checking sessions *)

#[export] Instance reachable_dec malloc s po : Decision (reachable malloc s po).
Proof.
  unfold reachable, creatable. destruct (target s po); [apply _|]. destruct (malloc _ _ 1024); apply _.
Defined.
#[export] Instance size_ok_dec wide n : Decision (size_ok wide n).
Proof. unfold size_ok. apply _. Defined.
#[export] Instance has_mem_dec wide malloc s n : Decision (has_mem wide malloc s n).
Proof. unfold has_mem, has_block. destruct (_ <=? _); apply _. Defined.
#[export] Instance usable_dec s po : Decision (usable s po).
Proof. unfold usable. destruct (target s po); simpl; apply _. Defined.
#[export] Instance no_children_dec s p : Decision (no_children s p).
Proof. unfold no_children. destruct (pools s !! p); simpl; apply _. Defined.
#[export] Instance legal_dec wide malloc s o : Decision (legal wide malloc s o).
Proof.
  destruct o as [fat|po n|po len|po a n|po a|p|]; simpl.
  - apply and_dec; [apply _|]. destruct (some_pool wide malloc fat s) as [r s'| |]; [|apply _..].
    unfold creatable. destruct (malloc _ _ 1024); apply _.
  - apply _.
  - apply _.
  - unfold has_block. destruct (live s !! _); simpl; apply _.
  - apply _.
  - destruct (pools s !! p); simpl; apply _.
  - destruct (gGolbalPool s); simpl; apply _.
Defined.
#[export] Instance legal_run_dec wide malloc ops : forall s, Decision (legal_run wide malloc ops s).
Proof.
  induction ops as [|o ops IH]; intros s; simpl; [apply _|]. apply and_dec; [apply _|].
  destruct (exec wide malloc o s); apply _.
Defined.

(** Two pools: strings and large memory in one, grown in place and moved, and all given back. *)
Definition working : list op :=
  [Create None; StrDup (Some 13312) 10; Palloc (Some 13312) 5000; Realloc (Some 13312) 14448 200;
   Palloc None 300; Realloc (Some 13312) 14448 4500; Pfree None 5232].
Definition closing : list op := working ++ [Destroy 13312; Reset].

(** C15: a session of calls that are in order returns, and afterwards no mutex is held and each
    live memory and its header are 8-byte aligned, belong to a pool that is there, lie inside one
    live block of [malloc], and share no byte with other memory, with a pool or with the header of
    a block. *)
Theorem pool_memory_safe (wide : bool) (malloc : nat -> gmap Z Z -> Z -> option Z)
    (malloc_fresh : forall k h n b, 0 < n -> malloc k h n = Some b -> fresh h b n) (ops : list op) :
  legal_run wide malloc ops init ->
  exists s, run wide malloc ops init = Ok tt s /\ unlocked s /\
    forall x n q, live s !! x = Some (n, q) -> placed wide s x n q.
Proof.
  intros L. destruct (run_wf wide malloc malloc_fresh ops init (wf_init wide) L) as (s & R & W). exists s. split_and!; [done|apply W|].
  intros x n q. by apply live_placed.
Qed.

Lemma pool_memory_safe_witness :
  exists s, run true (bump 100) working init = Ok tt s /\ placed true s 27576 4500 13312.
Proof.
  destruct (pool_memory_safe true (bump 100) (bump_fresh 100) working) as (s & R & _ & H).
  - apply (bool_decide_unpack (legal_run true (bump 100) working init)). vm_compute. exact I.
  - exists s. split; [done|]. apply H. vm_compute in R. injection R as <-. vm_compute. reflexivity.
Defined.

(** C14: each call that is in order returns and does what the abstract allocator does: an
    allocation adds memory of that size to its pool at an unused address, growing keeps the memory
    in place or replaces it by new memory, freeing removes it and nothing else, a pool takes
    all its memory and only its own with it, and the global pool is made when it is needed; an
    allocation fails only when [malloc] does. *)
Theorem pool_refines (wide : bool) (malloc : nat -> gmap Z Z -> Z -> option Z)
    (malloc_fresh : forall k h n b, 0 < n -> malloc k h n = Some b -> fresh h b n) (s : st) (o : op) :
  wf wide s -> legal wide malloc s o ->
  exists r s', exec wide malloc o s = Ok r s' /\ wf wide s' /\
    does (sizeof_pm wide) o r (view_of s) (view_of s') /\ (supplied wide malloc s o -> is_Some r).
Proof.
  intros W L. destruct (twp_elim _ _ _ (exec_good wide malloc malloc_fresh s o W L)) as (r & s' & E & H). by exists r, s'.
Qed.

Lemma pool_refines_witness :
  exists r s, exec true (bump 100) (Palloc None 300) init = Ok r s /\
    does 48 (Palloc None 300) r (view_of init) (view_of s).
Proof.
  destruct (pool_refines true (bump 100) (bump_fresh 100) init (Palloc None 300)) as (r & s & H1 & _ & H2 & _).
  - apply wf_init.
  - apply (bool_decide_unpack (legal true (bump 100) init (Palloc None 300))). vm_compute. exact I.
  - by exists r, s.
Defined.

(** C16: no block of [malloc] is lost: after a session of calls that are in order each live block is
    a pool, large memory of a pool, or a block on the list of a pool that it still
    allocates from or that has live memory in it; when no pool is left, [malloc] has
    everything back. *)
Theorem pool_no_leak (wide : bool) (malloc : nat -> gmap Z Z -> Z -> option Z)
    (malloc_fresh : forall k h n b, 0 < n -> malloc k h n = Some b -> fresh h b n) (ops : list op) :
  legal_run wide malloc ops init ->
  exists s, run wide malloc ops init = Ok tt s /\
    (forall b n, heap s !! b = Some n -> needed s b) /\ (pools s = ∅ -> heap s = ∅ /\ live s = ∅).
Proof.
  intros L. destruct (run_wf wide malloc malloc_fresh ops init (wf_init wide) L) as (s & R & W). exists s. split_and!; [done| |].
  - intros b n. by apply (heap_needed wide).
  - by apply (no_pools_empty wide).
Qed.

Lemma pool_no_leak_witness : exists s, run true (bump 100) closing init = Ok tt s /\ heap s = ∅.
Proof.
  destruct (pool_no_leak true (bump 100) (bump_fresh 100) closing) as (s & R & _ & H).
  - apply (bool_decide_unpack (legal_run true (bump 100) closing init)). vm_compute. exact I.
  - exists s. split; [done|]. apply H. vm_compute in R. injection R as <-. reflexivity.
Defined.

(** * Departures *)

Section departures.
Context (wide : bool) (malloc : nat -> gmap Z Z -> Z -> option Z).
Abbreviation spm := (sizeof_pm wide).
Implicit Types (s : st) (P : Pool) (p a n : Z).

(** Memory for which there is no block and that is not larger than the limit. *)
Lemma gap_alloc s p P n b :
  pools s !! p = Some P -> 0 < n <= POOL_LARGE_SIZE -> POOL_LARGE_SIZE < room wide n ->
  malloc (calls s) (heap s) (n + spm) = Some b ->
  exists s', AwPalloc wide malloc true (Some p) n s = Ok (Some (b + spm)) s' /\
    is_Some (pools s' !! p) /\ pms s' !! b = Some (mkPm None n p) /\ gGolbalPool s' = gGolbalPool s.
Proof.
  intros E Hn Hr Hm. pose proof (spm_range wide). eexists. split_and!.
  - unfold AwPalloc. replace (0 <? n) with true by lia. cbn [negb]. eapply bind_ok; [done|]. eapply bind_ok; [done|].
    eapply bind_ok; [unfold CdxMutexLock; eapply bind_ok; [by apply load_pool_ok|]; done|].
    eapply bind_ok.
    { unfold palloc. rewrite pm_room_eq by (unfold POOL_LARGE_SIZE in *; lia). replace (room wide n <=? POOL_LARGE_SIZE) with false by lia.
      unfold PallocLarge. eapply bind_ok.
      { unfold do_malloc. eapply bind_ok; [done|]. eapply bind_ok; [done|]. simpl. rewrite Hm. done. }
      cbv beta iota. eapply bind_ok; [done|]. eapply bind_ok; [apply load_pool_ok; simpl; by rewrite lookup_insert_eq|].
      eapply bind_ok; [done|]. done. }
    eapply bind_ok; [unfold CdxMutexUnlock; eapply bind_ok; [apply load_pool_ok; simpl; by rewrite lookup_insert_eq|]; done|]. done.
  - simpl. by rewrite lookup_insert_eq.
  - simpl. by rewrite lookup_insert_eq.
  - done.
Qed.

Lemma gap_free s p n b :
  is_Some (pools s !! p) -> n <= POOL_LARGE_SIZE -> pms s !! b = Some (mkPm None n p) ->
  AwPfree wide (Some p) (b + spm) s = Undef.
Proof.
  intros [P E] Hn Em. unfold AwPfree. eapply bind_ok; [done|].
  eapply bind_ok; [unfold CdxMutexLock; eapply bind_ok; [by apply load_pool_ok|]; done|]. cbv zeta.
  replace (b + spm - spm) with b by lia. eapply bind_ok; [by apply load_pm_ok|]. simpl.
  replace (POOL_LARGE_SIZE <? n) with false by lia. done.
Qed.

(** The second [CdxListDel] of a child. *)
Lemma child_destroy fuel s c C :
  pools s !! c = Some C -> childList C = [] -> father C = None -> gGolbalPool s <> Some c ->
  destroy (S fuel) c s = Undef.
Proof.
  intros E Hc Hf Hg. cbn [destroy]. eapply bind_ok; [by apply load_pool_ok|]. rewrite Hc. eapply bind_ok; [done|].
  eapply bind_ok; [done|]. cbv beta. rewrite bool_decide_false by done.
  assert (del_child c s = Undef) as Hd by (unfold del_child; eapply bind_ok; [by apply load_pool_ok|]; by rewrite Hf).
  unfold mbind at 1, M_bind at 1. by rewrite Hd.
Qed.

Lemma parent_destroy s p P c l C :
  core wide s -> pools s !! p = Some P -> childList P = c :: l -> pools s !! c = Some C -> childList C = [] ->
  AwPoolDestroy p s = Undef.
Proof.
  intros K EP Hl EC Hc. destruct (f_child _ (c_family _ _ K) p P c EP) as (C' & ? & Hf); [rewrite Hl; by left|]. simplify_eq.
  assert (gGolbalPool s <> Some c) as Hg by (intros Hg; destruct (c_global _ _ K c Hg) as (? & ? & ?); congruence).
  destruct (del_child_ok wide s c C p K EC Hf Hc) as (s1 & F & D1 & D2 & D3 & D4 & D5 & D6 & D7 & D8 & D9).
  unfold AwPoolDestroy. eapply bind_ok; [done|]. cbn [destroy]. eapply bind_ok; [exact (load_pool_ok s p P EP)|]. rewrite Hl.
  assert (size (pools s) <> 0%nat) as Hs.
  { intros Hs. apply map_size_empty_inv in Hs. by rewrite Hs, lookup_empty in EP. }
  destruct (size (pools s)) as [|fuel]; [done|]. unfold mbind, M_bind. rewrite D1.
  rewrite (child_destroy fuel s1 c (C <| father := None |>)); try done; [by rewrite D5, lookup_insert_eq|congruence].
Qed.
End departures.

(** Where the code departs from this.  Memory of a size up to 4095 whose header does not fit with it
    below the limit is large when it is made and small when it is freed: its owner is null.
    Destroying a pool whose first child has no children takes the child from its list twice, and so does
    [AwPoolReset].  A size near [INT_MAX] is cut from a block of 8192 bytes.  Growing copies to a
    null pointer when [malloc] has no block.  A pool for which no mutex can be made keeps its
    memory. *)
Theorem pool_departs :
  (forall wide malloc s p P n b,
     pools s !! p = Some P -> 0 < n <= POOL_LARGE_SIZE -> POOL_LARGE_SIZE < room wide n ->
     malloc (calls s) (heap s) (n + sizeof_pm wide) = Some b ->
     (AwPalloc wide malloc true (Some p) n ≫= fun a => AwPfree wide (Some p) (default 0 a)) s = Undef) /\
  (forall wide s p P c l C,
     wf wide s -> pools s !! p = Some P -> childList P = c :: l -> pools s !! c = Some C -> childList C = [] ->
     AwPoolDestroy p s = Undef /\ (gGolbalPool s = Some p -> AwPoolReset s = Undef)) /\
  run true (bump 100) [Palloc None 4041; Pfree None 13360] init = Undef /\
  run true (bump 100) [Create None; Reset] init = Undef /\
  (exists s, run true (bump 100) [Palloc None (2 ^ 31 - 1)] init = Ok tt s /\
     live s !! 5184 = Some (2 ^ 31 - 1, 4096) /\ heap s = {[4096 := 1024; 5120 := 8192]}) /\
  run true (bump 2) [Palloc None 100; Palloc None 4000; Realloc None 5232 4000] init = Undef /\
  (exists s, PoolNodeCreate true (bump 100) false init = Ok None s /\ heap s = {[4096 := 1024; 5120 := 8192]}).
Proof.
  split_and!.
  - intros wide malloc s p P n b E Hn Hr Hm. destruct (gap_alloc wide malloc s p P n b E Hn Hr Hm) as (s' & A1 & A2 & A3 & _).
    eapply bind_ok; [exact A1|]. apply (gap_free wide s' p n b); [done|lia|done].
  - intros wide s p P c l C [K _] E Hl EC Hc. split; [by apply (parent_destroy wide s p P c l C)|].
    intros Hg. unfold AwPoolReset. eapply bind_ok; [done|]. cbv beta. rewrite Hg. unfold mbind, M_bind.
    by rewrite (parent_destroy wide s p P c l C).
  - vm_compute. reflexivity.
  - vm_compute. reflexivity.
  - vm_compute. eexists. split_and!; reflexivity.
  - vm_compute. reflexivity.
  - vm_compute. eexists. split; reflexivity.
Qed.
End AwPoolTheorems.
