(* ===== verification/PoolMem.v ===== *)
(** The memory that the clients of the pool work with: the pools of [AwPool], and what is in the
    memory taken from them.

    A client sees a piece of memory by its address; it holds bytes, which may be indeterminate, or
    one of the structures of [CdxMeta.c] and [CdxBuffer.c].  Memory that was given back has no
    contents, so using it is undefined.  That two pieces never share bytes is what
    [AwPoolTheorems] shows of the pool. *)

From Stdlib Require Import ZArith Lia.
From stdpp Require Import base list list_numbers numbers gmap.
From S2P Require Import Prelude AwPool.

Open Scope list_scope.
Open Scope Z_scope.

Module PoolMem.

(** The machine: [is_wide] for pointers of 64 bits, and the outcome of [malloc] for the number of the
    call, the live blocks and a size. *)
Class Env := mkEnv { is_wide : bool; sys_malloc : nat -> gmap Z Z -> Z -> option Z }.

Abbreviation str := (list Z).

(** * Structures *)

(** The five kinds of values of a meta; strings and data are memory of their own. *)
Inductive value := Int32 (v : Z) | Int64 (v : Z) | String (p : Z) | Data (p n : Z) | Object (p : Z).
Inductive kind := KInt32 | KInt64 | KString | KData | KObject.
#[export] Instance kind_eq_dec : EqDecision kind.
Proof. solve_decision. Defined.
Definition kind_of (v : value) : kind :=
  match v with
  | Int32 _ => KInt32 | Int64 _ => KInt64 | String _ => KString | Data _ _ => KData | Object _ => KObject
  end.

(** [name] is the array of 32 bytes. *)
Record CdxMetaItem := mkItem { name : list Z; val : value }.

(** The lists are lists of the addresses of items. *)
Record CdxMetaImpl := mkMeta {
  meta_pool : option Z;
  mInt32List : list Z;
  mInt64List : list Z;
  mStringList : list Z;
  mDataList : list Z;
  mObjectList : list Z;
  meta_mRef : Z
}.
#[export] Instance eta_meta : Eta CdxMetaImpl := fun m =>
  mkMeta (meta_pool m) (mInt32List m) (mInt64List m) (mStringList m) (mDataList m) (mObjectList m) (meta_mRef m).

Record CdxBufferImpl := mkBuffer {
  buf_pool : option Z;
  selfPool : bool;
  mMeta : Z;
  mData : Z;
  mCapacity : Z;
  mRangeOffset : Z;
  mRangeLen : Z;
  buf_mRef : Z
}.
#[export] Instance eta_buffer : Eta CdxBufferImpl := fun b =>
  mkBuffer (buf_pool b) (selfPool b) (mMeta b) (mData b) (mCapacity b) (mRangeOffset b) (mRangeLen b) (buf_mRef b).

Inductive obj := OBytes (b : list (option Z)) | OItem (i : CdxMetaItem) | OMeta (m : CdxMetaImpl) | OBuffer (b : CdxBufferImpl).

Record world := mkWorld { pst : AwPool.st; mem : gmap Z obj }.
#[export] Instance eta_world : Eta world := fun w => mkWorld (pst w) (mem w).

Section mem.
Context `{Env}.

(** [sizeof] *)
Definition sizeof_item (k : kind) : Z :=
  match k with
  | KInt32 => if is_wide then 56 else 44
  | KInt64 => if is_wide then 56 else 48
  | KString => if is_wide then 56 else 44
  | KData => if is_wide then 64 else 48
  | KObject => if is_wide then 56 else 44
  end.
Definition sizeof_meta : Z := if is_wide then 104 else 52.
Definition sizeof_buffer : Z := if is_wide then 64 else 36.
Definition size_of (o : obj) : Z :=
  match o with
  | OBytes b => Z.of_nat (length b)
  | OItem i => sizeof_item (kind_of (val i))
  | OMeta _ => sizeof_meta
  | OBuffer _ => sizeof_buffer
  end.

(** * Access *)

Definition load (a : Z) : M world obj := w ← get; lift (mem w !! a).
Definition store (a : Z) (o : obj) : M world unit := modify (fun w => w <| mem ::= <[a := o]> |>).

Definition load_bytes (a : Z) : M world (list (option Z)) :=
  o ← load a; match o with OBytes b => mret b | _ => undef end.
Definition load_item (a : Z) : M world CdxMetaItem :=
  o ← load a; match o with OItem i => mret i | _ => undef end.
Definition load_meta (a : Z) : M world CdxMetaImpl :=
  o ← load a; match o with OMeta m => mret m | _ => undef end.
Definition load_buffer (a : Z) : M world CdxBufferImpl :=
  o ← load a; match o with OBuffer b => mret b | _ => undef end.

(** [memcpy(a + off, bs, n)] and the bytes it would read. *)
Definition write (a off : Z) (bs : list (option Z)) : M world unit :=
  b ← load_bytes a;
  if (0 <=? off) && (off + Z.of_nat (length bs) <=? Z.of_nat (length b)) then
    store a (OBytes (take (Z.to_nat off) b ++ bs ++ drop (Z.to_nat off + length bs) b))
  else undef.
Definition read (a off n : Z) : M world (list (option Z)) :=
  b ← load_bytes a;
  if (0 <=? off) && (0 <=? n) && (off + n <=? Z.of_nat (length b)) then
    mret (take (Z.to_nat n) (drop (Z.to_nat off) b))
  else undef.

(** The characters up to the NUL; indeterminate bytes and the end of the memory are undefined. *)
Fixpoint cstr (b : list (option Z)) : option str :=
  match b with
  | Some c :: b => if c =? 0 then Some [] else cons c <$> cstr b
  | _ => None
  end.

(** * The pool *)

Definition in_pool {A} (m : M AwPool.st A) : M world A := fun w =>
  match m (pst w) with
  | Ok a s => Ok a (w <| pst := s |>)
  | Aborted s => Aborted (w <| pst := s |>)
  | Undef => Undef
  end.

(** The size goes through an [int]; the bytes are indeterminate. *)
Definition Palloc (pool : option Z) (size : Z) : M world (option Z) :=
  r ← in_pool (AwPool.AwPalloc is_wide sys_malloc true pool (s32 size));
  match r with
  | None => mret None
  | Some p => store p (OBytes (replicate (Z.to_nat (s32 size)) None));; mret (Some p)
  end.
Definition Pfree (pool : option Z) (p : Z) : M world unit :=
  in_pool (AwPool.AwPfree is_wide pool p);; modify (fun w => w <| mem ::= delete p |>).
(** The old bytes are copied, those behind them are indeterminate. *)
Definition Prealloc (pool : option Z) (p size : Z) : M world (option Z) :=
  b ← load_bytes p;
  r ← in_pool (AwPool.AwRealloc is_wide sys_malloc true pool p (s32 size));
  match r with
  | None => mret None
  | Some q =>
      modify (fun w => w <| mem ::= fun m => <[q := OBytes (b ++ replicate (Z.to_nat size - length b) None)]> (delete p m) |>);;
      mret (Some q)
  end.
(** A failure is not looked at. *)
Definition Pstrdup (pool : option Z) (s : str) : M world Z :=
  p ← in_pool (AwPool.AwStrDup is_wide sys_malloc true pool (Z.of_nat (length s)));
  store p (OBytes (map Some (s ++ [0])));;
  mret p.
Definition PoolCreate (father : option Z) : M world Z := in_pool (AwPool.AwPoolCreate is_wide sys_malloc true father).
(** The contents go with the memory of the pool. *)
Definition PoolDestroy (pool : Z) : M world unit :=
  in_pool (AwPool.AwPoolDestroy pool);;
  modify (fun w => w <| mem ::= filter (fun e => is_Some (AwPool.pms (pst w) !! (e.1 - AwPool.sizeof_pm is_wide))) |>).
End mem.

End PoolMem.
