(* ===== verification/PoolMemSpec.v ===== *)
(** What a client of the pool may rely on: taking memory and giving it back leaves the tree of pools
    as it is ([AwPoolKin]), and rules for the memory it holds ([PoolMemSpec]). *)

From Stdlib Require Import ZArith Lia.
From stdpp Require Import base list list_numbers numbers gmap fin_maps fin_map_dom.
From S2P Require Import Prelude AwPool AwPoolSpec AwPoolCalls AwPoolLife AwPoolTheorems PoolMem.

Open Scope list_scope.
Open Scope Z_scope.

Module AwPoolKin.
Import AwPool AwPoolCalls AwPoolLife.

(** The father and the children of each pool. *)
Definition kin (s : st) : gmap Z (option Z * list Z) := (fun P => (father P, childList P)) <$> pools s.

Definition keeps {A} (m : M st A) : Prop := forall K s, kin s = K -> wp m (fun _ s' => kin s' = K) s.

Lemma keeps_eq {A} (m : M st A) s a s' : keeps m -> m s = Ok a s' -> kin s' = kin s.
Proof. intros K E. exact (wp_elim m _ s a s' (K (kin s) s eq_refl) E). Qed.

Lemma keeps_ret {A} (a : A) : keeps (mret a).
Proof. by intros K s. Qed.
Lemma keeps_undef {A} : keeps (@undef st A).
Proof. done. Qed.
Lemma keeps_abort {A} : keeps (@abort st A).
Proof. done. Qed.
Lemma keeps_lift {A} (o : option A) : keeps (lift o).
Proof. destruct o; [apply keeps_ret|apply keeps_undef]. Qed.
Lemma keeps_get : keeps get.
Proof. by intros K s. Qed.
Lemma keeps_modify f : (forall s, pools (f s) = pools s) -> keeps (modify f).
Proof. intros Hf K s <-. unfold wp, modify, kin. by rewrite Hf. Qed.
Lemma keeps_bind {A B} (m : M st A) (k : A -> M st B) : keeps m -> (forall a, keeps (k a)) -> keeps (m ≫= k).
Proof. intros Hm Hk K s E. apply wp_bind. eapply wp_mono; [by apply Hm|]. intros a s' E'. by apply Hk. Qed.
Lemma keeps_if {A} (b : bool) (m1 m2 : M st A) : keeps m1 -> keeps m2 -> keeps (if b then m1 else m2).
Proof. by destruct b. Qed.
Lemma keeps_option {A B} (o : option B) (m1 : B -> M st A) m2 :
  (forall b, keeps (m1 b)) -> keeps m2 -> keeps (match o with Some b => m1 b | None => m2 end).
Proof. destruct o; auto. Qed.

(** A pool is loaded and stored with other fields. *)
Lemma keeps_load_k {B} p (k : Pool -> M st B) :
  (forall P s, pools s !! p = Some P -> wp (k P) (fun _ s' => kin s' = kin s) s) -> keeps (load_pool p ≫= k).
Proof. intros Hk K s <-. unfold load_pool. do 4 wp_step. by apply Hk. Qed.
Lemma wp_set_last p P P' s : pools s !! p = Some P -> father P' = father P -> childList P' = childList P ->
  wp (set_pool p P') (fun _ s' => kin s' = kin s) s.
Proof.
  intros HP E1 E2. unfold wp, set_pool, modify, kin. cbn [pools set eta_st]. rewrite fmap_insert, E1, E2.
  apply insert_id. by rewrite lookup_fmap, HP.
Qed.
Lemma wp_set_then {B} p P P' (k : M st B) s : pools s !! p = Some P -> father P' = father P -> childList P' = childList P ->
  keeps k -> wp (set_pool p P';; k) (fun _ s' => kin s' = kin s) s.
Proof. intros HP E1 E2 Hk. apply wp_bind. eapply wp_mono; [by eapply wp_set_last|]. intros u s' E. by apply Hk. Qed.

Create HintDb kin.
#[export] Hint Resolve keeps_ret keeps_undef keeps_abort keeps_lift keeps_get : kin.

Ltac pool_step :=
  apply keeps_load_k; intros ? ? ?; try (apply wp_bind, wp_lift; intros ? _);
  first [ eapply wp_set_last; [eassumption|done|done] | eapply wp_set_then; [eassumption|done|done|] ].
Ltac keeps_step :=
  cbv beta zeta;
  first
    [ solve [eauto 2 with kin]
    | pool_step
    | apply keeps_bind; [|intros ?]
    | apply keeps_if
    | apply keeps_option; [intros ?|]
    | apply keeps_modify; by intros ].

Section kin.
Context (wide : bool) (malloc : nat -> gmap Z Z -> Z -> option Z).

Lemma keeps_load_pool p : keeps (load_pool p).
Proof. unfold load_pool. repeat keeps_step. Qed.
Lemma keeps_load_pd p : keeps (load_pd p).
Proof. unfold load_pd. repeat keeps_step. Qed.
Lemma keeps_load_pm p : keeps (load_pm p).
Proof. unfold load_pm. repeat keeps_step. Qed.
Lemma keeps_set_pd d D : keeps (set_pd d D).
Proof. unfold set_pd. repeat keeps_step. Qed.
Lemma keeps_set_pm d D : keeps (set_pm d D).
Proof. unfold set_pm. repeat keeps_step. Qed.
Lemma keeps_free b : keeps (do_free b).
Proof. unfold do_free. repeat keeps_step. Qed.
Lemma keeps_malloc n : keeps (do_malloc malloc n).
Proof. unfold do_malloc. repeat keeps_step. Qed.
#[local] Hint Resolve keeps_load_pd keeps_load_pm keeps_set_pd keeps_set_pm keeps_free keeps_malloc : kin.

Lemma keeps_lock p : keeps (CdxMutexLock p).
Proof. unfold CdxMutexLock. repeat keeps_step. Qed.
Lemma keeps_unlock p : keeps (CdxMutexUnlock p).
Proof. unfold CdxMutexUnlock. repeat keeps_step. Qed.
Lemma keeps_dec_ref d : keeps (PoolDataDecRef d).
Proof. unfold PoolDataDecRef, free_pd. repeat keeps_step. Qed.
#[local] Hint Resolve keeps_lock keeps_unlock keeps_dec_ref : kin.

Lemma keeps_fail_loop d l : forall c, keeps (fail_loop d l c).
Proof. induction l as [|x l IH]; intros c; cbn [fail_loop]; repeat (apply IH || keeps_step). Qed.
Lemma keeps_cut d n r : keeps (cut wide d n r).
Proof. unfold cut. repeat keeps_step. Qed.
#[local] Hint Resolve keeps_fail_loop keeps_cut : kin.

Lemma keeps_find_block r l : keeps (find_block r l).
Proof. induction l as [|d l IH]; cbn [find_block]; repeat (apply IH || keeps_step). Qed.
Lemma keeps_palloc_block p n : keeps (PallocBlock wide malloc p n).
Proof.
  unfold PallocBlock. keeps_step; [keeps_step|]. keeps_step; [|keeps_step].
  apply keeps_bind; [apply keeps_load_pool|]. intros P. repeat keeps_step.
Qed.
Lemma keeps_palloc_large p n : keeps (PallocLarge wide malloc p n).
Proof. unfold PallocLarge. repeat keeps_step. Qed.
#[local] Hint Resolve keeps_find_block keeps_palloc_block keeps_palloc_large : kin.

Lemma keeps_palloc p n : keeps (AwPalloc wide malloc true (Some p) n).
Proof.
  unfold AwPalloc, palloc. repeat (apply keeps_load_pool || keeps_step).
Qed.
Lemma keeps_del_large x m : keeps (del_large x m).
Proof. unfold del_large. repeat keeps_step. Qed.
Lemma keeps_del_small x m : keeps (del_small x m).
Proof. unfold del_small. repeat keeps_step. Qed.
#[local] Hint Resolve keeps_palloc keeps_del_large keeps_del_small : kin.

Lemma keeps_pfree po a : keeps (AwPfree wide po a).
Proof. unfold AwPfree, the_pool. repeat keeps_step. Qed.
#[local] Hint Resolve keeps_pfree : kin.
Lemma keeps_realloc po a n : keeps (AwRealloc wide malloc true po a n).
Proof. unfold AwRealloc, grow_small, the_pool. repeat keeps_step. Qed.
End kin.

End AwPoolKin.

Module PoolMemSpec.
Import PoolMem AwPoolKin.
Import (hints) AwPoolTheorems.

(** [malloc] gives memory that is not in use, and does not run out. *)
Class Memory `{Env} : Prop := {
  malloc_fresh : forall k h n b, 0 < n -> sys_malloc k h n = Some b -> AwPoolSpec.fresh h b n;
  malloc_some : forall k h n, 0 < n -> is_Some (sys_malloc k h n)
}.

Lemma twp_both {S A} (m : M S A) (Q R : A -> S -> Prop) s : twp m Q s -> wp m R s -> twp m (fun a s' => Q a s' /\ R a s') s.
Proof. unfold twp, wp. by destruct (m s). Qed.

Section rules.
Context `{Memory}.
Abbreviation spm := (AwPool.sizeof_pm is_wide).
Implicit Types (w : world) (l : list (Z * obj)) (a p : Z) (po : option Z).

(** The size and the pool of the memory at an address. *)
Definition block w a : option (Z * Z) := AwPoolCalls.live (pst w) !! (a - spm).
#[global] Arguments block : simpl never.

(** The pool of a call is there. *)
Definition ready w po : Prop := AwPoolTheorems.usable (pst w) po.
(** All contents are in live memory. *)
Definition sane w : Prop := AwPoolSpec.wf is_wide (pst w) /\ forall a, is_Some (mem w !! a) -> is_Some (block w a).

(** The live memory [L] and the contents [m] are those of [w0] and of [l]. *)
Record shape (w0 : world) l (L : gmap Z (Z * Z)) (m : gmap Z obj) : Prop := {
  h_mem : m = list_to_map l ∪ mem w0;
  h_nodup : NoDup l.*1;
  h_new : Forall (fun e => block w0 e.1 = None /\ fst <$> L !! (e.1 - spm) = Some (size_of e.2)) l;
  h_old : forall a, (a ∉ l.*1) -> L !! (a - spm) = block w0 a
}.
(** The memory that came since [w0] is that of [l]; all else is as it was. *)
Record holds (w0 : world) l w : Prop := {
  h_sane : sane w0;
  h_wf : AwPoolSpec.wf is_wide (pst w);
  h_shape : shape w0 l (AwPoolCalls.live (pst w)) (mem w);
  h_kin : kin (pst w) = kin (pst w0);
  h_global : AwPool.gGolbalPool (pst w) = AwPool.gGolbalPool (pst w0)
}.

Lemma holds_start w : sane w -> holds w [] w.
Proof.
  intros S. split; try done; [apply S|]. split; try done; [|apply NoDup_nil_2].
  by rewrite list_to_map_nil, (left_id_L ∅ (∪)).
Qed.
#[global] Instance shape_perm w0 : Proper ((≡ₚ) ==> eq ==> eq ==> impl) (shape w0).
Proof.
  intros l l' P L ? <- m ? <- [H1 H2 H3 H4]. split; [|by rewrite <- P|by rewrite <- P|].
  - rewrite H1. f_equal. by apply list_to_map_proper.
  - intros a Ha. apply H4. by rewrite P.
Qed.
#[global] Instance holds_perm w0 : Proper ((≡ₚ) ==> eq ==> impl) (holds w0).
Proof. intros l l' P w ? <- [H0' H1 H2 H3 H4]. split; try done. by rewrite <- P. Qed.

(** ** Changes of the live memory *)

Lemma new_others w0 a l (L L' : gmap Z (Z * Z)) : (a ∉ l.*1) -> (forall b, b <> a - spm -> L' !! b = L !! b) ->
  Forall (fun e => block w0 e.1 = None /\ fst <$> L !! (e.1 - spm) = Some (size_of e.2)) l ->
  Forall (fun e => block w0 e.1 = None /\ fst <$> L' !! (e.1 - spm) = Some (size_of e.2)) l.
Proof.
  intros Hn HL F. apply Forall_forall. intros e He. rewrite Forall_forall in F. destruct (F e He) as [E1 E2].
  split; [done|]. rewrite HL; [done|]. intros E. apply Hn. replace a with e.1 by lia. by apply list_elem_of_fmap_2.
Qed.

Lemma shape_alloc w0 l L m a o n q : shape w0 l L m -> L !! (a - spm) = None -> size_of o = n ->
  shape w0 ((a, o) :: l) (<[a - spm := (n, q)]> L) (<[a := o]> m).
Proof.
  intros [H1 H2 H3 H4] Ha <-. assert (a ∉ l.*1) as Hn.
  { intros (e & -> & He)%list_elem_of_fmap. rewrite Forall_forall in H3. destruct (H3 e He) as [_ E]. by rewrite Ha in E. }
  split.
  - by rewrite H1, list_to_map_cons, insert_union_l.
  - by apply NoDup_cons.
  - apply Forall_cons_2.
    + simpl. by rewrite <- (H4 a Hn), lookup_insert_eq.
    + eapply new_others; [exact Hn| |exact H3]. intros b Hb. by rewrite lookup_insert_ne.
  - intros b [Hb1 Hb2]%not_elem_of_cons. simpl in Hb1. rewrite lookup_insert_ne by lia. by apply H4.
Qed.

Lemma shape_free w0 l L m a o : sane w0 -> shape w0 ((a, o) :: l) L m -> shape w0 l (delete (a - spm) L) (delete a m).
Proof.
  intros [_ S] [H1 H2 H3 H4]. rewrite fmap_cons in H2. apply NoDup_cons in H2 as [Hn H2].
  apply Forall_cons_1 in H3 as [[E1 E2] H3]. simpl in Hn, E1.
  assert (mem w0 !! a = None) as Hm.
  { destruct (mem w0 !! a) eqn:E; [|done]. destruct (S a) as [? ?]; [by rewrite E|]. congruence. }
  split.
  - rewrite H1, list_to_map_cons, delete_union, (delete_id (mem w0)) by done.
    f_equal. apply delete_insert_id. by apply not_elem_of_list_to_map_1.
  - done.
  - eapply new_others; [exact Hn| |exact H3]. intros b Hb. by rewrite lookup_delete_ne.
  - intros b Hb. destruct (decide (b = a)) as [->|Hne]; [by rewrite lookup_delete_eq|].
    rewrite lookup_delete_ne by lia. apply H4. by apply not_elem_of_cons.
Qed.

Lemma shape_set w0 l L L' m a o o' : shape w0 ((a, o) :: l) L m -> fst <$> L' !! (a - spm) = Some (size_of o') ->
  (forall b, b <> a - spm -> L' !! b = L !! b) -> shape w0 ((a, o') :: l) L' (<[a := o']> m).
Proof.
  intros [H1 H2 H3 H4] Ha HL. apply Forall_cons_1 in H3 as [[E1 E2] H3]. split.
  - by rewrite H1, !list_to_map_cons, insert_union_l, insert_insert_eq.
  - done.
  - apply Forall_cons_2; [done|]. rewrite fmap_cons in H2. apply NoDup_cons in H2 as [Hn _]. by eapply new_others.
  - intros b Hb. rewrite <- (H4 b Hb). apply HL. apply not_elem_of_cons in Hb as [Hb _]. simpl in Hb. lia.
Qed.

(** ** Reading and writing *)

Lemma holds_lookup w0 l w a o : holds w0 l w -> (a, o) ∈ l -> mem w !! a = Some o.
Proof.
  intros [_ _ [Hm Hn _ _] _ _] Hin. rewrite Hm. by apply lookup_union_Some_l, elem_of_list_to_map_1.
Qed.

Lemma holds_store w0 l w a o o' : holds w0 ((a, o) :: l) w -> size_of o' = size_of o ->
  holds w0 ((a, o') :: l) (w <| mem ::= <[a := o']> |>).
Proof.
  intros [H0' H1 H2 H3 H4] Hs. split; try done. eapply shape_set; [exact H2| |done].
  pose proof (h_new _ _ _ _ H2) as F. apply Forall_cons_1 in F as [[_ F] _]. by rewrite Hs.
Qed.

Lemma holds_block w0 l w a o : holds w0 ((a, o) :: l) w -> exists q, block w a = Some (size_of o, q).
Proof.
  intros Hw. pose proof (h_new _ _ _ _ (h_shape _ _ _ Hw)) as F. apply Forall_cons_1 in F as [[_ F] _]. unfold block. simpl in F.
  destruct (_ !! (a - _)) as [[k q]|]; [|done]. injection F as ->. by exists q.
Qed.

Lemma twp_load_obj w0 l w a o (Q : obj -> world -> Prop) : holds w0 l w -> (a, o) ∈ l -> Q o w -> twp (load a) Q w.
Proof. intros Hw Hin HQ. unfold load. eapply twp_intro; [|done]. eapply bind_ok; [done|]. by rewrite (holds_lookup _ _ _ _ _ Hw Hin). Qed.
Lemma twp_load_bytes w0 l w a b Q : holds w0 l w -> (a, OBytes b) ∈ l -> Q b w -> twp (load_bytes a) Q w.
Proof. intros. apply twp_bind. by eapply twp_load_obj. Qed.
Lemma twp_load_item w0 l w a b Q : holds w0 l w -> (a, OItem b) ∈ l -> Q b w -> twp (load_item a) Q w.
Proof. intros. apply twp_bind. by eapply twp_load_obj. Qed.
Lemma twp_load_meta w0 l w a b Q : holds w0 l w -> (a, OMeta b) ∈ l -> Q b w -> twp (load_meta a) Q w.
Proof. intros. apply twp_bind. by eapply twp_load_obj. Qed.
Lemma twp_load_buffer w0 l w a b Q : holds w0 l w -> (a, OBuffer b) ∈ l -> Q b w -> twp (load_buffer a) Q w.
Proof. intros. apply twp_bind. by eapply twp_load_obj. Qed.

Lemma twp_store w0 l l' w a o o' Q : holds w0 l w -> l ≡ₚ (a, o) :: l' -> size_of o' = size_of o ->
  (forall w', holds w0 ((a, o') :: l') w' -> Q tt w') -> twp (store a o') Q w.
Proof. intros Hw Hl Hs HQ. rewrite Hl in Hw. apply twp_modify, HQ. by apply (holds_store _ _ _ _ o). Qed.

Lemma twp_write w0 l l' w a b off bs Q : holds w0 l w -> l ≡ₚ (a, OBytes b) :: l' ->
  0 <= off -> off + Z.of_nat (length bs) <= Z.of_nat (length b) ->
  (forall w', holds w0 ((a, OBytes (take (Z.to_nat off) b ++ bs ++ drop (Z.to_nat off + length bs) b)) :: l') w' -> Q tt w') ->
  twp (write a off bs) Q w.
Proof.
  intros Hw Hl H1 H2 HQ. unfold write. apply twp_bind. eapply twp_load_bytes; [done|rewrite Hl; by left|].
  replace ((0 <=? off) && _) with true by lia. eapply twp_store; [done|done| |done].
  cbn [size_of]. rewrite !length_app, length_take, length_drop. lia.
Qed.
Lemma twp_read_bytes w0 l w a b off n Q : holds w0 l w -> (a, OBytes b) ∈ l ->
  0 <= off -> 0 <= n -> off + n <= Z.of_nat (length b) -> Q (take (Z.to_nat n) (drop (Z.to_nat off) b)) w ->
  twp (read a off n) Q w.
Proof.
  intros Hw Hl H1 H2 H3 HQ. unfold read. apply twp_bind. eapply twp_load_bytes; [done..|].
  by replace ((0 <=? off) && _ && _) with true by lia.
Qed.

(** ** Taking and giving back *)

Lemma holds_ready w0 l w po : holds w0 l w -> ready w0 po -> ready w po.
Proof.
  intros Hw. unfold ready, AwPoolTheorems.usable, AwPoolCalls.target. rewrite (h_global _ _ _ Hw).
  destruct (match po with Some p => Some p | None => _ end) as [p|]; [|done]. simpl. intros [P HP].
  pose proof (f_equal (fun m => m !! p) (h_kin _ _ _ Hw)) as E. unfold kin in E. cbv beta in E.
  rewrite !lookup_fmap, HP in E. destruct (AwPool.pools (pst w) !! p) eqn:EP; [by eexists|done].
Qed.

Lemma twp_in_pool {A} (m : M AwPool.st A) Q R w :
  twp m Q (pst w) -> (forall x s, Q x s -> R x (w <| pst := s |>)) -> twp (in_pool m) R w.
Proof. unfold twp, in_pool. destruct (m (pst w)); auto. Qed.

(** The sizes that the pool handles. *)
Definition fits (n : Z) : Prop := AwPoolCalls.size_ok is_wide n.
Lemma fits_s32 n : fits n -> s32 n = n.
Proof. intros (? & ? & _). apply s32_small. unfold AwPool.sizeof_pm in *. destruct is_wide; lia. Qed.
Lemma has_mem_all s n : 0 < n -> AwPoolCalls.has_mem is_wide sys_malloc s n.
Proof.
  intros Hn. unfold AwPoolCalls.has_mem, AwPoolCalls.has_block. destruct (_ <=? _); apply malloc_some; [done|].
  unfold AwPool.sizeof_pm. destruct is_wide; lia.
Qed.

Lemma usable_some s po : AwPoolTheorems.usable s po ->
  exists p, AwPoolCalls.target s po = Some p /\ AwPoolLife.some_pool is_wide sys_malloc po s = Ok (Some p) s /\
    AwPoolLife.reachable sys_malloc s po.
Proof.
  unfold AwPoolTheorems.usable, AwPoolLife.reachable. destruct (AwPoolCalls.target s po) as [p|] eqn:E; [|done]. simpl.
  intros Hp. exists p. split_and!; [done| |done]. destruct po as [p'|]; [by injection E as ->|].
  unfold AwPoolLife.some_pool, AwPool.global_pool. eapply bind_ok; [done|]. simpl in E. by rewrite E.
Qed.

(** An allocation, as the pool sees it. *)
Lemma palloc_live s po n : AwPoolSpec.wf is_wide s -> AwPoolTheorems.usable s po -> fits n ->
  twp (AwPool.AwPalloc is_wide sys_malloc true po n)
    (fun r s' => exists a q, r = Some a /\ AwPoolSpec.wf is_wide s' /\ AwPoolCalls.live s !! (a - spm) = None /\
       AwPoolCalls.live s' = <[a - spm := (n, q)]> (AwPoolCalls.live s) /\ kin s' = kin s /\
       AwPool.gGolbalPool s' = AwPool.gGolbalPool s) s.
Proof.
  intros W U Hn. destruct (usable_some s po U) as (p & T & E & R). eapply twp_mono.
  - apply twp_both.
    + apply (AwPoolTheorems.palloc_good is_wide sys_malloc malloc_fresh s po n W R Hn).
    + unfold wp. rewrite (AwPoolLife.palloc_unfold is_wide sys_malloc s po p s n ltac:(apply Hn) E).
      apply (keeps_palloc is_wide sys_malloc p n (kin s) s eq_refl).
  - intros r s' [(W' & (v0 & q & O & V & G) & S) K].
    destruct (S ltac:(by rewrite T) (has_mem_all s n ltac:(apply Hn))) as [a ->]. exists a, q.
    unfold AwPoolTheorems.opens in O. rewrite AwPoolTheorems.target_view, T in O. subst v0. destruct G as [G1 G2].
    injection G2 as -> _ ->. done.
Qed.

Lemma twp_palloc w0 l w po n Q : holds w0 l w -> ready w0 po -> fits n ->
  (forall a w', holds w0 ((a, OBytes (replicate (Z.to_nat n) None)) :: l) w' -> Q (Some a) w') -> twp (Palloc po n) Q w.
Proof.
  intros Hw U Hn HQ. unfold Palloc. rewrite fits_s32 by done. apply twp_bind. eapply twp_in_pool.
  - apply palloc_live; [apply Hw|by eapply holds_ready|done].
  - intros r s (a & q & -> & W & Ha & Hl & Hk & Hg). apply twp_bind, twp_modify, twp_ret, HQ.
    destruct Hw as [H0' H1 H2 H3 H4]. split; try done; [|simpl; congruence..]. cbn [pst mem set eta_world]. rewrite Hl.
    apply shape_alloc; [done..|]. cbn [size_of]. rewrite length_replicate, Z2Nat.id; [done|]. apply Z.lt_le_incl, Hn.
Qed.

Lemma twp_pstrdup w0 l w po (t : str) Q : holds w0 l w -> ready w0 po -> fits (Z.of_nat (length t) + 1) ->
  (forall a w', holds w0 ((a, OBytes (map Some (t ++ [0]))) :: l) w' -> Q a w') -> twp (Pstrdup po t) Q w.
Proof.
  intros Hw U Hn HQ. unfold Pstrdup, AwPool.AwStrDup. apply twp_bind. eapply twp_in_pool.
  - apply twp_bind. eapply twp_mono; [apply palloc_live; [apply Hw|by eapply holds_ready|done]|].
    intros r s (a & q & -> & E). apply twp_lift with a; [done|]. exact (ex_intro (fun q => _) q E).
  - intros a s (q & W & Ha & Hl & Hk & Hg). apply twp_bind, twp_modify, twp_ret, HQ.
    destruct Hw as [H0' H1 H2 H3 H4]. split; try done; [|simpl; congruence..]. cbn [pst mem set eta_world]. rewrite Hl.
    apply shape_alloc; [done..|]. cbn [size_of]. rewrite length_map, length_app. simpl. lia.
Qed.

Lemma twp_pfree w0 l l' w po a o Q : holds w0 l w -> ready w0 po -> l ≡ₚ (a, o) :: l' ->
  (forall w', holds w0 l' w' -> Q tt w') -> twp (Pfree po a) Q w.
Proof.
  intros Hw U Hl HQ. rewrite Hl in Hw. unfold Pfree. apply twp_bind. eapply twp_in_pool.
  - apply twp_both; [|apply (keeps_pfree is_wide po a (kin (pst w)) (pst w) eq_refl)].
    assert (is_Some (block w a)) as Ha.
    { by destruct (holds_block _ _ _ _ _ Hw) as (q & ->). }
    pose proof (AwPoolTheorems.pfree_good is_wide sys_malloc malloc_fresh (pst w) po a ltac:(apply Hw)
      (conj (holds_ready _ _ _ _ Hw U) Ha)) as G. unfold twp in *. simpl in G. unfold mbind, M_bind in G.
    destruct (AwPool.AwPfree is_wide po a (pst w)) as [u s| |]; [|done..]. exact G.
  - intros u s [(W & G & _) K]. apply twp_modify, HQ. simpl in G. injection G as G1 _ G3.
    destruct Hw as [H0' H1 H2 H3 H4]. split; try done; [|simpl; congruence..]. cbn [pst mem set eta_world]. rewrite G1.
    by eapply shape_free.
Qed.

Lemma twp_prealloc w0 l l' w po a (b : list (option Z)) n Q : holds w0 l w -> ready w0 po -> l ≡ₚ (a, OBytes b) :: l' ->
  fits n -> Z.of_nat (length b) < n ->
  (forall c w', holds w0 ((c, OBytes (b ++ replicate (Z.to_nat n - length b) None)) :: l') w' -> Q (Some c) w') ->
  twp (Prealloc po a n) Q w.
Proof.
  intros Hw U Hl Hn Hb HQ. rewrite Hl in Hw. unfold Prealloc. rewrite fits_s32 by done.
  apply twp_bind. eapply twp_load_bytes; [done|by left|]. apply twp_bind.
  destruct (holds_block _ _ _ _ _ Hw) as (q & Ea). unfold block in Ea. cbn [size_of] in Ea.
  pose proof (holds_ready _ _ _ _ Hw U) as U'. destruct (usable_some _ _ U') as (p & T & _ & _). eapply twp_in_pool.
  - apply twp_both; [|apply (keeps_realloc is_wide sys_malloc po a n (kin (pst w)) (pst w) eq_refl)].
    refine (AwPoolTheorems.realloc_good is_wide sys_malloc malloc_fresh (pst w) po a n ltac:(apply Hw) _).
    split_and!; [done|by rewrite Ea|done|]. intros _. by apply malloc_some.
  - intros r s [(W & G & S) K]. destruct (S (has_mem_all (pst w) n ltac:(apply Hn))) as [c ->].
    destruct G as (k & q' & p' & G1 & G2 & G). simpl in G1. rewrite Ea in G1. injection G1 as <- <-.
    apply twp_bind, twp_modify, twp_ret, HQ. cbn [mem pst set eta_world]. set (o := OBytes (b ++ _)).
    assert (size_of o = n) as Hs by (cbn [size_of o]; rewrite length_app, length_replicate; lia).
    destruct Hw as [H0' H1 H2 H3 H4]. destruct G as [[-> G]|[Hf G]]; injection G as G _ Gg; split; try done; try (simpl; congruence);
      cbn [mem pst set eta_world]; rewrite G.
    + rewrite insert_delete_eq. eapply shape_set; [exact H2|by rewrite lookup_insert_eq, Hs|].
      intros x Hx. by rewrite lookup_insert_ne.
    + apply shape_alloc; [by eapply shape_free| |done]. simpl in Hf. apply lookup_delete_None. by right.
Qed.

(** ** Pools *)

(** A pool without memory and without children. *)
Definition own_pool w p : Prop :=
  (exists f, kin (pst w) !! p = Some (Some f, [])) /\ forall a n q, block w a = Some (n, q) -> q <> p.

Lemma creatable_all s : AwPoolLife.creatable sys_malloc s.
Proof.
  unfold AwPoolLife.creatable. destruct (malloc_some (AwPool.calls s) (AwPool.heap s) 1024 ltac:(lia)) as [a ->].
  by apply malloc_some.
Qed.

Lemma twp_pool_create w0 Q : sane w0 ->
  (forall p g w1, sane w1 -> mem w1 = mem w0 -> (forall a, block w1 a = block w0 a) -> own_pool w1 p ->
     AwPool.gGolbalPool (pst w1) = Some g -> (p ∉ {[g]} ∪ dom (AwPool.pools (pst w0))) ->
     dom (AwPool.pools (pst w1)) = {[p]} ∪ ({[g]} ∪ dom (AwPool.pools (pst w0))) -> Q p w1) ->
  twp (PoolCreate None) Q w0.
Proof.
  intros [W S] HQ. unfold PoolCreate.
  assert (AwPoolLife.reachable sys_malloc (pst w0) None) as R.
  { unfold AwPoolLife.reachable. simpl. destruct (AwPool.gGolbalPool (pst w0)) as [g|] eqn:E; [|apply creatable_all].
    destruct W as [C _]. destruct (AwPoolSpec.c_global _ _ C g E) as (P & HP & _). by eexists. }
  destruct (AwPoolTheorems.some_pool_view is_wide sys_malloc malloc_fresh (pst w0) None W R)
    as (g & s0 & E1 & [C0 U0] & [G HG] & T0 & L0 & O & _). simpl in T0.
  eapply twp_in_pool with (Q := fun p s' => AwPoolSpec.wf is_wide s' /\ AwPool.pools s0 !! p = None /\
    AwPool.gGolbalPool s' = Some g /\ AwPoolCalls.live s' = AwPoolCalls.live s0 /\
    dom (AwPool.pools s') = {[p]} ∪ dom (AwPool.pools s0) /\ exists P, AwPool.pools s' !! p = Some P /\ AwPool.father P = Some g /\ AwPool.childList P = []).
  - unfold twp. rewrite (AwPoolLife.create_unfold is_wide sys_malloc (pst w0) None g s0 E1).
    eapply twp_mono; [apply (AwPoolLife.create_child_ok is_wide sys_malloc malloc_fresh s0 g G C0 HG (creatable_all s0))|].
    intros p s' (H1 & H2 & H3 & H4 & H5 & H6). split_and!; try done; [|congruence|by apply AwPoolTheorems.pools_set].
    split; [done|]. by eapply AwPoolTheorems.unlocked_set.
  - intros p s' (W1 & H2 & H3 & H4 & H5 & P & HP & HF & HC).
    assert (forall a, block (w0 <| pst := s' |>) a = block w0 a) as Hb by (intros a; unfold block; simpl; by rewrite H4, L0).
    assert (dom (AwPool.pools s0) = {[g]} ∪ dom (AwPool.pools (pst w0))) as Hd.
    { unfold AwPoolTheorems.opens, AwPoolTheorems.view_of in O. simpl in O. destruct (AwPool.gGolbalPool (pst w0)) as [g0|] eqn:Eg.
      - injection O as _ O2 O3. rewrite O2. assert (g0 = g) as -> by congruence. destruct W as [C _].
        destruct (AwPoolSpec.c_global _ _ C g Eg) as (P' & HP' & _). apply elem_of_dom_2 in HP'. set_solver.
      - destruct O as (g' & _ & O). injection O as _ O2 O3. rewrite O2. assert (g' = g) as -> by congruence. done. }
    apply (HQ p g); simpl.
    + split; [done|]. intros a Ha. rewrite Hb. by apply S.
    + done.
    + done.
    + split; [exists g; unfold kin; simpl; by rewrite lookup_fmap, HP; simpl; rewrite HF, HC|]. intros a n q E ->. rewrite Hb in E.
      destruct (AwPoolTheorems.live_pm _ _ _ _ E) as (m & M1 & _ & M2). destruct W as [C _].
      destruct (AwPoolTheorems.home_pool is_wide _ _ _ _ (AwPoolSpec.c_s _ _ C) M1 M2) as [P' HP'].
      apply not_elem_of_dom in H2. rewrite Hd in H2. apply elem_of_dom_2 in HP'. set_solver.
    + done.
    + rewrite <- Hd. by apply not_elem_of_dom.
    + by rewrite H5, Hd.
Qed.

Lemma twp_pool_destroy w1 w p Q : holds w1 [] w -> own_pool w1 p ->
  (forall w', AwPoolSpec.wf is_wide (pst w') -> mem w' = mem w1 -> (forall a, block w' a = block w1 a) ->
     AwPool.gGolbalPool (pst w') = AwPool.gGolbalPool (pst w1) ->
     dom (AwPool.pools (pst w')) = dom (AwPool.pools (pst w1)) ∖ {[p]} -> Q tt w') ->
  twp (PoolDestroy p) Q w.
Proof.
  intros [[W1 S] [C U] [Hm _ _ Ho] Hk Hg] [[f Hf] Hq] HQ. rewrite list_to_map_nil, (left_id_L ∅ (∪)) in Hm.
  pose proof Hf as Hf'. rewrite <- Hk in Hf'. unfold kin in Hf'. rewrite lookup_fmap in Hf'.
  destruct (AwPool.pools (pst w) !! p) as [P|] eqn:EP; [|done]. simpl in Hf'. injection Hf' as F1 F2.
  unfold PoolDestroy. apply twp_bind. eapply twp_in_pool; [apply (AwPoolLife.destroy_call is_wide (pst w) p P C EP F2); by rewrite F1|].
  intros u s (H1 & H2 & H3 & H4). apply twp_modify.
  assert (AwPoolCalls.live s = AwPoolCalls.live (pst w)) as Hl.
  { unfold AwPoolLife.only_without in H4. rewrite H4. apply map_filter_id. intros x [n q] E. simpl. apply (Hq (x + spm) n).
    rewrite <- (Ho (x + spm) ltac:(apply not_elem_of_nil)). replace (x + spm - spm) with x by lia. done. }
  assert (forall a, AwPoolCalls.live s !! (a - spm) = block w1 a) as Hb.
  { intros a. rewrite Hl. apply Ho, not_elem_of_nil. }
  apply HQ; cbn [pst mem set eta_world].
  - split; [done|]. by eapply AwPoolTheorems.unlocked_delete.
  - rewrite Hm. apply map_filter_id. intros a o E. simpl. destruct (S a ltac:(by rewrite E)) as [e He]. rewrite <- Hb in He.
    rewrite AwPoolCalls.live_lookup in He. destruct (AwPool.pms s !! _); [by eexists|done].
  - done.
  - by rewrite H3.
  - rewrite (AwPoolTheorems.pools_delete (pst w) s p H2). f_equal. unfold kin in Hk.
    by rewrite <- (dom_fmap_L (fun P => (AwPool.father P, AwPool.childList P)) (AwPool.pools (pst w))), Hk, dom_fmap_L.
Qed.

(** ** Worlds *)

(** The same contents in the same memory. *)
Definition same w w' : Prop := mem w' = mem w /\ forall a, block w' a = block w a.
Lemma holds_same w0 w : holds w0 [] w -> same w0 w.
Proof.
  intros [_ _ [Hm _ _ Ho] _ _]. rewrite list_to_map_nil, (left_id_L ∅ (∪)) in Hm. split; [done|].
  intros a. apply Ho, not_elem_of_nil.
Qed.

Definition nothing : world := mkWorld AwPool.init ∅.
Lemma sane_nothing : sane nothing.
Proof. split; [apply AwPoolTheorems.wf_init|]. intros a [o Ho]. simpl in Ho. by rewrite lookup_empty in Ho. Qed.

Lemma own_ready w p : own_pool w p -> ready w (Some p).
Proof.
  intros [[f Hf] _]. unfold ready, AwPoolTheorems.usable. simpl. unfold kin in Hf. rewrite lookup_fmap in Hf.
  destruct (AwPool.pools (pst w) !! p); [by eexists|done].
Qed.
Lemma world_start : exists p w, PoolCreate None nothing = Ok p w /\ sane w /\ ready w (Some p).
Proof.
  apply (twp_elim (PoolCreate None) (fun p w => sane w /\ ready w (Some p)) nothing), twp_pool_create; [apply sane_nothing|].
  intros p g w1 S _ _ O _ _ _. split; [done|]. by apply own_ready.
Qed.
End rules.

(** A machine whose [malloc] always has memory. *)
Definition endless (k : nat) (h : gmap Z Z) (n : Z) : option Z := AwPoolTheorems.bump (S k) k h n.
#[export] Instance endless_env : Env := mkEnv true endless.
#[export] Instance endless_memory : Memory.
Proof.
  split; simpl; unfold endless.
  - intros k h n b Hn. by apply AwPoolTheorems.bump_fresh.
  - intros k h n Hn. unfold AwPoolTheorems.bump. rewrite bool_decide_true by lia. replace (0 <? n) with true by lia. by eexists.
Qed.
End PoolMemSpec.
