(* ===== verification/CdxMeta.v ===== *)
(** Named values attached to a buffer, [libcedarx/libcore/base/CdxMeta.c] and the calls of
    [CdxMeta.h], which go through the table of operations.

    [CDX_CHECK] and [CDX_FORCE_CHECK] do nothing in a release.  Names are the characters before the NUL.
    The intrusive lists are lists of addresses, as [CdxListSpec] justifies. *)

From Stdlib Require Import ZArith Lia.
From stdpp Require Import base list list_numbers numbers gmap.
From S2P Require Import Prelude AwPool PoolMem.

Open Scope list_scope.
Open Scope Z_scope.

Module CdxMeta.
Import PoolMem.

Definition CDX_META_ITEM_NAMESIZE : nat := 32.

(** * Names *)

(** [strncpy(item->name, name, CDX_META_ITEM_NAMESIZE)]: the array. *)
Definition strncpy_name (nm : str) : list Z := take CDX_META_ITEM_NAMESIZE (nm ++ replicate CDX_META_ITEM_NAMESIZE 0).
(** [strcmp(item->name, name) == 0]; reading past the array is undefined. *)
Fixpoint strcmp_name (arr nm : list Z) : option bool :=
  match arr, nm with
  | [], _ => None
  | x :: _, [] => Some (x =? 0)
  | x :: arr, y :: nm => if x =? y then strcmp_name arr nm else Some false
  end.
(** What [strncpy] takes from the array of an item. *)
Fixpoint name_chars (arr : list Z) : str :=
  match arr with
  | [] => []
  | x :: arr => if x =? 0 then [] else x :: name_chars arr
  end.

(** * Lists *)

Definition list_of (k : kind) (m : CdxMetaImpl) : list Z :=
  match k with
  | KInt32 => mInt32List m | KInt64 => mInt64List m | KString => mStringList m | KData => mDataList m
  | KObject => mObjectList m
  end.
Definition set_list (k : kind) (l : list Z) (m : CdxMetaImpl) : CdxMetaImpl :=
  match k with
  | KInt32 => m <| mInt32List := l |> | KInt64 => m <| mInt64List := l |> | KString => m <| mStringList := l |>
  | KData => m <| mDataList := l |> | KObject => m <| mObjectList := l |>
  end.

Section meta.
Context `{Env}.

(** The fields of a new item, and [CdxListAdd]. *)
Definition add_item (meta item : Z) (nm : str) (v : value) : M world unit :=
  store item (OItem (mkItem (strncpy_name nm) v));;
  m ← load_meta meta;
  store meta (OMeta (set_list (kind_of v) (item :: list_of (kind_of v) m) m)).
(** [CdxListDel(&item->node)] *)
Definition del_item (k : kind) (meta item : Z) : M world unit :=
  m ← load_meta meta;
  l ← lift (AwPool.del item (list_of k m));
  store meta (OMeta (set_list k l m)).
(** Strings and data are freed before their item. *)
Definition free_item (pool : option Z) (item : Z) (v : value) : M world unit :=
  match v with
  | String p | Data p _ => Pfree pool p
  | _ => mret tt
  end;;
  Pfree pool item.

(** The loop that looks for a name: the item and its value. *)
Fixpoint find_item (l : list Z) (nm : str) : M world (option (Z * value)) :=
  match l with
  | [] => mret None
  | pos :: l =>
      i ← load_item pos;
      eq ← lift (strcmp_name (name i) nm);
      if (eq : bool) then mret (Some (pos, val i)) else find_item l nm
  end.
(** -1 when there is none. *)
Definition remove_item (k : kind) (meta : Z) (nm : str) : M world Z :=
  m ← load_meta meta;
  r ← find_item (list_of k m) nm;
  match r with
  | None => mret (-1)
  | Some (item, v) => del_item k meta item;; free_item (meta_pool m) item v;; mret 0
  end.

(** * References *)

Fixpoint clear_list (k : kind) (meta : Z) (l : list Z) : M world unit :=
  match l with
  | [] => mret tt
  | pos :: l =>
      i ← load_item pos;
      del_item k meta pos;;
      m ← load_meta meta;
      free_item (meta_pool m) pos (val i);;
      clear_list k meta l
  end.
Definition __CdxMetaClear (meta : Z) : M world unit :=
  m ← load_meta meta; clear_list KInt32 meta (mInt32List m);;
  m ← load_meta meta; clear_list KInt64 meta (mInt64List m);;
  m ← load_meta meta; clear_list KString meta (mStringList m);;
  m ← load_meta meta; clear_list KData meta (mDataList m);;
  m ← load_meta meta; clear_list KObject meta (mObjectList m).
Definition CdxMetaClear : Z -> M world unit := __CdxMetaClear.

Definition __CdxMetaIncRef (meta : Z) : M world Z :=
  m ← load_meta meta; store meta (OMeta (m <| meta_mRef ::= Z.add 1 |>));; mret meta.
Definition __CdxMetaDecRef (meta : Z) : M world unit :=
  m ← load_meta meta;
  let r := meta_mRef m - 1 in
  store meta (OMeta (m <| meta_mRef := r |>));;
  if s32 r =? 0 then CdxMetaClear meta;; Pfree (meta_pool m) meta else mret tt.
Definition CdxMetaIncRef : Z -> M world Z := __CdxMetaIncRef.
Definition CdxMetaDecRef : Z -> M world unit := __CdxMetaDecRef.

(** * Values *)

Definition __CdxMetaSetInt32 (meta : Z) (nm : str) (v : Z) : M world Z :=
  m ← load_meta meta;
  p ← Palloc (meta_pool m) (sizeof_item KInt32);
  item ← lift p;
  add_item meta item nm (Int32 v);; mret 0.
Definition __CdxMetaFindInt32 (meta : Z) (nm : str) : M world (option Z) :=
  m ← load_meta meta;
  r ← find_item (mInt32List m) nm;
  match r with Some (_, Int32 v) => mret (Some v) | Some _ => undef | None => mret None end.
Definition __CdxMetaRemoveInt32 : Z -> str -> M world Z := remove_item KInt32.

Definition __CdxMetaSetInt64 (meta : Z) (nm : str) (v : Z) : M world Z :=
  m ← load_meta meta;
  p ← Palloc (meta_pool m) (sizeof_item KInt64);
  match p with
  | None => mret (-1)
  | Some item => add_item meta item nm (Int64 v);; mret 0
  end.
Definition __CdxMetaFindInt64 (meta : Z) (nm : str) : M world (option Z) :=
  m ← load_meta meta;
  r ← find_item (mInt64List m) nm;
  match r with Some (_, Int64 v) => mret (Some v) | Some _ => undef | None => mret None end.
Definition __CdxMetaRemoveInt64 : Z -> str -> M world Z := remove_item KInt64.

(** [Pstrdup] writes through a null pointer before its result can be tested. *)
Definition __CdxMetaSetString (meta : Z) (nm s : str) : M world Z :=
  m ← load_meta meta;
  p ← Palloc (meta_pool m) (sizeof_item KString);
  match p with
  | None => mret (-1)
  | Some item => q ← Pstrdup (meta_pool m) s; add_item meta item nm (String q);; mret 0
  end.
Definition __CdxMetaFindString (meta : Z) (nm : str) : M world (option Z) :=
  m ← load_meta meta;
  r ← find_item (mStringList m) nm;
  match r with Some (_, String p) => mret (Some p) | Some _ => undef | None => mret None end.
Definition __CdxMetaAppendString (meta : Z) (nm s : str) : M world Z :=
  m ← load_meta meta;
  r ← find_item (mStringList m) nm;
  match r with
  | Some (item, String p) =>
      b ← load_bytes p;
      old ← lift (cstr b);
      let newStrLen := s32 (Z.of_nat (length old + length s)) in
      n ← iadd newStrLen 1;
      q ← Prealloc (meta_pool m) p n;
      q ← lift q;
      i ← load_item item;
      store item (OItem (mkItem (name i) (String q)));;
      write q (Z.of_nat (length old)) (map Some (s ++ [0]));;
      mret 0
  | Some _ => undef
  | None => mret (-1)
  end.
Definition __CdxMetaRemoveString : Z -> str -> M world Z := remove_item KString.

Definition __CdxMetaSetData (meta : Z) (nm : str) (d : list (option Z)) : M world Z :=
  m ← load_meta meta;
  p ← Palloc (meta_pool m) (sizeof_item KData);
  item ← lift p;
  let size := Z.of_nat (length d) in
  q ← Palloc (meta_pool m) size;
  q ← lift q;
  write q 0 d;;
  add_item meta item nm (Data q size);; mret 0.
Definition __CdxMetaFindData (meta : Z) (nm : str) : M world (option (Z * Z)) :=
  m ← load_meta meta;
  r ← find_item (mDataList m) nm;
  match r with Some (_, Data p n) => mret (Some (p, n)) | Some _ => undef | None => mret None end.
Definition __CdxMetaRemoveData : Z -> str -> M world Z := remove_item KData.

Definition __CdxMetaSetObject (meta : Z) (nm : str) (p : Z) : M world Z :=
  m ← load_meta meta;
  q ← Palloc (meta_pool m) (sizeof_item KObject);
  match q with
  | None => mret (-1)
  | Some item => add_item meta item nm (Object p);; mret 0
  end.
Definition __CdxMetaFindObject (meta : Z) (nm : str) : M world (option Z) :=
  m ← load_meta meta;
  r ← find_item (mObjectList m) nm;
  match r with Some (_, Object p) => mret (Some p) | Some _ => undef | None => mret None end.
Definition __CdxMetaRemoveObject : Z -> str -> M world Z := remove_item KObject.

(** The calls of the header; not all operations of the table have one. *)
Definition CdxMetaSetInt32 : Z -> str -> Z -> M world Z := __CdxMetaSetInt32.
Definition CdxMetaFindInt32 : Z -> str -> M world (option Z) := __CdxMetaFindInt32.
Definition CdxMetaRemoveInt32 : Z -> str -> M world Z := __CdxMetaRemoveInt32.
Definition CdxMetaSetInt64 : Z -> str -> Z -> M world Z := __CdxMetaSetInt64.
Definition CdxMetaFindInt64 : Z -> str -> M world (option Z) := __CdxMetaFindInt64.
Definition CdxMetaSetString : Z -> str -> str -> M world Z := __CdxMetaSetString.
Definition CdxMetaFindString : Z -> str -> M world (option Z) := __CdxMetaFindString.
Definition CdxMetaAppendString : Z -> str -> str -> M world Z := __CdxMetaAppendString.
Definition CdxMetaSetData : Z -> str -> list (option Z) -> M world Z := __CdxMetaSetData.
Definition CdxMetaFindData : Z -> str -> M world (option (Z * Z)) := __CdxMetaFindData.
Definition CdxMetaSetObject : Z -> str -> Z -> M world Z := __CdxMetaSetObject.
Definition CdxMetaFindObject : Z -> str -> M world (option Z) := __CdxMetaFindObject.
Definition CdxMetaRemoveObject : Z -> str -> M world Z := __CdxMetaRemoveObject.

(** * Creation and copies *)

Definition __CdxMetaCreate (pool : option Z) : M world Z :=
  p ← Palloc pool sizeof_meta;
  impl ← lift p;
  store impl (OMeta (mkMeta pool [] [] [] [] [] 1));; mret impl.
Definition CdxMetaDestroy (meta : Z) : M world unit := __CdxMetaDecRef meta.

Definition dup_value (newMeta : Z) (nm : str) (v : value) : M world Z :=
  match v with
  | Int32 v => CdxMetaSetInt32 newMeta nm v
  | Int64 v => CdxMetaSetInt64 newMeta nm v
  | String p => b ← load_bytes p; s ← lift (cstr b); CdxMetaSetString newMeta nm s
  | Data p n => d ← read p 0 n; CdxMetaSetData newMeta nm d
  | Object p => CdxMetaSetObject newMeta nm p
  end.
Fixpoint dup_list (newMeta : Z) (l : list Z) : M world unit :=
  match l with
  | [] => mret tt
  | pos :: l => i ← load_item pos; dup_value newMeta (name_chars (name i)) (val i);; dup_list newMeta l
  end.
Definition __CdxMetaDup (meta : Z) : M world Z :=
  m ← load_meta meta;
  newMeta ← __CdxMetaCreate (meta_pool m);
  dup_list newMeta (mInt32List m);;
  dup_list newMeta (mInt64List m);;
  dup_list newMeta (mStringList m);;
  dup_list newMeta (mDataList m);;
  dup_list newMeta (mObjectList m);;
  mret newMeta.
Definition CdxMetaDup : Z -> M world Z := __CdxMetaDup.
End meta.

End CdxMeta.
