(* ===== verification/CdxMetaSpec.v ===== *)
(** Metas against a stack of named values: the newest value of a name and kind is the one that is
    found ([CdxMetaSpec]); each call on a meta, sessions of calls and copies, and where the code
    departs from this ([CdxMetaTheorems]). *)

From Stdlib Require Import ZArith Lia.
From stdpp Require Import base list list_numbers numbers gmap fin_maps.
From S2P Require Import Prelude AwPool AwPoolSpec AwPoolCalls AwPoolTheorems PoolMem PoolMemSpec CdxMeta.

Open Scope list_scope.
Open Scope Z_scope.

Module CdxMetaSpec.
Import PoolMem PoolMemSpec CdxMeta.

(** * The abstract meta *)

Inductive aval := AInt32 (v : Z) | AInt64 (v : Z) | AString (s : str) | AData (d : list (option Z)) | AObject (p : Z).
Definition akind (v : aval) : kind :=
  match v with AInt32 _ => KInt32 | AInt64 _ => KInt64 | AString _ => KString | AData _ => KData | AObject _ => KObject end.

Abbreviation stack := (list (str * aval)).
Definition is_for (k : kind) (nm : str) (e : str * aval) : bool := bool_decide (akind e.2 = k /\ e.1 = nm).

Fixpoint aget (k : kind) (nm : str) (st : stack) : option aval :=
  match st with
  | [] => None
  | e :: st => if is_for k nm e then Some e.2 else aget k nm st
  end.
Fixpoint adel (k : kind) (nm : str) (st : stack) : stack :=
  match st with
  | [] => []
  | e :: st => if is_for k nm e then st else e :: adel k nm st
  end.
Fixpoint aappend (nm s : str) (st : stack) : stack :=
  match st with
  | [] => []
  | (n, AString t) :: st => if bool_decide (n = nm) then (n, AString (t ++ s)) :: st else (n, AString t) :: aappend nm s st
  | e :: st => e :: aappend nm s st
  end.

(** A copy: the lists one after the other, each backwards. *)
Definition kinds : list kind := [KInt32; KInt64; KString; KData; KObject].
Definition adup (st : stack) : stack := reverse (kinds ≫= fun k => filter (fun e => akind e.2 = k) st).

(** * Sessions *)

Inductive op := Set_ (nm : str) (v : aval) | Find (k : kind) (nm : str) | Remove (k : kind) (nm : str)
  | Append (nm s : str) | Clear.
Inductive result := Code (z : Z) | Found (v : option aval).

Definition astep (o : op) (st : stack) : stack * result :=
  match o with
  | Set_ nm v => ((nm, v) :: st, Code 0)
  | Find k nm => (st, Found (aget k nm st))
  | Remove k nm => (adel k nm st, Code (if aget k nm st is Some _ then 0 else -1))
  | Append nm s => (aappend nm s st, Code (if aget KString nm st is Some _ then 0 else -1))
  | Clear => ([], Code 0)
  end.
Fixpoint arun (ops : list op) (st : stack) : stack * list result :=
  match ops with
  | [] => (st, [])
  | o :: ops => let '(st, r) := astep o st in let '(st, rs) := arun ops st in (st, r :: rs)
  end.

Section exec.
Context `{Env}.

Definition code (m : M world Z) : M world result := z ← m; mret (Code z).
(** The calls, and for strings and data the use of the pointer that was found. *)
Definition exec (meta : Z) (o : op) : M world result :=
  match o with
  | Set_ nm (AInt32 v) => code (CdxMetaSetInt32 meta nm v)
  | Set_ nm (AInt64 v) => code (CdxMetaSetInt64 meta nm v)
  | Set_ nm (AString s) => code (CdxMetaSetString meta nm s)
  | Set_ nm (AData d) => code (CdxMetaSetData meta nm d)
  | Set_ nm (AObject p) => code (CdxMetaSetObject meta nm p)
  | Find KInt32 nm => r ← CdxMetaFindInt32 meta nm; mret (Found (AInt32 <$> r))
  | Find KInt64 nm => r ← CdxMetaFindInt64 meta nm; mret (Found (AInt64 <$> r))
  | Find KString nm =>
      r ← CdxMetaFindString meta nm;
      match r with
      | None => mret (Found None)
      | Some p => b ← load_bytes p; s ← lift (cstr b); mret (Found (Some (AString s)))
      end
  | Find KData nm =>
      r ← CdxMetaFindData meta nm;
      match r with
      | None => mret (Found None)
      | Some (p, n) => d ← read p 0 n; mret (Found (Some (AData d)))
      end
  | Find KObject nm => r ← CdxMetaFindObject meta nm; mret (Found (AObject <$> r))
  | Remove KInt32 nm => code (CdxMetaRemoveInt32 meta nm)
  | Remove KInt64 nm => code (__CdxMetaRemoveInt64 meta nm)
  | Remove KString nm => code (__CdxMetaRemoveString meta nm)
  | Remove KData nm => code (__CdxMetaRemoveData meta nm)
  | Remove KObject nm => code (CdxMetaRemoveObject meta nm)
  | Append nm s => code (CdxMetaAppendString meta nm s)
  | Clear => CdxMetaClear meta;; mret (Code 0)
  end.
Fixpoint run (meta : Z) (ops : list op) : M world (list result) :=
  match ops with
  | [] => mret []
  | o :: ops => r ← exec meta o; rs ← run meta ops; mret (r :: rs)
  end.

(** Names have less than 32 characters, as the header asks; strings that are appended are not
    empty, nor is data; and the pool handles the sizes. *)
Definition name_ok (nm : str) : Prop := (length nm < 32)%nat /\ (0 ∉ nm).
Definition val_ok (v : aval) : Prop :=
  match v with
  | AString s => (0 ∉ s) /\ fits (Z.of_nat (length s) + 1)
  | AData d => fits (Z.of_nat (length d))
  | _ => True
  end.
Definition legal (o : op) (st : stack) : Prop :=
  match o with
  | Set_ nm v => name_ok nm /\ val_ok v
  | Find _ nm | Remove _ nm => 0 ∉ nm
  | Append nm s => (0 ∉ nm) /\ (0 ∉ s) /\ s <> [] /\
      match aget KString nm st with Some (AString t) => val_ok (AString (t ++ s)) | _ => True end
  | Clear => True
  end.
Fixpoint legal_run (ops : list op) (st : stack) : Prop :=
  match ops with [] => True | o :: ops => legal o st /\ legal_run ops (astep o st).1 end.

(** * The representation *)

(** An entry of the stack with the address of its item and of its string or data. *)
Record entry := mkEntry { e_item : Z; e_ptr : Z; e_name : str; e_val : aval }.
Definition conc (e : entry) : value :=
  match e_val e with
  | AInt32 v => Int32 v
  | AInt64 v => Int64 v
  | AString _ => String (e_ptr e)
  | AData d => Data (e_ptr e) (Z.of_nat (length d))
  | AObject p => Object p
  end.
Definition extra (e : entry) : list (Z * obj) :=
  match e_val e with
  | AString s => [(e_ptr e, OBytes (map Some (s ++ [0])))]
  | AData d => [(e_ptr e, OBytes d)]
  | _ => []
  end.
Definition the_item (e : entry) : CdxMetaItem := mkItem (strncpy_name (e_name e)) (conc e).
Definition objs (e : entry) : list (Z * obj) := (e_item e, OItem (the_item e)) :: extra e.
Definition all_objs (es : list entry) : list (Z * obj) := es ≫= objs.

Definition abs (es : list entry) : stack := map (fun e => (e_name e, e_val e)) es.
Definition items (k : kind) (es : list entry) : list Z := map e_item (filter (fun e => akind (e_val e) = k) es).
Definition meta_of (po : option Z) (r : Z) (es : list entry) : CdxMetaImpl :=
  mkMeta po (items KInt32 es) (items KInt64 es) (items KString es) (items KData es) (items KObject es) r.
Definition good (e : entry) : Prop := name_ok (e_name e) /\ val_ok (e_val e).

(** The meta, held [r] times, and what belongs to it. *)
Definition owned (po : option Z) (r meta : Z) (es : list entry) : list (Z * obj) :=
  (meta, OMeta (meta_of po r es)) :: all_objs es.
Definition rep (w0 : world) (po : option Z) (r meta : Z) (es : list entry) (rest : list (Z * obj)) (w : world) : Prop :=
  holds w0 (owned po r meta es ++ rest) w /\ Forall good es.
End exec.

(** * Names *)

Lemma strcmp_copy n : forall m k j, (0 ∉ n) -> (0 ∉ m) -> (length n < k)%nat -> (k <= length n + j)%nat ->
  strcmp_name (take k (n ++ replicate j 0)) m = Some (bool_decide (n = m)).
Proof.
  induction n as [|x n IH]; intros m k j Hn Hm Hk Hj.
  - destruct k as [|k], j as [|j]; try (simpl in *; lia). cbn [take app replicate strcmp_name].
    destruct m as [|y m]; [by rewrite bool_decide_true|].
    apply not_elem_of_cons in Hm as [Hm _]. rewrite (proj2 (Z.eqb_neq 0 y)) by congruence. by rewrite bool_decide_false.
  - destruct k as [|k]; [simpl in *; lia|]. apply not_elem_of_cons in Hn as [Hx Hn]. cbn [take app strcmp_name]. destruct m as [|y m].
    + rewrite (proj2 (Z.eqb_neq x 0)) by congruence. by rewrite bool_decide_false.
    + apply not_elem_of_cons in Hm as [Hy Hm]. destruct (Z.eqb_spec x y) as [->|Hne].
      * rewrite IH by (done || (simpl in *; lia)). f_equal. apply bool_decide_ext. split; [by intros ->|by intros [=]].
      * rewrite bool_decide_false; [done|]. by intros [=].
Qed.
Lemma strcmp_ok n m : name_ok n -> (0 ∉ m) -> strcmp_name (strncpy_name n) m = Some (bool_decide (n = m)).
Proof. intros [H1 H2] Hm. apply strcmp_copy; try done. unfold CDX_META_ITEM_NAMESIZE. lia. Qed.

Lemma chars_copy n : forall k j, (0 ∉ n) -> (length n < k)%nat -> (k <= length n + j)%nat ->
  name_chars (take k (n ++ replicate j 0)) = n.
Proof.
  induction n as [|x n IH]; intros k j Hn Hk Hj.
  - by destruct k as [|k], j as [|j]; try (simpl in *; lia).
  - destruct k as [|k]; [simpl in *; lia|]. apply not_elem_of_cons in Hn as [Hx Hn]. cbn [take app name_chars].
    rewrite (proj2 (Z.eqb_neq x 0)) by congruence. f_equal. apply IH; try done; simpl in *; lia.
Qed.
Lemma chars_ok n : name_ok n -> name_chars (strncpy_name n) = n.
Proof. intros [H1 H2]. apply chars_copy; try done. unfold CDX_META_ITEM_NAMESIZE. lia. Qed.

Lemma cstr_ok (s : str) rest : (0 ∉ s) -> cstr (map Some (s ++ [0]) ++ rest) = Some s.
Proof.
  induction s as [|x s IH]; intros Hs; [done|]. apply not_elem_of_cons in Hs as [Hx Hs]. cbn [map app cstr].
  rewrite (proj2 (Z.eqb_neq x 0)) by congruence. by rewrite IH.
Qed.
Lemma cstr_own (s : str) : (0 ∉ s) -> cstr (map Some (s ++ [0])) = Some s.
Proof. intros Hs. rewrite <- (app_nil_r (map Some (s ++ [0]))). by apply cstr_ok. Qed.

(** * Entries *)

Fixpoint efind (k : kind) (nm : str) (es : list entry) : option entry :=
  match es with
  | [] => None
  | e :: es => if is_for k nm (e_name e, e_val e) then Some e else efind k nm es
  end.

Lemma aget_abs k nm es : aget k nm (abs es) = e_val <$> efind k nm es.
Proof. induction es as [|e es IH]; [done|]. simpl. by destruct (is_for _ _ _). Qed.

Lemma efind_none k nm es : efind k nm es = None -> adel k nm (abs es) = abs es.
Proof.
  induction es as [|e es IH]; [done|]. simpl. destruct (is_for _ _ _); [done|]. intros H. by rewrite IH.
Qed.
Lemma efind_some k nm es e : efind k nm es = Some e -> exists es1 es2, es = es1 ++ e :: es2 /\
  akind (e_val e) = k /\ e_name e = nm /\ adel k nm (abs es) = abs (es1 ++ es2).
Proof.
  induction es as [|x es IH]; [done|]. simpl. destruct (is_for k nm _) eqn:E.
  - intros [= <-]. unfold is_for in E. apply bool_decide_eq_true in E as [E1 E2]. by exists [], es.
  - intros (es1 & es2 & -> & H1 & H2 & H3)%IH. exists (x :: es1), es2. by rewrite H3.
Qed.

Lemma aappend_none nm s es : efind KString nm es = None -> aappend nm s (abs es) = abs es.
Proof.
  induction es as [|[i p n v] es IH]; [done|]. simpl. unfold is_for. simpl. destruct (bool_decide _) eqn:E; [done|].
  intros H. apply bool_decide_eq_false in E. destruct v; simpl in *; rewrite ?IH by done; try done.
  rewrite bool_decide_false; [done|]. naive_solver.
Qed.
Lemma aappend_some nm s es e t : efind KString nm es = Some e -> e_val e = AString t -> exists es1 es2, es = es1 ++ e :: es2 /\
  e_name e = nm /\ forall i p, aappend nm s (abs es) = abs (es1 ++ mkEntry i p nm (AString (t ++ s)) :: es2).
Proof.
  induction es as [|x es IH]; [done|]. simpl. unfold is_for. simpl. destruct (bool_decide _) eqn:E.
  - intros [= ->] Hv. apply bool_decide_eq_true in E as [E1 E2]. exists [], es. split_and!; [done|done|]. intros i p. simpl.
    by rewrite Hv, E2, bool_decide_true.
  - intros H Hv. destruct (IH H Hv) as (es1 & es2 & -> & Hn & Ha). exists (x :: es1), es2. split_and!; [done|done|]. intros i p.
    apply bool_decide_eq_false in E. destruct x as [xi xp xn xv]; simpl in *.
    destruct xv; rewrite (Ha i p); try done. rewrite bool_decide_false; [done|]. naive_solver.
Qed.

Lemma items_app k es1 es2 : items k (es1 ++ es2) = items k es1 ++ items k es2.
Proof. unfold items. by rewrite filter_app, map_app. Qed.
Lemma items_cons k e es : items k (e :: es) = (if bool_decide (akind (e_val e) = k) then [e_item e] else []) ++ items k es.
Proof. unfold items. rewrite filter_cons. case_decide; [by rewrite bool_decide_true|by rewrite bool_decide_false]. Qed.
Lemma items_in k es a : a ∈ items k es -> a ∈ map e_item es.
Proof.
  unfold items. intros (e & -> & He)%list_elem_of_fmap. apply list_elem_of_filter in He as [_ He]. by apply list_elem_of_fmap_2.
Qed.
Lemma items_nil es : (forall k, items k es = []) -> es = [].
Proof. destruct es as [|e es]; [done|]. intros H. specialize (H (akind (e_val e))). by rewrite items_cons, bool_decide_true in H. Qed.

(** The first item of a list. *)
Lemma items_first k es a l : items k es = a :: l -> exists es1 e es2, es = es1 ++ e :: es2 /\ e_item e = a /\
  akind (e_val e) = k /\ items k (es1 ++ es2) = l /\ forall k', k' <> k -> items k' (es1 ++ es2) = items k' es.
Proof.
  induction es as [|x es IH]; [done|]. rewrite items_cons. destruct (decide (akind (e_val x) = k)) as [Hk|Hk].
  - rewrite bool_decide_true by done. intros [= Ha <-]. exists [], x, es. split_and!; try done. intros k' Hk'. simpl.
    rewrite items_cons, bool_decide_false; [done|congruence].
  - rewrite bool_decide_false by done. simpl. intros H. destruct (IH H) as (es1 & e & es2 & -> & H1 & H2 & H3 & H4).
    exists (x :: es1), e, es2. split_and!; try done.
    + simpl. by rewrite items_cons, bool_decide_false.
    + intros k' Hk'. simpl. rewrite !items_cons. by rewrite H4.
Qed.

Lemma list_of_meta k po r es : list_of k (meta_of po r es) = items k es.
Proof. by destruct k. Qed.
Lemma set_list_meta k po r es es' : (forall k', k' <> k -> items k' es' = items k' es) ->
  set_list k (items k es') (meta_of po r es) = meta_of po r es'.
Proof. intros H. unfold meta_of. destruct k; simpl; f_equal; first [reflexivity|by rewrite H]. Qed.

Lemma all_objs_middle es1 e es2 : all_objs (es1 ++ e :: es2) ≡ₚ objs e ++ all_objs (es1 ++ es2).
Proof. unfold all_objs. rewrite !bind_app, bind_cons. solve_Permutation. Qed.
Lemma all_objs_items es : map e_item es ⊆ (all_objs es).*1.
Proof.
  intros a (e & -> & He)%list_elem_of_fmap. apply list_elem_of_fmap. exists (e_item e, OItem (the_item e)). split; [done|].
  apply list_elem_of_bind. exists e. split; [by left|done].
Qed.
Lemma item_in e es : e ∈ es -> (e_item e, OItem (the_item e)) ∈ all_objs es.
Proof. intros He. apply list_elem_of_bind. exists e. split; [by left|done]. Qed.
Lemma extra_in e es x : e ∈ es -> x ∈ extra e -> x ∈ all_objs es.
Proof. intros He Hx. apply list_elem_of_bind. exists e. split; [by right|done]. Qed.

(** The item of an entry is not among those of the others. *)
Lemma item_once es1 e es2 : NoDup (all_objs (es1 ++ e :: es2)).*1 -> (e_item e ∉ map e_item (es1 ++ es2)).
Proof.
  rewrite all_objs_middle. unfold objs. simpl. intros [H _]%NoDup_cons Hin. apply H. rewrite fmap_app. apply elem_of_app. right.
  by apply all_objs_items.
Qed.
Lemma del_middle k es1 e es2 : akind (e_val e) = k -> NoDup (all_objs (es1 ++ e :: es2)).*1 ->
  AwPool.del (e_item e) (items k (es1 ++ e :: es2)) = Some (items k (es1 ++ es2)).
Proof.
  intros Hk Hn. pose proof (item_once _ _ _ Hn) as Ho. rewrite !items_app, items_cons, bool_decide_true by done.
  rewrite AwPoolCalls.del_ok by set_solver. f_equal. rewrite !filter_app. simpl. rewrite filter_cons_False by auto.
  rewrite map_app in Ho. apply not_elem_of_app in Ho as [H1 H2].
  rewrite filter_nil, !AwPoolSpec.filter_ne; [done|intros Ha; by apply items_in in Ha..].
Qed.

End CdxMetaSpec.

Module CdxMetaTheorems.
Import PoolMem PoolMemSpec CdxMeta CdxMetaSpec.

Section calls.
Context `{Memory} (w0 : world) (po : option Z).
Hypothesis pool_ready : ready w0 po.
Implicit Types (w : world) (rest l : list (Z * obj)) (es : list entry) (e : entry).
Abbreviation rep := (rep w0 po).
Abbreviation holds := (holds w0).

Lemma fits_small n : 0 < n <= 200 -> fits n.
Proof.
  intros Hn. unfold fits, AwPoolCalls.size_ok. pose proof (AwPoolSpec.room_range is_wide n).
  pose proof (AwPoolSpec.spm_range is_wide). unfold AwPool.POOL_LARGE_SIZE. lia.
Qed.
Lemma fits_item k : fits (sizeof_item k).
Proof. apply fits_small. unfold sizeof_item. destruct k, is_wide; lia. Qed.
Lemma fits_meta : fits sizeof_meta.
Proof. apply fits_small. unfold sizeof_meta. destruct is_wide; lia. Qed.
Lemma size_item k : Z.of_nat (length (replicate (Z.to_nat (sizeof_item k)) (@None Z))) = sizeof_item k.
Proof. rewrite length_replicate. unfold sizeof_item. destruct k, is_wide; lia. Qed.

Lemma kind_conc e : kind_of (conc e) = akind (e_val e).
Proof. unfold conc. by destruct (e_val e). Qed.

Lemma twp_load_rep r meta es rest w Q : rep r meta es rest w -> Q (meta_of po r es) w -> twp (load_meta meta) Q w.
Proof. intros [Hw _] HQ. eapply twp_load_meta; [exact Hw|by left|done]. Qed.

(** ** Adding *)

(** An item in new memory, whose string or data is in place. *)
Lemma add_item_ok r meta es rest w e Q :
  holds ((e_item e, OBytes (replicate (Z.to_nat (sizeof_item (akind (e_val e)))) None)) :: extra e ++ owned po r meta es ++ rest) w ->
  Forall good es -> good e -> (forall w', rep r meta (e :: es) rest w' -> Q tt w') ->
  twp (add_item meta (e_item e) (e_name e) (conc e)) Q w.
Proof.
  intros Hw Hes He HQ. unfold add_item. apply twp_bind. eapply twp_store; [exact Hw|reflexivity| |].
  { cbn [size_of val]. by rewrite kind_conc, size_item. }
  intros w1 H1. apply twp_bind. eapply twp_load_meta; [exact H1|rewrite !elem_of_cons, !elem_of_app; by right; right; left; left|].
  eapply twp_store with (o := OMeta (meta_of po r es)) (l' := objs e ++ all_objs es ++ rest); [exact H1| |done|].
  { unfold objs, owned, the_item. simpl. solve_Permutation. }
  intros w2 H2. apply HQ. split; [|by constructor]. rewrite kind_conc, list_of_meta in H2. unfold owned, all_objs.
  rewrite bind_cons. simpl. rewrite <- app_assoc.
  replace (meta_of po r (e :: es)) with (set_list (akind (e_val e)) (e_item e :: items (akind (e_val e)) es) (meta_of po r es)); [done|].
  replace (e_item e :: items _ es) with (items (akind (e_val e)) (e :: es)) by (by rewrite items_cons, bool_decide_true).
  apply set_list_meta. intros k Hk. by rewrite items_cons, bool_decide_false by done.
Qed.

(** The call returns 0 and the value is the newest. *)
Definition added r meta es rest nm v (z : Z) w' : Prop :=
  z = 0 /\ exists e, e_name e = nm /\ e_val e = v /\ rep r meta (e :: es) rest w'.

(** A value without memory of its own. *)
Lemma set_plain_ok r meta es rest w nm v (cv : value) :
  rep r meta es rest w -> name_ok nm -> (forall i p, conc (mkEntry i p nm v) = cv /\ extra (mkEntry i p nm v) = []) -> val_ok v ->
  twp (p ← Palloc po (sizeof_item (akind v)); item ← lift p; add_item meta item nm cv;; mret 0) (added r meta es rest nm v) w.
Proof.
  intros [Hw Hes] Hn Hv Hok. apply twp_bind. eapply twp_palloc; [exact Hw|done|apply fits_item|]. intros a w1 H1.
  apply twp_bind, twp_lift with a; [done|]. apply twp_bind. destruct (Hv a 0) as [<- Hx].
  apply (add_item_ok r meta es rest w1 (mkEntry a 0 nm v)); [by rewrite Hx|done|by split|].
  intros w2 H2. split; [done|]. by exists (mkEntry a 0 nm v).
Qed.

Lemma meta_set_ok r meta es rest w nm v : rep r meta es rest w -> name_ok nm -> val_ok v ->
  twp (exec meta (Set_ nm v)) (fun z w' => exists c, z = Code c /\ added r meta es rest nm v c w') w.
Proof.
  intros R Hn Hv. assert (forall m : M world Z, twp m (added r meta es rest nm v) w ->
    twp (code m) (fun z w' => exists c, z = Code c /\ added r meta es rest nm v c w') w) as Hcode.
  { intros m Hm. apply twp_bind. eapply twp_mono; [exact Hm|]. intros c w' Hc. by exists c. }
  destruct v as [v|v|s|d|p]; cbn [exec]; apply Hcode; apply twp_bind; (eapply twp_load_rep; [exact R|]); cbn [meta_pool meta_of].
  - by apply (set_plain_ok r meta es rest w nm (AInt32 v)).
  - pose proof (set_plain_ok r meta es rest w nm (AInt64 v) (Int64 v) R Hn ltac:(done) Hv) as T. unfold twp in *.
    cbn [akind] in T. unfold mbind, M_bind in *. destruct (Palloc po _ w) as [[a|] w'| |]; done.
  - destruct R as [Hw Hes]. destruct Hv as [Hs Hf]. apply twp_bind. eapply twp_palloc; [exact Hw|done|apply fits_item|]. intros a w1 H1.
    apply twp_bind. eapply twp_pstrdup; [exact H1|done|done|]. intros q w2 H2. apply twp_bind.
    apply (add_item_ok r meta es rest w2 (mkEntry a q nm (AString s))); [|done|done|].
    + simpl. by rewrite (Permutation_swap (q, _)).
    + intros w3 H3. split; [done|]. by exists (mkEntry a q nm (AString s)).
  - destruct R as [Hw Hes]. simpl in Hv. apply twp_bind. eapply twp_palloc; [exact Hw|done|apply fits_item|]. intros a w1 H1.
    apply twp_bind, twp_lift with a; [done|]. apply twp_bind. eapply twp_palloc; [exact H1|done|done|]. intros q w2 H2.
    apply twp_bind, twp_lift with q; [done|]. apply twp_bind. rewrite Nat2Z.id in H2.
    eapply twp_write; [exact H2|reflexivity|done|by rewrite length_replicate|]. intros w3 H3. apply twp_bind.
    apply (add_item_ok r meta es rest w3 (mkEntry a q nm (AData d))); [|done|done|].
    + simpl in H3 |- *. rewrite drop_ge, app_nil_r in H3 by (by rewrite length_replicate). by rewrite (Permutation_swap (q, _)).
    + intros w4 H4. split; [done|]. by exists (mkEntry a q nm (AData d)).
  - pose proof (set_plain_ok r meta es rest w nm (AObject p) (Object p) R Hn ltac:(done) Hv) as T. unfold twp in *.
    cbn [akind] in T. unfold mbind, M_bind in *. destruct (Palloc po _ w) as [[a|] w'| |]; done.
Qed.

(** ** Looking up *)

Lemma find_item_ok l w k nm es Q : holds l w -> Forall good es -> all_objs es ⊆ l -> (0 ∉ nm) ->
  Q ((fun e => (e_item e, conc e)) <$> efind k nm es) w -> twp (find_item (items k es) nm) Q w.
Proof.
  intros Hw Hes Hl Hn. induction es as [|e es IH]; intros HQ; [done|]. apply Forall_cons_1 in Hes as [[He1 He2] Hes].
  assert (all_objs es ⊆ l) as Hl' by (intros x Hx; apply Hl; unfold all_objs; rewrite bind_cons; apply elem_of_app; by right).
  simpl in HQ. rewrite items_cons. unfold is_for in HQ. simpl in HQ. destruct (decide (akind (e_val e) = k)) as [Hk|Hk].
  - rewrite bool_decide_true by done. cbn [find_item app]. apply twp_bind.
    eapply twp_load_item; [exact Hw|apply Hl, item_in; by left|]. apply twp_bind. eapply twp_lift; [by apply strcmp_ok|].
    destruct (decide (e_name e = nm)) as [Hm|Hm].
    + rewrite (bool_decide_true (e_name e = nm)) by done. by rewrite bool_decide_true in HQ by done.
    + rewrite (bool_decide_false (e_name e = nm)) by done. rewrite bool_decide_false in HQ by naive_solver. by apply IH.
  - rewrite bool_decide_false by done. rewrite bool_decide_false in HQ by naive_solver. by apply IH.
Qed.
Lemma find_rep r meta es rest w k nm Q : rep r meta es rest w -> (0 ∉ nm) ->
  Q ((fun e => (e_item e, conc e)) <$> efind k nm es) w -> twp (find_item (items k es) nm) Q w.
Proof. intros [Hw Hes] Hn. eapply find_item_ok; [exact Hw|done| |done]. intros x Hx. right. apply elem_of_app. by left. Qed.

Lemma extra_rep r meta es rest w e x : rep r meta es rest w -> e ∈ es -> x ∈ extra e -> x ∈ owned po r meta es ++ rest.
Proof. intros _ He Hx. right. apply elem_of_app. left. by eapply extra_in. Qed.

Lemma find_ok r meta es rest w k nm : rep r meta es rest w -> (0 ∉ nm) ->
  twp (exec meta (Find k nm)) (fun z w' => z = Found (aget k nm (abs es)) /\ w' = w) w.
Proof.
  intros R Hn. rewrite aget_abs. destruct (efind k nm es) as [e|] eqn:E.
  - destruct (efind_some _ _ _ _ E) as (es1 & es2 & -> & Hk & _). assert (e ∈ es1 ++ e :: es2) as He by set_solver.
    pose proof R as [Hw Hes]. pose proof (proj1 (Forall_forall _ _) Hes e He) as [_ Hv].
    destruct k; cbn [exec]; apply twp_bind, twp_bind; (eapply twp_load_rep; [exact R|]); cbn [mInt32List mInt64List mStringList mDataList mObjectList meta_of];
      apply twp_bind; (eapply find_rep; [exact R|done|]); rewrite E; cbn [fmap option_fmap option_map]; unfold conc;
      destruct (e_val e) eqn:Ev; try done; apply twp_ret.
    + apply twp_bind. eapply twp_load_bytes; [exact Hw| |].
      { eapply extra_rep; [exact R|exact He|]. unfold extra. rewrite Ev. by left. }
      apply twp_bind. eapply twp_lift; [apply cstr_own, Hv|]. done.
    + apply twp_bind. eapply twp_read_bytes with (b := d); [exact Hw| |done|lia|lia|].
      { eapply extra_rep; [exact R|exact He|]. unfold extra. rewrite Ev. by left. }
      rewrite Nat2Z.id, drop_0, firstn_all. done.
  - destruct k; cbn [exec]; apply twp_bind, twp_bind; (eapply twp_load_rep; [exact R|]); cbn [mInt32List mInt64List mStringList mDataList mObjectList meta_of];
      apply twp_bind; (eapply find_rep; [exact R|done|]); by rewrite E.
Qed.

(** ** Removing *)

Lemma owned_middle r meta es1 e es2 rest : owned po r meta (es1 ++ e :: es2) ++ rest ≡ₚ
  objs e ++ (meta, OMeta (meta_of po r (es1 ++ e :: es2))) :: all_objs (es1 ++ es2) ++ rest.
Proof.
  rewrite <- (Permutation_middle (objs e)). apply Permutation_cons; [done|]. by rewrite all_objs_middle, app_assoc.
Qed.

Lemma del_item_ok r meta es1 e es2 rest w k Q : rep r meta (es1 ++ e :: es2) rest w -> akind (e_val e) = k ->
  (forall w', holds (objs e ++ owned po r meta (es1 ++ es2) ++ rest) w' -> Q tt w') -> twp (del_item k meta (e_item e)) Q w.
Proof.
  intros R Hk HQ. pose proof R as [Hw _]. unfold del_item. apply twp_bind. eapply twp_load_rep; [exact R|]. rewrite list_of_meta.
  apply twp_bind. eapply twp_lift; [apply del_middle; [done|]|].
  { pose proof (h_nodup _ _ _ _ (h_shape _ _ _ Hw)) as N. unfold owned in N. simpl in N. apply NoDup_cons in N as [_ N].
    rewrite fmap_app in N. by apply NoDup_app in N as (N & _). }
  eapply twp_store with (o := OMeta (meta_of po r (es1 ++ e :: es2))) (l' := objs e ++ all_objs (es1 ++ es2) ++ rest); [exact Hw| |done|].
  { by rewrite owned_middle, <- Permutation_middle. }
  intros w1 H1. apply HQ. rewrite set_list_meta in H1.
  - unfold owned. change (((meta, ?o) :: ?l1) ++ ?l2) with ((meta, o) :: l1 ++ l2). by rewrite <- (Permutation_middle (objs e)).
  - intros k' Hk'. rewrite !items_app, items_cons, bool_decide_false by congruence. done.
Qed.

Lemma free_item_ok l w e Q : holds (objs e ++ l) w -> (forall w', holds l w' -> Q tt w') ->
  twp (free_item po (e_item e) (conc e)) Q w.
Proof.
  intros Hw HQ. unfold free_item. apply twp_bind.
  assert (forall w', holds ((e_item e, OItem (the_item e)) :: l) w' -> twp (Pfree po (e_item e)) Q w') as Hi.
  { intros w' Hw'. eapply twp_pfree; [exact Hw'|done|reflexivity|done]. }
  unfold objs, extra in Hw. unfold conc. destruct (e_val e); try (apply twp_ret; by apply Hi).
  all: eapply twp_pfree; [exact Hw|done|simpl; apply Permutation_swap|exact Hi].
Qed.

Lemma remove_ok r meta es rest w k nm : rep r meta es rest w -> (0 ∉ nm) ->
  twp (remove_item k meta nm) (fun z w' => z = (if aget k nm (abs es) is Some _ then 0 else -1) /\
    exists es', abs es' = adel k nm (abs es) /\ rep r meta es' rest w') w.
Proof.
  intros R Hn. rewrite aget_abs. unfold remove_item. apply twp_bind. eapply twp_load_rep; [exact R|]. rewrite list_of_meta.
  apply twp_bind. eapply find_rep; [exact R|done|]. destruct (efind k nm es) as [e|] eqn:E; cbn [fmap option_fmap option_map].
  - destruct (efind_some _ _ _ _ E) as (es1 & es2 & -> & Hk & _ & Ha). apply twp_bind. eapply del_item_ok; [exact R|done|].
    intros w1 H1. apply twp_bind. eapply free_item_ok; [exact H1|]. intros w2 H2. apply twp_ret. split; [done|].
    exists (es1 ++ es2). split; [done|]. split; [done|]. destruct R as [_ R]. rewrite Forall_app, Forall_cons in R.
    apply Forall_app. naive_solver.
  - apply twp_ret. split; [done|]. exists es. split; [by rewrite efind_none|done].
Qed.

Lemma clear_list_ok r meta rest k Q : forall (l : list Z) es w, items k es = l -> rep r meta es rest w ->
  (forall es' w', items k es' = [] -> (forall k', k' <> k -> items k' es' = items k' es) -> rep r meta es' rest w' -> Q tt w') ->
  twp (clear_list k meta l) Q w.
Proof.
  induction l as [|a l IH]; intros es w Hl R HQ.
  { apply twp_ret. by apply (HQ es). }
  destruct (items_first _ _ _ _ Hl) as (es1 & e & es2 & -> & <- & Hk & Hi & Ho). cbn [clear_list]. apply twp_bind.
  pose proof R as [Hw Hes]. eapply twp_load_item; [exact Hw|right; apply elem_of_app; left; apply item_in; set_solver|].
  apply twp_bind. eapply del_item_ok; [exact R|done|]. intros w1 H1. apply twp_bind.
  eapply twp_load_meta; [exact H1|apply elem_of_app; right; by left|]. apply twp_bind.
  eapply free_item_ok; [exact H1|]. intros w2 H2. apply (IH (es1 ++ es2)); [done| |].
  - split; [done|]. rewrite Forall_app, Forall_cons in Hes. apply Forall_app. naive_solver.
  - intros es' w' Hn Hs. apply HQ; [done|]. intros k' Hk'. by rewrite Hs, Ho.
Qed.

Lemma meta_clear_ok r meta es rest w Q : rep r meta es rest w -> (forall w', rep r meta [] rest w' -> Q tt w') ->
  twp (CdxMetaClear meta) Q w.
Proof.
  intros R HQ. unfold CdxMetaClear, __CdxMetaClear.
  apply twp_bind. eapply twp_load_rep; [exact R|]. apply twp_bind. eapply clear_list_ok; [done|exact R|]. intros es1 w1 N1 S1 R1.
  apply twp_bind. eapply twp_load_rep; [exact R1|]. apply twp_bind. eapply clear_list_ok; [done|exact R1|]. intros es2 w2 N2 S2 R2.
  apply twp_bind. eapply twp_load_rep; [exact R2|]. apply twp_bind. eapply clear_list_ok; [done|exact R2|]. intros es3 w3 N3 S3 R3.
  apply twp_bind. eapply twp_load_rep; [exact R3|]. apply twp_bind. eapply clear_list_ok; [done|exact R3|]. intros es4 w4 N4 S4 R4.
  apply twp_bind. eapply twp_load_rep; [exact R4|]. eapply clear_list_ok; [done|exact R4|]. intros es5 w5 N5 S5 R5.
  apply HQ. replace [] with es5; [done|]. apply items_nil. intros []; [| | | |done]; rewrite S5 by done; [| | |done];
    rewrite S4 by done; [| |done]; rewrite S3 by done; [|done]; by rewrite S2.
Qed.

(** ** Appending *)

Lemma meta_same r es1 e e' es2 : e_item e' = e_item e -> akind (e_val e') = akind (e_val e) ->
  meta_of po r (es1 ++ e' :: es2) = meta_of po r (es1 ++ e :: es2).
Proof. intros H1 H2. unfold meta_of. by rewrite !items_app, !items_cons, H1, H2. Qed.

Lemma append_bytes (t s : str) k : k = (length t + length s + 1)%nat ->
  let b := map Some (t ++ [0]) ++ replicate (k - length (map Some (t ++ [0]))) None in
  take (length t) b ++ map Some (s ++ [0]) ++ drop (length t + length (map Some (s ++ [0]))) b = map Some ((t ++ s) ++ [0]).
Proof.
  intros Hk b. assert (length b = k) as Hb by (unfold b; rewrite length_app, length_replicate, length_map, length_app; simpl; lia).
  rewrite drop_ge, app_nil_r by (rewrite Hb, length_map, length_app; simpl; lia).
  unfold b. rewrite !map_app, <- !app_assoc, take_app_length'; [done|by rewrite length_map].
Qed.

Lemma append_string_ok r meta es rest w nm s : rep r meta es rest w -> legal (Append nm s) (abs es) ->
  twp (CdxMetaAppendString meta nm s) (fun z w' => z = (if aget KString nm (abs es) is Some _ then 0 else -1) /\
    exists es', abs es' = aappend nm s (abs es) /\ rep r meta es' rest w') w.
Proof.
  intros R (Hn & Hs & Hne & Hok). pose proof R as [Hw Hes]. rewrite aget_abs in Hok |- *.
  unfold CdxMetaAppendString, __CdxMetaAppendString. apply twp_bind. eapply twp_load_rep; [exact R|]. cbn [mStringList meta_of meta_pool].
  apply twp_bind. eapply find_rep; [exact R|done|]. destruct (efind KString nm es) as [e|] eqn:E; cbn [fmap option_fmap option_map] in *.
  2: { apply twp_ret. split; [done|]. exists es. split; [by rewrite aappend_none|done]. }
  destruct (efind_some _ _ _ _ E) as (_ & _ & _ & Hk & _). destruct (e_val e) as [| |t| |] eqn:Ev; try done. simpl in Hok.
  destruct Hok as [Hts Hf]. destruct (aappend_some nm s es e t E Ev) as (es1 & es2 & -> & Hm & Ha).
  assert (conc e = String (e_ptr e)) as Hc by (unfold conc; by rewrite Ev).
  assert (extra e = [(e_ptr e, OBytes (map Some (t ++ [0])))]) as Hx by (unfold extra; by rewrite Ev).
  set (n := Z.of_nat (length (t ++ s)) + 1) in *. assert (0 <= n < 2 ^ 31) as Hlt.
  { destruct Hf as (? & ? & _). pose proof (AwPoolSpec.spm_range is_wide). lia. }
  rewrite owned_middle in Hw. unfold objs in Hw. rewrite Hx in Hw. rewrite Hc. apply twp_bind.
  eapply twp_load_bytes; [exact Hw|right; by left|]. apply twp_bind.
  eapply twp_lift; [apply cstr_own; rewrite elem_of_app in Hts; naive_solver|].
  rewrite <- length_app, s32_small by (unfold n in *; lia). apply twp_bind, twp_iadd; [unfold n in *; lia|]. fold n.
  apply twp_bind. eapply twp_prealloc; [exact Hw|done|simpl; apply Permutation_swap|done| |].
  { unfold n. rewrite length_map, !length_app. destruct s; [done|]. simpl. lia. }
  intros c w1 H1. apply twp_bind, twp_lift with c; [done|]. apply twp_bind. eapply twp_load_item; [exact H1|right; by left|].
  apply twp_bind. eapply twp_store; [exact H1|apply Permutation_swap|cbn [size_of val the_item]; by rewrite Hc|].
  intros w2 H2. apply twp_bind. eapply twp_write; [exact H2|apply Permutation_swap|lia| |].
  { rewrite !length_app, !length_map, length_replicate, !length_app. unfold n. rewrite !length_app. simpl. lia. }
  intros w3 H3. rewrite Nat2Z.id, append_bytes in H3 by (unfold n; rewrite length_app; lia). apply twp_ret. split; [done|].
  set (e' := mkEntry (e_item e) c nm (AString (t ++ s))). exists (es1 ++ e' :: es2). split; [by rewrite (Ha (e_item e) c)|].
  split.
  - rewrite owned_middle. rewrite (meta_same r es1 e e' es2) by (done || simpl; by rewrite Ev).
    unfold objs, e', the_item, extra, conc. simpl. rewrite (Permutation_swap (c, _)). unfold the_item in H3. simpl in H3.
    by rewrite Hm in H3.
  - rewrite Forall_app, Forall_cons in Hes |- *. destruct Hes as (? & [He ?] & ?). split_and!; try done. split; [|done]. simpl. by rewrite <- Hm.
Qed.

(** ** Sessions *)

Lemma meta_exec_ok r meta es rest w o : rep r meta es rest w -> legal o (abs es) ->
  twp (exec meta o) (fun z w' => z = (astep o (abs es)).2 /\ exists es', abs es' = (astep o (abs es)).1 /\ rep r meta es' rest w') w.
Proof.
  intros R L. destruct o as [nm v|k nm|k nm|nm s|].
  - destruct L as [L1 L2]. eapply twp_mono; [by apply (meta_set_ok r meta es rest)|]. intros z w' (c & -> & -> & e & <- & <- & R'). split; [done|].
    by exists (e :: es).
  - eapply twp_mono; [by apply (find_ok r meta es rest)|]. intros z w' [-> ->]. split; [done|]. by exists es.
  - assert (exec meta (Remove k nm) = code (remove_item k meta nm)) as -> by (by destruct k). apply twp_bind.
    eapply twp_mono; [by apply (remove_ok r meta es rest)|]. intros z w' [-> E]. apply twp_ret. done.
  - apply twp_bind. eapply twp_mono; [by apply (append_string_ok r meta es rest)|]. intros z w' [-> E]. apply twp_ret. done.
  - apply twp_bind. eapply meta_clear_ok; [exact R|]. intros w' R'. apply twp_ret. split; [done|]. by exists [].
Qed.

Lemma run_ok r meta rest ops : forall es w, rep r meta es rest w -> legal_run ops (abs es) ->
  twp (run meta ops) (fun zs w' => zs = (arun ops (abs es)).2 /\ exists es', abs es' = (arun ops (abs es)).1 /\ rep r meta es' rest w') w.
Proof.
  induction ops as [|o ops IH]; intros es w R L; [split; [done|]; by exists es|]. destruct L as [L1 L2]. cbn [run arun].
  apply twp_bind. eapply twp_mono; [by apply (meta_exec_ok r meta es rest)|]. intros z w1 (-> & es1 & E1 & R1). rewrite <- E1 in L2.
  apply twp_bind. eapply twp_mono; [by apply IH|]. intros zs w2 (-> & es2 & E2 & R2). apply twp_ret.
  destruct (astep o (abs es)) as [st z]. simpl in *. subst st. destruct (arun ops (abs es1)) as [st zs]. simpl in *. eauto.
Qed.

(** ** Creation and destruction *)

Lemma meta_create_ok l w Q : holds l w -> (forall meta w', rep 1 meta [] l w' -> Q meta w') -> twp (__CdxMetaCreate po) Q w.
Proof.
  intros Hw HQ. unfold __CdxMetaCreate. apply twp_bind. eapply twp_palloc; [exact Hw|done|apply fits_meta|]. intros a w1 H1.
  apply twp_bind, twp_lift with a; [done|]. apply twp_bind. eapply twp_store; [exact H1|reflexivity| |].
  { cbn [size_of]. rewrite length_replicate. unfold sizeof_meta. destruct is_wide; lia. }
  intros w2 H2. apply twp_ret, HQ. split; [exact H2|constructor].
Qed.

Lemma meta_destroy_ok meta es rest w Q : rep 1 meta es rest w -> (forall w', holds rest w' -> Q tt w') ->
  twp (CdxMetaDestroy meta) Q w.
Proof.
  intros R HQ. pose proof R as [Hw Hes]. unfold CdxMetaDestroy, __CdxMetaDecRef. apply twp_bind. eapply twp_load_rep; [exact R|].
  apply twp_bind. eapply (twp_store w0 _ (all_objs es ++ rest) w meta (OMeta (meta_of po 1 es))); [exact Hw|reflexivity|done|]. intros w1 H1.
  change (if s32 (meta_mRef (meta_of po 1 es) - 1) =? 0 then ?a else ?b) with a. apply twp_bind.
  eapply (meta_clear_ok 0 meta es rest); [by split|]. intros w2 [H2 _]. eapply (twp_pfree w0 _ rest); [exact H2|done|unfold owned; simpl; reflexivity|exact HQ].
Qed.

(** ** Copies *)

Lemma code_inv (m : M world Z) (A : Z -> world -> Prop) w :
  twp (code m) (fun z w' => exists c, z = Code c /\ A c w') w -> twp m A w.
Proof. unfold twp, code, mbind, M_bind. destruct (m w) as [c w'| |]; try done. by intros (c' & [= ->] & HA). Qed.

Lemma dup_value_ok r meta fs rest w e : rep r meta fs rest w -> good e -> extra e ⊆ rest ->
  twp (dup_value meta (e_name e) (conc e)) (added r meta fs rest (e_name e) (e_val e)) w.
Proof.
  intros R [G1 G2] Hx. pose proof R as [Hw _]. pose proof (meta_set_ok r meta fs rest w (e_name e) (e_val e) R G1 G2) as T.
  assert (forall x, x ∈ extra e -> x ∈ owned po r meta fs ++ rest) as Hin by (intros x Hx'; apply elem_of_app; right; by apply Hx).
  unfold extra in Hin. unfold conc. destruct (e_val e) as [v|v|s|d|p] eqn:Ev; cbn [dup_value exec] in *; apply code_inv in T; try exact T.
  - apply twp_bind. eapply twp_load_bytes; [exact Hw|apply Hin; by left|]. apply twp_bind.
    eapply twp_lift; [apply cstr_own, G2|]. exact T.
  - apply twp_bind. eapply twp_read_bytes with (b := d); [exact Hw|apply Hin; by left|done|lia|lia|].
    by rewrite Nat2Z.id, drop_0, firstn_all.
Qed.

Lemma dup_list_ok r meta rest : forall es fs w, rep r meta fs rest w -> Forall good es -> all_objs es ⊆ rest ->
  twp (dup_list meta (map e_item es)) (fun _ w' => exists fs', abs fs' = reverse (abs es) ++ abs fs /\ rep r meta fs' rest w') w.
Proof.
  induction es as [|e es IH]; intros fs w R Hes Hin; [by exists fs|]. apply Forall_cons_1 in Hes as [He Hes]. cbn [map dup_list].
  pose proof R as [Hw _]. unfold all_objs in Hin. rewrite bind_cons in Hin. apply twp_bind.
  eapply twp_load_item; [exact Hw|apply elem_of_app; right; apply Hin, elem_of_app; left; by left|].
  unfold the_item. cbn [name val]. rewrite chars_ok by apply He. apply twp_bind.
  eapply twp_mono; [apply (dup_value_ok r meta fs rest); [done|done|]|].
  { intros x Hx. apply Hin, elem_of_app. left. by right. }
  intros z w1 (_ & f & Hn & Hv & R1). eapply twp_mono; [apply (IH (f :: fs)); [done|done|]|].
  { intros x Hx. apply Hin, elem_of_app. by right. }
  intros u w2 (fs' & Ha & R2). exists fs'. split; [|done]. simpl in Ha. rewrite Ha, Hn, Hv. simpl.
  by rewrite reverse_cons, <- app_assoc.
Qed.

Lemma dup_items_ok r meta rest k es fs w : rep r meta fs rest w -> Forall good es -> all_objs es ⊆ rest ->
  twp (dup_list meta (items k es)) (fun _ w' => exists fs', abs fs' = reverse (filter (fun x => akind x.2 = k) (abs es)) ++ abs fs /\
    rep r meta fs' rest w') w.
Proof.
  intros R Hes Hin. assert (filter (fun x => akind x.2 = k) (abs es) = abs (filter (fun e => akind (e_val e) = k) es)) as ->.
  { clear. induction es as [|e es IH]; [done|]. simpl. rewrite !filter_cons. simpl. destruct (decide (akind (e_val e) = k)); simpl; by rewrite IH. }
  apply dup_list_ok; [done| |].
  - apply Forall_forall. intros e He. apply list_elem_of_filter in He as [_ He]. rewrite Forall_forall in Hes. by apply Hes.
  - intros x Hx. apply Hin. unfold all_objs in *. apply list_elem_of_bind in Hx as (e & Hx & He). apply list_elem_of_bind.
    apply list_elem_of_filter in He as [_ He]. by exists e.
Qed.

Lemma dup_ok r meta es rest w Q : rep r meta es rest w ->
  (forall new fs w', abs fs = adup (abs es) -> rep 1 new fs (owned po r meta es ++ rest) w' -> Q new w') ->
  twp (CdxMetaDup meta) Q w.
Proof.
  intros R HQ. pose proof R as [Hw Hes]. unfold CdxMetaDup, __CdxMetaDup. apply twp_bind. eapply twp_load_rep; [exact R|].
  apply twp_bind. eapply meta_create_ok; [exact Hw|]. intros new w1 R1. set (all := owned po r meta es ++ rest) in *.
  assert (all_objs es ⊆ all) as Hin by (intros x Hx; right; apply elem_of_app; by left).
  cbn [mInt32List mInt64List mStringList mDataList mObjectList meta_of].
  apply twp_bind. eapply twp_mono; [by apply (dup_items_ok 1 new all KInt32 es [])|]. intros _ w2 (f2 & A2 & R2).
  apply twp_bind. eapply twp_mono; [by apply (dup_items_ok 1 new all KInt64 es f2)|]. intros _ w3 (f3 & A3 & R3).
  apply twp_bind. eapply twp_mono; [by apply (dup_items_ok 1 new all KString es f3)|]. intros _ w4 (f4 & A4 & R4).
  apply twp_bind. eapply twp_mono; [by apply (dup_items_ok 1 new all KData es f4)|]. intros _ w5 (f5 & A5 & R5).
  apply twp_bind. eapply twp_mono; [by apply (dup_items_ok 1 new all KObject es f5)|]. intros _ w6 (f6 & A6 & R6).
  apply twp_ret, (HQ new f6); [|done]. rewrite A6, A5, A4, A3, A2. unfold adup, kinds. simpl.
  by rewrite !reverse_app, app_nil_r, <- !app_assoc.
Qed.
End calls.

(** What a copy finds. *)
Definition akey (e : str * aval) : kind * str := (akind e.2, e.1).

Lemma adup_perm st : adup st ≡ₚ st.
Proof.
  unfold adup. rewrite reverse_Permutation. unfold kinds. cbn [mbind list_bind].
  induction st as [|e st IH]; [done|]. rewrite !filter_cons.
  etransitivity; [|apply Permutation_cons; [reflexivity|exact IH]].
  destruct e as [n []]; simpl; rewrite ?decide_True by done; solve_Permutation.
Qed.
Lemma aget_nodup k nm st v : NoDup (map akey st) -> aget k nm st = Some v <-> (nm, v) ∈ st /\ akind v = k.
Proof.
  induction st as [|[n u] st IH]; intros N; [split; [done|]; by intros [?%not_elem_of_nil _]|].
  apply NoDup_cons in N as [N1 N2]. simpl. unfold is_for. simpl. case_bool_decide as E.
  - destruct E as [<- <-]. split; [intros [= ->]; split; [by left|done]|]. intros [[[= ->]|Hin]%elem_of_cons Hk]; [done|].
    destruct N1. apply list_elem_of_fmap. exists (n, v). unfold akey. simpl. by rewrite Hk.
  - rewrite IH by done. split; intros [Hin Hk]; (split; [|done]); [by right|].
    apply elem_of_cons in Hin as [[= -> ->]|Hin]; [naive_solver|done].
Qed.
Lemma adup_same k nm st : NoDup (map akey st) -> aget k nm (adup st) = aget k nm st.
Proof.
  intros N. apply option_eq. intros v. rewrite !aget_nodup; [by rewrite adup_perm|done|].
  change (NoDup (akey <$> adup st)). by rewrite adup_perm.
Qed.

(** * The theorems *)

(** C30: a meta is a stack of named values: after any session of calls that are in order, each look-up
    has found the newest value of that name and kind, removing uncovers the one before, appending
    lengthens the newest string, and destroying the meta leaves memory and its contents as they were
    before it was created. *)
Theorem meta_refines (E : Env) (Mem : Memory) (w0 : world) (po : option Z) (ops : list op) :
  sane w0 -> ready w0 po -> legal_run ops [] ->
  exists meta w1 w2 w3, __CdxMetaCreate po w0 = Ok meta w1 /\ run meta ops w1 = Ok (arun ops []).2 w2 /\
    CdxMetaDestroy meta w2 = Ok tt w3 /\ same w0 w3.
Proof.
  intros S R L.
  destruct (twp_elim _ _ _ (meta_create_ok w0 po R [] w0 (fun meta w => CdxMetaSpec.rep w0 po 1 meta [] [] w) (holds_start w0 S) (fun _ _ H => H)))
    as (meta & w1 & E1 & R1).
  destruct (twp_elim _ _ _ (run_ok w0 po R 1 meta [] ops [] w1 R1 L)) as (zs & w2 & E2 & -> & es & _ & R2).
  destruct (twp_elim _ _ _ (meta_destroy_ok w0 po R meta es [] w2 (fun _ w => holds w0 [] w) R2 (fun _ H => H))) as ([] & w3 & E3 & R3).
  exists meta, w1, w2, w3. split_and!; try done. by apply holds_same.
Qed.

(** A session: [a] is set twice and removed once, and a string grows. *)
Definition story : list op :=
  [Set_ [97] (AInt32 1); Set_ [97] (AInt32 2); Set_ [98] (AString [104; 105]); Find KInt32 [97]; Remove KInt32 [97];
   Find KInt32 [97]; Append [98] [33]; Find KString [98]; Set_ [99] (AData [Some 7; None]); Find KData [99]; Find KInt64 [97]].
Lemma story_legal : legal_run story [].
Proof.
  simpl. unfold name_ok, is_for. simpl.
  repeat match goal with
  | |- _ /\ _ => split
  | |- True => exact I
  | |- fits _ => apply fits_small; simpl; lia
  | |- _ ∉ _ => set_solver
  | |- (_ < _)%nat => simpl; lia
  | |- _ <> _ => done
  end.
Qed.
Lemma meta_refines_witness :
  exists p w0 meta w1 w2 w3, PoolCreate None nothing = Ok p w0 /\ __CdxMetaCreate (Some p) w0 = Ok meta w1 /\
    run meta story w1 = Ok [Code 0; Code 0; Code 0; Found (Some (AInt32 2)); Code 0; Found (Some (AInt32 1)); Code 0;
      Found (Some (AString [104; 105; 33])); Code 0; Found (Some (AData [Some 7; None])); Found None] w2 /\
    CdxMetaDestroy meta w2 = Ok tt w3 /\ same w0 w3.
Proof.
  destruct world_start as (p & w0 & E0 & S & R).
  destruct (meta_refines endless_env endless_memory w0 (Some p) story S R story_legal) as (meta & w1 & w2 & w3 & E1 & E2 & E3 & E4).
  by exists p, w0, meta, w1, w2, w3.
Defined.

(** C31: a copy of a meta is a meta of its own, which later calls on either leave apart from the other:
    it holds the values of the original, each kind backwards, so it finds the oldest value of a name,
    and the same as the original when no name was set twice; destroying both leaves memory as it was. *)
Theorem meta_dup (E : Env) (Mem : Memory) (w0 : world) (po : option Z) (ops ops1 ops2 : list op) :
  sane w0 -> ready w0 po -> legal_run ops [] ->
  legal_run ops1 (adup (arun ops []).1) -> legal_run ops2 (arun ops []).1 ->
  (exists meta w1 w2 new w3 w4 w5 w6 w7, __CdxMetaCreate po w0 = Ok meta w1 /\ run meta ops w1 = Ok (arun ops []).2 w2 /\
    CdxMetaDup meta w2 = Ok new w3 /\ run new ops1 w3 = Ok (arun ops1 (adup (arun ops []).1)).2 w4 /\
    run meta ops2 w4 = Ok (arun ops2 (arun ops []).1).2 w5 /\
    CdxMetaDestroy meta w5 = Ok tt w6 /\ CdxMetaDestroy new w6 = Ok tt w7 /\ same w0 w7) /\
  (forall k nm st, NoDup (map akey st) -> aget k nm (adup st) = aget k nm st).
Proof.
  intros S R L L1 L2. split; [|intros; by apply adup_same].
  destruct (twp_elim _ _ _ (meta_create_ok w0 po R [] w0 (fun meta w => CdxMetaSpec.rep w0 po 1 meta [] [] w) (holds_start w0 S) (fun _ _ H => H)))
    as (meta & w1 & E1 & R1).
  destruct (twp_elim _ _ _ (run_ok w0 po R 1 meta [] ops [] w1 R1 L)) as (zs & w2 & E2 & -> & es & A2 & R2).
  change (abs []) with (@nil (str * aval)) in A2, E2. rewrite <- A2 in L1, L2 |- *.
  destruct (twp_elim _ _ _ (dup_ok w0 po R 1 meta es [] w2 (fun new w => exists fs, abs fs = adup (abs es) /\
    CdxMetaSpec.rep w0 po 1 new fs (owned po 1 meta es ++ []) w) R2 (fun _ fs _ A H => ex_intro _ fs (conj A H)))) as (new & w3 & E3 & fs & A3 & R3).
  rewrite <- A3 in L1 |- *.
  destruct (twp_elim _ _ _ (run_ok w0 po R 1 new _ ops1 fs w3 R3 L1)) as (zs & w4 & E4 & -> & fs' & _ & R4).
  assert (CdxMetaSpec.rep w0 po 1 meta es (owned po 1 new fs') w4) as R4'.
  { destruct R4 as [H4 _], R2 as [_ G]. split; [|done]. rewrite app_nil_r in H4. rewrite Permutation_app_comm. exact H4. }
  destruct (twp_elim _ _ _ (run_ok w0 po R 1 meta _ ops2 es w4 R4' L2)) as (zs & w5 & E5 & -> & es' & _ & R5).
  destruct (twp_elim _ _ _ (meta_destroy_ok w0 po R meta es' _ w5 (fun _ w => holds w0 _ w) R5 (fun _ H => H))) as ([] & w6 & E6 & R6).
  assert (CdxMetaSpec.rep w0 po 1 new fs' [] w6) as R6' by (split; [by rewrite app_nil_r|apply R4]).
  destruct (twp_elim _ _ _ (meta_destroy_ok w0 po R new fs' [] w6 (fun _ w => holds w0 [] w) R6' (fun _ H => H))) as ([] & w7 & E7 & R7).
  exists meta, w1, w2, new, w3, w4, w5, w6, w7. split_and!; try done. by apply holds_same.
Qed.

Lemma meta_dup_witness :
  exists p w0 meta w1 w2 new w3 w4 w5 w6 w7, PoolCreate None nothing = Ok p w0 /\ __CdxMetaCreate (Some p) w0 = Ok meta w1 /\
    run meta [Set_ [97] (AInt32 1); Set_ [97] (AInt32 2)] w1 = Ok [Code 0; Code 0] w2 /\ CdxMetaDup meta w2 = Ok new w3 /\
    run new [Find KInt32 [97]] w3 = Ok [Found (Some (AInt32 1))] w4 /\ run meta [Find KInt32 [97]] w4 = Ok [Found (Some (AInt32 2))] w5 /\
    CdxMetaDestroy meta w5 = Ok tt w6 /\ CdxMetaDestroy new w6 = Ok tt w7 /\ same w0 w7.
Proof.
  destruct world_start as (p & w0 & E0 & S & R).
  destruct (meta_dup endless_env endless_memory w0 (Some p) [Set_ [97] (AInt32 1); Set_ [97] (AInt32 2)] [Find KInt32 [97]] [Find KInt32 [97]] S R)
    as [(meta & w1 & w2 & new & w3 & w4 & w5 & w6 & w7 & E1 & E2 & E3 & E4 & E5 & E6 & E7 & E8) _].
  - simpl. unfold name_ok. split_and!; first [set_solver|simpl; lia|done].
  - simpl. split; [set_solver|done].
  - simpl. split; [set_solver|done].
  - by exists p, w0, meta, w1, w2, new, w3, w4, w5, w6, w7.
Defined.

(** The outcome of a session on a new meta, without the world. *)
Inductive outcome := Returns (zs : list result) | Ends | Breaks.
Definition session `{Env} (ops : list op) : outcome :=
  match (p ← PoolCreate None; meta ← __CdxMetaCreate (Some p); run meta ops) nothing with
  | Ok zs _ => Returns zs
  | Aborted _ => Ends
  | Undef => Breaks
  end.

(** Departures: a name of 32 characters is stored without its NUL, and looking for it reads past the
    array; appending an empty string and setting empty data end the process; and when there is no
    memory for a string, the code that would report it comes after the write through the null
    pointer. *)
Theorem meta_departs :
  session [Set_ (replicate 32 97) (AInt32 1); Find KInt32 (replicate 32 97)] = Breaks /\
  session [Set_ [98] (AString [104]); Append [98] []] = Ends /\
  session [Set_ [99] (AData [])] = Ends /\
  @session (mkEnv true (AwPoolTheorems.bump 4)) [Set_ [98] (AString (replicate 5000 97))] = Breaks.
Proof. repeat split; vm_compute; reflexivity. Qed.
End CdxMetaTheorems.
