(* ===== verification/CdxBuffer.v ===== *)
(** Growing buffers with a range that is in use, [libcedarx/libcore/base/CdxBuffer.c], and the calls
    and the strings of [CdxBuffer.h].

    The lengths are unsigned and wrap.  Data that is copied in lies outside the buffer.  [CDX_CHECK]
    and [CDX_FORCE_CHECK] do nothing in a release. *)

From Stdlib Require Import ZArith Lia.
From stdpp Require Import base list list_numbers numbers gmap.
From S2P Require Import Prelude AwPool PoolMem CdxMeta.

Open Scope list_scope.
Open Scope Z_scope.

Module CdxBuffer.
Import PoolMem CdxMeta.

(** The loop of [Align2Power]; without a result it has not ended yet. *)
Fixpoint align_loop (fuel : nat) (ret val : Z) : option Z :=
  match fuel with
  | O => None
  | S fuel => if ret <? val then align_loop fuel (u32 (Z.shiftl ret 2)) val else Some ret
  end.
(** After twelve rounds [ret] is 0. *)
Definition Align2Power {S} (val : Z) : M S Z := lift (align_loop 12 1024 val).

Section buffer.
Context `{Env}.

Definition mod_buffer (buf : Z) (f : CdxBufferImpl -> CdxBufferImpl) : M world unit :=
  b ← load_buffer buf; store buf (OBuffer (f b)).

Definition onWrite (buf offset : Z) (data : list Z) (len : Z) : M world unit :=
  b ← load_buffer buf;
  (if mCapacity b <? u32 (offset + len) then
     c ← Align2Power (u32 (offset + len));
     mod_buffer buf (fun b => b <| mCapacity := c |>);;
     p ← Prealloc (buf_pool b) (mData b) c;
     p ← lift p;
     mod_buffer buf (fun b => b <| mData := p |>)
   else mret tt);;
  b ← load_buffer buf;
  write (mData b) offset (map Some data).

Definition onSetRange (buf offset len : Z) : M world unit :=
  mod_buffer buf (fun b => b <| mRangeOffset := offset |> <| mRangeLen := len |>).

Definition __CdxBufferIncRef (buf : Z) : M world Z :=
  mod_buffer buf (fun b => b <| buf_mRef ::= Z.add 1 |>);; mret buf.
Definition __CdxBufferDecRef (buf : Z) : M world unit :=
  b ← load_buffer buf;
  let r := buf_mRef b - 1 in
  mod_buffer buf (fun b => b <| buf_mRef := r |>);;
  if s32 r =? 0 then
    CdxMetaDestroy (mMeta b);;
    Pfree (buf_pool b) (mData b);;
    if selfPool b then
      pool ← lift (buf_pool b);
      Pfree (buf_pool b) buf;;
      PoolDestroy pool
    else Pfree (buf_pool b) buf
  else mret tt.

(** A pointer into the data is its address and an offset. *)
Definition __CdxBufferGetData (buf : Z) : M world (Z * Z) :=
  b ← load_buffer buf; mret (mData b, mRangeOffset b).
Definition __CdxBufferGetBase (buf : Z) : M world Z := b ← load_buffer buf; mret (mData b).
Definition __CdxBufferGetSize (buf : Z) : M world Z := b ← load_buffer buf; mret (mRangeLen b).
Definition __CdxBufferGetMeta (buf : Z) : M world Z := b ← load_buffer buf; mret (mMeta b).

Definition __CdxBufferSetRange (buf offset len : Z) : M world unit := onSetRange buf offset len.
Definition __CdxBufferSeekRange (buf left right : Z) : M world unit :=
  b ← load_buffer buf;
  o ← iadd (s32 (mRangeOffset b)) left;
  mod_buffer buf (fun b => b <| mRangeOffset := u32 o |>);;
  d ← isub right left;
  n ← iadd (s32 (mRangeLen b)) d;
  mod_buffer buf (fun b => b <| mRangeLen := u32 n |>).

Definition __CdxBufferAppend (buf : Z) (data : list Z) : M world unit :=
  let len := Z.of_nat (length data) in
  b ← load_buffer buf;
  onWrite buf (u32 (mRangeOffset b + mRangeLen b)) data len;;
  b ← load_buffer buf;
  onSetRange buf (mRangeOffset b) (u32 (mRangeLen b + len)).

Definition __CdxBufferInsert (buf : Z) (data : list Z) : M world unit :=
  let len := Z.of_nat (length data) in
  b ← load_buffer buf;
  if len <=? mRangeOffset b then
    mod_buffer buf (fun b => b <| mRangeOffset ::= fun o => o - len |> <| mRangeLen ::= fun n => u32 (n + len) |>);;
    b ← load_buffer buf;
    write (mData b) (mRangeOffset b) (map Some data)
  else if mCapacity b >=? u32 (mRangeLen b + len) then
    old ← read (mData b) (mRangeOffset b) (mRangeLen b);
    write (mData b) len old;;
    write (mData b) 0 (map Some data);;
    mod_buffer buf (fun b => b <| mRangeOffset := 0 |> <| mRangeLen ::= fun n => u32 (n + len) |>)
  else
    c ← Align2Power (u32 (mRangeLen b + len));
    mod_buffer buf (fun b => b <| mCapacity := c |>);;
    p ← Palloc (buf_pool b) c;
    tmpData ← lift p;
    write tmpData 0 (map Some data);;
    old ← read (mData b) (mRangeOffset b) (mRangeLen b);
    write tmpData len old;;
    Pfree (buf_pool b) (mData b);;
    mod_buffer buf (fun b => b <| mData := tmpData |> <| mRangeOffset := 0 |> <| mRangeLen ::= fun n => u32 (n + len) |>).

(** The fields of a new buffer; [initData] is null or [len] bytes. *)
Definition create_init (impl pl : Z) (self : bool) (capacity : Z) (initData : option (list Z)) : M world Z :=
  mod_buffer impl (fun b => b <| buf_pool := Some pl |> <| selfPool := self |>);;
  meta ← __CdxMetaCreate (Some pl);
  mod_buffer impl (fun b => b <| mMeta := meta |>);;
  c ← Align2Power capacity;
  mod_buffer impl (fun b => b <| mCapacity := c |>);;
  p ← Palloc (Some pl) c;
  d ← lift p;
  mod_buffer impl (fun b => b <| mData := d |> <| mRangeOffset := 0 |> <| mRangeLen := 0 |>);;
  (match initData with
   | Some (x :: data) =>
       write d 0 (map Some (x :: data));;
       mod_buffer impl (fun b => b <| mRangeLen := Z.of_nat (length (x :: data)) |>)
   | _ => mret tt
   end);;
  mod_buffer impl (fun b => b <| buf_mRef := 1 |>);;
  mret impl.
(** The memory of a new buffer, all zero. *)
Definition new_impl (pool : option Z) : M world Z :=
  q ← Palloc pool sizeof_buffer;
  impl ← lift q;
  store impl (OBuffer (mkBuffer None false 0 0 0 0 0 0));;
  mret impl.
(** The structure of a buffer with a pool of its own comes from the global pool. *)
Definition __CdxBufferCreate (pool : option Z) (capacity : Z) (initData : option (list Z)) : M world Z :=
  match pool with
  | Some p => impl ← new_impl pool; create_init impl p false capacity initData
  | None => privPool ← PoolCreate None; impl ← new_impl pool; create_init impl privPool true capacity initData
  end.
Definition CdxBufferDestroy (buf : Z) : M world unit := __CdxBufferDecRef buf.

(** The calls of the header. *)
Definition CdxBufferIncRef : Z -> M world Z := __CdxBufferIncRef.
Definition CdxBufferDecRef : Z -> M world unit := __CdxBufferDecRef.
Definition CdxBufferGetData : Z -> M world (Z * Z) := __CdxBufferGetData.
Definition CdxBufferGetBase : Z -> M world Z := __CdxBufferGetBase.
Definition CdxBufferGetSize : Z -> M world Z := __CdxBufferGetSize.
Definition CdxBufferAppend : Z -> list Z -> M world unit := __CdxBufferAppend.
Definition CdxBufferInsert : Z -> list Z -> M world unit := __CdxBufferInsert.
Definition CdxBufferGetMeta : Z -> M world Z := __CdxBufferGetMeta.
Definition CdxBufferSetRange : Z -> Z -> Z -> M world unit := __CdxBufferSetRange.
Definition CdxBufferSeekRange : Z -> Z -> Z -> M world unit := __CdxBufferSeekRange.

(** * Strings *)

Definition CdxStringCreate (pool : option Z) : M world Z := __CdxBufferCreate pool 1024 None.
Definition CdxStringDestroy (str : Z) : M world unit := CdxBufferDestroy str.
Definition CdxStringAppend (str : Z) (v : PoolMem.str) : M world unit :=
  CdxBufferAppend str (v ++ [0]);;
  n ← CdxBufferGetSize str;
  CdxBufferSetRange str 0 (u32 (n - 1)).
Definition CdxStringGet (str : Z) : M world (Z * Z) := CdxBufferGetData str.
End buffer.

End CdxBuffer.
