(* ===== verification/CdxBufferSpec.v ===== *)
(** Buffers against a string of bytes to which one appends and in front of which one inserts
    ([CdxBufferSpec]); each call on a buffer, sessions, with a pool of the caller or one of its own,
    strings, and where the code departs from this ([CdxBufferTheorems]). *)

From Stdlib Require Import ZArith Lia.
From stdpp Require Import base list list_numbers numbers gmap fin_maps fin_map_dom.
From S2P Require Import Prelude AwPool AwPoolSpec AwPoolCalls AwPoolTheorems PoolMem PoolMemSpec CdxMeta CdxMetaSpec CdxBuffer.

Open Scope list_scope.
Open Scope Z_scope.

Module CdxBufferSpec.
Import PoolMem PoolMemSpec CdxMeta CdxBuffer.

(** * The abstract buffer *)

(** The references to it, the number of bytes before the range, the bytes in the range, and the
    values attached. *)
Record abuf := mkABuf { a_refs : Z; a_front : Z; a_win : list Z; a_stack : CdxMetaSpec.stack }.
#[export] Instance eta_abuf : Eta abuf := fun a => mkABuf (a_refs a) (a_front a) (a_win a) (a_stack a).

Inductive op := Append (d : list Z) | Insert (d : list Z) | SetRange (off len : Z) | SeekRange (left right : Z)
  | Get | Meta (o : CdxMetaSpec.op) | IncRef | DecRef.
Inductive result := Done | Bytes (b : list (option Z)) | Value (r : CdxMetaSpec.result).

Abbreviation zlen l := (Z.of_nat (length l)).
(** The bytes from [off] on, [len] of them. *)
Definition part {A} (off len : Z) (l : list A) : list A := take (Z.to_nat len) (drop (Z.to_nat off) l).

Definition astep (o : op) (a : abuf) : abuf * result :=
  match o with
  | Append d => (a <| a_win ::= fun w => w ++ d |>, Done)
  | Insert d => (a <| a_front := if zlen d <=? a_front a then a_front a - zlen d else 0 |> <| a_win ::= app d |>, Done)
  | SetRange off len => (a <| a_front := off |> <| a_win := part (off - a_front a) len (a_win a) |>, Done)
  | SeekRange l r => (a <| a_front := a_front a + l |> <| a_win := part l (zlen (a_win a) + (r - l)) (a_win a) |>, Done)
  | Get => (a, Bytes (map Some (a_win a)))
  | Meta o => let '(st, r) := CdxMetaSpec.astep o (a_stack a) in (a <| a_stack := st |>, Value r)
  | IncRef => (a <| a_refs ::= Z.add 1 |>, Done)
  | DecRef => (a <| a_refs ::= fun n => n - 1 |>, Done)
  end.
Fixpoint arun (ops : list op) (a : abuf) : abuf * list result :=
  match ops with
  | [] => (a, [])
  | o :: ops => let '(a, r) := astep o a in let '(a, rs) := arun ops a in (a, r :: rs)
  end.

(** * Sessions *)

Section exec.
Context `{Env}.

Definition exec (buf : Z) (o : op) : M world result :=
  match o with
  | Append d => CdxBufferAppend buf d;; mret Done
  | Insert d => CdxBufferInsert buf d;; mret Done
  | SetRange off len => CdxBufferSetRange buf off len;; mret Done
  | SeekRange l r => CdxBufferSeekRange buf l r;; mret Done
  | Get => '(p, off) ← CdxBufferGetData buf; n ← CdxBufferGetSize buf; b ← read p off n; mret (Bytes b)
  | Meta o => meta ← CdxBufferGetMeta buf; r ← CdxMetaSpec.exec meta o; mret (Value r)
  | IncRef => CdxBufferIncRef buf;; mret Done
  | DecRef => CdxBufferDecRef buf;; mret Done
  end.
Fixpoint run (buf : Z) (ops : list op) : M world (list result) :=
  match ops with
  | [] => mret []
  | o :: ops => r ← exec buf o; rs ← run buf ops; mret (r :: rs)
  end.

(** The data stays below a gigabyte, the range is made smaller or emptied, and the last reference is
    kept. *)
Definition legal (o : op) (a : abuf) : Prop :=
  match o with
  | Append d => a_front a + zlen (a_win a) + zlen d <= 2 ^ 30
  | Insert d => zlen (a_win a) + zlen d <= 2 ^ 30
  | SetRange off len => 0 <= off /\ 0 <= len /\ off + len <= a_front a + zlen (a_win a) /\ (len = 0 \/ a_front a <= off)
  | SeekRange l r => 0 <= l /\ r <= 0 /\ l - r <= zlen (a_win a)
  | Get => True
  | Meta o => CdxMetaSpec.legal o (a_stack a)
  | IncRef => a_refs a < 2 ^ 30
  | DecRef => 1 < a_refs a
  end.
Fixpoint legal_run (ops : list op) (a : abuf) : Prop :=
  match ops with [] => True | o :: ops => legal o a /\ legal_run ops (astep o a).1 end.
End exec.

(** * Sizes *)

Definition sizes : list Z := [1024; 4096; 16384; 65536; 262144; 1048576; 4194304; 16777216; 67108864; 268435456; 1073741824].

Lemma align_fits val : val <= 2 ^ 30 -> exists c, align_loop 12 1024 val = Some c /\ val <= c /\ c ∈ sizes.
Proof.
  intros Hv. cbn [align_loop].
  repeat match goal with |- context [if ?r <? val then _ else _] =>
    let x := eval vm_compute in r in change r with x;
    destruct (Z.ltb_spec x val); [|exists x; split_and!; [done|lia|unfold sizes; set_solver]] end.
  exfalso. lia.
Qed.
Lemma size_range c : c ∈ sizes -> 1024 <= c <= 2 ^ 30.
Proof. intros Hc. apply (proj1 (Forall_forall (fun c => 1024 <= c <= 2 ^ 30) sizes)); [|done]. repeat constructor; lia. Qed.
Lemma size_fits `{Env} c : c ∈ sizes -> fits c.
Proof.
  intros Hc. pose proof (size_range c Hc). pose proof (AwPoolSpec.spm_range is_wide). split_and!; [lia|lia|].
  unfold AwPool.POOL_LARGE_SIZE. intros Hl. assert (c = 1024) as ->.
  { revert Hc Hl. unfold sizes. rewrite !elem_of_cons. intros Hc Hl. repeat destruct Hc as [->|Hc]; try lia. by apply not_elem_of_nil in Hc. }
  pose proof (AwPoolSpec.room_range is_wide 1024). lia.
Qed.

(** * Parts of lists *)

Section parts.
Context {A : Type}.
Implicit Types (l d x : list A) (f n : Z).

Lemma part_length f n l : 0 <= f -> 0 <= n -> f + n <= zlen l -> zlen (part f n l) = n.
Proof. intros. unfold part. rewrite length_take, length_drop. lia. Qed.
Lemma part_app_l f n l x : 0 <= f -> 0 <= n -> f + n <= zlen l -> part f n (l ++ x) = part f n l.
Proof.
  intros. unfold part. rewrite drop_app_le by lia. rewrite take_app_le by (rewrite length_drop; lia). done.
Qed.
Lemma part_after f n l d x : 0 <= f -> 0 <= n -> f + n <= zlen l ->
  part f (n + zlen d) (take (Z.to_nat (f + n)) l ++ d ++ x) = part f n l ++ d.
Proof.
  intros. unfold part. rewrite drop_app_le by (rewrite length_take; lia).
  rewrite app_assoc, take_app_le by (rewrite length_app, length_drop, length_take; lia).
  replace (Z.to_nat (f + n)) with (Z.to_nat f + Z.to_nat n)%nat by lia. rewrite <- take_drop_commute.
  apply take_ge. rewrite length_app, length_take, length_drop. lia.
Qed.
Lemma part_before f n l d : zlen d <= f -> 0 <= n -> f + n <= zlen l ->
  part (f - zlen d) (n + zlen d) (take (Z.to_nat (f - zlen d)) l ++ d ++ drop (Z.to_nat (f - zlen d) + length d) l) = d ++ part f n l.
Proof.
  intros. unfold part. rewrite drop_app_length' by (rewrite length_take; lia).
  replace (Z.to_nat (f - zlen d) + length d)%nat with (Z.to_nat f) by lia.
  replace (Z.to_nat (n + zlen d)) with (length d + Z.to_nat n)%nat by lia. by rewrite take_app_add.
Qed.
Lemma part_start l x : part 0 (zlen l) (l ++ x) = l.
Proof. unfold part. rewrite drop_0, Nat2Z.id. by rewrite take_app_length. Qed.
Lemma part_part f n f' n' l : f <= f' -> 0 <= f -> 0 <= n' -> f' + n' <= f + n -> part (f' - f) n' (part f n l) = part f' n' l.
Proof.
  intros. unfold part. rewrite skipn_firstn_comm, take_take, drop_drop. f_equal; [lia|f_equal; lia].
Qed.
Lemma part_empty f l : part f 0 l = [].
Proof. done. Qed.
End parts.

End CdxBufferSpec.

Module CdxBufferTheorems.
Import PoolMem PoolMemSpec CdxMeta CdxBuffer CdxBufferSpec.

Section calls.
Context `{Memory} (w0 : world) (pl : Z) (self : bool).
Hypothesis pool_ready : ready w0 (Some pl).
Implicit Types (w : world) (rest l : list (Z * obj)) (b : CdxBufferImpl) (a : abuf).
Abbreviation holds := (holds w0).

(** The fields of a buffer and its bytes, for an abstract buffer. *)
Record fields b (c : list (option Z)) a : Prop := {
  f_pool : buf_pool b = Some pl;
  f_self : selfPool b = self;
  f_cap : mCapacity b = zlen c;
  f_size : mCapacity b ∈ sizes;
  f_front : mRangeOffset b = a_front a;
  f_len : mRangeLen b = zlen (a_win a);
  f_refs : buf_mRef b = a_refs a;
  f_held : 1 <= a_refs a <= 2 ^ 30;
  f_room : 0 <= a_front a /\ a_front a + zlen (a_win a) <= mCapacity b;
  f_win : part (a_front a) (zlen (a_win a)) c = map Some (a_win a)
}.
Definition pieces buf b c rest : list (Z * obj) := (buf, OBuffer b) :: (mData b, OBytes c) :: rest.
Definition brep buf a w : Prop :=
  exists b c es, holds (pieces buf b c (CdxMetaSpec.owned (Some pl) 1 (mMeta b) es)) w /\ fields b c a /\
    Forall CdxMetaSpec.good es /\ CdxMetaSpec.abs es = a_stack a.

Lemma fields_range b c a : fields b c a -> 0 <= a_front a <= 2 ^ 30 /\ 0 <= zlen (a_win a) <= 2 ^ 30 /\ 1024 <= mCapacity b <= 2 ^ 30 /\
  zlen c = mCapacity b /\ 0 <= a_front a /\ a_front a + zlen (a_win a) <= zlen c.
Proof. intros [? ? Hc Hs ? ? ? ? [? ?] ?]. pose proof (size_range _ Hs). lia. Qed.

Lemma twp_load_b buf b c rest w Q : holds (pieces buf b c rest) w -> Q b w -> twp (load_buffer buf) Q w.
Proof. intros Hw HQ. eapply twp_load_buffer; [exact Hw|by left|done]. Qed.
Lemma twp_mod_b buf b l w (f : CdxBufferImpl -> CdxBufferImpl) Q : holds ((buf, OBuffer b) :: l) w ->
  (forall w', holds ((buf, OBuffer (f b)) :: l) w' -> Q tt w') -> twp (mod_buffer buf f) Q w.
Proof.
  intros Hw HQ. unfold mod_buffer. apply twp_bind. eapply twp_load_buffer; [exact Hw|by left|].
  eapply (twp_store w0 _ l); [exact Hw|reflexivity|done|done].
Qed.

(** ** Growing *)

Lemma on_write_ok buf b c a rest w (d : list Z) Q : holds (pieces buf b c rest) w -> fields b c a ->
  a_front a + zlen (a_win a) + zlen d <= 2 ^ 30 ->
  (forall b' c' w', holds (pieces buf b' c' rest) w' -> mMeta b' = mMeta b ->
     fields b' c' a -> part (a_front a) (zlen (a_win a) + zlen d) c' = map Some (a_win a ++ d) ->
     a_front a + zlen (a_win a) + zlen d <= mCapacity b' -> Q tt w') ->
  twp (onWrite buf (a_front a + zlen (a_win a)) d (zlen d)) Q w.
Proof.
  intros Hw F Hd HQ. pose proof (fields_range _ _ _ F) as (R1 & R2 & R3 & R4 & R5 & R6). set (off := a_front a + zlen (a_win a)) in *.
  unfold onWrite. apply twp_bind. eapply twp_load_b; [exact Hw|]. rewrite u32_small by lia.
  assert (forall b' c' w', holds (pieces buf b' c' rest) w' -> mMeta b' = mMeta b -> fields b' c' a -> off + zlen d <= mCapacity b' ->
    twp (x ← load_buffer buf; write (mData x) off (map Some d)) Q w') as Hwrite.
  { intros b' c' w1 H1 Hm F1 Hc. pose proof (fields_range _ _ _ F1) as (S1 & S2 & S3 & S4 & S5 & S6).
    apply twp_bind. eapply twp_load_b; [exact H1|].
    eapply (twp_write w0 _ ((buf, OBuffer b') :: rest)); [exact H1|apply Permutation_swap|lia|rewrite length_map; lia|].
    intros w2 H2. set (c2 := take _ c' ++ _) in H2.
    assert (zlen c2 = zlen c') as Hl by (unfold c2; rewrite !length_app, length_take, length_map, length_drop; lia).
    assert (part (a_front a) (zlen (a_win a) + zlen d) c2 = map Some (a_win a ++ d)) as Hp.
    { unfold c2, off. rewrite <- (length_map Some d), part_after by lia. by rewrite (f_win _ _ _ F1), map_app. }
    apply (HQ b' c2 w2); try done.
    - unfold pieces. by rewrite (Permutation_swap (mData b', _)).
    - destruct F1. split; try done; [lia|].
      pose proof (f_equal (take (length (a_win a))) Hp) as E. unfold part in E |- *.
      rewrite take_take, map_app, take_app_length' in E by (by rewrite length_map). rewrite <- E. f_equal. lia. }
  destruct (Z.ltb_spec (mCapacity b) (off + zlen d)) as [Hlt|Hge].
  2: { apply twp_bind, twp_ret. apply (Hwrite b c); done. }
  apply twp_bind, twp_bind. destruct (align_fits (off + zlen d) ltac:(lia)) as (k & Ek & Hk & Hs). pose proof (size_range _ Hs) as Hsr.
  eapply twp_lift; [exact Ek|]. apply twp_bind. eapply twp_mod_b; [exact Hw|]. intros w1 H1. apply twp_bind.
  eapply (twp_prealloc w0 _ _ w1 _ (mData b) c k); [exact H1|by rewrite (f_pool _ _ _ F)|apply Permutation_swap|by apply size_fits|lia|].
  intros q w2 H2. apply twp_bind, twp_lift with q; [done|].
  rewrite (Permutation_swap (buf, _)) in H2. eapply twp_mod_b; [exact H2|]. intros w3 H3.
  eapply (Hwrite _ _ w3 H3); [done| |simpl; lia]. destruct F. split; try done; simpl.
  - rewrite length_app, length_replicate. lia.
  - lia.
  - by rewrite part_app_l by lia.
Qed.

Lemma append_ok buf a d w : brep buf a w -> legal (Append d) a ->
  twp (CdxBufferAppend buf d) (fun _ w' => brep buf (astep (Append d) a).1 w') w.
Proof.
  intros (b & c & es & Hw & F & G & E) L. simpl in L. pose proof (fields_range _ _ _ F) as (R1 & R2 & R3 & R4 & R5 & R6).
  unfold CdxBufferAppend, __CdxBufferAppend. apply twp_bind. eapply twp_load_b; [exact Hw|].
  rewrite (f_front _ _ _ F), (f_len _ _ _ F), u32_small by lia. apply twp_bind.
  eapply on_write_ok; [exact Hw|exact F|exact L|]. intros b' c' w1 H1 Hm F1 Hp Hc. apply twp_bind. eapply twp_load_b; [exact H1|].
  eapply twp_mod_b; [exact H1|]. intros w2 H2. rewrite <- Hm in H2. eexists _, c', es. split; [exact H2|].
  split; [|done]. destruct F1. split; try done; simpl.
  - rewrite f_len0, length_app, u32_small by lia. lia.
  - rewrite length_app. lia.
  - by rewrite length_app, Nat2Z.inj_add.
Qed.

Lemma insert_ok buf a d w : brep buf a w -> legal (Insert d) a ->
  twp (CdxBufferInsert buf d) (fun _ w' => brep buf (astep (Insert d) a).1 w') w.
Proof.
  intros (b & c & es & Hw & F & G & E) L. simpl in L. pose proof (fields_range _ _ _ F) as (R1 & R2 & R3 & R4 & R5 & R6).
  unfold CdxBufferInsert, __CdxBufferInsert. apply twp_bind. eapply twp_load_b; [exact Hw|].
  rewrite (f_front _ _ _ F), (f_len _ _ _ F). simpl. destruct (Z.leb_spec (zlen d) (a_front a)) as [Hd|Hd].
  { apply twp_bind. eapply twp_mod_b; [exact Hw|]. intros w1 H1. apply twp_bind. eapply twp_load_b; [exact H1|]. simpl.
    rewrite (f_front _ _ _ F). eapply twp_write; [exact H1|apply Permutation_swap|lia|rewrite length_map; lia|]. intros w2 H2.
    rewrite (Permutation_swap (buf, _)) in H2. eexists _, _, es. split; [exact H2|]. split; [|done]. destruct F. split; try done; simpl.
    - rewrite !length_app, length_take, length_map, length_drop. lia.
    - rewrite f_front0. done.
    - rewrite f_len0, length_app, u32_small by lia. lia.
    - rewrite length_app. lia.
    - rewrite length_app, map_app, <- f_win0, <- (length_map Some d), Nat2Z.inj_add, Z.add_comm. apply part_before; rewrite ?length_map; lia. }
  rewrite u32_small by lia. rewrite Z.geb_leb. destruct (Z.leb_spec (zlen (a_win a) + zlen d) (mCapacity b)) as [Hc|Hc].
  - apply twp_bind. eapply (twp_read_bytes w0 _ w (mData b) c); [exact Hw|right; by left|lia|lia|lia|].
    change (take (Z.to_nat (zlen (a_win a))) (drop (Z.to_nat (a_front a)) c)) with (part (a_front a) (zlen (a_win a)) c).
    rewrite (f_win _ _ _ F). apply twp_bind. eapply twp_write; [exact Hw|apply Permutation_swap|lia|rewrite length_map; lia|].
    intros w1 H1. apply twp_bind. eapply twp_write; [exact H1|reflexivity|lia|rewrite !length_app, length_take, !length_map, length_drop; lia|].
    intros w2 H2. rewrite (Permutation_swap (buf, _)) in H2. eapply twp_mod_b; [exact H2|]. intros w3 H3.
    eexists _, _, es. split; [exact H3|]. split; [|done]. destruct F. split; try done; simpl.
    + rewrite !length_app, !length_drop, !length_app, length_take, !length_map, length_drop. lia.
    + rewrite f_len0, length_app, u32_small by lia. lia.
    + rewrite length_app. lia.
    + rewrite length_app, map_app, !length_map, Nat2Z.id, drop_app_length' by (rewrite length_take; lia).
      rewrite app_assoc, <- (length_map Some d), <- (length_map Some (a_win a)), <- length_app. apply part_start.
  - destruct (align_fits (zlen (a_win a) + zlen d) ltac:(lia)) as (k & Ek & Hk & Hs). pose proof (size_range _ Hs) as Hsr.
    apply twp_bind. eapply twp_lift; [exact Ek|]. apply twp_bind. eapply twp_mod_b; [exact Hw|]. intros w1 H1. apply twp_bind.
    eapply twp_palloc; [exact H1|by rewrite (f_pool _ _ _ F)|by apply size_fits|]. intros q w2 H2. apply twp_bind, twp_lift with q; [done|].
    apply twp_bind. eapply twp_write; [exact H2|reflexivity|lia|rewrite length_map, length_replicate; lia|]. intros w3 H3. simpl in H3.
    apply twp_bind. eapply (twp_read_bytes w0 _ w3 (mData b) c); [exact H3|right; right; by left|lia|lia|lia|].
    change (take (Z.to_nat (zlen (a_win a))) (drop (Z.to_nat (a_front a)) c)) with (part (a_front a) (zlen (a_win a)) c).
    rewrite (f_win _ _ _ F). apply twp_bind. eapply twp_write; [exact H3|reflexivity|lia| |].
    { rewrite length_app, length_drop, !length_map, length_replicate. lia. }
    intros w4 H4. rewrite Nat2Z.id, take_app_length' in H4 by (by rewrite length_map).
    apply twp_bind. eapply (twp_pfree w0); [exact H4|by rewrite (f_pool _ _ _ F)| |].
    { symmetry. refine (Permutation_middle [_; _] _ _). }
    intros w5 H5. simpl in H5. rewrite (Permutation_swap (buf, _)) in H5. eapply twp_mod_b; [exact H5|]. intros w6 H6.
    eexists _, _, es. split; [exact H6|]. split; [|done]. destruct F. split; try done; simpl.
    + rewrite !length_app, length_drop, length_app, length_drop, !length_map, length_replicate. lia.
    + rewrite f_len0, length_app, u32_small by lia. lia.
    + rewrite length_app. lia.
    + rewrite length_app, map_app, app_assoc, <- (length_map Some d), <- (length_map Some (a_win a)), <- length_app. apply part_start.
Qed.

(** ** The range *)

Lemma part_map (f n : Z) (l : list Z) : part f n (map Some l) = map Some (part f n l).
Proof. unfold part. by rewrite skipn_map, firstn_map. Qed.

(** A smaller range. *)
Lemma fields_part b c a off len : fields b c a -> 0 <= off -> 0 <= len -> off + len <= a_front a + zlen (a_win a) ->
  (len = 0 \/ a_front a <= off) ->
  fields (b <| mRangeOffset := off |> <| mRangeLen := len |>) c (a <| a_front := off |> <| a_win := part (off - a_front a) len (a_win a) |>).
Proof.
  intros F H1 H2 H3 H4. pose proof (fields_range _ _ _ F) as (R1 & R2 & R3 & R4 & R5 & R6).
  assert (zlen (part (off - a_front a) len (a_win a)) = len) as Hl.
  { destruct H4 as [->|H4]; [by rewrite part_empty|]. apply part_length; lia. }
  destruct F. split; try done; simpl.
  - rewrite Hl. lia.
  - rewrite Hl, <- part_map, <- f_win0. destruct H4 as [->|H4]; [by rewrite !part_empty|]. by rewrite part_part by lia.
Qed.

Lemma set_range_ok buf a off len w : brep buf a w -> legal (SetRange off len) a ->
  twp (CdxBufferSetRange buf off len) (fun _ w' => brep buf (astep (SetRange off len) a).1 w') w.
Proof.
  intros (b & c & es & Hw & F & G & E) (L1 & L2 & L3 & L4). eapply twp_mod_b; [exact Hw|]. intros w1 H1.
  eexists _, c, es. split; [exact H1|]. split; [by apply fields_part|done].
Qed.
Lemma seek_range_ok buf a (l r : Z) w : brep buf a w -> legal (SeekRange l r) a ->
  twp (CdxBufferSeekRange buf l r) (fun _ w' => brep buf (astep (SeekRange l r) a).1 w') w.
Proof.
  intros (b & c & es & Hw & F & G & E) (L1 & L2 & L3). pose proof (fields_range _ _ _ F) as (R1 & R2 & R3 & R4 & R5 & R6).
  unfold CdxBufferSeekRange, __CdxBufferSeekRange. apply twp_bind. eapply twp_load_b; [exact Hw|].
  rewrite (f_front _ _ _ F), (f_len _ _ _ F), !s32_small by lia. apply twp_bind, twp_iadd; [lia|]. rewrite u32_small by lia.
  apply twp_bind. eapply twp_mod_b; [exact Hw|]. intros w1 H1. apply twp_bind, twp_isub; [lia|]. apply twp_bind, twp_iadd; [lia|].
  rewrite u32_small by lia. eapply twp_mod_b; [exact H1|]. intros w2 H2. eexists _, c, es. split; [exact H2|]. split; [|done].
  pose proof (fields_part b c a (a_front a + l) (zlen (a_win a) + (r - l)) F ltac:(lia) ltac:(lia) ltac:(lia) ltac:(lia)) as F'.
  replace (a_front a + l - a_front a) with l in F' by lia. exact F'.
Qed.

(** ** Sessions *)

Lemma bexec_ok buf a w o : brep buf a w -> legal o a ->
  twp (exec buf o) (fun z w' => z = (astep o a).2 /\ brep buf (astep o a).1 w') w.
Proof.
  intros B L. destruct o as [d|d|off len|l r| |o| |]; cbn [exec].
  - apply twp_bind. eapply twp_mono; [by apply append_ok|]. by intros u w1 B1.
  - apply twp_bind. eapply twp_mono; [by apply insert_ok|]. by intros u w1 B1.
  - apply twp_bind. eapply twp_mono; [by apply set_range_ok|]. by intros u w1 B1.
  - apply twp_bind. eapply twp_mono; [by apply seek_range_ok|]. by intros u w1 B1.
  - destruct B as (b & c & es & Hw & F & G & E). pose proof (fields_range _ _ _ F) as (R1 & R2 & R3 & R4 & R5 & R6).
    apply twp_bind, twp_bind. eapply twp_load_b; [exact Hw|]. apply twp_ret, twp_bind, twp_bind. eapply twp_load_b; [exact Hw|].
    apply twp_ret, twp_bind. rewrite (f_front _ _ _ F), (f_len _ _ _ F).
    eapply (twp_read_bytes w0 _ w (mData b) c); [exact Hw|right; by left|lia|lia|lia|]. apply twp_ret.
    split; [|by exists b, c, es]. simpl. f_equal. apply F.
  - destruct B as (b & c & es & Hw & F & G & E). apply twp_bind, twp_bind. eapply twp_load_b; [exact Hw|]. apply twp_ret, twp_bind.
    simpl in L |- *. rewrite <- E in L |- *. eapply twp_mono.
    + apply (CdxMetaTheorems.meta_exec_ok w0 (Some pl) pool_ready 1 (mMeta b) es [(buf, OBuffer b); (mData b, OBytes c)]); [|done].
      split; [|done]. rewrite Permutation_app_comm. exact Hw.
    + intros z w1 (-> & es' & E' & [R' G']). rewrite Permutation_app_comm in R'. apply twp_ret.
      destruct (CdxMetaSpec.astep o (CdxMetaSpec.abs es)) as [st z]. simpl in *. split; [done|]. exists b, c, es'. split; [exact R'|].
      split; [|done]. destruct F. by split.
  - destruct B as (b & c & es & Hw & F & G & E). apply twp_bind, twp_bind. eapply twp_mod_b; [exact Hw|]. intros w1 H1.
    apply twp_ret, twp_ret. split; [done|]. eexists _, c, es. split; [exact H1|]. split; [|done]. destruct F. simpl in L.
    split; try done; simpl; lia.
  - destruct B as (b & c & es & Hw & F & G & E). simpl in L. apply twp_bind. unfold CdxBufferDecRef, __CdxBufferDecRef. apply twp_bind.
    eapply twp_load_b; [exact Hw|]. apply twp_bind. eapply twp_mod_b; [exact Hw|]. intros w1 H1. rewrite (f_refs _ _ _ F).
    pose proof (f_held _ _ _ F) as Hr. rewrite s32_small by lia. replace (a_refs a - 1 =? 0) with false by lia. apply twp_ret, twp_ret.
    split; [done|]. eexists _, c, es. split; [exact H1|]. split; [|done]. destruct F. split; try done; simpl; lia.
Qed.

Lemma brun_ok buf ops : forall a w, brep buf a w -> legal_run ops a ->
  twp (run buf ops) (fun zs w' => zs = (arun ops a).2 /\ brep buf (arun ops a).1 w') w.
Proof.
  induction ops as [|o ops IH]; intros a w B L; [done|]. destruct L as [L1 L2]. cbn [run arun]. apply twp_bind.
  eapply twp_mono; [by apply bexec_ok|]. intros z w1 (-> & B1). apply twp_bind. eapply twp_mono; [by apply IH|]. intros zs w2 (-> & B2).
  apply twp_ret. destruct (astep o a) as [a1 z]. simpl in *. by destruct (arun ops a1) as [a2 zs].
Qed.

(** ** Creation and destruction *)

Definition fresh_buf (initData : option (list Z)) : abuf := mkABuf 1 0 (default [] initData) [].

Lemma new_impl_ok po l w Q : holds l w -> ready w0 po ->
  (forall impl w', holds ((impl, OBuffer (mkBuffer None false 0 0 0 0 0 0)) :: l) w' -> Q impl w') -> twp (new_impl po) Q w.
Proof.
  intros Hw R HQ. unfold new_impl. apply twp_bind.
  eapply twp_palloc; [exact Hw|done|apply CdxMetaTheorems.fits_small; unfold sizeof_buffer; destruct is_wide; lia|]. intros i w1 H1.
  apply twp_bind, twp_lift with i; [done|]. apply twp_bind. eapply (twp_store w0 _ l); [exact H1|reflexivity| |].
  { cbn [size_of]. rewrite length_replicate. unfold sizeof_buffer. destruct is_wide; lia. }
  intros w2 H2. by apply twp_ret, HQ.
Qed.

Lemma create_init_ok impl capacity initData w : holds [(impl, OBuffer (mkBuffer None false 0 0 0 0 0 0))] w ->
  capacity <= 2 ^ 30 -> zlen (default [] initData) <= capacity ->
  twp (create_init impl pl self capacity initData) (fun buf w' => brep buf (fresh_buf initData) w') w.
Proof.
  intros Hw Hc Hi. unfold create_init. apply twp_bind. eapply twp_mod_b; [exact Hw|]. intros w1 H1. apply twp_bind.
  eapply (CdxMetaTheorems.meta_create_ok w0 (Some pl) pool_ready); [exact H1|]. intros meta w2 [H2 _].
  apply twp_bind. rewrite Permutation_app_comm in H2. eapply twp_mod_b; [exact H2|]. intros w3 H3.
  destruct (align_fits capacity Hc) as (k & Ek & Hk & Hs). pose proof (size_range _ Hs) as Hr. apply twp_bind. eapply twp_lift; [exact Ek|].
  apply twp_bind. eapply twp_mod_b; [exact H3|]. intros w4 H4. apply twp_bind. eapply twp_palloc; [exact H4|done|by apply size_fits|].
  intros d w5 H5. apply twp_bind, twp_lift with d; [done|]. apply twp_bind. rewrite (Permutation_swap (impl, _)) in H5.
  eapply twp_mod_b; [exact H5|]. intros w6 H6. apply twp_bind. simpl in H6.
  assert (length (replicate (Z.to_nat k) (@None Z)) = Z.to_nat k) as Hlen by apply length_replicate.
  destruct initData as [[|x data]|].
  2: { set (ds := x :: data) in *. change (zlen ds <= capacity) in Hi. apply twp_bind. eapply twp_write; [exact H6|apply Permutation_swap|done|rewrite length_map, Hlen; lia|].
    intros w7 H7. rewrite (Permutation_swap (impl, _)) in H7. eapply twp_mod_b; [exact H7|]. intros w8 H8. apply twp_bind.
    eapply twp_mod_b; [exact H8|]. intros w9 H9. apply twp_ret. simpl in H9. eexists _, _, []. split; [exact H9|]. split; [|split; [constructor|done]].
    split; try done; simpl.
    - rewrite length_app, length_drop, length_map, Hlen. simpl in Hi. lia.
    - simpl in Hi. lia.
    - rewrite <- (length_map Some data) at 1. apply (part_start (Some x :: map Some data)). }
  all: apply twp_ret, twp_bind; (eapply twp_mod_b; [exact H6|]); intros w7 H7; apply twp_ret; simpl in H7; eexists _, _, [];
    (split; [exact H7|]); (split; [|split; [constructor|done]]); split; try done; simpl; lia.
Qed.

Lemma buffer_destroy_ok buf a w : brep buf a w -> a_refs a = 1 ->
  (if self then forall Q, (forall w1, holds [] w1 -> twp (PoolDestroy pl) Q w1) -> twp (CdxBufferDestroy buf) Q w
   else twp (CdxBufferDestroy buf) (fun _ w' => holds [] w') w).
Proof.
  intros (b & c & es & Hw & F & G & E) Hr.
  assert (forall Q, (forall w1, holds [] w1 -> if self then twp (PoolDestroy pl) Q w1 else Q tt w1) -> twp (CdxBufferDestroy buf) Q w) as D.
  { intros Q HQ. unfold CdxBufferDestroy, __CdxBufferDecRef. apply twp_bind. eapply twp_load_b; [exact Hw|].
    apply twp_bind. eapply twp_mod_b; [exact Hw|]. intros w1 H1. rewrite (f_refs _ _ _ F), Hr. change (s32 (1 - 1) =? 0) with true. cbv iota.
    apply twp_bind. eapply (CdxMetaTheorems.meta_destroy_ok w0 (Some pl) pool_ready (mMeta b) es
      [(buf, OBuffer (b <| buf_mRef := 1 - 1 |>)); (mData b, OBytes c)]); [split; [|done]|].
    { rewrite Permutation_app_comm. rewrite (f_refs _ _ _ F), Hr in H1. exact H1. }
    intros w2 H2. apply twp_bind. eapply twp_pfree; [exact H2|by rewrite (f_pool _ _ _ F)|apply Permutation_swap|]. intros w3 H3.
    rewrite (f_self _ _ _ F), (f_pool _ _ _ F). destruct self.
    - apply twp_bind, twp_lift with pl; [done|]. apply twp_bind. eapply twp_pfree; [exact H3|done|reflexivity|]. exact HQ.
    - eapply twp_pfree; [exact H3|done|reflexivity|]. exact HQ. }
  destruct self; [exact D|]. apply D. done.
Qed.

(** ** Strings *)

(** The C string at the pointer that [CdxStringGet] gives. *)
Definition string_text (buf : Z) : M world str :=
  '(p, off) ← CdxStringGet buf; c ← load_bytes p; lift (cstr (drop (Z.to_nat off) c)).
Fixpoint append_all (buf : Z) (vs : list str) : M world unit :=
  match vs with [] => mret tt | v :: vs => CdxStringAppend buf v;; append_all buf vs end.

Lemma part_cstr (c : list (option Z)) (t : str) : (0 ∉ t) -> part 0 (zlen t + 1) c = map Some (t ++ [0]) -> cstr c = Some t.
Proof.
  intros Ht Hp. unfold part in Hp. rewrite drop_0 in Hp. rewrite <- (take_drop (Z.to_nat (zlen t + 1)) c), Hp.
  by apply CdxMetaSpec.cstr_ok.
Qed.

Lemma string_append_ok buf t v w : brep buf (mkABuf 1 0 t []) w -> (0 ∉ t ++ v) -> zlen t + zlen v + 1 <= 2 ^ 30 ->
  twp (CdxStringAppend buf v) (fun _ w' => brep buf (mkABuf 1 0 (t ++ v) []) w' /\
    twp (string_text buf) (fun s w2 => w2 = w' /\ s = t ++ v) w') w.
Proof.
  intros B Ht Hl. unfold CdxStringAppend. apply twp_bind. eapply twp_mono.
  { apply (append_ok buf _ (v ++ [0]) w B). simpl. rewrite length_app. simpl. lia. }
  intros u w1 (b & c & es & Hw & F & G & E). pose proof (fields_range _ _ _ F) as (R1 & R2 & R3 & R4 & R5 & R6). simpl in R2, R6.
  assert (zlen (t ++ v ++ [0]) = zlen (t ++ v) + 1) as Hz by (rewrite !length_app; simpl; lia).
  apply twp_bind, twp_bind. eapply twp_load_b; [exact Hw|]. apply twp_ret. rewrite (f_len _ _ _ F). simpl.
  rewrite Hz. replace (u32 (zlen (t ++ v) + 1 - 1)) with (zlen (t ++ v)) by (rewrite u32_small; lia).
  eapply twp_mod_b; [exact Hw|]. intros w2 H2.
  pose proof (fields_part b c _ 0 (zlen (t ++ v)) F ltac:(lia) ltac:(lia) ltac:(simpl; lia) ltac:(simpl; lia)) as F'. simpl in F'.
  change (0 - 0) with 0 in F'. rewrite app_assoc, part_start in F'. split; [eexists _, c, es; split; [exact H2|split; [exact F'|done]]|].
  apply twp_bind, twp_bind. eapply twp_load_b; [exact H2|]. apply twp_ret, twp_bind.
  eapply twp_load_bytes; [exact H2|right; by left|]. eapply twp_lift; [|done]. rewrite drop_0. apply part_cstr; [done|].
  pose proof (f_win _ _ _ F) as W. simpl in W. by rewrite Hz, app_assoc in W.
Qed.

Lemma append_all_ok buf vs : forall t w, brep buf (mkABuf 1 0 t []) w -> (0 ∉ t ++ concat vs) -> zlen (t ++ concat vs) + 1 <= 2 ^ 30 ->
  vs <> [] -> twp (append_all buf vs;; string_text buf) (fun s w' => s = t ++ concat vs /\ brep buf (mkABuf 1 0 s []) w') w.
Proof.
  induction vs as [|v vs IH]; intros t w B H1 H2 Hne; [done|]. cbn [concat append_all] in *. rewrite app_assoc in H1, H2.
  apply twp_bind, twp_bind. eapply twp_mono; [apply (string_append_ok buf t v w B)|].
  { intros Hin. apply H1, elem_of_app. by left. }
  { rewrite !length_app in H2. lia. }
  intros u w1 [B1 T]. rewrite app_assoc. destruct vs as [|v' vs].
  - cbn [concat append_all]. rewrite app_nil_r. apply twp_ret. eapply twp_mono; [exact T|]. intros s w2 [-> ->]. done.
  - pose proof (IH (t ++ v) w1 B1 H1 H2 ltac:(done)) as T'. unfold twp, mbind, M_bind in T' |- *.
    by destruct (append_all buf (v' :: vs) w1).
Qed.
End calls.

(** * The theorems *)

(** The pools afterwards; the global pool is made when it is needed. *)
Definition pools_kept (pool : option Z) (w w' : world) : Prop :=
  match pool with
  | Some _ => dom (AwPool.pools (pst w')) = dom (AwPool.pools (pst w))
  | None => exists g, AwPool.gGolbalPool (pst w') = Some g /\ dom (AwPool.pools (pst w')) = {[g]} ∪ dom (AwPool.pools (pst w))
  end.
Definition pool_given `{Env} (w : world) (pool : option Z) : Prop := match pool with Some _ => ready w pool | None => True end.

Lemma holds_pools `{Env} w0 l w : holds w0 l w -> dom (AwPool.pools (pst w)) = dom (AwPool.pools (pst w0)).
Proof.
  intros [_ _ _ Hk _]. unfold AwPoolKin.kin in Hk.
  by rewrite <- (dom_fmap_L (fun P => (AwPool.father P, AwPool.childList P)) (AwPool.pools (pst w))), Hk, dom_fmap_L.
Qed.

(** Between creation and destruction, whatever is done with the buffer in between. *)
Lemma buffer_life `{Memory} (w0 : world) (pool : option Z) (capacity : Z) (initData : option (list Z)) {A} (body : Z -> M world A) (P : A -> Prop) :
  sane w0 -> pool_given w0 pool -> capacity <= 2 ^ 30 -> zlen (default [] initData) <= capacity ->
  (forall w1 pl self buf w, ready w1 (Some pl) -> brep w1 pl self buf (fresh_buf initData) w ->
     twp (body buf) (fun r w' => P r /\ exists a, a_refs a = 1 /\ brep w1 pl self buf a w') w) ->
  exists buf w1 r w2 w3, __CdxBufferCreate pool capacity initData w0 = Ok buf w1 /\ body buf w1 = Ok r w2 /\ P r /\
    CdxBufferDestroy buf w2 = Ok tt w3 /\ same w0 w3 /\ pools_kept pool w0 w3.
Proof.
  intros S R Hc Hi Hbody. destruct pool as [p|]; simpl in R.
  - assert (twp (__CdxBufferCreate (Some p) capacity initData) (fun buf w => brep w0 p false buf (fresh_buf initData) w) w0) as T.
    { apply twp_bind. eapply new_impl_ok; [by apply holds_start|done|]. intros impl w1 H1. by apply create_init_ok. }
    destruct (twp_elim _ _ _ T) as (buf & w1 & E1 & B1).
    destruct (twp_elim _ _ _ (Hbody w0 p false buf w1 R B1)) as (r & w2 & E2 & HP & a & Ha & B2).
    destruct (twp_elim _ _ _ (buffer_destroy_ok w0 p false R buf a w2 B2 Ha)) as ([] & w3 & E3 & H3).
    exists buf, w1, r, w2, w3. split_and!; try done; [by apply holds_same|]. by apply (holds_pools w0 []).
  - assert (twp (__CdxBufferCreate None capacity initData) (fun buf w => exists w1 pl g, sane w1 /\ mem w1 = mem w0 /\
      (forall a, block w1 a = block w0 a) /\ own_pool w1 pl /\ AwPool.gGolbalPool (pst w1) = Some g /\
      (pl ∉ {[g]} ∪ dom (AwPool.pools (pst w0))) /\ dom (AwPool.pools (pst w1)) = {[pl]} ∪ ({[g]} ∪ dom (AwPool.pools (pst w0))) /\
      brep w1 pl true buf (fresh_buf initData) w) w0) as T.
    { apply twp_bind. apply twp_pool_create; [done|]. intros pl g w1 S1 M1 B1 O1 G1 N1 D1. apply twp_bind.
      eapply (new_impl_ok w1); [by apply holds_start| |].
      { unfold ready, AwPoolTheorems.usable, AwPoolCalls.target. rewrite G1. simpl. apply elem_of_dom. rewrite D1. set_solver. }
      intros impl w2 H2. eapply twp_mono; [by apply (create_init_ok w1 pl true (own_ready w1 pl O1))|]. intros buf w' B'. by exists w1, pl, g. }
    destruct (twp_elim _ _ _ T) as (buf & w1 & E1 & v & pl & g & S1 & M1 & B1 & O1 & G1 & N1 & D1 & B).
    destruct (twp_elim _ _ _ (Hbody v pl true buf w1 (own_ready v pl O1) B)) as (r & w2 & E2 & HP & a & Ha & B2).
    assert (twp (CdxBufferDestroy buf) (fun _ w' => same w0 w' /\ pools_kept None w0 w') w2) as T3.
    { apply (buffer_destroy_ok v pl true (own_ready v pl O1) buf a w2 B2 Ha). intros w4 H4. eapply twp_pool_destroy; [exact H4|done|].
      intros w5 W5 M5 B5 G5 D5. split.
      - split; [congruence|]. intros x. by rewrite B5, B1.
      - exists g. split; [congruence|]. rewrite D5, D1. set_solver. }
    destruct (twp_elim _ _ _ T3) as ([] & w3 & E3 & H3 & H4). by exists buf, w1, r, w2, w3.
Qed.

(** C29: a buffer is a string of bytes with named values: after any session of calls that are in order,
    in a pool of the caller or one of its own, each look at the data has found what was inserted,
    put in and appended, less what was cut off, whatever moves of the memory this took; destroying the
    buffer leaves memory, its contents and the pools as they were before it was created. *)
Theorem buffer_refines (E : Env) (Mem : Memory) (w0 : world) (pool : option Z) (capacity : Z) (initData : option (list Z)) (ops : list op) :
  sane w0 -> pool_given w0 pool -> capacity <= 2 ^ 30 -> zlen (default [] initData) <= capacity ->
  legal_run ops (fresh_buf initData) -> a_refs (arun ops (fresh_buf initData)).1 = 1 ->
  exists buf w1 w2 w3, __CdxBufferCreate pool capacity initData w0 = Ok buf w1 /\
    run buf ops w1 = Ok (arun ops (fresh_buf initData)).2 w2 /\
    CdxBufferDestroy buf w2 = Ok tt w3 /\ same w0 w3 /\ pools_kept pool w0 w3.
Proof.
  intros S R Hc Hi L Hr.
  destruct (buffer_life w0 pool capacity initData (fun buf => run buf ops) (fun zs => zs = (arun ops (fresh_buf initData)).2) S R Hc Hi)
    as (buf & w1 & zs & w2 & w3 & E1 & E2 & -> & E3 & E4 & E5).
  - intros v pl self buf w Rv B. eapply twp_mono; [by apply (brun_ok v pl self Rv)|]. intros zs w' [-> B']. split; [done|]. eauto.
  - by exists buf, w1, w2, w3.
Qed.

(** A session in a pool of its own: a header is inserted before data that makes the buffer grow,
    and read off again. *)
Definition tale : list op :=
  [Append (replicate 1000 7); Insert [1; 2; 3]; SeekRange 0 (-1000); Append (replicate 2000 8); SetRange 0 4; Get; SeekRange 1 0;
   Insert [9]; Get; IncRef; Meta (CdxMetaSpec.Set_ [97] (CdxMetaSpec.AInt64 5)); DecRef; Meta (CdxMetaSpec.Find KInt64 [97])].
Lemma tale_legal : legal_run tale (fresh_buf (Some [5])).
Proof.
  unfold tale. cbn [legal_run]. split_and!; try exact I; try (vm_compute; split_and?; discriminate); try (vm_compute; reflexivity).
  - vm_compute. split_and!; try discriminate. right. discriminate.
  - split; [split; [simpl; lia|set_solver]|done].
  - simpl. set_solver.
Qed.
Lemma buffer_refines_witness :
  exists buf w1 w2 w3, __CdxBufferCreate None 1024 (Some [5]) nothing = Ok buf w1 /\
    run buf tale w1 = Ok [Done; Done; Done; Done; Done; Bytes [Some 1; Some 2; Some 3; Some 5]; Done; Done;
      Bytes [Some 9; Some 2; Some 3; Some 5]; Done; Value (CdxMetaSpec.Code 0); Done;
      Value (CdxMetaSpec.Found (Some (CdxMetaSpec.AInt64 5)))] w2 /\
    CdxBufferDestroy buf w2 = Ok tt w3 /\ same nothing w3 /\ pools_kept None nothing w3.
Proof.
  destruct (buffer_refines endless_env endless_memory nothing None 1024 (Some [5]) tale sane_nothing I ltac:(lia) ltac:(simpl; lia) tale_legal)
    as (buf & w1 & w2 & w3 & E1 & E2 & E3); [vm_compute; reflexivity|].
  exists buf, w1, w2, w3. split; [done|]. split; [|done]. rewrite E2. f_equal.
Defined.

(** C32: the text of a string to which pieces were appended is their concatenation, ended by a NUL,
    whatever memory it took; destroying it leaves memory as it was. *)
Theorem string_concat (E : Env) (Mem : Memory) (w0 : world) (pool : option Z) (vs : list str) :
  sane w0 -> pool_given w0 pool -> vs <> [] -> (0 ∉ concat vs) -> zlen (concat vs) < 2 ^ 30 ->
  exists buf w1 w2 w3, CdxStringCreate pool w0 = Ok buf w1 /\
    (append_all buf vs;; string_text buf) w1 = Ok (concat vs) w2 /\
    CdxStringDestroy buf w2 = Ok tt w3 /\ same w0 w3 /\ pools_kept pool w0 w3.
Proof.
  intros S R Hne Hz Hl.
  destruct (buffer_life w0 pool 1024 None (fun buf => append_all buf vs;; string_text buf) (fun s => s = concat vs) S R ltac:(lia) ltac:(simpl; lia))
    as (buf & w1 & s & w2 & w3 & E1 & E2 & -> & E3 & E4 & E5).
  - intros v pl self buf w Rv B. eapply twp_mono; [apply (append_all_ok v pl self Rv buf vs [] w B); simpl; [done|lia|done]|].
    intros s w' [-> B']. split; [done|]. by exists (mkABuf 1 0 (concat vs) []).
  - by exists buf, w1, w2, w3.
Qed.
Lemma string_concat_witness :
  exists buf w1 w2 w3, CdxStringCreate None nothing = Ok buf w1 /\
    (append_all buf [[104; 105]; []; [33]];; string_text buf) w1 = Ok [104; 105; 33] w2 /\
    CdxStringDestroy buf w2 = Ok tt w3 /\ same nothing w3 /\ pools_kept None nothing w3.
Proof.
  apply (string_concat endless_env endless_memory nothing None [[104; 105]; []; [33]] sane_nothing I); [done| |simpl; lia].
  simpl. set_solver.
Defined.

(** * Departures *)

Lemma align_zero val fuel : 0 < val -> align_loop fuel 0 val = None.
Proof. intros Hv. induction fuel as [|f IH]; [done|]. cbn [align_loop]. replace (0 <? val) with true by lia. exact IH. Qed.
Lemma align_never val : 2 ^ 30 < val -> forall fuel, align_loop fuel 1024 val = None.
Proof.
  intros Hv. do 11 (intros [|fuel]; [done|]; cbn [align_loop];
    match goal with |- context [if ?r <? val then align_loop _ ?r' _ else _] =>
      let x := eval vm_compute in r in let y := eval vm_compute in r' in
      change r with x; change r' with y; replace (x <? val) with true by lia end; revert fuel).
  intros fuel. apply align_zero. lia.
Qed.

(** The pool a buffer works with, and the one its structure was taken from. *)
Definition pools_of_buffer (pool : option Z) : option (option Z * option Z) :=
  match __CdxBufferCreate pool 1024 None nothing with
  | Ok buf w =>
      match mem w !! buf with
      | Some (OBuffer b) => Some (buf_pool b, snd <$> block w buf)
      | _ => None
      end
  | _ => None
  end.

(** Departures: for a size over a gigabyte the loop of [Align2Power] never ends; a string to which
    nothing was appended has no text, not even an empty one; and the structure of a buffer with a
    pool of its own is taken from the global pool, but given back under the mutex of the other. *)
Theorem buffer_departs :
  (forall val fuel, 2 ^ 30 < val -> align_loop fuel 1024 val = None) /\
  (buf ← CdxStringCreate None; string_text buf) nothing = Undef /\
  exists p g, pools_of_buffer None = Some (Some p, Some g) /\ p <> g.
Proof.
  split; [intros val fuel H; by apply align_never|]. split; [vm_compute; reflexivity|].
  eexists _, _. split; [vm_compute; reflexivity|done].
Qed.
End CdxBufferTheorems.
