(* ===== verification/Estimaters.v ===== *)
(** The estimators of the player, [libcedarx/libcore/playback/bitrateEstimater.c] and
    [framerateEstimater.c]: rings of time stamps of frames from which the bit rate and the
    duration of a frame are computed.

    The mutexes are flags; locking a mutex that is held blocks for ever.  64-bit sums that
    overflow are undefined.  Floats are binary32. *)

From Stdlib Require Import ZArith Lia SpecFloat.
From stdpp Require Import base list list_numbers numbers.
From S2P Require Import Prelude.

Open Scope list_scope.
Open Scope Z_scope.

Module Estimaters.

(** * [int64_t] *)

Definition in_s64 (z : Z) : bool := (- 2 ^ 63 <=? z) && (z <? 2 ^ 63).
Definition checked {S} (z : Z) : M S Z := if in_s64 z then mret z else undef.

(** The loop that copies [n] elements of a ring of [size] elements, from [nStartPos] on. *)
Fixpoint collect_ring {S A} (size : Z) (n : nat) (nStartPos : Z) (arr : list A) : M S (list A) :=
  match n with
  | O => mret []
  | Datatypes.S n =>
      x ← lift (zlookup arr nStartPos);
      let nStartPos := nStartPos + 1 in
      let nStartPos := if nStartPos >=? size then 0 else nStartPos in
      rest ← collect_ring size n nStartPos arr;
      mret (x :: rest)
  end.

(** * The bit rate *)

Definition BITRATE_ARRAY_SIZE : Z := 500.
Definition BITRATE_ESTIMATE_INTERVAL : Z := 5.
Definition PTS_DISCONTINUE_INTERVAL : Z := 1000000.

Record BitrateEstimateNode := mkNode { nFramePts : Z; nFrameLen : Z }.
#[export] Instance eta_node : Eta BitrateEstimateNode := fun n => mkNode (nFramePts n) (nFrameLen n).

Record BitrateEstimater := mkBe {
  be_mutex : bool;
  nBitrate : Z;
  be_nWritePos : Z;
  nValidNodeCnt : Z;
  nWritePosLastEstimate : Z;
  nodes : list BitrateEstimateNode
}.
#[export] Instance eta_be : Eta BitrateEstimater := fun b =>
  mkBe (be_mutex b) (nBitrate b) (be_nWritePos b) (nValidNodeCnt b) (nWritePosLastEstimate b) (nodes b).

Definition BitrateEstimaterCreate (malloc_ok : bool) : option BitrateEstimater :=
  if malloc_ok then Some (mkBe false 0 0 0 0 (repeat (mkNode 0 0) (Z.to_nat BITRATE_ARRAY_SIZE))) else None.

Definition BitrateEstimaterDestroy : M (option BitrateEstimater) unit :=
  o ← get; _ ← lift o; modify (fun _ => None).

Definition be_lock : M BitrateEstimater unit :=
  b ← get; if be_mutex b then undef else modify (fun b => b <| be_mutex := true |>).
Definition be_unlock : M BitrateEstimater unit := modify (fun b => b <| be_mutex := false |>).

(** The nodes in the order they came, from [nStartPos] on. *)
Definition collect {S} : nat -> Z -> list BitrateEstimateNode -> M S (list BitrateEstimateNode) :=
  collect_ring BITRATE_ARRAY_SIZE.

(** [a > b + INTERVAL || a + INTERVAL < b] *)
Definition jump {S} (a b : Z) : M S bool :=
  x ← checked (b + PTS_DISCONTINUE_INTERVAL);
  if a >? x then mret true
  else y ← checked (a + PTS_DISCONTINUE_INTERVAL); mret (y <? b).

(** The loop that looks for a jump: where it stops. *)
Fixpoint first_jump {S} (pts : list Z) (i : Z) : M S Z :=
  match pts with
  | a :: rest =>
      match rest with
      | b :: _ => j ← jump a b; if (j : bool) then mret i else first_jump rest (i + 1)
      | [] => mret i
      end
  | [] => mret i
  end.

(** The loop that looks for the longest run without a jump, over the time stamps and the -1
    behind them: the start of the run and its length. *)
Fixpoint longest_run {S} (pts : list Z) (i nStartPos j nRunLen : Z) : M S (Z * Z) :=
  match pts with
  | a :: rest =>
      match rest with
      | b :: _ =>
          w ← jump a b;
          if (w : bool) then
            let '(j, nRunLen) := if i - nStartPos >? nRunLen then (nStartPos, i - nStartPos) else (j, nRunLen) in
            longest_run rest (i + 1) (i + 1) j nRunLen
          else longest_run rest (i + 1) nStartPos j nRunLen
      | [] => mret (j, nRunLen)
      end
  | [] => mret (j, nRunLen)
  end.

Fixpoint total_size {S} (lens : list Z) (nTotalSize : Z) : M S Z :=
  match lens with
  | [] => mret nTotalSize
  | x :: lens => n ← checked (nTotalSize + x); total_size lens n
  end.

(** The bit rate of the nodes [j] to [j + n]; with a duration that is not positive it stays. *)
Definition set_bitrate (arr : list BitrateEstimateNode) (j n : Z) : M BitrateEstimater unit :=
  first ← lift (zlookup arr j);
  last ← lift (zlookup arr (j + n));
  nDuration ← checked (nFramePts last - nFramePts first);
  if nDuration <=? 0 then mret tt
  else
    nTotalSize ← total_size (map nFrameLen (take (Z.to_nat (n + 1)) (drop (Z.to_nat j) arr))) 0;
    p ← checked (nTotalSize * 1000000);
    r ← checked (Z.quot p nDuration * 8);
    modify (fun b => b <| nBitrate := s32 r |>).

(** The estimation, up to the assignment of [nWritePosLastEstimate], which all its exits make. *)
Definition estimate : M BitrateEstimater unit :=
  b ← get;
  let nStartPos := be_nWritePos b - nValidNodeCnt b in
  let nStartPos := if nStartPos <? 0 then nStartPos + BITRATE_ARRAY_SIZE else nStartPos in
  arr ← collect (Z.to_nat (nValidNodeCnt b)) nStartPos (nodes b);
  i ← first_jump (map nFramePts arr) 0;
  (if i =? nValidNodeCnt b - 1 then set_bitrate arr 0 (nValidNodeCnt b - 1)
   else
     '(j, nRunLen) ← longest_run (map nFramePts arr ++ [-1]) 0 0 0 0;
     if nRunLen >? 0 then set_bitrate arr j nRunLen else mret tt);;
  modify (fun b => b <| nWritePosLastEstimate := be_nWritePos b |>).

Definition BitrateEstimaterUpdate (nPts len : Z) : M BitrateEstimater unit :=
  be_lock;;
  b ← get;
  if nPts =? -1 then
    if nValidNodeCnt b =? 0 then be_unlock
    else
      let tmpWritePos := if be_nWritePos b =? 0 then BITRATE_ARRAY_SIZE - 1 else be_nWritePos b - 1 in
      x ← lift (zlookup (nodes b) tmpWritePos);
      l ← iadd (nFrameLen x) len;
      modify (fun b => b <| nodes ::= <[Z.to_nat tmpWritePos := x <| nFrameLen := l |>]> |>);;
      be_unlock
  else
    _ ← lift (zlookup (nodes b) (be_nWritePos b));
    modify (fun b => b <| nodes ::= <[Z.to_nat (be_nWritePos b) := mkNode nPts len]> |>
                       <| be_nWritePos := if be_nWritePos b + 1 >=? BITRATE_ARRAY_SIZE then 0 else be_nWritePos b + 1 |>
                       <| nValidNodeCnt ::= fun n => if n <? BITRATE_ARRAY_SIZE then n + 1 else n |>);;
    b ← get;
    let tmpWritePos := be_nWritePos b in
    let tmpWritePos := if tmpWritePos <? nWritePosLastEstimate b then tmpWritePos + BITRATE_ARRAY_SIZE else tmpWritePos in
    (if tmpWritePos >=? nWritePosLastEstimate b + BITRATE_ESTIMATE_INTERVAL then estimate else mret tt);;
    be_unlock.

Definition BitrateEstimaterGetBitrate : M BitrateEstimater Z := gets nBitrate.

Definition BitrateEstimaterReset : M BitrateEstimater unit :=
  be_lock;;
  modify (fun b => b <| nBitrate := 0 |> <| be_nWritePos := 0 |> <| nValidNodeCnt := 0 |> <| nWritePosLastEstimate := 0 |>);;
  be_unlock.

(** * The frame rate *)

Definition FRAMERATE_ARRAY_SIZE : Z := 4.
Definition FRAMERATE_START_ESTIMATE_SIZE : Z := 2.

(** The operations on [float] that are used. *)
Definition float_of (n : Z) : spec_float := binary_normalize 24 128 n 0 false.
Definition fdiv : spec_float -> spec_float -> spec_float := SFdiv 24 128.
(** [(int)x]: undefined when the integer part does not fit. *)
Definition int_of {S} (x : spec_float) : M S Z :=
  match x with
  | S754_zero _ => mret 0
  | S754_finite neg m e =>
      let a := if 0 <=? e then Z.pos m * 2 ^ e else Z.pos m / 2 ^ (- e) in
      let z := if (neg : bool) then - a else a in
      if in_s32 z then mret z else undef
  | _ => undef
  end.

Record FramerateEstimater := mkFe {
  nPts : list Z;
  fe_nWritePos : Z;
  nValidPtsCnt : Z;
  nFrameDuration : Z;
  fPlayRate : spec_float;
  fe_mutex : bool
}.
#[export] Instance eta_fe : Eta FramerateEstimater := fun f =>
  mkFe (nPts f) (fe_nWritePos f) (nValidPtsCnt f) (nFrameDuration f) (fPlayRate f) (fe_mutex f).

Definition FramerateEstimaterCreate (malloc_ok : bool) : option FramerateEstimater :=
  if malloc_ok then Some (mkFe (repeat 0 (Z.to_nat FRAMERATE_ARRAY_SIZE)) 0 0 0 (float_of 1) false) else None.

Definition FramerateEstimaterDestroy : M (option FramerateEstimater) unit :=
  o ← get; _ ← lift o; modify (fun _ => None).

Definition fe_lock : M FramerateEstimater unit :=
  f ← get; if fe_mutex f then undef else modify (fun f => f <| fe_mutex := true |>).
Definition fe_unlock : M FramerateEstimater unit := modify (fun f => f <| fe_mutex := false |>).

Definition collect_pts {S} : nat -> Z -> list Z -> M S (list Z) := collect_ring FRAMERATE_ARRAY_SIZE.

(** [nDurationArr[i] = nPtsArr[i+1] - nPtsArr[i]] *)
Fixpoint durations {S} (ps : list Z) : M S (list Z) :=
  match ps with
  | a :: rest =>
      match rest with
      | b :: _ => d ← checked (b - a); ds ← durations rest; mret (d :: ds)
      | [] => mret []
      end
  | [] => mret []
  end.

(** The inner loop of the sort, over the first [n + 1] elements; the swap goes through an [int]. *)
Fixpoint bubble (n : nat) (l : list Z) : list Z :=
  match n, l with
  | Datatypes.S n, a :: b :: rest =>
      if a >? b then b :: bubble n (s32 a :: rest) else a :: bubble n (b :: rest)
  | _, _ => l
  end.
(** The outer loop: [k] passes are left. *)
Fixpoint bubble_sort (k : nat) (l : list Z) : list Z :=
  match k with
  | O => l
  | Datatypes.S k => bubble_sort k (bubble (Datatypes.S k) l)
  end.

Definition FramerateEstimaterUpdate (pts : Z) : M FramerateEstimater unit :=
  fe_lock;;
  f ← get;
  _ ← lift (zlookup (nPts f) (fe_nWritePos f));
  modify (fun f => f <| nPts ::= <[Z.to_nat (fe_nWritePos f) := pts]> |>
                     <| fe_nWritePos := if fe_nWritePos f + 1 >=? FRAMERATE_ARRAY_SIZE then 0 else fe_nWritePos f + 1 |>
                     <| nValidPtsCnt ::= fun n => if n <? FRAMERATE_ARRAY_SIZE then n + 1 else n |>);;
  f ← get;
  (if nValidPtsCnt f >=? FRAMERATE_START_ESTIMATE_SIZE then
     let nStartPos := fe_nWritePos f - nValidPtsCnt f in
     let nStartPos := if nStartPos <? 0 then nStartPos + FRAMERATE_ARRAY_SIZE else nStartPos in
     ps ← collect_pts (Z.to_nat (nValidPtsCnt f)) nStartPos (nPts f);
     ds ← durations ps;
     let nValidDurationCnt := nValidPtsCnt f - 1 in
     d ← lift (zlookup (bubble_sort (Z.to_nat (nValidDurationCnt - 1)) ds) (nValidDurationCnt / 2));
     modify (fun f => f <| nFrameDuration := s32 d |>)
   else mret tt);;
  fe_unlock.

Definition FramerateEstimaterGetFramerate : M FramerateEstimater Z :=
  f ← get;
  if nFrameDuration f <=? 0 then mret 0
  else
    let nFramerate := 1000000000 / nFrameDuration f in
    let nFramerate := if nFramerate <? 10000 then 24000 else nFramerate in
    int_of (fdiv (float_of nFramerate) (fPlayRate f)).

Definition FramerateEstimaterGetFrameDuration : M FramerateEstimater Z :=
  f ← get;
  let d := if (nFrameDuration f <? 16666) || (nFrameDuration f >? 100000) then 41667 else nFrameDuration f in
  int_of (fdiv (float_of d) (fPlayRate f)).

Definition FramerateEstimaterSetPlayrate (rate : spec_float) : M FramerateEstimater Z :=
  modify (fun f => f <| fPlayRate := rate |>);; mret 0.

Definition FramerateEstimaterReset : M FramerateEstimater unit :=
  fe_lock;;
  modify (fun f => f <| nFrameDuration := 0 |> <| fe_nWritePos := 0 |> <| nValidPtsCnt := 0 |>);;
  fe_unlock.

End Estimaters.
