(* ===== verification/EstimatersSpec.v ===== *)
(** The estimators against histories of frames: the bit rate is that of the last 500 frames,
    taken at every fifth frame; the frame duration is the median of the last three. *)

From Stdlib Require Import ZArith Lia ZifyBool SpecFloat Sorted.
From stdpp Require Import base list list_numbers numbers sorting.
From S2P Require Import Prelude Estimaters.

Open Scope list_scope.
Open Scope Z_scope.

Module EstimatersSpec.
Import Estimaters.

(** * Rings *)

(** The last [n] elements. *)
Definition lastn {A} (n : nat) (l : list A) : list A := drop (length l - n) l.

Section rings.
Context {A : Type} (n : nat).
Implicit Types (arr l q : list A).

Lemma lastn_length l : length (lastn n l) = Nat.min n (length l).
Proof using. unfold lastn. rewrite length_drop. lia. Qed.

Lemma lastn_short l : (length l < n)%nat -> lastn n l = l.
Proof using. intros H. unfold lastn. by replace (length l - n)%nat with 0%nat by lia. Qed.

Lemma ring_set_last arr st q x y : ring_rep arr st (q ++ [x]) -> (length q < length arr)%nat ->
  ring_rep (<[Z.to_nat ((st + Z.of_nat (length q)) mod Z.of_nat (length arr)) := y]> arr) st (q ++ [y]).
Proof using.
  intros R Hl. apply ring_rep_push; [|done]. intros k Hk. rewrite (R k) by (rewrite length_app; lia).
  by rewrite lookup_app_l.
Qed.

Hypothesis Hn : (0 < n)%nat.

Lemma lastn_app l x : lastn n (l ++ [x]) = (if decide (length l < n)%nat then l else drop 1 (lastn n l)) ++ [x].
Proof using Hn.
  unfold lastn. rewrite length_app. simpl. case_decide as H.
  - replace (length l + 1 - n)%nat with 0%nat by lia. by rewrite drop_0.
  - rewrite drop_drop, drop_app_le by lia. do 2 f_equal. lia.
Qed.

(** The array holds the last elements of [l]. *)
Definition holds_last arr l : Prop :=
  ring_rep arr (Z.of_nat (length l) - Z.of_nat (length (lastn n l))) (lastn n l).

(** Where the loops start to read. *)
Lemma ring_start l : let p := Z.of_nat (length l) mod Z.of_nat n in let c := Z.of_nat (length (lastn n l)) in
  (if p - c <? 0 then p - c + Z.of_nat n else p - c) = (Z.of_nat (length l) - c) mod Z.of_nat n.
Proof using Hn.
  intros p c. unfold p, c. rewrite lastn_length. destruct (decide (length l < n)%nat).
  - replace (Nat.min n (length l)) with (length l) by lia. rewrite (Z.mod_small (Z.of_nat (length l))) by lia.
    rewrite Z.sub_diag. by rewrite Z.mod_0_l by lia.
  - replace (Nat.min n (length l)) with n by lia.
    pose proof (Z.mod_pos_bound (Z.of_nat (length l)) (Z.of_nat n) ltac:(lia)). rewrite (proj2 (Z.ltb_lt _ _)) by lia.
    replace (Z.of_nat (length l) - Z.of_nat n) with (Z.of_nat (length l) + (-1) * Z.of_nat n) by lia.
    rewrite Z_mod_plus_full. lia.
Qed.

Lemma collect_ok {W} arr q : forall st (s : W), length arr = n -> ring_rep arr st q ->
  collect_ring (Z.of_nat n) (length q) (st mod Z.of_nat n) arr s = Ok q s.
Proof using Hn.
  induction q as [|x q IH]; intros st s Hl R; [done|].
  assert (0 <= st mod Z.of_nat n < Z.of_nat n) as Hm by (apply Z.mod_pos_bound; lia).
  pose proof (R 0%nat ltac:(simpl; lia)) as R0. rewrite Hl, Z.add_0_r in R0. cbn [length collect_ring].
  eapply bind_ok; [unfold zlookup; rewrite (proj2 (Z.leb_le _ _)) by lia; by rewrite R0|].
  cbv zeta. rewrite ring_succ by lia. rewrite Zplus_mod_idemp_l.
  eapply bind_ok; [apply (IH (st + 1)); [done|]|done].
  intros k Hk. pose proof (R (Datatypes.S k) ltac:(simpl; lia)) as Rk. simpl in Rk. rewrite <- Rk. do 3 f_equal. lia.
Qed.

Lemma grow_ring arr l x : length arr = n -> holds_last arr l ->
  holds_last (<[Z.to_nat (Z.of_nat (length l) mod Z.of_nat n) := x]> arr) (l ++ [x]).
Proof using Hn.
  intros Hl R. unfold holds_last in *. pose proof (lastn_length l) as Hw. pose proof (lastn_length (l ++ [x])) as Hw'.
  rewrite lastn_app. rewrite length_app in *. cbn [length] in *. case_decide as Hlt.
  - rewrite lastn_short in R, Hw by done. rewrite Z.sub_diag in R.
    rewrite length_app. cbn [length]. replace (_ - _) with 0 by lia.
    pose proof (ring_rep_push arr 0 l x R ltac:(lia)) as P. by rewrite Hl, Z.add_0_l in P.
  - destruct (lastn n l) as [|y q] eqn:Ew; [cbn [length] in Hw; lia|]. cbn [length] in Hw. rewrite skipn_cons, drop_0.
    rewrite length_app. cbn [length].
    apply ring_rep_pop in R; [|lia]. rewrite Hl in R.
    pose proof (ring_rep_push arr _ q x R ltac:(lia)) as P. rewrite Hl in P.
    intros k Hk. specialize (P k Hk). rewrite length_insert, Hl in *.
    rewrite Zplus_mod_idemp_l in P. rewrite Zplus_mod_idemp_l in P.
    replace (Z.of_nat (length l) - Z.of_nat (length (y :: q)) + 1 + Z.of_nat (length q)) with (Z.of_nat (length l)) in P
      by (cbn [length]; lia).
    rewrite <- P. do 3 f_equal. cbn [length]. lia.
Qed.
End rings.

(** * Bit rates of histories *)

(** The frames since the start, and the rate that was last computed. *)
Record history := mkHist { frames : list BitrateEstimateNode; rate : Z }.

Definition window (fs : list BitrateEstimateNode) : list BitrateEstimateNode := lastn 500 fs.

(** More than a second between two frames, in either direction. *)
Definition jumps (a b : Z) : bool := (b + PTS_DISCONTINUE_INTERVAL <? a) || (a + PTS_DISCONTINUE_INTERVAL <? b).

Fixpoint continuous (fs : list BitrateEstimateNode) : bool :=
  match fs with
  | x :: ((y :: _) as rest) => negb (jumps (nFramePts x) (nFramePts y)) && continuous rest
  | _ => true
  end.

(** The runs of frames without a jump in time, in order; [pre] is the start of the first. *)
Fixpoint runs (pre fs : list BitrateEstimateNode) : list (list BitrateEstimateNode) :=
  match fs with
  | [] => []
  | x :: rest =>
      match rest with
      | [] => [pre ++ [x]]
      | y :: _ => if jumps (nFramePts x) (nFramePts y) then (pre ++ [x]) :: runs [] rest else runs (pre ++ [x]) rest
      end
  end.

(** The code leaves the newest run out as long as its last frame is less than a second away from the time -1, which it
    puts behind the last frame to end the run. *)
Definition considered (gs : list (list BitrateEstimateNode)) : list (list BitrateEstimateNode) :=
  match last gs with
  | Some g => match last g with
              | Some x => if jumps (nFramePts x) (-1) then gs else removelast gs
              | None => gs
              end
  | None => gs
  end.

(** The first of the longest runs of two frames or more. *)
Fixpoint longest (gs : list (list BitrateEstimateNode)) (best : list BitrateEstimateNode) : list BitrateEstimateNode :=
  match gs with
  | [] => best
  | g :: gs => longest gs (if (Nat.max 1 (length best) <? length g)%nat then g else best)
  end.

(** Bits per second of frames; the rate stays when they take no time. *)
Definition rate_of (fs : list BitrateEstimateNode) (old : Z) : Z :=
  match fs, last fs with
  | x :: _, Some y =>
      let d := nFramePts y - nFramePts x in
      if d <=? 0 then old else s32 (zsum nFrameLen fs * 1000000 / d * 8)
  | _, _ => old
  end.
Definition estimated (fs : list BitrateEstimateNode) (old : Z) : Z :=
  if continuous fs then rate_of fs old else rate_of (longest (considered (runs [] fs)) []) old.

(** What a call of [BitrateEstimaterUpdate] tells: another frame, or more of the last one. *)
Definition more (h : history) (pts len : Z) : history :=
  if pts =? -1 then
    match last (frames h) with
    | Some x => mkHist (removelast (frames h) ++ [mkNode (nFramePts x) (nFrameLen x + len)]) (rate h)
    | None => h
    end
  else
    let fs := frames h ++ [mkNode pts len] in
    mkHist fs (if (length fs mod 5 =? 0)%nat then estimated (window fs) (rate h) else rate h).

(** Time stamps and sizes as streams have them. *)
Definition sane (n : BitrateEstimateNode) : Prop := - 2 ^ 61 <= nFramePts n <= 2 ^ 61 /\ 0 <= nFrameLen n < 2 ^ 31.
Definition fine (h : history) (pts len : Z) : Prop :=
  if pts =? -1 then 0 <= len < 2 ^ 31 /\ match last (frames h) with Some x => nFrameLen x + len < 2 ^ 31 | None => True end
  else sane (mkNode pts len).

Inductive call := Update (pts len : Z) | Reset.
Definition perform (c : call) : M BitrateEstimater unit :=
  match c with Update pts len => BitrateEstimaterUpdate pts len | Reset => BitrateEstimaterReset end.
Definition perform_all (cs : list call) : M BitrateEstimater unit := foldr (fun c m => perform c;; m) (mret tt) cs.

Definition nothing : history := mkHist [] 0.
Definition told (h : history) (c : call) : history :=
  match c with Update pts len => more h pts len | Reset => nothing end.
Fixpoint all_fine (h : history) (cs : list call) : Prop :=
  match cs with
  | [] => True
  | c :: cs => match c with Update pts len => fine h pts len | Reset => True end /\ all_fine (told h c) cs
  end.

(** * The ring *)

Record rep (h : history) (b : BitrateEstimater) : Prop := mkRep {
  r_free : be_mutex b = false;
  r_len : length (nodes b) = 500%nat;
  r_rate : nBitrate b = rate h;
  r_pos : be_nWritePos b = Z.of_nat (length (frames h)) mod BITRATE_ARRAY_SIZE;
  r_cnt : nValidNodeCnt b = Z.of_nat (length (window (frames h)));
  r_last : nWritePosLastEstimate b = 5 * (Z.of_nat (length (frames h)) / 5) mod BITRATE_ARRAY_SIZE;
  r_ring : holds_last 500 (nodes b) (frames h);
  r_sane : Forall sane (frames h)
}.

Lemma frames_window_length fs : length (window fs) = Nat.min 500 (length fs).
Proof. apply lastn_length. Qed.

(** ** Looking for jumps *)

Lemma checked_ok {W} z (s : W) : - 2 ^ 63 <= z < 2 ^ 63 -> checked z s = Ok z s.
Proof. intros H. unfold checked, in_s64. rewrite (proj2 (Z.leb_le _ _)), (proj2 (Z.ltb_lt _ _)) by lia. done. Qed.

Lemma jump_ok {W} a b (s : W) : - 2 ^ 62 <= a <= 2 ^ 62 -> - 2 ^ 62 <= b <= 2 ^ 62 -> jump a b s = Ok (jumps a b) s.
Proof.
  intros Ha Hb. unfold jump, jumps, PTS_DISCONTINUE_INTERVAL.
  eapply bind_ok; [apply checked_ok; lia|]. cbv beta. rewrite Z.gtb_ltb. destruct (_ <? a); [done|].
  eapply bind_ok; [apply checked_ok; lia|]. done.
Qed.

Lemma first_jump_ok {W} fs : forall i (s : W), Forall sane fs -> fs <> [] ->
  exists k, first_jump (map nFramePts fs) i s = Ok k s /\ (k =? i + Z.of_nat (length fs) - 1) = continuous fs /\
    k <= i + Z.of_nat (length fs) - 1.
Proof.
  induction fs as [|x fs IH]; intros i s Hs Hne; [done|]. destruct fs as [|y fs].
  - exists i. cbn [length continuous]. split_and!; [done|lia|lia].
  - apply Forall_cons_1 in Hs as [[Hx _] Hs]. pose proof Hs as Hs'. apply Forall_cons_1 in Hs' as [[Hy _] _].
    change (first_jump (map nFramePts (x :: y :: fs)) i) with
      (j ← jump (S:=W) (nFramePts x) (nFramePts y); if (j : bool) then mret i else first_jump (map nFramePts (y :: fs)) (i + 1)).
    change (continuous (x :: y :: fs)) with (negb (jumps (nFramePts x) (nFramePts y)) && continuous (y :: fs)).
    destruct (jumps (nFramePts x) (nFramePts y)) eqn:Ej.
    + exists i. split; [eapply bind_ok; [apply jump_ok; lia|]; by rewrite Ej|]. cbn [negb andb length]. split; lia.
    + destruct (IH (i + 1) s Hs ltac:(done)) as (k & E1 & E2 & E3). exists k.
      split; [eapply bind_ok; [apply jump_ok; lia|]; by rewrite Ej|]. cbn [negb andb]. rewrite <- E2.
      cbn [length] in *. split; [|lia]. f_equal. lia.
Qed.

(** The runs as the loop finds them, with the time -1 behind the last frame. *)
Fixpoint ended_runs (pre fs : list BitrateEstimateNode) : list (list BitrateEstimateNode) :=
  match fs with
  | [] => []
  | x :: rest =>
      if jumps (nFramePts x) (match rest with y :: _ => nFramePts y | [] => -1 end)
      then (pre ++ [x]) :: ended_runs [] rest else ended_runs (pre ++ [x]) rest
  end.

Lemma runs_cons pre x fs : exists g gs, runs pre (x :: fs) = g :: gs.
Proof.
  revert pre x. induction fs as [|y fs IH]; intros pre x; cbn [runs]; [by eexists _, _|].
  destruct (jumps _ _); [by eexists _, _|]. apply IH.
Qed.

Lemma considered_cons g h gs : considered (g :: h :: gs) = g :: considered (h :: gs).
Proof.
  unfold considered. rewrite last_cons_cons. destruct (last (h :: gs)) as [k|]; [|done].
  destruct (last k) as [x|]; [|done]. by destruct (jumps _ _).
Qed.

Lemma ended_runs_considered fs : forall pre, ended_runs pre fs = considered (runs pre fs).
Proof.
  induction fs as [|x fs IH]; intros pre; [done|]. destruct fs as [|y fs].
  - cbn [ended_runs runs]. unfold considered. cbn [last]. rewrite last_snoc. by destruct (jumps _ _).
  - cbn [ended_runs runs] in *. destruct (jumps (nFramePts x) (nFramePts y)); [|apply IH].
    destruct (runs_cons [] y fs) as (g & gs & E). rewrite IH. cbn [runs] in E. rewrite E.
    by rewrite considered_cons.
Qed.

(** A run as the loop describes it. *)
Definition run_at (all : list BitrateEstimateNode) (j n : Z) (best : list BitrateEstimateNode) : Prop :=
  (best = [] /\ n = 0) \/
  exists X Y, all = X ++ best ++ Y /\ j = Z.of_nat (length X) /\ n = Z.of_nat (length best) - 1 /\ 0 < n.

Lemma longest_run_ok {W} all rest : forall front pre j n best (s : W),
  Forall sane rest -> all = front ++ pre ++ rest -> run_at all j n best ->
  let start := Z.of_nat (length front) in
  exists j' n', longest_run (map nFramePts rest ++ [-1]) (start + Z.of_nat (length pre)) start j n s = Ok (j', n') s /\
    run_at all j' n' (longest (ended_runs pre rest) best).
Proof.
  induction rest as [|x rest IH]; intros front pre j n best s Hs Hall Hb start; [by exists j, n|].
  apply Forall_cons_1 in Hs as [[Hx _] Hs].
  set (nxt := match rest with y :: _ => nFramePts y | [] => -1 end).
  assert (- 2 ^ 62 <= nxt <= 2 ^ 62) as Hn.
  { unfold nxt. destruct rest as [|y rest]; [lia|]. apply Forall_cons_1 in Hs as [[Hy _] _]. lia. }
  set (i := start + Z.of_nat (length pre)).
  assert (longest_run (map nFramePts (x :: rest) ++ [-1]) i start j n =
    (w ← jump (S:=W) (nFramePts x) nxt;
     if (w : bool) then
       let '(j, n) := if i - start >? n then (start, i - start) else (j, n) in
       longest_run (map nFramePts rest ++ [-1]) (i + 1) (i + 1) j n
     else longest_run (map nFramePts rest ++ [-1]) (i + 1) start j n)) as -> by by destruct rest.
  cbn [ended_runs]. fold nxt.
  assert (Z.of_nat (length (pre ++ [x])) = Z.of_nat (length pre) + 1) as Hlen by (rewrite length_app; simpl; lia).
  destruct (jumps (nFramePts x) nxt) eqn:Ej.
  - cbn [longest]. set (best' := if (_ <? _)%nat then _ else _).
    set (jn := if i - start >? n then (start, i - start) else (j, n)).
    assert (run_at all jn.1 jn.2 best') as Hb'.
    { unfold jn, best'. assert ((i - start >? n) = (Nat.max 1 (length best) <? length (pre ++ [x]))%nat) as ->.
      { rewrite Z.gtb_ltb. destruct Hb as [[-> ->]|(X & Y & _ & _ & -> & Hn0)]; unfold i; cbn [length];
          apply eq_bool_prop_intro; rewrite !Is_true_true, Z.ltb_lt, Nat.ltb_lt; lia. }
      destruct (_ <? _)%nat eqn:Eb; [|done]. right. exists front, rest. cbn [fst snd].
      apply Nat.ltb_lt in Eb. split_and!; [by rewrite Hall, <- app_assoc|done|unfold i; lia|unfold i; lia]. }
    destruct (IH (front ++ pre ++ [x]) [] jn.1 jn.2 best' s) as (j' & n' & E1 & E2).
    { done. } { rewrite Hall, <- !app_assoc. done. } { done. }
    exists j', n'. split; [|done]. eapply bind_ok; [apply jump_ok; lia|]. rewrite Ej. cbv beta iota.
    fold jn. destruct jn as [j1 n1]. cbn [fst snd] in E1. rewrite <- E1. f_equal; rewrite !length_app; simpl; unfold i, start; lia.
  - destruct (IH front (pre ++ [x]) j n best s) as (j' & n' & E1 & E2).
    { done. } { by rewrite Hall, <- app_assoc. } { done. }
    exists j', n'. split; [|done]. eapply bind_ok; [apply jump_ok; lia|]. rewrite Ej. cbv beta iota.
    rewrite <- E1. f_equal. rewrite Hlen. unfold i, start. lia.
Qed.

(** ** The rate *)

Lemma total_ok {W} fs : forall acc (s : W), Forall sane fs -> (length fs <= 500)%nat -> 0 <= acc ->
  acc + Z.of_nat (length fs) * 2 ^ 31 <= 500 * 2 ^ 31 ->
  total_size (map nFrameLen fs) acc s = Ok (acc + zsum nFrameLen fs) s /\
  0 <= zsum nFrameLen fs <= Z.of_nat (length fs) * (2 ^ 31 - 1).
Proof.
  induction fs as [|x fs IH]; intros acc s Hs Hl H0 Ha; cbn [map total_size zsum foldr length] in *.
  - split; [|lia]. unfold mret, M_ret. f_equal. lia.
  - apply Forall_cons_1 in Hs as [[_ Hx] Hs].
    destruct (IH (acc + nFrameLen x) s Hs ltac:(lia) ltac:(lia) ltac:(lia)) as [E1 E2]. unfold zsum in *. split; [|lia].
    eapply bind_ok; [apply checked_ok; lia|]. rewrite E1. f_equal. lia.
Qed.

Lemma set_bitrate_ok arr X fs Y b : arr = X ++ fs ++ Y -> fs <> [] -> Forall sane fs -> (length fs <= 500)%nat ->
  set_bitrate arr (Z.of_nat (length X)) (Z.of_nat (length fs) - 1) b = Ok tt (b <| nBitrate ::= rate_of fs |>).
Proof.
  intros -> Hne Hs Hl. destruct fs as [|x fs]; [done|].
  destruct (last (x :: fs)) as [y|] eqn:El; [|by apply last_None in El].
  pose proof (last_split _ _ El) as Hsp. set (fs' := x :: fs) in *.
  assert (sane x) as [Hx _] by (by apply Forall_cons_1 in Hs as [? _]).
  assert (sane y) as [Hy _] by (rewrite Hsp in Hs; apply Forall_app in Hs as [_ Hs]; by apply Forall_cons_1 in Hs as [? _]).
  assert (length fs' = Datatypes.S (length fs)) as Hlen by done.
  assert (rate_of fs' (nBitrate b) = if nFramePts y - nFramePts x <=? 0 then nBitrate b
    else s32 (zsum nFrameLen fs' * 1000000 / (nFramePts y - nFramePts x) * 8)) as Hr.
  { unfold rate_of, fs'. fold fs'. by rewrite El. }
  unfold set_bitrate. replace (Z.of_nat (length X) + (Z.of_nat (length fs') - 1)) with (Z.of_nat (length X + length fs)) by lia.
  eapply bind_ok; [unfold zlookup; rewrite (proj2 (Z.leb_le _ _)), Nat2Z.id by lia; unfold fs'; cbn [app]; by rewrite list_lookup_middle|].
  eapply bind_ok.
  { unfold zlookup. rewrite (proj2 (Z.leb_le _ _)), Nat2Z.id by lia. rewrite Hsp, <- app_assoc. cbn [app].
    rewrite lookup_app_r by lia. rewrite list_lookup_middle; [done|].
    apply (f_equal length) in Hsp. rewrite length_app in Hsp. change (length [y]) with 1%nat in Hsp. lia. }
  eapply bind_ok; [apply checked_ok; lia|]. cbv beta. destruct (_ <=? 0) eqn:Ed.
  - unfold mret, M_ret. f_equal. destruct b. cbn [set eta_be nBitrate]. unfold set. simpl in *. by rewrite Hr.
  - replace (Z.to_nat (Z.of_nat (length fs') - 1 + 1)) with (length fs') by lia.
    rewrite Nat2Z.id, drop_app_length, take_app_length.
    destruct (total_ok fs' 0 b Hs Hl ltac:(lia) ltac:(lia)) as [Et Hz]. eapply bind_ok; [exact Et|]. cbv beta.
    rewrite Z.add_0_l. set (z := zsum nFrameLen fs') in *.
    eapply bind_ok; [apply checked_ok; lia|]. cbv beta. rewrite Z.quot_div_nonneg by lia.
    assert (0 <= z * 1000000 / (nFramePts y - nFramePts x) <= z * 1000000) as Hq.
    { split; [apply Z.div_pos; lia|]. apply Z.div_le_upper_bound; nia. }
    eapply bind_ok; [apply checked_ok; lia|]. unfold modify. f_equal. destruct b. cbn [set eta_be nBitrate]. unfold set. simpl in *.
    by rewrite Hr.
Qed.

Lemma window_sane fs : Forall sane fs -> Forall sane (window fs).
Proof. apply Forall_drop. Qed.

Lemma estimate_ok fs b : length (nodes b) = 500%nat ->
  be_nWritePos b = Z.of_nat (length fs) mod BITRATE_ARRAY_SIZE -> nValidNodeCnt b = Z.of_nat (length (window fs)) ->
  holds_last 500 (nodes b) fs -> Forall sane fs -> fs <> [] ->
  estimate b = Ok tt (b <| nBitrate ::= estimated (window fs) |> <| nWritePosLastEstimate := be_nWritePos b |>).
Proof.
  intros Hl Hp Hc Hr Hs Hne. pose proof (frames_window_length fs) as Hw. pose proof (window_sane fs Hs) as Hws.
  assert (0 < length fs)%nat by (destruct fs; [done|cbn [length]; lia]).
  assert (window fs <> []) as Hwne by (intros E0; rewrite E0 in Hw; cbn [length] in Hw; lia).
  unfold estimate. eapply bind_ok; [done|]. cbv beta zeta.
  rewrite Hp, Hc. unfold collect, BITRATE_ARRAY_SIZE. unfold window in *. change 500 with (Z.of_nat 500). rewrite (ring_start 500 ltac:(lia) fs), Nat2Z.id.
  eapply bind_ok; [by apply (collect_ok 500 ltac:(lia))|]. cbv beta. clear Hr.
  set (win := lastn 500 fs) in *. clearbody win.
  destruct (first_jump_ok win 0 b Hws Hwne) as (k & E1 & E2 & _). eapply bind_ok; [exact E1|]. cbv beta.
  rewrite Z.add_0_l in E2. rewrite E2.
  apply (bind_ok _ _ _ tt (b <| nBitrate ::= estimated win |>)); [|unfold modify; cbn [be_nWritePos set eta_be]; by rewrite Hp]. unfold estimated.
  destruct (continuous win) eqn:Ec.
  - apply (set_bitrate_ok win [] win []); [by rewrite app_nil_r|done|done|lia].
  - destruct (longest_run_ok win win [] [] 0 0 [] b Hws eq_refl ltac:(by left)) as (j & n & E3 & E4).
    rewrite ended_runs_considered in E4. eapply bind_ok; [exact E3|]. cbv beta iota. destruct E4 as [[-> ->]|(X & Y & E4 & -> & -> & Hn)].
    + unfold mret, M_ret. f_equal. by destruct b.
    + rewrite Z.gtb_ltb, (proj2 (Z.ltb_lt _ _)) by lia.
      set (g := longest (considered (runs [] win)) []) in *. apply (set_bitrate_ok win X g Y); [done| | |].
      * intros E0. rewrite E0 in Hn. cbn [length] in Hn. lia.
      * rewrite E4 in Hws. apply Forall_app in Hws as [_ Hws]. by apply Forall_app in Hws as [Hws _].
      * apply (f_equal length) in E4. rewrite !length_app in E4. lia.
Qed.

(** ** The calls *)

Lemma be_lock_ok b : be_mutex b = false -> be_lock b = Ok tt (b <| be_mutex := true |>).
Proof. intros H. unfold be_lock. eapply bind_ok; [done|]. by rewrite H. Qed.

(** An estimate is due when the number of frames is a multiple of five. *)
Lemma due n : 0 <= n ->
  let l := 5 * (n / 5) mod 500 in let p := (n + 1) mod 500 in
  ((if p <? l then p + 500 else p) >=? l + 5) = ((n + 1) mod 5 =? 0) /\
  5 * ((n + 1) / 5) mod 500 = if (n + 1) mod 5 =? 0 then p else l.
Proof.
  intros Hn l p. set (q := n / 5) in *. set (r := n mod 5). set (d := q mod 100).
  assert (n = 5 * q + r /\ 0 <= r < 5 /\ 0 <= q) as (Hq & Hr & Hq0) by (unfold q, r; dlia).
  assert (q = 100 * (q / 100) + d /\ 0 <= d < 100) as (Hd & Hd0) by (unfold d; dlia).
  assert (l = 5 * d) as El by (symmetry; apply (Zmod_unique _ _ (q / 100)); lia).
  assert ((n + 1) mod 5 = if r =? 4 then 0 else r + 1) as Em
    by (symmetry; apply (Zmod_unique _ _ (q + if r =? 4 then 1 else 0)); destruct (r =? 4) eqn:?; lia).
  assert ((n + 1) / 5 = if r =? 4 then q + 1 else q) as Ed
    by (symmetry; apply (Zdiv_unique _ _ _ ((n + 1) mod 5)); rewrite Em; destruct (r =? 4) eqn:?; lia).
  assert (p = if (r =? 4) && (d =? 99) then 0 else 5 * d + r + 1) as Ep.
  { symmetry. apply (Zmod_unique _ _ (q / 100 + if (r =? 4) && (d =? 99) then 1 else 0)); destruct (_ && _) eqn:?; lia. }
  rewrite Em, Ed, El, Ep. destruct (r =? 4) eqn:Er; cbn [andb Z.eqb].
  - destruct (d =? 99) eqn:E9; (split; [destruct (_ <? _) eqn:?; lia|]);
      symmetry; apply (Zmod_unique _ _ (q / 100 + if d =? 99 then 1 else 0)); rewrite ?E9; lia.
  - replace (r + 1 =? 0) with false by lia. split; [destruct (_ <? _) eqn:?; lia|]. by rewrite <- El.
Qed.

Lemma update_more h b len : rep h b -> fine h (-1) len ->
  exists b', BitrateEstimaterUpdate (-1) len b = Ok tt b' /\ rep (more h (-1) len) b'.
Proof.
  intros R [Hl Hsum]. unfold BitrateEstimaterUpdate, more. cbn [Z.eqb Pos.eqb].
  destruct (last (frames h)) as [x|] eqn:El.
  - pose proof (last_split _ _ El) as Hsp. set (fs0 := removelast (frames h)) in *. clearbody fs0.
    destruct R as [R1 R2 R3 R4 R5 R6 R7 R8]. rewrite Hsp in *. clear El Hsp.
    set (x' := mkNode (nFramePts x) (nFrameLen x + len)).
    pose proof (frames_window_length (fs0 ++ [x])) as Hw. rewrite length_app in Hw, R4, R6. cbn [length] in Hw, R4, R6.
    pose proof (lastn_app 500 ltac:(lia) fs0 x) as Wx. pose proof (lastn_app 500 ltac:(lia) fs0 x') as Wx'.
    change (lastn 500) with window in Wx, Wx'. unfold holds_last in R7. change (lastn 500) with window in R7. set (A := if decide _ then _ else _) in *. clearbody A.
    assert (length A = Nat.min 500 (length fs0 + 1) - 1)%nat as HA by (rewrite Wx, length_app in Hw; cbn [length] in Hw; lia).
    assert (length A < length (nodes b))%nat as HAl by lia.
    apply Forall_app in R8 as [R8 Hx]. apply Forall_cons_1 in Hx as [[Hx1 Hx2] _].
    assert ((if be_nWritePos b =? 0 then BITRATE_ARRAY_SIZE - 1 else be_nWritePos b - 1) =
      (Z.of_nat (length (fs0 ++ [x])) - Z.of_nat (length (window (fs0 ++ [x]))) + Z.of_nat (length A)) mod Z.of_nat (length (nodes b))) as Hpos.
    { rewrite Wx, !length_app, R2, R4. cbn [length]. unfold BITRATE_ARRAY_SIZE.
      replace (_ - _ + _) with (Z.of_nat (length fs0)) by lia.
      replace (Z.of_nat (length fs0 + 1)) with (Z.of_nat (length fs0) + 1) by lia. destruct (_ =? 0) eqn:E0; dlia. }
    assert (nodes b !! Z.to_nat (if be_nWritePos b =? 0 then BITRATE_ARRAY_SIZE - 1 else be_nWritePos b - 1) = Some x) as Hlk.
    { rewrite Hpos, Wx. rewrite Wx in R7. rewrite (ring_rep_lookup _ _ _ (length A) R7) by (rewrite length_app; simpl; lia).
      by rewrite list_lookup_middle. }
    set (pos := if be_nWritePos b =? 0 then _ else _) in *.
    assert (0 <= pos) as Hpos0 by (rewrite Hpos; apply Z.mod_pos_bound; lia).
    exists (b <| be_mutex := false |> <| nodes ::= <[Z.to_nat pos := x']> |>). split.
    + eapply bind_ok; [by apply be_lock_ok|]. eapply bind_ok; [done|]. cbn [nValidNodeCnt be_nWritePos nodes set eta_be].
      rewrite R5, Hw. replace (Z.of_nat (Nat.min 500 (length fs0 + 1)) =? 0) with false by lia. fold pos.
      eapply bind_ok; [unfold zlookup; rewrite (proj2 (Z.leb_le _ _)) by done; by rewrite Hlk|].
      eapply bind_ok; [apply iadd_ok; lia|]. done.
    + assert (length (fs0 ++ [x']) = length (fs0 ++ [x])) as Hfl by (by rewrite !length_app).
      assert (length (window (fs0 ++ [x'])) = length (window (fs0 ++ [x]))) as Hwl by (by rewrite !frames_window_length, Hfl).
      split; cbn [be_mutex nBitrate be_nWritePos nValidNodeCnt nWritePosLastEstimate nodes frames rate set eta_be];
        rewrite ?Hfl, ?Hwl; rewrite ?length_insert; try done.
      * rewrite R4, length_app. done.
      * rewrite R6, length_app. done.
      * unfold holds_last. change (lastn 500) with window. rewrite Hfl, Hwl, Wx', Hpos. rewrite Wx in R7 |- *. by apply (ring_set_last _ _ A x).
      * apply Forall_app. split; [done|]. apply Forall_cons_2; [|done]. unfold sane, x'. cbn [nFramePts nFrameLen]. lia.
  - apply last_None in El. exists b. split; [|done]. destruct R as [R1 R2 R3 R4 R5 R6 R7 R8].
    rewrite El in R5. eapply bind_ok; [by apply be_lock_ok|]. eapply bind_ok; [done|]. cbn [nValidNodeCnt set eta_be].
    rewrite R5. cbn. unfold be_unlock, modify. f_equal. destruct b. simpl in *. by subst.
Qed.

Lemma update_frame h b pts len : rep h b -> pts <> -1 -> sane (mkNode pts len) ->
  exists b', BitrateEstimaterUpdate pts len b = Ok tt b' /\ rep (more h pts len) b'.
Proof.
  intros [R1 R2 R3 R4 R5 R6 R7 R8] Hp Hs. unfold BitrateEstimaterUpdate, more.
  replace (pts =? -1) with false by lia. set (x := mkNode pts len) in *. set (fs := frames h) in *.
  set (fs' := fs ++ [x]). assert (length fs' = length fs + 1)%nat as Hl' by (unfold fs'; by rewrite length_app).
  pose proof (frames_window_length fs) as Hw. pose proof (frames_window_length fs') as Hw'.
  unfold BITRATE_ARRAY_SIZE in *. pose proof (Z.mod_pos_bound (Z.of_nat (length fs)) 500 ltac:(lia)) as Hm.
  set (b1 := b <| be_mutex := true |> <| nodes ::= <[Z.to_nat (be_nWritePos b) := x]> |>
    <| be_nWritePos := Z.of_nat (length fs') mod 500 |> <| nValidNodeCnt := Z.of_nat (length (window fs')) |>).
  assert (be_nWritePos b + 1 = Z.of_nat (length fs) mod 500 + 1) as Hp1 by lia.
  destruct (due (Z.of_nat (length fs)) ltac:(lia)) as [D1 D2].
  replace (Z.of_nat (length fs) + 1) with (Z.of_nat (length fs')) in D1, D2 by lia. cbv zeta in D1, D2.
  assert ((Z.of_nat (length fs') mod 5 =? 0) = (length fs' mod 5 =? 0)%nat) as Hmod.
  { change 5 with (Z.of_nat 5) at 1. rewrite <- (Nat2Z.inj_mod (length fs') 5). apply eq_bool_prop_intro.
    rewrite !Is_true_true, Z.eqb_eq, Nat.eqb_eq. lia. }
  rewrite <- Hmod.
  assert (holds_last 500 (nodes b1) fs') as Hring.
  { unfold b1. cbn [nodes set eta_be]. rewrite R4. by apply (grow_ring 500 ltac:(lia) (nodes b) fs x). }
  assert (Forall sane fs') as Hs' by (apply Forall_app; split; [done|]; by apply Forall_cons_2).
  assert (length (nodes b1) = 500%nat) as Hn1 by (unfold b1; cbn [nodes set eta_be]; by rewrite length_insert).
  set (test := Z.of_nat (length fs') mod 5 =? 0) in *.
  set (b2 := if test then b1 <| nBitrate ::= estimated (window fs') |> <| nWritePosLastEstimate := be_nWritePos b1 |> else b1).
  exists (b2 <| be_mutex := false |>). split.
  - eapply bind_ok; [by apply be_lock_ok|]. eapply bind_ok; [done|]. cbn [nodes be_nWritePos set eta_be].
    destruct (lookup_lt_is_Some_2 (nodes b) (Z.to_nat (be_nWritePos b))) as [y Hy]; [lia|].
    eapply bind_ok; [unfold zlookup; rewrite (proj2 (Z.leb_le _ _)) by lia; by rewrite Hy|].
    apply (bind_ok _ _ _ tt b1).
    { unfold modify, b1. f_equal. cbn [nodes be_mutex nBitrate be_nWritePos nValidNodeCnt nWritePosLastEstimate set eta_be].
      unfold BITRATE_ARRAY_SIZE. rewrite R4, ring_succ by lia. rewrite Zplus_mod_idemp_l. f_equal; [f_equal; lia|].
      rewrite R5, Hw, Hw'. destruct (_ <? 500) eqn:?; lia. }
    eapply bind_ok; [done|]. cbv beta zeta. change (be_nWritePos b1) with (Z.of_nat (length fs') mod 500).
    change (nWritePosLastEstimate b1) with (nWritePosLastEstimate b). rewrite R6. unfold BITRATE_ARRAY_SIZE, BITRATE_ESTIMATE_INTERVAL.
    rewrite D1. apply (bind_ok _ _ _ tt b2); [|done]. unfold b2. destruct test; [|done].
    apply estimate_ok; [done|done|done|done|done|]. intros E0. rewrite E0 in Hl'. cbn [length] in Hl'. lia.
  - unfold b2. destruct test; split; try done; cbn [frames rate nBitrate be_nWritePos nValidNodeCnt nWritePosLastEstimate set eta_be].
    + change (nBitrate b1) with (nBitrate b). by rewrite R3.
    + unfold BITRATE_ARRAY_SIZE. rewrite D2. done.
Qed.

Lemma rep_reset h b : rep h b -> exists b', BitrateEstimaterReset b = Ok tt b' /\ rep nothing b'.
Proof.
  intros [R1 R2 R3 R4 R5 R6 R7 R8]. eexists. split; [eapply bind_ok; [by apply be_lock_ok|]; reflexivity|].
  split; try done. apply ring_rep_nil.
Qed.

Lemma perform_ok cs : forall h b, rep h b -> all_fine h cs ->
  exists b', perform_all cs b = Ok tt b' /\ rep (foldl told h cs) b'.
Proof.
  induction cs as [|c cs IH]; intros h b R H; [by exists b|]. destruct H as [H1 H2].
  assert (exists b', perform c b = Ok tt b' /\ rep (told h c) b') as (b1 & E1 & R1).
  { destruct c as [pts len|]; [|by apply (rep_reset h)]. cbn [perform told].
    destruct (decide (pts = -1)) as [->|Hne]; [by apply update_more|].
    apply update_frame; [done|done|]. unfold fine in H1. by replace (pts =? -1) with false in H1 by lia. }
  destruct (IH _ b1 R1 H2) as (b2 & E2 & R2). exists b2. split; [|done]. by eapply bind_ok.
Qed.

(** C33: after any sequence of updates and resets, with time stamps and sizes as streams have them ([sane]), the bit rate that
    is reported is the one of the last frames, at most 500, at the last frame whose number is a multiple of five: eight times
    their bytes per second or, when there is a jump of more than a second in time between two of them, those of the longest
    run without a jump; the newest run is considered only when its last frame is more than a second away
    from the time -1 ([considered], a flaw of the code: the comment there says longest run).  All calls return and leave the
    mutex free. *)
Theorem bitrate_refines (cs : list call) :
  all_fine nothing cs ->
  exists b b', BitrateEstimaterCreate true = Some b /\ perform_all cs b = Ok tt b' /\ be_mutex b' = false /\
    BitrateEstimaterGetBitrate b' = Ok (rate (foldl told nothing cs)) b'.
Proof.
  intros H. eexists. destruct (perform_ok cs nothing (mkBe false 0 0 0 0 (repeat (mkNode 0 0) (Z.to_nat BITRATE_ARRAY_SIZE)))) as (b' & E1 & R).
  - split; try done. apply ring_rep_nil.
  - done.
  - exists b'. split_and!; [done|done|apply R|]. unfold BitrateEstimaterGetBitrate, gets. by rewrite (r_rate _ _ R).
Qed.

(** * The median *)

Definition median (l : list Z) : Z := default 0 (merge_sort Z.le l !! (length l / 2)%nat).
Fixpoint deltas (ps : list Z) : list Z :=
  match ps with a :: ((b :: _) as rest) => b - a :: deltas rest | _ => [] end.

Definition int32 (z : Z) : Prop := - 2 ^ 31 <= z < 2 ^ 31.

Lemma bubble_front n : forall l suf, length l = Datatypes.S n -> bubble n (l ++ suf) = bubble n l ++ suf.
Proof.
  induction n as [|n IH]; intros l suf Hl; [done|]. destruct l as [|a [|b l]]; try done. cbn [app bubble].
  destruct (a >? b).
  - cbn [app]. f_equal. change (s32 a :: l ++ suf) with ((s32 a :: l) ++ suf). apply IH. cbn [length] in *. lia.
  - cbn [app]. f_equal. change (b :: l ++ suf) with ((b :: l) ++ suf). apply IH. cbn [length] in *. lia.
Qed.

(** A pass takes the greatest element to the end. *)
Lemma bubble_max n : forall l, length l = Datatypes.S n -> Forall int32 l ->
  exists m x, bubble n l = m ++ [x] /\ m ++ [x] ≡ₚ l /\ Forall (fun y => y <= x) m.
Proof.
  induction n as [|n IH]; intros l Hl Hi.
  - destruct l as [|a [|b l]]; try done. exists [], a. by split_and!.
  - destruct l as [|a [|b l]]; try done. apply Forall_cons_1 in Hi as [Ha Hi]. pose proof Hi as Hi'.
    apply Forall_cons_1 in Hi' as [Hb Hi']. cbn [bubble]. cbn [length] in Hl. destruct (a >? b) eqn:Eab.
    + unfold int32 in Ha. rewrite s32_small by lia.
      destruct (IH (a :: l)) as (m & x & E1 & E2 & E3); [cbn [length]; lia|by apply Forall_cons_2|].
      exists (b :: m), x. rewrite E1. split_and!; [done| |].
      * cbn [app]. rewrite E2. apply Permutation_swap.
      * apply Forall_cons_2; [|done]. assert (a <= x); [|lia].
        assert (a ∈ m ++ [x]) as Hin by (rewrite E2; by left). apply elem_of_app in Hin as [Hin|Hin].
        -- rewrite Forall_forall in E3. by apply E3.
        -- apply list_elem_of_singleton in Hin. lia.
    + destruct (IH (b :: l)) as (m & x & E1 & E2 & E3); [cbn [length]; lia|done|].
      exists (a :: m), x. rewrite E1. split_and!; [done|cbn [app]; by rewrite E2|].
      apply Forall_cons_2; [|done]. assert (b <= x); [|lia].
      assert (b ∈ m ++ [x]) as Hin by (rewrite E2; by left). apply elem_of_app in Hin as [Hin|Hin].
      * rewrite Forall_forall in E3. by apply E3.
      * apply list_elem_of_singleton in Hin. lia.
Qed.

Lemma bubble_sorts k : forall l suf, length l = Datatypes.S k -> Forall int32 l -> StronglySorted Z.le suf ->
  Forall (fun y => Forall (fun z => y <= z) suf) l ->
  StronglySorted Z.le (bubble_sort k (l ++ suf)) /\ bubble_sort k (l ++ suf) ≡ₚ l ++ suf.
Proof.
  induction k as [|k IH]; intros l suf Hl Hi Hs Hle; cbn [bubble_sort].
  - destruct l as [|a [|b l]]; try done. split; [|done]. apply Forall_cons_1 in Hle as [Hle _]. by constructor.
  - rewrite bubble_front by done. destruct (bubble_max (Datatypes.S k) l Hl Hi) as (m & x & E1 & E2 & E3). rewrite E1, <- app_assoc.
    assert (length m = Datatypes.S k) as Hm by (apply Permutation_length in E2; rewrite length_app in E2; cbn [length] in E2; lia).
    assert (Forall (fun y => Forall (fun z => y <= z) suf) (m ++ [x])) as Hle' by (by rewrite E2).
    assert (Forall int32 (m ++ [x])) as Hi' by (by rewrite E2).
    apply Forall_app in Hle' as [Hlm Hlx]. apply Forall_cons_1 in Hlx as [Hlx _]. apply Forall_app in Hi' as [Hi' _].
    destruct (IH m ([x] ++ suf)) as [S1 S2]; [done|done|by constructor| |].
    + apply Forall_forall. intros y Hy. rewrite Forall_forall in Hlm, E3. apply Forall_cons_2; [by apply E3|by apply Hlm].
    + split; [done|]. rewrite S2. by rewrite app_assoc, E2.
Qed.

Lemma bubble_median l : l <> [] -> Forall int32 l ->
  bubble_sort (length l - 1) l = merge_sort Z.le l.
Proof.
  intros Hne Hi. assert (0 < length l)%nat by (destruct l; [done|cbn [length]; lia]).
  destruct (bubble_sorts (length l - 1) l []) as [S1 S2]; [lia|done|constructor|by apply Forall_forall; constructor|].
  rewrite app_nil_r in *. apply (StronglySorted_unique Z.le); [exact S1| |].
  - apply Sorted_StronglySorted; [intros ???; lia|]. apply Sorted_merge_sort. intros a b. lia.
  - rewrite S2. symmetry. apply merge_sort_Permutation.
Qed.

(** * Frame durations *)

Lemma deltas_length ps : length (deltas ps) = (length ps - 1)%nat.
Proof. induction ps as [|a [|b ps] IH]; [done..|]. cbn [deltas length] in *. lia. Qed.

Lemma deltas_drop (P : Z -> Prop) k : forall ps, Forall P (deltas ps) -> Forall P (deltas (drop k ps)).
Proof.
  induction k as [|k IH]; intros ps H; [done|]. destruct ps as [|a ps]; [done|]. apply (IH ps).
  destruct ps as [|b ps]; [done|]. by apply Forall_cons_1 in H as [_ H].
Qed.

Lemma durations_ok {W} ps : forall (s : W), Forall int32 (deltas ps) -> durations ps s = Ok (deltas ps) s.
Proof.
  induction ps as [|a ps IH]; intros s H; [done|]. destruct ps as [|b ps]; [done|].
  change (deltas (a :: b :: ps)) with (b - a :: deltas (b :: ps)) in *. apply Forall_cons_1 in H as [Hd H].
  change (durations (S:=W) (a :: b :: ps)) with (d ← checked (S:=W) (b - a); ds ← durations (b :: ps); mret (d :: ds)).
  unfold int32 in Hd. eapply bind_ok; [apply checked_ok; lia|]. eapply bind_ok; [by apply IH|]. done.
Qed.

(** The duration of a frame: the middle one of the last three distances. *)
Definition typical (ps : list Z) : Z := if (length ps <? 2)%nat then 0 else median (deltas (lastn 4 ps)).

Record fe_rep (ps : list Z) (f : FramerateEstimater) : Prop := mkFeRep {
  f_free : fe_mutex f = false;
  f_len : length (nPts f) = 4%nat;
  f_pos : fe_nWritePos f = Z.of_nat (length ps) mod 4;
  f_cnt : nValidPtsCnt f = Z.of_nat (length (lastn 4 ps));
  f_dur : nFrameDuration f = typical ps;
  f_ring : holds_last 4 (nPts f) ps
}.

Lemma fe_lock_ok f : fe_mutex f = false -> fe_lock f = Ok tt (f <| fe_mutex := true |>).
Proof. intros H. unfold fe_lock. eapply bind_ok; [done|]. by rewrite H. Qed.

Lemma median_in l : l <> [] -> median l ∈ l.
Proof.
  intros Hne. unfold median. assert (0 < length l)%nat by (destruct l; [done|cbn [length]; lia]).
  pose proof (merge_sort_Permutation Z.le l) as P.
  destruct (lookup_lt_is_Some_2 (merge_sort Z.le l) (length l / 2)) as [x Hx].
  { rewrite P. apply Nat.div_lt; lia. }
  rewrite Hx. simpl. rewrite <- P. by apply list_elem_of_lookup_2 in Hx.
Qed.

Lemma stamp_ok ps f p : fe_rep ps f -> Forall int32 (deltas (ps ++ [p])) ->
  exists f', FramerateEstimaterUpdate p f = Ok tt f' /\ fe_rep (ps ++ [p]) f' /\ fPlayRate f' = fPlayRate f.
Proof.
  intros [F1 F2 F3 F4 F5 F6] Hd. unfold FramerateEstimaterUpdate, FRAMERATE_ARRAY_SIZE, FRAMERATE_START_ESTIMATE_SIZE.
  set (ps' := ps ++ [p]) in *. assert (length ps' = length ps + 1)%nat as Hl' by (unfold ps'; by rewrite length_app).
  pose proof (lastn_length 4 ps) as Hw. pose proof (lastn_length 4 ps') as Hw'.
  pose proof (Z.mod_pos_bound (Z.of_nat (length ps)) 4 ltac:(lia)) as Hm.
  set (f1 := f <| fe_mutex := true |> <| nPts ::= <[Z.to_nat (fe_nWritePos f) := p]> |>
    <| fe_nWritePos := Z.of_nat (length ps') mod 4 |> <| nValidPtsCnt := Z.of_nat (length (lastn 4 ps')) |>).
  assert (holds_last 4 (nPts f1) ps') as Hring.
  { unfold f1. cbn [nPts set eta_fe]. rewrite F3. by apply (grow_ring 4 ltac:(lia) (nPts f) ps p). }
  assert (length (nPts f1) = 4%nat) as Hn1 by (unfold f1; cbn [nPts set eta_fe]; by rewrite length_insert).
  set (f2 := f1 <| nFrameDuration := typical ps' |>).
  exists (f2 <| fe_mutex := false |>). split_and!; [|split; done|done].
  eapply bind_ok; [by apply fe_lock_ok|]. eapply bind_ok; [done|]. cbn [nPts fe_nWritePos set eta_fe].
  destruct (lookup_lt_is_Some_2 (nPts f) (Z.to_nat (fe_nWritePos f))) as [y Hy]; [lia|].
  eapply bind_ok; [unfold zlookup; rewrite (proj2 (Z.leb_le _ _)) by lia; by rewrite Hy|].
  apply (bind_ok _ _ _ tt f1).
  { unfold modify, f1. f_equal. cbn [nPts fe_mutex nFrameDuration fe_nWritePos nValidPtsCnt fPlayRate set eta_fe].
    unfold FRAMERATE_ARRAY_SIZE. rewrite F3, ring_succ by lia. rewrite Zplus_mod_idemp_l. f_equal; [f_equal; lia|].
    rewrite F4, Hw, Hw'. destruct (_ <? 4) eqn:?; lia. }
  eapply bind_ok; [done|]. cbv beta zeta. change (nValidPtsCnt f1) with (Z.of_nat (length (lastn 4 ps'))).
  change (fe_nWritePos f1) with (Z.of_nat (length ps') mod 4). apply (bind_ok _ _ _ tt f2); [|done].
  destruct (decide (length ps' < 2)%nat) as [Hs|Hs].
  - replace (_ >=? 2) with false by lia. unfold mret, M_ret, f2. f_equal.
    assert (typical ps' = nFrameDuration f1) as ->; [|by destruct f1].
    change (nFrameDuration f1) with (nFrameDuration f). rewrite F5. unfold typical.
    replace (length ps' <? 2)%nat with true by lia. by replace (length ps <? 2)%nat with true by lia.
  - replace (_ >=? 2) with true by lia. unfold collect_pts, FRAMERATE_ARRAY_SIZE. change 4 with (Z.of_nat 4).
    rewrite (ring_start 4 ltac:(lia) ps'), Nat2Z.id.
    eapply bind_ok; [by apply (collect_ok 4 ltac:(lia))|]. clear Hring.
    assert (Forall int32 (deltas (lastn 4 ps'))) as Hi by by apply deltas_drop.
    eapply bind_ok; [by apply durations_ok|]. cbv beta zeta.
    pose proof (deltas_length (lastn 4 ps')) as Hdl. set (ds := deltas (lastn 4 ps')) in *.
    assert (ds <> []) as Hne by (intros E0; rewrite E0 in Hdl; cbn [length] in Hdl; lia).
    replace (Z.to_nat (Z.of_nat (length (lastn 4 ps')) - 1 - 1)) with (length ds - 1)%nat by lia.
    rewrite bubble_median by done.
    pose proof (median_in ds Hne) as Hin. rewrite Forall_forall in Hi. specialize (Hi _ Hin). unfold int32 in Hi.
    assert (zlookup (merge_sort Z.le ds) ((Z.of_nat (length (lastn 4 ps')) - 1) / 2) = Some (median ds)) as Hz.
    { unfold zlookup. rewrite (proj2 (Z.leb_le _ _)) by dlia.
      replace (Z.to_nat _) with (length ds / 2)%nat.
      - unfold median. destruct (lookup_lt_is_Some_2 (merge_sort Z.le ds) (length ds / 2)) as [x Hx]; [|by rewrite Hx].
        rewrite (merge_sort_Permutation Z.le ds). apply Nat.div_lt; destruct ds; done || cbn [length]; lia.
      - replace (Z.of_nat (length (lastn 4 ps')) - 1) with (Z.of_nat (length ds)) by lia.
        change 2 with (Z.of_nat 2). rewrite <- Nat2Z.inj_div. by rewrite Nat2Z.id. }
    eapply bind_ok; [by rewrite Hz|]. unfold modify, f2. f_equal. rewrite s32_small by lia. unfold typical.
    by replace (length ps' <? 2)%nat with false by lia.
Qed.

Definition stamps (ps : list Z) : M FramerateEstimater unit := foldr (fun p m => FramerateEstimaterUpdate p;; m) (mret tt) ps.

(** The estimated duration of a frame is the median of the last three distances of the time stamps,
    fewer when there are fewer, as long as no distance exceeds an [int]. *)
Theorem framerate_median (ps : list Z) :
  Forall int32 (deltas ps) ->
  exists f f', FramerateEstimaterCreate true = Some f /\ stamps ps f = Ok tt f' /\ fe_mutex f' = false /\
    nFrameDuration f' = typical ps.
Proof.
  intros Hd. eexists.
  assert (forall qs rs f, fe_rep rs f -> Forall int32 (deltas (rs ++ qs)) ->
    exists f', stamps qs f = Ok tt f' /\ fe_rep (rs ++ qs) f') as Run.
  { induction qs as [|q qs IH]; intros rs f R H; [exists f; by rewrite app_nil_r|].
    destruct (stamp_ok rs f q R) as (f1 & E1 & R1 & _).
    { revert H. clear. rewrite (cons_middle q rs qs), app_assoc. generalize (rs ++ [q]). clear. intros l. revert qs.
      induction l as [|a l IH]; intros qs H; [constructor|]. destruct l as [|b l]; [constructor|].
      apply Forall_cons_1 in H as [Ha H]. apply Forall_cons_2; [done|]. by apply (IH qs). }
    destruct (IH (rs ++ [q]) f1 R1) as (f2 & E2 & R2); [by rewrite <- app_assoc|].
    exists f2. rewrite <- app_assoc in R2. split; [|done]. by eapply bind_ok. }
  destruct (Run ps [] (mkFe (repeat 0 (Z.to_nat FRAMERATE_ARRAY_SIZE)) 0 0 0 (float_of 1) false)) as (f' & E1 & R).
  - split; try done. apply ring_rep_nil.
  - done.
  - exists f'. split_and!; [done|done|apply R|apply R].
Qed.

(** * Examples *)

(** Five frames at 25 frames per second in six packets. *)
Definition film : list call :=
  [Reset; Update 0 1000; Update 40000 1000; Update (-1) 500; Update 80000 1000; Update 120000 1000; Update 160000 1000].

Lemma bitrate_refines_witness :
  exists b b', BitrateEstimaterCreate true = Some b /\ perform_all film b = Ok tt b' /\ be_mutex b' = false /\
    BitrateEstimaterGetBitrate b' = Ok 275000 b'.
Proof.
  apply (bitrate_refines film). unfold film. cbn [all_fine told]. unfold fine, sane.
  cbn [Z.eqb Pos.eqb nFramePts nFrameLen frames more nothing app last removelast length]. simpl. repeat split; lia.
Defined.

Lemma framerate_median_witness :
  exists f f', FramerateEstimaterCreate true = Some f /\ stamps [0; 40000; 75000; 120000; 160000] f = Ok tt f' /\
    fe_mutex f' = false /\ nFrameDuration f' = 40000.
Proof.
  apply (framerate_median [0; 40000; 75000; 120000; 160000]). cbn [deltas].
  repeat (apply Forall_cons_2; [unfold int32; lia|]). apply Forall_nil_2.
Defined.

(** The duration and the rate at a play rate; a duration out of range counts as 24 frames per second. *)
Example framerate_reports :
  (exists f, (FramerateEstimaterGetFrameDuration (mkFe [0; 0; 0; 0] 0 0 40000 (float_of 1) false)) = Ok 40000 f) /\
  (exists f, (FramerateEstimaterGetFramerate (mkFe [0; 0; 0; 0] 0 0 40000 (float_of 2) false)) = Ok 12500 f) /\
  (exists f, (FramerateEstimaterGetFrameDuration (mkFe [0; 0; 0; 0] 0 0 9000 (float_of 1) false)) = Ok 41667 f) /\
  (FramerateEstimaterSetPlayrate (S754_zero false);; FramerateEstimaterGetFramerate)
    (mkFe [0; 0; 0; 0] 0 0 40000 (float_of 1) false) = Undef.
Proof. split_and!; [eexists; vm_compute; reflexivity..|vm_compute; reflexivity]. Qed.

(** Where the estimates are off.  The time -1 behind the last frame ends a run only when that frame is at a second
    or later: after a jump back to zero the longest run, of three frames, is passed over for one of two frames.  The
    sizes of all frames are divided by the time without the last one: a fourth too much for five frames.  A distance
    of 40 minutes that is swapped is cut to an [int], and the median is another. *)
Theorem estimaters_depart :
  (exists b', perform_all [Update 10000000 1000; Update 10040000 1000; Update 0 5000; Update 40000 5000; Update 80000 5000]
     (mkBe false 0 0 0 0 (repeat (mkNode 0 0) 500)) = Ok tt b' /\ nBitrate b' = 400000 /\
     rate_of [mkNode 0 5000; mkNode 40000 5000; mkNode 80000 5000] 0 = 1500000) /\
  (exists b', perform_all [Update 0 1000; Update 40000 1000; Update 80000 1000; Update 120000 1000; Update 160000 1000]
     (mkBe false 0 0 0 0 (repeat (mkNode 0 0) 500)) = Ok tt b' /\ nBitrate b' = 250000 /\ 1000 * 8 * 25 = 200000) /\
  (exists f', stamps [0; 2400000000; 2400040000; 2400081000] (mkFe [0; 0; 0; 0] 0 0 0 (float_of 1) false) = Ok tt f' /\
     nFrameDuration f' = 40000 /\ median (deltas [0; 2400000000; 2400040000; 2400081000]) = 41000).
Proof.
  split; [|split]; eexists; (split; [vm_compute; reflexivity|split; vm_compute; reflexivity]).
Qed.
End EstimatersSpec.
