(* ===== verification/KeyedVector.v ===== *)
(** The vector of key-value pairs of the player, [libcedarx/libcore/base/CdxKeyedVector.c]: the
    headers of a request, strings that the vector owns.

    The process has live blocks with the strings in them, [malloc] may fail ([fails] says for
    the next calls), and there is one vector.  The size that is asked of [calloc] fits [size_t],
    which has 64 bits. *)

From Stdlib Require Import ZArith Lia.
From stdpp Require Import base list list_numbers numbers gmap.
From S2P Require Import Prelude.

Open Scope list_scope.
Open Scope Z_scope.

Module KeyedVector.

Abbreviation str := (list Z).

Record KeyValuePair := mkPair { key : option Z; val : option Z }.
#[export] Instance eta_pair : Eta KeyValuePair := fun p => mkPair (key p) (val p).

Record CdxKeyedVector := mkVec { self : Z; size : Z; index : Z; item : list KeyValuePair }.
#[export] Instance eta_vec : Eta CdxKeyedVector := fun v => mkVec (self v) (size v) (index v) (item v).

Record world := mkWorld { heap : gmap Z str; next : Z; fails : list bool; vec : option CdxKeyedVector }.
#[export] Instance eta_world : Eta world := fun w => mkWorld (heap w) (next w) (fails w) (vec w).

(** * The C library *)

Definition malloc (c : str) : M world (option Z) :=
  w ← get;
  match fails w with
  | true :: fs => modify (fun w => w <| fails := fs |>);; mret None
  | fs =>
      modify (fun w => w <| fails := tail fs |> <| heap ::= <[next w := c]> |> <| next := next w + 1 |>);;
      mret (Some (next w))
  end.
Definition free (p : option Z) : M world unit :=
  match p with
  | None => mret tt
  | Some a =>
      w ← get;
      match heap w !! a with
      | Some _ => modify (fun w => w <| heap ::= delete a |>)
      | None => undef
      end
  end.
Definition strdup (s : str) : M world (option Z) := malloc s.

Definition the_vec : M world CdxKeyedVector := w ← get; lift (vec w).
Definition mod_vec (f : CdxKeyedVector -> CdxKeyedVector) : M world unit :=
  v ← the_vec; modify (fun w => w <| vec := Some (f v) |>).

(** * The operations *)

(** The vector that is created is the one of the process. *)
Definition CdxKeyedVectorCreate (num : Z) : M world bool :=
  if num <=? 0 then mret false
  else
    p ← malloc [];
    match p with
    | None => mret false
    | Some a => modify (fun w => w <| vec := Some (mkVec a num (-1) (repeat (mkPair None None) (Z.to_nat num))) |>);; mret true
    end.

(** The loop over the items up to [index]: [i] is the next, [n] are left. *)
Fixpoint destroy_items (n : nat) (i : nat) (its : list KeyValuePair) : M world unit :=
  match n with
  | O => mret tt
  | S n => x ← lift (its !! i); free (key x);; free (val x);; destroy_items n (S i) its
  end.
Definition CdxKeyedVectorDestroy : M world unit :=
  w ← get;
  match vec w with
  | None => mret tt
  | Some v =>
      destroy_items (Z.to_nat (index v + 1)) 0 (item v);;
      free (Some (self v));;
      modify (fun w => w <| vec := None |>)
  end.

(** [item[i].key = strdup(key)], or nothing for a null argument: whether it went well. *)
Definition copy_key (i : nat) (k : option str) : M world bool :=
  match k with
  | None => mret true
  | Some k =>
      p ← strdup k;
      mod_vec (fun v => v <| item ::= alter (fun x => x <| key := p |>) i |>);;
      mret (bool_decide (is_Some p))
  end.
Definition copy_val (i : nat) (k : option str) : M world bool :=
  match k with
  | None => mret true
  | Some k =>
      p ← strdup k;
      mod_vec (fun v => v <| item ::= alter (fun x => x <| val := p |>) i |>);;
      mret (bool_decide (is_Some p))
  end.
Definition add_err (i : nat) : M world Z :=
  v ← the_vec; x ← lift (item v !! i); free (key x);; free (val x);; mret (-1).

Definition CdxKeyedVectorAdd (k v : option str) : M world Z :=
  match k, v with
  | None, None => mret 0
  | _, _ =>
      vv ← the_vec;
      if index vv >=? size vv - 1 then mret (-1)
      else
        let i := Z.to_nat (index vv + 1) in
        _ ← lift (item vv !! i);
        ok ← copy_key i k;
        if negb ok then add_err i
        else
          ok ← copy_val i v;
          if negb ok then add_err i
          else mod_vec (fun v => v <| index ::= Z.add 1 |>);; mret 0
  end.

Definition CdxKeyedVectorGetSize : M world Z := v ← the_vec; mret (size v).

Definition CdxKeyedVectorGetKey (i : Z) : M world (option Z) :=
  v ← the_vec;
  if (0 <=? i) && (i <=? index v) then x ← lift (item v !! Z.to_nat i); mret (key x) else mret None.
Definition CdxKeyedVectorGetValue (i : Z) : M world (option Z) :=
  v ← the_vec;
  if (0 <=? i) && (i <=? index v) then x ← lift (item v !! Z.to_nat i); mret (val x) else mret None.

End KeyedVector.
