(* ===== verification/KeyedVectorSpec.v ===== *)
(** The vector of key-value pairs against a list of pairs, whatever allocations fail. *)

From Stdlib Require Import ZArith Lia.
From stdpp Require Import base list list_numbers numbers gmap.
From S2P Require Import Prelude KeyedVector.

Open Scope list_scope.
Open Scope Z_scope.

Module KeyedVectorSpec.
Import KeyedVector.

(** * Blocks *)

(** The live blocks are those of [l], no two the same, and [base]. *)
Record holds (base : gmap Z str) (l : list (Z * str)) (w : world) : Prop := mkHolds {
  h_heap : heap w = list_to_map l ∪ base;
  h_nodup : NoDup l.*1;
  h_base : Forall (fun e => base !! e.1 = None) l;
  h_next : forall p, is_Some (heap w !! p) -> p < next w
}.

#[export] Instance holds_perm base : Proper ((≡ₚ) ==> eq ==> impl) (holds base).
Proof.
  intros l l' P w ? <- [H1 H2 H3 H4]. split; [|by rewrite <- P|by rewrite <- P|done].
  rewrite H1. f_equal. by apply list_to_map_proper.
Qed.

Lemma holds_in base l w a s : holds base l w -> (a, s) ∈ l -> heap w !! a = Some s.
Proof.
  intros [H1 H2 _ _] Hin. rewrite H1. apply lookup_union_Some_l. by apply elem_of_list_to_map_1.
Qed.

Lemma holds_fresh base l w c fs : holds base l w ->
  holds base ((next w, c) :: l) (w <| fails := fs |> <| heap ::= <[next w := c]> |> <| next := next w + 1 |>).
Proof.
  intros H. assert (heap w !! next w = None) as Hn.
  { destruct (heap w !! next w) eqn:E0; [|done]. pose proof (h_next _ _ _ H (next w) ltac:(by rewrite E0)). lia. }
  destruct H as [H1 H2 H3 H4]. rewrite H1 in Hn. apply lookup_union_None in Hn as [Hn1 Hn2].
  split; cbn [heap next set eta_world].
  - rewrite H1. cbn [list_to_map]. by rewrite insert_union_l.
  - rewrite fmap_cons. apply NoDup_cons. split; [|done]. by apply not_elem_of_list_to_map_2.
  - by apply Forall_cons_2.
  - intros p Hp. apply lookup_insert_is_Some in Hp as [<-|[_ Hp]]; [simpl; lia|]. specialize (H4 p Hp). lia.
Qed.

Lemma malloc_ok base l w c : holds base l w ->
  exists p w', malloc c w = Ok p w' /\ vec w' = vec w /\
    holds base (match p with Some a => [(a, c)] | None => [] end ++ l) w' /\ (fails w = [] -> is_Some p /\ fails w' = []).
Proof.
  intros H. unfold malloc. destruct (fails w) as [|[] fs] eqn:Ef.
  - exists (Some (next w)). eexists. split; [eapply bind_ok; [done|]; rewrite Ef; eapply bind_ok; done|].
    split_and!; [done|by apply holds_fresh|done].
  - exists None. eexists. split; [eapply bind_ok; [done|]; rewrite Ef; eapply bind_ok; done|]. split_and!; [done| |done].
    destruct H as [H1 H2 H3 H4]. by split.
  - exists (Some (next w)). eexists. split; [eapply bind_ok; [done|]; rewrite Ef; eapply bind_ok; done|].
    split_and!; [done|by apply holds_fresh|done].
Qed.

Lemma kv_free_ok base l w a s : holds base ((a, s) :: l) w ->
  exists w', free (Some a) w = Ok tt w' /\ vec w' = vec w /\ fails w' = fails w /\ holds base l w'.
Proof.
  intros H. pose proof (holds_in base _ w a s H ltac:(by left)) as Ha. eexists. split.
  { unfold free. eapply bind_ok; [done|]. rewrite Ha. done. }
  split_and!; try done. destruct H as [H1 H2 H3 H4]. rewrite fmap_cons in H2. apply NoDup_cons in H2 as [Hn H2].
  apply Forall_cons_1 in H3 as [Hb H3]. simpl in Hn, Hb. split; cbn [heap next set eta_world].
  - rewrite H1, list_to_map_cons, delete_union, (delete_id base) by done. f_equal. apply delete_insert_id.
    by apply not_elem_of_list_to_map_1.
  - done.
  - done.
  - intros p [x Hp]. apply lookup_delete_Some in Hp as [_ Hp]. apply H4. eauto.
Qed.

(** A string that may be missing. *)
Abbreviation cell := (option (Z * str)).
Definition blocks_of (c : cell * cell) : list (Z * str) := option_list c.1 ++ option_list c.2.

Lemma free_cell base l w (c : cell) : holds base (option_list c ++ l) w ->
  exists w', free (fst <$> c) w = Ok tt w' /\ vec w' = vec w /\ fails w' = fails w /\ holds base l w'.
Proof. destruct c as [[a s]|]; [apply kv_free_ok|]. intros H. by exists w. Qed.

Lemma strdup_cell base l w s : holds base l w ->
  exists c : cell, exists w', strdup s w = Ok (fst <$> c) w' /\ vec w' = vec w /\ holds base (option_list c ++ l) w' /\
    (c = None \/ snd <$> c = Some s) /\ (fails w = [] -> snd <$> c = Some s /\ fails w' = []).
Proof.
  intros H. destruct (malloc_ok base l w s H) as (p & w' & E1 & E2 & E3 & E4).
  exists ((fun a => (a, s)) <$> p), w'. destruct p as [a|]; simpl in *.
  - split; [done|]. split; [done|]. split; [done|]. split; [by right|]. intros Hf. by destruct (E4 Hf).
  - split; [done|]. split; [done|]. split; [done|]. split; [by left|]. intros Hf. by destruct (E4 Hf) as [[? ?] _].
Qed.

(** * The vector *)

Abbreviation entry := (option str * option str)%type.
Definition owned (a : Z) (cells : list (cell * cell)) : list (Z * str) := (a, []) :: concat (map blocks_of cells).
Definition contents (c : cell * cell) : entry := (snd <$> c.1, snd <$> c.2).
Definition pointers (c : cell * cell) : KeyValuePair := mkPair (fst <$> c.1) (fst <$> c.2).

(** An unused item: the value is null, and the key too if pairs without a key may come ([K]). *)
Definition unused (K : Prop) (x : KeyValuePair) : Prop := val x = None /\ (K -> key x = None).

(** A vector for [num] pairs that holds [ps]. *)
Definition rep (K : Prop) (base : gmap Z str) (num : Z) (ps : list entry) (w : world) : Prop :=
  exists v cells spare, vec w = Some v /\ size v = num /\ index v = Z.of_nat (length cells) - 1 /\
    Z.of_nat (length (item v)) = num /\ item v = map pointers cells ++ spare /\ Forall (unused K) spare /\
    ps = map contents cells /\ holds base (owned (self v) cells) w.

Lemma kv_create_ok K num w : vec w = None -> (forall p, is_Some (heap w !! p) -> p < next w) ->
  exists ok w', CdxKeyedVectorCreate num w = Ok ok w' /\
    (if ok : bool then 0 < num /\ rep K (heap w) num [] w' else heap w' = heap w /\ vec w' = None) /\
    (fails w = [] -> ok = (0 <? num) /\ fails w' = []).
Proof.
  intros Hv Hn. unfold CdxKeyedVectorCreate. destruct (num <=? 0) eqn:E0.
  { exists false, w. split; [done|]. split; [done|]. intros. split; [lia|done]. }
  destruct (malloc_ok (heap w) [] w []) as (p & w1 & E1 & E2 & E3 & E4).
  { split; [by rewrite list_to_map_nil, (left_id_L ∅ (∪))|constructor|constructor|done]. }
  destruct p as [a|].
  - exists true. eexists. split; [eapply bind_ok; [exact E1|]; eapply bind_ok; done|]. split; [|intros Hf; destruct (E4 Hf); split; [lia|done]].
    split; [lia|]. eexists _, [], _. cbn [vec set eta_world].
    split; [done|]. split; [done|]. split; [done|]. cbn [item length]. rewrite repeat_length.
    split; [lia|]. split; [done|]. split; [clear; by induction (Z.to_nat num); constructor|]. split; [done|].
    destruct E3 as [H1 H2 H3 H4]. by split.
  - exists false, w1. split; [eapply bind_ok; [exact E1|]; done|].
    split; [|intros Hf; destruct (E4 Hf) as [[? ?] _]; done]. split; [|congruence].
    rewrite (h_heap _ _ _ E3). cbn [app]. by rewrite list_to_map_nil, (left_id_L ∅ (∪)).
Qed.

Lemma destroy_items_ok base cells : forall its i rest w, take (length cells) (drop i its) = map pointers cells ->
  holds base (concat (map blocks_of cells) ++ rest) w ->
  exists w', destroy_items (length cells) i its w = Ok tt w' /\ vec w' = vec w /\ holds base rest w'.
Proof.
  induction cells as [|[c d] cells IH]; intros its i rest w Hi H; [by exists w|].
  cbn [length map concat destroy_items] in *. unfold blocks_of in H at 1. cbn [fst snd] in H. rewrite <- !app_assoc in H.
  destruct (drop i its) as [|x its'] eqn:Ed; [done|]. cbn [take] in Hi. injection Hi as -> Hi.
  assert (its !! i = Some (pointers (c, d))) as Hlk by (rewrite <- (Nat.add_0_r i), <- lookup_drop, Ed; done).
  destruct (free_cell base _ w c H) as (w1 & F1 & V1 & _ & H1).
  destruct (free_cell base _ w1 d H1) as (w2 & F2 & V2 & _ & H2).
  destruct (IH its (S i) rest w2) as (w3 & F3 & V3 & H3).
  { rewrite <- (drop_drop its i 1) || (replace (S i) with (i + 1)%nat by lia; rewrite <- drop_drop). by rewrite Ed. }
  { done. }
  exists w3. split; [|split; [congruence|done]]. eapply bind_ok; [by rewrite Hlk|].
  eapply bind_ok; [exact F1|]. eapply bind_ok; [exact F2|]. exact F3.
Qed.

Lemma kv_destroy_ok K base num ps w : rep K base num ps w ->
  exists w', CdxKeyedVectorDestroy w = Ok tt w' /\ heap w' = base /\ vec w' = None.
Proof.
  intros (v & cells & spare & Ev & _ & Ei & _ & Et & _ & _ & H). unfold owned in H.
  destruct (destroy_items_ok base cells (item v) 0 [(self v, [])] w) as (w1 & F1 & V1 & H1).
  { rewrite drop_0, Et. by rewrite <- (length_map pointers cells), take_app_length. }
  { eapply holds_perm; [|done|exact H]. by rewrite <- Permutation_cons_append. }
  destruct (kv_free_ok base [] w1 _ _ H1) as (w2 & F2 & V2 & _ & H2).
  exists (w2 <| vec := None |>). split; [|split; [|done]].
  - unfold CdxKeyedVectorDestroy. eapply bind_ok; [done|]. rewrite Ev.
    replace (Z.to_nat (index v + 1)) with (length cells) by lia.
    eapply bind_ok; [exact F1|]. eapply bind_ok; [exact F2|]. done.
  - cbn [heap set eta_world]. rewrite (h_heap _ _ _ H2). by rewrite list_to_map_nil, (left_id_L ∅ (∪)).
Qed.

(** ** Adding *)

Definition room (num : Z) (ps : list entry) : bool := Z.of_nat (length ps) <? num.

Lemma vec_ok w v : vec w = Some v -> the_vec w = Ok v w.
Proof. intros H. unfold the_vec. eapply bind_ok; [done|]. by rewrite H. Qed.

Lemma mod_vec_ok w v f : vec w = Some v -> mod_vec f w = Ok tt (w <| vec := Some (f v) |>).
Proof. intros H. unfold mod_vec. eapply bind_ok; [by apply vec_ok|]. done. Qed.

Lemma holds_vec base l w o : holds base l w -> holds base l (w <| vec := o |>).
Proof. intros [H1 H2 H3 H4]. by split. Qed.

Lemma alter_middle {A} (f : A -> A) X x Y : alter f (length X) (X ++ x :: Y) = X ++ f x :: Y.
Proof. rewrite <- (Nat.add_0_r (length X)), alter_app_r. done. Qed.

(** What a copy leaves: the string, or null when memory is short. *)
Definition copied (base : gmap Z str) (l : list (Z * str)) (s : option str) (w : world) (ok : bool) (c : cell) (w' : world) : Prop :=
  holds base (option_list c ++ l) w' /\ (if ok then snd <$> c = s else c = None) /\
  (fails w = [] -> ok = true /\ fails w' = []).

Lemma copy_key_ok base l w u X x Y s : vec w = Some u -> item u = X ++ x :: Y -> (s = None -> key x = None) -> holds base l w ->
  exists ok c w', copy_key (length X) s w = Ok ok w' /\
    vec w' = Some (u <| item := X ++ x <| key := fst <$> c |> :: Y |>) /\ copied base l s w ok c w'.
Proof.
  intros Ev Ei Hx H. destruct s as [k|].
  2: { specialize (Hx eq_refl). exists true, None, w. split; [done|]. split; [|done]. rewrite Ev. f_equal. destruct u. simpl in *. subst.
       f_equal. f_equal. f_equal. destruct x. simpl in *. by subst. }
  destruct (strdup_cell base l w k H) as (c & w1 & E1 & V1 & H1 & C1 & F1). rewrite Ev in V1.
  exists (bool_decide (is_Some (fst <$> c))), c. eexists. split; [|split].
  - unfold copy_key. eapply bind_ok; [exact E1|]. eapply bind_ok; [by apply (mod_vec_ok w1 u)|]. done.
  - cbn [vec set eta_world eta_vec item]. by rewrite Ei, alter_middle.
  - split; [by apply holds_vec|]. destruct c as [[a s]|]; simpl in *.
    + split; [by destruct C1|]. intros Hf. by destruct (F1 Hf).
    + split; [done|]. intros Hf. by destruct (F1 Hf).
Qed.

Lemma copy_val_ok base l w u X x Y s : vec w = Some u -> item u = X ++ x :: Y -> val x = None -> holds base l w ->
  exists ok c w', copy_val (length X) s w = Ok ok w' /\
    vec w' = Some (u <| item := X ++ x <| val := fst <$> c |> :: Y |>) /\ copied base l s w ok c w'.
Proof.
  intros Ev Ei Hx H. destruct s as [k|].
  - destruct (strdup_cell base l w k H) as (c & w1 & E1 & V1 & H1 & C1 & F1). rewrite Ev in V1.
    exists (bool_decide (is_Some (fst <$> c))), c. eexists. split; [|split].
    + unfold copy_val. eapply bind_ok; [exact E1|]. eapply bind_ok; [by apply (mod_vec_ok w1 u)|]. done.
    + cbn [vec set eta_world eta_vec item]. by rewrite Ei, alter_middle.
    + split; [by apply holds_vec|]. destruct c as [[a s]|]; simpl in *.
      * split; [by destruct C1|]. intros Hf. by destruct (F1 Hf).
      * split; [done|]. intros Hf. by destruct (F1 Hf).
  - exists true, None, w. split; [done|]. split; [|done]. rewrite Ev. f_equal. destruct u. simpl in *. subst. f_equal. f_equal. f_equal.
    destruct x. simpl in *. by subst.
Qed.

Lemma add_err_ok base l w u X Y (c d : cell) : vec w = Some u -> item u = X ++ pointers (c, d) :: Y ->
  holds base (option_list c ++ option_list d ++ l) w ->
  exists w', add_err (length X) w = Ok (-1) w' /\ vec w' = vec w /\ holds base l w' /\ fails w' = fails w.
Proof.
  intros Ev Ei H. destruct (free_cell base _ w c H) as (w1 & F1 & V1 & L1 & H1).
  destruct (free_cell base _ w1 d H1) as (w2 & F2 & V2 & L2 & H2).
  exists w2. split; [|split; [congruence|split; [done|congruence]]]. unfold add_err. eapply bind_ok; [by apply vec_ok|].
  eapply bind_ok; [rewrite Ei; by rewrite list_lookup_middle|]. eapply bind_ok; [exact F1|]. eapply bind_ok; [exact F2|]. done.
Qed.

(** An item behind the last is changed. *)
Lemma rep_spare K base num cells spare x y u w' : size u = num -> index u = Z.of_nat (length cells) - 1 ->
  Z.of_nat (length (item u)) = num -> item u = map pointers cells ++ y :: spare -> Forall (unused K) (x :: spare) ->
  vec w' = Some (u <| item := map pointers cells ++ x :: spare |>) -> holds base (owned (self u) cells) w' ->
  rep K base num (map contents cells) w'.
Proof.
  intros Es Ei El Et Hs Ev H. eexists _, cells, (x :: spare). split; [exact Ev|]. cbn [self size index item set eta_vec].
  split; [done|]. split; [done|]. split; [|done]. rewrite <- El, Et, !length_app. done.
Qed.

(** A pair of which nothing is stored. *)
Definition void (e : entry) : Prop := e = (None, None).

Lemma kv_add_ok K base num ps w k v : rep K base num ps w -> (k = None -> K) -> (K -> fails w = []) -> ~ void (k, v) ->
  exists r w', CdxKeyedVectorAdd k v w = Ok r w' /\
    ((r = 0 /\ room num ps = true /\ rep K base num (ps ++ [(k, v)]) w') \/ (r = -1 /\ rep K base num ps w')) /\
    (fails w = [] -> fails w' = [] /\ r = if room num ps then 0 else -1).
Proof.
  intros R HkK HK Hne. revert R.
  intros (u & cells & spare & Ev & Es & Ei & El & Et & Hs & -> & H). unfold room. rewrite length_map.
  assert (CdxKeyedVectorAdd k v = (vv ← the_vec; if index vv >=? size vv - 1 then mret (-1) else
      let i := Z.to_nat (index vv + 1) in _ ← lift (item vv !! i); ok ← copy_key i k;
      if negb ok then add_err i else ok ← copy_val i v; if negb ok then add_err i else
      mod_vec (fun v => v <| index ::= Z.add 1 |>);; mret 0)) as -> by (by destruct k, v).
  destruct (Z.of_nat (length cells) <? num) eqn:Er.
  2: { exists (-1), w. split; [eapply bind_ok; [by apply vec_ok|]; by replace (_ >=? _) with true by lia|].
       split; [|done]. right. split; [done|]. by exists u, cells, spare. }
  destruct spare as [|x spare]; [rewrite Et, app_nil_r, length_map in El; lia|].
  apply Forall_cons_1 in Hs as [[Hx HxK] Hs]. set (X := map pointers cells) in *.
  assert (Z.to_nat (index u + 1) = length X) as Hi by (unfold X; rewrite length_map; lia).
  assert (forall r w', (copy_key (length X) k ≫= (fun ok : bool => if negb ok then add_err (length X) else
      ok ← copy_val (length X) v; if negb ok then add_err (length X) else mod_vec (fun v => v <| index ::= Z.add 1 |>);; mret 0)) w = Ok r w' ->
    (vv ← the_vec; if index vv >=? size vv - 1 then mret (-1) else
      let i := Z.to_nat (index vv + 1) in _ ← lift (item vv !! i); ok ← copy_key i k;
      if negb ok then add_err i else ok ← copy_val i v; if negb ok then add_err i else
      mod_vec (fun v => v <| index ::= Z.add 1 |>);; mret 0) w = Ok r w') as Start.
  { intros r w' E0. eapply bind_ok; [by apply vec_ok|]. replace (_ >=? _) with false by lia. cbv zeta. rewrite Hi.
    eapply bind_ok; [rewrite Et; by rewrite list_lookup_middle|]. exact E0. }
  destruct (copy_key_ok base _ w u X x spare k Ev Et ltac:(auto) H) as (ok1 & c & w1 & E1 & V1 & H1 & C1 & F1).
  destruct ok1.
  2: { subst c. destruct (add_err_ok base (owned (self u) cells) w1 _ X spare None None V1) as (w2 & E2 & V2 & H2 & L2).
       { cbn [item set eta_vec]. by destruct x; simpl in *; subst. } { done. }
       exists (-1), w2. split; [apply Start; eapply bind_ok; [exact E1|]; exact E2|]. split; [|intros Hf; by destruct (F1 Hf)].
       right. split; [done|]. rewrite V1 in V2. eapply rep_spare; [done|done|done|exact Et|by apply (Forall_cons_2 _ (x <| key := None |>))|exact V2|done]. }
  destruct (copy_val_ok base _ w1 _ X (x <| key := fst <$> c |>) spare v V1 eq_refl Hx H1) as (ok2 & d & w2 & E2 & V2 & H2 & C2 & F2).
  destruct ok2.
  - exists 0. eexists. split; [apply Start; eapply bind_ok; [exact E1|]; cbn [negb]; eapply bind_ok; [exact E2|]; cbn [negb];
      eapply bind_ok; [by apply (mod_vec_ok w2 _ _ V2)|]; done|].
    split; [left; split; [done|]; split; [done|]|intros Hf; destruct (F1 Hf) as [_ Hf1]; destruct (F2 Hf1) as [_ Hf2]; done].
    eexists _, (cells ++ [(c, d)]), spare. split; [done|]. cbn [self size index item set eta_vec].
    split; [done|]. rewrite length_app. cbn [length]. split; [lia|].
    split; [cbn [item]; rewrite <- El, Et, !length_app; done|]. split; [by rewrite map_app, <- app_assoc|]. split; [done|].
    assert (contents (c, d) = (k, v)) as Hc by (unfold contents; cbn [fst snd]; by rewrite C1, C2).
    split; [rewrite map_app; cbn [map]; by rewrite Hc|].
    apply holds_vec. eapply holds_perm; [|done|exact H2]. unfold owned. rewrite map_app, concat_app. cbn [map concat]. rewrite app_nil_r.
    unfold blocks_of at 2. cbn [fst snd]. solve_Permutation.
  - subst d. destruct (add_err_ok base (owned (self u) cells) w2 _ X spare c None V2) as (w3 & E3 & V3 & H3 & L3).
    { cbn [item set eta_vec]. by destruct x; simpl in *; subst. } { done. }
    exists (-1), w3. split; [apply Start; eapply bind_ok; [exact E1|]; cbn [negb]; eapply bind_ok; [exact E2|]; exact E3|].
    split; [|intros Hf; destruct (F1 Hf) as [_ Hf1]; by destruct (F2 Hf1)].
    right. split; [done|]. rewrite V2 in V3.
    eapply rep_spare; [done|done|done|exact Et| |exact V3|done].
    apply (Forall_cons_2 _ (x <| key := fst <$> c |> <| val := None |>)); [|done]. split; [done|]. intros HKt.
    destruct (F1 (HK HKt)) as [_ Hf1]. by destruct (F2 Hf1).
Qed.

(** ** Reading *)

Definition reads (w : world) (p : option Z) : option str := a ← p; heap w !! a.

Lemma kv_get_ok K base num ps w i : rep K base num ps w ->
  exists p q, CdxKeyedVectorGetKey i w = Ok p w /\ CdxKeyedVectorGetValue i w = Ok q w /\
    reads w p = (e ← zlookup ps i; e.1) /\ reads w q = (e ← zlookup ps i; e.2).
Proof.
  intros (u & cells & spare & Ev & Es & Ei & El & Et & Hs & -> & H). unfold CdxKeyedVectorGetKey, CdxKeyedVectorGetValue.
  destruct ((0 <=? i) && (i <=? index u)) eqn:Eb.
  - destruct (lookup_lt_is_Some_2 cells (Z.to_nat i)) as [[c d] Hc]; [lia|].
    assert (item u !! Z.to_nat i = Some (pointers (c, d))) as Hi.
    { rewrite Et, lookup_app_l by (rewrite length_map; lia). change (map pointers cells) with (pointers <$> cells).
      by rewrite list_lookup_fmap, Hc. }
    assert (zlookup (map contents cells) i = Some (contents (c, d))) as Hz.
    { unfold zlookup. rewrite (proj2 (Z.leb_le 0 i)) by lia. change (map contents cells) with (contents <$> cells).
      by rewrite list_lookup_fmap, Hc. }
    assert (forall e : Z * str, e ∈ option_list c ++ option_list d -> heap w !! e.1 = Some e.2) as Hin.
    { intros [a s] Hin. apply (holds_in base _ w a s H). right. rewrite list_elem_of_In. apply in_concat.
      exists (blocks_of (c, d)). rewrite <- !list_elem_of_In. split; [|done].
      change (map blocks_of cells) with (blocks_of <$> cells). apply list_elem_of_fmap. exists (c, d). split; [done|].
      by apply list_elem_of_lookup_2 in Hc. }
    exists (fst <$> c), (fst <$> d). rewrite Hz. split_and!.
    + eapply bind_ok; [by apply vec_ok|]. rewrite Eb. eapply bind_ok; [by rewrite Hi|]. done.
    + eapply bind_ok; [by apply vec_ok|]. rewrite Eb. eapply bind_ok; [by rewrite Hi|]. done.
    + destruct c as [e|]; [|done]. simpl. apply Hin. by left.
    + destruct d as [e|]; [|done]. simpl. apply Hin. apply elem_of_app. right. by left.
  - assert (zlookup (map contents cells) i = None) as Hz.
    { unfold zlookup. destruct (0 <=? i) eqn:E0; [|done]. apply lookup_ge_None_2. rewrite length_map. lia. }
    exists None, None. rewrite Hz. split_and!; try done; (eapply bind_ok; [by apply vec_ok|]; by rewrite Eb).
Qed.

(** * Whole lives *)

Definition add_all (l : list entry) : M world (list Z) :=
  foldr (fun a m => r ← CdxKeyedVectorAdd a.1 a.2; rs ← m; mret (r :: rs)) (mret []) l.

#[export] Instance void_dec e : Decision (void e) := decide (e = (None, None)).
(** The pairs whose calls returned 0, but for those with neither key nor value. *)
Definition kv_stored (l : list entry) (rs : list Z) : list entry :=
  fst <$> filter (fun a => a.2 = 0 /\ ~ void a.1) (zip l rs).

Lemma kv_stored_cons e l r rs : kv_stored (e :: l) (r :: rs) = kv_stored [e] [r] ++ kv_stored l rs.
Proof. unfold kv_stored. cbn [zip]. rewrite !filter_cons. case_decide; by rewrite ?filter_nil. Qed.

Lemma kv_stored_one e : ~ void e -> kv_stored [e] [0] = [e] /\ kv_stored [e] [-1] = [].
Proof.
  intros H. unfold kv_stored. cbn [zip]. rewrite !filter_cons, filter_nil.
  rewrite decide_True by done. rewrite decide_False by (by intros [? ?]). done.
Qed.

Lemma add_all_ok (K : Prop) base num l : forall ps w, rep K base num ps w ->
  Forall (fun e => e.1 = None -> K) l -> (K -> fails w = []) ->
  exists rs w', add_all l w = Ok rs w' /\ length rs = length l /\ rep K base num (ps ++ kv_stored l rs) w' /\
    (fails w = [] -> kv_stored l rs = take (Z.to_nat num - length ps) (filter (fun e => ~ void e) l)).
Proof.
  induction l as [|[k v] l IH]; intros ps w R Hl HK.
  - exists [], w. split; [done|]. split; [done|]. rewrite app_nil_r. split; [done|]. by rewrite filter_nil, take_nil.
  - apply Forall_cons_1 in Hl as [Hk Hl]. destruct (decide (void (k, v))) as [Hv|Hv].
    { destruct (IH ps w R Hl HK) as (rs & w2 & E2 & L2 & R2 & F2). exists (0 :: rs), w2.
      assert (kv_stored ((k, v) :: l) (0 :: rs) = kv_stored l rs) as Hst.
      { rewrite kv_stored_cons. unfold kv_stored at 1. cbn [zip]. rewrite filter_cons, decide_False by (by intros [_ ?]).
        by rewrite filter_nil. }
      rewrite Hst, filter_cons, decide_False by (by intros ?). injection Hv as -> ->.
      split; [eapply bind_ok; [done|]; eapply bind_ok; [exact E2|]; done|]. split; [cbn [length]; lia|]. done. }
    destruct (kv_add_ok K base num ps w k v R Hk HK Hv) as (r & w1 & E1 & Hr & Hf). pose proof (kv_stored_one _ Hv) as [S0 S1].
    assert (exists ps', rep K base num ps' w1 /\ ps' = ps ++ kv_stored [(k, v)] [r]) as (ps' & R1 & Hps).
    { destruct Hr as [(-> & _ & R1)|(-> & R1)]; eexists; (split; [exact R1|]); [by rewrite S0|by rewrite S1, app_nil_r]. }
    destruct (IH ps' w1 R1 Hl) as (rs & w2 & E2 & L2 & R2 & F2).
    { intros HKt. by destruct (Hf (HK HKt)). }
    exists (r :: rs), w2.
    split; [eapply bind_ok; [exact E1|]; eapply bind_ok; [exact E2|]; done|]. split; [cbn [length]; lia|].
    rewrite kv_stored_cons, app_assoc, <- Hps, filter_cons, decide_True by done. split; [done|].
    intros Hw. destruct (Hf Hw) as [Hw1 Hr1]. rewrite (F2 Hw1).
    assert (room num ps = true -> (length ps < Z.to_nat num)%nat) as Hroom by (unfold room; lia).
    assert (room num ps = false -> (Z.to_nat num <= length ps)%nat) as Hfull by (unfold room; lia).
    rewrite Hps, length_app. destruct (room num ps).
    + subst r. specialize (Hroom eq_refl). rewrite S0. cbn [length].
      destruct (Z.to_nat num - length ps)%nat as [|n] eqn:En; [lia|]. cbn [take app]. do 2 f_equal. lia.
    + subst r. specialize (Hfull eq_refl). rewrite S1. cbn [length app].
      replace (Z.to_nat num - (length ps + 0))%nat with 0%nat by lia. by replace (Z.to_nat num - length ps)%nat with 0%nat by lia.
Qed.

(** C34: a vector holds the pairs whose addition returned 0 (but for pairs with neither key nor value, which are
    ignored), in order, and gives their strings back by number; without failing allocations these are the first pairs, as many as
    it was created for; destroying it leaves the blocks of the process as they were before.  This holds whatever
    allocations fail if all keys are there, and for pairs without a key if no allocation fails.  (After a failed addition a
    pair without a key takes over a freed one: [keyed_vector_departs].) *)
Theorem keyed_vector_life (num : Z) (l : list entry) (w : world) :
  vec w = None -> (forall p, is_Some (heap w !! p) -> p < next w) ->
  Forall (fun e => is_Some e.1) l \/ fails w = [] ->
  exists ok w1, CdxKeyedVectorCreate num w = Ok ok w1 /\
    (ok = false -> heap w1 = heap w) /\ (fails w = [] -> ok = (0 <? num)) /\
    (ok = true -> exists rs w2, add_all l w1 = Ok rs w2 /\ length rs = length l /\
      (fails w = [] -> kv_stored l rs = take (Z.to_nat num) (filter (fun e => ~ void e) l)) /\
      (forall i, exists p q, CdxKeyedVectorGetKey i w2 = Ok p w2 /\ CdxKeyedVectorGetValue i w2 = Ok q w2 /\
        reads w2 p = (e ← zlookup (kv_stored l rs) i; e.1) /\ reads w2 q = (e ← zlookup (kv_stored l rs) i; e.2)) /\
      exists w3, CdxKeyedVectorDestroy w2 = Ok tt w3 /\ heap w3 = heap w).
Proof.
  intros Hv Hn Hkeys. assert (exists K : Prop, Forall (fun e : entry => e.1 = None -> K) l /\ (K -> fails w = [])) as (K & HK1 & HK2).
  { destruct Hkeys as [Hk|Hf]; [exists False|exists True].
    - split; [|done]. eapply Forall_impl; [exact Hk|]. simpl. by intros [k v] [? ->].
    - split; [|done]. by apply List.Forall_forall. }
  destruct (kv_create_ok K num w Hv Hn) as (ok & w1 & E1 & H1 & F1). exists ok, w1. split; [done|].
  split; [intros ->; by destruct H1|]. split; [intros Hf; by destruct (F1 Hf)|]. intros ->. destruct H1 as [_ R1].
  destruct (add_all_ok K (heap w) num l [] w1 R1 HK1) as (rs & w2 & E2 & L2 & R2 & F2).
  { intros HKt. by destruct (F1 (HK2 HKt)). }
  exists rs, w2. cbn [app] in R2.
  split; [done|]. split; [done|]. split.
  { intros Hf. destruct (F1 Hf) as [_ Hf1]. rewrite (F2 Hf1). cbn [length]. by rewrite Nat.sub_0_r. }
  split; [intros i; by apply (kv_get_ok K (heap w) num)|].
  destruct (kv_destroy_ok K (heap w) num _ w2 R2) as (w3 & E3 & H3 & _). by exists w3.
Qed.

Lemma keyed_vector_life_witness :
  exists ok w1, CdxKeyedVectorCreate 2 (mkWorld {[7 := [1]]} 8 [false; false; true] None) = Ok ok w1 /\ ok = true /\
    exists rs w2 w3, add_all [(Some [65], Some [66]); (Some [67], None); (Some [68], Some [])] w1 = Ok rs w2 /\
      CdxKeyedVectorDestroy w2 = Ok tt w3 /\ heap w3 = {[7 := [1]]}.
Proof.
  destruct (keyed_vector_life 2 [(Some [65], Some [66]); (Some [67], None); (Some [68], Some [])] (mkWorld {[7 := [1]]} 8 [false; false; true] None))
    as (ok & w1 & E1 & _ & _ & H).
  - reflexivity.
  - intros p [x Hp]. cbn [heap] in Hp. apply lookup_singleton_Some in Hp as [<- _]. simpl. lia.
  - left. repeat (apply Forall_cons_2; [eexists; reflexivity|]). apply Forall_nil_2.
  - exists ok, w1. split; [exact E1|]. assert (ok = true) as Hok by (vm_compute in E1; congruence). split; [exact Hok|].
    destruct (H Hok) as (rs & w2 & E2 & _ & _ & _ & w3 & E3 & H3). exists rs, w2, w3. split; [exact E2|]. split; [exact E3|]. exact H3.
Defined.

(** When memory for a value is short the key is freed but stays in the item: a pair without a key that is added
    next gets it, and destroying the vector frees it again. *)
Theorem keyed_vector_departs :
  (CdxKeyedVectorCreate 2;; CdxKeyedVectorAdd (Some [65]) (Some [66]);; CdxKeyedVectorAdd None (Some [67]);;
   CdxKeyedVectorDestroy) (mkWorld ∅ 0 [false; false; true] None) = Undef.
Proof. vm_compute. reflexivity. Qed.
End KeyedVectorSpec.
