(* ===== verification/Lmo.v ===== *)
(** The translation archives of the web interface, [luci/luci-base/src/template_lmo.c].

    Blocks of the heap, descriptors and mappings have names that are never used twice, so a
    pointer to a freed block or to an unmapped file is never valid again.  Lists are linked as in
    the code.  A pointer into a mapping is the name of the mapping and an offset; reading
    outside the bytes of the file is undefined. *)

From Stdlib Require Import ZArith Lia Ascii String.
From stdpp Require Import base list list_numbers numbers strings gmap.
From S2P Require Import Prelude Stdio.

Open Scope list_scope.
Open Scope Z_scope.

Module Lmo.
Import Stdio (le, unle).

(** * Hashes *)

Definition isspace (c : Z) : bool := (c =? 32) || ((9 <=? c) && (c <=? 13)).

Section hash.
(** [schar]: [char] is signed. *)
Context (schar : bool).

Definition char_val (b : Z) : Z := if schar && (128 <=? b) then b - 256 else b.
Definition sfh_get16 (a b : Z) : Z := Z.shiftl b 8 + a.

(** The main loop, and the bytes it leaves. *)
Fixpoint sfh_loop (data : list Z) (hash : Z) : Z * list Z :=
  match data with
  | a :: b :: c :: d :: data' =>
      let hash := u32 (hash + sfh_get16 a b) in
      let tmp := Z.lxor (u32 (Z.shiftl (sfh_get16 c d) 11)) hash in
      let hash := Z.lxor (u32 (Z.shiftl hash 16)) tmp in
      sfh_loop data' (u32 (hash + Z.shiftr hash 11))
  | _ => (hash, data)
  end.

Definition sfh_rest (hash : Z) (data : list Z) : Z :=
  match data with
  | [a; b; c] =>
      let hash := u32 (hash + sfh_get16 a b) in
      let hash := Z.lxor hash (u32 (Z.shiftl hash 16)) in
      let hash := Z.lxor hash (u32 (Z.shiftl (char_val c) 18)) in
      u32 (hash + Z.shiftr hash 11)
  | [a; b] =>
      let hash := u32 (hash + sfh_get16 a b) in
      let hash := Z.lxor hash (u32 (Z.shiftl hash 11)) in
      u32 (hash + Z.shiftr hash 17)
  | [a] =>
      let hash := u32 (hash + char_val a) in
      let hash := Z.lxor hash (u32 (Z.shiftl hash 10)) in
      u32 (hash + Z.shiftr hash 1)
  | _ => hash
  end.

Definition sfh_hash (data : list Z) : Z :=
  match data with
  | [] => 0
  | _ =>
      let '(hash, rest) := sfh_loop data (u32 (Z.of_nat (length data))) in
      let hash := sfh_rest hash rest in
      let hash := Z.lxor hash (u32 (Z.shiftl hash 3)) in
      let hash := u32 (hash + Z.shiftr hash 5) in
      let hash := Z.lxor hash (u32 (Z.shiftl hash 4)) in
      let hash := u32 (hash + Z.shiftr hash 17) in
      let hash := Z.lxor hash (u32 (Z.shiftl hash 25)) in
      u32 (hash + Z.shiftr hash 6)
  end.

(** The loop of [lmo_canon_hash]. *)
Fixpoint squeeze (prev : Z) (str : list Z) : list Z :=
  match str with
  | [] => []
  | c :: str =>
      if isspace c then (if isspace prev then [] else [32]) ++ squeeze c str
      else c :: squeeze c str
  end.
Definition trim (res : list Z) : list Z :=
  match reverse res with
  | c :: l => if isspace c then reverse l else res
  | [] => res
  end.
Definition lmo_canon_hash (str : list Z) : Z :=
  if 4096 <=? Z.of_nat (length str) then 0 else sfh_hash (trim (squeeze 32 str)).
End hash.

(** * Data *)

(** [index] is an offset in the mapping [mmap]. *)
Record lmo_archive := mkAr {
  fd : Z; a_length : Z; a_size : Z; index : Z; mmap : option Z; a_next : option Z
}.
Record lmo_catalog := mkCat { lang : string; archives : option Z; c_next : option Z }.

(** [fails] are the outcomes of the next system calls and allocations, [true] a failure; beyond
    the list they succeed. *)
Record st := mkSt {
  cats : gmap Z lmo_catalog;
  ars : gmap Z lmo_archive;
  maps : gmap Z (list Z);
  fds : gset Z;
  lmo_catalogs : option Z;
  lmo_active_catalog : option Z;
  next : Z;
  fails : list bool
}.

#[export] Instance eta_ar : Eta lmo_archive := fun x =>
  mkAr (fd x) (a_length x) (a_size x) (index x) (mmap x) (a_next x).
#[export] Instance eta_cat : Eta lmo_catalog := fun x => mkCat (lang x) (archives x) (c_next x).
#[export] Instance eta_st : Eta st := fun x =>
  mkSt (cats x) (ars x) (maps x) (fds x) (lmo_catalogs x) (lmo_active_catalog x) (next x) (fails x).

Definition init (fails : list bool) : st := mkSt ∅ ∅ ∅ ∅ None None 1 fails.

(** * System *)

Definition new_name : M st Z := s ← get; modify (fun s => s <| next ::= Z.add 1 |>);; mret (next s).
(** Whether the next call that can fail succeeds. *)
Definition attempt : M st bool :=
  s ← get;
  match fails s with
  | [] => mret true
  | x :: l => modify (fun s => s <| fails := l |>);; mret (negb x)
  end.

Definition open_fd : M st Z := f ← new_name; modify (fun s => s <| fds ::= union {[f]} |>);; mret f.
Definition close (f : Z) : M st unit :=
  s ← get;
  if bool_decide (f ∈ fds s) then modify (fun s => s <| fds ::= fun x => x ∖ {[f]} |>) else undef.

Definition do_mmap (bs : list Z) (size : Z) : M st (option Z) :=
  ok ← attempt;
  if negb ok || (size =? 0) then mret None
  else m ← new_name; modify (fun s => s <| maps ::= <[m := take (Z.to_nat size) bs]> |>);; mret (Some m).
Definition munmap (m : Z) : M st unit :=
  s ← get; lift (maps s !! m);; modify (fun s => s <| maps ::= delete m |>).

(** [ntohl] of the four bytes at [off]. *)
Definition be32 (bs : list Z) : Z := unle (reverse bs).
Definition load32 (m off : Z) : M st Z :=
  s ← get;
  bs ← lift (maps s !! m);
  if (0 <=? off) && (off + 4 <=? Z.of_nat (length bs)) then mret (be32 (take 4 (drop (Z.to_nat off) bs)))
  else undef.

Definition load_ar (a : Z) : M st lmo_archive := s ← get; lift (ars s !! a).
Definition load_cat (c : Z) : M st lmo_catalog := s ← get; lift (cats s !! c).
Definition set_ar (a : Z) (x : lmo_archive) : M st unit := modify (fun s => s <| ars ::= <[a := x]> |>).
Definition set_cat (c : Z) (x : lmo_catalog) : M st unit := modify (fun s => s <| cats ::= <[c := x]> |>).
Definition free_ar (a : Z) : M st unit := load_ar a;; modify (fun s => s <| ars ::= delete a |>).
Definition free_cat (c : Z) : M st unit := load_cat c;; modify (fun s => s <| cats ::= delete c |>).

(** [strncmp(a, b, n) == 0], and [snprintf] into [n] bytes. *)
Definition strncmp_eq (n : nat) (a b : string) : bool :=
  bool_decide (take n (list_ascii_of_string a) = take n (list_ascii_of_string b)).
Definition cut_to (n : nat) (s : string) : string :=
  string_of_list_ascii (take (n - 1) (list_ascii_of_string s)).

Section lmo.
(** [wide]: [size_t] has 64 bits; the files and directories, and [fnmatch], as they are found. *)
Context (wide schar : bool) (file : string -> option (list Z)) (dir_of : string -> option (list string))
  (fnmatch : string -> string -> bool).

Definition usize (x : Z) : Z := x mod (if wide then 2 ^ 64 else 2 ^ 32).

(** * Archives *)

(** The label [err] of [lmo_open]. *)
Definition open_err (i : Z) (ar : option Z) : M st (option Z) :=
  close i;;
  match ar with
  | None => mret None
  | Some a =>
      x ← load_ar a;
      match mmap x with Some m => munmap m | None => mret tt end;;
      free_ar a;; mret None
  end.

Definition lmo_open (name : string) : M st (option Z) :=
  ok ← attempt;
  match file name with
  | None => mret None
  | Some bs =>
      if negb ok then mret None
      else
        ok ← attempt;
        if negb ok then mret None
        else
          i ← open_fd;
          ok ← attempt;
          if negb ok then open_err i None
          else
            a ← new_name;
            let size := u32 (Z.of_nat (length bs)) in
            set_ar a (mkAr i 0 size 0 None None);;
            m ← do_mmap bs size;
            match m with
            | None => open_err i (Some a)
            | Some m =>
                set_ar a (mkAr i 0 size 0 (Some m) None);;
                idx_offset ← load32 m (size - 4);
                if idx_offset >=? size then open_err i (Some a)
                else
                  set_ar a (mkAr i (s32 (usize (size - idx_offset - 4) / 16)) size idx_offset (Some m) None);;
                  mret (Some a)
            end
  end.

Definition lmo_close (a : Z) : M st unit :=
  x ← load_ar a;
  match mmap x with Some m => munmap m | None => mret tt end;;
  close (fd x);;
  free_ar a.

(** The search of [lmo_find_entry]: the number of the entry.  32-bit numbers halve at most 32
    times. *)
Fixpoint find_loop (fuel : nat) (x : lmo_archive) (hash l r : Z) : M st (option Z) :=
  match fuel with
  | O => undef
  | S fuel =>
      let m := u32 (l + u32 (r - l) / 2) in
      if r <? l then mret None
      else
        map ← lift (mmap x);
        k ← load32 map (index x + 16 * m);
        if k =? hash then mret (Some m)
        else if hash <? k then
          if m =? 0 then mret None else find_loop fuel x hash l (u32 (m - 1))
        else find_loop fuel x hash (u32 (m + 1)) r
  end.
Definition lmo_find_entry (a hash : Z) : M st (option Z) :=
  x ← load_ar a; find_loop 34 x hash 0 (u32 (a_length x - 1)).

(** * Catalogs *)

Fixpoint change_loop (fuel : nat) (name : string) (cat : option Z) : M st Z :=
  match fuel, cat with
  | O, _ => undef
  | S _, None => mret (-1)
  | S fuel, Some c =>
      x ← load_cat c;
      if strncmp_eq 6 (lang x) name then
        modify (fun s => s <| lmo_active_catalog := Some c |>);; mret 0
      else change_loop fuel name (c_next x)
  end.
Definition lmo_change_catalog (name : string) : M st Z :=
  s ← get; change_loop (S (size (cats s))) name (lmo_catalogs s).

Fixpoint load_loop (cat : Z) (pattern dir : string) (names : list string) : M st unit :=
  match names with
  | [] => mret tt
  | name :: names =>
      (if fnmatch pattern name then
         ar ← lmo_open (cut_to 4096 (dir +:+ "/" +:+ name));
         match ar with
         | Some a =>
             c ← load_cat cat;
             x ← load_ar a;
             set_ar a (x <| a_next := archives c |>);;
             set_cat cat (c <| archives := Some a |>)
         | None => mret tt
         end
       else mret tt);;
      load_loop cat pattern dir names
  end.

Definition lmo_load_catalog (name : string) (dir : option string) : M st Z :=
  r ← lmo_change_catalog name;
  if r =? 0 then mret 0
  else
    match dir with
    | None => mret (-1)
    | Some dir =>
        ok ← attempt;
        match dir_of dir with
        | None => mret (-1)
        | Some names =>
            if negb ok then mret (-1)
            else
              dh ← open_fd;
              ok ← attempt;
              if negb ok then close dh;; mret (-1)
              else
                cat ← new_name;
                set_cat cat (mkCat (cut_to 6 name) None None);;
                load_loop cat (cut_to 16 ("*." +:+ name +:+ ".lmo")) dir names;;
                close dh;;
                s ← get;
                c ← load_cat cat;
                set_cat cat (c <| c_next := lmo_catalogs s |>);;
                modify (fun s => s <| lmo_catalogs := Some cat |>);;
                (match lmo_active_catalog s with
                 | None => modify (fun s => s <| lmo_active_catalog := Some cat |>)
                 | Some _ => mret tt
                 end);;
                mret 0
        end
    end.

(** The result and, on success, [*out] as a mapping and an offset with [*outlen]. *)
Fixpoint translate_loop (fuel : nat) (hash : Z) (ar : option Z) : M st (Z * option (Z * Z * Z)) :=
  match fuel, ar with
  | O, _ => undef
  | S _, None => mret (-1, None)
  | S fuel, Some a =>
      e ← lmo_find_entry a hash;
      x ← load_ar a;
      match e with
      | Some e =>
          m ← lift (mmap x);
          offset ← load32 m (index x + 16 * e + 8);
          len ← load32 m (index x + 16 * e + 12);
          mret (0, Some (m, offset, s32 len))
      | None => translate_loop fuel hash (a_next x)
      end
  end.
Definition lmo_translate (key : option (list Z)) : M st (Z * option (Z * Z * Z)) :=
  s ← get;
  match key, lmo_active_catalog s with
  | Some key, Some cat =>
      let hash := lmo_canon_hash schar key in
      c ← load_cat cat;
      translate_loop (S (size (ars s))) hash (archives c)
  | _, _ => mret (-2, None)
  end.

Fixpoint close_archives (fuel : nat) (ar : option Z) : M st unit :=
  match fuel, ar with
  | O, _ => undef
  | S _, None => mret tt
  | S fuel, Some a => x ← load_ar a; lmo_close a;; close_archives fuel (a_next x)
  end.
Fixpoint close_loop (fuel : nat) (name : string) (prev cat : option Z) : M st unit :=
  match fuel, cat with
  | O, _ => undef
  | S _, None => mret tt
  | S fuel, Some c =>
      x ← load_cat c;
      if strncmp_eq 6 (lang x) name then
        (match prev with
         | Some p => y ← load_cat p; set_cat p (y <| c_next := c_next x |>)
         | None => modify (fun s => s <| lmo_catalogs := c_next x |>)
         end);;
        s ← get;
        close_archives (S (size (ars s))) (archives x);;
        free_cat c
      else close_loop fuel name (Some c) (c_next x)
  end.
Definition lmo_close_catalog (name : string) : M st unit :=
  s ← get; close_loop (S (size (cats s))) name None (lmo_catalogs s).
End lmo.

End Lmo.
