(* ===== verification/LmoCatalog.v ===== *)
(** Catalogs of translation archives: what is loaded, what the process holds for it, and that
    closing gives it back. *)

From Stdlib Require Import ZArith Lia Ascii String.
From stdpp Require Import base list list_numbers numbers strings gmap.
From S2P Require Import Prelude Stdio Lmo LmoSpec.

Open Scope list_scope.
Open Scope Z_scope.

Module LmoCatalog.
Import Lmo LmoSpec.

Implicit Types (s : st) (x : lmo_archive) (c : lmo_catalog) (bs : list Z).

(** * Files *)

Definition len bs : Z := Z.of_nat (length bs).
Definition idx bs : Z := word bs (len bs - 4).
Definition count bs : Z := (len bs - idx bs - 4) / 16.

(** An archive with at least one entry, all of them inside the file. *)
Definition valid bs : Prop := 20 <= len bs < 2 ^ 32 /\ 0 <= idx bs /\ idx bs + 20 <= len bs.
(** What [lmo_open] and the search handle: it may also be refused. *)
Definition file_ok bs : Prop := len bs = 0 \/ (4 <= len bs < 2 ^ 32 /\ len bs <= idx bs) \/ valid bs.

(** * What the process has *)

(** Names in use are below [next]. *)
Definition below s : Prop :=
  (forall f, f ∈ fds s -> f < next s) /\ (forall a, is_Some (ars s !! a) -> a < next s) /\
  (forall m, is_Some (maps s !! m) -> m < next s) /\ (forall k, is_Some (cats s !! k) -> k < next s).
Definition rest s s' : Prop :=
  cats s' = cats s /\ lmo_catalogs s' = lmo_catalogs s /\ lmo_active_catalog s' = lmo_active_catalog s.

Record aar := mkAar { r_id : Z; r_fd : Z; r_map : Z; r_bytes : list Z }.
Definition ar_of (r : aar) (nxt : option Z) : lmo_archive :=
  mkAr (r_fd r) (count (r_bytes r)) (len (r_bytes r)) (idx (r_bytes r)) (Some (r_map r)) nxt.

(** What [lmo_open] does when it succeeds and when it does not. *)
Definition opened (r : aar) s s' : Prop :=
  r_fd r = next s /\ r_id r = next s + 1 /\ r_map r = next s + 2 /\ next s' = next s + 3 /\
  ars s' = <[r_id r := ar_of r None]> (ars s) /\ maps s' = <[r_map r := r_bytes r]> (maps s) /\
  fds s' = {[r_fd r]} ∪ fds s.
Definition unopened s s' : Prop :=
  next s <= next s' /\ ars s' = ars s /\ maps s' = maps s /\ fds s' = fds s.

(** ** Outcomes of calls *)

Lemma attempt_ok s (Q : bool -> st -> Prop) :
  (forall b l, (fails s = [] -> b = true /\ l = []) -> Q b (s <| fails := l |>)) -> twp attempt Q s.
Proof.
  intros H. unfold attempt, twp, mbind, M_bind, get. destruct (fails s) as [|b l] eqn:E.
  - unfold mret, M_ret. specialize (H true [] ltac:(done)). by replace (s <| fails := [] |>) with s in H by (destruct s; simpl in *; by subst).
  - apply H. done.
Qed.

Section opening.
Context (wide : bool) (file : string -> option (list Z)).

Lemma close_new s f : (f ∉ fds s) -> forall s1, fds s1 = {[f]} ∪ fds s -> close f s1 = Ok tt (s1 <| fds := fds s |>).
Proof.
  intros Hf s1 E. unfold close. eapply bind_ok; [done|]. cbv beta. rewrite bool_decide_true by (rewrite E; set_solver).
  unfold modify. f_equal. destruct s1 as [cs as_ ms fs h a n l]. simpl in *. subst. f_equal. set_solver.
Qed.

Lemma lmo_open_ok s name :
  below s -> (forall bs, file name = Some bs -> file_ok bs) ->
  twp (lmo_open wide file name)
    (fun r s' => rest s s' /\
       match r with
       | Some a => exists bs, file name = Some bs /\ valid bs /\ a = next s + 1 /\
                     opened (mkAar a (next s) (next s + 2) bs) s s'
       | None => unopened s s'
       end /\
       (fails s = [] -> fails s' = [] /\ forall bs, file name = Some bs -> valid bs -> is_Some r)) s.
Proof.
  intros (B1 & B2 & B3 & B4) Hok. unfold lmo_open. apply twp_bind, attempt_ok. intros b1 l1 H1.
  assert (forall l, rest s (s <| fails := l |>) /\ unopened s (s <| fails := l |>)) as Hnone.
  { intros l. split; [done|]. split_and!; [simpl; lia|done..]. }
  destruct (file name) as [bs|] eqn:Ef.
  2: { apply twp_ret. split_and!; try apply Hnone. intros F. destruct (H1 F) as [_ ->]. done. }
  specialize (Hok bs eq_refl).
  destruct b1; cbn [negb].
  2: { apply twp_ret. split_and!; try apply Hnone. intros F. by destruct (H1 F) as [? _]. }
  apply twp_bind, attempt_ok. intros b2 l2 H2. simpl in H2. destruct b2; cbn [negb].
  2: { apply twp_ret. split_and!; try apply Hnone. intros F. destruct (H1 F) as [_ ->]. by destruct (H2 eq_refl) as [? _]. }
  apply twp_bind. eapply twp_intro; [done|]. cbv beta.
  assert (next s ∉ fds s) as N1 by (intros H; apply B1 in H; lia).
  assert (ars s !! (1 + next s) = None) as N2 by (apply eq_None_not_Some; intros H; apply B2 in H; lia).
  assert (maps s !! (1 + (1 + next s)) = None) as N3 by (apply eq_None_not_Some; intros H; apply B3 in H; lia).
  apply twp_bind, attempt_ok. intros b3 l3 H3. simpl in H3. destruct b3; cbn [negb].
  2: { unfold open_err. eapply twp_intro; [eapply bind_ok; [by apply (close_new s)|done]|]. split_and!; try done.
       - unfold unopened. simpl. split_and!; (done || lia).
       - intros F. destruct (H1 F) as [_ ->]. destruct (H2 eq_refl) as [_ ->]. by destruct (H3 eq_refl) as [? _]. }
  apply twp_bind. eapply twp_intro; [done|]. cbv beta zeta. apply twp_bind. eapply twp_intro; [done|]. cbv beta.
  set (size := u32 (Z.of_nat (length bs))).
  assert (size = len bs) as Hsize.
  { unfold size, len. apply u32_small. destruct Hok as [H|[[H _]|[H _]]]; unfold len in H; lia. }
  apply twp_bind. unfold do_mmap. apply twp_bind, attempt_ok. intros b4 l4 H4. simpl in H4.
  destruct (negb b4 || (size =? 0)) eqn:E4.
  { apply twp_ret. unfold open_err. eapply twp_intro.
    - eapply bind_ok; [by apply (close_new s)|]. eapply bind_ok; [apply load_ar_ok; simpl; by rewrite lookup_insert_eq|].
      eapply bind_ok; [done|]. eapply bind_ok; [|done]. unfold free_ar. eapply bind_ok; [apply load_ar_ok; simpl; by rewrite lookup_insert_eq|]. done.
    - split_and!; try done.
      + unfold unopened. simpl. rewrite delete_insert_id by done. split_and!; (done || lia).
      + intros F. destruct (H1 F) as [_ ->]. destruct (H2 eq_refl) as [_ ->]. destruct (H3 eq_refl) as [_ ->].
        destruct (H4 eq_refl) as [-> ->]. split; [done|]. intros bs' [= <-] [? _]. simpl in E4. lia. }
  apply orb_false_elim in E4 as [E4 E5]. destruct b4; [|done].
  assert (take (Z.to_nat size) bs = bs) as Ht by (apply take_ge; unfold len in Hsize; lia).
  apply twp_bind. eapply twp_intro; [done|]. cbv beta. apply twp_bind. eapply twp_intro; [done|]. cbv beta. apply twp_ret. rewrite Ht.
  apply twp_bind. eapply twp_intro; [done|]. cbv beta.
  apply twp_bind. eapply twp_intro.
  { apply (lmo_load32_ok _ _ bs); [simpl; by rewrite lookup_insert_eq|..]; rewrite Hsize;
      destruct Hok as [H|[[H _]|[H _]]]; unfold len in *; lia. }
  cbv beta. rewrite Hsize. change (be32 _) with (idx bs). destruct (idx bs >=? len bs) eqn:E6.
  - unfold open_err. eapply twp_intro.
    { eapply bind_ok; [by apply (close_new s)|]. eapply bind_ok; [apply load_ar_ok; simpl; by rewrite lookup_insert_eq|].
      eapply bind_ok; [simpl; unfold munmap; eapply bind_ok; [done|]; eapply bind_ok; [simpl; by rewrite lookup_insert_eq|]; done|].
      eapply bind_ok; [|done]. unfold free_ar. eapply bind_ok; [apply load_ar_ok; simpl; by rewrite lookup_insert_eq|]. done. }
    split_and!; try done.
    + unfold unopened. simpl. rewrite insert_insert_eq, !delete_insert_id by done. split_and!; (done || lia).
    + intros F. destruct (H1 F) as [_ ->]. destruct (H2 eq_refl) as [_ ->]. destruct (H3 eq_refl) as [_ ->].
      destruct (H4 eq_refl) as [_ ->]. split; [done|]. intros bs' [= <-] (? & ? & ?). lia.
  - assert (valid bs) as V by (destruct Hok as [H|[[_ H]|H]]; [lia|lia|done]). pose proof V as (V1 & V2 & V3).
    eapply twp_intro; [eapply bind_ok; [done|]; done|]. split_and!; try done.
    + exists bs. do 2 (split; [done|]). split; [simpl; lia|]. unfold opened. cbn. rewrite insert_insert_eq.
      replace (s32 (usize wide (len bs - idx bs - 4) / 16)) with (count bs).
      2: { unfold count, usize. rewrite Z.mod_small by (destruct wide; lia). rewrite s32_small; [done|dlia]. }
      replace (1 + next s) with (next s + 1) by lia. replace (1 + (next s + 1)) with (next s + 2) by lia.
      rewrite insert_insert_eq. split_and!; (done || lia).
    + intros F. destruct (H1 F) as [_ ->]. destruct (H2 eq_refl) as [_ ->]. destruct (H3 eq_refl) as [_ ->].
      destruct (H4 eq_refl) as [_ ->]. split; [done|]. by eexists.
Qed.
End opening.

(** * Lists in memory *)

Record acat := mkAcat { k_id : Z; k_lang : string; k_ars : list aar }.
#[export] Instance eta_acat : Eta acat := fun k => mkAcat (k_id k) (k_lang k) (k_ars k).

Definition first (l : list aar) : option Z := r_id <$> head l.
Fixpoint linked (l : list aar) : list (Z * lmo_archive) :=
  match l with [] => [] | r :: l => (r_id r, ar_of r (first l)) :: linked l end.
Definition cat_of (k : acat) (nxt : option Z) : lmo_catalog := mkCat (k_lang k) (first (k_ars k)) nxt.
Definition lead (cs : list acat) (nxt : option Z) : option Z :=
  match cs with [] => nxt | k :: _ => Some (k_id k) end.
Fixpoint chained (cs : list acat) (nxt : option Z) : list (Z * lmo_catalog) :=
  match cs with [] => [] | k :: cs => (k_id k, cat_of k (lead cs nxt)) :: chained cs nxt end.

Definition flat (cs : list acat) : list (Z * lmo_archive) := cs ≫= fun k => linked (k_ars k).
Definition all_ars (cs : list acat) : list aar := cs ≫= k_ars.

Lemma linked_ids l : (linked l).*1 = r_id <$> l.
Proof. induction l as [|r l IH]; [done|]. cbn [linked]. by rewrite !fmap_cons, IH. Qed.
Lemma chained_ids cs nxt : (chained cs nxt).*1 = k_id <$> cs.
Proof. induction cs as [|k cs IH]; [done|]. cbn [chained]. by rewrite !fmap_cons, IH. Qed.
Lemma flat_ids cs : (flat cs).*1 = r_id <$> all_ars cs.
Proof.
  induction cs as [|k cs IH]; [done|]. unfold flat, all_ars in *. rewrite !bind_cons, !fmap_app, IH. by rewrite linked_ids.
Qed.
Lemma chained_app cs cs' nxt : chained (cs ++ cs') nxt = chained cs (lead cs' nxt) ++ chained cs' nxt.
Proof.
  induction cs as [|k cs IH]; [done|]. simpl. rewrite IH. do 2 f_equal. destruct cs; [by destruct cs'|done].
Qed.
Lemma linked_in l pre r post : l = pre ++ r :: post -> (r_id r, ar_of r (first post)) ∈ linked l.
Proof. intros ->. induction pre as [|p pre IH]; simpl; [by left|by right]. Qed.

(** ** What the archives of some catalogs need *)

Record holds (cs : list acat) (extra : gset Z) s : Prop := {
  h_ars : ars s = list_to_map (flat cs);
  h_maps : maps s = list_to_map ((fun r => (r_map r, r_bytes r)) <$> all_ars cs);
  h_fds : fds s = extra ∪ list_to_set (r_fd <$> all_ars cs);
  h_ids : NoDup (r_id <$> all_ars cs);
  h_mids : NoDup (r_map <$> all_ars cs);
  h_dids : NoDup (r_fd <$> all_ars cs);
  h_extra f : f ∈ extra -> f ∉ r_fd <$> all_ars cs;
  h_below : below s;
  h_valid : Forall (fun r => valid (r_bytes r)) (all_ars cs)
}.
Definition rep (cs : list acat) s : Prop :=
  holds cs ∅ s /\ cats s = list_to_map (chained cs None) /\ NoDup (k_id <$> cs) /\ lmo_catalogs s = lead cs None.

Lemma all_ars_in cs k r : k ∈ cs -> r ∈ k_ars k -> r ∈ all_ars cs.
Proof. intros Hk Hr. unfold all_ars. apply list_elem_of_bind. eauto. Qed.
Lemma flat_in cs k e : k ∈ cs -> e ∈ linked (k_ars k) -> e ∈ flat cs.
Proof. intros Hk He. unfold flat. apply list_elem_of_bind. eauto. Qed.

Lemma holds_ar cs extra s k pre r post :
  holds cs extra s -> k ∈ cs -> k_ars k = pre ++ r :: post ->
  ars s !! r_id r = Some (ar_of r (first post)) /\ maps s !! r_map r = Some (r_bytes r) /\ valid (r_bytes r).
Proof.
  intros H Hk E. assert (r ∈ all_ars cs) as Hr by (apply (all_ars_in cs k); [done|rewrite E; set_solver]). destruct H. split_and!.
  - rewrite h_ars0. apply elem_of_list_to_map_1; [by rewrite flat_ids|]. apply (flat_in cs k); [done|]. by apply (linked_in _ pre).
  - rewrite h_maps0. apply elem_of_list_to_map_1.
    + rewrite <- list_fmap_compose. exact h_mids0.
    + apply list_elem_of_fmap. by exists r.
  - rewrite Forall_forall in h_valid0. by apply h_valid0.
Qed.

Lemma rep_cat cs s pre k post :
  rep cs s -> cs = pre ++ k :: post -> cats s !! k_id k = Some (cat_of k (lead post None)).
Proof.
  intros (_ & Hc & Hn & _) ->. rewrite Hc. apply elem_of_list_to_map_1; [by rewrite chained_ids|].
  rewrite chained_app. simpl. set_solver.
Qed.

(** * Searching catalogs *)

Lemma entry_ok cs extra s k pre r post hash :
  holds cs extra s -> k ∈ cs -> k_ars k = pre ++ r :: post ->
  exists e, lmo_find_entry (r_id r) hash s = Ok e s /\
    found (r_bytes r) (idx (r_bytes r)) (count (r_bytes r)) hash 0 (count (r_bytes r) - 1) e.
Proof.
  intros H Hk E. destruct (holds_ar _ _ _ _ _ _ _ H Hk E) as (E1 & E2 & (V1 & V2 & V3)).
  assert (1 <= count (r_bytes r) < 2 ^ 31) as Hc by (unfold count; dlia).
  destruct (find_loop_ok s (ar_of r (first post)) (r_map r) (r_bytes r) (count (r_bytes r)) hash 33 0 (count (r_bytes r) - 1)) as (e & F1 & F2);
    try done; try lia.
  - simpl. fold (len (r_bytes r)). unfold count. dlia.
  - exists e. split; [|done]. unfold lmo_find_entry. eapply bind_ok; [by apply load_ar_ok|].
    cbn [ar_of a_length]. rewrite u32_small by lia. exact F1.
Qed.

(** The archives do not have the key. *)
Definition lacks hash bs : Prop :=
  ordered bs (idx bs) (count bs) -> forall i, 0 <= i < count bs -> field bs (idx bs) i 0 <> hash.
(** What a lookup in some archives answers: the first that has the key. *)
Definition answer s (l : list (list Z)) hash (r : Z * option (Z * Z * Z)) : Prop :=
  (r = (-1, None) /\ Forall (lacks hash) l) \/
  exists pre bs post i m, l = pre ++ bs :: post /\ Forall (lacks hash) pre /\ maps s !! m = Some bs /\
    0 <= i < count bs /\ field bs (idx bs) i 0 = hash /\
    r = (0, Some (m, field bs (idx bs) i 8, s32 (field bs (idx bs) i 12))).

Lemma translate_loop_ok cs extra s k hash : forall fuel pre post,
  holds cs extra s -> k ∈ cs -> k_ars k = pre ++ post -> (length post < fuel)%nat ->
  exists r, translate_loop fuel hash (first post) s = Ok r s /\ answer s (r_bytes <$> post) hash r.
Proof.
  induction fuel as [|fuel IH]; intros pre post H Hk E Hf; [lia|]. destruct post as [|r post].
  - exists (-1, None). split; [done|]. left. done.
  - destruct (entry_ok _ _ _ _ _ _ _ hash H Hk E) as (e & F1 & F2). destruct (holds_ar _ _ _ _ _ _ _ H Hk E) as (E1 & E2 & V).
    cbn [translate_loop first head fmap option_fmap option_map]. simpl.
    assert (forall A (f : option Z -> lmo_archive -> M st A), (e ← lmo_find_entry (r_id r) hash; x ← load_ar (r_id r); f e x) s = f e (ar_of r (first post)) s) as Hs.
    { intros A f. eapply bind_ok; [exact F1|]. eapply bind_ok; [by apply load_ar_ok|]. done. }
    rewrite Hs. destruct e as [i|].
    + destruct F2 as [Hi Hk2]. assert (0 <= count (r_bytes r)) by lia. pose proof V as (V1 & V2 & V3).
      exists (0, Some (r_map r, field (r_bytes r) (idx (r_bytes r)) i 8, s32 (field (r_bytes r) (idx (r_bytes r)) i 12))). split.
      * eapply bind_ok; [done|]. cbn [ar_of index].
        assert (idx (r_bytes r) + 16 * i + 16 <= Z.of_nat (length (r_bytes r))) as Hin
          by (unfold count, len in *; dlia).
        eapply bind_ok; [apply (lmo_load32_ok _ _ (r_bytes r)); [done|lia|lia]|].
        eapply bind_ok; [apply (lmo_load32_ok _ _ (r_bytes r)); [done|lia|lia]|]. done.
      * right. exists [], (r_bytes r), (r_bytes <$> post), i, (r_map r). split_and!; try done; lia.
    + destruct (IH (pre ++ [r]) post) as (x & X1 & X2); [done|done|by rewrite <- app_assoc|simpl in Hf; lia|].
      exists x. split; [exact X1|]. assert (lacks hash (r_bytes r)) as L.
      { intros Ho i Hi. apply F2; [done|lia]. }
      destruct X2 as [[-> X2]|(pre' & bs & post' & i & m & Y1 & Y2 & Y3)].
      * left. split; [done|]. by constructor.
      * right. exists (r_bytes r :: pre'), bs, post', i, m. split; [by simpl; f_equal|]. split; [by constructor|done].
Qed.

Definition named (name : string) (k : acat) : bool := strncmp_eq 6 (k_lang k) name.

Lemma change_loop_ok cs s name : forall fuel pre post,
  rep cs s -> cs = pre ++ post -> (length post < fuel)%nat ->
  (exists pre' k post', post = pre' ++ k :: post' /\ named name k = true /\ Forall (fun k => named name k = false) pre' /\
     change_loop fuel name (lead post None) s = Ok 0 (s <| lmo_active_catalog := Some (k_id k) |>)) \/
  (Forall (fun k => named name k = false) post /\ change_loop fuel name (lead post None) s = Ok (-1) s).
Proof.
  induction fuel as [|fuel IH]; intros pre post R E Hf; [lia|]. destruct post as [|k post]; [right; by split|].
  pose proof (rep_cat _ _ _ _ _ R E) as Ek.
  assert (change_loop (S fuel) name (lead (k :: post) None) s =
    (if named name k then modify (fun s => s <| lmo_active_catalog := Some (k_id k) |>);; mret 0
     else change_loop fuel name (lead post None)) s) as Hs.
  { simpl lead. cbn [change_loop]. eapply bind_ok; [by apply load_cat_ok|]. done. }
  rewrite Hs. destruct (named name k) eqn:En.
  - left. exists [], k, post. split_and!; done.
  - destruct (IH (pre ++ [k]) post) as [(pre' & k' & post' & H1 & H2 & H3 & H4)|[H1 H2]];
      [done|by rewrite <- app_assoc|simpl in Hf; lia|left|right].
    + exists (k :: pre'), k', post'. rewrite H1. split_and!; [done|done|by constructor|by rewrite <- H1].
    + split; [by constructor|done].
Qed.

(** * Closing *)

Lemma flat_perm cs cs' : cs ≡ₚ cs' -> flat cs ≡ₚ flat cs'.
Proof. intros H. unfold flat. by rewrite H. Qed.
Lemma all_ars_perm cs cs' : cs ≡ₚ cs' -> all_ars cs ≡ₚ all_ars cs'.
Proof. intros H. unfold all_ars. by rewrite H. Qed.

Lemma holds_perm cs cs' extra s : cs ≡ₚ cs' -> holds cs extra s -> holds cs' extra s.
Proof.
  intros P H. pose proof (flat_perm _ _ P) as Pf. pose proof (all_ars_perm _ _ P) as Pa. destruct H. split.
  - rewrite h_ars0. apply list_to_map_proper; [by rewrite flat_ids|done].
  - rewrite h_maps0. apply list_to_map_proper; [by rewrite <- list_fmap_compose|by rewrite Pa].
  - rewrite h_fds0. f_equal. apply list_to_set_perm_L. by rewrite Pa.
  - by rewrite <- Pa.
  - by rewrite <- Pa.
  - by rewrite <- Pa.
  - intros f Hf. rewrite <- Pa. by apply h_extra0.
  - done.
  - by rewrite <- Pa.
Qed.

(** A catalog without archives needs nothing. *)
Lemma holds_nil i l cs extra s : holds (mkAcat i l [] :: cs) extra s <-> holds cs extra s.
Proof. split; intros []; split; done. Qed.

Lemma below_less s s' :
  below s -> fds s' ⊆ fds s -> (forall a, is_Some (ars s' !! a) -> is_Some (ars s !! a)) ->
  (forall m, is_Some (maps s' !! m) -> is_Some (maps s !! m)) -> (forall k, is_Some (cats s' !! k) -> is_Some (cats s !! k)) ->
  next s' = next s -> below s'.
Proof. intros (B1 & B2 & B3 & B4) H1 H2 H3 H4 H5. unfold below. rewrite H5. split_and!; eauto. Qed.

Lemma delete_head {A} (i : Z) (v : A) (l : list (Z * A)) :
  (i ∉ l.*1) -> delete i (list_to_map ((i, v) :: l) : gmap Z A) = list_to_map l.
Proof. intros H. simpl. apply delete_insert_id. by apply not_elem_of_list_to_map_1. Qed.

(** One archive less. *)
Definition shut (r : aar) s : st :=
  s <| maps ::= delete (r_map r) |> <| fds ::= fun f => f ∖ {[r_fd r]} |> <| ars ::= delete (r_id r) |>.

Lemma holds_pop i l r rs cs extra s :
  holds (mkAcat i l (r :: rs) :: cs) extra s -> holds (mkAcat i l rs :: cs) extra (shut r s).
Proof.
  intros H. destruct H. change (all_ars (mkAcat i l (r :: rs) :: cs)) with (r :: all_ars (mkAcat i l rs :: cs)) in *.
  change (flat (mkAcat i l (r :: rs) :: cs)) with ((r_id r, ar_of r (first rs)) :: flat (mkAcat i l rs :: cs)) in *.
  rewrite fmap_cons in *. apply NoDup_cons in h_ids0 as [I1 I2]. apply NoDup_cons in h_mids0 as [M1 M2]. apply NoDup_cons in h_dids0 as [D1 D2].
  apply Forall_cons in h_valid0 as [_ V]. rewrite !fmap_cons in *. split.
  - transitivity (delete (r_id r) (ars s)); [done|]. rewrite h_ars0. apply delete_head. by rewrite flat_ids.
  - transitivity (delete (r_map r) (maps s)); [done|]. rewrite h_maps0. apply delete_head. by rewrite <- list_fmap_compose.
  - simpl. rewrite h_fds0. simpl. assert (r_fd r ∉ extra) as He by (intros He; apply (h_extra0 _ He); by left). set_solver.
  - done.
  - done.
  - done.
  - intros f Hf Hin. apply (h_extra0 f Hf). by right.
  - apply (below_less s); try done; simpl.
    + set_solver.
    + intros a [x Hx]. apply lookup_delete_Some in Hx as [_ ?]. by eexists.
    + intros a [x Hx]. apply lookup_delete_Some in Hx as [_ ?]. by eexists.
  - done.
Qed.

Lemma lmo_close_ok i l r rs cs extra s :
  holds (mkAcat i l (r :: rs) :: cs) extra s -> lmo_close (r_id r) s = Ok tt (shut r s).
Proof.
  intros H. destruct (holds_ar _ _ _ (mkAcat i l (r :: rs)) [] r rs H ltac:(by left) eq_refl) as (E1 & E2 & _).
  unfold lmo_close. eapply bind_ok; [by apply load_ar_ok|].
  eapply bind_ok; [simpl; unfold munmap; eapply bind_ok; [done|]; eapply bind_ok; [by rewrite E2|]; done|].
  eapply bind_ok.
  { unfold close. eapply bind_ok; [done|]. cbv beta. rewrite bool_decide_true; [done|]. simpl. rewrite (h_fds _ _ _ H). simpl. set_solver. }
  unfold free_ar. eapply bind_ok; [by apply load_ar_ok|]. done.
Qed.

Lemma close_archives_ok i l cs extra : forall fuel rs s,
  holds (mkAcat i l rs :: cs) extra s -> (length rs < fuel)%nat ->
  exists s', close_archives fuel (first rs) s = Ok tt s' /\ holds cs extra s' /\ rest s s' /\ next s' = next s.
Proof.
  induction fuel as [|fuel IH]; intros rs s H Hf; [lia|]. destruct rs as [|r rs].
  - exists s. split; [done|]. split; [by apply (holds_nil i l)|done].
  - destruct (IH rs (shut r s)) as (s' & S1 & S2 & S3 & S4); [by apply holds_pop|simpl in Hf; lia|].
    exists s'. split_and!; try done. cbn [close_archives first head fmap option_fmap option_map].
    destruct (holds_ar _ _ _ (mkAcat i l (r :: rs)) [] r rs H ltac:(by left) eq_refl) as (E1 & _ & _).
    eapply bind_ok; [by apply load_ar_ok|]. eapply bind_ok; [by eapply lmo_close_ok|]. exact S1.
Qed.

Lemma holds_size cs extra s : holds cs extra s -> size (ars s) = length (all_ars cs).
Proof.
  intros H. rewrite (h_ars _ _ _ H), map_size_list_to_map by (rewrite flat_ids; apply H).
  rewrite <- (length_fmap fst), flat_ids, length_fmap. done.
Qed.
Lemma length_all_ars cs k : k ∈ cs -> (length (k_ars k) <= length (all_ars cs))%nat.
Proof.
  intros H. induction cs as [|k' cs IH]; [by apply not_elem_of_nil in H|]. unfold all_ars. rewrite bind_cons, length_app.
  apply elem_of_cons in H as [->|H]; [lia|]. specialize (IH H). unfold all_ars in IH. lia.
Qed.

(** ** Unlinking a catalog *)

Lemma map_mid {A} (l1 l2 : list (Z * A)) i (v : A) :
  NoDup (l1 ++ (i, v) :: l2).*1 -> list_to_map (l1 ++ (i, v) :: l2) = (<[i := v]> (list_to_map (l1 ++ l2)) : gmap Z A).
Proof. intros H. rewrite (list_to_map_proper _ ((i, v) :: l1 ++ l2)); [done|done|]. symmetry. apply Permutation_middle. Qed.
Lemma fresh_mid {A} (l1 l2 : list (Z * A)) i (v : A) :
  NoDup (l1 ++ (i, v) :: l2).*1 -> (list_to_map (l1 ++ l2) : gmap Z A) !! i = None.
Proof.
  rewrite fmap_app, fmap_cons. intros (H1 & H2 & H3)%NoDup_app. apply NoDup_cons in H3 as [H3 H4].
  apply not_elem_of_list_to_map_1. rewrite fmap_app. intros [H|H]%elem_of_app; [|done]. apply (H2 _ H). by left.
Qed.

Lemma chained_drop pre p k post :
  NoDup (k_id <$> (pre ++ p :: k :: post)) ->
  delete (k_id k) (<[k_id p := cat_of p (lead post None)]> (list_to_map (chained (pre ++ p :: k :: post) None) : gmap Z lmo_catalog))
  = list_to_map (chained (pre ++ p :: post) None).
Proof.
  intros N. assert (forall nxt, NoDup (chained (pre ++ p :: k :: post) nxt).*1) as N1 by (intros nxt; by rewrite chained_ids).
  assert (NoDup (chained (pre ++ p :: post) None).*1) as N2.
  { rewrite chained_ids. rewrite fmap_app in *. apply NoDup_app in N as (A1 & A2 & A3). apply NoDup_app. split_and!; [done|set_solver|].
    apply NoDup_cons in A3 as [A3 A4]. apply NoDup_cons in A4 as [A4 A5]. apply NoDup_cons. split; [set_solver|done]. }
  rewrite !chained_app in *. specialize (N1 None). rewrite chained_app in N1. simpl in N1. simpl in N2. cbn [chained lead].
  set (A := chained pre _) in *. rewrite map_mid by done. rewrite insert_insert_eq.
  rewrite (map_mid A (chained post None) (k_id p)) by done.
  assert (k_id p <> k_id k) as Hne.
  { rewrite fmap_app in N. apply NoDup_app in N as (_ & _ & N). apply NoDup_cons in N as [N _]. simpl in N. set_solver. }
  rewrite delete_insert_ne by done. f_equal.
  assert (NoDup (A ++ (k_id k, cat_of k (lead post None)) :: chained post None).*1) as N3.
  { rewrite fmap_app in *. simpl in *. apply NoDup_app in N1 as (A1 & A2 & A3). apply NoDup_app. split_and!; [done|set_solver|]. by apply NoDup_cons in A3 as [_ A3]. }
  rewrite map_mid by done. apply delete_insert_id. by eapply fresh_mid.
Qed.

Lemma cats_nodup_mid (pre post : list acat) k : NoDup (k_id <$> (pre ++ k :: post)) -> NoDup (k_id <$> (pre ++ post)).
Proof. rewrite !fmap_app, fmap_cons. rewrite <- Permutation_middle. by intros [_ H]%NoDup_cons. Qed.

(** The part of [lmo_close_catalog] after the catalog is found. *)
Definition unlink (prev : option Z) (c : Z) (x : lmo_catalog) : M st unit :=
  (match prev with
   | Some p => y ← load_cat p; set_cat p (y <| c_next := c_next x |>)
   | None => modify (fun s => s <| lmo_catalogs := c_next x |>)
   end);;
  s ← get;
  close_archives (S (size (ars s))) (archives x);;
  free_cat c.

Lemma unlink_ok pre k post s :
  rep (pre ++ k :: post) s ->
  exists s', unlink (k_id <$> last pre) (k_id k) (cat_of k (lead post None)) s = Ok tt s' /\ rep (pre ++ post) s' /\
    lmo_active_catalog s' = lmo_active_catalog s.
Proof.
  intros R. pose proof (rep_cat _ _ _ _ _ R eq_refl) as Ek. destruct R as (H & Hc & Hn & Hl).
  set (cats1 := match last pre with Some p => <[k_id p := cat_of p (lead post None)]> (cats s) | None => cats s end).
  set (s1 := s <| cats := cats1 |> <| lmo_catalogs := lead (pre ++ post) None |>).
  assert (exists y, cats1 !! k_id k = Some y /\ delete (k_id k) cats1 = list_to_map (chained (pre ++ post) None)) as (y & Ey & Hd).
  { unfold cats1. destruct pre as [|p pre _] using rev_ind.
    - simpl. exists (cat_of k (lead post None)). split; [done|]. rewrite Hc. apply delete_head. rewrite chained_ids. by apply NoDup_cons in Hn as [Hn _].
    - rewrite last_snoc. rewrite <- !app_assoc in *. simpl in *. exists (cat_of k (lead post None)). split.
      + rewrite lookup_insert_ne; [done|]. rewrite fmap_app in Hn. apply NoDup_app in Hn as (_ & _ & Hn). apply NoDup_cons in Hn as [Hn _]. set_solver.
      + rewrite Hc. by apply chained_drop. }
  assert (below s1 /\ (match k_id <$> last pre with
     | Some p => y ← load_cat p; set_cat p (y <| c_next := c_next (cat_of k (lead post None)) |>)
     | None => modify (fun s => s <| lmo_catalogs := c_next (cat_of k (lead post None)) |>)
     end) s = Ok tt s1) as [Hb Hs].
  { unfold s1, cats1. destruct pre as [|p pre _] using rev_ind.
    - split; [|simpl; unfold modify; f_equal; by destruct s]. apply (below_less s); try done. apply H.
    - rewrite last_snoc. rewrite <- !app_assoc in *. simpl in *.
      pose proof (rep_cat (pre ++ p :: k :: post) s pre p (k :: post) ltac:(by split_and!) eq_refl) as Ep. split.
      + apply (below_less s); try done; [apply H|]. simpl. intros q. rewrite lookup_insert_is_Some. intros [<-|[_ ?]]; [by rewrite Ep|done].
      + eapply bind_ok; [by apply load_cat_ok|]. unfold set_cat, modify. f_equal.
        destruct s as [cs as_ ms fs h a n l]. simpl in *. subst h. f_equal. destruct pre; done. }
  assert (holds (mkAcat (k_id k) (k_lang k) (k_ars k) :: pre ++ post) ∅ s1) as H1.
  { apply (holds_perm (pre ++ k :: post)); [destruct k; simpl; symmetry; apply Permutation_middle|].
    destruct H. split; done. }
  destruct (close_archives_ok _ _ _ _ (S (size (ars s1))) (k_ars k) s1 H1) as (s2 & C1 & C2 & (C3 & C4 & C5) & C6).
  { rewrite (holds_size _ _ _ H1). pose proof (length_all_ars (mkAcat (k_id k) (k_lang k) (k_ars k) :: pre ++ post) (mkAcat (k_id k) (k_lang k) (k_ars k)) ltac:(by left)) as L.
    cbn [k_ars] in L. lia. }
  exists (s2 <| cats ::= delete (k_id k) |>). split_and!.
  - unfold unlink. eapply bind_ok; [exact Hs|]. eapply bind_ok; [done|]. eapply bind_ok; [exact C1|].
    unfold free_cat. eapply bind_ok; [apply (load_cat_ok _ _ y); by rewrite C3|]. done.
  - split_and!.
    + destruct C2. split; try done. apply (below_less s2); try done. simpl. intros q [z Hz]. apply lookup_delete_Some in Hz as [_ ?]. by eexists.
    + simpl. rewrite C3. exact Hd.
    + by eapply cats_nodup_mid.
    + simpl. rewrite C4. done.
  - simpl. by rewrite C5.
Qed.

Lemma close_loop_ok cs s name : forall fuel pre post,
  rep cs s -> cs = pre ++ post -> (length post < fuel)%nat ->
  (exists pre' k post' s', post = pre' ++ k :: post' /\ named name k = true /\ Forall (fun k => named name k = false) pre' /\
     close_loop fuel name (k_id <$> last pre) (lead post None) s = Ok tt s' /\ rep (pre ++ pre' ++ post') s' /\
     lmo_active_catalog s' = lmo_active_catalog s) \/
  (Forall (fun k => named name k = false) post /\ close_loop fuel name (k_id <$> last pre) (lead post None) s = Ok tt s).
Proof.
  induction fuel as [|fuel IH]; intros pre post R E Hf; [lia|]. destruct post as [|k post]; [right; by split|].
  pose proof (rep_cat _ _ _ _ _ R E) as Ek. set (x := cat_of k (lead post None)) in *.
  assert (close_loop (S fuel) name (k_id <$> last pre) (lead (k :: post) None) s =
    (if named name k then unlink (k_id <$> last pre) (k_id k) x
     else close_loop fuel name (Some (k_id k)) (lead post None)) s) as Hs.
  { simpl lead. cbn [close_loop]. eapply bind_ok; [by apply load_cat_ok|]. done. }
  rewrite Hs. destruct (named name k) eqn:En.
  - left. subst cs. destruct (unlink_ok pre k post s R) as (s' & U1 & U2 & U3). exists [], k, post, s'. split_and!; done.
  - pose proof (IH (pre ++ [k]) post R) as G. rewrite last_snoc in G. simpl (k_id <$> Some k) in G.
    destruct G as [(pre' & k' & post' & s' & H1 & H2 & H3 & H4 & H5 & H6)|[H1 H2]]; [by rewrite <- app_assoc|simpl in Hf; lia|left|right].
    + exists (k :: pre'), k', post', s'. rewrite <- app_assoc in H5. split_and!; [by rewrite H1|done|by constructor|done|done|done].
    + split; [by constructor|done].
Qed.

Lemma cats_size cs s : rep cs s -> size (cats s) = length cs.
Proof.
  intros (_ & Hc & Hn & _). rewrite Hc, map_size_list_to_map by (by rewrite chained_ids).
  rewrite <- (length_fmap fst), chained_ids. apply length_fmap.
Qed.

(** * Loading *)

#[export] Instance valid_dec bs : Decision (valid bs).
Proof. unfold valid. apply _. Defined.

Section loading.
Context (wide : bool) (file : string -> option (list Z)) (fnmatch : string -> string -> bool).
Hypothesis files_ok : forall name bs, file name = Some bs -> file_ok bs.

(** The valid archives in a directory. *)
Definition wanted (pattern dir : string) (names : list string) : list (list Z) :=
  omap (fun name =>
    if fnmatch pattern name then
      bs ← file (cut_to 4096 (dir +:+ "/" +:+ name)); if decide (valid bs) then Some bs else None
    else None) names.

Lemma holds_push i l rs r cs extra s s' :
  holds (mkAcat i l rs :: cs) extra s -> (forall f, f ∈ extra -> f < next s) -> opened r s s' -> valid (r_bytes r) ->
  (forall k, is_Some (cats s' !! k) -> k < next s') ->
  holds (mkAcat i l (r :: rs) :: cs) extra (s' <| ars ::= <[r_id r := ar_of r (first rs)]> |>).
Proof.
  intros H Hex (O1 & O2 & O3 & O4 & O5 & O6 & O7) V Hcats. pose proof (h_below _ _ _ H) as (B1 & B2 & B3 & _).
  assert (forall (f : aar -> Z), NoDup (f <$> all_ars (mkAcat i l rs :: cs)) -> (f r ∉ f <$> all_ars (mkAcat i l rs :: cs)) ->
    NoDup (f <$> all_ars (mkAcat i l (r :: rs) :: cs))) as Hnd.
  { intros f Hf1 Hf2. change (all_ars (mkAcat i l (r :: rs) :: cs)) with (r :: all_ars (mkAcat i l rs :: cs)).
    rewrite fmap_cons. by apply NoDup_cons. }
  destruct H.
  assert (r_id r ∉ r_id <$> all_ars (mkAcat i l rs :: cs)) as N1.
  { intros Hin. assert (is_Some (ars s !! r_id r)) as Hx.
    { rewrite h_ars0. rewrite <- flat_ids in Hin. apply list_elem_of_fmap in Hin as ([j v] & Hj & Hin). rewrite Hj. exists v. apply elem_of_list_to_map_1; [by rewrite flat_ids|done]. }
    apply B2 in Hx. lia. }
  assert (r_map r ∉ r_map <$> all_ars (mkAcat i l rs :: cs)) as N2.
  { intros Hin. assert (is_Some (maps s !! r_map r)) as Hx; [|apply B3 in Hx; lia].
    apply list_elem_of_fmap in Hin as (q & Hq & Hin). exists (r_bytes q). rewrite h_maps0, Hq. apply elem_of_list_to_map_1.
    - by rewrite <- list_fmap_compose.
    - apply list_elem_of_fmap. by exists q. }
  assert (r_fd r ∉ r_fd <$> all_ars (mkAcat i l rs :: cs)) as N3.
  { intros Hin. assert (r_fd r ∈ fds s) as Hx; [|apply B1 in Hx; lia]. rewrite h_fds0. apply elem_of_union_r. by apply elem_of_list_to_set. }
  split.
  - simpl. rewrite O5, insert_insert_eq, h_ars0. done.
  - simpl. rewrite O6, h_maps0. done.
  - simpl. rewrite O7, h_fds0. simpl. set_solver.
  - by apply Hnd.
  - by apply Hnd.
  - by apply Hnd.
  - intros f Hf. change (all_ars (mkAcat i l (r :: rs) :: cs)) with (r :: all_ars (mkAcat i l rs :: cs)). rewrite fmap_cons.
    intros [->|Hin]%elem_of_cons; [apply Hex in Hf; lia|]. by apply (h_extra0 f).
  - unfold below. simpl. rewrite O4, O5, O6, O7. split_and!.
    + intros f [->%elem_of_singleton|Hf%B1]%elem_of_union; lia.
    + intros a. rewrite insert_insert_eq, lookup_insert_is_Some. intros [<-|[_ Ha%B2]]; lia.
    + intros a. rewrite lookup_insert_is_Some. intros [<-|[_ Ha%B3]]; lia.
    + intros k Hk. apply Hcats in Hk. lia.
  - change (all_ars (mkAcat i l (r :: rs) :: cs)) with (r :: all_ars (mkAcat i l rs :: cs)). by constructor.
Qed.

(** Only the catalogs change. *)
Lemma holds_cats cs extra s s' :
  holds cs extra s -> ars s' = ars s -> maps s' = maps s -> fds s' = fds s -> next s <= next s' ->
  (forall k, is_Some (cats s' !! k) -> k < next s') -> holds cs extra s'.
Proof.
  intros [] E1 E2 E3 E4 E5. split; rewrite ?E1, ?E2, ?E3; try done. destruct h_below0 as (B1 & B2 & B3 & _).
  unfold below. rewrite E1, E2, E3. split_and!; try done.
  - intros f Hf%B1. lia.
  - intros f Hf%B2. lia.
  - intros f Hf%B3. lia.
Qed.

Lemma load_loop_ok i l cs extra pattern dir C0 : forall names rs s,
  holds (mkAcat i l rs :: cs) extra s -> (forall f, f ∈ extra -> f < next s) ->
  cats s = <[i := mkCat l (first rs) None]> C0 ->
  exists rs' L s', load_loop wide file fnmatch i pattern dir names s = Ok tt s' /\
    holds (mkAcat i l rs' :: cs) extra s' /\ cats s' = <[i := mkCat l (first rs') None]> C0 /\
    lmo_catalogs s' = lmo_catalogs s /\ lmo_active_catalog s' = lmo_active_catalog s /\ next s <= next s' /\
    r_bytes <$> rs' = reverse L ++ (r_bytes <$> rs) /\ sublist L (wanted pattern dir names) /\
    (fails s = [] -> fails s' = [] /\ L = wanted pattern dir names).
Proof.
  induction names as [|name names IH]; intros rs s H Hex Hc.
  { exists rs, [], s. split_and!; try done. }
  pose proof (h_below _ _ _ H) as HB. cbn [load_loop]. unfold wanted. cbn [omap list_omap]. fold (wanted pattern dir names).
  destruct (fnmatch pattern name).
  2: { destruct (IH rs s H Hex Hc) as (rs' & L & s' & I1 & I2). exists rs', L, s'. split; [|done]. eapply bind_ok; [done|]. exact I1. }
  set (path := cut_to 4096 _).
  destruct (twp_elim _ _ _ (lmo_open_ok wide file s path HB (files_ok path))) as (r & s1 & R1 & (R2 & R3 & R4) & R5 & R6).
  unfold mbind at 1, M_bind at 1. unfold mbind at 1, M_bind at 1. rewrite R1. destruct r as [a|].
  - destruct R5 as (bs & Ef & V & -> & O). set (r := mkAar _ _ _ bs) in *.
    set (s2 := s1 <| ars ::= <[r_id r := ar_of r (first rs)]> |>). set (s3 := s2 <| cats ::= <[i := mkCat l (first (r :: rs)) None]> |>).
    assert (next s <= next s1) as Hnx by (destruct O as (_ & _ & _ & -> & _); lia).
    assert (forall k, is_Some (cats s1 !! k) -> k < next s1) as Hk1.
    { destruct HB as (_ & _ & _ & B4). rewrite R2. intros k Hk%B4. lia. }
    pose proof (holds_push i l rs r cs extra s s1 H Hex O V Hk1) as H2. fold s2 in H2.
    assert (is_Some (cats s1 !! i)) as Hi by (rewrite R2, Hc, lookup_insert_eq; done).
    assert (holds (mkAcat i l (r :: rs) :: cs) extra s3) as H3.
    { apply (holds_cats _ _ s2); try done. simpl. intros k. rewrite lookup_insert_is_Some. intros [<-|[_ Hk]]; by apply Hk1. }
    assert (cats s3 = <[i := mkCat l (first (r :: rs)) None]> C0) as Hc3 by (unfold s3; simpl; by rewrite R2, Hc, insert_insert_eq).
    destruct (IH (r :: rs) s3 H3) as (rs' & L & s' & I1 & I2 & I3 & I4 & I5 & I6 & I7 & I8 & I9); [intros f Hf%Hex; simpl; lia|done|].
    assert (exists x, ars s1 !! r_id r = Some x /\ x <| a_next := first rs |> = ar_of r (first rs)) as (x & Ex & Ex').
    { destruct O as (_ & _ & _ & _ & -> & _). rewrite lookup_insert_eq. eexists. split; done. }
    exists rs', (bs :: L), s'. split_and!; try done; try congruence.
    + eapply bind_ok; [|exact I1]. eapply bind_ok; [apply load_cat_ok; rewrite R2, Hc; by rewrite lookup_insert_eq|].
      eapply bind_ok; [apply load_ar_ok; exact Ex|]. eapply bind_ok; [done|]. unfold set_cat, modify. simpl archives. rewrite Ex'. done.
    + by rewrite I4.
    + by rewrite I5.
    + simpl in I6. lia.
    + rewrite I7. rewrite reverse_cons, <- app_assoc. done.
    + rewrite Ef. simpl. rewrite decide_True by done. by apply sublist_skip.
    + intros F. destruct (R6 F) as [F1 _]. destruct (I9 F1) as [F2 ->]. split; [done|]. rewrite Ef. simpl. by rewrite decide_True.
  - destruct R5 as (U1 & U2 & U3 & U4).
    assert (holds (mkAcat i l rs :: cs) extra s1) as H1.
    { apply (holds_cats _ _ s); try done. destruct HB as (_ & _ & _ & B4). rewrite R2. intros k Hk%B4. lia. }
    destruct (IH rs s1 H1) as (rs' & L & s' & I1 & I2 & I3 & I4 & I5 & I6 & I7 & I8 & I9); [intros f Hf%Hex; lia|by rewrite R2|].
    exists rs', L, s'. split_and!; try done; try congruence; try lia.
    + set (o := file path ≫= _). destruct o; simpl; [by apply sublist_cons|done].
    + intros F. destruct (R6 F) as [F1 F2]. destruct (I9 F1) as [F3 ->]. split; [done|].
      destruct (file path) as [bs|] eqn:Ef; simpl; [|done]. destruct (decide (valid bs)) as [V|V]; [|done].
      destruct (F2 bs eq_refl V) as [? ?]. done.
Qed.

Lemma change_ok cs s name :
  rep cs s ->
  (exists pre k post, cs = pre ++ k :: post /\ named name k = true /\ Forall (fun k => named name k = false) pre /\
     lmo_change_catalog name s = Ok 0 (s <| lmo_active_catalog := Some (k_id k) |>)) \/
  (Forall (fun k => named name k = false) cs /\ lmo_change_catalog name s = Ok (-1) s).
Proof.
  intros R. pose proof R as (_ & _ & _ & Hl). assert (length cs < S (size (cats s)))%nat as Hf by (rewrite (cats_size _ _ R); lia).
  destruct (change_loop_ok cs s name (S (size (cats s))) [] cs R eq_refl Hf) as [(pre & k & post & H1 & H2 & H3 & H4)|[H1 H2]]; [left|right].
  - exists pre, k, post. split_and!; try done. unfold lmo_change_catalog. eapply bind_ok; [done|]. by rewrite Hl.
  - split; [done|]. unfold lmo_change_catalog. eapply bind_ok; [done|]. by rewrite Hl.
Qed.

(** What loading a language that is not loaded does. *)
Definition loads (dir_of : string -> option (list string)) name (dir : option string) cs s (r : Z) s' : Prop :=
  (r = -1 /\ rep cs s' /\ lmo_active_catalog s' = lmo_active_catalog s /\
     (fails s = [] -> fails s' = [] /\ (dir ≫= dir_of) = None)) \/
  (exists d names i rs L, r = 0 /\ dir = Some d /\ dir_of d = Some names /\ rep (mkAcat i (cut_to 6 name) rs :: cs) s' /\
     r_bytes <$> rs = reverse L /\ sublist L (wanted (cut_to 16 ("*." +:+ name +:+ ".lmo")) d names) /\
     lmo_active_catalog s' = Some (default i (lmo_active_catalog s)) /\
     (fails s = [] -> fails s' = [] /\ L = wanted (cut_to 16 ("*." +:+ name +:+ ".lmo")) d names)).

Lemma holds_fails cs extra s l : holds cs extra s -> holds cs extra (s <| fails := l |>).
Proof. intros H. pose proof (h_below _ _ _ H) as (_ & _ & _ & B4). by apply (holds_cats _ _ s). Qed.
Lemma rep_fails cs s l : rep cs s -> rep cs (s <| fails := l |>).
Proof. intros (H & ? & ? & ?). split_and!; try done. by apply holds_fails. Qed.

Lemma load_catalog_ok dir_of cs s name dir :
  rep cs s -> Forall (fun k => named name k = false) cs ->
  twp (lmo_load_catalog wide file dir_of fnmatch name dir) (loads dir_of name dir cs s) s.
Proof.
  intros R N. pose proof R as (H & Hc & Hn & Hl). unfold lmo_load_catalog. apply twp_bind.
  destruct (change_ok cs s name R) as [(pre & k & post & -> & K & _)|[_ E]].
  { apply Forall_app in N as [_ N]. apply Forall_cons in N as [N _]. congruence. }
  eapply twp_intro; [exact E|]. cbv beta. change (-1 =? 0) with false. destruct dir as [d|]; [|by apply twp_ret; left].
  apply twp_bind, attempt_ok. intros b1 l1 H1. destruct (dir_of d) as [names|] eqn:Ed.
  2: { apply twp_ret. left. split_and!; [done|by apply rep_fails|done|]. intros F. destruct (H1 F) as [_ ->]. done. }
  destruct b1; cbn [negb].
  2: { apply twp_ret. left. split_and!; [done|by apply rep_fails|done|]. intros F. by destruct (H1 F) as [? _]. }
  pose proof (h_below _ _ _ H) as (B1 & B2 & B3 & B4). assert (next s ∉ fds s) as N1 by (intros Hx; apply B1 in Hx; lia).
  apply twp_bind. eapply twp_intro; [done|]. cbv beta. apply twp_bind, attempt_ok. intros b2 l2 H2. simpl in H2. destruct b2; cbn [negb].
  2: { eapply twp_intro; [eapply bind_ok; [by apply (close_new s)|done]|]. left. split_and!; [done| |done|].
       - destruct H. split_and!; try done. split; try done. unfold below. simpl. split_and!.
         + intros f Hf%B1. lia.
         + intros f Hf%B2. lia.
         + intros f Hf%B3. lia.
         + intros f Hf%B4. lia.
       - intros F. destruct (H1 F) as [_ ->]. by destruct (H2 eq_refl) as [? _]. }
  apply twp_bind. eapply twp_intro; [done|]. cbv beta. apply twp_bind. eapply twp_intro; [done|]. cbv beta.
  set (i := next _). set (s1 := _ <| cats ::= _ |>). set (l := cut_to 6 name).
  assert (i = 1 + next s) as Hi by done.
  assert (cats s !! i = None) as N2 by (apply eq_None_not_Some; intros Hx; apply B4 in Hx; lia).
  assert (holds (mkAcat i l [] :: cs) {[next s]} s1) as Hs1.
  { apply holds_nil. destruct H. split; try done.
    - unfold s1. simpl. rewrite h_fds0. set_solver.
    - intros f ->%elem_of_singleton Hin. apply N1. rewrite h_fds0. apply elem_of_union_r. by apply elem_of_list_to_set.
    - unfold below, s1. simpl. split_and!.
      + intros f [->%elem_of_singleton|Hf%B1]%elem_of_union; lia.
      + intros f Hf%B2. lia.
      + intros f Hf%B3. lia.
      + intros k. rewrite lookup_insert_is_Some. intros [<-|[_ Hk%B4]]; lia. }
  destruct (load_loop_ok i l cs {[next s]} (cut_to 16 ("*." +:+ name +:+ ".lmo")) d (cats s) names [] s1) as (rs & L & s2 & L1 & L2 & L3 & L4 & L5 & L6 & L7 & L8 & L9).
  { done. }
  { intros f ->%elem_of_singleton. unfold s1. simpl. lia. }
  { done. }
  apply twp_bind. eapply twp_intro; [exact L1|]. cbv beta.
  assert (next s ∉ list_to_set (r_fd <$> all_ars (mkAcat i l rs :: cs)) (C := gset Z)) as N3.
  { intros Hin. apply elem_of_list_to_set in Hin. by apply (h_extra _ _ _ L2 (next s)); [apply elem_of_singleton|]. }
  set (s3 := s2 <| fds := list_to_set (r_fd <$> all_ars (mkAcat i l rs :: cs)) |>).
  apply twp_bind. eapply (twp_intro _ _ _ tt s3).
  { pose proof (h_fds _ _ _ L2) as Hfds. unfold close. eapply bind_ok; [done|]. cbv beta. rewrite bool_decide_true by (rewrite Hfds; set_solver).
    unfold modify, s3. f_equal. clear - Hfds N3. destruct s2 as [cs' as_ ms fs h a n l']. cbn [fds] in Hfds. subst fs. simpl. f_equal. set_solver. }
  cbv beta. apply twp_bind. eapply twp_intro; [done|]. cbv beta. apply twp_bind. eapply twp_intro.
  { apply load_cat_ok. unfold s3. simpl. rewrite L3. by rewrite lookup_insert_eq. }
  cbv beta. apply twp_bind. eapply twp_intro; [done|]. cbv beta. apply twp_bind. eapply twp_intro; [done|]. cbv beta.
  set (s4 := _ <| lmo_catalogs := _ |>). set (C1 := <[i := cat_of (mkAcat i l rs) (lead cs None)]> (cats s)).
  assert (lmo_catalogs s3 = lead cs None) as Hl3 by (unfold s3; simpl; by rewrite L4).
  assert (cats s4 = C1) as Hc4.
  { unfold s4. simpl. rewrite L3, L4, insert_insert_eq. unfold C1, cat_of. by rewrite <- Hl. }
  assert (forall a, rep (mkAcat i l rs :: cs) (s4 <| lmo_active_catalog := a |>)) as R4.
  { intros a. split_and!.
    - destruct L2. split; try done.
      + unfold s4, s3. simpl. set_solver.
      + destruct h_below0 as (D1 & D2 & D3 & D4). unfold below, s4, s3. simpl. split_and!; try done.
        * intros f Hf. apply D1. rewrite h_fds0. set_solver.
        * intros k. rewrite L3, insert_insert_eq, lookup_insert_is_Some. intros Hk. apply D4. rewrite L3, lookup_insert_is_Some. exact Hk.
    - change (cats (s4 <| lmo_active_catalog := a |>)) with (cats s4). rewrite Hc4. unfold C1. rewrite Hc. done.
    - rewrite fmap_cons. apply NoDup_cons. split; [|done]. intros Hin. simpl in Hin. rewrite Hc in N2. rewrite <- (chained_ids cs None) in Hin.
      by apply not_elem_of_list_to_map in N2.
    - done. }
  assert (forall a, a = Some (default i (lmo_active_catalog s)) -> loads dir_of name (Some d) cs s 0 (s4 <| lmo_active_catalog := a |>)) as Hgoal.
  { intros a ->. right. exists d, names, i, rs, L. split_and!; try done.
    - by rewrite L7, app_nil_r.
    - intros F. destruct (H1 F) as [_ ->]. destruct (H2 eq_refl) as [_ ->]. by apply L9. }
  assert (lmo_active_catalog s3 = lmo_active_catalog s) as Ha3 by (unfold s3; simpl; by rewrite L5).
  rewrite Ha3. apply twp_bind. destruct (lmo_active_catalog s) as [a|] eqn:Ea.
  - apply twp_ret. apply twp_ret. replace s4 with (s4 <| lmo_active_catalog := Some a |>); [by apply Hgoal|].
    clear - Ha3. unfold s4. destruct s3. simpl in *. by subst.
  - apply twp_modify. apply twp_ret. by apply Hgoal.
Qed.
End loading.
End LmoCatalog.
