(* ===== verification/LmoTheorems.v ===== *)
(** What the translation archives guarantee, for all sequences of calls, and where the code
    departs from it. *)

From Stdlib Require Import ZArith Lia Ascii String.
From stdpp Require Import base list list_numbers numbers strings gmap.
From S2P Require Import Prelude Stdio Lmo LmoSpec LmoCatalog.

Open Scope list_scope.
Open Scope Z_scope.

Module LmoTheorems.
Import Lmo LmoSpec LmoCatalog.

(** * Languages *)

Definition short (name : string) : Prop := (String.length name <= 5)%nat.

Lemma length_ascii (s : string) : length (list_ascii_of_string s) = String.length s.
Proof. induction s as [|c s IH]; [done|]. simpl. by rewrite IH. Qed.
Lemma ascii_inj (s t : string) : list_ascii_of_string s = list_ascii_of_string t -> s = t.
Proof. intros H. rewrite <- (string_of_list_ascii_of_string s), H. apply string_of_list_ascii_of_string. Qed.

(** Six characters tell short names from all others. *)
Lemma strncmp_short a b : short a -> strncmp_eq 6 a b = bool_decide (a = b).
Proof.
  unfold short, strncmp_eq. rewrite <- (length_ascii a). intros H. apply bool_decide_ext. split; [|by intros ->].
  rewrite take_ge by lia. intros E. apply ascii_inj. rewrite E. apply take_ge.
  apply (f_equal length) in E. rewrite length_take in E. lia.
Qed.
Lemma cut_short a : short a -> cut_to 6 a = a.
Proof.
  unfold short, cut_to. rewrite <- length_ascii. intros H. rewrite take_ge by lia. apply string_of_list_ascii_of_string.
Qed.

Lemma sublist_reverse {A} (l k : list A) : sublist l k -> sublist (reverse l) (reverse k).
Proof.
  induction 1 as [|x l k _ IH|x l k _ IH]; rewrite ?reverse_nil, ?reverse_cons; [done|by apply sublist_app|by apply sublist_inserts_r].
Qed.

(** * The library of languages *)

(** The archives of each language, the newest first, and the language in use. *)
Record lib := mkLib { loaded : list (string * list (list Z)); current : option string }.

Inductive op : Type :=
| Load (name : string) (dir : option string)
| Change (name : string)
| Translate (key : option (list Z))
| Close (name : string).

(** Names of languages are short, and the language in use is not closed. *)
Definition legal (lb : lib) (o : op) : Prop :=
  match o with
  | Load name _ => short name
  | Close name => current lb <> Some name
  | _ => True
  end.

Definition has (name : string) (lb : lib) : Prop := name ∈ (loaded lb).*1.

Section library.
Context (wide schar : bool) (file : string -> option (list Z)) (dir_of : string -> option (list string))
  (fnmatch : string -> string -> bool).

Definition exec (o : op) : M st (Z * option (Z * Z * Z)) :=
  match o with
  | Load name dir => r ← lmo_load_catalog wide file dir_of fnmatch name dir; mret (r, None)
  | Change name => r ← lmo_change_catalog name; mret (r, None)
  | Translate key => lmo_translate schar key
  | Close name => lmo_close_catalog name;; mret (0, None)
  end.

(** What loading finds. *)
Definition found_in (name : string) (dir : option string) : option (list (list Z)) :=
  d ← dir; names ← dir_of d;
  Some (reverse (wanted file fnmatch (cut_to 16 ("*." +:+ name +:+ ".lmo")) d names)).

(** A language that is loaded becomes the one in use.  Otherwise its archives are loaded, all of
    them unless the system fails, and it is the one in use if there is none.  A lookup finds the
    entry of the first archive of the language in use that has the key. *)
Definition does (s s' : st) (o : op) (r : Z * option (Z * Z * Z)) (lb lb' : lib) : Prop :=
  match o with
  | Load name dir =>
      (has name lb /\ r = (0, None) /\ lb' = mkLib (loaded lb) (Some name)) \/
      (~ has name lb /\ r = (-1, None) /\ lb' = lb /\ (fails s = [] -> found_in name dir = None)) \/
      (~ has name lb /\ r = (0, None) /\ exists all l, found_in name dir = Some all /\ sublist l all /\
         (fails s = [] -> l = all) /\
         lb' = mkLib ((name, l) :: loaded lb) (Some (default name (current lb))))
  | Change name =>
      (has name lb /\ r = (0, None) /\ lb' = mkLib (loaded lb) (Some name)) \/
      (~ has name lb /\ r = (-1, None) /\ lb' = lb)
  | Translate key =>
      lb' = lb /\
      match key, current lb with
      | Some key, Some name => exists l, (name, l) ∈ loaded lb /\ answer s' l (lmo_canon_hash schar key) r
      | _, _ => r = (-2, None)
      end
  | Close name => r = (0, None) /\ lb' = mkLib (filter (fun e => e.1 <> name) (loaded lb)) (current lb)
  end.

(** The process has a block for each language, and a block, a descriptor and a mapping for each
    archive. *)
Definition owns (lb : lib) (s : st) : Prop :=
  let n := length (loaded lb ≫= snd) in
  size (cats s) = length (loaded lb) /\ size (ars s) = n /\ size (maps s) = n /\ size (fds s) = n.

(** Every call that is legal returns and does this. *)
Fixpoint conforms (ops : list op) (lb : lib) (s : st) : Prop :=
  owns lb s /\
  match ops with
  | [] => True
  | o :: ops => legal lb o -> exists r s' lb', exec o s = Ok r s' /\ does s s' o r lb lb' /\ conforms ops lb' s'
  end.

(** * The state and the library *)

Definition entry (k : acat) : string * list (list Z) := (k_lang k, r_bytes <$> k_ars k).
Definition lib_rep (lb : lib) (s : st) : Prop :=
  exists cs, rep cs s /\ loaded lb = entry <$> cs /\ Forall (fun k => short (k_lang k)) cs /\ NoDup (k_lang <$> cs) /\
    match lmo_active_catalog s, current lb with
    | None, None => True
    | Some i, Some name => exists k, k ∈ cs /\ k_id k = i /\ k_lang k = name
    | _, _ => False
    end.

Lemma has_cat lb cs name : loaded lb = entry <$> cs -> has name lb <-> exists k, k ∈ cs /\ k_lang k = name.
Proof.
  intros E. unfold has. rewrite E, <- list_fmap_compose, list_elem_of_fmap. split.
  - intros (k & -> & H). by exists k.
  - intros (k & H & <-). by exists k.
Qed.
Lemma named_short cs name : Forall (fun k => short (k_lang k)) cs -> Forall (fun k => named name k = false <-> k_lang k <> name) cs.
Proof.
  intros S. eapply Forall_impl; [exact S|]. intros k H. unfold named. rewrite strncmp_short by done. by rewrite bool_decide_eq_false.
Qed.
Lemma not_named lb cs name :
  loaded lb = entry <$> cs -> Forall (fun k => short (k_lang k)) cs ->
  Forall (fun k => named name k = false) cs <-> ~ has name lb.
Proof.
  intros E S. rewrite (has_cat lb cs name E). apply (named_short cs name) in S. rewrite Forall_forall in S. rewrite Forall_forall. split.
  - intros H (k & Hk & He). by apply (S k Hk); [apply H|].
  - intros H k Hk. apply S; [done|]. intros He. apply H. eauto.
Qed.
Lemma is_named cs name k : Forall (fun k => short (k_lang k)) cs -> k ∈ cs -> named name k = true -> k_lang k = name.
Proof.
  intros S Hk N. apply (named_short cs name) in S. rewrite Forall_forall in S. destruct (decide (k_lang k = name)) as [|Hne]; [done|].
  apply (S k Hk) in Hne. congruence.
Qed.

Lemma lib_owns lb s : lib_rep lb s -> owns lb s.
Proof.
  intros (cs & R & E & _). pose proof R as (H & _). unfold owns.
  assert (length (loaded lb ≫= snd) = length (all_ars cs)) as ->.
  { rewrite E. unfold all_ars. clear. induction cs as [|k cs IH]; [done|]. rewrite fmap_cons, !bind_cons, !length_app, IH. f_equal. simpl. apply length_fmap. }
  cbv zeta. rewrite E, length_fmap. split_and!; [by apply cats_size|by eapply holds_size|..]; destruct H.
  - rewrite h_maps0, map_size_list_to_map; [apply length_fmap|]. by rewrite <- list_fmap_compose.
  - rewrite h_fds0, union_empty_l_L, size_list_to_set by done. apply length_fmap.
Qed.

Lemma lmo_init_rep l : lib_rep (mkLib [] None) (init l).
Proof.
  exists []. split_and!; try done; [|constructor]. split_and!; try done; [|constructor]. split; try done; try by constructor.
  unfold below. simpl. split_and!; intros f; rewrite ?lookup_empty; intros H; [set_solver|by destruct H..].
Qed.
(** ** Each call *)

Hypothesis files_ok : forall name bs, file name = Some bs -> file_ok bs.

Lemma nodup_filter (cs : list acat) pre k post :
  NoDup (k_lang <$> cs) -> cs = pre ++ k :: post ->
  filter (fun e => e.1 <> k_lang k) (entry <$> cs) = entry <$> (pre ++ post).
Proof.
  intros N ->. rewrite !fmap_app, fmap_cons in *. apply NoDup_app in N as (_ & N1 & N2). apply NoDup_cons in N2 as [N2 _].
  rewrite filter_app, filter_cons, decide_False by (simpl; intros H; by apply H).
  assert (forall l : list acat, (k_lang k ∉ k_lang <$> l) -> filter (fun e => e.1 <> k_lang k) (entry <$> l) = entry <$> l) as F.
  { intros l. induction l as [|k' l IH]; [done|]. rewrite !fmap_cons, not_elem_of_cons. intros [H1 H2].
    rewrite filter_cons, decide_True by (simpl; congruence). by rewrite IH. }
  rewrite !F; [done|done|]. intros Hin. apply (N1 _ Hin). by left.
Qed.

Lemma change_good lb s name :
  lib_rep lb s -> exists r s' lb', lmo_change_catalog name s = Ok r s' /\ lib_rep lb' s' /\
    ((has name lb /\ r = 0 /\ lb' = mkLib (loaded lb) (Some name)) \/ (~ has name lb /\ r = -1 /\ lb' = lb /\ s' = s)).
Proof.
  intros (cs & R & E & S & N & A). destruct (change_ok cs s name R) as [(pre & k & post & H1 & H2 & H3 & H4)|[H1 H2]].
  - assert (k ∈ cs) as Hk by (rewrite H1; set_solver). assert (k_lang k = name) as Hn by (by apply (is_named cs)).
    eexists _, _, (mkLib (loaded lb) (Some name)). split_and!; [exact H4| |left].
    + exists cs. split_and!; try done; [|by exists k]. destruct R as (H & R). split; [|done]. destruct H. split; try done.
    + split_and!; try done. apply (has_cat lb cs); [done|]. by exists k.
  - exists (-1), s, lb. split_and!; [done|by exists cs|right]. split_and!; try done. by apply (not_named lb cs).
Qed.

Lemma load_good lb s name dir :
  lib_rep lb s -> short name ->
  exists r s' lb', exec (Load name dir) s = Ok r s' /\ does s s' (Load name dir) r lb lb' /\ lib_rep lb' s'.
Proof.
  intros L Hs. pose proof L as (cs & R & E & S & N & A). destruct (change_good lb s name L) as (r & s1 & lb1 & C1 & C2 & [(C3 & -> & ->)|(C3 & -> & -> & ->)]).
  - eexists _, s1, _. split_and!; [|left; by split_and!|done]. simpl. eapply bind_ok; [|done]. unfold lmo_load_catalog. by eapply bind_ok; [exact C1|].
  - apply (not_named lb cs name E S) in C3 as F.
    destruct (twp_elim _ _ _ (load_catalog_ok wide file fnmatch files_ok dir_of cs s name dir R F)) as (r & s' & X & [(-> & Y1 & Y2 & Y3)|(d & names & i & rs & l & -> & Y1 & Y2 & Y3 & Y4 & Y5 & Y6 & Y7)]).
    + exists (-1, None), s', lb. split_and!; [simpl; by eapply bind_ok; [exact X|]| |].
      * right. left. split_and!; try done. intros Fs. destruct (Y3 Fs) as [_ Y]. unfold found_in. destruct dir as [d|]; [|done]. simpl in *. by rewrite Y.
      * exists cs. split_and!; try done. by rewrite Y2.
    + rewrite cut_short in Y3 by done. set (all := wanted _ _ _ _ _) in *.
      exists (0, None), s', (mkLib ((name, reverse l) :: loaded lb) (Some (default name (current lb)))). split_and!; [simpl; by eapply bind_ok; [exact X|]| |].
      * right. right. split_and!; try done. exists (reverse all), (reverse l). split_and!; [|by apply sublist_reverse| |done].
        -- unfold found_in. rewrite Y1. simpl. by rewrite Y2.
        -- intros Fs. by destruct (Y7 Fs) as [_ ->].
      * exists (mkAcat i name rs :: cs). split_and!; try done.
        -- simpl. rewrite E. f_equal. unfold entry. simpl. by rewrite Y4.
        -- by constructor.
        -- rewrite fmap_cons. apply NoDup_cons. split; [|done]. intros Hin. apply C3. apply (has_cat lb cs); [done|].
           apply list_elem_of_fmap in Hin as (k & Hk1 & Hk2). simpl in Hk1. by exists k.
        -- rewrite Y6. simpl. destruct (lmo_active_catalog s) as [j|], (current lb) as [n|]; try done; simpl.
           ++ destruct A as (k & K1 & K2). exists k. split; [by right|done].
           ++ eexists. split; [by left|done].
Qed.

Lemma translate_good lb s key :
  lib_rep lb s -> exists r, lmo_translate schar key s = Ok r s /\ does s s (Translate key) r lb lb.
Proof.
  intros (cs & R & E & S & N & A). unfold lmo_translate. simpl does. pose proof R as (H & _).
  destruct (lmo_active_catalog s) as [i|] eqn:Ea, (current lb) as [name|] eqn:Ec; try done.
  - destruct key as [key|]; [|exists (-2, None); split; [eapply bind_ok; [done|]; done|done]].
    destruct A as (k & Hk & <- & <-). apply list_elem_of_split in Hk as Hsp. destruct Hsp as (pre & post & Hsp).
    pose proof (rep_cat cs s pre k post R Hsp) as Ek.
    destruct (translate_loop_ok cs ∅ s k (lmo_canon_hash schar key) (Datatypes.S (size (ars s))) [] (k_ars k) H Hk eq_refl) as (r & T1 & T2).
    { rewrite (holds_size _ _ _ H). pose proof (length_all_ars cs k Hk). lia. }
    exists r. split.
    + eapply bind_ok; [done|]. cbv beta. rewrite Ea. cbv zeta. eapply bind_ok; [by apply load_cat_ok|]. exact T1.
    + split; [done|]. exists (r_bytes <$> k_ars k). split; [|done]. rewrite E. apply list_elem_of_fmap. by exists k.
  - exists (-2, None). split; [eapply bind_ok; [done|]; cbv beta; rewrite Ea; by destruct key|]. split; [done|]. by destruct key.
Qed.

Lemma close_good lb s name :
  lib_rep lb s -> current lb <> Some name ->
  exists s' lb', lmo_close_catalog name s = Ok tt s' /\ does s s' (Close name) (0, None) lb lb' /\ lib_rep lb' s'.
Proof.
  intros (cs & R & E & S & N & A) Hcur. pose proof R as (_ & _ & _ & Hl).
  assert (length cs < Datatypes.S (size (cats s)))%nat as Hf by (rewrite (cats_size _ _ R); lia).
  assert (forall r, close_loop (Datatypes.S (size (cats s))) name None (lead cs None) s = r -> lmo_close_catalog name s = r) as Hc.
  { intros r <-. unfold lmo_close_catalog. eapply bind_ok; [done|]. by rewrite Hl. }
  destruct (close_loop_ok cs s name (Datatypes.S (size (cats s))) [] cs R eq_refl Hf) as [(pre & k & post & s' & H1 & H2 & H3 & H4 & H5 & H6)|[H1 H2]].
  - assert (k ∈ cs) as Hk by (rewrite H1; set_solver). assert (k_lang k = name) as <- by (by apply (is_named cs)).
    exists s', (mkLib (entry <$> (pre ++ post)) (current lb)). split_and!; [by apply Hc| |].
    + split; [done|]. by rewrite E, (nodup_filter cs pre k post).
    + exists (pre ++ post). subst cs. split_and!; try done.
      * apply Forall_app in S as [S1 S2]. apply Forall_cons in S2 as [_ S2]. by apply Forall_app.
      * rewrite fmap_app, fmap_cons, <- Permutation_middle in N. apply NoDup_cons in N as [_ N]. by rewrite fmap_app.
      * rewrite H6. simpl. destruct (lmo_active_catalog s) as [i|], (current lb) as [n|]; try done.
        destruct A as (k' & K1 & K2 & K3). exists k'. split_and!; try done.
        apply elem_of_app in K1 as [K1|[->|K1]%elem_of_cons]; [set_solver| |set_solver]. by subst n.
  - exists s, lb. split_and!; [by apply Hc| |by exists cs]. split; [done|]. destruct lb as [ld cu]. simpl in *. f_equal.
    apply (not_named (mkLib ld cu) cs name E S) in H1. unfold has in H1. simpl in H1. clear - H1.
    induction ld as [|e ld IH]; [done|]. rewrite fmap_cons, not_elem_of_cons in H1. destruct H1 as [H1 H2].
    rewrite filter_cons, decide_True by done. f_equal. by apply IH.
Qed.

Lemma lmo_exec_good lb s o :
  lib_rep lb s -> legal lb o -> exists r s' lb', exec o s = Ok r s' /\ does s s' o r lb lb' /\ lib_rep lb' s'.
Proof.
  destruct o as [name dir|name|key|name]; intros L Hlegal.
  - by apply load_good.
  - destruct (change_good lb s name L) as (r & s' & lb' & C1 & C2 & C3). exists (r, None), s', lb'. split_and!; [simpl; by eapply bind_ok; [exact C1|]| |done].
    simpl. destruct C3 as [(C3 & -> & ->)|(C3 & -> & -> & _)]; [left|right]; done.
  - destruct (translate_good lb s key L) as (r & T1 & T2). by exists r, s, lb.
  - destruct (close_good lb s name L Hlegal) as (s' & lb' & C1 & C2 & C3). exists (0, None), s', lb'. split_and!; [simpl; by eapply bind_ok; [exact C1|]|done|done].
Qed.

Lemma conforms_rep ops : forall lb s, lib_rep lb s -> conforms ops lb s.
Proof.
  induction ops as [|o ops IH]; intros lb s L; (split; [by apply lib_owns|]); [done|].
  intros Hl. destruct (lmo_exec_good lb s o L Hl) as (r & s' & lb' & E & D & L'). exists r, s', lb'. split_and!; try done. by apply IH.
Qed.

End library.

(** * The theorems *)

(** An archive with one entry: the word "Save" has the hash 0x219966c7, the text is at offset 0. *)
Definition demo_archive : list Z :=
  [83; 105; 99; 104; 101; 114; 110; 0; 33; 153; 102; 199; 55; 74; 15; 240; 0; 0; 0; 0; 0; 0; 0; 7; 0; 0; 0; 8].
Definition demo_file (name : string) : option (list Z) :=
  if String.eqb name "i18n/base.de.lmo" then Some demo_archive else None.
Definition demo_dir (name : string) : option (list string) :=
  if String.eqb name "i18n" then Some ["base.de.lmo"%string; "base.fr.lmo"%string] else None.
Definition demo_match (_ name : string) : bool := String.eqb name "base.de.lmo".
Definition demo_key : list Z := [83; 97; 118; 101].

Lemma demo_files name bs : demo_file name = Some bs -> file_ok bs.
Proof.
  unfold demo_file. destruct (String.eqb _ _); [|done]. intros [= <-]. right; right. vm_compute. split_and!; done.
Qed.

(** C20: the catalogs are a library of languages.  From the start of the process any legal calls of
    loading, changing, translating and closing return and do what the library does, whatever
    system calls fail: a language is loaded once with its valid archives, a lookup gives the
    entry of the first archive of the language in use that has the key, and the process has
    exactly the blocks, descriptors and mappings of what is loaded. *)
Theorem lmo_library (wide schar : bool) (file : string -> option (list Z)) (dir_of : string -> option (list string))
    (fnmatch : string -> string -> bool) (ops : list op) (l : list bool) :
  (forall name bs, file name = Some bs -> file_ok bs) ->
  conforms wide schar file dir_of fnmatch ops (mkLib [] None) (init l).
Proof. intros H. apply conforms_rep; [done|apply lmo_init_rep]. Qed.

Lemma lmo_library_witness :
  exists r s' lb', exec true true demo_file demo_dir demo_match (Load "de" (Some "i18n"%string)) (init []) = Ok r s' /\
    owns lb' s' /\ r = (0, None).
Proof.
  pose proof (lmo_library true true demo_file demo_dir demo_match [Load "de" (Some "i18n"%string); Translate (Some demo_key)] [] demo_files) as [_ C].
  destruct C as (r & s' & lb' & E & _ & O & _); [unfold legal, short; simpl; lia|]. exists r, s', lb'. split_and!; [done|done|].
  vm_compute in E. congruence.
Defined.

(** ** Departures *)

Lemma change_long lb s name : lib_rep lb s -> (6 <= String.length name)%nat -> lmo_change_catalog name s = Ok (-1) s.
Proof.
  intros (cs & R & _ & S & _) Hn. destruct (change_ok cs s name R) as [(pre & k & post & H1 & H2 & _)|[_ H2]]; [|done]. exfalso.
  assert (k ∈ cs) as Hk by (rewrite H1; set_solver). pose proof (is_named cs name k S Hk H2) as <-.
  rewrite Forall_forall in S. apply S in Hk. unfold short in Hk. lia.
Qed.

Lemma close_current lb s name :
  lib_rep lb s -> current lb = Some name ->
  exists s', lmo_close_catalog name s = Ok tt s' /\ forall schar key, lmo_translate schar (Some key) s' = Undef.
Proof.
  intros (cs & R & E & S & N & A) Hc. rewrite Hc in A. destruct (lmo_active_catalog s) as [i|] eqn:Ea; [|done].
  destruct A as (k0 & K1 & K2 & K3). pose proof R as (_ & _ & Nd & Hl).
  assert (length cs < Datatypes.S (size (cats s)))%nat as Hf by (rewrite (cats_size _ _ R); lia).
  destruct (close_loop_ok cs s name (Datatypes.S (size (cats s))) [] cs R eq_refl Hf) as [(pre & k & post & s' & H1 & H2 & H3 & H4 & H5 & H6)|[H1 H2]].
  - exists s'. split.
    + unfold lmo_close_catalog. eapply bind_ok; [done|]. by rewrite Hl.
    + assert (k ∈ cs) as Hk by (rewrite H1; set_solver). pose proof (is_named cs name k S Hk H2) as K4.
      assert (k0 = k) as ->.
      { apply list_elem_of_lookup_1 in K1 as (a & Ha). apply list_elem_of_lookup_1 in Hk as (b & Hb).
        assert (a = b) as -> by (eapply (NoDup_lookup _ a b name N); rewrite list_lookup_fmap; [by rewrite Ha, <- K3|by rewrite Hb, <- K4]).
        congruence. }
      assert (cats s' !! i = None) as Hn.
      { destruct H5 as (_ & -> & _). apply not_elem_of_list_to_map_1. rewrite chained_ids. rewrite H1, !fmap_app, fmap_cons in Nd. subst i.
        apply NoDup_app in Nd as (_ & D1 & D2). apply NoDup_cons in D2 as [D2 _]. simpl. rewrite fmap_app. intros [Hin|Hin]%elem_of_app; [|done].
        apply (D1 _ Hin). by left. }
      intros schar key. unfold lmo_translate. eapply bind_ok; [done|]. cbv beta. rewrite H6, Ea. cbv zeta.
      unfold mbind, M_bind, load_cat, mbind, M_bind, get. by rewrite Hn.
  - exfalso. rewrite Forall_forall in H1. pose proof (named_short cs name S) as S'. rewrite Forall_forall in S'.
    by apply (proj1 (S' k0 K1) (H1 k0 K1)).
Qed.

Lemma open_tiny wide file name bs s :
  file name = Some bs -> 0 < len bs < 4 -> fails s = [] -> lmo_open wide file name s = Undef.
Proof.
  intros E H F. unfold len in H. destruct s as [cs as_ ms fs h a n l]. simpl in F. subst l. unfold lmo_open, attempt, open_fd, new_name, do_mmap, mbind, M_bind, get, modify, mret, M_ret.
  simpl. rewrite E. simpl. rewrite u32_small by lia. replace (Z.of_nat (length bs) =? 0) with false by lia. simpl.
  unfold load32, mbind, M_bind, get. simpl. rewrite lookup_insert_eq. simpl. by replace (0 <=? Z.of_nat (length bs) - 4) with false by lia.
Qed.

(** Where the code departs from this.  After the language in use was closed, every lookup
    uses freed memory.  A language whose name has six characters or more is loaded but never found
    again, so loading it twice maps its archives twice.  Opening a file of one to three bytes
    reads before its mapping, and a lookup in an archive with an empty index reads behind
    it. *)
Theorem lmo_departs :
  (forall lb s name, lib_rep lb s -> current lb = Some name ->
     exists s', lmo_close_catalog name s = Ok tt s' /\ forall schar key, lmo_translate schar (Some key) s' = Undef) /\
  (forall lb s name, lib_rep lb s -> (6 <= String.length name)%nat -> lmo_change_catalog name s = Ok (-1) s) /\
  (forall wide file name bs s, file name = Some bs -> 0 < len bs < 4 -> fails s = [] -> lmo_open wide file name s = Undef) /\
  (exists s, (lmo_load_catalog true demo_file demo_dir demo_match "de_DE@" (Some "i18n"%string);;
              lmo_load_catalog true demo_file demo_dir demo_match "de_DE@" (Some "i18n"%string)) (init []) = Ok 0 s /\
     size (cats s) = 2%nat /\ size (maps s) = 2%nat) /\
  (lmo_load_catalog true (fun _ => Some [0; 0; 0; 0]) demo_dir demo_match "de" (Some "i18n"%string);;
   lmo_translate true (Some demo_key)) (init []) = Undef.
Proof.
  split_and!.
  - intros lb s name. apply close_current.
  - intros lb s name. apply change_long.
  - intros wide file name bs s. apply open_tiny.
  - vm_compute. eexists. split_and!; reflexivity.
  - vm_compute. reflexivity.
Qed.
End LmoTheorems.
