(* ===== verification/Po2lmo.v ===== *)
(** The converter from message catalogs to translation archives,
    [luci/luci-base/src/po2lmo.c].

    Texts are lists of bytes.  The buffers for the key, the value and a continuation line are kept with all
    their 4096 bytes, since the code leaves bytes in them; the buffer for the line is cleared
    before each read and is kept as the string in it.  [die] and [usage] end the process with status 1. *)

From Stdlib Require Import ZArith Lia Ascii String.
From stdpp Require Import base list list_numbers numbers strings gmap.
From S2P Require Import Prelude Stdio Lmo.

Open Scope list_scope.
Open Scope Z_scope.

Module Po2lmo.
Import Stdio.
Import Lmo (sfh_hash).

(** * Strings *)

Definition BUF : nat := 4096.
Definition zeros : list Z := replicate BUF 0.

(** The string in a buffer, and its length if it ends there. *)
Fixpoint cstr (b : list Z) : list Z :=
  match b with [] => [] | c :: b => if c =? 0 then [] else c :: cstr b end.
Definition strlen (b : list Z) : option Z :=
  if bool_decide (length (cstr b) < length b)%nat then Some (Z.of_nat (length (cstr b))) else None.

Definition store (b : list Z) (i c : Z) : option (list Z) :=
  if (0 <=? i) && (i <? Z.of_nat (length b)) then Some (<[Z.to_nat i := c]> b) else None.

(** [strcat(dest, src)] where both are buffers. *)
Definition strcat (dest src : list Z) : option (list Z) :=
  n ← strlen dest;
  m ← strlen src;
  if n + m + 1 <=? Z.of_nat (length dest) then
    Some (take (Z.to_nat n) dest ++ cstr src ++ 0 :: drop (Z.to_nat (n + m + 1)) dest)
  else None.

Definition bytes (s : string) : list Z := (fun c => Z.of_N (N_of_ascii c)) <$> list_ascii_of_string s.
(** The words that open a key and a value, with the quote. *)
Definition MSGID : list Z := bytes "msgid " ++ [34].
Definition MSGSTR : list Z := bytes "msgstr " ++ [34].
(** [strstr(s, t) == s] *)
Definition starts (t s : list Z) : bool := bool_decide (take (length t) s = t).

(** [fgets(line, n, f)]: the bytes up to a newline, at most [n - 1]. *)
Fixpoint upto_newline (n : nat) (l : list Z) : list Z :=
  match n, l with
  | S n, c :: l => if c =? 10 then [c] else c :: upto_newline n l
  | _, _ => []
  end.
Definition fgets (n : nat) (f : FILE) : M fs (option (list Z) * FILE) :=
  s ← get;
  match drop (Z.to_nat (pos f)) (content s (path f)) with
  | [] => mret (None, f)
  | rest =>
      let bs := upto_newline (n - 1) rest in
      mret (Some bs, mkFILE (path f) (pos f + Z.of_nat (length bs)))
  end.

(** * Messages *)

(** The loop of [extract_string]: [dest] and [off] at its end. *)
Fixpoint extract_loop (src : list Z) (pos off : Z) (esc : bool) (dest : list Z) : option (list Z * Z) :=
  match src with
  | [] => Some (dest, off)
  | c :: src =>
      if (off =? -1) && (c =? 34) then extract_loop src (pos + 1) (pos + 1) esc dest
      else if 0 <=? off then
        if esc then
          let off := if (c =? 34) || (c =? 92) then off + 1 else off in
          dest ← store dest (pos - off) c; extract_loop src (pos + 1) off false dest
        else if c =? 92 then
          dest ← store dest (pos - off) c; extract_loop src (pos + 1) off true dest
        else if negb (c =? 34) then
          dest ← store dest (pos - off) c; extract_loop src (pos + 1) off esc dest
        else
          dest ← store dest (pos - off) 0; Some (dest, off)
      else extract_loop src (pos + 1) off esc dest
  end.
Definition extract_string (src dest : list Z) (len : nat) : option (list Z * Z) :=
  r ← extract_loop (take len src) 0 (-1) false dest;
  let '(dest, off) := r in
  if -1 <? off then n ← strlen dest; Some (dest, n) else Some (dest, -1).

Record lmo_entry := mkEntry { key_id : Z; val_id : Z; e_offset : Z; e_length : Z }.
Record conv := mkConv {
  state : Z; offset : Z; array : list lmo_entry; key : list Z; val : list Z; tmp : list Z
}.
#[export] Instance eta_conv : Eta conv := fun x =>
  mkConv (state x) (offset x) (array x) (key x) (val x) (tmp x).

(** What a line does to the state machine; [None] is undefined, [Some None] the call of [die]. *)
Definition read_line (line : list Z) (c : conv) : option (option conv) :=
  if (state c =? 0) && starts MSGID line then
    r ← extract_string line (key c) BUF;
    let '(k, n) := r in
    Some (if n =? -1 then None
          else if n =? 0 then Some (c <| key := k |> <| state := 1 |>)
          else Some (c <| key := k |> <| state := 2 |>))
  else if (state c =? 1) || (state c =? 2) then
    if starts MSGSTR line || (state c =? 2) then
      r ← extract_string line (val c) BUF;
      let '(v, n) := r in
      Some (Some (c <| val := v |> <| state := if n =? -1 then 4 else 3 |>))
    else
      r ← extract_string line (tmp c) BUF;
      let '(t, n) := r in
      if n =? -1 then Some (Some (c <| tmp := t |> <| state := 2 |>))
      else k ← strcat (key c) t; Some (Some (c <| tmp := t |> <| key := k |>))
  else if state c =? 3 then
    r ← extract_string line (tmp c) BUF;
    let '(t, n) := r in
    if n =? -1 then Some (Some (c <| tmp := t |> <| state := 4 |>))
    else v ← strcat (val c) t; Some (Some (c <| tmp := t |> <| val := v |>))
  else Some (Some c).

Section po2lmo.
Context (schar : bool) (qsort : list lmo_entry -> list lmo_entry).

Definition die {A} : M fs A := abort.

(** [print]: one item is written whole or the process ends. *)
Definition print (bs : list Z) (out : FILE) : M fs FILE :=
  r ← fwrite out bs;
  let '(n, out) := r in
  if n =? Z.of_nat (length bs) then mret out else die.
Definition print_uint32 (x : Z) (out : FILE) : M fs FILE := print (reverse (le 4 x)) out.

Fixpoint print_entries (l : list lmo_entry) (out : FILE) : M fs FILE :=
  match l with
  | [] => mret out
  | e :: l =>
      out ← print_uint32 (key_id e) out;
      out ← print_uint32 (val_id e) out;
      out ← print_uint32 (e_offset e) out;
      out ← print_uint32 (e_length e) out;
      print_entries l out
  end.
Definition print_index (array : list lmo_entry) (out : FILE) : M fs FILE := print_entries (qsort array) out.

(** The end of a message. *)
Definition flush_message (c : conv) (out : FILE) : M fs (conv * FILE) :=
  if state c =? 4 then
    klen ← lift (strlen (key c));
    vlen ← lift (strlen (val c));
    r ← (if (0 <? klen) && (0 <? vlen) then
           let key_id := sfh_hash schar (cstr (key c)) in
           let val_id := sfh_hash schar (cstr (val c)) in
           if negb (key_id =? val_id) then
             ok ← malloc;
             if negb ok then die
             else
               let length := vlen + (4 - vlen mod 4) mod 4 in
               out ← print (take (Z.to_nat length) (val c)) out;
               o ← iadd (offset c) length;
               mret (c <| array ::= fun l => l ++ [mkEntry key_id val_id (offset c) vlen] |> <| offset := o |>, out)
           else mret (c, out)
         else mret (c, out));
    let '(c, out) := r in
    mret (c <| state := 0 |> <| key := zeros |> <| val := zeros |>, out)
  else mret (c, out).

(** One round per line and one at the end of the file. *)
Fixpoint main_loop (fuel : nat) (c : conv) (i out : FILE) : M fs (conv * FILE) :=
  match fuel with
  | O => undef
  | S fuel =>
      r ← fgets BUF i;
      let '(line, i) := r in
      if match line with Some _ => false | None => negb (2 <=? state c) end then mret (c, out)
      else
        c ← lift (read_line (cstr (default [] line)) c);
        match c with
        | None => die
        | Some c =>
            r ← flush_message c out;
            let '(c, out) := r in
            main_loop fuel c i out
        end
  end.

(** [argv] after the name of the program; [junk] is what the buffer [tmp] holds at first. *)
Definition main (junk : list Z) (argv : list string) : M fs Z :=
  match argv with
  | [input; output] =>
      i ← fopen_r input;
      match i with
      | None => die
      | Some i =>
          out ← fopen_w output;
          match out with
          | None => die
          | Some out =>
              s ← get;
              r ← main_loop (S (S (length (content s input)))) (mkConv 0 0 [] zeros zeros junk) i out;
              let '(c, out) := r in
              out ← print_index (array c) out;
              (if 0 <? offset c then print_uint32 (offset c) out;; mret tt
               else modify (fun s => s <| files ::= delete output |>));;
              mret 0
          end
      end
  | _ => die
  end.
End po2lmo.
End Po2lmo.
