(* ===== verification/Po2lmoSpec.v ===== *)
(** The converter reads what a message catalog says and writes an archive in which the lookup
    finds it. *)

From Stdlib Require Import ZArith Lia Ascii String.
From stdpp Require Import base list list_numbers numbers strings gmap sorting.
From S2P Require Import Prelude Stdio Lmo LmoSpec LmoCatalog Po2lmo.

Open Scope list_scope.
Open Scope Z_scope.

Module Po2lmoSpec.
Import Stdio Po2lmo.
Import Lmo (sfh_hash, lmo_canon_hash, be32, squeeze, trim, isspace).
Import LmoSpec (word, field, ordered).
Import LmoCatalog (len, idx, count, valid, file_ok).

(** * Texts *)

(** The bytes of a text. *)
Definition plain (s : list Z) : Prop := Forall (fun c => 0 < c < 256 /\ c <> 10) s.

Definition escape (s : list Z) : list Z := s ≫= fun c => if (c =? 34) || (c =? 92) then [92; c] else [c].
Definition quoted (s : list Z) : list Z := 34 :: escape s ++ [34].
(** A buffer that holds [s]. *)
Definition buffer (s : list Z) : list Z := s ++ replicate (BUF - length s) 0.

(** A message catalog: the key and the value of each message on a line, and an empty line. *)
Definition message : Type := list Z * list Z.
Definition key_line (k : list Z) : list Z := bytes "msgid " ++ quoted k ++ [10].
Definition val_line (v : list Z) : list Z := bytes "msgstr " ++ quoted v ++ [10].
Definition po (ms : list message) : list Z := ms ≫= fun m => key_line m.1 ++ val_line m.2 ++ [10].

(** ** Reading a quoted text *)

Lemma store_mid d c t x : store (d ++ x :: t) (Z.of_nat (length d)) c = Some (d ++ c :: t).
Proof.
  unfold store. rewrite length_app. cbn [length]. rewrite (proj2 (Z.leb_le _ _)), (proj2 (Z.ltb_lt _ _)) by lia.
  rewrite Nat2Z.id. f_equal. by rewrite insert_app_r_alt, Nat.sub_diag by lia.
Qed.

Lemma extract_plain : forall s pos off d t rest,
  pos - off = Z.of_nat (length d) -> 0 <= off -> (length s < length t)%nat ->
  exists off', extract_loop (escape s ++ 34 :: rest) pos off false (d ++ t) =
    Some (d ++ s ++ 0 :: drop (S (length s)) t, off') /\ 0 <= off'.
Proof.
  induction s as [|c s IH]; intros pos off d t rest Hp Ho Ht; (destruct t as [|x t]; [simpl in Ht; lia|]).
  - exists off. split; [|done]. simpl. replace (off =? -1) with false by lia. simpl. replace (0 <=? off) with true by lia.
    rewrite Hp, store_mid. done.
  - assert (escape (c :: s) = (if (c =? 34) || (c =? 92) then [92; c] else [c]) ++ escape s) as -> by done.
    simpl in Ht. specialize (IH) with (d := d ++ [c]) (t := t) (rest := rest). rewrite length_app in IH. simpl (length [c]) in IH.
    rewrite <- app_assoc in IH. simpl in IH. destruct ((c =? 34) || (c =? 92)) eqn:E.
    + destruct (IH (pos + 2) (off + 1)) as (off' & I1 & I2); [lia|lia|lia|]. exists off'. split; [|done].
      simpl. replace (off =? -1) with false by lia. simpl. replace (0 <=? off) with true by lia.
      rewrite Hp, store_mid. simpl. replace (off =? -1) with false by lia. simpl. replace (0 <=? off) with true by lia. rewrite E.
      replace (pos + 1 - (off + 1)) with (Z.of_nat (length d)) by lia. rewrite store_mid. simpl.
      replace (pos + 1 + 1) with (pos + 2) by lia. rewrite <- app_assoc in I1. exact I1.
    + destruct (IH (pos + 1) off) as (off' & I1 & I2); [lia|lia|lia|]. exists off'. split; [|done].
      apply orb_false_elim in E as [E1 E2]. simpl. replace (off =? -1) with false by lia. simpl. replace (0 <=? off) with true by lia.
      rewrite E1, E2. simpl. rewrite Hp, store_mid. simpl. rewrite <- app_assoc in I1. exact I1.
Qed.

Lemma extract_skip dest : forall pre pos l,
  (34 ∉ pre) -> extract_loop (pre ++ l) pos (-1) false dest = extract_loop l (pos + Z.of_nat (length pre)) (-1) false dest.
Proof.
  induction pre as [|c pre IH]; intros pos l H; [simpl; f_equal; lia|]. apply not_elem_of_cons in H as [H1 H2].
  cbn [app extract_loop]. replace (c =? 34) with false by lia. rewrite andb_false_r. simpl. rewrite IH by done. f_equal. lia.
Qed.

Lemma cstr_plain s t : plain s -> cstr (s ++ 0 :: t) = s.
Proof.
  induction 1 as [|c s [H _] _ IH]; [done|]. simpl. replace (c =? 0) with false by lia. by rewrite IH.
Qed.
Lemma strlen_plain s t : plain s -> strlen (s ++ 0 :: t) = Some (Z.of_nat (length s)).
Proof.
  intros H. unfold strlen. rewrite cstr_plain by done. rewrite bool_decide_true; [done|]. rewrite length_app. simpl. lia.
Qed.

Lemma length_buf : length zeros = BUF.
Proof. apply length_replicate. Qed.
Lemma buffer_zeros s : (length s < BUF)%nat -> s ++ 0 :: drop (S (length s)) zeros = buffer s.
Proof.
  intros H. unfold zeros, buffer. f_equal. rewrite drop_replicate. change (0 :: replicate (BUF - S (length s)) 0) with (replicate (S (BUF - S (length s))) 0).
  f_equal. lia.
Qed.
Lemma cstr_buffer s : plain s -> (length s < BUF)%nat -> cstr (buffer s) = s.
Proof. intros H1 H2. rewrite <- buffer_zeros by done. by apply cstr_plain. Qed.
Lemma strlen_buffer s : plain s -> (length s < BUF)%nat -> strlen (buffer s) = Some (Z.of_nat (length s)).
Proof. intros H1 H2. rewrite <- buffer_zeros by done. by apply strlen_plain. Qed.
Lemma length_escape s : (length s <= length (escape s))%nat.
Proof.
  induction s as [|c s IH]; [done|]. unfold escape in *. rewrite bind_cons, length_app. destruct (_ || _); simpl; lia.
Qed.

(** A line with a quoted text, and one without a quote. *)
Lemma extract_quoted pre s rest dest :
  (34 ∉ pre) -> plain s -> (length (pre ++ quoted s ++ rest) <= BUF)%nat -> length dest = BUF ->
  extract_string (pre ++ quoted s ++ rest) dest BUF = Some (s ++ 0 :: drop (S (length s)) dest, Z.of_nat (length s)).
Proof.
  intros H1 H2 H3 H4. unfold extract_string. rewrite take_ge by done. rewrite extract_skip by done. unfold quoted in *.
  pose proof (length_escape s) as He. rewrite !length_app in H3. cbn [length] in H3. rewrite length_app in H3. cbn [length] in H3.
  cbn [app extract_loop]. simpl ((-1 =? -1) && (34 =? 34)). cbv iota. rewrite <- app_assoc. simpl ([34] ++ rest).
  destruct (extract_plain s (0 + Z.of_nat (length pre) + 1) (0 + Z.of_nat (length pre) + 1) [] dest rest) as (off & E & Ho);
    [simpl; lia|lia|lia|]. simpl (_ ++ dest) in E. rewrite E. simpl. replace (-1 <? off) with true by lia.
  rewrite strlen_plain by done. done.
Qed.
Lemma extract_none line dest :
  (34 ∉ line) -> (length line <= BUF)%nat -> extract_string line dest BUF = Some (dest, -1).
Proof.
  intros H1 H2. unfold extract_string. rewrite take_ge by done. rewrite <- (app_nil_r line) at 1. by rewrite extract_skip.
Qed.

(** * A message *)

(** The lines of a message fit the buffer. *)
Definition msg_ok (m : message) : Prop :=
  plain m.1 /\ plain m.2 /\ m.1 <> [] /\ m.2 <> [] /\
  (length (key_line m.1) < BUF)%nat /\ (length (val_line m.2) < BUF)%nat.

Lemma not_quote (s : string) : forallb (fun c => negb (Ascii.eqb c (ascii_of_nat 34))) (list_ascii_of_string s) = true -> 34 ∉ bytes s.
Proof.
  unfold bytes. rewrite forallb_forall. intros H Hin. apply list_elem_of_fmap in Hin as (c & Hc & Hin).
  apply list_elem_of_In in Hin. apply H in Hin. destruct (Ascii.eqb_spec c (ascii_of_nat 34)) as [|Hne]; [done|]. apply Hne.
  rewrite <- (ascii_N_embedding c). by replace (N_of_ascii c) with 34%N by lia.
Qed.

(** The state between messages. *)
Definition idle (off : Z) (arr : list lmo_entry) (tmp : list Z) : conv := mkConv 0 off arr zeros zeros tmp.

Lemma read_key off arr tmp k :
  plain k -> k <> [] -> (length (key_line k) < BUF)%nat ->
  read_line (key_line k) (idle off arr tmp) = Some (Some (mkConv 2 off arr (buffer k) zeros tmp)).
Proof.
  intros H1 H2 H3. unfold read_line. simpl (state _ =? 0).
  assert (starts MSGID (key_line k) = true) as ->.
  { unfold starts, key_line, quoted, MSGID. apply bool_decide_true. reflexivity. }
  cbv iota. cbn [andb]. unfold key_line at 1. simpl (key _).
  rewrite extract_quoted; [|by apply not_quote|done|unfold key_line in H3; lia|apply length_buf].
  assert (length k < BUF)%nat as Hk.
  { pose proof (length_escape k). unfold key_line, quoted in H3. rewrite !length_app in H3. cbn [length] in H3. rewrite length_app in H3. lia. }
  simpl. rewrite buffer_zeros by done. destruct k as [|c k]; [done|]. done.
Qed.

Lemma read_val off arr tmp k v :
  plain v -> (length (val_line v) < BUF)%nat ->
  read_line (val_line v) (mkConv 2 off arr (buffer k) zeros tmp) = Some (Some (mkConv 3 off arr (buffer k) (buffer v) tmp)).
Proof.
  intros H1 H3. unfold read_line. cbn [state]. simpl (2 =? 0). cbn [andb]. simpl ((2 =? 1) || (2 =? 2)). cbv iota.
  simpl (2 =? 2). rewrite orb_true_r. cbn [val]. unfold val_line at 1.
  rewrite extract_quoted; [|by apply not_quote|done|unfold val_line in H3; lia|apply length_buf].
  assert (length v < BUF)%nat as Hv.
  { pose proof (length_escape v). unfold val_line, quoted in H3. rewrite !length_app in H3. cbn [length] in H3. rewrite length_app in H3. lia. }
  simpl. rewrite buffer_zeros by done. by replace (Z.of_nat (length v) =? -1) with false by lia.
Qed.

Lemma read_empty off arr tmp k v :
  read_line [10] (mkConv 3 off arr k v tmp) = Some (Some (mkConv 4 off arr k v tmp)).
Proof.
  unfold read_line. cbn [state]. simpl (3 =? 0). cbn [andb]. simpl ((3 =? 1) || (3 =? 2)). cbv iota. simpl (3 =? 3). cbv iota.
  cbn [Po2lmo.tmp]. rewrite extract_none; [done|set_solver|unfold BUF; simpl; lia].
Qed.

(** ** Lines *)

Lemma upto_line l rest : forall n, (10 ∉ l) -> (length l < n)%nat -> upto_newline n (l ++ 10 :: rest) = l ++ [10].
Proof.
  induction l as [|c l IH]; intros [|n] H1 H2; simpl in *; try lia; [done|]. apply not_elem_of_cons in H1 as [H0 H1].
  replace (c =? 10) with false by lia. rewrite IH by (done || lia). done.
Qed.

Lemma fgets_line p pre l rest s :
  content s p = pre ++ l ++ 10 :: rest -> (10 ∉ l) -> (length l + 1 < BUF)%nat ->
  fgets BUF (mkFILE p (Z.of_nat (length pre))) s =
    Ok (Some (l ++ [10]), mkFILE p (Z.of_nat (length (pre ++ l ++ [10])))) s.
Proof.
  intros E H1 H2. unfold fgets. eapply bind_ok; [done|]. cbn [pos path]. rewrite E, Nat2Z.id, drop_app_length.
  destruct (l ++ 10 :: rest) as [|y r] eqn:El; [by destruct l|]. rewrite <- El. rewrite upto_line by (done || lia).
  unfold mret, M_ret. do 3 f_equal. rewrite !length_app. lia.
Qed.
Lemma fgets_end p s c : content s p = c -> fgets BUF (mkFILE p (Z.of_nat (length c))) s = Ok (None, mkFILE p (Z.of_nat (length c))) s.
Proof. intros <-. unfold fgets. eapply bind_ok; [done|]. cbn [pos path]. by rewrite Nat2Z.id, drop_all. Qed.

Lemma cstr_id l : Forall (fun c => c <> 0) l -> cstr l = l.
Proof. induction 1 as [|c l H _ IH]; [done|]. simpl. replace (c =? 0) with false by lia. by rewrite IH. Qed.

(** What a line is made of. *)
Definition inner (w s : list Z) : list Z := w ++ quoted s.
Lemma escape_in s c : c ∈ escape s -> c = 92 \/ c ∈ s.
Proof.
  unfold escape. intros (d & Hd & Hs)%list_elem_of_bind. destruct (_ || _); set_solver.
Qed.
Lemma inner_bytes (w s : list Z) :
  Forall (fun c => 0 < c < 256 /\ c <> 10) w -> plain s -> Forall (fun c => 0 < c < 256 /\ c <> 10) (inner w s).
Proof.
  intros H1 H2. unfold inner, quoted. apply Forall_app. split; [done|]. constructor; [lia|]. apply Forall_app. split; [|by repeat constructor; lia].
  unfold plain in H2. rewrite Forall_forall in *. intros c [->|Hc]%escape_in; [lia|by apply H2].
Qed.
Lemma words_bytes : Forall (fun c => 0 < c < 256 /\ c <> 10) (bytes "msgid ") /\ Forall (fun c => 0 < c < 256 /\ c <> 10) (bytes "msgstr ").
Proof. split; repeat constructor; done. Qed.

Lemma read_text p pre w s rest st0 :
  Forall (fun c => 0 < c < 256 /\ c <> 10) w -> plain s -> content st0 p = pre ++ (w ++ quoted s ++ [10]) ++ rest ->
  (length (w ++ quoted s ++ [10%Z]) < BUF)%nat ->
  fgets BUF (mkFILE p (Z.of_nat (length pre))) st0 =
    Ok (Some (w ++ quoted s ++ [10]), mkFILE p (Z.of_nat (length (pre ++ w ++ quoted s ++ [10])))) st0 /\
  cstr (w ++ quoted s ++ [10]) = w ++ quoted s ++ [10].
Proof.
  intros Hw Hs E Hl. pose proof (inner_bytes w s Hw Hs) as Hi. rewrite Forall_forall in Hi.
  assert (w ++ quoted s ++ [10] = inner w s ++ [10]) as Heq by (unfold inner; by rewrite <- app_assoc). rewrite Heq in *. split.
  - apply (fgets_line p pre (inner w s) rest).
    + rewrite E. by rewrite <- app_assoc.
    + intros H. by apply Hi in H as [_ ?].
    + rewrite length_app in Hl. simpl in Hl. lia.
  - apply cstr_id. apply Forall_forall. intros c [Hc|Hc]%elem_of_app; [apply Hi in Hc; lia|set_solver].
Qed.

(** * The archive *)

Section archive.
Context (schar : bool) (qsort : list lmo_entry -> list lmo_entry).
Abbreviation sfh := (sfh_hash schar).

Definition kept (m : message) : bool := negb (sfh m.1 =? sfh m.2).
Definition padded (v : list Z) : list Z := v ++ replicate (Z.to_nat ((4 - Z.of_nat (length v) mod 4) mod 4)) 0.
Definition size_of (v : list Z) : Z := Z.of_nat (length (padded v)).

Fixpoint data (ms : list message) : list Z :=
  match ms with [] => [] | m :: ms => (if kept m then padded m.2 else []) ++ data ms end.
Fixpoint entries (off : Z) (ms : list message) : list lmo_entry :=
  match ms with
  | [] => []
  | m :: ms =>
      if kept m then
        mkEntry (sfh m.1) (sfh m.2) off (Z.of_nat (length m.2)) :: entries (off + size_of m.2) ms
      else entries off ms
  end.

Lemma size_of_eq v : size_of v = Z.of_nat (length v) + (4 - Z.of_nat (length v) mod 4) mod 4.
Proof. unfold size_of, padded. rewrite length_app, length_replicate. dlia. Qed.

Lemma take_padded v : (length v < BUF)%nat ->
  take (Z.to_nat (Z.of_nat (length v) + (4 - Z.of_nat (length v) mod 4) mod 4)) (buffer v) = padded v.
Proof.
  intros H. unfold buffer, padded. rewrite take_app_ge by dlia. f_equal. rewrite take_replicate. f_equal. unfold BUF in *. dlia.
Qed.

Lemma print_ok out c bs s :
  quiet s -> files s !! out = Some c ->
  print bs (mkFILE out (Z.of_nat (length c))) s = Ok (mkFILE out (Z.of_nat (length (c ++ bs)))) (put out (c ++ bs) s).
Proof.
  intros Hq Hc. unfold print. eapply bind_ok; [by apply fwrite_quiet|]. cbn [path pos]. cbv beta iota. rewrite Z.eqb_refl.
  unfold mret, M_ret. f_equal.
  - f_equal. rewrite length_app. lia.
  - f_equal. unfold app_at. destruct bs as [|b bs]; [by rewrite app_nil_r|]. rewrite write_at_end by lia.
    by replace (Z.to_nat (Z.of_nat (length c)) - length c)%nat with 0%nat by lia.
Qed.

Lemma flush_message_ok off arr tmp m out c s :
  msg_ok m -> quiet s -> files s !! out = Some c -> 0 <= off -> off + Z.of_nat (length (data [m])) < 2 ^ 31 ->
  flush_message schar (mkConv 4 off arr (buffer m.1) (buffer m.2) tmp) (mkFILE out (Z.of_nat (length c))) s =
    Ok (idle (off + Z.of_nat (length (data [m]))) (arr ++ entries off [m]) tmp,
        mkFILE out (Z.of_nat (length (c ++ data [m])))) (put out (c ++ data [m]) s).
Proof.
  intros (P1 & P2 & N1 & N2 & L1 & L2) Hq Hc Ho Hs.
  assert (length m.1 < BUF /\ length m.2 < BUF)%nat as [B1 B2].
  { pose proof (length_escape m.1). pose proof (length_escape m.2). unfold key_line, val_line, quoted in *. rewrite !length_app in L1, L2.
    cbn [length] in L1, L2. rewrite length_app in L1, L2. lia. }
  unfold flush_message. cbn [state]. simpl (4 =? 4). cbv iota. cbn [key val].
  eapply bind_ok; [by rewrite strlen_buffer|]. eapply bind_ok; [by rewrite strlen_buffer|].
  assert (0 < Z.of_nat (length m.1) /\ 0 < Z.of_nat (length m.2)) as [Z1 Z2] by (destruct m as [[|] [|]]; simpl in *; (done || lia)).
  rewrite (proj2 (Z.ltb_lt _ _) Z1), (proj2 (Z.ltb_lt _ _) Z2). cbn [andb]. cbv zeta. rewrite !cstr_buffer by done.
  unfold data, entries in *. fold (kept m). destruct (kept m) eqn:Ek; cbn [app] in *.
  - rewrite app_nil_r in *. fold (size_of m.2) in Hs. eapply bind_ok.
    { eapply bind_ok; [by apply malloc_quiet|]. cbn [negb]. rewrite take_padded by done.
      eapply bind_ok; [by apply print_ok|]. cbv beta. rewrite <- size_of_eq. eapply bind_ok; [apply iadd_ok; unfold size_of in *; simpl; lia|]. done. }
    cbv beta iota. done.
  - rewrite !app_nil_r. eapply bind_ok; [done|]. cbv beta iota. rewrite put_id by done. unfold mret, M_ret, idle. simpl. by rewrite Z.add_0_r.
Qed.

Lemma main_loop_S fuel c i out :
  main_loop schar (S fuel) c i out =
    (r ← fgets BUF i;
     let '(line, i) := r in
     if match line with Some _ => false | None => negb (2 <=? state c) end then mret (c, out)
     else
       c ← lift (read_line (cstr (default [] line)) c);
       match c with
       | None => die
       | Some c =>
           r ← flush_message schar c out;
           let '(c, out) := r in
           main_loop schar fuel c i out
       end).
Proof. done. Qed.

(** A line that ends no message. *)
Lemma loop_line fuel c c' i i' out line s :
  fgets BUF i s = Ok (Some line, i') s -> cstr line = line -> read_line line c = Some (Some c') -> state c' <> 4 ->
  main_loop schar (S fuel) c i out s = main_loop schar fuel c' i' out s.
Proof.
  intros H1 H2 H3 H4. rewrite main_loop_S. eapply bind_ok; [exact H1|]. cbv beta iota. change (default [] (Some line)) with line. rewrite H2, H3.
  eapply bind_ok; [done|]. cbv beta iota. unfold flush_message. replace (state c' =? 4) with false by lia. eapply bind_ok; [done|]. done.
Qed.

Lemma loop_message fuel off arr tmp m inp out pre rest c s :
  msg_ok m -> quiet s -> content s inp = pre ++ (key_line m.1 ++ val_line m.2 ++ [10]) ++ rest ->
  files s !! out = Some c -> 0 <= off -> off + Z.of_nat (length (data [m])) < 2 ^ 31 ->
  main_loop schar (S (S (S fuel))) (idle off arr tmp) (mkFILE inp (Z.of_nat (length pre))) (mkFILE out (Z.of_nat (length c))) s =
  main_loop schar fuel (idle (off + Z.of_nat (length (data [m]))) (arr ++ entries off [m]) tmp)
    (mkFILE inp (Z.of_nat (length (pre ++ key_line m.1 ++ val_line m.2 ++ [10])))) (mkFILE out (Z.of_nat (length (c ++ data [m]))))
    (put out (c ++ data [m]) s).
Proof.
  intros Hm Hq E Hc Ho Hs. pose proof Hm as (P1 & P2 & N1 & N2 & L1 & L2). destruct words_bytes as [W1 W2].
  rewrite <- !app_assoc in E.
  destruct (read_text inp pre (bytes "msgid ") m.1 (val_line m.2 ++ [10] ++ rest) s W1 P1 E L1) as [R1 R2].
  erewrite loop_line; [|exact R1|exact R2|by apply read_key|done].
  assert (content s inp = (pre ++ key_line m.1) ++ val_line m.2 ++ [10] ++ rest) as E2 by (rewrite E; by rewrite <- app_assoc).
  destruct (read_text inp (pre ++ key_line m.1) (bytes "msgstr ") m.2 ([10] ++ rest) s W2 P2 E2 L2) as [R3 R4].
  erewrite loop_line; [|exact R3|exact R4|by apply read_val|done].
  assert (content s inp = ((pre ++ key_line m.1) ++ val_line m.2) ++ [] ++ 10 :: rest) as E3 by (rewrite E2; change ([] ++ 10 :: rest) with ([10] ++ rest); by rewrite <- !app_assoc).
  pose proof (fgets_line inp _ [] rest s E3 ltac:(apply not_elem_of_nil) ltac:(unfold BUF; simpl; lia)) as R5.
  rewrite main_loop_S. eapply bind_ok; [exact R5|]. cbv beta iota. change (cstr (default [] (Some ([] ++ [10])))) with [10]. rewrite read_empty.
  eapply bind_ok; [done|]. cbv beta iota. eapply bind_ok; [by apply flush_message_ok|]. cbv beta iota. rewrite <- !app_assoc. done.
Qed.

Lemma data_cons m ms : data (m :: ms) = data [m] ++ data ms.
Proof. simpl. by rewrite app_nil_r. Qed.
Lemma entries_cons off m ms : entries off (m :: ms) = entries off [m] ++ entries (off + Z.of_nat (length (data [m]))) ms.
Proof. simpl. destruct (kept m); simpl; rewrite ?app_nil_r, ?Z.add_0_r; done. Qed.

Lemma main_loop_ok inp out tmp : forall ms fuel off arr c pre s,
  Forall msg_ok ms -> quiet s -> content s inp = pre ++ po ms -> files s !! out = Some c -> inp <> out -> 0 <= off ->
  (length (po ms) < fuel)%nat -> off + Z.of_nat (length (data ms)) < 2 ^ 31 ->
  main_loop schar fuel (idle off arr tmp) (mkFILE inp (Z.of_nat (length pre))) (mkFILE out (Z.of_nat (length c))) s =
    Ok (idle (off + Z.of_nat (length (data ms))) (arr ++ entries off ms) tmp, mkFILE out (Z.of_nat (length (c ++ data ms))))
       (put out (c ++ data ms) s).
Proof.
  induction ms as [|m ms IH]; intros fuel off arr c pre s Hm Hq E Hc Hne Ho Hf Hd.
  - destruct fuel as [|fuel]; [simpl in Hf; lia|]. rewrite app_nil_r in E. rewrite main_loop_S. simpl data. simpl entries.
    rewrite !app_nil_r, Z.add_0_r, put_id by done. eapply bind_ok; [by apply fgets_end|]. done.
  - apply Forall_cons in Hm as [Hm Hms]. unfold po in *. rewrite bind_cons in E, Hf. rewrite length_app in Hf.
    assert (3 <= length (key_line m.1 ++ val_line m.2 ++ [10%Z]))%nat as H3.
    { unfold key_line, val_line, quoted. rewrite !length_app. simpl. lia. }
    destruct fuel as [|[|[|fuel]]]; [lia..|]. rewrite data_cons, length_app in Hd.
    rewrite (loop_message fuel off arr tmp m inp out pre (ms ≫= fun m => key_line m.1 ++ val_line m.2 ++ [10]) c s); try done.
    + rewrite IH.
      * rewrite (data_cons m ms), (entries_cons off m ms), put_put, !(app_assoc c), !(app_assoc arr), (length_app (data [m]) (data ms)).
        replace (off + Z.of_nat (length (data [m]) + length (data ms))) with (off + Z.of_nat (length (data [m])) + Z.of_nat (length (data ms))) by lia. done.
      * done.
      * done.
      * rewrite <- !app_assoc in *. unfold content in *. by rewrite files_put_ne.
      * apply files_put.
      * done.
      * lia.
      * lia.
      * lia.
    + lia.
Qed.

(** ** The file *)

Definition be4 (x : Z) : list Z := reverse (le 4 x).
Definition entry_bytes (e : lmo_entry) : list Z :=
  be4 (key_id e) ++ be4 (val_id e) ++ be4 (e_offset e) ++ be4 (e_length e).
Definition index_bytes (l : list lmo_entry) : list Z := l ≫= entry_bytes.
Definition image (ms : list message) : list Z :=
  data ms ++ index_bytes (qsort (entries 0 ms)) ++ be4 (Z.of_nat (length (data ms))).

Lemma print_entries_ok out : forall l c s,
  quiet s -> files s !! out = Some c ->
  print_entries l (mkFILE out (Z.of_nat (length c))) s =
    Ok (mkFILE out (Z.of_nat (length (c ++ index_bytes l)))) (put out (c ++ index_bytes l) s).
Proof.
  induction l as [|e l IH]; intros c s Hq Hc.
  - simpl. by rewrite app_nil_r, put_id.
  - cbn [print_entries]. unfold print_uint32. do 4 (eapply bind_ok; [apply print_ok; [done|by rewrite ?put_put; apply files_put || exact Hc]|]; rewrite ?put_put).
    rewrite IH; [|done|apply files_put]. rewrite put_put. unfold index_bytes. rewrite bind_cons. unfold entry_bytes, be4. by rewrite <- !app_assoc.
Qed.

Lemma main_ok junk input output ms s :
  Forall msg_ok ms -> quiet s -> files s !! input = Some (po ms) -> input <> output ->
  (input ∉ locked s) -> (output ∉ locked s) -> Z.of_nat (length (data ms)) < 2 ^ 31 ->
  main schar qsort junk [input; output] s =
    Ok 0 (if 0 <? Z.of_nat (length (data ms)) then put output (image ms) s
          else (put output (data ms ++ index_bytes (qsort (entries 0 ms))) s) <| files ::= delete output |>).
Proof.
  intros Hm Hq Hi Hne L1 L2 Hd. unfold main. eapply bind_ok; [by eapply fopen_r_ok|]. eapply bind_ok; [by apply fopen_w_ok|].
  cbv beta iota. set (s1 := put output [] s). assert (content s1 input = po ms) as Ec.
  { unfold content, s1. rewrite files_put_ne by done. by rewrite Hi. }
  eapply bind_ok; [done|]. cbv beta. rewrite Ec.
  pose proof (main_loop_ok input output junk ms (S (S (length (po ms)))) 0 [] [] [] s1 Hm Hq Ec ltac:(apply files_put) Hne ltac:(lia) ltac:(lia) ltac:(lia)) as R.
  eapply bind_ok; [exact R|]. cbv beta iota. cbn [app]. unfold idle. cbn [array offset]. unfold print_index.
  eapply bind_ok; [apply print_entries_ok; [done|apply files_put]|]. cbv beta. rewrite Z.add_0_l.
  destruct (0 <? Z.of_nat (length (data ms))).
  - eapply bind_ok; [eapply bind_ok; [unfold print_uint32; apply print_ok; [done|apply files_put]|]; done|].
    unfold mret, M_ret. f_equal. unfold s1. rewrite !put_put. unfold image, be4. by rewrite <- !app_assoc.
  - eapply bind_ok; [done|]. unfold mret, M_ret, s1. by rewrite !put_put.
Qed.

(** ** Reading the file back *)

Lemma be32_be4 x : 0 <= x < 2 ^ 32 -> be32 (be4 x) = x.
Proof. intros H. unfold be32, be4. rewrite reverse_involutive. by apply unle_le. Qed.
Lemma length_be4 x : length (be4 x) = 4%nat.
Proof. unfold be4. by rewrite length_reverse, length_le. Qed.
Lemma word_at a x c bs off :
  bs = a ++ be4 x ++ c -> off = Z.of_nat (length a) -> 0 <= x < 2 ^ 32 -> word bs off = x.
Proof.
  intros -> -> H. unfold word. rewrite Nat2Z.id, drop_app_length. rewrite <- (length_be4 x) at 1. rewrite take_app_length. by apply be32_be4.
Qed.

Lemma length_index l : length (index_bytes l) = (16 * length l)%nat.
Proof.
  induction l as [|e l IH]; [done|]. unfold index_bytes in *. rewrite bind_cons, length_app, IH. unfold entry_bytes.
  rewrite !length_app, !length_be4. simpl. lia.
Qed.

Definition in_range (e : lmo_entry) : Prop :=
  0 <= key_id e < 2 ^ 32 /\ 0 <= e_offset e < 2 ^ 32 /\ 0 <= e_length e < 2 ^ 32.

(** The fields of an entry of an index after [d]. *)
Lemma field_index (d c : list Z) l i e :
  l !! i = Some e -> in_range e ->
  let bs := d ++ index_bytes l ++ c in
  field bs (Z.of_nat (length d)) (Z.of_nat i) 0 = key_id e /\
  field bs (Z.of_nat (length d)) (Z.of_nat i) 8 = e_offset e /\
  field bs (Z.of_nat (length d)) (Z.of_nat i) 12 = e_length e.
Proof.
  intros Hi (R1 & R2 & R3) bs. apply list_elem_of_split_length in Hi as (l1 & l2 & -> & ->). unfold bs, field.
  unfold index_bytes. rewrite bind_app, bind_cons. fold (index_bytes l1). fold (index_bytes l2). unfold entry_bytes. split_and!.
  - apply (word_at (d ++ index_bytes l1) _ (be4 (val_id e) ++ be4 (e_offset e) ++ be4 (e_length e) ++ index_bytes l2 ++ c)); [|..|done].
    + by rewrite <- !app_assoc.
    + rewrite length_app, length_index. lia.
  - apply (word_at (d ++ index_bytes l1 ++ be4 (key_id e) ++ be4 (val_id e)) _ (be4 (e_length e) ++ index_bytes l2 ++ c)); [|..|done].
    + by rewrite <- !app_assoc.
    + rewrite !length_app, length_index, !length_be4. lia.
  - apply (word_at (d ++ index_bytes l1 ++ be4 (key_id e) ++ be4 (val_id e) ++ be4 (e_offset e)) _ (index_bytes l2 ++ c)); [|..|done].
    + by rewrite <- !app_assoc.
    + rewrite !length_app, length_index, !length_be4. lia.
Qed.

Lemma sfh_range (l : list Z) : 0 <= sfh l < 2 ^ 32.
Proof.
  unfold sfh_hash. destruct l as [|c l]; [lia|]. destruct (Lmo.sfh_loop _ _) as [h r]. cbv zeta. unfold u32. apply Z.mod_pos_bound. lia.
Qed.

(** Each kept message has an entry for its value. *)
Lemma entries_sound ms : forall off e,
  0 <= off -> off + Z.of_nat (length (data ms)) < 2 ^ 31 -> Forall msg_ok ms -> e ∈ entries off ms ->
  in_range e /\ off <= e_offset e /\ e_length e < 2 ^ 31 /\ exists m, m ∈ ms /\ kept m = true /\ key_id e = sfh m.1 /\
    e_length e = Z.of_nat (length m.2) /\
    take (length m.2) (drop (Z.to_nat (e_offset e - off)) (data ms)) = m.2.
Proof.
  induction ms as [|m ms IH]; intros off e Ho Hd Hm He; [by apply not_elem_of_nil in He|]. apply Forall_cons in Hm as [Hm Hms].
  rewrite data_cons, length_app in Hd. rewrite data_cons. simpl in He.
  assert (forall off', off <= off' -> off' + Z.of_nat (length (data ms)) < 2 ^ 31 -> Z.to_nat (off' - off) = length (data [m]) -> e ∈ entries off' ms ->
    in_range e /\ off <= e_offset e /\ e_length e < 2 ^ 31 /\ exists m', m' ∈ m :: ms /\ kept m' = true /\ key_id e = sfh m'.1 /\
    e_length e = Z.of_nat (length m'.2) /\ take (length m'.2) (drop (Z.to_nat (e_offset e - off)) (data [m] ++ data ms)) = m'.2) as Hrest.
  { intros off' H1 H2 H3 H4. destruct (IH off' e ltac:(lia) H2 Hms H4) as (R & O & Q & m' & M1 & M2 & M3 & M4 & M5).
    split_and!; [done|lia|done|]. exists m'. split_and!; try done; [by right|].
    rewrite drop_app_ge by lia. replace (Z.to_nat (e_offset e - off) - length (data [m]))%nat with (Z.to_nat (e_offset e - off')) by lia. done. }
  destruct (kept m) eqn:Ek.
  - assert (data [m] = padded m.2) as Ed by (simpl; by rewrite Ek, app_nil_r). rewrite Ed in *.
    apply elem_of_cons in He as [->|He]; [|apply (Hrest (off + size_of m.2)); [unfold size_of; lia|unfold size_of; lia|unfold size_of; lia|done]].
    assert (Z.of_nat (length m.2) <= Z.of_nat (length (padded m.2))) as Hl by (unfold padded; rewrite length_app; lia).
    pose proof (sfh_range m.1). unfold in_range. simpl. split_and!; try lia. exists m. split_and!; try done; [by left|].
    rewrite Z.sub_diag. simpl. unfold padded. rewrite <- app_assoc. apply take_app_length.
  - apply (Hrest off); [lia| | |done]; [lia|]. simpl. rewrite Ek. simpl. lia.
Qed.
Lemma entries_complete ms : forall off m, m ∈ ms -> kept m = true -> exists e, e ∈ entries off ms /\ key_id e = sfh m.1.
Proof.
  induction ms as [|m' ms IH]; intros off m Hm Hk; [by apply not_elem_of_nil in Hm|]. simpl. apply elem_of_cons in Hm as [->|Hm].
  - rewrite Hk. eexists. split; [by left|]. done.
  - destruct (kept m'); [destruct (IH (off + size_of m'.2) m Hm Hk) as (e & ? & ?); exists e; split; [by right|done]|by apply IH].
Qed.
End archive.
End Po2lmoSpec.
