(* ===== verification/Po2lmoTheorems.v ===== *)
(** From a message catalog to the translated text: the converter, the archive and the lookup
    together. *)

From Stdlib Require Import ZArith Lia Ascii String.
From stdpp Require Import base list list_numbers numbers strings gmap sorting.
From S2P Require Import Prelude Stdio Lmo LmoSpec LmoCatalog LmoTheorems Po2lmo Po2lmoSpec.

Open Scope list_scope.
Open Scope Z_scope.

Module Po2lmoTheorems.
Import Stdio Po2lmo Po2lmoSpec.
Import Lmo (sfh_hash, lmo_canon_hash, squeeze, trim).
Import LmoSpec (word, field, ordered).
Import LmoCatalog (len, idx, count, valid, file_ok, answer, lacks).

(** The order of [cmp_index]. *)
Definition by_key (a b : lmo_entry) : Prop := key_id a <= key_id b.
Definition sorts (qsort : list lmo_entry -> list lmo_entry) : Prop :=
  forall l, qsort l ≡ₚ l /\ StronglySorted by_key (qsort l).

Lemma sorted_lookup {A} (R : A -> A -> Prop) (l : list A) : StronglySorted R l ->
  forall (i j : nat) a b, l !! i = Some a -> l !! j = Some b -> (i < j)%nat -> R a b.
Proof.
  induction 1 as [|x l _ IH F]; intros i j a b Hi Hj Hlt; [done|]. destruct j as [|j]; [lia|]. simpl in Hj. destruct i as [|i].
  - simpl in Hi. injection Hi as <-. rewrite Forall_forall in F. apply F. by apply list_elem_of_lookup_2 in Hj.
  - simpl in Hi. eapply IH; [done|done|lia].
Qed.
Lemma nodup_inj {A B} (f : A -> B) (l : list A) x y : NoDup (f <$> l) -> x ∈ l -> y ∈ l -> f x = f y -> x = y.
Proof.
  intros N Hx Hy E. apply list_elem_of_lookup_1 in Hx as (i & Hi). apply list_elem_of_lookup_1 in Hy as (j & Hj).
  assert (i = j) as -> by (eapply (NoDup_lookup _ i j (f x) N); rewrite list_lookup_fmap; [by rewrite Hi|by rewrite Hj, E]).
  congruence.
Qed.

Section image.
Context (schar : bool) (qsort : list lmo_entry -> list lmo_entry).
Hypothesis qsort_sorts : sorts qsort.
Abbreviation sfh := (sfh_hash schar).
Abbreviation data := (data schar).
Abbreviation entries := (entries schar).
Abbreviation kept := (kept schar).
Abbreviation image := (image schar qsort).

(** Messages that fit and that no other message is mistaken for. *)
Definition po_ok (ms : list message) : Prop :=
  Forall msg_ok ms /\ NoDup (sfh ∘ fst <$> filter (fun m => kept m = true) ms) /\
  Z.of_nat (length (data ms)) + 16 * Z.of_nat (length ms) < 2 ^ 31.

Lemma length_entries ms : forall off, length (entries off ms) = length (filter (fun m => kept m = true) ms).
Proof.
  induction ms as [|m ms IH]; intros off; [done|]. simpl. rewrite filter_cons. destruct (kept m) eqn:E; simpl.
  - by rewrite IH.
  - by rewrite IH.
Qed.
Lemma entries_keys ms : forall off, key_id <$> entries off ms = sfh ∘ fst <$> filter (fun m => kept m = true) ms.
Proof.
  induction ms as [|m ms IH]; intros off; [done|]. simpl. rewrite filter_cons. destruct (kept m) eqn:E; simpl.
  - f_equal. apply IH.
  - apply IH.
Qed.

Section facts.
Context (ms : list message).
Hypothesis ok : po_ok ms.
Abbreviation bs := (image ms).
Abbreviation l := (qsort (entries 0 ms)).

Lemma sorted_perm : l ≡ₚ entries 0 ms.
Proof. apply qsort_sorts. Qed.
Lemma length_l : (length l <= length ms)%nat.
Proof. rewrite sorted_perm, length_entries. apply length_filter. Qed.

Lemma entry_at (i : nat) e : l !! i = Some e -> in_range e /\ e ∈ entries 0 ms.
Proof.
  intros Hi. destruct ok as (H1 & _ & H3). apply list_elem_of_lookup_2 in Hi. rewrite sorted_perm in Hi. split; [|done].
  by apply (entries_sound schar ms 0 e); try done; lia.
Qed.

Lemma image_len : len bs = Z.of_nat (length (data ms)) + 16 * Z.of_nat (length l) + 4.
Proof. unfold len, image, Po2lmoSpec.image. rewrite !length_app, length_index, length_be4. lia. Qed.
Lemma image_idx : idx bs = Z.of_nat (length (data ms)).
Proof.
  destruct ok as (_ & _ & H3). pose proof length_l. unfold idx.
  apply (word_at (data ms ++ index_bytes l) _ []); [unfold Po2lmoSpec.image; by rewrite app_nil_r, <- app_assoc| |lia].
  rewrite image_len, length_app, length_index. lia.
Qed.
Lemma image_count : count bs = Z.of_nat (length l).
Proof. unfold count. rewrite image_len, image_idx. dlia. Qed.

Lemma image_field (i : nat) e :
  l !! i = Some e -> field bs (idx bs) (Z.of_nat i) 0 = key_id e /\ field bs (idx bs) (Z.of_nat i) 8 = e_offset e /\
    field bs (idx bs) (Z.of_nat i) 12 = e_length e.
Proof. intros Hi. rewrite image_idx. destruct (entry_at i e Hi) as [R _]. by apply field_index. Qed.

Lemma image_ordered : ordered bs (idx bs) (count bs).
Proof.
  rewrite image_count. intros i j Hij Hj.
  destruct (lookup_lt_is_Some_2 l (Z.to_nat i)) as [e Ei]; [lia|]. destruct (lookup_lt_is_Some_2 l (Z.to_nat j)) as [f Ej]; [lia|].
  replace i with (Z.of_nat (Z.to_nat i)) by lia. replace j with (Z.of_nat (Z.to_nat j)) by lia.
  destruct (image_field _ _ Ei) as (-> & _). destruct (image_field _ _ Ej) as (-> & _).
  destruct (decide (i = j)) as [->|Hne]; [rewrite Ei in Ej; by simplify_eq|].
  destruct (qsort_sorts (entries 0 ms)) as [_ S]. apply (sorted_lookup by_key _ S (Z.to_nat i) (Z.to_nat j)); [done|done|lia].
Qed.

Lemma image_valid : (exists m, m ∈ ms /\ kept m = true) -> valid bs.
Proof.
  intros (m & Hm & Hk). destruct (entries_complete schar ms 0 m Hm Hk) as (e & He & _). rewrite <- sorted_perm in He.
  assert (0 < length l)%nat by (destruct l; [by apply not_elem_of_nil in He|simpl; lia]).
  destruct ok as (_ & _ & H3). pose proof length_l. unfold valid. rewrite image_len, image_idx. lia.
Qed.

(** The texts of an archive lie inside it. *)
Lemma image_inside i : 0 <= i < count bs -> 0 <= field bs (idx bs) i 8 /\ 0 <= s32 (field bs (idx bs) i 12) /\
  field bs (idx bs) i 8 + s32 (field bs (idx bs) i 12) <= len bs.
Proof.
  intros Hi. destruct ok as (H1 & H2 & H3). rewrite image_count in Hi.
  destruct (Z_of_nat_complete i ltac:(lia)) as [j ->]. destruct (lookup_lt_is_Some_2 l j) as [e Ej]; [lia|].
  destruct (image_field _ _ Ej) as (_ & F2 & F3). rewrite F2, F3. destruct (entry_at _ _ Ej) as [_ He].
  destruct (entries_sound schar ms 0 e ltac:(lia) ltac:(lia) H1 He) as (R & O & Q & m & M1 & M2 & M3 & M4 & M5).
  rewrite Forall_forall in H1. destruct (H1 m M1) as (_ & _ & _ & N & _).
  rewrite M4 in *. rewrite s32_small by lia. apply (f_equal length) in M5. rewrite length_take, length_drop in M5.
  assert (0 < length m.2)%nat by (destruct m.2; [done|simpl; lia]). rewrite image_len. lia.
Qed.

(** A hash in the index is that of a key. *)
Lemma image_key i : 0 <= i < count bs -> exists m, m ∈ ms /\ kept m = true /\ field bs (idx bs) i 0 = sfh m.1.
Proof.
  intros Hi. destruct ok as (H1 & H2 & H3). rewrite image_count in Hi.
  destruct (Z_of_nat_complete i ltac:(lia)) as [j ->]. destruct (lookup_lt_is_Some_2 l j) as [e Ej]; [lia|].
  destruct (image_field _ _ Ej) as (F1 & _). rewrite F1. destruct (entry_at _ _ Ej) as [_ He].
  destruct (entries_sound schar ms 0 e ltac:(lia) ltac:(lia) H1 He) as (_ & _ & _ & m & M1 & M2 & M3 & _). eauto.
Qed.

(** The lookup of a key gives the value. *)
Lemma image_answer s r m :
  m ∈ ms -> kept m = true -> answer s [bs] (sfh m.1) r ->
  exists mp off, r = (0, Some (mp, off, Z.of_nat (length m.2))) /\ Lmo.maps s !! mp = Some bs /\
    take (length m.2) (drop (Z.to_nat off) bs) = m.2.
Proof.
  intros Hm Hk A. destruct ok as (H1 & H2 & H3). destruct (entries_complete schar ms 0 m Hm Hk) as (e & He & Hek).
  pose proof He as Hl. rewrite <- sorted_perm in Hl. apply list_elem_of_lookup_1 in Hl as (i & Hi). pose proof (lookup_lt_Some _ _ _ Hi) as Hlt.
  destruct A as [[_ A]|(pre & b & post & j & mp & A1 & A2 & A3 & A4 & A5 & ->)].
  - apply Forall_cons in A as [A _]. exfalso. apply (A image_ordered (Z.of_nat i)); [rewrite image_count; lia|].
    by destruct (image_field i e Hi) as (-> & _).
  - destruct pre as [|p [|]]; simpl in A1; try done. injection A1 as <- <-. rewrite image_count in A4.
    destruct (Z_of_nat_complete j ltac:(lia)) as [j' ->]. destruct (lookup_lt_is_Some_2 l j') as [f Ej]; [lia|].
    destruct (image_field _ _ Ej) as (F1 & F2 & F3). rewrite F1 in A5. rewrite F2, F3.
    destruct (entry_at _ _ Ej) as [_ Hf].
    assert (f = e) as -> by (apply (nodup_inj key_id (entries 0 ms)); [by rewrite entries_keys|done|done|congruence]).
    destruct (entries_sound schar ms 0 e ltac:(lia) ltac:(lia) H1 He) as (R & O & Q & m' & M1 & M2 & M3 & M4 & M5).
    assert (m' = m) as ->.
    { apply (nodup_inj (sfh ∘ fst) (filter (fun m => kept m = true) ms)); [done|by apply list_elem_of_filter..|]. simpl. congruence. }
    rewrite M4, s32_small by lia. exists mp, (e_offset e). split_and!; try done.
    rewrite Z.sub_0_r in M5. transitivity (take (length m.2) (drop (Z.to_nat (e_offset e)) (data ms))); [|exact M5].
    unfold Po2lmoSpec.image. pose proof (f_equal length M5) as Hd. rewrite length_take in Hd.
    destruct (decide (Z.to_nat (e_offset e) <= length (data ms))%nat) as [Hle|Hgt].
    + rewrite drop_app_le by done. by rewrite take_app_le by lia.
    + rewrite length_drop in Hd. assert (m.2 = []) as E0 by (apply nil_length_inv; lia). by rewrite E0.
Qed.
End facts.
End image.

(** * The theorems *)

(** A key without spaces to squeeze. *)
Definition canonical (k : list Z) : Prop := trim (squeeze 32 k) = k.

Lemma canonical_hash schar k : canonical k -> (length k < 4096)%nat -> lmo_canon_hash schar k = sfh_hash schar k.
Proof.
  intros H Hl. unfold lmo_canon_hash. replace (4096 <=? Z.of_nat (length k)) with false by lia. by rewrite H.
Qed.
Lemma msg_key m : msg_ok m -> (length m.1 < 4096)%nat.
Proof.
  intros (_ & _ & _ & _ & H & _). pose proof (length_escape m.1). unfold key_line, quoted, BUF in H. rewrite !length_app in H.
  cbn [length] in H. rewrite length_app in H. lia.
Qed.

(** Loading an archive alone makes its language the one in use. *)
Lemma load_alone wide schar file dir_of fnmatch name dir bs :
  (forall p x, file p = Some x -> file_ok x) -> LmoTheorems.short name ->
  LmoTheorems.found_in file dir_of fnmatch name dir = Some [bs] ->
  exists st, Lmo.lmo_load_catalog wide file dir_of fnmatch name dir (Lmo.init []) = Ok 0 st /\
    forall key, exists r, Lmo.lmo_translate schar (Some key) st = Ok r st /\ answer st [bs] (lmo_canon_hash schar key) r.
Proof.
  intros F S E. destruct (LmoTheorems.load_good wide schar file dir_of fnmatch F (LmoTheorems.mkLib [] None) (Lmo.init []) name dir
    (LmoTheorems.lmo_init_rep []) S) as (r & st & lb & L1 & L2 & L3).
  simpl in L2. destruct L2 as [(H & _)|[(_ & _ & _ & H)|(_ & -> & all & l & H1 & H2 & H3 & ->)]].
  - by apply not_elem_of_nil in H.
  - rewrite H in E; done.
  - exists st. split.
    + simpl in L1. unfold mbind, M_bind in L1. destruct (Lmo.lmo_load_catalog _ _ _ _ _ _ _) as [z s'| |]; try done.
      unfold mret, M_ret in L1. congruence.
    + intros key. destruct (LmoTheorems.translate_good schar file dir_of fnmatch _ st (Some key) L3) as (r & T1 & _ & T2). exists r. split; [done|].
      simpl in T2. destruct T2 as (l' & T2 & T3). apply list_elem_of_singleton in T2. injection T2 as ->.
      rewrite (H3 eq_refl) in T3. rewrite E in H1. injection H1 as <-. done.
Qed.

(** The converter returns 0 and writes the archive. *)
Lemma po_converts (schar : bool) (qsort : list lmo_entry -> list lmo_entry) (junk : list Z) (input output : string)
    (ms : list message) (s : fs) :
  sorts qsort -> po_ok schar ms -> quiet s -> files s !! input = Some (po ms) -> input <> output ->
  (input ∉ locked s) -> (output ∉ locked s) -> (exists m, m ∈ ms /\ kept schar m = true) ->
  main schar qsort junk [input; output] s = Ok 0 (put output (image schar qsort ms) s) /\ valid (image schar qsort ms).
Proof.
  intros Q P Hq Hi Hne L1 L2 Hk. pose proof P as (P1 & P2 & P3). split; [|by apply (image_valid schar qsort Q ms P)].
  rewrite (main_ok schar qsort junk input output ms) by (done || lia). rewrite (proj2 (Z.ltb_lt _ _)); [done|]. destruct Hk as (m & Hm & Hk).
  rewrite Forall_forall in P1. pose proof (P1 m Hm) as (_ & _ & _ & N & _).
  assert (data schar ms <> []) as Hd; [|destruct (data schar ms); [done|simpl; lia]]. clear - Hm Hk N.
  induction ms as [|m' ms IH]; [by apply not_elem_of_nil in Hm|]. simpl. apply elem_of_cons in Hm as [->|Hm].
  - rewrite Hk. unfold padded. by destruct m'.2.
  - intros [_ H]%app_nil. by apply IH.
Qed.

(** C17: what the message catalog says is what the lookup gives.  The converter returns 0 and writes an
    archive; when the web interface loads it, looking up the key of a message that was kept returns a pointer
    to its value in the mapped file.  Keys and values are single lines of less than 4 KB, of any bytes but NUL and newline,
    quotes and backslashes escaped; a message is kept when its key and its value have different hashes, and no two kept keys
    have the same hash; the key that is looked up is canonical: no two spaces in a row and none at the ends.  (A key with such
    spaces is kept but never found: [po2lmo_departs].) *)
Theorem lmo_roundtrip (wide schar : bool) (qsort : list lmo_entry -> list lmo_entry) (junk : list Z) (input output : string)
    (ms : list message) (s : fs) :
  sorts qsort -> po_ok schar ms -> quiet s -> files s !! input = Some (po ms) -> input <> output ->
  (input ∉ locked s) -> (output ∉ locked s) -> (exists m, m ∈ ms /\ kept schar m = true) ->
  exists s' bs, main schar qsort junk [input; output] s = Ok 0 s' /\ files s' !! output = Some bs /\ valid bs /\
    forall file dir_of fnmatch name dir,
      (forall p x, file p = Some x -> file_ok x) -> LmoTheorems.short name ->
      LmoTheorems.found_in file dir_of fnmatch name dir = Some [bs] ->
      exists st, Lmo.lmo_load_catalog wide file dir_of fnmatch name dir (Lmo.init []) = Ok 0 st /\
        forall k v, (k, v) ∈ ms -> kept schar (k, v) = true -> canonical k ->
          exists mp off, Lmo.lmo_translate schar (Some k) st = Ok (0, Some (mp, off, Z.of_nat (length v))) st /\
            Lmo.maps st !! mp = Some bs /\ take (length v) (drop (Z.to_nat off) bs) = v.
Proof.
  intros Q P Hq Hi Hne L1 L2 Hk. pose proof P as (P1 & P2 & P3).
  destruct (po_converts schar qsort junk input output ms s) as [C1 C2]; [done..|].
  exists (put output (image schar qsort ms) s), (image schar qsort ms). split_and!; [done| |done|].
  - apply files_put.
  - intros file dir_of fnmatch name dir F S E. destruct (load_alone wide schar file dir_of fnmatch name dir _ F S E) as (st & T1 & T2).
    exists st. split; [done|]. intros k v Hm Hkm Hc. destruct (T2 k) as (r & R1 & R2). rewrite Forall_forall in P1.
    rewrite canonical_hash in R2 by (done || apply (msg_key (k, v)), P1; done).
    destruct (image_answer schar qsort Q ms P st r (k, v) Hm Hkm R2) as (mp & off & -> & M1 & M2). by exists mp, off.
Qed.

(** ** A catalog *)

#[export] Instance by_key_dec a b : Decision (by_key a b).
Proof. unfold by_key. apply _. Defined.
Definition sort_entries : list lmo_entry -> list lmo_entry := merge_sort by_key.
Lemma sort_sorts : sorts sort_entries.
Proof.
  intros l. split; [apply merge_sort_Permutation|]. apply Sorted_StronglySorted; [intros a b c; unfold by_key; lia|].
  apply Sorted_merge_sort. intros a b. unfold by_key. lia.
Qed.

#[export] Instance plain_dec s : Decision (plain s).
Proof. unfold plain. apply _. Defined.
#[export] Instance msg_ok_dec m : Decision (msg_ok m).
Proof. unfold msg_ok. apply _. Defined.
#[export] Instance po_ok_dec schar ms : Decision (po_ok schar ms).
Proof. unfold po_ok. apply _. Defined.

Definition demo_messages : list message :=
  [(bytes "Save", bytes "Sichern"); (bytes "Home page", [34] ++ bytes "Start" ++ [34])].
Definition disk (text : list Z) : fs := mkFs {["base.po"%string := text]} ∅ [].
Definition one_file (bs : list Z) (name : string) : option (list Z) :=
  if String.eqb name "i18n/base.de.lmo" then Some bs else None.

Lemma lmo_roundtrip_witness :
  exists s' bs, main true sort_entries zeros ["base.po"%string; "base.de.lmo"%string] (disk (po demo_messages)) = Ok 0 s' /\
    files s' !! "base.de.lmo"%string = Some bs /\
    exists st, Lmo.lmo_load_catalog true (one_file bs) LmoTheorems.demo_dir LmoTheorems.demo_match "de" (Some "i18n"%string) (Lmo.init []) = Ok 0 st /\
      exists mp off, Lmo.lmo_translate true (Some (bytes "Save")) st = Ok (0, Some (mp, off, 7)) st /\
        take 7 (drop (Z.to_nat off) bs) = bytes "Sichern".
Proof.
  destruct (lmo_roundtrip true true sort_entries zeros "base.po" "base.de.lmo" demo_messages (disk (po demo_messages))) as (s' & bs & H1 & H2 & H3 & H4).
  - exact sort_sorts.
  - apply (bool_decide_unpack (po_ok true demo_messages)). vm_compute. exact I.
  - reflexivity.
  - reflexivity.
  - discriminate.
  - apply not_elem_of_empty.
  - apply not_elem_of_empty.
  - exists (bytes "Save", bytes "Sichern"). split; [by left|]. vm_compute. reflexivity.
  - exists s', bs. split; [exact H1|]. split; [exact H2|].
    destruct (H4 (one_file bs) LmoTheorems.demo_dir LmoTheorems.demo_match "de"%string (Some "i18n"%string)) as (st & L1 & L2).
    + intros p x. unfold one_file. destruct (String.eqb _ _); [|discriminate]. intros [= <-]. right. right. exact H3.
    + unfold LmoTheorems.short. simpl. lia.
    + unfold LmoTheorems.found_in. simpl. unfold LmoCatalog.wanted. simpl. rewrite decide_True by exact H3. reflexivity.
    + exists st. split; [exact L1|]. destruct (L2 (bytes "Save") (bytes "Sichern")) as (mp & off & T1 & _ & T2).
      * by left.
      * vm_compute. reflexivity.
      * vm_compute. reflexivity.
      * exists mp, off. split; [exact T1|exact T2].
Defined.

(** Where the converter and the lookup disagree with a message catalog.  A key with two spaces in a row
    is hashed as it is by the converter and squeezed by the lookup, which does not find it.  The second
    line of a key whose first line is not empty is taken for the value. *)
Theorem po2lmo_departs :
  (exists s' bs, main true sort_entries zeros ["base.po"%string; "base.de.lmo"%string] (disk (po [(bytes "Go  on", bytes "Weiter")])) = Ok 0 s' /\
     files s' !! "base.de.lmo"%string = Some bs /\
     exists st, (Lmo.lmo_load_catalog true (one_file bs) LmoTheorems.demo_dir LmoTheorems.demo_match "de" (Some "i18n"%string);;
                 Lmo.lmo_translate true (Some (bytes "Go  on"))) (Lmo.init []) = Ok (-1, None) st) /\
  (exists s', main true sort_entries zeros ["base.po"%string; "base.de.lmo"%string]
       (disk (bytes "msgid " ++ quoted (bytes "Save ") ++ [10] ++ quoted (bytes "all") ++ [10] ++ val_line (bytes "Alles") ++ [10])) = Ok 0 s' /\
     files s' !! "base.de.lmo"%string = Some (image true sort_entries [(bytes "Save ", bytes "allAlles")])).
Proof.
  split.
  - eexists _, _. split; [vm_compute; reflexivity|]. split; [vm_compute; reflexivity|]. eexists. vm_compute. reflexivity.
  - eexists. split; vm_compute; reflexivity.
Qed.
End Po2lmoTheorems.
