(* ===== verification/TplUtils.v ===== *)
(** The text helpers of the web interface, [luci/luci-base/src/template_utils.c]:
    growing buffers, sanitised UTF-8, escaped and stripped markup, and the escapes of
    Lua string literals.

    A buffer is the block it owns, its size and fill, and the offset of [dptr].  The
    bytes of a fresh block are arbitrary.  The process counts its live heap blocks;
    whether a call of [malloc] or [realloc] fails is a parameter.  Characters are
    classified as in the C locale. *)

From Stdlib Require Import ZArith Lia Ascii String.
From stdpp Require Import base list list_numbers numbers gmap.
From S2P Require Import Prelude Lmo.

Open Scope list_scope.
Open Scope Z_scope.

Module TplUtils.

(** * The process *)

Record env := mkEnv { oom : nat -> bool; junk : Z }.

(** Live heap blocks, allocations so far, open descriptors and mappings of templates, and the
    loaded catalogs. *)
Record world := mkWorld {
  blocks : Z;
  allocs : nat;
  tfds : Z;
  tmaps : Z;
  lmo : Lmo.st
}.
#[export] Instance eta_world : Eta world := fun w =>
  mkWorld (blocks w) (allocs w) (tfds w) (tmaps w) (lmo w).

(** [struct template_buffer] *)
Record template_buffer := mkBuf { data : list Z; dptr : Z; size : Z; fill : Z }.
#[export] Instance eta_buf : Eta template_buffer := fun b => mkBuf (data b) (dptr b) (size b) (fill b).

(** Text constants. *)
Definition lit (s : string) : list Z := map (fun c => Z.of_N (N_of_ascii c)) (list_ascii_of_string s).

Section environment.
Context (E : env).

Definition alloc : M world bool :=
  w ← get; modify (fun w => w <| allocs ::= S |>);; mret (negb (oom E (allocs w))).
Definition malloc : M world bool :=
  ok ← alloc; (if (ok : bool) then modify (fun w => w <| blocks ::= Z.add 1 |>) else mret tt);; mret ok.
Definition free : M world unit := modify (fun w => w <| blocks ::= Z.add (-1) |>).

(** * Buffers *)

(** A write to the block of a buffer. *)
Definition put (b : template_buffer) (pos : Z) (l : list Z) : M world template_buffer :=
  if (0 <=? pos) && (pos + Z.of_nat (length l) <=? Z.of_nat (length (data b)))
  then mret (b <| data ::= list_inserts (Z.to_nat pos) l |>) else undef.

Definition buf_init (n : Z) : M world (option template_buffer) :=
  let n := if n <=? 0 then 1024 else n in
  ok ← malloc;
  if (ok : bool) then
    ok ← malloc;
    if (ok : bool) then
      b ← put (mkBuf (repeat (junk E) (Z.to_nat n)) 0 n 0) 0 [0];
      mret (Some b)
    else free;; mret None
  else mret None.

(** [buf_grow]: the old bytes are kept, the sum of the sizes is unsigned. *)
Definition buf_grow (b : template_buffer) (n : Z) : M world (template_buffer * Z) :=
  let n := if n <=? 0 then 1024 else n in
  ok ← alloc;
  if (ok : bool) then
    let sz := u32 (size b + n) in
    mret (mkBuf (take (Z.to_nat sz) (data b ++ repeat (junk E) (Z.to_nat sz - length (data b))))
                (dptr b) sz (fill b), sz)
  else mret (b, 0).

Definition buf_putchar (b : template_buffer) (c : Z) : M world (template_buffer * bool) :=
  r ← (if u32 (fill b + 1) >=? size b then
         '(b, g) ← buf_grow b 0; mret (b, negb (g =? 0))
       else mret (b, true));
  let '(b, ok) := r in
  if (ok : bool) then
    b ← put b (dptr b) [c];
    let b := b <| dptr ::= Z.add 1 |> in
    b ← put b (dptr b) [0];
    mret (b <| fill ::= fun f => u32 (f + 1) |>, true)
  else mret (b, false).

(** [buf_append] of [len] bytes at [s]; a negative length is a huge [size_t]. *)
Definition buf_append (b : template_buffer) (s : list Z) (len : Z) : M world (template_buffer * Z) :=
  r ← (if u32 (fill b + len + 1) >=? size b then
         '(b, g) ← buf_grow b (len + 1); mret (b, negb (g =? 0))
       else mret (b, true));
  let '(b, ok) := r in
  if (ok : bool) then
    if (0 <=? len) && (len <=? Z.of_nat (length s)) then
      b ← put b (dptr b) (take (Z.to_nat len) s);
      let b := b <| fill ::= fun f => u32 (f + len) |> <| dptr ::= Z.add len |> in
      b ← put b (dptr b) [0];
      mret (b, len)
    else undef
  else mret (b, 0).

Definition buf_length (b : template_buffer) : Z := s32 (fill b).

(** [buf_destroy]: the block of the data stays. *)
Definition buf_destroy (b : template_buffer) : M world (list Z) := free;; mret (data b).

(** * UTF-8 *)

Definition mb_num_chars (c : Z) : Z :=
  if Z.land c 224 =? 192 then 2
  else if Z.land c 240 =? 224 then 3
  else if Z.land c 248 =? 240 then 4
  else if Z.land c 252 =? 248 then 5
  else if Z.land c 254 =? 252 then 6
  else 1.

Definition mb_is_cont (c : Z) : bool := (128 <=? c) && (c <=? 191).

(** [s[i]]; the sequence has [n] bytes. *)
Definition at_ (s : list Z) (i : nat) : Z := nth i s 0.
Definition tail_ok (s : list Z) (i : nat) : bool := Z.shiftr (at_ s i) 6 =? 2.

Definition mb_is_shortest (s : list Z) (n : Z) : bool :=
  match n with
  | 2 => negb ((Z.shiftr (at_ s 0) 1 =? 96) && tail_ok s 1)
  | 3 => negb ((at_ s 0 =? 224) && (Z.shiftr (at_ s 1) 5 =? 4) && tail_ok s 2)
  | 4 => negb ((at_ s 0 =? 240) && (Z.shiftr (at_ s 1) 4 =? 8) && tail_ok s 2 && tail_ok s 3)
  | 5 => negb ((at_ s 0 =? 248) && (Z.shiftr (at_ s 1) 3 =? 16) && tail_ok s 2 && tail_ok s 3 &&
               tail_ok s 4)
  | 6 => negb ((at_ s 0 =? 248) && (Z.shiftr (at_ s 1) 2 =? 32) && tail_ok s 2 && tail_ok s 3 &&
               tail_ok s 4 && tail_ok s 5)
  | _ => true
  end.

Definition mb_is_surrogate (s : list Z) (n : Z) : bool :=
  (n =? 3) && (at_ s 0 =? 237) && (160 <=? at_ s 1) && (at_ s 1 <=? 191).

Definition mb_is_illegal (s : list Z) (n : Z) : bool :=
  (n =? 3) && (at_ s 0 =? 239) && (at_ s 1 =? 191) && (190 <=? at_ s 2) && (at_ s 2 <=? 191).

(** The loop that counts: [v] bytes are passed, [rest] is what follows them. *)
Fixpoint count_cont (rest : list Z) (v n : Z) : Z :=
  match rest with
  | c :: rest => if (v <=? n) && mb_is_cont c then count_cont rest (v + 1) n else v
  | [] => v
  end.

(** [_validate_utf8] on the bytes that are left, at least one: how many were taken, zero
    when the buffer cannot grow. *)
Definition validate_utf8 (ptr : list Z) (b : template_buffer) : M world (template_buffer * Z) :=
  match ptr with
  | [] => undef
  | c :: rest =>
      if (1 <=? c) && (c <=? 127) then
        '(b, ok) ← buf_putchar b c; mret (b, if (ok : bool) then 1 else 0)
      else
        let n := mb_num_chars c in
        if 1 <? n then
          let v := count_cont rest 1 n in
          '(b, ok) ←
            (if (n =? 6) || (n =? 5) then buf_putchar b 63
             else if (v =? n) && mb_is_shortest ptr n && negb (mb_is_surrogate ptr n) &&
                     negb (mb_is_illegal ptr n)
             then '(b, r) ← buf_append b ptr n; mret (b, negb (r =? 0))
             else buf_putchar b 63);
          mret (b, if (ok : bool) then v else 0)
        else
          '(b, ok) ← buf_putchar b 63; mret (b, if (ok : bool) then 1 else 0)
  end.

(** The loops over the input take at least one byte per round, so its length bounds
    the rounds. *)
Fixpoint utf8_loop (fuel : nat) (ptr : list Z) (b : template_buffer) : M world template_buffer :=
  match fuel, ptr with
  | _, [] => mret b
  | O, _ => undef
  | S fuel, c :: rest =>
      if (1 <=? c) && (c <=? 127) then
        '(b, ok) ← buf_putchar b c;
        if (ok : bool) then utf8_loop fuel rest b else mret b
      else
        '(b, v) ← validate_utf8 ptr b;
        if v =? 0 then mret b else utf8_loop fuel (drop (Z.to_nat v) ptr) b
  end.

Definition utf8 (s : list Z) : M world (option (list Z)) :=
  b ← buf_init (s32 (Z.of_nat (length s)));
  match b with
  | None => mret None
  | Some b => b ← utf8_loop (length s) s b; d ← buf_destroy b; mret (Some d)
  end.

(** * Markup *)

(** [snprintf(esq, sizeof(esq), "&#%i;", c)] for two-digit characters. *)
Definition entity (c : Z) : list Z := lit "&#" ++ [48 + c / 10; 48 + c mod 10] ++ lit ";".

Definition invalid_xml (c : Z) : bool :=
  ((0 <=? c) && (c <=? 8)) || ((11 <=? c) && (c <=? 12)) || ((14 <=? c) && (c <=? 31)) || (c =? 127).
Definition is_markup (c : Z) : bool :=
  (c =? 38) || (c =? 39) || (c =? 34) || (c =? 60) || (c =? 62).

Fixpoint pcdata_loop (fuel : nat) (ptr : list Z) (b : template_buffer) : M world template_buffer :=
  match fuel, ptr with
  | _, [] => mret b
  | O, _ => undef
  | S fuel, c :: rest =>
      if invalid_xml c then pcdata_loop fuel rest b
      else if is_markup c then
        '(b, r) ← buf_append b (entity c) (Z.of_nat (length (entity c)));
        if r =? 0 then mret b else pcdata_loop fuel rest b
      else if c <=? 127 then
        '(b, _) ← buf_putchar b c; pcdata_loop fuel rest b
      else
        '(b, v) ← validate_utf8 ptr b;
        if v =? 0 then mret b else pcdata_loop fuel (drop (Z.to_nat v) ptr) b
  end.

Definition pcdata (s : list Z) : M world (option (list Z)) :=
  b ← buf_init (s32 (Z.of_nat (length s)));
  match b with
  | None => mret None
  | Some b => b ← pcdata_loop (length s) s b; d ← buf_destroy b; mret (Some d)
  end.

Definition isspace (c : Z) : bool := (c =? 32) || ((9 <=? c) && (c <=? 13)).
Definition isalpha (c : Z) : bool := ((65 <=? c) && (c <=? 90)) || ((97 <=? c) && (c <=? 122)).

(** The text behind the next ['>']. *)
Fixpoint behind_tag (l : list Z) : option (list Z) :=
  match l with
  | [] => None
  | c :: l => if c =? 62 then Some l else behind_tag l
  end.

(** A ['<'] that starts a tag, with two more characters behind it. *)
Definition opens_tag (l : list Z) : bool :=
  match l with
  | c :: d :: _ :: _ => (c =? 60) && ((d =? 47) || isalpha d)
  | _ => false
  end.

Fixpoint striptags_loop (fuel : nat) (ptr : list Z) (prev : Z) (b : template_buffer)
    : M world template_buffer :=
  match fuel, ptr with
  | _, [] => mret b
  | O, _ => undef
  | S fuel, c :: rest =>
      if opens_tag ptr then
        match behind_tag ptr with
        | Some rest =>
            '(b, _) ← (if isspace prev then mret (b, true) else buf_putchar b 32);
            striptags_loop fuel rest 32 b
        | None => striptags_loop fuel rest prev b
        end
      else if isspace c then
        '(b, _) ← (if isspace prev then mret (b, true) else buf_putchar b c);
        striptags_loop fuel rest c b
      else if is_markup c then
        '(b, _) ← buf_append b (entity c) (Z.of_nat (length (entity c)));
        striptags_loop fuel rest c b
      else
        '(b, _) ← buf_putchar b c; striptags_loop fuel rest c b
  end.

(** [striptags] does not test the buffer. *)
Definition striptags (s : list Z) : M world (list Z) :=
  b ← buf_init (s32 (Z.of_nat (length s)));
  match b with
  | None => undef
  | Some b => b ← striptags_loop (length s) s 32 b; buf_destroy b
  end.

(** * Lua *)

(** One character of [luastr_escape]; what cannot be appended is left out. *)
Definition escape_char (b : template_buffer) (c : Z) (escape_xml : bool) : M world template_buffer :=
  if c =? 92 then '(b, _) ← buf_append b [92; 92] 2; mret b
  else if c =? 34 then
    if escape_xml then '(b, _) ← buf_append b (lit "&#34;") 5; mret b
    else '(b, _) ← buf_append b [92; 34] 2; mret b
  else if c =? 10 then '(b, _) ← buf_append b [92; 110] 2; mret b
  else if ((c =? 39) || (c =? 38) || (c =? 60) || (c =? 62)) && escape_xml then
    '(b, _) ← buf_append b (entity c) (Z.of_nat (length (entity c))); mret b
  else '(b, _) ← buf_putchar b c; mret b.

Fixpoint luastr_escape (b : template_buffer) (s : list Z) (escape_xml : bool) : M world template_buffer :=
  match s with
  | [] => mret b
  | c :: s => b ← escape_char b c escape_xml; luastr_escape b s escape_xml
  end.

(** The catalogs are read only. *)
Definition translate (schar : bool) (key : list Z) : M world (Z * option (list Z)) :=
  w ← get;
  match Lmo.lmo_translate schar (Some key) (lmo w) with
  | Ok (r, None) _ => mret (r, None)
  | Ok (r, Some (m, off, len)) s =>
      bs ← lift (Lmo.maps s !! m);
      if (0 <=? off) && (0 <=? len) && (off + len <=? Z.of_nat (length bs))
      then mret (r, Some (take (Z.to_nat len) (drop (Z.to_nat off) bs))) else undef
  | _ => undef
  end.

Definition luastr_translate (schar : bool) (b : template_buffer) (s : list Z) (escape_xml : bool)
    : M world template_buffer :=
  r ← translate schar s;
  match r with
  | (0, Some tr) => luastr_escape b tr escape_xml
  | (0, None) => undef
  | _ => luastr_escape b s escape_xml
  end.

End environment.
End TplUtils.
