(* ===== verification/TplUtf8.v ===== *)
(** UTF-8 as the text helpers see it: the encoding of code points, the pure part of
    the sanitiser, that its result encodes code points, and that it leaves encoded text
    alone. *)

From Stdlib Require Import ZArith Lia Ascii String.
From stdpp Require Import base list list_numbers numbers.
From S2P Require Import Prelude TplUtils.

Open Scope list_scope.
Open Scope Z_scope.

Module TplUtf8.
Import TplUtils.

(** * Code points *)

(** The encoding of RFC 3629 (which ends at U+10FFFF). *)
Definition encode (cp : Z) : list Z :=
  if cp <? 128 then [cp]
  else if cp <? 2048 then [192 + cp / 64; 128 + cp mod 64]
  else if cp <? 65536 then [224 + cp / 4096; 128 + cp / 64 mod 64; 128 + cp mod 64]
  else [240 + cp / 262144; 128 + cp / 4096 mod 64; 128 + cp / 64 mod 64; 128 + cp mod 64].
Definition encode_all (cps : list Z) : list Z := concat (map encode cps).

(** Code points that pass: no NUL, no surrogate, not U+FFFE and U+FFFF, up to 21 bits. *)
Definition passes (cp : Z) : Prop :=
  0 < cp < 2097152 /\ ~ (55296 <= cp <= 57343) /\ cp <> 65534 /\ cp <> 65535.

Definition bytes (l : list Z) : Prop := Forall (fun b => 0 <= b < 256) l.

(** * One step *)

(** What is written for the sequence at the front, and how many bytes it takes. *)
Definition step (l : list Z) : list Z * Z :=
  match l with
  | [] => ([], 0)
  | c :: rest =>
      if (1 <=? c) && (c <=? 127) then ([c], 1)
      else
        let n := mb_num_chars c in
        if 1 <? n then
          let v := count_cont rest 1 n in
          (if (n =? 6) || (n =? 5) then [63]
           else if (v =? n) && mb_is_shortest l n && negb (mb_is_surrogate l n) && negb (mb_is_illegal l n)
           then take (Z.to_nat n) l else [63], v)
        else ([63], 1)
  end.

Fixpoint sanitize (fuel : nat) (l : list Z) : list Z :=
  match fuel, l with
  | S fuel, _ :: _ => (step l).1 ++ sanitize fuel (drop (Z.to_nat (step l).2) l)
  | _, _ => []
  end.

Lemma num_chars_spec c : 0 <= c < 256 ->
  mb_num_chars c = if (192 <=? c) && (c <=? 223) then 2 else if (224 <=? c) && (c <=? 239) then 3
    else if (240 <=? c) && (c <=? 247) then 4 else if (248 <=? c) && (c <=? 251) then 5
    else if (252 <=? c) && (c <=? 253) then 6 else 1.
Proof.
  intros H. apply Z.eqb_eq. revert c H.
  by apply (byte_cases (fun c => mb_num_chars c =? if (192 <=? c) && (c <=? 223) then 2
    else if (224 <=? c) && (c <=? 239) then 3 else if (240 <=? c) && (c <=? 247) then 4
    else if (248 <=? c) && (c <=? 251) then 5 else if (252 <=? c) && (c <=? 253) then 6 else 1)); vm_compute.
Qed.

Lemma count_bounds rest : forall v n, v <= count_cont rest v n <= v + Z.of_nat (length rest).
Proof.
  induction rest as [|c rest IH]; intros v n; simpl; [lia|].
  destruct (_ && _); [|lia]. specialize (IH (v + 1) n). lia.
Qed.

(** All bytes that were counted are continuation bytes. *)
Lemma count_conts rest : forall v n k, v + Z.of_nat k <= count_cont rest v n ->
  Forall (fun c => 128 <= c <= 191) (take k rest) /\ (k <= length rest)%nat.
Proof.
  induction rest as [|c rest IH]; intros v n [|k] H; cbn [count_cont take] in *.
  - split; [apply Forall_nil_2|simpl; lia].
  - lia.
  - split; [apply Forall_nil_2|simpl; lia].
  - destruct ((v <=? n) && mb_is_cont c) eqn:E; [|lia].
    destruct (IH (v + 1) n k ltac:(lia)) as [H1 H2]. split; [|simpl; lia].
    constructor; [|done]. unfold mb_is_cont in E. lia.
Qed.

(** A full sequence, and nothing that continues it, is counted exactly. *)
Lemma count_exact cs rest : forall v n, Forall (fun c => 128 <= c <= 191) cs ->
  v + Z.of_nat (length cs) = n ->
  (match rest with c :: _ => mb_is_cont c = false | [] => True end) ->
  count_cont (cs ++ rest) v n = n.
Proof.
  induction cs as [|c cs IH]; intros v n Hc Hn Hr; simpl in Hn |- *.
  - destruct rest as [|c rest]; cbn [count_cont]; [lia|]. rewrite Hr, andb_false_r. lia.
  - apply Forall_cons_1 in Hc as [H1 Hc]. unfold mb_is_cont.
    replace ((v <=? n) && ((128 <=? c) && (c <=? 191))) with true by lia. apply IH; [done|lia|done].
Qed.

Lemma step_takes c rest : 1 <= (step (c :: rest)).2 <= Z.of_nat (S (length rest)).
Proof.
  cbn [step]. destruct (_ && _); [simpl; lia|]. destruct (1 <? _); [|simpl; lia].
  pose proof (count_bounds rest 1 (mb_num_chars c)). simpl. lia.
Qed.

(** * The result is encoded *)

Lemma shiftr_iff a k x : 0 <= k -> Z.shiftr a k = x <-> x * 2 ^ k <= a < (x + 1) * 2 ^ k.
Proof.
  intros Hk. rewrite Z.shiftr_div_pow2 by done. pose proof (Z.pow_pos_nonneg 2 k ltac:(lia) Hk).
  split; intros H'.
  - pose proof (Z.div_mod a (2 ^ k) ltac:(lia)). pose proof (Z.mod_pos_bound a (2 ^ k) ltac:(lia)). nia.
  - symmetry. apply (Z.div_unique_pos a (2 ^ k) x (a - x * 2 ^ k)); lia.
Qed.

Lemma encode_two a b : 194 <= a <= 223 -> 128 <= b <= 191 ->
  exists cp, passes cp /\ encode cp = [a; b].
Proof.
  intros Ha Hb. exists ((a - 192) * 64 + (b - 128)). unfold passes, encode.
  replace (_ <? 128) with false by lia. replace (_ <? 2048) with true by lia.
  split; [lia|]. f_equal; [|f_equal]; dlia.
Qed.

Lemma encode_three a b c : 224 <= a <= 239 -> 128 <= b <= 191 -> 128 <= c <= 191 ->
  ~ (a = 224 /\ b <= 159) -> ~ (a = 237 /\ 160 <= b) -> ~ (a = 239 /\ b = 191 /\ 190 <= c) ->
  exists cp, passes cp /\ encode cp = [a; b; c].
Proof.
  intros Ha Hb Hc H1 H2 H3. exists ((a - 224) * 4096 + (b - 128) * 64 + (c - 128)). unfold passes, encode.
  replace (_ <? 128) with false by lia. replace (_ <? 2048) with false by lia.
  replace (_ <? 65536) with true by lia. split; [lia|]. f_equal; [|f_equal; [|f_equal]]; dlia.
Qed.

Lemma encode_four a b c d : 240 <= a <= 247 -> 128 <= b <= 191 -> 128 <= c <= 191 -> 128 <= d <= 191 ->
  ~ (a = 240 /\ b <= 143) -> exists cp, passes cp /\ encode cp = [a; b; c; d].
Proof.
  intros Ha Hb Hc Hd H1. exists ((a - 240) * 262144 + (b - 128) * 4096 + (c - 128) * 64 + (d - 128)).
  unfold passes, encode.
  replace (_ <? 128) with false by lia. replace (_ <? 2048) with false by lia.
  replace (_ <? 65536) with false by lia. split; [lia|].
  f_equal; [|f_equal; [|f_equal; [|f_equal]]]; dlia.
Qed.

Lemma passes_ascii c : 1 <= c <= 127 -> passes c /\ encode c = [c].
Proof. intros H. unfold passes, encode. replace (c <? 128) with true by lia. split; [lia|done]. Qed.

(** The tests on a sequence, as ranges. *)
Lemma shortest_two a b : mb_is_shortest [a; b] 2 = true -> 192 <= a -> 128 <= b <= 191 -> 194 <= a.
Proof.
  unfold mb_is_shortest, tail_ok, at_. cbn [nth]. intros H Ha Hb.
  destruct (Z.shiftr a 1 =? 96) eqn:E1; [|apply Z.eqb_neq in E1; rewrite shiftr_iff in E1 by lia; lia].
  assert (Z.shiftr b 6 = 2) as E2 by (apply shiftr_iff; lia). rewrite E2 in H. done.
Qed.

Lemma shortest_three a b c : mb_is_shortest [a; b; c] 3 = true -> 128 <= b <= 191 -> 128 <= c <= 191 ->
  ~ (a = 224 /\ b <= 159).
Proof.
  unfold mb_is_shortest, tail_ok, at_. cbn [nth]. intros H Hb Hc [-> Hb'].
  assert (Z.shiftr b 5 = 4) as E1 by (apply shiftr_iff; lia).
  assert (Z.shiftr c 6 = 2) as E2 by (apply shiftr_iff; lia). rewrite E1, E2 in H. done.
Qed.

Lemma shortest_four a b c d : mb_is_shortest [a; b; c; d] 4 = true -> 128 <= b <= 191 ->
  128 <= c <= 191 -> 128 <= d <= 191 -> ~ (a = 240 /\ b <= 143).
Proof.
  unfold mb_is_shortest, tail_ok, at_. cbn [nth]. intros H Hb Hc Hd [-> Hb'].
  assert (Z.shiftr b 4 = 8) as E1 by (apply shiftr_iff; lia).
  assert (Z.shiftr c 6 = 2) as E2 by (apply shiftr_iff; lia).
  assert (Z.shiftr d 6 = 2) as E3 by (apply shiftr_iff; lia). rewrite E1, E2, E3 in H. done.
Qed.

(** The tests only look at the sequence. *)
Lemma tests_take l n : 2 <= n <= 4 -> n <= Z.of_nat (length l) ->
  mb_is_shortest l n = mb_is_shortest (take (Z.to_nat n) l) n /\
  mb_is_surrogate l n = mb_is_surrogate (take (Z.to_nat n) l) n /\
  mb_is_illegal l n = mb_is_illegal (take (Z.to_nat n) l) n.
Proof.
  intros Hn Hl. assert (n = 2 \/ n = 3 \/ n = 4) as [->|[->| ->]] by lia;
    destruct l as [|a [|b l]]; simpl in Hl; try lia; [done|..];
    destruct l as [|c l]; simpl in Hl; try lia; [done|];
    destruct l as [|d l]; simpl in Hl; try lia; done.
Qed.

Lemma step_encodes c rest : bytes (c :: rest) ->
  exists cp, passes cp /\ (step (c :: rest)).1 = encode cp.
Proof.
  intros [Hc Hr]%Forall_cons_1.
  assert (exists cp, passes cp /\ [63] = encode cp) as Q.
  { exists 63. destruct (passes_ascii 63 ltac:(lia)). done. }
  cbn [step]. destruct ((1 <=? c) && (c <=? 127)) eqn:Ea.
  { exists c. destruct (passes_ascii c ltac:(lia)). done. }
  destruct (1 <? mb_num_chars c) eqn:E1; [|exact Q]. cbn [fst].
  destruct ((_ =? 6) || (_ =? 5)) eqn:E56; [exact Q|].
  destruct (_ && _ && _ && _) eqn:Ev; [|exact Q].
  rewrite !andb_true_iff, !negb_true_iff in Ev. destruct Ev as [[[Ev Es] Eu] Ei]. apply Z.eqb_eq in Ev.
  set (n := mb_num_chars c) in *. pose proof (num_chars_spec c Hc) as En. fold n in En.
  destruct (count_conts rest 1 n (Z.to_nat (n - 1))) as [Hct Hl].
  { rewrite Ev. assert (1 <= n) by (pose proof (count_bounds rest 1 n); lia). lia. }
  assert (2 <= n <= 4) as Hn.
  { clear - E1 E56 En. repeat case_match; lia. }
  destruct (tests_take (c :: rest) n Hn ltac:(simpl length; lia)) as (T1 & T2 & T3).
  rewrite T1 in Es. rewrite T2 in Eu. rewrite T3 in Ei. clear T1 T2 T3.
  assert (n = 2 \/ n = 3 \/ n = 4) as Hcase by lia. clearbody n.
  destruct Hcase as [->|[->| ->]]; [change (Z.to_nat 2) with 2%nat in *|
    change (Z.to_nat 3) with 3%nat in *|change (Z.to_nat 4) with 4%nat in *].
  - destruct rest as [|b rest]; simpl in Hl; [lia|]. cbn [take] in *.
    apply Forall_cons_1 in Hct as [Hb _].
    assert (192 <= c <= 223) as Hc2 by (repeat (case_match; try lia)).
    pose proof (shortest_two c b Es ltac:(lia) Hb).
    destruct (encode_two c b ltac:(lia) Hb) as (cp & P & Ee). exists cp. split; [done|exact (eq_sym Ee)].
  - destruct rest as [|b [|d rest]]; simpl in Hl; try lia. cbn [take] in *.
    apply Forall_cons_1 in Hct as [Hb Hct]. apply Forall_cons_1 in Hct as [Hd _].
    assert (224 <= c <= 239) as Hc2 by (repeat (case_match; try lia)).
    pose proof (shortest_three c b d Es Hb Hd).
    unfold mb_is_surrogate, mb_is_illegal, at_ in Eu, Ei. cbn [nth] in Eu, Ei.
    destruct (encode_three c b d Hc2 Hb Hd) as (cp & P & Ee); [done|lia|lia|]. exists cp. split; [done|exact (eq_sym Ee)].
  - destruct rest as [|b [|d [|e rest]]]; simpl in Hl; try lia. cbn [take] in *.
    apply Forall_cons_1 in Hct as [Hb Hct]. apply Forall_cons_1 in Hct as [Hd Hct].
    apply Forall_cons_1 in Hct as [He _].
    assert (240 <= c <= 247) as Hc2 by (repeat (case_match; try lia)).
    pose proof (shortest_four c b d e Es Hb Hd He).
    destruct (encode_four c b d e Hc2 Hb Hd He) as (cp & P & Ee); [done|]. exists cp. split; [done|exact (eq_sym Ee)].
Qed.

(** * Encoded text is left alone *)

Definition no_cont (rest : list Z) : Prop := match rest with c :: _ => mb_is_cont c = false | [] => True end.

(** A sequence of [n] bytes that passes the tests is taken as it is. *)
Lemma step_sequence c cs rest n : mb_num_chars c = n -> 2 <= n <= 4 -> ~ (1 <= c <= 127) ->
  1 + Z.of_nat (length cs) = n -> Forall (fun c => 128 <= c <= 191) cs -> no_cont rest ->
  mb_is_shortest (c :: cs) n = true -> mb_is_surrogate (c :: cs) n = false -> mb_is_illegal (c :: cs) n = false ->
  step ((c :: cs) ++ rest) = (c :: cs, n).
Proof.
  intros Hm Hn Hc Hl Hcs Hr H1 H2 H3. cbn [app step].
  replace ((1 <=? c) && (c <=? 127)) with false by lia. rewrite Hm.
  replace (1 <? n) with true by lia. rewrite (count_exact cs rest 1 n Hcs Hl Hr).
  replace ((n =? 6) || (n =? 5)) with false by lia. rewrite Z.eqb_refl.
  destruct (tests_take (c :: cs ++ rest) n Hn) as (T1 & T2 & T3).
  { cbn [length]. rewrite length_app. lia. }
  assert (take (Z.to_nat n) (c :: cs ++ rest) = c :: cs) as Et.
  { change (c :: cs ++ rest) with ((c :: cs) ++ rest). apply take_app_length'. simpl. lia. }
  rewrite T1, T2, T3, Et, H1, H2, H3. done.
Qed.

Lemma neqb_shiftr a k x : 0 <= k -> ~ (x * 2 ^ k <= a < (x + 1) * 2 ^ k) -> (Z.shiftr a k =? x) = false.
Proof. intros Hk H. apply Z.eqb_neq. by rewrite shiftr_iff. Qed.

Lemma step_encoded cp rest : passes cp -> no_cont rest ->
  step (encode cp ++ rest) = (encode cp, Z.of_nat (length (encode cp))).
Proof.
  intros (Hp & Hs & Hi1 & Hi2) Hr. unfold encode.
  destruct (cp <? 128) eqn:E1.
  { cbn [app step]. by replace ((1 <=? cp) && (cp <=? 127)) with true by lia. }
  destruct (cp <? 2048) eqn:E2; [|destruct (cp <? 65536) eqn:E3].
  - assert (194 <= 192 + cp / 64 <= 223 /\ 128 <= 128 + cp mod 64 <= 191) as [Ha Hb] by dlia.
    set (a := 192 + cp / 64) in *. set (b := 128 + cp mod 64) in *. clearbody a b.
    change (Z.of_nat (length [a; b])) with 2. apply step_sequence; try (simpl length; lia); [|repeat (apply Forall_cons_2; [done|]); apply Forall_nil_2|done|..].
    + rewrite num_chars_spec by lia. by replace ((192 <=? a) && (a <=? 223)) with true by lia.
    + unfold mb_is_shortest, at_. cbn [nth]. by rewrite neqb_shiftr by lia.
    + done.
    + done.
  - assert (224 <= 224 + cp / 4096 <= 239 /\ 128 <= 128 + cp / 64 mod 64 <= 191 /\
      128 <= 128 + cp mod 64 <= 191 /\ ~ (224 + cp / 4096 = 224 /\ 128 + cp / 64 mod 64 <= 159) /\
      ~ (224 + cp / 4096 = 237 /\ 160 <= 128 + cp / 64 mod 64) /\
      ~ (224 + cp / 4096 = 239 /\ 128 + cp / 64 mod 64 = 191 /\ 190 <= 128 + cp mod 64))
      as (Ha & Hb & Hc & H1 & H2 & H3) by (split_and!; dlia).
    set (a := 224 + cp / 4096) in *. set (b := 128 + cp / 64 mod 64) in *.
    set (c := 128 + cp mod 64) in *. clearbody a b c.
    change (Z.of_nat (length [a; b; c])) with 3. apply step_sequence; try (simpl length; lia); [|repeat (apply Forall_cons_2; [done|]); apply Forall_nil_2|done|..].
    + rewrite num_chars_spec by lia. replace ((192 <=? a) && (a <=? 223)) with false by lia.
      by replace ((224 <=? a) && (a <=? 239)) with true by lia.
    + unfold mb_is_shortest, at_. cbn [nth]. destruct (a =? 224) eqn:Ea; [|done].
      by rewrite neqb_shiftr by lia.
    + unfold mb_is_surrogate, at_. cbn [nth]. lia.
    + unfold mb_is_illegal, at_. cbn [nth]. lia.
  - assert (240 <= 240 + cp / 262144 <= 247 /\ 128 <= 128 + cp / 4096 mod 64 <= 191 /\
      128 <= 128 + cp / 64 mod 64 <= 191 /\ 128 <= 128 + cp mod 64 <= 191 /\
      ~ (240 + cp / 262144 = 240 /\ 128 + cp / 4096 mod 64 <= 143))
      as (Ha & Hb & Hc & Hd & H1) by (split_and!; dlia).
    set (a := 240 + cp / 262144) in *. set (b := 128 + cp / 4096 mod 64) in *.
    set (c := 128 + cp / 64 mod 64) in *. set (d := 128 + cp mod 64) in *. clearbody a b c d.
    change (Z.of_nat (length [a; b; c; d])) with 4. apply step_sequence; try (simpl length; lia); [|repeat (apply Forall_cons_2; [done|]); apply Forall_nil_2|done|..].
    + rewrite num_chars_spec by lia. replace ((192 <=? a) && (a <=? 223)) with false by lia.
      replace ((224 <=? a) && (a <=? 239)) with false by lia.
      by replace ((240 <=? a) && (a <=? 247)) with true by lia.
    + unfold mb_is_shortest, at_. cbn [nth]. destruct (a =? 240) eqn:Ea; [|done].
      by rewrite neqb_shiftr by lia.
    + done.
    + done.
Qed.

Lemma encode_head cp : passes cp -> exists c l, encode cp = c :: l /\ mb_is_cont c = false.
Proof.
  intros (Hp & _). unfold encode, mb_is_cont.
  repeat (case_match; [eexists _, _; split; [reflexivity|dlia]|]).
  eexists _, _. split; [reflexivity|dlia].
Qed.

Lemma sanitize_encoded cps : forall fuel, Forall passes cps -> (length (encode_all cps) <= fuel)%nat ->
  sanitize fuel (encode_all cps) = encode_all cps.
Proof.
  induction cps as [|cp cps IH]; intros fuel H Hf; [by destruct fuel|].
  apply Forall_cons_1 in H as [Hp H]. unfold encode_all in *. cbn [map concat] in *.
  assert (no_cont (concat (map encode cps))) as Hn.
  { destruct cps as [|cp' cps]; [done|]. apply Forall_cons_1 in H as [Hp' _].
    destruct (encode_head cp' Hp') as (c & l & E & Hc). simpl. by rewrite E. }
  pose proof (step_encoded cp _ Hp Hn) as Es.
  destruct (encode_head cp Hp) as (c & l & Ee & _). rewrite Ee in *. rewrite length_app in Hf. simpl in Hf.
  destruct fuel as [|fuel]; [lia|]. cbn [app sanitize]. change (c :: l ++ concat (map encode cps))
    with ((c :: l) ++ concat (map encode cps)). rewrite Es. cbn [fst snd].
  rewrite Nat2Z.id, drop_app_length. by rewrite IH by (done || lia).
Qed.

(** * What is replaced *)

(** At the front of [l] stands the encoding of [cp], complete: behind more than one byte no
    continuation byte follows. *)
Definition starts (cp : Z) (l : list Z) : Prop :=
  exists rest, l = encode cp ++ rest /\ passes cp /\ (cp < 128 \/ no_cont rest).

(** The code points a text becomes: encoded ones stay; where none stands, one ['?'] takes the place
    of a byte and of continuation bytes behind it. *)
Inductive sanitized : list Z -> list Z -> Prop :=
| san_nil : sanitized [] []
| san_keep cp l cps : starts cp (encode cp ++ l) -> sanitized l cps -> sanitized (encode cp ++ l) (cp :: cps)
| san_bad c cs l cps : (forall cp, ~ starts cp (c :: cs ++ l)) -> Forall (fun c => 128 <= c <= 191) cs ->
    sanitized l cps -> sanitized (c :: cs ++ l) (63 :: cps).

Lemma encode_long cp : 128 <= cp -> (2 <= length (encode cp))%nat.
Proof. intros H. unfold encode. replace (cp <? 128) with false by lia. repeat case_match; simpl; lia. Qed.

Lemma count_stops rest : forall v n, count_cont rest v n <= n ->
  no_cont (drop (Z.to_nat (count_cont rest v n - v)) rest).
Proof.
  induction rest as [|c rest IH]; intros v n H; [by rewrite drop_nil|]. cbn [count_cont] in *.
  destruct ((v <=? n) && mb_is_cont c) eqn:E.
  - pose proof (count_bounds rest (v + 1) n). specialize (IH _ _ H).
    replace (Z.to_nat (count_cont rest (v + 1) n - v)) with (S (Z.to_nat (count_cont rest (v + 1) n - (v + 1)))) by lia.
    done.
  - rewrite Z.sub_diag. simpl. apply andb_false_iff in E as [E|E]; [lia|done].
Qed.

(** A step either keeps a code point or writes ['?'] where none stands. *)
Lemma step_cases c rest : bytes (c :: rest) ->
  (exists cp l, c :: rest = encode cp ++ l /\ starts cp (encode cp ++ l) /\
     step (c :: rest) = (encode cp, Z.of_nat (length (encode cp)))) \/
  (exists cs l, rest = cs ++ l /\ Forall (fun c => 128 <= c <= 191) cs /\
     (forall cp, ~ starts cp (c :: rest)) /\ step (c :: rest) = ([63], 1 + Z.of_nat (length cs))).
Proof.
  intros Hb. destruct (step_encodes c rest Hb) as (cp & Hp & He). pose proof Hb as [Hc _]%Forall_cons_1.
  destruct ((1 <=? c) && (c <=? 127)) eqn:Ea.
  { left. exists c, rest. destruct (passes_ascii c ltac:(lia)) as [Hpc Ec]. rewrite Ec. split_and!; [done| |].
    - exists rest. rewrite Ec. split_and!; [done..|]. left. lia.
    - cbn [step]. by rewrite Ea. }
  assert (forall k, step (c :: rest) = ([63], k) -> forall cp, ~ starts cp (c :: rest)) as Hno.
  { intros k Hk cp' (r & Er & Hp' & Hor). assert (128 <= cp') as Hcp.
    { destruct (decide (128 <= cp')); [done|]. exfalso. unfold encode in Er.
      replace (cp' <? 128) with true in Er by lia. injection Er as -> _. unfold passes in Hp'. lia. }
    destruct Hor as [?|Hn]; [lia|]. rewrite Er, (step_encoded cp' r Hp' Hn) in Hk. injection Hk as Hk _.
    apply encode_long in Hcp. rewrite Hk in Hcp. simpl in Hcp. lia. }
  assert (forall v, step (c :: rest) = ([63], v) -> (v = 1 \/ v = count_cont rest 1 (mb_num_chars c)) ->
    exists cs l, rest = cs ++ l /\ Forall (fun c => 128 <= c <= 191) cs /\
     (forall cp, ~ starts cp (c :: rest)) /\ step (c :: rest) = ([63], 1 + Z.of_nat (length cs))) as Bad.
  { intros v Hv Hor. pose proof (count_bounds rest 1 (mb_num_chars c)).
    destruct (count_conts rest 1 (mb_num_chars c) (Z.to_nat (v - 1))) as [H1 H2]; [lia|].
    exists (take (Z.to_nat (v - 1)) rest), (drop (Z.to_nat (v - 1)) rest). rewrite take_drop.
    split_and!; [done|done|by eapply Hno|]. rewrite length_take, Nat.min_l by lia. rewrite Hv. f_equal. lia. }
  revert He Bad. cbn [step]. rewrite Ea. destruct (1 <? mb_num_chars c) eqn:E1; cbn [fst snd].
  2: { intros _ Bad. right. apply (Bad 1); [done|by left]. }
  destruct ((_ =? 6) || (_ =? 5)); [intros _ Bad; right; apply (Bad _ eq_refl); by right|].
  destruct (_ && _ && _ && _) eqn:Ev; [|intros _ Bad; right; apply (Bad _ eq_refl); by right].
  intros He _. left. rewrite !andb_true_iff in Ev. destruct Ev as [[[Ev _] _] _]. apply Z.eqb_eq in Ev.
  set (n := mb_num_chars c) in *. pose proof (count_bounds rest 1 n) as Hcb.
  pose proof (count_stops rest 1 n ltac:(lia)) as Hns.
  assert (length (encode cp) = Z.to_nat n) as Hl by (rewrite <- He, length_take; simpl length; lia).
  assert (c :: rest = encode cp ++ drop (Z.to_nat n) (c :: rest)) as Hsplit by (rewrite <- He; by rewrite take_drop).
  exists cp, (drop (Z.to_nat n) (c :: rest)). split_and!; [done| |].
  - eexists. split_and!; [done..|]. right. rewrite Ev in Hns.
    replace (Z.to_nat n) with (S (Z.to_nat (n - 1))) by lia. done.
  - rewrite He, Ev, Hl. f_equal. lia.
Qed.

Lemma sanitize_spec fuel : forall l, bytes l -> (length l <= fuel)%nat ->
  exists cps, sanitized l cps /\ sanitize fuel l = encode_all cps.
Proof.
  induction fuel as [|fuel IH]; intros [|c l] H Hf; simpl in Hf; try lia; try (exists []; split; [constructor|done]).
  pose proof (step_takes c l) as Hk.
  destruct (IH (drop (Z.to_nat (step (c :: l)).2) (c :: l))) as (cps & Hs & E2);
    [by apply Forall_drop|rewrite length_drop; cbn [length]; lia|].
  cbn [sanitize]. rewrite E2. destruct (step_cases c l H) as [(cp & r & El & St & Es)|(cs & r & -> & Hcs & Hno & Es)].
  - exists (cp :: cps). rewrite Es in *. cbn [fst snd] in *. rewrite Nat2Z.id, El, drop_app_length in Hs.
    split; [rewrite El; by constructor|done].
  - exists (63 :: cps). rewrite Es in *. cbn [fst snd] in *. split; [|done]. constructor; [done|done|].
    replace (Z.to_nat (1 + Z.of_nat (length cs))) with (S (length cs)) in Hs by lia. simpl in Hs.
    by rewrite drop_app_length in Hs.
Qed.

Lemma sanitized_passes l cps : sanitized l cps -> Forall passes cps.
Proof.
  induction 1 as [|cp l cps (r & _ & Hp & _) _ IH|c cs l cps _ _ _ IH]; constructor; try done.
  unfold passes. lia.
Qed.

(** A code point beyond U+10FFFF comes from the input. *)
Lemma sanitized_large l cps : sanitized l cps ->
  Forall (fun cp => cp < 1114112 \/ exists a b, l = a ++ encode cp ++ b) cps.
Proof.
  induction 1 as [|cp l cps _ _ IH|c cs l cps _ _ _ IH]; constructor.
  - right. by exists [], l.
  - refine (List.Forall_impl _ _ IH). intros cp' [?|(a & b & ->)]; [by left|]. right.
    exists (encode cp ++ a), b. by rewrite app_assoc.
  - left. lia.
  - refine (List.Forall_impl _ _ IH). intros cp' [?|(a & b & ->)]; [by left|]. right.
    exists (c :: cs ++ a), b. simpl. by rewrite <- app_assoc.
Qed.
End TplUtf8.
