(* ===== verification/TplUtilsSpec.v ===== *)
(** The text helpers as functions on text: with memory available, each leaves in its
    buffer what a pure function of its input says, without touching anything outside the
    buffer's block. *)

From Stdlib Require Import ZArith Lia Ascii String.
From stdpp Require Import base list list_numbers numbers gmap.
From S2P Require Import Prelude Lmo TplUtils TplUtf8.

Open Scope list_scope.
Open Scope Z_scope.

Module TplUtilsSpec.
Import TplUtils TplUtf8.

(** * Buffers *)

(** The longest text considered; sizes stay below 2^32. *)
Definition limit : Z := 2 ^ 29.

(** The buffer holds the text [t], ended by a NUL, in a block of its size. *)
Record holds_text (t : list Z) (b : template_buffer) : Prop := mkHolds {
  ht_data : exists rest, data b = t ++ 0 :: rest;
  ht_dptr : dptr b = Z.of_nat (length t);
  ht_size : Z.of_nat (length (data b)) = size b;
  ht_fill : fill b = Z.of_nat (length t);
  ht_cap : size b <= Z.max (2 ^ 30) (2 * Z.of_nat (length t) + 1026)
}.

(** Only allocations are counted. *)
Definition same (w w' : world) : Prop :=
  blocks w' = blocks w /\ tfds w' = tfds w /\ tmaps w' = tmaps w /\ lmo w' = lmo w.

Lemma same_refl w : same w w.
Proof. done. Qed.
Lemma same_trans w1 w2 w3 : same w1 w2 -> same w2 w3 -> same w1 w3.
Proof. unfold same. intros. destruct_and!. split_and!; congruence. Qed.

Lemma text_size t b : holds_text t b -> Z.of_nat (length t) < size b.
Proof. intros [[rest Hd] _ Hs _ _]. rewrite <- Hs, Hd, length_app. simpl. lia. Qed.

Lemma put_ok b x y z l pos w : data b = x ++ y ++ z -> pos = Z.of_nat (length x) -> length y = length l ->
  put b pos l w = Ok (b <| data := x ++ l ++ z |>) w.
Proof.
  intros Hd -> Hl. unfold put. rewrite Hd, !length_app, Hl.
  rewrite (proj2 (Z.leb_le 0 _)), (proj2 (Z.leb_le _ _)) by lia. cbn [andb].
  unfold mret, M_ret. f_equal. destruct b as [d p sz f]. simpl in Hd. subst d.
  cbn [set eta_buf data]. unfold set. simpl. f_equal. rewrite Nat2Z.id.
  rewrite <- (Nat.add_0_r (length x)), list_inserts_app_r, list_inserts_0_r; done.
Qed.

Section memory.
Context (E : env) (Mem : forall k, oom E k = false).

Lemma twp_try_alloc (Q : bool -> world -> Prop) w :
  (forall w', same w w' -> Q true w') -> twp (alloc E) Q w.
Proof using Mem. intros H. unfold alloc. do 3 twp_step. twp_step. rewrite Mem. by apply H. Qed.

Lemma twp_malloc (Q : bool -> world -> Prop) w :
  (forall w', same (w <| blocks ::= Z.add 1 |>) w' -> Q true w') -> twp (malloc E) Q w.
Proof using Mem.
  intros H. unfold malloc. twp_step. apply twp_try_alloc. intros w1 S1. cbv beta iota. do 2 twp_step. twp_step.
  apply H. unfold same in *. destruct_and!. simpl. split_and!; congruence.
Qed.

Lemma twp_init n (Q : option template_buffer -> world -> Prop) w : n < 2 ^ 30 ->
  (forall b w', holds_text [] b -> same (w <| blocks ::= Z.add 2 |>) w' -> Q (Some b) w') ->
  twp (buf_init E n) Q w.
Proof using Mem.
  intros Hn H. unfold buf_init. set (k := if n <=? 0 then 1024 else n).
  assert (0 < k < 2 ^ 30) as Hk by (unfold k; destruct (n <=? 0) eqn:?; lia).
  twp_step. apply twp_malloc. intros w1 S1. cbv beta iota.
  twp_step. apply twp_malloc. intros w2 S2. cbv beta iota. twp_step.
  destruct (Z.to_nat k) as [|j] eqn:Ej; [lia|].
  eapply twp_intro; [apply (put_ok _ [] [junk E] (repeat (junk E) j)); done|].
  twp_step. apply H.
  - split; [by eexists|done| |done|simpl; lia]. simpl. rewrite repeat_length. lia.
  - unfold same in *. destruct_and!. simpl in *. split_and!; congruence || lia.
Qed.

Lemma twp_grow b n t (Q : template_buffer * Z -> world -> Prop) w : holds_text t b ->
  Z.of_nat (length t) <= limit -> 0 <= n <= limit + 1 ->
  (forall b' w', (exists rest, data b' = t ++ 0 :: rest) -> dptr b' = dptr b -> fill b' = fill b ->
    size b' = size b + (if n =? 0 then 1024 else n) -> Z.of_nat (length (data b')) = size b' ->
    same w w' -> Q (b', size b') w') ->
  twp (buf_grow E b n) Q w.
Proof using Mem.
  intros Hb Ht Hn H. pose proof (text_size t b Hb) as Hsz. destruct Hb as [[rest Hd] Hp Hs Hf Hc].
  unfold buf_grow, limit in *.
  twp_step. apply twp_try_alloc. intros w' Sw. cbv beta iota.
  assert (u32 (size b + (if n <=? 0 then 1024 else n)) = size b + (if n =? 0 then 1024 else n)) as ->.
  { replace (n =? 0) with (n <=? 0) by lia. apply u32_small. destruct (n <=? 0); lia. }
  set (k := if n =? 0 then 1024 else n) in *. assert (0 < k) by (unfold k; destruct (n =? 0) eqn:?; lia).
  twp_step. apply H; try done; cbn [data size].
  - rewrite Hd, <- app_assoc. cbn [app]. eexists.
    rewrite take_app_ge by lia. f_equal.
    replace (Z.to_nat (size b + k) - length t)%nat with (S (Z.to_nat (size b + k) - length t - 1)); [reflexivity|].
    rewrite Hd, length_app in Hs. simpl in Hs. lia.
  - rewrite length_take, length_app, repeat_length. lia.
Qed.

Lemma twp_putchar t b c (Q : template_buffer * bool -> world -> Prop) w : holds_text t b ->
  Z.of_nat (length t) + 1 <= limit ->
  (forall b' w', holds_text (t ++ [c]) b' -> same w w' -> Q (b', true) w') ->
  twp (buf_putchar E b c) Q w.
Proof using Mem.
  intros Hb Ht H. pose proof (text_size t b Hb) as Hsz. unfold buf_putchar.
  assert (forall b1 w1, (exists rest, data b1 = t ++ 0 :: rest) -> dptr b1 = Z.of_nat (length t) ->
    fill b1 = Z.of_nat (length t) -> Z.of_nat (length (data b1)) = size b1 ->
    Z.of_nat (length t) + 1 < size b1 -> size b1 <= Z.max (2 ^ 30) (2 * Z.of_nat (length t) + 1026) ->
    same w w1 ->
    twp (b ← put b1 (dptr b1) [c];
         let b := b <| dptr ::= Z.add 1 |> in
         b ← put b (dptr b) [0];
         mret (b <| fill ::= fun f => u32 (f + 1) |>, true)) Q w1) as Write.
  { intros b1 w1 [rest Hd] Hp Hf Hs Hlt Hc Sw. destruct rest as [|x rest].
    { rewrite Hd, length_app in Hs. simpl in Hs. lia. }
    twp_step. eapply twp_intro; [apply (put_ok b1 t [0] (x :: rest) [c]); done|].
    twp_step. eapply twp_intro; [apply (put_ok _ (t ++ [c]) [x] rest [0])|].
    { simpl. by rewrite <- app_assoc. }
    { simpl. rewrite Hp, length_app. simpl. lia. }
    { done. }
    twp_step. apply H; [|done]. unfold limit in Ht.
    split; simpl; rewrite ?Hp, ?Hf, ?length_app; simpl.
    - by eexists.
    - lia.
    - rewrite Hd, !length_app in Hs. simpl in Hs. rewrite ?length_app. simpl. lia.
    - rewrite u32_small; lia.
    - lia. }
  destruct Hb as [Hd Hp Hs Hf Hc]. rewrite Hf. unfold limit in *. rewrite u32_small by lia.
  twp_step. destruct (_ >=? _) eqn:Eg.
  - twp_step. apply (twp_grow b 0 t); [by split|unfold limit; lia|unfold limit; lia|].
    intros b1 w1 Hd1 Hp1 Hf1 Hs1 Hl1 S1. cbv beta iota. twp_step.
    change (0 =? 0) with true in Hs1. cbv beta iota in Hs1.
    replace (negb (size b1 =? 0)) with true by lia. apply Write; try done; try congruence; lia.
  - twp_step. cbv beta iota. apply Write; try done; lia.
Qed.

Lemma twp_append t b l (Q : template_buffer * Z -> world -> Prop) w src len : holds_text t b ->
  len = Z.of_nat (length l) -> take (length l) src = l ->
  Z.of_nat (length t) + len <= limit ->
  (forall b' w', holds_text (t ++ l) b' -> same w w' -> Q (b', len) w') ->
  twp (buf_append E b src len) Q w.
Proof using Mem.
  intros Hb Hlen Hsrc Ht H. pose proof (text_size t b Hb) as Hsz. unfold buf_append.
  assert (length l <= length src)%nat as Hle.
  { rewrite <- Hsrc, length_take. lia. }
  assert (forall b1 w1, (exists rest, data b1 = t ++ 0 :: rest) -> dptr b1 = Z.of_nat (length t) ->
    fill b1 = Z.of_nat (length t) -> Z.of_nat (length (data b1)) = size b1 ->
    Z.of_nat (length t) + len < size b1 ->
    size b1 <= Z.max (2 ^ 30) (2 * (Z.of_nat (length t) + len) + 1026) -> same w w1 ->
    twp (if (0 <=? len) && (len <=? Z.of_nat (length src)) then
      b ← put b1 (dptr b1) (take (Z.to_nat len) src);
      let b := b <| fill ::= fun f => u32 (f + len) |> <| dptr ::= Z.add len |> in
      b ← put b (dptr b) [0]; mret (b, len)
      else undef) Q w1) as Write.
  { intros b1 w1 [rest Hd] Hp Hf Hs Hlt Hc Sw.
    rewrite (proj2 (Z.leb_le 0 len)), (proj2 (Z.leb_le len _)) by lia. cbn [andb].
    replace (Z.to_nat len) with (length l) by lia. rewrite Hsrc.
    set (r := 0 :: rest) in *. clearbody r.
    assert (length l + 1 <= length r)%nat as Hr by (rewrite Hd, length_app in Hs; lia).
    destruct (drop (length l) r) as [|q z] eqn:Eq.
    { apply (f_equal length) in Eq. rewrite length_drop in Eq. simpl in Eq. lia. }
    assert (data b1 = t ++ take (length l) r ++ q :: z) as Hd' by (by rewrite <- Eq, take_drop).
    twp_step. eapply twp_intro; [apply (put_ok b1 t (take (length l) r) (q :: z) l); [done|done|]|].
    { rewrite length_take. lia. }
    twp_step. eapply twp_intro; [apply (put_ok _ (t ++ l) [q] z [0])|].
    { simpl. by rewrite <- app_assoc. }
    { simpl. rewrite Hp, length_app. lia. }
    { done. }
    twp_step. apply H; [|done]. unfold limit in Ht.
    split; simpl; rewrite ?Hp, ?Hf, ?length_app; simpl.
    - by eexists.
    - lia.
    - rewrite Hd', !length_app, length_take in Hs. simpl in Hs. rewrite ?length_app. simpl. lia.
    - rewrite u32_small; lia.
    - lia. }
  destruct Hb as [Hd Hp Hs Hf Hc]. rewrite Hf. unfold limit in *. rewrite u32_small by lia.
  twp_step. destruct (_ >=? _) eqn:Eg.
  - twp_step. apply (twp_grow b (len + 1) t); [by split|unfold limit; lia|unfold limit; lia|].
    intros b1 w1 Hd1 Hp1 Hf1 Hs1 Hl1 S1. cbv beta iota. twp_step.
    replace (len + 1 =? 0) with false in Hs1 by lia.
    replace (negb (size b1 =? 0)) with true by lia. apply Write; try done; try congruence; lia.
  - twp_step. cbv beta iota. apply Write; try done; lia.
Qed.
(** * UTF-8 *)

Lemma twp_validate t b c rest (Q : template_buffer * Z -> world -> Prop) w : holds_text t b ->
  Z.of_nat (length t) + Z.of_nat (length (step (c :: rest)).1) <= limit ->
  (forall b' w', holds_text (t ++ (step (c :: rest)).1) b' -> same w w' ->
    Q (b', (step (c :: rest)).2) w') ->
  twp (validate_utf8 E (c :: rest) b) Q w.
Proof using Mem.
  intros Hb Ht H. unfold validate_utf8. cbn [step] in Ht, H.
  destruct ((1 <=? c) && (c <=? 127)); [|destruct (1 <? mb_num_chars c) eqn:E1].
  - cbn [fst snd length] in Ht, H. twp_step. apply (twp_putchar t); [done|lia|]. intros. cbv beta iota. twp_step. by apply H.
  - cbv zeta in Ht, H |- *. set (n := mb_num_chars c) in *.
    pose proof (count_bounds rest 1 n) as Hv. set (v := count_cont rest 1 n) in *. cbn [fst snd] in Ht, H.
    twp_step. destruct ((n =? 6) || (n =? 5)).
    { apply (twp_putchar t); [done|cbn [length] in Ht; lia|]. intros. cbv beta iota. twp_step. by apply H. }
    destruct (_ && _ && _ && _) eqn:Ev.
    + rewrite !andb_true_iff in Ev. destruct Ev as [[[Ev _] _] _]. apply Z.eqb_eq in Ev.
      assert (length (take (Z.to_nat n) (c :: rest)) = Z.to_nat n) as Hl.
      { rewrite length_take. cbn [length]. lia. }
      twp_step. apply (twp_append t _ (take (Z.to_nat n) (c :: rest))); [done|lia|by rewrite Hl|lia|].
      intros b' w' Hb' Sw. cbv beta iota. twp_step. twp_step.
      replace (negb (n =? 0)) with true by lia. by apply H.
    + apply (twp_putchar t); [done|cbn [length] in Ht; lia|]. intros. cbv beta iota. twp_step. by apply H.
  - cbn [fst snd length] in Ht, H. twp_step. apply (twp_putchar t); [done|lia|]. intros. cbv beta iota. twp_step. by apply H.
Qed.

Lemma twp_utf8_loop fuel : forall l t b (Q : template_buffer -> world -> Prop) w, holds_text t b ->
  (length l <= fuel)%nat -> Z.of_nat (length t) + Z.of_nat (length (sanitize fuel l)) <= limit ->
  (forall b' w', holds_text (t ++ sanitize fuel l) b' -> same w w' -> Q b' w') ->
  twp (utf8_loop E fuel l b) Q w.
Proof using Mem.
  induction fuel as [|fuel IH]; intros [|c l] t b Q w Hb Hf Ht H; simpl in Hf; try lia.
  - apply twp_ret, H; [by rewrite app_nil_r|apply same_refl].
  - apply twp_ret, H; [by rewrite app_nil_r|apply same_refl].
  - cbn [utf8_loop]. pose proof (step_takes c l) as Hv.
    cbn [sanitize] in Ht, H. rewrite length_app in Ht. rewrite app_assoc in H.
    destruct ((1 <=? c) && (c <=? 127)) eqn:Ea.
    + assert (step (c :: l) = ([c], 1)) as Es by (cbn [step]; by rewrite Ea).
      rewrite Es in Ht, H. cbn [fst snd length] in Ht, H. change (drop (Z.to_nat 1) (c :: l)) with l in Ht, H.
      twp_step. apply (twp_putchar t); [done|lia|]. intros b1 w1 Hb1 S1. cbv beta iota.
      apply (IH l (t ++ [c])); [done|lia|rewrite length_app; simpl; lia|].
      intros b2 w2 Hb2 S2. apply H; [done|by eapply same_trans].
    + twp_step. apply (twp_validate t); [done|lia|]. intros b1 w1 Hb1 S1. cbv beta iota.
      replace ((step (c :: l)).2 =? 0) with false by lia.
      apply (IH _ (t ++ (step (c :: l)).1)); [done|rewrite length_drop; cbn [length]; lia|rewrite length_app; lia|].
      intros b2 w2 Hb2 S2. apply H; [done|by eapply same_trans].
Qed.

(** What a function leaves in the block it returns, and who owns what: the block
    starts with the text and its NUL. *)
Definition returns (w : world) (t : list Z) (d : list Z) (w' : world) : Prop :=
  (exists rest, d = t ++ 0 :: rest) /\ same (w <| blocks ::= Z.add 1 |>) w'.

Lemma twp_destroy t b w0 w (Q : list Z -> world -> Prop) : holds_text t b ->
  same (w0 <| blocks ::= Z.add 2 |>) w -> (forall d w', returns w0 t d w' -> Q d w') ->
  twp (buf_destroy b) Q w.
Proof using.
  intros Hb Sw H. unfold buf_destroy, free. do 2 twp_step. twp_step. apply H. split; [apply Hb|].
  unfold same in *. destruct_and!. simpl in *. split_and!; congruence || lia.
Qed.

Lemma step_shorter c l : (length (step (c :: l)).1 <= Z.to_nat (step (c :: l)).2)%nat.
Proof using.
  pose proof (step_takes c l).
  cbn [step] in *. destruct (_ && _); [done|]. cbv zeta in *. destruct (1 <? _) eqn:E1; [|done].
  pose proof (count_bounds l 1 (mb_num_chars c)). cbn [fst snd] in *.
  destruct (_ || _); [simpl; lia|]. destruct (_ && _ && _ && _) eqn:Ev; [|simpl; lia].
  rewrite !andb_true_iff in Ev. destruct Ev as [[[Ev _] _] _]. apply Z.eqb_eq in Ev.
  rewrite length_take. lia.
Qed.

Lemma sanitize_length fuel : forall l, (length (sanitize fuel l) <= length l)%nat.
Proof using.
  induction fuel as [|fuel IH]; intros [|c l]; cbn [sanitize length]; try lia.
  rewrite length_app. specialize (IH (drop (Z.to_nat (step (c :: l)).2) (c :: l))).
  rewrite length_drop in IH. pose proof (step_takes c l). cbn [length] in IH.
  pose proof (step_shorter c l). lia.
Qed.
End memory.
End TplUtilsSpec.
