(* ===== verification/TplMarkup.v ===== *)
(** Markup and Lua literals: what [pcdata], [striptags] and [luastr_escape] make of a
    text, that no markup is left, and that Lua reads an escaped text back. *)

From Stdlib Require Import ZArith Lia Ascii String.
From stdpp Require Import base list list_numbers numbers gmap.
From S2P Require Import Prelude Lmo TplUtils TplUtf8 TplUtilsSpec.

Open Scope list_scope.
Open Scope Z_scope.

Module TplMarkup.
Import TplUtils TplUtf8 TplUtilsSpec.

(** * The texts *)

Fixpoint pcdata_text (fuel : nat) (l : list Z) : list Z :=
  match fuel, l with
  | S fuel, c :: rest =>
      if invalid_xml c then pcdata_text fuel rest
      else if is_markup c then entity c ++ pcdata_text fuel rest
      else if c <=? 127 then c :: pcdata_text fuel rest
      else (step l).1 ++ pcdata_text fuel (drop (Z.to_nat (step l).2) l)
  | _, _ => []
  end.

Fixpoint strip_text (fuel : nat) (l : list Z) (prev : Z) : list Z :=
  match fuel, l with
  | S fuel, c :: rest =>
      if opens_tag l then
        match behind_tag l with
        | Some rest => (if isspace prev then [] else [32]) ++ strip_text fuel rest 32
        | None => strip_text fuel rest prev
        end
      else if isspace c then (if isspace prev then [] else [c]) ++ strip_text fuel rest c
      else if is_markup c then entity c ++ strip_text fuel rest c
      else c :: strip_text fuel rest c
  | _, _ => []
  end.

Definition esc_char (xml : bool) (c : Z) : list Z :=
  if c =? 92 then [92; 92]
  else if c =? 34 then (if xml then lit "&#34;" else [92; 34])
  else if c =? 10 then [92; 110]
  else if ((c =? 39) || (c =? 38) || (c =? 60) || (c =? 62)) && xml then entity c
  else [c].
Definition escape (xml : bool) (s : list Z) : list Z := concat (map (esc_char xml) s).

Lemma esc_length xml c : (length (esc_char xml c) <= 5)%nat.
Proof. unfold esc_char. repeat case_match; simpl; lia. Qed.

Lemma escape_length xml s : (length (escape xml s) <= 5 * length s)%nat.
Proof.
  unfold escape. induction s as [|c s IH]; simpl; [lia|]. rewrite length_app.
  pose proof (esc_length xml c). lia.
Qed.

Lemma entity_length c : length (entity c) = 5%nat.
Proof. done. Qed.

Lemma behind_shorter l r : behind_tag l = Some r -> (length r < length l)%nat.
Proof.
  induction l as [|c l IH]; simpl; [done|]. destruct (c =? 62); intros H; simplify_eq; [lia|].
  specialize (IH H). lia.
Qed.

Lemma strip_length fuel : forall l prev, (length (strip_text fuel l prev) <= 5 * length l)%nat.
Proof.
  induction fuel as [|fuel IH]; intros [|c l] prev; cbn [strip_text length]; try lia.
  destruct (opens_tag (c :: l)).
  { destruct (behind_tag (c :: l)) as [r|] eqn:Eb; [|specialize (IH l prev); lia].
    apply behind_shorter in Eb. cbn [length] in Eb. rewrite length_app. specialize (IH r 32).
    destruct (isspace prev); cbn [length]; lia. }
  specialize (IH l c). destruct (isspace c); [rewrite length_app; destruct (isspace prev); cbn [length]; lia|].
  destruct (is_markup c); [rewrite length_app, entity_length; lia|]. cbn [length]. lia.
Qed.

Section memory.
Context (E : env) (Mem : forall k, oom E k = false).

Lemma twp_pcdata_loop fuel : forall l t b (Q : template_buffer -> world -> Prop) w, holds_text t b ->
  (length l <= fuel)%nat -> Z.of_nat (length t) + Z.of_nat (length (pcdata_text fuel l)) <= limit ->
  (forall b' w', holds_text (t ++ pcdata_text fuel l) b' -> same w w' -> Q b' w') ->
  twp (pcdata_loop E fuel l b) Q w.
Proof using Mem.
  induction fuel as [|fuel IH]; intros [|c l] t b Q w Hb Hf Ht H; simpl in Hf; try lia.
  - apply twp_ret, H; [by rewrite app_nil_r|apply same_refl].
  - apply twp_ret, H; [by rewrite app_nil_r|apply same_refl].
  - cbn [pcdata_loop]. cbn [pcdata_text] in Ht, H.
    destruct (invalid_xml c); [by apply (IH l t); [done|lia|done|]|].
    destruct (is_markup c); [|destruct (c <=? 127)].
    + rewrite length_app in Ht. rewrite app_assoc in H.
      twp_step. apply (twp_append E Mem t _ (entity c)); [done|done|by rewrite firstn_all|lia|].
      intros b1 w1 Hb1 S1. cbv beta iota. change (Z.of_nat (length (entity c)) =? 0) with false.
      apply (IH l (t ++ entity c)); [done|lia|rewrite length_app; lia|].
      intros. apply H; [done|by eapply same_trans].
    + cbn [length] in Ht. twp_step. apply (twp_putchar E Mem t); [done|lia|]. intros b1 w1 Hb1 S1. cbv beta iota.
      apply (IH l (t ++ [c])); [done|lia|rewrite length_app; simpl; lia|].
      intros b2 w2 Hb2 S2. rewrite <- app_assoc in Hb2. apply H; [done|by eapply same_trans].
    + pose proof (step_takes c l) as Hv. rewrite length_app in Ht. rewrite app_assoc in H.
      twp_step. apply (twp_validate E Mem t); [done|lia|]. intros b1 w1 Hb1 S1. cbv beta iota.
      replace ((step (c :: l)).2 =? 0) with false by lia.
      apply (IH _ (t ++ (step (c :: l)).1)); [done|rewrite length_drop; cbn [length]; lia|rewrite length_app; lia|].
      intros b2 w2 Hb2 S2. apply H; [done|by eapply same_trans].
Qed.

(** A character that may be left out. *)
Lemma twp_maybe (skip : bool) t b c (Q : template_buffer * bool -> world -> Prop) w : holds_text t b ->
  Z.of_nat (length t) + Z.of_nat (length (if skip then [] else [c])) <= limit ->
  (forall b' w', holds_text (t ++ if skip then [] else [c]) b' -> same w w' -> Q (b', true) w') ->
  twp (if skip then mret (b, true) else buf_putchar E b c) Q w.
Proof using Mem.
  intros Hb Ht H. destruct skip.
  - apply twp_ret, H; [by rewrite app_nil_r|apply same_refl].
  - apply (twp_putchar E Mem t); [done|simpl in Ht; lia|done].
Qed.

Lemma twp_strip_loop fuel : forall l prev t b (Q : template_buffer -> world -> Prop) w, holds_text t b ->
  (length l <= fuel)%nat -> Z.of_nat (length t) + Z.of_nat (length (strip_text fuel l prev)) <= limit ->
  (forall b' w', holds_text (t ++ strip_text fuel l prev) b' -> same w w' -> Q b' w') ->
  twp (striptags_loop E fuel l prev b) Q w.
Proof using Mem.
  induction fuel as [|fuel IH]; intros [|c l] prev t b Q w Hb Hf Ht H; simpl in Hf; try lia.
  - apply twp_ret, H; [by rewrite app_nil_r|apply same_refl].
  - apply twp_ret, H; [by rewrite app_nil_r|apply same_refl].
  - cbn [striptags_loop]. cbn [strip_text] in Ht, H.
    destruct (opens_tag (c :: l)).
    { destruct (behind_tag (c :: l)) as [r|] eqn:Er; [|by apply (IH l prev t); [done|lia|done|]].
      apply behind_shorter in Er. simpl in Er. rewrite length_app in Ht. rewrite app_assoc in H.
      twp_step. apply (twp_maybe (isspace prev) t b 32); [done|lia|]. intros b1 w1 Hb1 S1. cbv beta iota.
      eapply (IH r 32); [exact Hb1|lia|rewrite length_app; lia|].
      intros. apply H; [done|by eapply same_trans]. }
    destruct (isspace c).
    { rewrite length_app in Ht. rewrite app_assoc in H.
      twp_step. apply (twp_maybe (isspace prev) t b c); [done|lia|]. intros b1 w1 Hb1 S1. cbv beta iota.
      eapply (IH l c); [exact Hb1|lia|rewrite length_app; lia|].
      intros. apply H; [done|by eapply same_trans]. }
    destruct (is_markup c).
    + rewrite length_app in Ht. rewrite app_assoc in H.
      twp_step. apply (twp_append E Mem t _ (entity c)); [done|done|by rewrite firstn_all|lia|].
      intros b1 w1 Hb1 S1. cbv beta iota.
      apply (IH l c (t ++ entity c)); [done|lia|rewrite length_app; lia|].
      intros. apply H; [done|by eapply same_trans].
    + cbn [length] in Ht. twp_step. apply (twp_putchar E Mem t); [done|lia|]. intros b1 w1 Hb1 S1. cbv beta iota.
      apply (IH l c (t ++ [c])); [done|lia|rewrite length_app; simpl; lia|].
      intros b2 w2 Hb2 S2. rewrite <- app_assoc in Hb2. apply H; [done|by eapply same_trans].
Qed.

Lemma twp_escape_char t b c xml (Q : template_buffer -> world -> Prop) w : holds_text t b ->
  Z.of_nat (length t) + Z.of_nat (length (esc_char xml c)) <= limit ->
  (forall b' w', holds_text (t ++ esc_char xml c) b' -> same w w' -> Q b' w') ->
  twp (escape_char E b c xml) Q w.
Proof using Mem.
  intros Hb Ht H. unfold escape_char. unfold esc_char in Ht, H.
  assert (forall l len, len = Z.of_nat (length l) -> Z.of_nat (length t) + Z.of_nat (length l) <= limit ->
    (forall b' w', holds_text (t ++ l) b' -> same w w' -> Q b' w') ->
    twp ('(b, _) ← buf_append E b l len; mret b) Q w) as App.
  { intros l len -> Hl HQ. twp_step. apply (twp_append E Mem t _ l); [done|done|by rewrite firstn_all|lia|].
    intros. cbv beta iota. twp_step. by apply HQ. }
  destruct (c =? 92); [by apply App|]. destruct (c =? 34); [by destruct xml; apply App|].
  destruct (c =? 10); [by apply App|]. destruct (_ && xml); [by apply App|].
  twp_step. apply (twp_putchar E Mem t); [done|simpl in Ht; lia|]. intros. cbv beta iota. twp_step. by apply H.
Qed.

Lemma twp_escape s : forall t b xml (Q : template_buffer -> world -> Prop) w, holds_text t b ->
  Z.of_nat (length t) + Z.of_nat (length (escape xml s)) <= limit ->
  (forall b' w', holds_text (t ++ escape xml s) b' -> same w w' -> Q b' w') ->
  twp (luastr_escape E b s xml) Q w.
Proof using Mem.
  induction s as [|c s IH]; intros t b xml Q w Hb Ht H; cbn [luastr_escape].
  - apply twp_ret, H; [by rewrite app_nil_r|apply same_refl].
  - unfold escape in Ht, H. cbn [map concat] in Ht, H. rewrite length_app in Ht. rewrite app_assoc in H.
    twp_step. apply (twp_escape_char t); [done|lia|]. intros b1 w1 Hb1 S1.
    apply (IH (t ++ esc_char xml c)); [done|rewrite length_app; unfold escape; lia|].
    intros. apply H; [done|by eapply same_trans].
Qed.
End memory.

(** * No markup is left *)

(** A character of XML text. *)
Definition xml_char (c : Z) : list Z :=
  if invalid_xml c then [] else if is_markup c then entity c else [c].

(** Numeric character references, as browsers read them. *)
Fixpoint unescape (l : list Z) : list Z :=
  match l with
  | [] => []
  | c :: rest =>
      if c =? 38 then
        match rest with
        | h :: a :: b :: e :: rest' =>
            if (h =? 35) && (e =? 59) then 10 * (a - 48) + (b - 48) :: unescape rest'
            else c :: unescape rest
        | _ => c :: unescape rest
        end
      else c :: unescape rest
  end.

Lemma markup_range c : is_markup c = true -> 34 <= c <= 62.
Proof. unfold is_markup. lia. Qed.

Lemma unescape_xml s :
  unescape (concat (map xml_char s)) = filter (fun c => invalid_xml c = false) s.
Proof.
  induction s as [|c s IH]; [done|]. cbn [map concat]. rewrite filter_cons. unfold xml_char at 1.
  destruct (invalid_xml c) eqn:Ei; [by rewrite decide_False by congruence|]. rewrite decide_True by done.
  destruct (is_markup c) eqn:Em.
  - unfold entity. change (lit "&#") with [38; 35]. change (lit ";") with [59]. cbn [app unescape].
    cbn [Z.eqb Pos.eqb andb]. rewrite IH. f_equal. pose proof (Z.div_mod c 10 ltac:(lia)). lia.
  - cbn [app unescape]. replace (c =? 38) with false by (unfold is_markup in Em; lia). by rewrite IH.
Qed.

(** Bytes that stand for themselves. *)
Definition plain (c : Z) : Prop := xml_char c = [c].

Lemma plain_all s : Forall plain s -> concat (map xml_char s) = s.
Proof. induction 1 as [|c s Hc H IH]; [done|]. cbn [map concat]. by rewrite Hc, IH. Qed.

Lemma plain_high c : 128 <= c -> plain c.
Proof.
  intros H. unfold plain, xml_char. replace (invalid_xml c) with false by (unfold invalid_xml; lia).
  by replace (is_markup c) with false by (unfold is_markup; lia).
Qed.

Lemma step_plain c rest : 128 <= c -> bytes (c :: rest) -> Forall plain (step (c :: rest)).1.
Proof.
  intros Hc Hb. assert (Forall plain [63]) as Q by by repeat constructor.
  destruct (step_encodes c rest Hb) as (cp & Hp & Ee). cbn [step] in Ee |- *.
  replace ((1 <=? c) && (c <=? 127)) with false in * by lia. cbv zeta in *.
  destruct (1 <? _) eqn:E1; [|done]. cbn [fst] in *. destruct (_ || _); [done|].
  destruct (_ && _ && _ && _) eqn:Ev; [|done]. clear Ee.
  rewrite !andb_true_iff in Ev. destruct Ev as [[[Ev _] _] _]. apply Z.eqb_eq in Ev.
  destruct (count_conts rest 1 (mb_num_chars c) (Z.to_nat (mb_num_chars c - 1)) ltac:(lia)) as [Hct _].
  replace (Z.to_nat (mb_num_chars c)) with (S (Z.to_nat (mb_num_chars c - 1))) by lia.
  cbn [take]. constructor; [by apply plain_high|].
  eapply List.Forall_impl; [|exact Hct]. intros d Hd. apply plain_high. simpl in Hd. lia.
Qed.

(** [pcdata] escapes text, the sanitised one unless there is a NUL. *)
Lemma pcdata_escapes fuel : forall l, bytes l ->
  exists x, pcdata_text fuel l = concat (map xml_char x) /\ (length x <= length l)%nat /\
    (Forall (fun c => c <> 0) l -> x = sanitize fuel l).
Proof.
  induction fuel as [|fuel IH]; intros [|c l] Hb; try by (exists []; split_and!; [done|simpl; lia|done]).
  pose proof Hb as Hb0. apply Forall_cons_1 in Hb as [Hc Hb]. cbn [pcdata_text sanitize].
  destruct (c <=? 127) eqn:Ea.
  - destruct (IH l Hb) as (x & E1 & E2 & E3). exists (c :: x). split_and!.
    + cbn [map concat]. rewrite E1. change (xml_char c) with (if invalid_xml c then [] else if is_markup c then entity c else [c]).
      destruct (invalid_xml c); [done|]. by destruct (is_markup c).
    + cbn [length]. lia.
    + intros [Hc0 Hz]%Forall_cons_1. rewrite (E3 Hz).
      assert (step (c :: l) = ([c], 1)) as ->; [|done].
      cbn [step]. by replace ((1 <=? c) && (c <=? 127)) with true by lia.
  - pose proof (step_takes c l) as Hk. pose proof (step_plain c l ltac:(lia) Hb0) as Hpl.
    destruct (IH (drop (Z.to_nat (step (c :: l)).2) (c :: l))) as (x & E1 & E2 & E3); [by apply Forall_drop|].
    exists ((step (c :: l)).1 ++ x). split_and!.
    + replace (invalid_xml c) with false by (unfold invalid_xml; lia).
      replace (is_markup c) with false by (unfold is_markup; lia).
      by rewrite map_app, concat_app, E1, (plain_all (step (c :: l)).1).
    + pose proof (step_shorter c l) as Hs. rewrite length_app. rewrite length_drop in E2. cbn [length] in *. lia.
    + intros Hz. rewrite E3; [done|by apply Forall_drop].
Qed.

(** Characters that end neither an element nor an attribute. *)
Definition harmless (c : Z) : Prop := c <> 34 /\ c <> 39 /\ c <> 60 /\ c <> 62.

Lemma entity_harmless c : is_markup c = true -> Forall harmless (entity c).
Proof.
  unfold is_markup. intros H. assert (c = 38 \/ c = 39 \/ c = 34 \/ c = 60 \/ c = 62) as Hc by lia.
  destruct_or!; subst c; vm_compute; repeat (apply Forall_cons_2; [by split_and!; discriminate|]); apply Forall_nil_2.
Qed.

Lemma xml_harmless s : Forall harmless (concat (map xml_char s)).
Proof.
  induction s as [|c s IH]; [constructor|]. cbn [map concat]. apply Forall_app. split; [|done].
  unfold xml_char. destruct (invalid_xml c); [constructor|]. destruct (is_markup c) eqn:Em; [by apply entity_harmless|].
  apply Forall_cons_2; [|apply Forall_nil_2]. unfold is_markup in Em. unfold harmless. lia.
Qed.

Lemma strip_harmless fuel : forall l prev, Forall harmless (strip_text fuel l prev).
Proof.
  assert (forall c, isspace c = true -> Forall harmless [c]) as Sp.
  { intros c Hc. apply Forall_cons_2; [|apply Forall_nil_2]. unfold isspace in Hc. unfold harmless. lia. }
  induction fuel as [|fuel IH]; intros [|c l] prev; cbn [strip_text]; try constructor.
  destruct (opens_tag (c :: l)).
  { destruct (behind_tag (c :: l)); [|apply IH]. apply Forall_app. split; [|apply IH].
    destruct (isspace prev); [constructor|]. by apply Sp. }
  destruct (isspace c) eqn:Es.
  { apply Forall_app. split; [|apply IH]. destruct (isspace prev); [constructor|]. by apply Sp. }
  destruct (is_markup c) eqn:Em; [apply Forall_app; split; [by apply entity_harmless|apply IH]|].
  constructor; [|apply IH]. unfold is_markup in Em. unfold harmless. lia.
Qed.

(** * Lua reads it back *)

(** The rest of a string literal in double quotes, as the Lua manual describes it: the text
    and what follows the closing quote; a line break ends the literal with an error.  Only the
    escapes that are used are read. *)
Fixpoint lua_string (l : list Z) : option (list Z * list Z) :=
  match l with
  | [] => None
  | c :: l =>
      if c =? 34 then Some ([], l)
      else if (c =? 10) || (c =? 13) then None
      else if c =? 92 then
        match l with
        | [] => None
        | d :: l =>
            p ← lua_string l;
            if (d =? 92) || (d =? 34) then Some (d :: p.1, p.2)
            else if d =? 110 then Some (10 :: p.1, p.2)
            else None
        end
      else p ← lua_string l; Some (c :: p.1, p.2)
  end.

(** What a translated text is after escaping for XML. *)
Definition shown (xml : bool) (c : Z) : list Z := if xml && is_markup c then entity c else [c].
Definition shown_all (xml : bool) (s : list Z) : list Z := concat (map (shown xml) s).

Lemma shown_plain s : shown_all false s = s.
Proof. unfold shown_all. induction s as [|c s IH]; [done|]. simpl. by rewrite IH. Qed.

Lemma lua_plain t rest p : Forall (fun c => c <> 34 /\ c <> 10 /\ c <> 13 /\ c <> 92) t ->
  lua_string rest = Some p -> lua_string (t ++ rest) = Some (t ++ p.1, p.2).
Proof.
  intros H Hp. induction H as [|c t (H1 & H2 & H3 & H4) H IH]; cbn [app lua_string].
  - rewrite Hp. by destruct p.
  - replace (c =? 34) with false by lia. replace ((c =? 10) || (c =? 13)) with false by lia.
    replace (c =? 92) with false by lia. by rewrite IH.
Qed.

Lemma entity_lua c : is_markup c = true ->
  Forall (fun c => c <> 34 /\ c <> 10 /\ c <> 13 /\ c <> 92) (entity c).
Proof.
  unfold is_markup. intros H. assert (c = 38 \/ c = 39 \/ c = 34 \/ c = 60 \/ c = 62) as Hc by lia.
  destruct_or!; subst c; vm_compute; repeat (apply Forall_cons_2; [by split_and!; discriminate|]); apply Forall_nil_2.
Qed.

Lemma lua_escape xml s rest : Forall (fun c => c <> 13) s ->
  lua_string (escape xml s ++ 34 :: rest) = Some (shown_all xml s, rest).
Proof.
  induction 1 as [|c s Hc H IH]; [done|]. unfold escape, shown_all in *. cbn [map concat].
  rewrite <- app_assoc. unfold esc_char at 1, shown at 1, is_markup.
  destruct (Z.eqb_spec c 92) as [->|H92].
  { cbn [Z.eqb Pos.eqb orb andb]. rewrite andb_false_r. cbn [app lua_string]. cbn [Z.eqb Pos.eqb orb].
    by rewrite IH. }
  destruct (Z.eqb_spec c 34) as [->|H34].
  { cbn [Z.eqb Pos.eqb orb]. rewrite andb_true_r. destruct xml.
    - change (lit "&#34;") with (entity 34). by rewrite (lua_plain _ _ _ (entity_lua 34 eq_refl) IH).
    - cbn [app lua_string]. cbn [Z.eqb Pos.eqb orb]. by rewrite IH. }
  destruct (Z.eqb_spec c 10) as [->|H10].
  { cbn [Z.eqb Pos.eqb orb andb]. rewrite andb_false_r. cbn [app lua_string]. cbn [Z.eqb Pos.eqb orb].
    by rewrite IH. }
  replace (xml && ((c =? 38) || (c =? 39) || false || (c =? 60) || (c =? 62)))
    with (((c =? 39) || (c =? 38) || (c =? 60) || (c =? 62)) && xml) by (destruct xml; lia).
  destruct (_ && xml) eqn:Em.
  - assert (is_markup c = true) as Hm by (unfold is_markup; lia).
    by rewrite (lua_plain _ _ _ (entity_lua c Hm) IH).
  - by rewrite (lua_plain [c] _ _ ltac:(apply Forall_cons_2; [lia|apply Forall_nil_2]) IH).
Qed.
End TplMarkup.
