(* ===== verification/TplTheorems.v ===== *)
(** The text helpers of the templates as a whole: what is sanitised, escaped and quoted
    comes out as it should, whatever the input. *)

From Stdlib Require Import ZArith Lia Ascii String.
From stdpp Require Import base list list_numbers numbers gmap.
From S2P Require Import Prelude Lmo TplUtils TplUtf8 TplUtilsSpec TplMarkup.

Open Scope list_scope.
Open Scope Z_scope.

Module TplTheorems.
Import TplUtils TplUtf8 TplUtilsSpec TplMarkup.

Section memory.
Context (E : env) (Mem : forall k, oom E k = false).

(** A buffer for [s], filled by [body], and what stays of it. *)
Lemma filled (s t : list Z) (body : template_buffer -> M world template_buffer) w :
  Z.of_nat (length s) <= limit ->
  (forall b w1 (Q : template_buffer -> world -> Prop), holds_text [] b ->
    (forall b' w2, holds_text t b' -> same w1 w2 -> Q b' w2) -> twp (body b) Q w1) ->
  exists d w', returns w t d w' /\ forall A (k : list Z -> A) (none : M world A),
    (b ← buf_init E (s32 (Z.of_nat (length s)));
     match b with None => none | Some b => b ← body b; d ← buf_destroy b; mret (k d) end) w = Ok (k d) w'.
Proof using Mem.
  intros Hl H. unfold limit in Hl. rewrite s32_small by lia.
  assert (twp (b ← buf_init E (Z.of_nat (length s));
    match b with None => mret None | Some b => b ← body b; d ← buf_destroy b; mret (Some d) end)
    (fun o w' => exists d, o = Some d /\ returns w t d w') w) as G.
  { twp_step. apply (twp_init E Mem); [lia|]. intros b w1 Hb S1. cbv beta iota.
    twp_step. apply H; [done|]. intros b' w2 Hb' S2. twp_step. eapply (twp_destroy t b' w); [done|by eapply same_trans|].
    intros d w3 R. twp_step. by exists d. }
  apply twp_elim in G as (o & w' & Eo & d & -> & R). exists d, w'. split; [done|].
  intros A k none. unfold mbind, M_bind in *. destruct (buf_init E _ w) as [[b|] w1| |]; try done.
  destruct (body b w1) as [b' w2| |]; try done. destruct (buf_destroy b' w2) as [d' w3| |]; try done.
  unfold mret, M_ret in *. by simplify_eq.
Qed.

Lemma utf8_ok s w : Z.of_nat (length s) <= limit ->
  exists d w', utf8 E s w = Ok (Some d) w' /\ returns w (sanitize (length s) s) d w'.
Proof using Mem.
  intros Hl. pose proof (sanitize_length (length s) s).
  destruct (filled s (sanitize (length s) s) (utf8_loop E (length s) s) w Hl) as (d & w' & R & H1).
  { intros b w1 Q Hb HQ. apply (twp_utf8_loop E Mem (length s) s []); [done|done|simpl; lia|done]. }
  exists d, w'. split; [apply H1|done].
Qed.

Lemma xml_length s : (length (concat (map xml_char s)) <= 5 * length s)%nat.
Proof using.
  induction s as [|c s IH]; cbn [map concat length]; [lia|]. rewrite length_app.
  assert (length (xml_char c) <= 5)%nat by (unfold xml_char; repeat case_match; simpl; lia). lia.
Qed.

Lemma pcdata_ok s w : 5 * Z.of_nat (length s) <= limit -> bytes s ->
  exists d w' x, pcdata E s w = Ok (Some d) w' /\ returns w (concat (map xml_char x)) d w' /\
    (Forall (fun c => c <> 0) s -> x = sanitize (length s) s).
Proof using Mem.
  intros Hl Hb. destruct (pcdata_escapes (length s) s Hb) as (x & Ep & Hx & Hz).
  pose proof (xml_length x) as Hp. rewrite <- Ep in Hp.
  destruct (filled s (pcdata_text (length s) s) (pcdata_loop E (length s) s) w) as (d & w' & R & H1).
  { lia. }
  { intros b w1 Q Hb1 HQ. apply (twp_pcdata_loop E Mem (length s) s []); [done|done|simpl; lia|done]. }
  exists d, w', x. rewrite <- Ep. split_and!; [apply H1|done|done].
Qed.

Lemma striptags_ok s w : 5 * Z.of_nat (length s) <= limit ->
  exists d w', striptags E s w = Ok d w' /\ returns w (strip_text (length s) s 32) d w'.
Proof using Mem.
  intros Hl. pose proof (strip_length (length s) s 32).
  destruct (filled s (strip_text (length s) s 32) (striptags_loop E (length s) s 32) w) as (d & w' & R & H1).
  { lia. }
  { intros b w1 Q Hb1 HQ. apply (twp_strip_loop E Mem (length s) s 32 []); [done|done|simpl; lia|done]. }
  exists d, w'. split; [|done]. specialize (H1 (list Z) (fun d => d) undef). unfold striptags.
  unfold mbind, M_bind in *. by destruct (buf_init E _ w) as [[b|] w1| |].
Qed.
End memory.

(** C21: [utf8] replaces in any bytes what is not UTF-8 by ['?'], one for a byte and continuation bytes behind it
    (NUL, surrogates, U+FFFE and U+FFFF included), and keeps the encoded code points between.  The result is
    a sequence of shortest encodings; it is UTF-8 as RFC 3629 has it unless the input has the four-byte form of a number
    beyond U+10FFFF, which is kept, although the comment on the function says that all invalid sequences are
    replaced.  Text that is encoded already is not changed.  Memory is available. *)
Theorem tpl_utf8 (E : env) (s : list Z) (w : world) :
  (forall k, oom E k = false) -> bytes s -> Z.of_nat (length s) <= limit ->
  exists d w' cps, utf8 E s w = Ok (Some d) w' /\ returns w (encode_all cps) d w' /\ sanitized s cps /\
    Forall passes cps /\ Forall (fun cp => cp < 1114112 \/ exists a b, s = a ++ encode cp ++ b) cps /\
    forall cps', Forall passes cps' -> s = encode_all cps' -> encode_all cps = s.
Proof.
  intros Mem Hb Hl. destruct (utf8_ok E Mem s w Hl) as (d & w' & E1 & R).
  destruct (sanitize_spec (length s) s Hb ltac:(done)) as (cps & Hp & Es). exists d, w', cps.
  rewrite <- Es. split_and!; [done|done|done|by eapply sanitized_passes|by apply sanitized_large|].
  intros cps' Hp' ->. by apply sanitize_encoded.
Qed.

(** C22: [pcdata] makes text safe for element content and attributes, whatever the input: no quote, no ['<'], no ['>'] is left.
    For an input without NUL, a browser that resolves the character references sees what [utf8] makes of the input, less
    the control characters XML does not allow (a NUL is dropped where [utf8] writes a ['?']).  What [striptags] leaves
    is as harmless.  Memory is available. *)
Theorem tpl_pcdata (E : env) (s : list Z) (w : world) :
  (forall k, oom E k = false) -> bytes s -> 5 * Z.of_nat (length s) <= limit ->
  (exists d w' t, pcdata E s w = Ok (Some d) w' /\ returns w t d w' /\ Forall harmless t /\
    (Forall (fun c => c <> 0) s -> exists d8 w8 t8, utf8 E s w = Ok (Some d8) w8 /\ returns w t8 d8 w8 /\
      unescape t = filter (fun c => invalid_xml c = false) t8)) /\
  (exists d w' t, striptags E s w = Ok d w' /\ returns w t d w' /\ Forall harmless t).
Proof.
  intros Mem Hb Hl. split.
  - destruct (pcdata_ok E Mem s w Hl Hb) as (d & w' & x & E1 & R1 & Hx).
    exists d, w', (concat (map xml_char x)). split_and!; [done|done|apply xml_harmless|]. intros Hz. rewrite (Hx Hz).
    destruct (utf8_ok E Mem s w ltac:(lia)) as (d8 & w8 & E2 & R2).
    exists d8, w8, (sanitize (length s) s). split_and!; [done|done|]. apply unescape_xml.
  - destruct (striptags_ok E Mem s w Hl) as (d & w' & E1 & R1).
    exists d, w', (strip_text (length s) s 32). split_and!; [done|done|apply strip_harmless].
Qed.

Lemma unescape_shown s : unescape (shown_all true s) = s.
Proof.
  unfold shown_all. induction s as [|c s IH]; [done|]. cbn [map concat]. unfold shown at 1. cbn [andb].
  destruct (is_markup c) eqn:Em.
  - unfold entity. change (lit "&#") with [38; 35]. change (lit ";") with [59]. cbn [app unescape].
    cbn [Z.eqb Pos.eqb andb]. rewrite IH. f_equal. pose proof (Z.div_mod c 10 ltac:(lia)). lia.
  - cbn [app unescape]. replace (c =? 38) with false by (unfold is_markup in Em; lia). by rewrite IH.
Qed.

(** C23: for a text without carriage return, what [luastr_escape] appends is the inside of a Lua string literal: with a
    quote behind it Lua reads the text back; with [escape_xml] the text with its markup as character references, so
    that the browser shows it.  (A carriage return is not escaped, and Lua rejects the literal.)  Memory is available. *)
Theorem tpl_literal (E : env) (b : template_buffer) (t s : list Z) (xml : bool) (w : world) :
  (forall k, oom E k = false) -> holds_text t b -> Forall (fun c => c <> 13) s ->
  Z.of_nat (length t) + 5 * Z.of_nat (length s) <= limit ->
  exists b' w' e u, luastr_escape E b s xml w = Ok b' w' /\ holds_text (t ++ e) b' /\ same w w' /\
    (forall rest, lua_string (e ++ 34 :: rest) = Some (u, rest)) /\
    (if xml then Forall harmless u /\ unescape u = s else u = s).
Proof.
  intros Mem Hb Hs Hl. pose proof (escape_length xml s).
  assert (twp (luastr_escape E b s xml) (fun b' w' => holds_text (t ++ escape xml s) b' /\ same w w') w) as G.
  { apply (twp_escape E Mem s t); [done|lia|done]. }
  apply twp_elim in G as (b' & w' & E1 & H1 & H2). exists b', w', (escape xml s), (shown_all xml s).
  split_and!; try done; [intros rest; by apply lua_escape|]. destruct xml; [|apply shown_plain].
  split; [|apply unescape_shown]. unfold shown_all. clear. induction s as [|c s IH]; [constructor|]. cbn [map concat].
  apply Forall_app. split; [|done]. unfold shown. cbn [andb]. destruct (is_markup c) eqn:Em; [by apply entity_harmless|].
  apply Forall_cons_2; [|apply Forall_nil_2]. unfold is_markup in Em. unfold harmless. lia.
Qed.

(** * Examples *)

Definition plenty : env := mkEnv (fun _ => false) 90.
Definition start : world := mkWorld 0 0 0 0 (Lmo.init []).

Ltac range_list := repeat (apply Forall_cons_2; [lia|]); apply Forall_nil_2.

(** An overlong slash, a lone continuation byte, and an e with an acute accent. *)
Definition broken : list Z := [192; 175; 97; 191; 195; 169].

Lemma tpl_utf8_witness :
  exists d w' cps, utf8 plenty broken start = Ok (Some d) w' /\ returns start (encode_all cps) d w' /\ sanitized broken cps /\
    Forall passes cps /\ Forall (fun cp => cp < 1114112 \/ exists a b, broken = a ++ encode cp ++ b) cps /\
    forall cps', Forall passes cps' -> broken = encode_all cps' -> encode_all cps = broken.
Proof.
  apply (tpl_utf8 plenty broken start); [done|unfold broken, bytes; range_list|by vm_compute].
Defined.

Definition script : list Z := lit "<a href='x'>5 & 6</a>".

Lemma tpl_pcdata_witness :
  (exists d w' t, pcdata plenty script start = Ok (Some d) w' /\ returns start t d w' /\ Forall harmless t /\
    (Forall (fun c => c <> 0) script -> exists d8 w8 t8, utf8 plenty script start = Ok (Some d8) w8 /\ returns start t8 d8 w8 /\
      unescape t = filter (fun c => invalid_xml c = false) t8)) /\
  (exists d w' t, striptags plenty script start = Ok d w' /\ returns start t d w' /\ Forall harmless t).
Proof.
  apply (tpl_pcdata plenty script start); [done|unfold bytes; cbn; range_list|by vm_compute].
Defined.

Definition fresh : template_buffer := mkBuf [0; 90; 90] 0 3 0.

Lemma tpl_literal_witness :
  exists b' w' e u, luastr_escape plenty fresh [34; 92; 10; 60] true start = Ok b' w' /\ holds_text ([] ++ e) b' /\ same start w' /\
    (forall rest, lua_string (e ++ 34 :: rest) = Some (u, rest)) /\ Forall harmless u /\ unescape u = [34; 92; 10; 60].
Proof.
  apply (tpl_literal plenty fresh [] [34; 92; 10; 60] true start).
  - done.
  - split; [by exists [90; 90]|done|done|done|by vm_compute].
  - range_list.
  - by vm_compute.
Defined.
End TplTheorems.
