(* ===== verification/Template.v ===== *)
(** The template parser of the web interface, [luci/luci-base/src/template_parser.c]:
    a template is turned into Lua source, chunk by chunk, as [lua_load] asks for it.

    A parser is its record; pointers into the template are offsets, and [mem] are the
    bytes that can be read from [data] on: those of the template and, for a string, its
    NUL, for a file, the rest of its last page.  [gc] says whether a block for the last
    chunk is to be freed. *)

From Stdlib Require Import ZArith Lia Ascii String.
From stdpp Require Import base list list_numbers numbers gmap.
From S2P Require Import Prelude CString Lmo TplUtils.

Open Scope list_scope.
Open Scope Z_scope.

Module Template.
Import TplUtils.

(** * Data *)

Inductive ctype :=
| T_TYPE_INIT | T_TYPE_TEXT | T_TYPE_COMMENT | T_TYPE_EXPR | T_TYPE_INCLUDE
| T_TYPE_I18N | T_TYPE_I18N_RAW | T_TYPE_CODE | T_TYPE_EOF.

Record template_chunk := mkChunk { c_s : Z; c_e : Z; c_type : ctype; c_line : Z }.
#[export] Instance eta_chunk : Eta template_chunk := fun c => mkChunk (c_s c) (c_e c) (c_type c) (c_line c).

Record template_parser := mkParser {
  mem : list Z;
  size : Z;
  off : Z;
  gc : bool;
  line : Z;
  in_expr : bool;
  strip_before : bool;
  strip_after : bool;
  prv_chunk : template_chunk;
  cur_chunk : template_chunk;
  file : option (list Z);
  fd : bool
}.
#[export] Instance eta_parser : Eta template_parser := fun p =>
  mkParser (mem p) (size p) (off p) (gc p) (line p) (in_expr p) (strip_before p) (strip_after p)
    (prv_chunk p) (cur_chunk p) (file p) (fd p).

(** [gen_code] *)
Definition gen_head (t : ctype) : option (list Z) :=
  match t with
  | T_TYPE_TEXT | T_TYPE_I18N | T_TYPE_I18N_RAW => Some (lit "write(" ++ [34])
  | T_TYPE_EXPR => Some (lit "write(tostring(")
  | T_TYPE_INCLUDE => Some (lit "include(" ++ [34])
  | _ => None
  end.
Definition gen_tail (t : ctype) : option (list Z) :=
  match t with
  | T_TYPE_TEXT | T_TYPE_I18N | T_TYPE_I18N_RAW | T_TYPE_INCLUDE => Some ([34] ++ lit ")")
  | T_TYPE_EXPR => Some (lit " or " ++ [34; 34] ++ lit "))")
  | T_TYPE_CODE => Some (lit " ")
  | _ => None
  end.

(** * Searching *)

(** [strfind]: the comparison at one position, and the loop. *)
Fixpoint rest_agrees (nd hs : list Z) : bool :=
  match nd, hs with
  | a :: nd, b :: hs => (a =? b) && rest_agrees nd hs
  | _, _ => true
  end.
Definition matches_at (nd hs : list Z) : bool :=
  match nd, hs with
  | a :: nd', b :: hs' =>
      (b =? a) && ((length nd =? 1)%nat || (length nd <=? length hs)%nat) && rest_agrees nd' hs'
  | _, _ => false
  end.
Fixpoint strfind (hs nd : list Z) (i : Z) : option Z :=
  match hs with
  | [] => None
  | _ :: hs' => if matches_at nd hs then Some i else strfind hs' nd (i + 1)
  end.

(** * Opening and closing *)

Definition no_chunk : template_chunk := mkChunk 0 0 T_TYPE_INIT 0.

(** The system: whether [open] and [mmap] succeed. *)
Record sys := mkSys { contents : option (list Z); may_open : bool; may_map : bool }.

Definition PAGE_SIZE : nat := Z.to_nat 4096.
Definition page (l : list Z) : list Z :=
  l ++ repeat 0 ((PAGE_SIZE - length l mod PAGE_SIZE) mod PAGE_SIZE).

Section parser.
Context (E : env) (schar : bool).

Definition when (b : bool) (m : M world unit) : M world unit := if b then m else mret tt.

(** [template_close]; the mapping and the descriptor belong to a file. *)
Definition template_close (p : template_parser) (mapped : bool) : M world unit :=
  when (gc p) free;;
  match file p with
  | Some _ =>
      when mapped (modify (fun w => w <| tmaps ::= Z.add (-1) |>));;
      when (fd p) (modify (fun w => w <| tfds ::= Z.add (-1) |>))
  | None => mret tt
  end;;
  free.

Definition template_open (s : sys) (name : list Z) : M world (option template_parser) :=
  ok ← malloc E;
  if negb ok then mret None
  else
    let p := mkParser [] 0 0 false 0 false false false no_chunk no_chunk (Some name) false in
    match contents s with
    | None => template_close p false;; mret None
    | Some bs =>
        if negb (may_open s) then template_close p false;; mret None
        else
          modify (fun w => w <| tfds ::= Z.add 1 |>);;
          let sz := u32 (Z.of_nat (length bs)) in
          let p := p <| fd := true |> <| size := sz |> in
          if may_map s && negb (sz =? 0) then
            modify (fun w => w <| tmaps ::= Z.add 1 |>);;
            mret (Some (p <| mem := page (take (Z.to_nat sz) bs) |>))
          else template_close p false;; mret None
    end.

(** [template_string] on a string that is not null; behind it is a NUL. *)
Definition template_string (str : list Z) : M world (option template_parser) :=
  ok ← malloc E;
  if negb ok then mret None
  else
    mret (Some (mkParser (str ++ [0]) (u32 (Z.of_nat (length str))) 0 false 0 false false false
                  no_chunk no_chunk None false)).

(** * Chunks *)

Definition byte_at (p : template_parser) (i : Z) : M world Z :=
  if 0 <=? i then lift (mem p !! Z.to_nat i) else undef.

(** [while ((s <= e) && test( *s)) s++] *)
Fixpoint skip (test : Z -> bool) (p : template_parser) (fuel : nat) (s e : Z) : M world Z :=
  match fuel with
  | O => mret s
  | S fuel =>
      if s <=? e then
        c ← byte_at p s;
        if test c then skip test p fuel (s + 1) e else mret s
      else mret s
  end.
Definition rounds (s e : Z) : nat := Z.to_nat (e - s + 1).

Definition template_text (p : template_parser) (e : Z) : M world template_parser :=
  let s := off p in
  if s <? size p then
    s ← (if strip_after p then skip isspace p (rounds s e) s e else mret s);
    mret (p <| cur_chunk := mkChunk s e T_TYPE_TEXT (line p) |>)
  else mret (p <| cur_chunk := mkChunk s e T_TYPE_EOF (line p) |>).

Definition blank (c : Z) : bool := (c =? 32) || (c =? 9).

(** [for (e--; (e >= s) && blank( *e); e--)], from [e - 1] on. *)
Fixpoint skip_back (p : template_parser) (fuel : nat) (s e : Z) : M world Z :=
  match fuel with
  | O => mret e
  | S fuel =>
      if s <=? e then
        c ← byte_at p e;
        if blank c then skip_back p fuel s (e - 1) else mret e
      else mret e
  end.

(** The type by the first character, and whether that is passed. *)
Definition code_type (c : Z) : ctype * bool :=
  if c =? 35 then (T_TYPE_COMMENT, true)
  else if c =? 43 then (T_TYPE_INCLUDE, true)
  else if c =? 58 then (T_TYPE_I18N, true)
  else if c =? 95 then (T_TYPE_I18N_RAW, true)
  else if c =? 61 then (T_TYPE_EXPR, true)
  else (T_TYPE_CODE, false).

Definition template_code (p : template_parser) (e : Z) : M world template_parser :=
  let s := off p in
  c ← byte_at p s;
  '(before, s) ← (if c =? 45 then s ← skip blank p (rounds (s + 1) e) (s + 1) e; mret (true, s)
                  else mret (false, s));
  c ← byte_at p (e - 1);
  '(after, e) ← (if c =? 45 then e ← skip_back p (rounds s (e - 1)) s (e - 1); mret (true, e)
                 else mret (false, e));
  c ← byte_at p s;
  let '(t, pass) := code_type c in
  mret (p <| strip_before := before |> <| strip_after := after |>
          <| cur_chunk := mkChunk (if (pass : bool) then s + 1 else s) e t (line p) |>).

(** [while ((c->e > c->s) && isspace( *(c->e - 1))) c->e--] *)
Fixpoint strip_end (p : template_parser) (fuel : nat) (s e : Z) : M world Z :=
  match fuel with
  | O => mret e
  | S fuel =>
      if s <? e then
        c ← byte_at p (e - 1);
        if isspace c then strip_end p fuel s (e - 1) else mret e
      else mret e
  end.

(** The text of a chunk; a negative length is undefined. *)
Definition span (p : template_parser) (s e : Z) : M world (list Z) :=
  if (0 <=? s) && (s <=? e) && (e <=? Z.of_nat (length (mem p)))
  then mret (take (Z.to_nat (e - s)) (drop (Z.to_nat s) (mem p))) else undef.

Definition newlines (l : list Z) : Z := Z.of_nat (length (filter (fun c => c = 10) l)).

(** [if (s != NULL) buf_append(buf, s, strlen(s))] *)
Definition append_opt (b : template_buffer) (o : option (list Z)) : M world template_buffer :=
  match o with
  | Some s => '(b, _) ← buf_append E b s (Z.of_nat (length s)); mret b
  | None => mret b
  end.

(** The [switch] of [template_format_chunk]. *)
Definition format_body (p : template_parser) (c : template_chunk) (b : template_buffer)
    : M world (template_parser * template_buffer) :=
  match c_type c with
  | T_TYPE_TEXT | T_TYPE_INCLUDE =>
      s ← span p (c_s c) (c_e c); b ← luastr_escape E b s false; mret (p, b)
  | T_TYPE_I18N => s ← span p (c_s c) (c_e c); b ← luastr_translate E schar b s true; mret (p, b)
  | T_TYPE_I18N_RAW => s ← span p (c_s c) (c_e c); b ← luastr_translate E schar b s false; mret (p, b)
  | T_TYPE_EXPR | T_TYPE_CODE =>
      '(b, _) ← buf_append E b (drop (Z.to_nat (c_s c)) (mem p)) (c_e c - c_s c);
      s ← span p (c_s c) (c_e c);
      mret (p <| line ::= Z.add (newlines s) |>, b)
  | _ => mret (p, b)
  end.

Definition template_format_chunk (p : template_parser) : M world (template_parser * option (list Z)) :=
  let p := p <| gc := false |> in
  let c := prv_chunk p in
  e ← (match c_type c with
       | T_TYPE_TEXT => if strip_before p then strip_end p (rounds (c_s c) (c_e c)) (c_s c) (c_e c)
                        else mret (c_e c)
       | _ => mret (c_e c)
       end);
  let c := c <| c_e := e |> in
  let p := p <| prv_chunk := c |> in
  if c_s c =? c_e c then
    mret (p, match c_type c with T_TYPE_EOF => None | _ => Some (lit " ") end)
  else
    b ← buf_init E (c_e c - c_s c);
    match b with
    | None => mret (p, None)
    | Some b =>
        b ← append_opt b (gen_head (c_type c));
        '(p, b) ← format_body p c b;
        b ← append_opt b (gen_tail (c_type c));
        d ← buf_destroy b;
        let sz := buf_length b in
        mret (p <| gc := true |>,
              Some (if sz =? 0 then lit " " else take (Z.to_nat sz) d))
    end.

(** [template_reader]: the next piece of Lua source, none at the end. *)
Definition template_reader (p : template_parser) : M world (template_parser * option (list Z)) :=
  let rem := s32 (size p - off p) in
  let p := p <| prv_chunk := cur_chunk p |> in
  when (gc p) free;;
  let p := p <| gc := false |> in
  hay ← (if 0 <=? rem then span p (off p) (off p + rem) else mret []);
  if negb (in_expr p) then
    match strfind hay [60; 37] (off p) with
    | Some tag =>
        p ← template_text p tag;
        template_format_chunk (p <| off := tag + 2 |> <| in_expr := true |>)
    | None =>
        p ← template_text p (size p);
        template_format_chunk (p <| off := size p |>)
    end
  else
    match strfind hay [37; 62] (off p) with
    | Some tag =>
        p ← template_code p tag;
        template_format_chunk (p <| off := tag + 2 |> <| in_expr := false |>)
    | None =>
        p ← template_code p (size p);
        mret (p, Some [27])
    end.

(** [lua_load] asks for pieces until there is none. *)
Fixpoint read_all (fuel : nat) (p : template_parser) (acc : list (list Z))
    : M world (template_parser * list (list Z)) :=
  match fuel with
  | O => mret (p, acc)
  | S fuel =>
      '(p, s) ← template_reader p;
      match s with
      | Some s => read_all fuel p (acc ++ [s])
      | None => mret (p, acc)
      end
  end.

(** * Errors *)

Fixpoint skip_spaces (s : list Z) : list Z :=
  match s with c :: t => if isspace c then skip_spaces t else s | [] => [] end.
Fixpoint digits (s : list Z) (n : Z) : Z :=
  match s with
  | c :: s => if (48 <=? c) && (c <=? 57) then digits s (10 * n + (c - 48)) else n
  | [] => n
  end.
Definition atoi (s : list Z) : Z :=
  match skip_spaces s with
  | c :: t => if c =? 45 then - digits t 0 else if c =? 43 then digits t 0 else digits (c :: t) 0
  | [] => 0
  end.
Definition print_d (n : Z) : list Z :=
  if n <? 0 then 45 :: lit (CString.print_u (- n)) else lit (CString.print_u n).

(** The text behind the first space. *)
Fixpoint behind_space (l : list Z) : option (list Z) :=
  match l with
  | [] => None
  | c :: l => if c =? 32 then Some l else behind_space l
  end.

(** [template_error] on the message of Lua: the line and the message it pushes. *)
Definition template_error (p : template_parser) (err : list Z) : Z * list Z :=
  let '(chunkline, err) :=
    match strfind err [93; 58] 0 with
    | Some i =>
        (atoi (drop (Z.to_nat i + 2) err) - c_line (prv_chunk p),
         default err (behind_space (drop (Z.to_nat i) err)))
    | None => (0, err)
    end in
  let '(o, chunkline, err) :=
    match strfind err (lit "'char(27)'") 0 with
    | Some _ => (size p, 0, lit "'%>' expected before end of file")
    | None => (c_s (prv_chunk p), chunkline, err)
    end in
  let line := newlines (take (Z.to_nat o) (mem p)) in
  (line + chunkline,
   take 1023 (lit "Syntax error in " ++ default (lit "[string]") (file p) ++ lit ":" ++
              print_d (line + chunkline) ++ lit ": " ++ err)).

End parser.
End Template.
