(* ===== verification/TemplateSpec.v ===== *)
(** Templates: their meaning as a list of pieces, each with its Lua source, and the
    parts of the parser against it. *)

From Stdlib Require Import ZArith Lia Ascii String.
From stdpp Require Import base list list_numbers numbers gmap.
From S2P Require Import Prelude CString Lmo TplUtils TplUtf8 TplUtilsSpec TplMarkup Template.

Open Scope list_scope.
Open Scope Z_scope.

Module TemplateSpec.
Import TplUtils TplUtilsSpec TplMarkup Template.

(** * Pieces *)

(** The text before and after the first [a b]. *)
Fixpoint find2 (a b : Z) (l : list Z) : option (list Z * list Z) :=
  match l with
  | x :: l' =>
      match l' with
      | y :: r => if (x =? a) && (y =? b) then Some ([], r)
                  else p ← find2 a b l'; Some (x :: p.1, p.2)
      | [] => None
      end
  | [] => None
  end.

Fixpoint dropw (test : Z -> bool) (l : list Z) : list Z :=
  match l with c :: t => if test c then dropw test t else l | [] => [] end.
Definition rtrim (l : list Z) : list Z := reverse (dropw isspace (reverse l)).
Definition ltrim_if (b : bool) (l : list Z) : list Z := if b then dropw isspace l else l.
Definition rtrim_if (b : bool) (l : list Z) : list Z := if b then rtrim l else l.

(** A tag by what stands between ["<%"] and ["%>"]: whether a ['-'] asks to strip the text before
    and after it, its type, and its body. *)
Record tag := mkTag { t_before : bool; t_after : bool; t_type : ctype; t_body : list Z }.

Definition front (code : list Z) : bool * list Z :=
  match code with
  | c :: l => if c =? 45 then (true, dropw blank l) else (false, code)
  | [] => (false, [])
  end.
Definition back (code : list Z) : bool :=
  match last code with Some c => c =? 45 | None => false end.
Definition tag_of (code : list Z) : tag :=
  let '(before, l) := front code in
  let after := back code in
  let l' := if after then removelast l else l in
  let '(t, pass) := code_type (default 37 (head l)) in
  mkTag before after t (if pass then tail l' else l').

Inductive piece :=
| Text (s : list Z)
| Tag (t : ctype) (s : list Z).

(** The pieces that a template asks for: every text is stripped at its start when the tag before it
    asks for it, and at its end when the tag behind it does.  With them, whether every tag ends (the text before a
    tag that does not is not a piece) and whether the last tag asked to strip the text before it.
    [before] and [after] are the wishes of the tag before [t].  There are none when a tag is a ['-'] alone. *)
Fixpoint asked_for (fuel : nat) (before after : bool) (t : list Z) : option (list piece * bool * bool) :=
  match fuel, t with
  | _, [] => Some ([], true, before)
  | O, _ => None
  | S fuel, _ =>
      match find2 60 37 t with
      | None => Some ([Text (ltrim_if after t)], true, before)
      | Some (pre, post) =>
          match find2 37 62 post with
          | None => Some ([], false, before)
          | Some (code, rest) =>
              if decide (code = [45]) then None
              else
                let g := tag_of code in
                '(ps, fin, b) ← asked_for fuel (t_before g) (t_after g) rest;
                Some (Text (rtrim_if (t_before g) (ltrim_if after pre)) :: Tag (t_type g) (t_body g) :: ps, fin, b)
          end
      end
  end.

(** The text behind the last tag, if there is one, without the white space at its end. *)
Fixpoint trailing (b : bool) (ps : list piece) : list piece :=
  match ps with
  | [Text s] => [Text (rtrim_if b s)]
  | p :: ps => p :: trailing b ps
  | [] => []
  end.

(** The pieces the parser makes.  It keeps the wish of the last tag to strip the text before it,
    and strips the text behind it at its end. *)
Fixpoint pieces (fuel : nat) (before after : bool) (t : list Z) : option (list piece * bool) :=
  match fuel, t with
  | _, [] => Some ([], true)
  | O, _ => None
  | S fuel, _ =>
      match find2 60 37 t with
      | None => Some ([Text (rtrim_if before (ltrim_if after t))], true)
      | Some (pre, post) =>
          match find2 37 62 post with
          | None => Some ([], false)
          | Some (code, rest) =>
              if decide (code = [45]) then None
              else
                let g := tag_of code in
                '(ps, fin) ← pieces fuel (t_before g) (t_after g) rest;
                Some (Text (rtrim_if (t_before g) (ltrim_if after pre)) :: Tag (t_type g) (t_body g) :: ps, fin)
          end
      end
  end.

Lemma asked_pieces fuel : forall before after t ps fin b,
  asked_for fuel before after t = Some (ps, fin, b) -> pieces fuel before after t = Some (trailing b ps, fin).
Proof.
  induction fuel as [|fuel IH]; intros before after t ps fin b H; (destruct t as [|c t]; [by injection H as <- <- <-|]); [done|].
  cbn [asked_for pieces] in *. destruct (find2 60 37 (c :: t)) as [[pre post]|]; [|by injection H as <- <- <-].
  destruct (find2 37 62 post) as [[code rest]|]; [|by injection H as <- <- <-].
  destruct (decide (code = [45])); [done|]. cbv zeta in *.
  destruct (asked_for fuel _ _ rest) as [[[qs fin'] b']|] eqn:E; [|done]. simpl in H. injection H as <- <- <-.
  rewrite (IH _ _ _ _ _ _ E). done.
Qed.

Lemma trailing_length b ps : length (trailing b ps) = length ps.
Proof.
  induction ps as [|p ps IH]; [done|]. destruct p as [s|ty s]; [|simpl; by rewrite IH].
  destruct ps; [done|]. simpl in *. by rewrite IH.
Qed.

(** The Lua source of a piece; [tr] translates. *)
Definition inner (tr : list Z -> list Z) (t : ctype) (s : list Z) : list Z :=
  match t with
  | T_TYPE_TEXT | T_TYPE_INCLUDE => escape false s
  | T_TYPE_I18N => escape true (tr s)
  | T_TYPE_I18N_RAW => escape false (tr s)
  | T_TYPE_EXPR | T_TYPE_CODE => s
  | _ => []
  end.
Definition source_of (tr : list Z -> list Z) (t : ctype) (s : list Z) : list Z :=
  let l := default [] (gen_head t) ++ inner tr t s ++ default [] (gen_tail t) in
  match s, l with
  | [], _ => lit " "
  | _, [] => lit " "
  | _, _ => l
  end.
Definition piece_source (tr : list Z -> list Z) (p : piece) : list Z :=
  match p with Text s => source_of tr T_TYPE_TEXT s | Tag t s => source_of tr t s end.

(** * Searching and stripping *)

Lemma find2_cons a b x y r : find2 a b (x :: y :: r) =
  if (x =? a) && (y =? b) then Some ([], r) else p ← find2 a b (y :: r); Some (x :: p.1, p.2).
Proof. done. Qed.

Lemma find2_split a b l : forall pre post, find2 a b l = Some (pre, post) -> l = pre ++ a :: b :: post.
Proof.
  induction l as [|x l IH]; intros pre post H; [done|]. destruct l as [|y r]; [done|].
  rewrite find2_cons in H. destruct ((x =? a) && (y =? b)) eqn:E1.
  - apply andb_true_iff in E1 as [Ex%Z.eqb_eq Ey%Z.eqb_eq]. simplify_eq. done.
  - destruct (find2 a b (y :: r)) as [[pre' post']|] eqn:E2; [|done].
    simplify_eq/=. by rewrite (IH _ _ eq_refl).
Qed.

Lemma strfind_find2 a b l : forall i,
  strfind l [a; b] i = match find2 a b l with Some (pre, _) => Some (i + Z.of_nat (length pre)) | None => None end.
Proof.
  induction l as [|x l IH]; intros i; [done|]. destruct l as [|y r].
  - cbn. by rewrite andb_false_r.
  - change (strfind (x :: y :: r) [a; b] i) with
      (if matches_at [a; b] (x :: y :: r) then Some i else strfind (y :: r) [a; b] (i + 1)).
    assert (matches_at [a; b] (x :: y :: r) = (x =? a) && (y =? b)) as ->.
    { cbn. rewrite !andb_true_r. by rewrite (Z.eqb_sym b y). }
    rewrite find2_cons. destruct ((x =? a) && (y =? b)); [cbn [length]; f_equal; lia|]. rewrite IH.
    destruct (find2 a b (y :: r)) as [[pre post]|]; [|done]. cbn. f_equal. lia.
Qed.

(** The offsets [s] and [e] enclose [l]. *)
Definition encloses (p : template_parser) (s e : Z) (l : list Z) : Prop :=
  exists X Y, mem p = X ++ l ++ Y /\ s = Z.of_nat (length X) /\ e = Z.of_nat (length X) + Z.of_nat (length l).

Lemma byte_ok p X c Y i w : mem p = X ++ c :: Y -> i = Z.of_nat (length X) -> byte_at p i w = Ok c w.
Proof.
  intros Hm ->. unfold byte_at. rewrite (proj2 (Z.leb_le _ _)) by lia. rewrite Nat2Z.id, Hm.
  by rewrite list_lookup_middle.
Qed.

Lemma dropw_split test l : exists x, l = x ++ dropw test l.
Proof.
  induction l as [|c l [x IH]]; [by exists []|]. cbn [dropw]. destruct (test c); [|by exists []].
  exists (c :: x). simpl. by rewrite <- IH.
Qed.

Lemma skip_ok test p l : forall X c Y fuel w, mem p = X ++ l ++ c :: Y -> test c = false ->
  (length l < fuel)%nat -> let s := Z.of_nat (length X) in let e := s + Z.of_nat (length l) in
  skip test p fuel s e w = Ok (e - Z.of_nat (length (dropw test l))) w.
Proof.
  induction l as [|x l IH]; intros X c Y fuel w Hm Hc Hf s e; destruct fuel as [|fuel]; simpl in Hf; try lia.
  - cbn [skip]. rewrite (proj2 (Z.leb_le s e)) by (unfold e; simpl; lia).
    eapply bind_ok; [by apply (byte_ok p X c Y)|]. rewrite Hc. unfold mret, M_ret, e. f_equal. simpl. lia.
  - cbn [skip]. rewrite (proj2 (Z.leb_le s e)) by lia.
    eapply bind_ok; [by apply (byte_ok p X x (l ++ c :: Y))|]. cbn [dropw]. destruct (test x) eqn:Ex.
    + replace (s + 1) with (Z.of_nat (length (X ++ [x]))) by (unfold s; rewrite length_app; simpl; lia).
      replace e with (Z.of_nat (length (X ++ [x])) + Z.of_nat (length l))
        by (unfold e, s; rewrite length_app; simpl; lia).
      apply (IH (X ++ [x]) c Y); [by rewrite <- app_assoc|done|lia].
    + unfold mret, M_ret, e. f_equal. lia.
Qed.

Lemma rtrim_app l c : rtrim (l ++ [c]) = if isspace c then rtrim l else l ++ [c].
Proof.
  unfold rtrim. rewrite reverse_app. change (reverse [c]) with [c]. cbn [app dropw].
  destruct (isspace c); [done|]. rewrite reverse_cons, reverse_involutive. done.
Qed.

Lemma rtrim_split l : exists y, l = rtrim l ++ y.
Proof.
  unfold rtrim. destruct (dropw_split isspace (reverse l)) as [x Hx]. exists (reverse x).
  rewrite <- reverse_app, <- Hx. by rewrite reverse_involutive.
Qed.

Lemma strip_end_ok p l : forall X Y fuel w, mem p = X ++ l ++ Y -> (length l <= fuel)%nat ->
  let s := Z.of_nat (length X) in
  strip_end p fuel s (s + Z.of_nat (length l)) w = Ok (s + Z.of_nat (length (rtrim l))) w.
Proof.
  induction l as [|c l IH] using rev_ind; intros X Y fuel w Hm Hf s.
  - destruct fuel; cbn [strip_end]; [done|]. by rewrite (proj2 (Z.ltb_ge _ _)) by (simpl; lia).
  - rewrite length_app in Hf |- *. cbn [length] in *. destruct fuel as [|fuel]; [lia|].
    cbn [strip_end]. rewrite (proj2 (Z.ltb_lt _ _)) by lia. rewrite <- app_assoc in Hm.
    eapply bind_ok; [apply (byte_ok p (X ++ l) c Y); [by rewrite <- app_assoc|unfold s; rewrite length_app; lia]|].
    rewrite rtrim_app. destruct (isspace c).
    + replace (s + Z.of_nat (length l + 1) - 1) with (s + Z.of_nat (length l)) by lia.
      by apply (IH X ([c] ++ Y)); [|lia].
    + unfold mret, M_ret. rewrite length_app. done.
Qed.

(** * Chunks *)

Lemma text_ok p X pre c Y w : mem p = X ++ pre ++ c :: Y -> off p = Z.of_nat (length X) ->
  isspace c = false -> off p < size p ->
  let e := off p + Z.of_nat (length pre) in
  let l := ltrim_if (strip_after p) pre in
  template_text p e w =
    Ok (p <| cur_chunk := mkChunk (e - Z.of_nat (length l)) e T_TYPE_TEXT (line p) |>) w /\
  encloses p (e - Z.of_nat (length l)) e l.
Proof.
  intros Hm Ho Hc Hs e l. destruct (dropw_split isspace pre) as [x Hx]. split.
  - unfold template_text. rewrite (proj2 (Z.ltb_lt _ _)) by done. unfold l, ltrim_if.
    destruct (strip_after p).
    + eapply bind_ok; [|reflexivity]. unfold e. rewrite Ho. apply (skip_ok isspace p pre X c Y); [done|done|].
      unfold rounds. lia.
    + eapply bind_ok; [reflexivity|]. unfold e.
      by replace (off p + Z.of_nat (length pre) - Z.of_nat (length pre)) with (off p) by lia.
  - unfold l, ltrim_if. destruct (strip_after p).
    + exists (X ++ x), (c :: Y). rewrite Hm. split; [by rewrite Hx at 1; rewrite <- !app_assoc|].
      unfold e. rewrite Ho, length_app. apply (f_equal length) in Hx. rewrite length_app in Hx. lia.
    + exists X, (c :: Y). split; [done|]. unfold e. lia.
Qed.

(** The front of a tag. *)
Lemma front_ok p X code Y w : mem p = X ++ code ++ 37 :: Y ->
  let s := Z.of_nat (length X) in let e := s + Z.of_nat (length code) in
  let l := (front code).2 in
  (c ← byte_at p s;
   if c =? 45 then s ← skip blank p (rounds (s + 1) e) (s + 1) e; mret (true, s) else mret (false, s)) w =
    Ok ((front code).1, e - Z.of_nat (length l)) w /\
  exists x, code = x ++ l /\ ((front code).1 = false -> x = []) /\
    ((front code).1 = true -> Forall (fun c => blank c = true) (drop 1 x) /\ take 1 x = [45]).
Proof.
  intros Hm s e l. destruct code as [|x code].
  - split; [|by exists []]. eapply bind_ok; [by apply (byte_ok p X 37 Y)|]. unfold mret, M_ret. simpl.
    do 2 f_equal. unfold e. simpl. lia.
  - unfold l. cbn [front]. destruct (x =? 45) eqn:Ex.
    + apply Z.eqb_eq in Ex as ->. split.
      * eapply bind_ok; [by apply (byte_ok p X 45 (code ++ 37 :: Y))|]. cbn [Z.eqb Pos.eqb].
        replace (s + 1) with (Z.of_nat (length (X ++ [45]))) by (unfold s; rewrite length_app; simpl; lia).
        replace e with (Z.of_nat (length (X ++ [45])) + Z.of_nat (length code))
          by (unfold e, s; rewrite length_app; simpl; lia).
        eapply bind_ok; [apply (skip_ok blank p code (X ++ [45]) 37 Y); [by rewrite <- app_assoc|done|]|done].
        unfold rounds. lia.
      * cbn [fst snd]. assert (forall l, exists y, l = y ++ dropw blank l /\ Forall (fun c => blank c = true) y) as Sp.
        { induction l0 as [|c l0 (y & H1 & H2)]; [by exists []|]. cbn [dropw]. destruct (blank c) eqn:Eb; [|by exists []].
          exists (c :: y). split; [simpl; by rewrite <- H1|by constructor]. }
        destruct (Sp code) as (y & H1 & H2). exists (45 :: y). split; [simpl; by rewrite <- H1|].
        split; [done|]. intros _. simpl. by rewrite drop_0.
    + split; [|by exists []]. eapply bind_ok; [by apply (byte_ok p X x (code ++ 37 :: Y))|]. rewrite Ex.
      unfold mret, M_ret. cbn [fst snd]. do 2 f_equal. unfold e. lia.
Qed.

Lemma bind_assoc_ok {A B C} (m : M world A) (f : A -> M world B) (k : B -> M world C) w b w' r :
  (a ← m; f a) w = Ok b w' -> k b w' = r -> (a ← m; b ← f a; k b) w = r.
Proof. unfold mbind, M_bind. destruct (m w) as [a w1| |]; try done. by intros -> ->. Qed.

(** The end of a tag: [l] is what its front left. *)
Lemma back_ok p Z0 l code Y w : mem p = Z0 ++ l ++ 37 :: Y -> code <> [] -> (exists x, code = x ++ l) ->
  (back code = true -> l <> []) ->
  (exists V, Z0 ++ l = V ++ code) ->
  let s := Z.of_nat (length Z0) in let e := s + Z.of_nat (length l) in
  let l' := if back code then removelast l else l in
  (c ← byte_at p (e - 1);
   if c =? 45 then e ← skip_back p (rounds s (e - 1)) s (e - 1); mret (true, e) else mret (false, e)) w =
    Ok (back code, s + Z.of_nat (length l')) w /\ (exists y, l = l' ++ y).
Proof.
  intros Hm Hne [x Hx] Hb [V HV] s e l'. unfold l', back.
  destruct (last code) as [c|] eqn:El; [|by apply last_None in El].
  pose proof (last_split _ _ El) as Hl.
  assert (byte_at p (e - 1) w = Ok c w) as Eb.
  { apply (byte_ok p (V ++ removelast code) c (37 :: Y)).
    - rewrite Hm, (app_assoc Z0), HV. rewrite Hl at 1. by rewrite <- !app_assoc.
    - apply (f_equal length) in HV. rewrite !length_app in HV. rewrite length_app.
      rewrite Hl, length_app in HV. simpl in HV. unfold e, s. lia. }
  unfold back in Hb. rewrite El in Hb. destruct (c =? 45) eqn:Ec.
  - specialize (Hb eq_refl). apply Z.eqb_eq in Ec as ->.
    assert (last l = Some 45) as Ell.
    { rewrite Hx, last_app in El. destruct (last l) eqn:E2; [done|]. by apply last_None in E2. }
    pose proof (last_split _ _ Ell) as Hl2. split; [|by eexists].
    eapply bind_ok; [exact Eb|]. cbn [Z.eqb Pos.eqb].
    assert (Z.of_nat (length l) = Z.of_nat (length (removelast l)) + 1) as Hlen.
    { rewrite Hl2 at 1. rewrite length_app. simpl. lia. }
    eapply bind_ok; [|unfold mret, M_ret; reflexivity].
    unfold rounds. replace (Z.to_nat (e - 1 - s + 1)) with (S (Z.to_nat (e - 1 - s))) by (unfold e; lia).
    cbn [skip_back]. rewrite (proj2 (Z.leb_le _ _)) by (unfold e; lia).
    eapply bind_ok; [exact Eb|]. change (blank 45) with false. unfold mret, M_ret. f_equal. unfold e. lia.
  - split; [|exists []; by rewrite app_nil_r]. eapply bind_ok; [exact Eb|]. by rewrite Ec.
Qed.

Lemma code_type_pass c : (code_type c).2 = true -> c <> 45.
Proof. unfold code_type. intros H ->. done. Qed.

Lemma code_ok p X code Y w : mem p = (X ++ [37]) ++ code ++ 37 :: Y ->
  off p = Z.of_nat (length X) + 1 -> code <> [45] ->
  let g := tag_of code in
  exists s' e', template_code p (off p + Z.of_nat (length code)) w =
      Ok (p <| strip_before := t_before g |> <| strip_after := t_after g |>
            <| cur_chunk := mkChunk s' e' (t_type g) (line p) |>) w /\
    encloses p s' e' (t_body g).
Proof.
  intros Hm Ho Hcode g.
  assert (off p = Z.of_nat (length (X ++ [37]))) as Ho' by (rewrite length_app; simpl; lia).
  set (e := off p + Z.of_nat (length code)).
  destruct (front_ok p (X ++ [37]) code Y w Hm) as (Ef & x & Hx & Hf & Ht).
  rewrite <- Ho' in Ef. fold e in Ef.
  unfold g, tag_of. destruct (front code) as [before l] eqn:Efr. cbn [fst snd] in *.
  set (Z0 := (X ++ [37]) ++ x).
  assert (e - Z.of_nat (length l) = Z.of_nat (length Z0)) as Es.
  { unfold e, Z0. rewrite Ho', Hx, !length_app. lia. }
  assert (mem p = Z0 ++ l ++ 37 :: Y) as Hm2 by (unfold Z0; rewrite Hm, Hx, <- !app_assoc; done).
  assert (back code = true -> l <> []) as Hbl.
  { intros Hb ->. rewrite app_nil_r in Hx. subst x. destruct before.
    - destruct (Ht eq_refl) as [H1 H2]. destruct code as [|c code]; [done|]. simpl in H1, H2. simplify_eq.
      rewrite drop_0 in H1. unfold back in Hb. destruct code as [|d code] using rev_ind; [done|].
      rewrite app_comm_cons, last_snoc in Hb. apply Forall_app in H1 as [_ H1].
      apply Forall_cons_1 in H1 as [H1 _]. unfold blank in H1. lia.
    - rewrite (Hf eq_refl) in Hb. done. }
  set (after := back code) in *. set (l' := if after then removelast l else l).
  assert ((c ← byte_at p (e - 1);
     if c =? 45 then e' ← skip_back p (rounds (e - Z.of_nat (length l)) (e - 1)) (e - Z.of_nat (length l)) (e - 1);
       mret (true, e') else mret (false, e)) w =
    Ok (after, e - Z.of_nat (length l) + Z.of_nat (length l')) w /\ exists y, l = l' ++ y) as [Eb [y Hy]].
  { destruct (decide (code = [])) as [->|Hne].
    - simplify_eq/=. split; [|by exists []]. eapply bind_ok; [apply (byte_ok p X 37 (37 :: Y))|].
      + rewrite Hm. by rewrite <- app_assoc.
      + unfold e. simpl. lia.
      + unfold mret, M_ret. do 2 f_equal. lia.
    - destruct (back_ok p Z0 l code Y w Hm2 Hne (ex_intro _ x Hx) Hbl) as [E1 E2].
      { exists (X ++ [37]). unfold Z0. by rewrite Hx, <- app_assoc. }
      rewrite Es. replace e with (Z.of_nat (length Z0) + Z.of_nat (length l)) by lia. done. }
  assert (byte_at p (e - Z.of_nat (length l)) w = Ok (default 37 (head l)) w) as Eh.
  { rewrite Es. destruct l as [|h l1]; [by apply (byte_ok p Z0 37 Y)|by apply (byte_ok p Z0 h (l1 ++ 37 :: Y))]. }
  destruct (code_type (default 37 (head l))) as [t pass] eqn:Ect.
  eexists _, _. split.
  - unfold template_code. eapply bind_assoc_ok; [exact Ef|]. cbv beta iota.
    eapply bind_assoc_ok; [exact Eb|]. cbv beta iota. eapply bind_ok; [exact Eh|]. rewrite Ect. reflexivity.
  - cbn [t_body]. destruct pass; [|exists Z0, (y ++ 37 :: Y); split; [by rewrite Hm2; rewrite Hy at 1; rewrite <- app_assoc|lia]].
    destruct l as [|h l1]; [done|]. simpl in Ect.
    assert (h <> 45) as Hh by (apply code_type_pass; by rewrite Ect).
    destruct l' as [|h' l1'] eqn:El'.
    { exfalso. unfold l' in El'. destruct after eqn:Ea; [|done]. destruct l1 as [|z l1]; [|done].
      unfold after, back in Ea. rewrite Hx, last_snoc in Ea. lia. }
    simpl in Hy. simplify_eq. exists (Z0 ++ [h']), (y ++ 37 :: Y). cbn [tail].
    split; [by rewrite Hm2; simpl; rewrite <- !app_assoc|]. rewrite Es, length_app. cbn [length]. lia.
Qed.
End TemplateSpec.
