(* ===== verification/TemplateRead.v ===== *)
(** Reading a template: formatting a chunk gives the Lua source of its piece, and
    the reader hands out the pieces in order, with one block at a time. *)

From Stdlib Require Import ZArith Lia Ascii String.
From stdpp Require Import base list list_numbers numbers gmap.
From S2P Require Import Prelude CString Lmo TplUtils TplUtf8 TplUtilsSpec TplMarkup Template TemplateSpec.

Open Scope list_scope.
Open Scope Z_scope.

Module TemplateRead.
Import TplUtils TplUtilsSpec TplMarkup Template TemplateSpec.

(** The longest template and translation considered. *)
Definition max_text : Z := 2 ^ 26.

(** What the catalogs [L] promise the parser: a lookup answers, with a text that is not too
    long or not at all, and [tr] is the text to be shown. *)
Class Translator (schar : bool) (L : Lmo.st) (tr : list Z -> list Z) : Prop := {
  tr_answers : forall key w, TplUtils.lmo w = L -> exists r o, translate schar key w = Ok (r, o) w /\
    ((r = 0 /\ o = Some (tr key)) \/ (r <> 0 /\ tr key = key));
  tr_short : forall key, Z.of_nat (length (tr key)) <= Z.max (Z.of_nat (length key)) max_text
}.

(** A step that changes only the line, the previous chunk and the block to be freed. *)
Definition kept (p p' : template_parser) : Prop :=
  mem p' = mem p /\ size p' = size p /\ off p' = off p /\ in_expr p' = in_expr p /\
  strip_before p' = strip_before p /\ strip_after p' = strip_after p /\ cur_chunk p' = cur_chunk p /\
  file p' = file p /\ fd p' = fd p.

Lemma kept_refl p : kept p p.
Proof. done. Qed.
Lemma kept_trans p1 p2 p3 : kept p1 p2 -> kept p2 p3 -> kept p1 p3.
Proof. unfold kept. intros. destruct_and!. split_and!; congruence. Qed.

(** The parser has a block or not. *)
Definition owned (g : bool) (w w' : world) : Prop := same (w <| blocks ::= Z.add (if g then 1 else 0) |>) w'.

Lemma tag_type code : t_type (tag_of code) <> T_TYPE_EOF /\ t_type (tag_of code) <> T_TYPE_TEXT.
Proof.
  unfold tag_of. destruct (front code) as [before l]. unfold code_type. by repeat case_match; simplify_eq.
Qed.

Lemma span_ok p s e body w : encloses p s e body -> span p s e w = Ok body w.
Proof.
  intros (X & Y & Hm & -> & ->). unfold span. rewrite Hm, !length_app.
  rewrite (proj2 (Z.leb_le 0 _)), (proj2 (Z.leb_le _ (_ + _))), (proj2 (Z.leb_le _ (Z.of_nat _))) by lia. cbn [andb].
  rewrite Nat2Z.id, drop_app_length. replace (Z.to_nat _) with (length body) by lia.
  by rewrite take_app_length.
Qed.

Lemma encloses_mem p p' s e l : mem p' = mem p -> encloses p s e l -> encloses p' s e l.
Proof. intros Hm (X & Y & H). exists X, Y. by rewrite Hm. Qed.

Lemma body_length code : (length (t_body (tag_of code)) <= length code)%nat.
Proof.
  assert (length (front code).2 <= length code)%nat as H1.
  { unfold front. destruct code as [|c l]; [done|]. destruct (c =? 45); [|done]. cbn [snd length].
    destruct (dropw_split blank l) as [x Hx]. apply (f_equal length) in Hx. rewrite length_app in Hx. lia. }
  assert (forall l : list Z, (length (removelast l) <= length l)%nat) as H2.
  { intros l. destruct (last l) as [c|] eqn:El.
    - apply last_split in El. apply (f_equal length) in El. rewrite length_app in El. lia.
    - by apply last_None in El as ->. }
  assert (forall l : list Z, (length (tail l) <= length l)%nat) as H3 by (intros [|? ?]; simpl; lia).
  unfold tag_of. destruct (front code) as [before l]. cbn [snd] in H1. destruct (code_type _) as [t pass].
  cbn [t_body]. specialize (H2 l). destruct pass, (back code); try lia.
  - specialize (H3 (removelast l)). lia.
  - specialize (H3 l). lia.
Qed.

Section memory.
Context (E : env) (Mem : forall k, oom E k = false) (schar : bool) (L : Lmo.st) (tr : list Z -> list Z).
Context {T : Translator schar L tr}.

Lemma twp_append_opt t b o (Q : template_buffer -> world -> Prop) w : holds_text t b ->
  Z.of_nat (length t) + Z.of_nat (length (default [] o)) <= limit ->
  (forall b' w', holds_text (t ++ default [] o) b' -> same w w' -> Q b' w') ->
  twp (append_opt E b o) Q w.
Proof using Mem.
  intros Hb Ht H. destruct o as [l|]; cbn [append_opt default] in *.
  - twp_step. apply (twp_append E Mem t b l); [done|done|by rewrite firstn_all|done|].
    intros. cbv beta iota. twp_step. by apply H.
  - twp_step. apply H; [by rewrite app_nil_r|apply same_refl].
Qed.

Lemma twp_translate t b s xml (Q : template_buffer -> world -> Prop) w : holds_text t b -> TplUtils.lmo w = L ->
  Z.of_nat (length t) + Z.of_nat (length (escape xml (tr s))) <= limit ->
  (forall b' w', holds_text (t ++ escape xml (tr s)) b' -> same w w' -> Q b' w') ->
  twp (luastr_translate E schar b s xml) Q w.
Proof using Mem T.
  intros Hb HL Ht H. unfold luastr_translate. destruct (tr_answers s w HL) as (r & o & Et & Hr).
  twp_step. eapply twp_intro; [exact Et|]. destruct Hr as [[-> ->]|[Hr Hs]].
  - by apply (twp_escape E Mem _ t).
  - rewrite Hs in Ht, H. destruct r; [done|by apply (twp_escape E Mem _ t)..].
Qed.

Lemma inner_length ty body : Z.of_nat (length body) <= max_text ->
  Z.of_nat (length (inner tr ty body)) <= 5 * max_text.
Proof using T.
  intros Hb. pose proof (tr_short body). pose proof (escape_length false body).
  pose proof (escape_length true (tr body)). pose proof (escape_length false (tr body)).
  unfold max_text in *. destruct ty; cbn [inner length]; lia.
Qed.

Lemma twp_body p ty s e ln body t b (Q : template_parser * template_buffer -> world -> Prop) w :
  encloses p s e body -> holds_text t b -> TplUtils.lmo w = L ->
  Z.of_nat (length t) + Z.of_nat (length (inner tr ty body)) <= limit ->
  (forall p' b' w', kept p p' -> holds_text (t ++ inner tr ty body) b' -> same w w' -> Q (p', b') w') ->
  twp (format_body E schar p (mkChunk s e ty ln) b) Q w.
Proof using Mem T.
  intros Henc Hb HL Ht H. unfold format_body. cbn [c_type c_s c_e].
  destruct ty; cbn [inner] in *;
    try (twp_step; apply H; [apply kept_refl|by rewrite app_nil_r|apply same_refl]);
    try (twp_step; eapply twp_intro; [by apply span_ok|]; twp_step;
         first [apply (twp_escape E Mem body t); [done..|]|apply (twp_translate t); [done..|]];
         intros; twp_step; by apply H).
  all: pose proof Henc as (X & Y & Hm & Hs & He);
    assert (take (length body) (drop (Z.to_nat s) (mem p)) = body) as Hd
      by (rewrite Hm, Hs, Nat2Z.id, drop_app_length, take_app_length; done);
    twp_step; apply (twp_append E Mem t b body); [done|lia|done|lia|];
    intros b' w' Hb' Sw; cbv beta iota; twp_step; eapply twp_intro; [by apply span_ok|];
    twp_step; by apply H.
Qed.

(** The text of a chunk without what its tag strips. *)
Definition stripped (p : template_parser) (ty : ctype) (body : list Z) : list Z :=
  match ty with T_TYPE_TEXT => rtrim_if (strip_before p) body | _ => body end.

Lemma strip_ok p ty s e body w : encloses p s e body ->
  (match ty with
   | T_TYPE_TEXT => if strip_before p then strip_end p (rounds s e) s e else mret e
   | _ => mret e
   end) w = Ok (s + Z.of_nat (length (stripped p ty body))) w /\
  encloses p s (s + Z.of_nat (length (stripped p ty body))) (stripped p ty body).
Proof using.
  intros (X & Y & Hm & Hs & He).
  assert (e = s + Z.of_nat (length body)) as -> by lia.
  assert (exists y, body = stripped p ty body ++ y) as [y Hy].
  { unfold stripped, rtrim_if. destruct ty; try (exists []; by rewrite app_nil_r).
    destruct (strip_before p); [apply rtrim_split|exists []; by rewrite app_nil_r]. }
  split; [|exists X, (y ++ Y); split; [by rewrite Hm, Hy at 1; rewrite <- app_assoc|lia]].
  unfold stripped, rtrim_if. destruct ty; try done. destruct (strip_before p); [|done].
  rewrite Hs. apply (strip_end_ok p body X Y); [done|]. unfold rounds. lia.
Qed.

Lemma twp_format p ty s e ln body (Q : template_parser * option (list Z) -> world -> Prop) w :
  prv_chunk p = mkChunk s e ty ln -> encloses p s e body -> ty <> T_TYPE_EOF ->
  Z.of_nat (length body) <= max_text -> TplUtils.lmo w = L ->
  (forall p' w', kept p p' -> owned (gc p') w w' -> Q (p', Some (source_of tr ty (stripped p ty body))) w') ->
  twp (template_format_chunk E schar p) Q w.
Proof using Mem T.
  intros Hc Henc Hty Hlen HL H. unfold template_format_chunk. cbv zeta.
  set (p1 := p <| gc := false |>). assert (kept p p1) as K1 by done. assert (prv_chunk p1 = prv_chunk p) as -> by done.
  rewrite Hc. cbn [c_type c_s c_e].
  destruct (strip_ok p1 ty s e body w Henc) as [Es Henc2].
  change (stripped p1 ty body) with (stripped p ty body) in *. set (body' := stripped p ty body) in *.
  assert (Z.of_nat (length body') <= max_text) as Hlen'.
  { unfold body', stripped, rtrim_if. destruct ty; try done. destruct (strip_before p); [|done].
    destruct (rtrim_split body) as [y Hy]. apply (f_equal length) in Hy. rewrite length_app in Hy. lia. }
  twp_step. eapply twp_intro; [exact Es|]. set (e' := s + Z.of_nat (length body')) in *.
  change ((mkChunk s e ty ln) <| c_e := e' |>) with (mkChunk s e' ty ln). cbv beta zeta.
  set (p2 := p1 <| prv_chunk := mkChunk s e' ty ln |>). assert (kept p p2) as K2 by done.
  assert (gc p2 = false) as G2 by done. clear Henc.
  assert (encloses p2 s e' body') as Henc by done. clearbody p2. clear p1 K1 Es Henc2. cbn [c_s c_e c_type].
  clearbody body'. 
  destruct (s =? e') eqn:E0.
  - assert (body' = []) as Hnil by (apply length_zero_iff_nil; unfold e' in E0; lia).
    twp_step. rewrite Hnil in H. replace (match ty with T_TYPE_EOF => None | _ => Some (lit " ") end) with (Some (lit " "))
      by by destruct ty.
    apply H; [done|]. rewrite G2. unfold owned, same. simpl. done.
  - assert (body' <> []) as Hne by (intros E1; apply length_zero_iff_nil in E1; unfold e' in E0; lia).
    assert (0 <= Z.of_nat (length (default [] (gen_head ty))) <= 20) as Hh by (destruct ty; simpl; lia).
    assert (0 <= Z.of_nat (length (default [] (gen_tail ty))) <= 20) as Ht by (destruct ty; simpl; lia).
    pose proof (inner_length ty body' Hlen') as Hi. unfold max_text in *.
    twp_step. apply (twp_init E Mem); [unfold e'; lia|]. intros b1 w1 Hb1 S1. cbv beta iota.
    twp_step. apply (twp_append_opt []); [done|unfold limit; simpl; lia|]. intros b2 w2 Hb2 S2. cbn [app] in Hb2.
    assert (TplUtils.lmo w2 = L) as HL2 by (unfold same in *; destruct_and!; simpl in *; congruence).
    twp_step. apply (twp_body p2 ty s e' ln body' (default [] (gen_head ty))); [done|done|done|unfold limit; lia|].
    intros p3 b3 w3 K3 Hb3 S3. cbv beta iota.
    twp_step. apply (twp_append_opt (default [] (gen_head ty) ++ inner tr ty body')); [done|rewrite length_app; unfold limit; lia|].
    intros b4 w4 Hb4 S4. rewrite <- app_assoc in Hb4.
    set (t := default [] (gen_head ty) ++ inner tr ty body' ++ default [] (gen_tail ty)) in *.
    twp_step. apply (twp_destroy t b4 w); [done|by do 3 (eapply same_trans; [eassumption|])|].
    intros d w5 [[rest Hd] S5]. twp_step.
    assert (Z.of_nat (length t) <= limit) as Hl by (unfold t, limit; rewrite !length_app; lia).
    unfold buf_length. rewrite (ht_fill t b4 Hb4). unfold limit in Hl. rewrite s32_small by lia.
    assert ((if Z.of_nat (length t) =? 0 then lit " " else take (Z.to_nat (Z.of_nat (length t))) d) = source_of tr ty body') as ->.
    { unfold source_of. fold t. destruct body' as [|x body']; [done|]. destruct t as [|y t]; [done|].
      rewrite Nat2Z.id, Hd. by rewrite take_app_length. }
    apply H; [|done]. eapply kept_trans; [exact K2|done].
Qed.

(** * The reader *)

Lemma twp_free_last w0 g w (Q : unit -> world -> Prop) : owned g w0 w ->
  (forall w', same w0 w' -> Q tt w') -> twp (when g free) Q w.
Proof using.
  intros O H. unfold owned, same in O. destruct_and!. simpl in *. destruct g; unfold when, free; twp_step; apply H; unfold same;
    simpl; split_and!; congruence || lia.
Qed.

Lemma owned_same w0 w1 g w : same w0 w1 -> owned g w1 w -> owned g w0 w.
Proof using. unfold owned, same. intros. destruct_and!. simpl in *. split_and!; congruence || lia. Qed.

(** One call, by what the search for the next mark finds. *)
Section call.
Context (w0 : world) (p : template_parser) (rest : list Z).
Hypotheses (Hrest : encloses p (off p) (size p) rest) (Hlen : Z.of_nat (length rest) <= max_text).
Let p1 := p <| prv_chunk := cur_chunk p |> <| gc := false |>.

Lemma twp_hay (k : list Z -> M world (template_parser * option (list Z))) Q w : owned (gc p) w0 w ->
  (forall w1, same w0 w1 -> twp (k rest) Q w1) ->
  twp (when (gc p) free;;
       hay ← (let rem := s32 (size p - off p) in
              if 0 <=? rem then span p1 (off p) (off p + rem) else mret []);
       k hay) Q w.
Proof using Hrest Hlen.
  intros O H. twp_step. apply (twp_free_last w0 (gc p)); [done|]. intros w1 S1.
  pose proof Hrest as (X & Y & Hm & Ho & Hs). unfold max_text in Hlen.
  assert (s32 (size p - off p) = size p - off p) as -> by (apply s32_small; lia).
  twp_step. rewrite (proj2 (Z.leb_le _ _)) by lia. replace (off p + (size p - off p)) with (size p) by lia.
  eapply twp_intro; [by apply span_ok|]. by apply H.
Qed.

Lemma twp_reader_text Q w : in_expr p = false -> owned (gc p) w0 w ->
  (forall w1, same w0 w1 ->
    twp (match find2 60 37 rest with
         | Some (pre, _) =>
             let tag := off p + Z.of_nat (length pre) in
             p ← template_text p1 tag;
             template_format_chunk E schar (p <| off := tag + 2 |> <| in_expr := true |>)
         | None =>
             p ← template_text p1 (size p);
             template_format_chunk E schar (p <| off := size p |>)
         end) Q w1) ->
  twp (template_reader E schar p) Q w.
Proof using Hrest Hlen.
  intros Hi O H. apply (twp_hay (fun hay =>
    if negb (in_expr p) then
      match strfind hay [60; 37] (off p) with
      | Some tag =>
          p ← template_text p1 tag;
          template_format_chunk E schar (p <| off := tag + 2 |> <| in_expr := true |>)
      | None =>
          p ← template_text p1 (size p);
          template_format_chunk E schar (p <| off := size p |>)
      end else _) Q w O).
  intros w1 S1. rewrite Hi. cbn [negb]. rewrite strfind_find2. specialize (H w1 S1).
  by destruct (find2 60 37 rest) as [[pre post]|].
Qed.

Lemma twp_reader_code Q w : in_expr p = true -> owned (gc p) w0 w ->
  (forall w1, same w0 w1 ->
    twp (match find2 37 62 rest with
         | Some (code, _) =>
             let tag := off p + Z.of_nat (length code) in
             p ← template_code p1 tag;
             template_format_chunk E schar (p <| off := tag + 2 |> <| in_expr := false |>)
         | None => p ← template_code p1 (size p); mret (p, Some [27])
         end) Q w1) ->
  twp (template_reader E schar p) Q w.
Proof using Hrest Hlen.
  intros Hi O H. apply (twp_hay (fun hay =>
    if negb (in_expr p) then _ else
      match strfind hay [37; 62] (off p) with
      | Some tag =>
          p ← template_code p1 tag;
          template_format_chunk E schar (p <| off := tag + 2 |> <| in_expr := false |>)
      | None => p ← template_code p1 (size p); mret (p, Some [27])
      end) Q w O).
  intros w1 S1. rewrite Hi. cbn [negb]. rewrite strfind_find2. specialize (H w1 S1).
  by destruct (find2 37 62 rest) as [[pre post]|].
Qed.
End call.

(** ** Steps *)

(** The parser stands before [rest], inside a tag or not; behind the template is a NUL. *)
Definition stands (p : template_parser) (expr : bool) (X rest Y : list Z) : Prop :=
  mem p = X ++ rest ++ 0 :: Y /\ off p = Z.of_nat (length X) /\
  size p = Z.of_nat (length X) + Z.of_nat (length rest) /\ size p <= max_text /\ in_expr p = expr.

(** The chunk that the next call formats. *)
Definition pending (p : template_parser) (ty : ctype) (body : list Z) : Prop :=
  exists s e ln, cur_chunk p = mkChunk s e ty ln /\ encloses p s e body /\ Z.of_nat (length body) <= max_text.

Lemma stands_rest p expr X rest Y : stands p expr X rest Y ->
  encloses p (off p) (size p) rest /\ Z.of_nat (length rest) <= max_text.
Proof using. intros (Hm & Ho & Hs & Hl & _). split; [|lia]. by exists X, (0 :: Y). Qed.

(** What stays of a parser from call to call. *)
Definition of_template (p p' : template_parser) : Prop :=
  mem p' = mem p /\ size p' = size p /\ file p' = file p /\ fd p' = fd p.

Lemma of_trans p1 p2 p3 : of_template p1 p2 -> of_template p2 p3 -> of_template p1 p3.
Proof using. unfold of_template. intros. destruct_and!. split_and!; congruence. Qed.
Lemma kept_of p p' : kept p p' -> of_template p p'.
Proof using. unfold kept, of_template. intros. destruct_and!. done. Qed.

Lemma dropw_length test l : (length (dropw test l) <= length l)%nat.
Proof using. destruct (dropw_split test l) as [x Hx]. apply (f_equal length) in Hx. rewrite length_app in Hx. lia. Qed.
Lemma ltrim_length b l : (length (ltrim_if b l) <= length l)%nat.
Proof using. destruct b; [apply dropw_length|done]. Qed.

Lemma twp_open w0 p X rest Y ty body pre post Q w : stands p false X rest Y -> pending p ty body -> ty <> T_TYPE_EOF ->
  find2 60 37 rest = Some (pre, post) -> owned (gc p) w0 w -> TplUtils.lmo w0 = L ->
  (forall p' w', stands p' true (X ++ pre ++ [60; 37]) post Y ->
    pending p' T_TYPE_TEXT (ltrim_if (strip_after p) pre) ->
    of_template p p' -> owned (gc p') w0 w' ->
    Q (p', Some (source_of tr ty (stripped p ty body))) w') ->
  twp (template_reader E schar p) Q w.
Proof using Mem T.
  intros St (s & e & ln & Hc & Henc & Hlen) Hty Hf O HL H. destruct (stands_rest _ _ _ _ _ St) as [Hr Hl].
  destruct St as (Hm & Ho & Hs & Hmax & Hi). apply (twp_reader_text w0 p rest); [done..|]. intros w1 S1. rewrite Hf. cbv zeta.
  pose proof (find2_split _ _ _ _ _ Hf) as Hsp.
  set (p1 := p <| prv_chunk := cur_chunk p |> <| gc := false |>).
  assert (Z.of_nat (length rest) = Z.of_nat (length pre) + Z.of_nat (length post) + 2) as Hlr
    by (rewrite Hsp, length_app; cbn [length]; lia).
  destruct (text_ok p1 X pre 60 (37 :: post ++ 0 :: Y) w1) as [Et Henc1].
  { change (mem p1) with (mem p). rewrite Hm, Hsp. by rewrite <- app_assoc. }
  { done. } { done. } { change (off p < size p). lia. }
  twp_step. eapply twp_intro; [exact Et|]. cbv beta.
  apply (twp_format _ ty s e ln body); [done|done|done|done|unfold same in S1; destruct_and!; congruence|].
  intros p' w' K O'. apply H.
  - unfold kept in K. destruct_and!. unfold stands. simpl in *. split_and!; try congruence.
    + rewrite <- !app_assoc. rewrite Hsp, <- app_assoc in Hm. simpl in *. congruence.
    + rewrite !length_app. cbn [length]. lia.
    + rewrite !length_app. cbn [length]. lia.
  - eexists _, _, _. split_and!; [|apply (encloses_mem p1); [apply K|exact Henc1]|].
    + unfold kept in K. destruct_and!. etrans; [eassumption|]. reflexivity.
    + pose proof (ltrim_length (strip_after p) pre). change (strip_after p1) with (strip_after p). lia.
  - unfold kept in K. destruct_and!. done.
  - by eapply owned_same.
Qed.

Lemma twp_close w0 p X post Y txt code rest Q w : stands p true (X ++ [37]) post Y -> pending p T_TYPE_TEXT txt ->
  find2 37 62 post = Some (code, rest) -> code <> [45] -> owned (gc p) w0 w -> TplUtils.lmo w0 = L ->
  (forall p' w', let g := tag_of code in
    stands p' false ((X ++ [37]) ++ code ++ [37; 62]) rest Y ->
    pending p' (t_type g) (t_body g) -> strip_before p' = t_before g -> strip_after p' = t_after g ->
    of_template p p' -> owned (gc p') w0 w' ->
    Q (p', Some (source_of tr T_TYPE_TEXT (rtrim_if (t_before g) txt))) w') ->
  twp (template_reader E schar p) Q w.
Proof using Mem T.
  intros St (s & e & ln & Hc & Henc & Hlen) Hf Hcode O HL H. destruct (stands_rest _ _ _ _ _ St) as [Hr Hl].
  destruct St as (Hm & Ho & Hs & Hmax & Hi). apply (twp_reader_code w0 p post); [done..|]. intros w1 S1. rewrite Hf. cbv zeta.
  pose proof (find2_split _ _ _ _ _ Hf) as Hsp.
  set (p1 := p <| prv_chunk := cur_chunk p |> <| gc := false |>).
  assert (Z.of_nat (length post) = Z.of_nat (length code) + Z.of_nat (length rest) + 2) as Hlr
    by (rewrite Hsp, length_app; cbn [length]; lia).
  destruct (code_ok p1 X code (62 :: rest ++ 0 :: Y) w1) as (s' & e' & Et & Henc1).
  { change (mem p1) with (mem p). rewrite Hm, Hsp. by rewrite <- !app_assoc. }
  { change (off p1) with (off p). rewrite Ho, length_app. simpl. lia. }
  { done. }
  twp_step. eapply twp_intro; [exact Et|]. cbv beta.
  apply (twp_format _ T_TYPE_TEXT s e ln txt); [done|done|done|done|unfold same in S1; destruct_and!; congruence|].
  intros p' w' K O'. apply H.
  - unfold kept in K. destruct_and!. unfold stands. simpl in *. split_and!; try congruence.
    + rewrite <- !app_assoc. rewrite Hsp, <- !app_assoc in Hm. simpl in *. congruence.
    + rewrite !length_app in *. cbn [length] in *. lia.
    + rewrite !length_app in *. cbn [length] in *. lia.
  - eexists _, _, _. split_and!; [|apply (encloses_mem p1); [apply K|exact Henc1]|].
    + unfold kept in K. destruct_and!. etrans; [eassumption|]. reflexivity.
    + pose proof (body_length code). lia.
  - unfold kept in K. destruct_and!. done.
  - unfold kept in K. destruct_and!. done.
  - unfold kept in K. destruct_and!. done.
  - by eapply owned_same.
Qed.

(** The text behind the last tag. *)
Lemma twp_last w0 p X rest Y ty body Q w : stands p false X rest Y -> pending p ty body -> ty <> T_TYPE_EOF ->
  find2 60 37 rest = None -> rest <> [] -> owned (gc p) w0 w -> TplUtils.lmo w0 = L ->
  (forall p' w', stands p' false (X ++ rest) [] Y -> pending p' T_TYPE_TEXT (ltrim_if (strip_after p) rest) ->
    strip_before p' = strip_before p -> of_template p p' -> owned (gc p') w0 w' ->
    Q (p', Some (source_of tr ty (stripped p ty body))) w') ->
  twp (template_reader E schar p) Q w.
Proof using Mem T.
  intros St (s & e & ln & Hc & Henc & Hlen) Hty Hf Hne O HL H. destruct (stands_rest _ _ _ _ _ St) as [Hr Hl].
  destruct St as (Hm & Ho & Hs & Hmax & Hi). apply (twp_reader_text w0 p rest); [done..|]. intros w1 S1. rewrite Hf. cbv zeta.
  set (p1 := p <| prv_chunk := cur_chunk p |> <| gc := false |>).
  assert (0 < Z.of_nat (length rest)) by (destruct rest; [done|cbn [length]; lia]).
  destruct (text_ok p1 X rest 0 Y w1) as [Et Henc1]; [done|done|done|change (off p < size p); lia|].
  replace (off p1 + Z.of_nat (length rest)) with (size p) in * by (change (off p1) with (off p); lia).
  twp_step. eapply twp_intro; [exact Et|]. cbv beta.
  apply (twp_format _ ty s e ln body); [done|done|done|done|unfold same in S1; destruct_and!; congruence|].
  intros p' w' K O'. apply H.
  - unfold kept in K. destruct_and!. unfold stands. simpl in *. split_and!; try congruence.
    + rewrite <- app_assoc. simpl. congruence.
    + rewrite length_app. lia.
    + rewrite length_app. lia.
  - eexists _, _, _. split_and!; [|apply (encloses_mem p1); [apply K|exact Henc1]|].
    + unfold kept in K. destruct_and!. etrans; [eassumption|]. reflexivity.
    + pose proof (ltrim_length (strip_after p) rest). change (strip_after p1) with (strip_after p). lia.
  - unfold kept in K. destruct_and!. done.
  - unfold kept in K. destruct_and!. done.
  - by eapply owned_same.
Qed.

(** Behind the template. *)
Definition at_end (p : template_parser) : Prop := exists s ln, cur_chunk p = mkChunk s s T_TYPE_EOF ln.

Lemma twp_behind w0 p X Y (Q : template_parser * option (list Z) -> world -> Prop) w :
  stands p false X [] Y -> owned (gc p) w0 w ->
  (forall w1 p', same w0 w1 -> of_template p p' -> prv_chunk p' = cur_chunk p -> stands p' false X [] Y -> at_end p' ->
    strip_before p' = strip_before p -> gc p' = false -> mem p' = mem p ->
    twp (template_format_chunk E schar p') Q w1) ->
  twp (template_reader E schar p) Q w.
Proof using.
  intros St O H. destruct (stands_rest _ _ _ _ _ St) as [Hr Hl].
  destruct St as (Hm & Ho & Hs & Hmax & Hi). apply (twp_reader_text w0 p []); [done..|]. intros w1 S1. cbn [find2].
  twp_step. unfold template_text. cbv zeta. cbn [off size set eta_parser]. simpl in Hs.
  match goal with |- twp (if ?x <? ?y then _ else _) _ _ => replace (x <? y) with false by (simpl; lia) end.
  twp_step. apply H; try done; simpl.
  - split_and!; try done; simpl; lia.
  - eexists _, _. simpl. repeat f_equal. simpl. lia.
Qed.

Lemma twp_eof w0 p X Y ty body Q w : stands p false X [] Y -> pending p ty body -> ty <> T_TYPE_EOF ->
  owned (gc p) w0 w -> TplUtils.lmo w0 = L ->
  (forall p' w', stands p' false X [] Y -> at_end p' -> of_template p p' -> owned (gc p') w0 w' ->
    Q (p', Some (source_of tr ty (stripped p ty body))) w') ->
  twp (template_reader E schar p) Q w.
Proof using Mem T.
  intros St (s & e & ln & Hc & Henc & Hlen) Hty O HL H. apply (twp_behind w0 p X Y); [done|done|].
  intros w1 p1 S1 O1 Hp1 St1 A1 B1 G1 M1.
  apply (twp_format p1 ty s e ln body); [congruence|by apply (encloses_mem p)|done|done|unfold same in S1; destruct_and!; congruence|].
  intros p' w' K O'. assert (stripped p1 ty body = stripped p ty body) as -> by (unfold stripped; by rewrite B1).
  apply H.
  - unfold stands, kept in *. destruct_and!. split_and!; congruence.
  - unfold kept in K. destruct_and!. destruct A1 as (x & y & A1). exists x, y. congruence.
  - by eapply of_trans, kept_of.
  - by eapply owned_same.
Qed.

Lemma twp_end w0 p X Y (Q : template_parser * option (list Z) -> world -> Prop) w : stands p false X [] Y -> at_end p ->
  owned (gc p) w0 w ->
  (forall p' w', gc p' = false -> of_template p p' -> same w0 w' -> Q (p', None) w') ->
  twp (template_reader E schar p) Q w.
Proof using.
  intros St (s & ln & Hc) O H. apply (twp_behind w0 p X Y); [done|done|].
  intros w1 p1 S1 O1 Hp1 St1 A1 B1 G1 M1. unfold template_format_chunk. cbv zeta.
  assert (prv_chunk (p1 <| gc := false |>) = mkChunk s s T_TYPE_EOF ln) as -> by (simpl; congruence). cbn [c_type c_e].
  twp_step. twp_step. match goal with |- twp (if ?x =? ?y then _ else _) _ _ => replace (x =? y) with true by (simpl; lia) end.
  twp_step. apply H; [done| |done]. by eapply of_trans.
Qed.

(** ** Tags that do not end *)

Lemma byte_inside p i w : 0 <= i < Z.of_nat (length (mem p)) -> exists c, byte_at p i w = Ok c w /\ mem p !! Z.to_nat i = Some c.
Proof using.
  intros Hi. destruct (lookup_lt_is_Some_2 (mem p) (Z.to_nat i)) as [c Hc]; [lia|]. exists c.
  unfold byte_at. rewrite (proj2 (Z.leb_le _ _)), Hc by lia. done.
Qed.

Lemma skip_total p fuel : forall s e w, 0 <= s <= e -> mem p !! Z.to_nat e = Some 0 ->
  exists s', skip blank p fuel s e w = Ok s' w /\ s <= s' <= e.
Proof using.
  induction fuel as [|fuel IH]; intros s e w Hs He; cbn [skip]; [exists s; split; [done|lia]|].
  pose proof (lookup_lt_Some _ _ _ He). rewrite (proj2 (Z.leb_le _ _)) by lia.
  destruct (byte_inside p s w) as (c & Hc & Hl); [lia|].
  destruct (blank c) eqn:Eb.
  - assert (s <> e) as Hne by (intros ->; rewrite He in Hl; by simplify_eq).
    destruct (IH (s + 1) e w) as (s' & E1 & H1); [lia|done|]. exists s'. split; [|lia].
    eapply bind_ok; [exact Hc|]. by rewrite Eb.
  - exists s. split; [|lia]. eapply bind_ok; [exact Hc|]. by rewrite Eb.
Qed.

Lemma skip_back_total p fuel : forall s e w, 0 <= s -> e < Z.of_nat (length (mem p)) ->
  exists e', skip_back p fuel s e w = Ok e' w.
Proof using.
  induction fuel as [|fuel IH]; intros s e w Hs He; cbn [skip_back]; [by exists e|].
  destruct (s <=? e) eqn:El; [|by exists e]. destruct (byte_inside p e w) as (c & Hc & _); [lia|].
  destruct (blank c) eqn:Eb.
  - destruct (IH s (e - 1) w) as [e' H]; [lia..|]. exists e'. eapply bind_ok; [exact Hc|]. by rewrite Eb.
  - exists e. eapply bind_ok; [exact Hc|]. by rewrite Eb.
Qed.

(** The end of the template is taken for the end of the tag. *)
Lemma code_total p X post Y w : stands p true X post Y -> X <> [] ->
  exists b a c, template_code p (size p) w =
    Ok (p <| strip_before := b |> <| strip_after := a |> <| cur_chunk := c |>) w.
Proof using.
  intros (Hm & Ho & Hs & _) Hne. assert (0 < Z.of_nat (length X)) by (destruct X; [done|cbn [length]; lia]).
  assert (mem p !! Z.to_nat (size p) = Some 0) as H0.
  { rewrite Hm, app_assoc. replace (Z.to_nat (size p)) with (length (X ++ post)) by (rewrite length_app; lia).
    by rewrite list_lookup_middle. }
  pose proof (lookup_lt_Some _ _ _ H0) as Hl. unfold template_code. cbv zeta.
  assert (exists b s, (c ← byte_at p (off p);
    if c =? 45 then s ← skip blank p (rounds (off p + 1) (size p)) (off p + 1) (size p); mret (true, s)
    else mret (false, off p)) w = Ok (b, s) w /\ 0 <= s <= size p) as (b & s & Ef & Hsz).
  { destruct (byte_inside p (off p) w) as (c & Hc & Hlk); [lia|]. destruct (c =? 45) eqn:Ec.
    - assert (off p <> size p) as Hos by (intros Eo; rewrite Eo, H0 in Hlk; injection Hlk as <-; done).
      destruct (skip_total p (rounds (off p + 1) (size p)) (off p + 1) (size p) w) as (s' & E1 & H1); [lia|done|].
      exists true, s'. split; [|lia]. eapply bind_ok; [exact Hc|]. rewrite Ec. by eapply bind_ok.
    - exists false, (off p). split; [|lia]. eapply bind_ok; [exact Hc|]. by rewrite Ec. }
  assert (exists a e, (c ← byte_at p (size p - 1);
    if c =? 45 then e ← skip_back p (rounds s (size p - 1)) s (size p - 1); mret (true, e)
    else mret (false, size p)) w = Ok (a, e) w) as (a & e & Eb).
  { destruct (byte_inside p (size p - 1) w) as (c & Hc & _); [lia|]. destruct (c =? 45) eqn:Ec.
    - destruct (skip_back_total p (rounds s (size p - 1)) s (size p - 1) w) as (e' & E1); [lia..|].
      exists true, e'. eapply bind_ok; [exact Hc|]. rewrite Ec. by eapply bind_ok.
    - exists false, (size p). eapply bind_ok; [exact Hc|]. by rewrite Ec. }
  destruct (byte_inside p s w) as (c & Hc & _); [lia|].
  destruct (code_type c) as [t pass] eqn:Et.
  exists b, a, (mkChunk (if pass then s + 1 else s) e t (line p)).
  eapply bind_assoc_ok; [exact Ef|]. cbv beta iota.
  eapply bind_assoc_ok; [exact Eb|]. cbv beta iota. eapply bind_ok; [exact Hc|]. by rewrite Et.
Qed.

Lemma twp_unfinished w0 p X post Y (Q : template_parser * option (list Z) -> world -> Prop) w :
  stands p true X post Y -> X <> [] -> find2 37 62 post = None -> owned (gc p) w0 w ->
  (forall p' w', stands p' true X post Y -> of_template p p' -> owned (gc p') w0 w' -> Q (p', Some [27]) w') ->
  twp (template_reader E schar p) Q w.
Proof using.
  intros St Hne Hf O H. destruct (stands_rest _ _ _ _ _ St) as [Hr Hl]. pose proof St as (_ & _ & _ & _ & Hi).
  apply (twp_reader_code w0 p post); [done..|]. intros w1 S1. rewrite Hf.
  set (p1 := p <| prv_chunk := cur_chunk p |> <| gc := false |>).
  destruct (code_total p1 X post Y w1) as (b & a & c & Et); [done|done|].
  twp_step. change (size p1) with (size p) in Et. eapply twp_intro; [exact Et|]. twp_step. apply H; [done|done|].
  unfold owned. simpl. unfold same in *. simpl. destruct_and!. done.
Qed.

(** * All of a template *)

(** The last two calls. *)
Lemma twp_finish w0 p X Y ty body acc n Q w : stands p false X [] Y -> pending p ty body -> ty <> T_TYPE_EOF ->
  (1 < n)%nat -> owned (gc p) w0 w -> TplUtils.lmo w0 = L ->
  (forall p' w', gc p' = false -> of_template p p' -> same w0 w' ->
    Q (p', acc ++ [source_of tr ty (stripped p ty body)]) w') ->
  twp (read_all E schar n p acc) Q w.
Proof using Mem T.
  intros St Pe Hty Hn O HL H. destruct n as [|[|n]]; [lia..|]. cbn [read_all].
  twp_step. apply (twp_eof w0 p X Y ty body); [done..|]. intros p1 w1 St1 A1 O1 W1. cbv beta iota.
  twp_step. apply (twp_end w0 p1 X Y); [done..|]. intros p2 w2 G2 O2 W2. cbv beta iota. twp_step.
  apply H; [done| |done]. by eapply of_trans.
Qed.

(** The parser is behind a tag [body], or at the start. *)
Definition between (w0 : world) (p : template_parser) (rest : list Z) (ty : ctype) (body : list Z) (w : world) : Prop :=
  (exists X Y, stands p false X rest Y) /\ pending p ty body /\ ty <> T_TYPE_EOF /\ ty <> T_TYPE_TEXT /\
  owned (gc p) w0 w /\ TplUtils.lmo w0 = L.

Lemma between_body w0 p rest ty body w : between w0 p rest ty body w -> stripped p ty body = body.
Proof using. intros (_ & _ & _ & H & _). by destruct ty. Qed.

(** Two calls for a tag and the text before it. *)
Lemma twp_tag w0 p r ty body acc n pre post code rest Q w : between w0 p r ty body w ->
  find2 60 37 r = Some (pre, post) -> find2 37 62 post = Some (code, rest) -> code <> [45] ->
  (forall p' w', let g := tag_of code in
    between w0 p' rest (t_type g) (t_body g) w' -> strip_before p' = t_before g -> strip_after p' = t_after g ->
    of_template p p' ->
    twp (read_all E schar n p' (acc ++ [source_of tr ty body;
      piece_source tr (Text (rtrim_if (t_before g) (ltrim_if (strip_after p) pre)))])) Q w') ->
  twp (read_all E schar (S (S n)) p acc) Q w.
Proof using Mem T.
  intros B E1 E2 Hcode H. pose proof (between_body _ _ _ _ _ _ B) as Hbody.
  destruct B as ((X & Y & St) & Pe & Hty & Hty2 & O & HL). cbn [read_all].
  twp_step. apply (twp_open w0 p X r Y ty body pre post); [done..|]. intros p1 w1 St1 Pe1 O1 W1. rewrite Hbody. cbv beta iota.
  replace (X ++ pre ++ [60; 37]) with ((X ++ pre ++ [60]) ++ [37]) in St1 by (by rewrite <- !app_assoc).
  twp_step. eapply (twp_close w0 p1 _ post Y _ code rest); [done..|].
  intros p2 w2 g St2 Pe2 B2 A2 O2 W2. cbv beta iota. rewrite <- app_assoc. destruct (tag_type code).
  apply H; [|done|done|by eapply of_trans]. split_and!; eauto.
Qed.

Lemma twp_read fuel : forall w0 p rest ps ty body acc n Q w,
  between w0 p rest ty body w -> pieces fuel (strip_before p) (strip_after p) rest = Some (ps, true) ->
  (length ps + 1 < n)%nat ->
  (forall p' w', gc p' = false -> of_template p p' -> same w0 w' ->
    Q (p', acc ++ source_of tr ty body :: map (piece_source tr) ps) w') ->
  twp (read_all E schar n p acc) Q w.
Proof using Mem T.
  assert (forall w0 p ty body acc n Q w, between w0 p [] ty body w -> (1 < n)%nat ->
    (forall p' w', gc p' = false -> of_template p p' -> same w0 w' -> Q (p', acc ++ [source_of tr ty body]) w') ->
    twp (read_all E schar n p acc) Q w) as Last.
  { intros w0 p ty body acc n Q w B Hn H. rewrite <- (between_body _ _ _ _ _ _ B) in H.
    destruct B as ((X & Y & St) & Pe & Hty & Hty2 & O & HL). by apply (twp_finish w0 p X Y ty body). }
  induction fuel as [|fuel IH]; intros w0 p rest ps ty body acc n Q w B Hps Hn H.
  - destruct rest as [|c rest]; [|done]. injection Hps as <-. apply (Last w0 p ty body); [done|lia|done].
  - cbn [pieces] in Hps. destruct rest as [|c rest].
    { injection Hps as <-. apply (Last w0 p ty body); [done|lia|done]. }
    set (r := c :: rest) in *. assert (r <> []) as Hr by done. clearbody r. clear c rest.
    destruct (find2 60 37 r) as [[pre post]|] eqn:E1.
    + destruct (find2 37 62 post) as [[code rest]|] eqn:E2; [|done]. destruct (decide (code = [45])) as [|Hcode]; [done|].
      cbv zeta in Hps. destruct (pieces fuel _ _ rest) as [[ps' fin]|] eqn:E3; [|done]. injection Hps as <- ->.
      cbn [length] in Hn. destruct n as [|[|n]]; [lia..|].
      eapply (twp_tag w0 p r ty body acc n pre post code rest); [done..|]. intros p2 w2 g B2 S2 A2 O2.
      subst g. rewrite <- S2, <- A2 in E3.
      eapply (IH w0 p2 rest); [exact B2|exact E3|lia|]. intros p3 w3 G3 O3 W3. rewrite <- app_assoc.
      apply H; [done| |done]. by eapply of_trans.
    + injection Hps as <-. cbn [length] in Hn. pose proof (between_body _ _ _ _ _ _ B) as Hbody.
      destruct B as ((X & Y & St) & Pe & Hty & Hty2 & O & HL). destruct n as [|n]; [lia|]. cbn [read_all].
      twp_step. apply (twp_last w0 p X r Y ty body); [done..|]. intros p1 w1 St1 Pe1 B1 O1 W1. rewrite Hbody. cbv beta iota.
      apply (twp_finish w0 p1 (X ++ r) Y T_TYPE_TEXT (ltrim_if (strip_after p) r)); [done|done|done|lia|done|done|].
      intros p2 w2 G2 O2 W2. rewrite <- app_assoc. cbn [stripped]. rewrite B1. apply H; [done| |done]. by eapply of_trans.
Qed.

(** A tag that does not end is answered with an escape character, again and again. *)
Lemma twp_escapes w0 k : forall p X post Y acc Q w, stands p true X post Y -> X <> [] -> find2 37 62 post = None ->
  owned (gc p) w0 w ->
  (forall p' w', of_template p p' -> owned (gc p') w0 w' -> Q (p', acc ++ repeat [27] k) w') ->
  twp (read_all E schar k p acc) Q w.
Proof using.
  induction k as [|k IH]; intros p X post Y acc Q w St Hne Hf O H; cbn [read_all].
  - twp_step. rewrite app_nil_r in H. by apply H.
  - twp_step. apply (twp_unfinished w0 p X post Y); [done..|]. intros p1 w1 St1 O1 W1. cbv beta iota.
    apply (IH p1 X post Y); [done..|]. intros p2 w2 O2 W2. rewrite <- app_assoc. apply H; [by eapply of_trans|done].
Qed.

Lemma twp_read_unfinished fuel : forall w0 p rest ps ty body acc k Q w,
  between w0 p rest ty body w -> pieces fuel (strip_before p) (strip_after p) rest = Some (ps, false) ->
  (forall p' w', of_template p p' -> owned (gc p') w0 w' ->
    Q (p', acc ++ source_of tr ty body :: map (piece_source tr) ps ++ repeat [27] k) w') ->
  twp (read_all E schar (S (length ps + k)) p acc) Q w.
Proof using Mem T.
  induction fuel as [|fuel IH]; intros w0 p r ps ty body acc k Q w B Hps H; [by destruct r|].
  cbn [pieces] in Hps. destruct r as [|c r]; [done|]. set (r' := c :: r) in *. clearbody r'. clear c r.
  destruct (find2 60 37 r') as [[pre post]|] eqn:E1; [|done].
  destruct (find2 37 62 post) as [[code rest]|] eqn:E2.
  - destruct (decide (code = [45])) as [|Hcode]; [done|].
    cbv zeta in Hps. destruct (pieces fuel _ _ rest) as [[ps' fin]|] eqn:E3; [|done]. injection Hps as <- ->. cbn [length Nat.add].
    eapply (twp_tag w0 p r' ty body acc _ pre post code rest); [done..|]. intros p2 w2 g B2 S2 A2 O2.
    subst g. rewrite <- S2, <- A2 in E3.
    eapply (IH w0 p2 rest); [exact B2|exact E3|]. intros p3 w3 O3 W3. rewrite <- app_assoc.
    apply H; [|done]. by eapply of_trans.
  - injection Hps as <-. cbn [length Nat.add map app] in *. pose proof (between_body _ _ _ _ _ _ B) as Hbody.
    destruct B as ((X & Y & St) & Pe & Hty & Hty2 & O & HL). cbn [read_all].
    twp_step. apply (twp_open w0 p X r' Y ty body pre post); [done..|]. intros p1 w1 St1 Pe1 O1 W1. rewrite Hbody. cbv beta iota.
    eapply (twp_escapes w0 k p1 (X ++ pre ++ [60; 37]) post Y); [done| |done|done|].
    { intros E0. apply (f_equal length) in E0. rewrite !length_app in E0. simpl in E0. lia. }
    intros p2 w2 O2 W2. rewrite <- app_assoc. apply H; [by eapply of_trans|done].
Qed.
End memory.
End TemplateRead.
