(* ===== verification/TemplateTheorems.v ===== *)
(** The template code of the web interface as a whole: templates become the Lua source of
    their pieces, texts come out sanitised and escaped, and where the code departs. *)

From Stdlib Require Import ZArith Lia Ascii String.
From stdpp Require Import base list list_numbers numbers gmap.
From S2P Require Import Prelude CString Lmo TplUtils TplUtf8 TplUtilsSpec TplMarkup TplTheorems Template TemplateSpec TemplateRead.

Open Scope list_scope.
Open Scope Z_scope.

Module TemplateTheorems.
Import TplUtils TplUtf8 TplUtilsSpec TplMarkup TplTheorems Template TemplateSpec TemplateRead.

(** * Loading a template *)

Inductive source :=
| FromString (t : list Z)
| FromFile (s : sys) (name : list Z).

(** The text of a template; a file can be opened and mapped, is not empty, and there is a byte
    behind it on its last page. *)
Definition text_of (src : source) (t : list Z) : Prop :=
  match src with
  | FromString t' => t' = t
  | FromFile s _ => contents s = Some t /\ may_open s = true /\ may_map s = true /\ t <> [] /\
                    (length t mod PAGE_SIZE <> 0)%nat
  end.

Section load.
Context (E : env) (schar : bool).

Definition open_source (src : source) : M world (option template_parser) :=
  match src with
  | FromString t => template_string E t
  | FromFile s name => template_open E s name
  end.

(** Opening, [n] calls of the reader, closing. *)
Definition load (n : nat) (src : source) : M world (option (list (list Z))) :=
  p ← open_source src;
  match p with
  | None => mret None
  | Some p =>
      '(p, out) ← read_all E schar n p [];
      template_close p true;;
      mret (Some out)
  end.

Context (Mem : forall k, oom E k = false) (L : Lmo.st) (tr : list Z -> list Z) {T : Translator schar L tr}.

(** What the process holds for an open parser, apart from its last piece. *)
Definition opened (src : source) (w : world) : world :=
  match src with
  | FromString _ => w <| blocks ::= Z.add 1 |>
  | FromFile _ _ => w <| blocks ::= Z.add 1 |> <| tfds ::= Z.add 1 |> <| tmaps ::= Z.add 1 |>
  end.
Definition fits (src : source) (p : template_parser) : Prop :=
  match src with
  | FromString _ => file p = None
  | FromFile _ _ => file p <> None /\ fd p = true
  end.

Lemma page_nul l : (length l mod PAGE_SIZE <> 0)%nat -> exists Y, page l = l ++ 0 :: Y.
Proof using.
  intros H. unfold page. assert (0 < PAGE_SIZE)%nat as Hp by (unfold PAGE_SIZE; lia).
  pose proof (Nat.mod_upper_bound (length l) PAGE_SIZE ltac:(lia)).
  rewrite (Nat.mod_small (PAGE_SIZE - _)) by lia.
  destruct (PAGE_SIZE - length l mod PAGE_SIZE)%nat eqn:En; [lia|]. by eexists.
Qed.

Lemma twp_open_source src t Q w : text_of src t -> Z.of_nat (length t) <= max_text -> TplUtils.lmo w = L ->
  (forall p w', between L (opened src w) p t T_TYPE_INIT [] w' -> strip_before p = false -> strip_after p = false ->
    fits src p -> Q (Some p) w') ->
  twp (open_source src) Q w.
Proof using Mem.
  intros Ht Hl HL H. unfold max_text in Hl.
  assert (forall p, cur_chunk p = no_chunk -> pending p T_TYPE_INIT []) as Pe.
  { intros p Hp. exists 0, 0, 0. split_and!; [done| |done]. by exists [], (mem p). }
  destruct src as [t'|s name]; cbn [open_source].
  - simpl in Ht. subst t'. unfold template_string. twp_step. apply (twp_malloc E Mem). intros w1 S1. cbn [negb].
    twp_step. rewrite u32_small by lia. apply H; try done. split; [exists [], []; by split_and!|]. split; [by apply Pe|]. by split_and!.
  - destruct Ht as (Hc & Ho & Hm & Hne & Hp). unfold template_open. twp_step. apply (twp_malloc E Mem). intros w1 S1. cbn [negb].
    rewrite Hc, Ho, Hm. cbn [negb andb]. twp_step. twp_step. rewrite u32_small by lia.
    assert (0 < Z.of_nat (length t)) by (destruct t; [done|cbn [length]; lia]).
    replace (Z.of_nat (length t) =? 0) with false by lia. cbn [negb]. twp_step. twp_step. twp_step.
    apply H; try done. destruct (page_nul t Hp) as [Y HY]. split; [|split; [by apply Pe|]].
    + exists [], Y. split_and!; try done; simpl. rewrite Nat2Z.id, firstn_all. done.
    + split_and!; try done. unfold owned. unfold same in *. destruct_and!. simpl in *. split_and!; congruence || lia.
Qed.

Lemma twp_close_source src p p0 w w' (Q : unit -> world -> Prop) : fits src p0 -> of_template p0 p ->
  owned (gc p) (opened src w) w' -> (forall w'', same w w'' -> Q tt w'') -> twp (template_close p true) Q w'.
Proof using.
  intros F (_ & _ & Hfile & Hfd) O H. unfold template_close. twp_step. apply (twp_free_last (opened src w) (gc p)); [done|].
  intros w1 S1. twp_step. rewrite Hfile. destruct src; simpl in F.
  - rewrite F. twp_step. unfold free. twp_step. apply H. unfold same in *. destruct_and!. simpl in *. split_and!; congruence || lia.
  - destruct F as [F1 F2]. destruct (file p0); [|done]. rewrite Hfd, F2. cbn [when]. twp_step. twp_step. twp_step.
    unfold free. twp_step. apply H. unfold same in *. destruct_and!. simpl in *. split_and!; congruence || lia.
Qed.

Lemma twp_load_source n src t ps fin (out : list (list Z)) w : text_of src t -> Z.of_nat (length t) <= max_text ->
  TplUtils.lmo w = L -> pieces (length t) false false t = Some (ps, fin) ->
  (forall p w1 Q, between L (opened src w) p t T_TYPE_INIT [] w1 -> strip_before p = false -> strip_after p = false ->
    (forall p' w', of_template p p' -> owned (gc p') (opened src w) w' -> Q (p', out) w') ->
    twp (read_all E schar n p []) Q w1) ->
  exists w', load n src w = Ok (Some out) w' /\ same w w'.
Proof using Mem.
  intros Ht Hl HL Hps H. assert (twp (load n src) (fun r w' => r = Some out /\ same w w') w) as G.
  { unfold load. twp_step. apply (twp_open_source src t); [done..|]. intros p w1 B Hb Ha F. cbv beta iota.
    twp_step. apply H; [done..|]. intros p' w' O W. cbv beta iota.
    twp_step. apply (twp_close_source src p' p w); [done..|]. intros w2 S2. by twp_step. }
  apply twp_elim in G as (r & w' & E1 & -> & S1). by exists w'.
Qed.
End load.

(** A template that ends. *)
Lemma load_pieces (E : env) (schar : bool) (L : Lmo.st) (tr : list Z -> list Z) (T : Translator schar L tr)
    (n : nat) (src : source) (t : list Z) (ps : list piece) (w : world) :
  (forall k, oom E k = false) -> TplUtils.lmo w = L -> text_of src t -> Z.of_nat (length t) <= max_text ->
  pieces (length t) false false t = Some (ps, true) -> (length ps + 1 < n)%nat ->
  exists w', load E schar n src w = Ok (Some (lit " " :: map (piece_source tr) ps)) w' /\ same w w'.
Proof.
  intros Mem HL Ht Hl Hps Hn. apply (twp_load_source E schar Mem L n src t ps true); [done..|].
  intros p w1 Q B Hb Ha H. apply (twp_read E Mem schar L tr (length t) (opened src w) p t ps T_TYPE_INIT []); [done| |done|].
  - by rewrite Hb, Ha.
  - intros p' w' G O W. apply H; [done|]. rewrite G. unfold owned, same in *. simpl. destruct_and!. split_and!; congruence || lia.
Qed.

(** C18: reading a template to its end gives a blank and the Lua source of the pieces it asks for, in
    order, nothing else: texts and includes as string literals, translated where the tag asks for
    it and the catalogs have a translation, expressions and code as they stand, white space
    stripped where a tag asks for it; only the text behind the last tag is also stripped at its end when that tag
    starts with ["<%-"] ([trailing], a flaw of the code).  Closing the parser leaves nothing behind.
    The template is a string, or a file that does not fill its last page, of up to 2^26 bytes; every tag ends, none is
    ["<%-%>"] (of which the code computes a negative length), and memory is available. *)
Theorem tpl_load (E : env) (schar : bool) (L : Lmo.st) (tr : list Z -> list Z) (T : Translator schar L tr)
    (n : nat) (src : source) (t : list Z) (ps : list piece) (b : bool) (w : world) :
  (forall k, oom E k = false) -> TplUtils.lmo w = L -> text_of src t -> Z.of_nat (length t) <= max_text ->
  asked_for (length t) false false t = Some (ps, true, b) -> (length ps + 1 < n)%nat ->
  exists w', load E schar n src w = Ok (Some (lit " " :: map (piece_source tr) (trailing b ps))) w' /\ same w w'.
Proof.
  intros Mem HL Ht Hl Hw Hn. apply asked_pieces in Hw.
  apply (load_pieces E schar L tr T n src t _ w Mem HL Ht Hl Hw). by rewrite trailing_length.
Qed.


(** Without catalogs nothing is translated. *)
#[export] Instance no_catalogs schar fails : Translator schar (Lmo.init fails) (fun key => key).
Proof.
  split; [|intros; lia]. intros key w HL. exists (-2), None. split; [|by right].
  unfold translate. eapply bind_ok; [done|]. by rewrite HL.
Qed.

Definition demo : list Z := lit "<b> <%-:Save%> <%=x -%>  !<%# note %><% y=1 %>".

Definition demo_pieces : list piece :=
  [Text (lit "<b>"); Tag T_TYPE_I18N (lit "Save"); Text (lit " "); Tag T_TYPE_EXPR (lit "x "); Text (lit "!");
   Tag T_TYPE_COMMENT (lit " note "); Text []; Tag T_TYPE_CODE (lit " y=1 ")].

Lemma tpl_load_witness :
  exists w', load plenty true 10 (FromString demo) start =
    Ok (Some (lit " " :: map (piece_source (fun key => key)) demo_pieces)) w' /\ same start w'.
Proof.
  apply (tpl_load plenty true (Lmo.init []) (fun key => key) _ 10 (FromString demo) demo demo_pieces false); [done|done|done|by vm_compute|by vm_compute|simpl; lia].
Defined.

Definition torn : list Z := lit "a<%=x%>b<% y".
Definition torn_file : source := FromFile (mkSys (Some torn) true true) (lit "f").
Definition torn_pieces : list piece := [Text (lit "a"); Tag T_TYPE_EXPR (lit "x")].

(** Opening fails without a trace, whatever goes wrong. *)
Lemma open_fails (E : env) (s : sys) (name : list Z) (w : world) :
  (contents s = None \/ may_open s = false \/ may_map s = false \/ contents s = Some []) ->
  exists w', template_open E s name w = Ok None w' /\ same w w'.
Proof.
  intros H. unfold template_open, malloc, alloc, mbind, M_bind, get, modify. cbv beta iota.
  destruct (oom E (allocs w)); cbn [negb]; [by eexists|].
  destruct (contents s) as [bs|]; [|eexists; split; [reflexivity|]; unfold same; simpl; split_and!; (done || lia)].
  destruct (may_open s); cbn [negb]; [|eexists; split; [reflexivity|]; unfold same; simpl; split_and!; (done || lia)].
  assert (may_map s && negb (u32 (Z.of_nat (length bs)) =? 0) = false) as ->.
  { destruct H as [H|[H|[->|H]]]; try done. injection H as ->. by destruct (may_map s). }
  eexists; split; [reflexivity|]; unfold same; simpl; split_and!; (done || lia).
Qed.

(** The message for a tag that does not end, from what Lua says of the escape character. *)
Example unfinished_message :
  (p ← template_string plenty (lit "a" ++ [10] ++ lit "<% b"); p ← lift p;
   '(p, _) ← read_all plenty true 3 p [];
   mret (template_error p (lit "[string]:1: unexpected symbol near 'char(27)'"))) start =
  Ok (1, lit "Syntax error in [string]:1: '%>' expected before end of file") (start <| blocks := 1 |> <| allocs := 1%nat |>).
Proof. vm_compute. reflexivity. Qed.

(** Memory that fails at one allocation. *)
Definition failing (k : nat) : env := mkEnv (fun i => (i =? k)%nat) 90.
Definition string_of (t : list Z) : source := FromString t.

(** Where the code departs.  A code point above U+10FFFF passes as UTF-8.  The tag ["<%-%>"] has length -1.
    A carriage return makes a string literal Lua does not accept.  The text behind the last tag loses
    its last blanks when that tag stripped the text before it.  On a file that fills its last page, text that is
    stripped is read beyond the mapping.  When memory for a chunk is short the template ends there, without an
    error, or the source of the chunk lacks a part; [striptags] then uses a null pointer. *)
Theorem template_departs :
  (exists w' rest, utf8 plenty [244; 144; 128; 128] start = Ok (Some ([244; 144; 128; 128] ++ 0 :: rest)) w') /\
  load plenty true 9 (string_of (lit "<%-%>")) start = Undef /\
  (exists w', load plenty true 9 (string_of [97; 13; 98]) start =
     Ok (Some [lit " "; lit "write(" ++ [34; 97; 13; 98; 34] ++ lit ")"]) w' /\
     lua_string ([97; 13; 98; 34] ++ lit ")") = None) /\
  (exists w', load plenty true 9 (string_of (lit "<%-x%>a ")) start =
     Ok (Some [lit " "; lit " "; lit "x "; lit "write(" ++ [34; 97; 34] ++ lit ")"]) w') /\
  load plenty true 9 (FromFile (mkSys (Some (lit "<%x-%>" ++ repeat 32 (Z.to_nat 4090))) true true) (lit "f")) start = Undef /\
  (exists w', load (failing 5) true 9 (string_of (lit "a<%=x%>b")) start =
     Ok (Some [lit " "; lit "write(" ++ [34; 97; 34] ++ lit ")"]) w') /\
  (exists w', load (failing 3) true 9 (string_of (lit "a")) start = Ok (Some [lit " "; [97; 34] ++ lit ")"]) w') /\
  striptags (failing 0) (lit "a") start = Undef.
Proof.
  split_and!; [eexists _, _; vm_compute; reflexivity|vm_compute; reflexivity|eexists; split; vm_compute; reflexivity|
    eexists; vm_compute; reflexivity|vm_compute; reflexivity|eexists; vm_compute; reflexivity|eexists; vm_compute; reflexivity|
    vm_compute; reflexivity].
Qed.
End TemplateTheorems.
