(* ===== verification/TplCatalog.v ===== *)
(** Templates and catalogs together: loaded catalogs keep the promise the template parser
    relies on, and a message in a catalog is what the template shows. *)

From Stdlib Require Import ZArith Lia Ascii String.
From stdpp Require Import base list list_numbers numbers strings gmap sorting.
From S2P Require Import Prelude Stdio Lmo LmoSpec LmoCatalog LmoTheorems Po2lmo Po2lmoSpec Po2lmoTheorems.
From S2P Require Import TplUtils TplUtilsSpec TplTheorems Template TemplateSpec TemplateRead TemplateTheorems.

Open Scope list_scope.
Open Scope Z_scope.

Module TplCatalog.
Import Stdio TplUtils TplUtilsSpec TemplateSpec TemplateRead TemplateTheorems.
Import LmoSpec (field).
Import LmoCatalog (len, idx, count, valid, file_ok, answer, lacks).
Import Po2lmoTheorems (sorts, po_ok, canonical).

(** Archives whose texts lie inside the file, and that are not too long. *)
Definition sound (bs : list Z) : Prop :=
  len bs <= max_text /\ forall i, 0 <= i < count bs ->
    0 <= field bs (idx bs) i 8 /\ 0 <= s32 (field bs (idx bs) i 12) /\
    field bs (idx bs) i 8 + s32 (field bs (idx bs) i 12) <= len bs.

(** What the catalogs show for a key. *)
Definition translation (schar : bool) (L : Lmo.st) (key : list Z) : list Z :=
  match translate schar key (mkWorld 0 0 0 0 L) with
  | Ok (0, Some t) _ => t
  | _ => key
  end.

Lemma translate_same schar key w w' x : TplUtils.lmo w = TplUtils.lmo w' ->
  translate schar key w = Ok x w -> translate schar key w' = Ok x w'.
Proof.
  intros HL. unfold translate, mbind, M_bind, get. rewrite HL.
  destruct (Lmo.lmo_translate _ _ _) as [[r [[[m off] n]|]] s| |]; try done.
  - destruct (Lmo.maps s !! m) as [bs|]; [|done]. cbn [lift mret M_ret]. unfold mret, M_ret. destruct (_ && _ && _); [|done].
    by intros [= <-].
  - unfold mret, M_ret. by intros [= <-].
Qed.

Section catalogs.
Context (schar : bool) (L : Lmo.st) (l : list (list Z)).
Hypothesis Hans : forall key, exists r, Lmo.lmo_translate schar (Some key) L = Ok r L /\
  answer L l (Lmo.lmo_canon_hash schar key) r.
Hypothesis Hsound : Forall sound l.

(** A lookup answers with no text, or with one inside an archive. *)
Lemma translate_cases key w : TplUtils.lmo w = L ->
  (translate schar key w = Ok (-1, None) w /\ Forall (lacks (Lmo.lmo_canon_hash schar key)) l) \/
  exists m off n bs, Lmo.lmo_translate schar (Some key) L = Ok (0, Some (m, off, n)) L /\
    Lmo.maps L !! m = Some bs /\ 0 <= off /\ 0 <= n /\ off + n <= len bs /\ len bs <= max_text /\
    translate schar key w = Ok (0, Some (take (Z.to_nat n) (drop (Z.to_nat off) bs))) w.
Proof using Hans Hsound.
  intros HL. destruct (Hans key) as (r & Et & [[-> Hl]|(pre & bs & post & i & m & El & Hp & Hm & Hi & Hf & ->)]).
  - left. split; [|done]. unfold translate. eapply bind_ok; [done|]. by rewrite HL, Et.
  - right. rewrite Forall_forall in Hsound. destruct (Hsound bs) as [Hmax Hin]; [rewrite El; set_solver|].
    destruct (Hin i Hi) as (H1 & H2 & H3).
    eexists m, _, _, bs. split_and!; try done. unfold translate. eapply bind_ok; [done|]. rewrite HL, Et.
    eapply bind_ok; [by rewrite Hm|]. change (Z.of_nat (length bs)) with (len bs).
    rewrite !(proj2 (Z.leb_le _ _)) by lia. done.
Qed.

Lemma catalog_translator : Translator schar L (translation schar L).
Proof using Hans Hsound.
  split.
  - intros key w HL. unfold translation.
    destruct (translate_cases key (mkWorld 0 0 0 0 L) eq_refl) as [[E1 _]|(m & off & n & bs & _ & _ & _ & _ & _ & _ & E1)];
      rewrite E1; apply (translate_same _ _ _ w) in E1; try done; eexists _, _; (split; [exact E1|]); [by right|by left].
  - intros key. unfold translation.
    destruct (translate_cases key (mkWorld 0 0 0 0 L) eq_refl) as [[-> _]|(m & off & n & bs & _ & _ & _ & _ & Hn & Hmax & ->)]; [lia|].
    rewrite length_take, length_drop. unfold len in *. lia.
Qed.
End catalogs.

(** The library of languages keeps the promise as long as a language is in use. *)
Lemma library_translator schar lb L name : LmoTheorems.lib_rep lb L -> LmoTheorems.current lb = Some name ->
  (forall l, (name, l) ∈ LmoTheorems.loaded lb -> Forall sound l) -> Translator schar L (translation schar L).
Proof.
  intros R Hc Hs. assert (NoDup (fst <$> LmoTheorems.loaded lb)) as Hn.
  { destruct R as (cs & _ & -> & _ & N & _). by rewrite <- list_fmap_compose. }
  assert (forall key, exists r l, (name, l) ∈ LmoTheorems.loaded lb /\ Lmo.lmo_translate schar (Some key) L = Ok r L /\
    answer L l (Lmo.lmo_canon_hash schar key) r) as H.
  { intros key. destruct (LmoTheorems.translate_good schar (fun _ => None) (fun _ => None) (fun _ _ => false) lb L (Some key) R)
      as (r & Et & _ & H). rewrite Hc in H. destruct H as (l & Hl & A). by exists r, l. }
  destruct (H []) as (_ & l & Hl & _). apply (catalog_translator schar L l); [|by apply Hs]. intros key.
  destruct (H key) as (r & l' & Hl' & Et & A). exists r. split; [done|].
  assert ((name, l') = (name, l)) as [= ->]; [|done].
  by apply (Po2lmoTheorems.nodup_inj fst (LmoTheorems.loaded lb)).
Qed.

(** C19: from a message catalog to the page.  The converter turns the catalog into an archive; the web interface
    loads it; then templates show for the key of a message that was kept its value, and for a text whose hash is that of no
    kept key the text itself, and otherwise become the source of the pieces they ask for
    (the text behind a last ["<%-"] tag is also stripped at its end, [trailing]).
    Keys and values are single lines of less than 4 KB without NUL, no two kept keys have the same hash, a message is
    kept when key and value differ in their hash, and its key is canonical: no two spaces in a row and none at the ends (other keys
    are in the archive and never found, [po2lmo_departs]).  Archive and template have at most 2^26 bytes, the name of the
    language at most five characters; the template ends all its tags, has no ["<%-%>"], and as a file does not fill its last page. *)
Theorem tpl_catalog (wide schar : bool) (qsort : list Po2lmo.lmo_entry -> list Po2lmo.lmo_entry) (junk : list Z)
    (input output : string) (ms : list Po2lmoSpec.message) (s : fs) :
  sorts qsort -> po_ok schar ms -> quiet s -> files s !! input = Some (Po2lmoSpec.po ms) -> input <> output ->
  (input ∉ locked s) -> (output ∉ locked s) -> (exists m, m ∈ ms /\ Po2lmoSpec.kept schar m = true) ->
  exists s' bs, Po2lmo.main schar qsort junk [input; output] s = Ok 0 s' /\ files s' !! output = Some bs /\ valid bs /\
    (len bs <= max_text -> forall file dir_of fnmatch name dir,
      (forall p x, file p = Some x -> file_ok x) -> LmoTheorems.short name ->
      LmoTheorems.found_in file dir_of fnmatch name dir = Some [bs] ->
      exists L tr, Lmo.lmo_load_catalog wide file dir_of fnmatch name dir (Lmo.init []) = Ok 0 L /\
        (forall k v, (k, v) ∈ ms -> Po2lmoSpec.kept schar (k, v) = true -> canonical k -> tr k = v) /\
        (forall k, (forall m, m ∈ ms -> Po2lmoSpec.kept schar m = true ->
            Lmo.sfh_hash schar m.1 <> Lmo.lmo_canon_hash schar k) -> tr k = k) /\
        forall E n src t ps b w, (forall k, oom E k = false) -> TplUtils.lmo w = L -> text_of src t ->
          Z.of_nat (length t) <= max_text -> asked_for (length t) false false t = Some (ps, true, b) -> (length ps + 1 < n)%nat ->
          exists w', load E schar n src w = Ok (Some (lit " " :: map (piece_source tr) (trailing b ps))) w' /\ same w w').
Proof.
  intros Q P Hq Hi Hne L1 L2 Hk. pose proof P as (P1 & P2 & P3).
  destruct (Po2lmoTheorems.po_converts schar qsort junk input output ms s) as [C1 C2]; [done..|].
  set (bs := Po2lmoSpec.image schar qsort ms) in *.
  exists (Stdio.put output bs s), bs. split_and!; [done|apply files_put|done|].
  intros Hlen file dir_of fnmatch name dir F Sh Fo.
  destruct (Po2lmoTheorems.load_alone wide schar file dir_of fnmatch name dir bs F Sh Fo) as (L & T1 & T2).
  assert (Forall sound [bs]) as Hs.
  { apply Forall_singleton. split; [done|]. intros i. by apply (Po2lmoTheorems.image_inside schar qsort Q ms P). }
  exists L, (translation schar L). split_and!; [done| | |].
  - intros k v Hm Hkm Hc. rewrite Forall_forall in P1. pose proof (Po2lmoTheorems.msg_key (k, v) (P1 _ Hm)) as Hkl.
    destruct (T2 k) as (r & R1 & R2). rewrite Po2lmoTheorems.canonical_hash in R2 by done.
    destruct (Po2lmoTheorems.image_answer schar qsort Q ms P L r (k, v) Hm Hkm R2) as (mp & off & -> & M1 & M2). simpl in *.
    destruct (translate_cases schar L [bs] T2 Hs k (mkWorld 0 0 0 0 L) eq_refl) as [[E1 _]|(m & off' & n & bs' & E0 & Em & _ & _ & _ & _ & E1)].
    + unfold translate in E1. unfold mbind, M_bind, get in E1. simpl in E1. rewrite R1 in E1.
      unfold lift in E1. rewrite M1 in E1. unfold mret, M_ret in E1. by destruct (_ && _ && _) in E1.
    + unfold translation. rewrite E1. rewrite R1 in E0. injection E0 as <- <- <-. rewrite M1 in Em. injection Em as <-.
      by rewrite Nat2Z.id.
  - intros k Hno. unfold translation. destruct (T2 k) as (r & R1 & R2).
    destruct R2 as [[-> _]|(pre & b & post & j & mp & A1 & A2 & A3 & A4 & A5 & ->)].
    + unfold translate, mbind, M_bind, get. simpl. by rewrite R1.
    + exfalso. destruct pre as [|p [|]]; simpl in A1; try done. injection A1 as <- <-.
      destruct (Po2lmoTheorems.image_key schar qsort Q ms P j A4) as (m & M1 & M2 & M3). apply (Hno m M1 M2). rewrite <- M3. exact A5.
  - intros E n src t ps b w Mem HL Ht Hl Hps%asked_pieces Hn.
    apply (load_pieces E schar L _ (catalog_translator schar L [bs] T2 Hs) n src t _ w); try done.
    by rewrite trailing_length.
Qed.

(** A page with a text of the catalog. *)
Lemma tpl_catalog_witness :
  exists bs L w', Lmo.lmo_load_catalog true (Po2lmoTheorems.one_file bs) LmoTheorems.demo_dir LmoTheorems.demo_match "de"
      (Some "i18n"%string) (Lmo.init []) = Ok 0 L /\
    load TplTheorems.plenty true 5 (FromString (lit "<%:Save%>")) (mkWorld 0 0 0 0 L) =
      Ok (Some [lit " "; lit " "; lit "write(" ++ [34] ++ lit "Sichern" ++ [34] ++ lit ")"]) w'.
Proof.
  destruct (tpl_catalog true true Po2lmoTheorems.sort_entries Po2lmo.zeros "base.po" "base.de.lmo"
    Po2lmoTheorems.demo_messages (Po2lmoTheorems.disk (Po2lmoSpec.po Po2lmoTheorems.demo_messages))) as (s' & bs & H1 & H2 & H3 & H4).
  - exact Po2lmoTheorems.sort_sorts.
  - apply (bool_decide_unpack (po_ok true Po2lmoTheorems.demo_messages)). vm_compute. exact I.
  - reflexivity.
  - reflexivity.
  - discriminate.
  - apply not_elem_of_empty.
  - apply not_elem_of_empty.
  - exists (Po2lmo.bytes "Save", Po2lmo.bytes "Sichern"). split; [by left|]. vm_compute. reflexivity.
  - exists bs. destruct (H4 ltac:(vm_compute in H1; injection H1 as <-; vm_compute in H2; injection H2 as <-; by vm_compute)
      (Po2lmoTheorems.one_file bs) LmoTheorems.demo_dir LmoTheorems.demo_match "de"%string (Some "i18n"%string))
      as (L & tr & L1 & L2 & L3 & L4).
    + intros p x. unfold Po2lmoTheorems.one_file. destruct (String.eqb _ _); [|discriminate]. intros [= <-]. right. right. exact H3.
    + unfold LmoTheorems.short. simpl. lia.
    + unfold LmoTheorems.found_in. simpl. unfold LmoCatalog.wanted. simpl. rewrite decide_True by exact H3. reflexivity.
    + exists L. destruct (L4 TplTheorems.plenty 5%nat (FromString (lit "<%:Save%>")) (lit "<%:Save%>")
        [Text []; Tag Template.T_TYPE_I18N (lit "Save")] false (mkWorld 0 0 0 0 L)) as (w' & W1 & W2);
        [done|done|done|by vm_compute|by vm_compute|simpl; lia|].
      exists w'. split; [exact L1|]. rewrite W1. unfold trailing, map, piece_source, source_of, inner.
      rewrite (L2 (lit "Save") (lit "Sichern")); [reflexivity|by left|by vm_compute|by vm_compute].
Defined.
End TplCatalog.
